(* ===== verification/_CoqProject ===== *)
-Q . S2P
Prelude.v
Bitmap.v
Lock.v
Block.v
Store.v
Cache.v
FsState.v
Inode.v
InodeSpec.v
InodeGrow.v
InodeWrite.v
File.v
FreeMap.v
FreeMapSpec.v
Directory.v
Filesys.v
FsExample.v
FsProps.v
DirSpec.v
CString.v
KList.v
Vaddr.v
Palloc.v
Pagedir.v
Sched.v
Synch.v
Thread.v
ThreadSpec.v
Timer.v
ThreadCreate.v
Args.v
Intq.v
Process.v
Exception.v
Syscall.v
SyscallSpec.v
Arith.v
Sort.v
ListSort.v
Stdio.v
Ustar.v
Random.v
Malloc.v
MallocInv.v
MallocSpec.v
MallocProps.v
Hash.v
HashSpec.v
HashProps.v
Partition.v
Io.v
Vga.v
Gdt.v
Interrupt.v
Serial.v
Rtc.v
Kbd.v
Ide.v
