(* ===== verification/Prelude.v ===== *)
(** * Prelude: a verification of the Hollow Moose kernel

    Hollow Moose is a Pintos kernel: threads and their synchronisation, virtual memory
    for user programs, a buffer cache and an indexed file system with directories,
    processes and system calls.  This library models its C code, under
    src/pintos/src/, as executable functions and proves what they do.  The same
    sources appear a second time under src/pintos/tests/threads/src/, an old copy that
    is not modelled.

    ** How the code is modelled

    A C function is a Rocq function of the same name.  Code without state returns
    [res A]: [Ok a] when it returns, [Panic] when an [ASSERT] fails or [PANIC] is
    called, [Fault] for undefined behaviour (an access outside an object, a null
    dereference, the value of a function that returned none), [Hang] when it does not
    return.  Code with state is in the monad [M S], from a state to a result and a
    state.  Machine integers are values of [Z] with the wrap-around written out ([u32],
    [s32], [x +u y]).  A loop of the code is [loop] or [mloop] with fuel, a [Fixpoint]
    where it counts; a theorem stated with [wp] or [mwp], or as an equation with [Ok],
    includes that the fuel is enough and that no assertion fails.  Printing is not
    modelled (messages on the console, debug dumps, statistics), except for what a
    program writes to the console.

    ** The parts, bottom up

    - Prelude: the monads, loops, machine integers, arrays and little-endian bytes.
    - Bitmap (lib/kernel/bitmap.c): the bits of an array of 32-bit words; scanning,
      flipping, reading and writing as bytes.
    - Lock: locks as seen by code that one thread runs on its own (the holder, and the
      panic or hang of a misuse); the file system and page allocator use this view.
      Synch models the locks themselves.
    - Block (devices/block.c) and Cache (filesys/cache.c): the buffer cache over an
      abstract device driver ([Class driver]).  Store is the interface between the
      cache and the file system ([Class sector_store]), instantiated by the cache and
      by a flat array of sectors; the file system is proved against the interface.
    - FsState: the heap of [struct inode], [struct file] and [struct dir] that the file
      system shares, addressed by pointers.  Inode (filesys/inode.c), File, FreeMap,
      Directory, Filesys: the layers of the file system, every operation on that state.
      The sector allocator an inode uses is an argument of the definitions ([alloc],
      [release]) and a class of laws in the theorems; FreeMapSpec proves the laws of the
      free map.  The recursion between the free map and its own file is bounded by
      [depth]: growing the free map's file never happens, so 2 is enough.
      InodeSpec, InodeGrow and InodeWrite prove reading, growing and writing; FsProps
      holds the theorems; FsExample is a small formatted device to try them on;
      DirSpec proves what lookup and addition do to a directory.
    - CString (lib/string.c): strings and [strtok_r] on a byte-addressed memory.
      KList (lib/kernel/list.c): the intrusive list on a heap of links, refined by
      mathematical lists; the kernel's lists are such lists from there on.
    - Vaddr (threads/vaddr.h, pte.h), Palloc (threads/palloc.c), Pagedir
      (userprog/pagedir.c): page table entries as bits, two pools of pages with their
      contents, page tables stored word by word in those pages.
    - Malloc (threads/malloc.c): the kernel's allocator on the pages of Palloc and the
      lists of KList; MallocInv holds its invariant and how it changes, MallocSpec the
      specification of each operation, MallocProps the theorems: [heap_is] relates the
      memory to the finite map of the blocks handed out.  The locks of its descriptors
      are used by one thread at a time; bytes, links and arena headers of a page are
      kept apart, since no byte is used in two of these ways at once.  What free memory
      holds in C, list links and the 0xcc of pages given back, is not written into the
      bytes: no theorem says anything of the bytes of memory that is not handed out.
    - Sched (threads/thread.c): the state of the kernel's threads; a thread is named by
      the address of its page, a context switch changes [running].  Synch
      (threads/synch.c): functions that sleep are sequences of steps ([instr]), each a part
      that runs with interrupts off or a single load or store, so that the waiting list of
      a condition, which is changed with interrupts on, is read and written in two steps;
      the machine [step] interleaves the threads, and its theorems are invariants of every
      reachable state.  Thread, ThreadSpec, ThreadCreate: the rest of thread.c.  Timer
      (devices/timer.c, the dispatch of threads/interrupt.c): ticks, sleeping, delays.
      Intq: interrupt queues and keyboard input.
    - Args, Process (userprog/process.c), Exception (userprog/exception.c), Syscall
      (userprog/syscall.c), SyscallSpec: user programs.  [kernel] puts the threads and
      memory beside the file system; a call that exits, halts or waits in a loop of
      [thread_yield] ends with the outcome that says so.
    - Hash (lib/kernel/hash.c): hash tables on the lists of KList.  What malloc answers
      is an argument whose law is the class [fresh_answers]; HashSpec proves the
      operations on the buckets, HashProps that a table is a finite map.
    - Partition (devices/partition.c): partitions as block devices over other block
      devices, and the scan of partition tables.
    - Io (devices/pit.c, speaker.c): the ports ([Class ports]) on which the drivers
      work, the timer chip and the speaker.  The chip behind the ports of a driver is a
      class of laws beside the driver, with a small instance: Vga (devices/vga.c), the
      text screen; Interrupt (threads/interrupt.c), gates, registrations, the interrupt
      controllers and dispatch; Serial (devices/serial.c, input.c), the serial port with
      its queue; Kbd (devices/kbd.c), the keyboard; Ide (devices/ide.c), the channels of
      IDE disks; Rtc (devices/rtc.c), the clock chip.  What Ide's theorem says of
      sectors below 2^28 is what [driver_ok] in Block asks of a driver.  Gdt (userprog/gdt.c, tss.c): segment descriptors.
    - Of the C library: Arith (lib/arithmetic.c), 64-bit division; Sort (lib/stdlib.c),
      heap sort and binary search of arrays; ListSort, the merge sort of KList; Stdio
      (lib/stdio.c, lib/user/console.c), formatted output over an abstract character
      function, and [atoi]; Ustar (lib/ustar.c), archive headers; Random
      (lib/random.c).

    ** What is proved

    - Storage: the cache is a set of sectors with read and write whatever the order of
      operations and evictions, and a flush makes the device equal to it; reading and
      writing a file at any offset reads and writes exactly those bytes, through
      direct, indirect and doubly indirect blocks, and grows the file with zeros (what a
      write leaves behind the length of a file is zero when it was so before);
      sectors are handed out at most once; creating and deleting take and give back
      exactly the file's sectors; a directory is a finite map from names to sectors.
    - Memory: pages are handed out at most once; blocks of [malloc] never overlap and
      are given back exactly; mapping a page changes the
      translation of exactly that page; a new page directory maps nothing.
    - Threads: at most one thread holds a lock, no wake-up of a semaphore is lost and
      calls fail only when they are misused, in every interleaving; two threads never
      change the waiting list of a condition at once, if it is used with one lock; the scheduler is
      round robin; a tick wakes exactly the sleepers that are due.
    - Programs: the segments of an executable stay in user space; the argument page is
      what a C program expects; arguments of system calls are the program's own bytes.
    - Devices: a partition is a window of its disk and a scan registers exactly the
      partitions of the table; an IDE channel is two arrays of sectors, however long the
      disks take, and the driver never writes to a busy channel; the screen shows the end of the text written; the serial port loses,
      repeats and reorders no byte; the keys of a US keyboard type their characters; every vector
      keeps the gate and handler it was registered with; descriptors are read back as
      they were made; the clock is read right when no update is under way.
    - The C library: the division routines divide, the sorts sort (the list sort is
      stable and equal to insertion), hash tables are maps,
      [vsnprintf] never leaves its buffer, numbers and
      archive headers are read back as they were written.
    - Defects: where the code does not do what it means to, a theorem or an entry of
      the findings says so (the cache's duplicate sectors, the use after free when a
      large file is deleted, the lost wake-up of [thread_sleep], descriptors that are
      never freed, the clock that is a month ahead and can be read as a
      mixture of two times, and others).

    ** Bounds and fuel

    Loops over words, bits, sectors, pages and list elements are structural.  Fuel is
    the number of turns plus one where the code counts (reading, writing, growing,
    loading), [SCAN_FUEL] for scans of a directory (more entries than the largest file
    holds), the size of memory for strings.  Where a loop can run for ever ([timer_calibrate],
    argument lists longer than 255 words) running out of fuel is [Hang] or [Fault].

    ** Not modelled

    The bus and its devices (devices/pci.c, the USB stack), start-up and its command line (init.c, the loader and assembly files), the console of
    the kernel (lib/kernel/console.c), powering off (shutdown.c beyond the reboot that the
    keyboard asks for), copying files in and out for the tests (filesys/fsutil.c), the
    assembly of system call stubs, the interactive tests and example programs, and
    utilities of the host. *)

From stdpp Require Export prelude list gmap numbers.
From Stdlib Require Export ZArith Lia.

#[global] Open Scope Z_scope.

(** ** Outcomes of kernel code

    [Ok a]: the C code returned [a].  [Panic]: an [ASSERT] failed or [PANIC]
    was called.  [Fault]: undefined behaviour (an access outside an object, a
    null dereference).  [Hang]: the code does not return (it waits for a lock
    nobody will release, or a loop ran out of the fuel its definition gives
    it; every loop of the development comes with a proof that its fuel is
    enough). *)
Inductive res (A : Type) : Type :=
  | Ok (a : A)
  | Panic
  | Fault
  | Hang.
Arguments Ok {A} a.
Arguments Panic {A}.
Arguments Fault {A}.
Arguments Hang {A}.

#[global] Instance res_ret : MRet res := fun A a => Ok a.
#[global] Instance res_bind : MBind res := fun A B f m =>
  match m with Ok a => f a | Panic => Panic | Fault => Fault | Hang => Hang end.
#[global] Instance res_fmap : FMap res := fun A B f m =>
  match m with Ok a => Ok (f a) | Panic => Panic | Fault => Fault | Hang => Hang end.

#[global] Instance res_eq_dec `{EqDecision A} : EqDecision (res A).
Proof. solve_decision. Defined.

(** [ASSERT (c)] of lib/debug.h. *)
Definition ASSERT (c : bool) : res unit := if c then Ok tt else Panic.

(** An access that is defined only when the lookup succeeds. *)
Definition deref {A} (o : option A) : res A :=
  match o with Some a => Ok a | None => Fault end.

(** *** State-passing kernel code *)
Definition M (S A : Type) : Type := S -> res (A * S).

#[global] Instance M_ret {S} : MRet (M S) := fun A a s => Ok (a, s).
#[global] Instance M_bind {S} : MBind (M S) := fun A B f m s =>
  match m s with
  | Ok (a, s') => f a s'
  | Panic => Panic | Fault => Fault | Hang => Hang
  end.

Definition lift {S A} (r : res A) : M S A := fun s =>
  match r with Ok a => Ok (a, s) | Panic => Panic | Fault => Fault | Hang => Hang end.
Definition get {S} : M S S := fun s => Ok (s, s).
Definition put {S} (s : S) : M S unit := fun _ => Ok (tt, s).
Definition modify {S} (f : S -> S) : M S unit := fun s => Ok (tt, f s).
Definition gets {S A} (f : S -> A) : M S A := fun s => Ok (f s, s).
Definition panic {S A} : M S A := fun _ => Panic.
Definition fault {S A} : M S A := fun _ => Fault.
Definition hang {S A} : M S A := fun _ => Hang.
Definition assert {S} (c : bool) : M S unit := lift (ASSERT c).

(** ** Loops

    [loop fuel body s] runs [body] until it returns [inr r]; [inl s'] is the
    next iteration. *)
Fixpoint loop {St R : Type} (fuel : nat) (body : St -> res (St + R)) (s : St) : res R :=
  match fuel with
  | O => Hang
  | S fuel' =>
      match body s with
      | Ok (inl s') => loop fuel' body s'
      | Ok (inr r) => Ok r
      | Panic => Panic | Fault => Fault | Hang => Hang
      end
  end.

(** The same loop for state-passing code: [l] is the loop's local variables. *)
Fixpoint mloop {St L R : Type} (fuel : nat) (body : L -> M St (L + R)) (l : L) : M St R :=
  fun s =>
  match fuel with
  | O => Hang
  | S fuel' =>
      match body l s with
      | Ok (inl l', s') => mloop fuel' body l' s'
      | Ok (inr r, s') => Ok (r, s')
      | Panic => Panic | Fault => Fault | Hang => Hang
      end
  end.

(** [for (i = start; i < start + n; i++) s = body (i, s)] *)
Fixpoint for_range {St : Type} (n : nat) (i : Z) (body : Z -> St -> res St) (s : St) : res St :=
  match n with
  | O => Ok s
  | S n' =>
      match body i s with
      | Ok s' => for_range n' (i + 1) body s'
      | Panic => Panic | Fault => Fault | Hang => Hang
      end
  end.

(** ** Machine integers *)
Definition u8 (z : Z) : Z := z mod 2 ^ 8.
Definition u32 (z : Z) : Z := z mod 2 ^ 32.
Definition u64 (z : Z) : Z := z mod 2 ^ 64.
Definition s32 (z : Z) : Z := (z + 2 ^ 31) mod 2 ^ 32 - 2 ^ 31.
Definition s64 (z : Z) : Z := (z + 2 ^ 63) mod 2 ^ 64 - 2 ^ 63.

#[global] Arguments u8 : simpl never.
#[global] Arguments u32 : simpl never.
#[global] Arguments u64 : simpl never.
#[global] Arguments s32 : simpl never.
#[global] Arguments s64 : simpl never.

Declare Scope cint_scope.
Delimit Scope cint_scope with cint.
Notation "x +u y" := (u32 (x + y)) (at level 50, left associativity) : cint_scope.
Notation "x -u y" := (u32 (x - y)) (at level 50, left associativity) : cint_scope.
Notation "x *u y" := (u32 (x * y)) (at level 40, left associativity) : cint_scope.
#[global] Open Scope cint_scope.

Definition is_u8 (z : Z) : Prop := 0 <= z < 2 ^ 8.
Definition is_u32 (z : Z) : Prop := 0 <= z < 2 ^ 32.
Definition is_u64 (z : Z) : Prop := 0 <= z < 2 ^ 64.
Definition is_s32 (z : Z) : Prop := - 2 ^ 31 <= z < 2 ^ 31.

(** [DIV_ROUND_UP] and [ROUND_UP] of lib/round.h on unsigned 32-bit operands. *)
Definition DIV_ROUND_UP (x step : Z) : Z := (x +u step -u 1) / step.
Definition ROUND_UP (x step : Z) : Z := (x +u step -u 1) / step *u step.

(** ** Arrays: lists indexed by C integers *)
Definition znth {A} (l : list A) (i : Z) : option A :=
  if decide (0 <= i) then l !! Z.to_nat i else None.
Definition zset {A} (l : list A) (i : Z) (a : A) : option (list A) :=
  if decide (0 <= i < Z.of_nat (length l)) then Some (<[Z.to_nat i := a]> l) else None.
Definition zlen {A} (l : list A) : Z := Z.of_nat (length l).
(** [size] elements from index [off], defined only inside the array. *)
Definition zslice {A} (l : list A) (off size : Z) : option (list A) :=
  if decide (0 <= off /\ 0 <= size /\ off + size <= zlen l)
  then Some (take (Z.to_nat size) (drop (Z.to_nat off) l)) else None.
(** Overwrite the elements from index [off] with [new], defined only inside. *)
Definition zsplice {A} (l : list A) (off : Z) (new : list A) : option (list A) :=
  if decide (0 <= off /\ off + zlen new <= zlen l)
  then Some (take (Z.to_nat off) l ++ new ++ drop (Z.to_nat off + length new) l) else None.

(** Little-endian bytes. *)
Fixpoint le_bytes (n : nat) (z : Z) : list Z :=
  match n with O => [] | S n' => z mod 256 :: le_bytes n' (z / 256) end.
Fixpoint le_val (bs : list Z) : Z :=
  match bs with [] => 0 | b :: bs' => b + 256 * le_val bs' end.
(** Arrays of 32-bit words as bytes in memory order, and back. *)
Definition words_bytes (ws : list Z) : list Z := flat_map (le_bytes 4) ws.
Fixpoint bytes_words (n : nat) (bs : list Z) : list Z :=
  match n with O => [] | S n' => le_val (take 4 bs) :: bytes_words n' (drop 4 bs) end.

(** ** Total-correctness reasoning

    [wp r Q]: [r] returns and its value satisfies [Q].  [mwp m s Q]: the
    state-passing code [m], run in [s], returns a value and a state that
    satisfy [Q].  Both exclude [Panic], [Fault] and [Hang], so a specification
    stated with them includes termination and the absence of failed
    assertions. *)
Definition wp {A} (r : res A) (Q : A -> Prop) : Prop :=
  match r with Ok a => Q a | _ => False end.
Definition mwp {St A} (m : M St A) (s : St) (Q : A -> St -> Prop) : Prop :=
  match m s with Ok (a, s') => Q a s' | _ => False end.

Section wp.
Context {A B : Type}.
Implicit Types (r : res A) (Q : A -> Prop).

Lemma wp_ok r Q : wp r Q <-> exists a, r = Ok a /\ Q a.
Proof. destruct r; simpl; naive_solver. Qed.
Lemma wp_eq r a : wp r (fun x => x = a) <-> r = Ok a.
Proof. destruct r; simpl; naive_solver. Qed.
Lemma wp_mono r Q Q' : wp r Q -> (forall a, Q a -> Q' a) -> wp r Q'.
Proof. destruct r; simpl; naive_solver. Qed.
Lemma wp_ret (a : A) Q : Q a -> wp (mret a) Q.
Proof. done. Qed.
Lemma wp_bind r (f : A -> res B) (Q : B -> Prop) :
    wp r (fun a => wp (f a) Q) -> wp (r ≫= f) Q.
Proof. by destruct r. Qed.
Lemma wp_ASSERT (c : bool) (Q : unit -> Prop) : c = true -> Q tt -> wp (ASSERT c) Q.
Proof. by intros ->. Qed.
Lemma wp_deref (o : option A) a Q : o = Some a -> Q a -> wp (deref o) Q.
Proof. by intros ->. Qed.
Lemma wp_and r Q Q' : wp r Q -> wp r Q' -> wp r (fun a => Q a /\ Q' a).
Proof. by destruct r. Qed.
End wp.

Section mwp.
Context {St A B : Type}.
Implicit Types (m : M St A) (Q : A -> St -> Prop).

Lemma mwp_ok m s Q : mwp m s Q <-> exists a s', m s = Ok (a, s') /\ Q a s'.
Proof. unfold mwp. destruct (m s) as [[]| | |]; naive_solver. Qed.
Lemma mwp_mono m s Q Q' : mwp m s Q -> (forall a s', Q a s' -> Q' a s') -> mwp m s Q'.
Proof. unfold mwp. destruct (m s) as [[]| | |]; naive_solver. Qed.
Lemma mwp_same m m' s s' Q : m s = m' s' -> mwp m' s' Q -> mwp m s Q.
Proof. unfold mwp. by intros ->. Qed.
Lemma mwp_ret (a : A) s Q : Q a s -> mwp (mret a) s Q.
Proof. done. Qed.
Lemma mwp_bind m (f : A -> M St B) s (Q : B -> St -> Prop) :
    mwp m s (fun a s' => mwp (f a) s' Q) -> mwp (m ≫= f) s Q.
Proof. unfold mwp, mbind, M_bind. by destruct (m s) as [[]| | |]. Qed.
Lemma mwp_bind_inv m (f : A -> M St B) s (Q : B -> St -> Prop) :
    mwp (m ≫= f) s Q -> mwp m s (fun a s' => mwp (f a) s' Q).
Proof. unfold mwp, mbind, M_bind. by destruct (m s) as [[]| | |]. Qed.
Lemma mwp_get s (Q : St -> St -> Prop) : Q s s -> mwp get s Q.
Proof. done. Qed.
Lemma mwp_put s s' (Q : unit -> St -> Prop) : Q tt s' -> mwp (put s') s Q.
Proof. done. Qed.
Lemma mwp_gets (f : St -> A) s Q : Q (f s) s -> mwp (gets f) s Q.
Proof. done. Qed.
Lemma mwp_modify f s (Q : unit -> St -> Prop) : Q tt (f s) -> mwp (modify f) s Q.
Proof. done. Qed.
Lemma mwp_lift (r : res A) s Q : wp r (fun a => Q a s) -> mwp (lift r) s Q.
Proof. unfold mwp, lift. by destruct r. Qed.
Lemma mwp_assert (c : bool) s (Q : unit -> St -> Prop) :
    c = true -> Q tt s -> mwp (assert c) s Q.
Proof. by intros ->. Qed.
End mwp.

(** One step of symbolic execution: [wp_step] decomposes the head of the
    program; the side condition of an assertion or a lookup is left to the
    caller when [lia]/[done] do not settle it. *)
Ltac wp_step :=
  lazymatch goal with
  | |- wp (_ ≫= _) _ => apply wp_bind
  | |- wp (mret _) _ => apply wp_ret
  | |- wp (Ok _) _ => apply wp_ret
  | |- wp (ASSERT _) _ => apply wp_ASSERT
  | |- mwp (_ ≫= _) _ _ => apply mwp_bind
  | |- mwp (mret _) _ _ => apply mwp_ret
  | |- mwp get _ _ => apply mwp_get
  | |- mwp (put _) _ _ => apply mwp_put
  | |- mwp (gets _) _ _ => apply mwp_gets
  | |- mwp (modify _) _ _ => apply mwp_modify
  | |- mwp (lift _) _ _ => apply mwp_lift
  | |- mwp (assert _) _ _ => apply mwp_assert
  end; cbv beta.

Ltac bool_goal :=
  repeat match goal with
  | |- (_ && _)%bool = true => apply andb_true_intro; split
  | |- bool_decide _ = true => apply bool_decide_eq_true_2
  | |- (_ <? _) = true => apply Z.ltb_lt
  | |- (_ <=? _) = true => apply Z.leb_le
  | |- (_ =? _) = true => apply Z.eqb_eq
  | |- negb _ = true => apply negb_true_iff
  end.

Lemma loop_wp {St R} (I : St -> Prop) (meas : St -> nat) (Q : R -> Prop)
    (body : St -> res (St + R)) :
  (forall s, I s -> wp (body s) (fun x =>
     match x with inl s' => I s' /\ (meas s' < meas s)%nat | inr r => Q r end)) ->
  forall fuel s, I s -> (meas s < fuel)%nat -> wp (loop fuel body s) Q.
Proof.
  intros Hb fuel. induction fuel as [|fuel IH]; intros s Hs Hf; [lia|]; simpl.
  specialize (Hb s Hs). destruct (body s) as [[s'|r]| | |]; simpl in *; try done.
  destruct Hb. apply IH; [done|lia].
Qed.

Lemma mloop_wp {St L R} (I : L -> St -> Prop) (meas : L -> nat) (Q : R -> St -> Prop)
    (body : L -> M St (L + R)) :
  (forall l s, I l s -> mwp (body l) s (fun x s' =>
     match x with inl l' => I l' s' /\ (meas l' < meas l)%nat | inr r => Q r s' end)) ->
  forall fuel l s, I l s -> (meas l < fuel)%nat -> mwp (mloop fuel body l) s Q.
Proof.
  intros Hb fuel. induction fuel as [|fuel IH]; intros l s Hs Hf; [lia|]; unfold mwp; simpl.
  specialize (Hb l s Hs). unfold mwp in Hb.
  destruct (body l s) as [[[l'|r] s']| | |]; try done.
  destruct Hb. apply IH; [done|lia].
Qed.

(** One iteration. *)
Lemma mloop_step {St L R} fuel (body : L -> M St (L + R)) l s (Q : R -> St -> Prop) :
  mwp (body l) s (fun x s' =>
    match x with inl l' => mwp (mloop fuel body l') s' Q | inr r => Q r s' end) ->
  mwp (mloop (S fuel) body l) s Q.
Proof. unfold mwp; simpl. by destruct (body l s) as [[[l'|r] s']| | |]. Qed.

Lemma for_range_wp {St} (I : Z -> St -> Prop) (body : Z -> St -> res St) n i s :
  I i s ->
  (forall k s, i <= k < i + Z.of_nat n -> I k s -> wp (body k s) (I (k + 1))) ->
  wp (for_range n i body s) (I (i + Z.of_nat n)).
Proof.
  revert i s. induction n as [|n IH]; intros i s Hi Hb; simpl.
  { by rewrite Z.add_0_r. }
  pose proof (Hb i s ltac:(lia) Hi) as H.
  destruct (body i s) as [s'| | |]; simpl in H; try done.
  replace (i + Z.of_nat (S n)) with (i + 1 + Z.of_nat n) by lia.
  apply IH; [done|]. intros k s'' Hk. apply Hb. lia.
Qed.

#[global] Arguments loop : simpl never.
#[global] Arguments mloop : simpl never.
#[global] Arguments for_range : simpl never.

(** ** Lemmas on machine integers and arrays *)
Lemma u32_small z : is_u32 z -> u32 z = z.
Proof. apply Z.mod_small. Qed.
Lemma u32_range z : is_u32 (u32 z).
Proof. apply Z.mod_pos_bound. lia. Qed.
Lemma s32_small z : is_s32 z -> s32 z = z.
Proof. unfold s32, is_s32. intros. rewrite Z.mod_small; lia. Qed.
Lemma s32_range z : is_s32 (s32 z).
Proof. unfold s32, is_s32. pose proof (Z.mod_pos_bound (z + 2^31) (2^32)). lia. Qed.
Lemma u64_small z : is_u64 z -> u64 z = z.
Proof. apply Z.mod_small. Qed.
Lemma u64_range z : is_u64 (u64 z).
Proof. apply Z.mod_pos_bound. lia. Qed.

Lemma zlen_nonneg {A} (l : list A) : 0 <= zlen l.
Proof. unfold zlen. lia. Qed.

Lemma znth_Some {A} (l : list A) i x : znth l i = Some x -> 0 <= i < zlen l.
Proof.
  unfold znth, zlen. case_decide; [|done]. intros ?%lookup_lt_Some. lia.
Qed.
Lemma znth_is_Some {A} (l : list A) i : 0 <= i < zlen l -> is_Some (znth l i).
Proof.
  unfold znth, zlen. intros. rewrite decide_True by lia. apply lookup_lt_is_Some. lia.
Qed.
Lemma znth_None {A} (l : list A) i : ~ (0 <= i < zlen l) -> znth l i = None.
Proof.
  unfold znth, zlen. intros. case_decide; [|done]. apply lookup_ge_None. lia.
Qed.
Lemma zset_Some {A} (l : list A) i a :
  0 <= i < zlen l -> zset l i a = Some (<[Z.to_nat i := a]> l).
Proof. unfold zset, zlen. intros. by rewrite decide_True. Qed.
Lemma znth_insert {A} (l : list A) i j a :
  0 <= i < zlen l ->
  znth (<[Z.to_nat i := a]> l) j = if decide (i = j) then Some a else znth l j.
Proof.
  unfold znth, zlen. intros. destruct (decide (0 <= j)) as [Hj|Hj].
  - case_decide as E; subst.
    + rewrite list_lookup_insert_eq; [done|lia].
    + rewrite list_lookup_insert_ne; [done|lia].
  - case_decide; [lia|done].
Qed.
Lemma zlen_insert {A} (l : list A) i a : zlen (<[i := a]> l) = zlen l.
Proof. unfold zlen. by rewrite length_insert. Qed.

(** [lia] with the quotients and remainders turned into equations. *)
Ltac dlia := Z.to_euclidean_division_equations; lia.

Lemma le_bytes_length n z : length (le_bytes n z) = n.
Proof. revert z. induction n; intros; simpl; auto. Qed.
Lemma le_bytes_val n z : 0 <= z < 256 ^ Z.of_nat n -> le_val (le_bytes n z) = z.
Proof.
  revert z. induction n as [|n IH]; intros z Hz; [simpl in *; lia|].
  cbn [le_bytes le_val]. rewrite IH; [dlia|].
  rewrite Nat2Z.inj_succ, Z.pow_succ_r in Hz by lia.
  split; [apply Z.div_pos; lia|]. apply Z.div_lt_upper_bound; lia.
Qed.
Lemma le_val_bytes bs : Forall is_u8 bs -> le_bytes (length bs) (le_val bs) = bs.
Proof.
  unfold is_u8. induction 1 as [|b bs Hb _ IH]; [done|]. cbn [length le_bytes le_val].
  replace ((b + 256 * le_val bs) / 256) with (le_val bs) by dlia.
  rewrite IH. f_equal. dlia.
Qed.
Lemma le_bytes_u8 n z : Forall is_u8 (le_bytes n z).
Proof.
  revert z. induction n as [|n IH]; intros z; constructor; [|apply IH].
  apply Z.mod_pos_bound. lia.
Qed.
Lemma le_val_bound bs : Forall is_u8 bs -> 0 <= le_val bs < 256 ^ zlen bs.
Proof.
  unfold is_u8, zlen. induction 1 as [|b bs Hb _ IH]; [simpl; lia|].
  cbn [length le_val]. rewrite Nat2Z.inj_succ, Z.pow_succ_r; lia.
Qed.
Lemma words_bytes_length ws : length (words_bytes ws) = (4 * length ws)%nat.
Proof.
  unfold words_bytes. induction ws as [|w ws IH]; [done|].
  cbn [flat_map]. rewrite length_app, le_bytes_length, IH. simpl length. lia.
Qed.
Lemma words_bytes_u8 ws : Forall is_u8 (words_bytes ws).
Proof.
  induction ws as [|w ws IH]; [constructor|]. apply Forall_app. split; [|done].
  apply le_bytes_u8.
Qed.
Lemma bytes_words_length n bs : length (bytes_words n bs) = n.
Proof. revert bs. induction n; intros; simpl; auto. Qed.
Lemma bytes_words_bytes ws : Forall is_u32 ws ->
  bytes_words (length ws) (words_bytes ws) = ws.
Proof.
  unfold words_bytes. induction 1 as [|w ws Hw _ IH]; [done|].
  cbn [flat_map length bytes_words].
  rewrite take_app_length' by (by rewrite le_bytes_length).
  rewrite drop_app_length' by (by rewrite le_bytes_length).
  rewrite IH, le_bytes_val; [done|]. unfold is_u32 in Hw. simpl. lia.
Qed.
Lemma words_bytes_words n bs : Forall is_u8 bs -> length bs = (4 * n)%nat ->
  words_bytes (bytes_words n bs) = bs.
Proof.
  unfold words_bytes. revert bs. induction n as [|n IH]; intros bs Hu Hl.
  { by destruct bs. }
  cbn [bytes_words flat_map]. rewrite IH.
  - replace 4%nat with (length (take 4 bs)) at 1 by (rewrite length_take; lia).
    rewrite le_val_bytes by (by apply Forall_take). apply take_drop.
  - by apply Forall_drop.
  - rewrite length_drop. lia.
Qed.
Lemma bytes_words_u32 n bs : Forall is_u8 bs -> length bs = (4 * n)%nat ->
  Forall is_u32 (bytes_words n bs).
Proof.
  revert bs. induction n as [|n IH]; intros bs Hu Hl; [constructor|].
  cbn [bytes_words]. constructor.
  - pose proof (le_val_bound (take 4 bs) ltac:(by apply Forall_take)) as H.
    unfold zlen in H. rewrite length_take in H.
    replace (Nat.min 4 (length bs)) with 4%nat in H by lia. exact H.
  - apply IH; [by apply Forall_drop|]. rewrite length_drop. lia.
Qed.

Lemma zset_eq {A} (l l' : list A) i a :
  zset l i a = Some l' -> 0 <= i < zlen l /\ l' = <[Z.to_nat i := a]> l.
Proof. unfold zset, zlen. case_decide; intros; simplify_eq. done. Qed.
Lemma znth_list_insert_id {A} (l : list A) i a :
  znth l i = Some a -> <[Z.to_nat i := a]> l = l.
Proof. unfold znth. case_decide; [|done]. apply list_insert_id. Qed.
Lemma znth_lookup {A} (l : list A) i : 0 <= i -> znth l i = l !! Z.to_nat i.
Proof. intros. unfold znth. by rewrite decide_True. Qed.
Lemma zlen_fmap {A B} (f : A -> B) l : zlen (f <$> l) = zlen l.
Proof. unfold zlen. by rewrite length_fmap. Qed.
Lemma znth_fmap {A B} (f : A -> B) l i : znth (f <$> l) i = f <$> znth l i.
Proof. unfold znth. case_decide; [apply list_lookup_fmap|done]. Qed.
Lemma zslice_all {A} (l : list A) n : zlen l = n -> zslice l 0 n = Some l.
Proof.
  unfold zslice, zlen. intros <-. rewrite decide_True by lia.
  by rewrite drop_0, Nat2Z.id, take_ge.
Qed.
Lemma zslice_Some {A} (l : list A) off n : 0 <= off -> 0 <= n -> off + n <= zlen l ->
  zslice l off n = Some (take (Z.to_nat n) (drop (Z.to_nat off) l)).
Proof. intros. unfold zslice. by rewrite decide_True. Qed.
Lemma zsplice_Some {A} (l new : list A) off : 0 <= off -> off + zlen new <= zlen l ->
  zsplice l off new =
    Some (take (Z.to_nat off) l ++ new ++ drop (Z.to_nat off + length new) l).
Proof. intros. unfold zsplice. by rewrite decide_True. Qed.
Lemma zsplice_all {A} (l new : list A) : zlen l = zlen new -> zsplice l 0 new = Some new.
Proof.
  intros E. rewrite zsplice_Some by (unfold zlen in *; lia). f_equal. simpl.
  rewrite drop_ge by (unfold zlen in E; lia). apply app_nil_r.
Qed.
Lemma zsplice_len {A} (l new l' : list A) off :
  zsplice l off new = Some l' -> length l' = length l.
Proof.
  unfold zsplice, zlen. case_decide; [|done]. intros [= <-].
  rewrite !length_app, length_take, length_drop. lia.
Qed.
Lemma find_znth {A} (p : A -> bool) (l : list A) x :
  find p l = Some x -> exists i, znth l i = Some x /\ p x = true.
Proof.
  induction l as [|a l IH]; simpl; [done|]. destruct (p a) eqn:E.
  - intros [= ->]. by exists 0.
  - intros (i & Hi & Hp)%IH. pose proof (znth_Some _ _ _ Hi). exists (i + 1). split; [|done].
    rewrite znth_lookup in * by lia. by replace (Z.to_nat (i + 1)) with (S (Z.to_nat i)) by lia.
Qed.
Lemma find_znth_None {A} (p : A -> bool) (l : list A) i x :
  find p l = None -> znth l i = Some x -> p x = false.
Proof.
  unfold znth. case_decide as Hi; [|done]. clear Hi. generalize (Z.to_nat i) as n.
  induction l as [|a l IH]; intros n; simpl; [done|]. destruct (p a) eqn:E; [done|].
  intros Hf. destruct n; simpl; [by intros [= <-]|]. by apply IH.
Qed.

(** The state a run ends in, for examples. *)
Definition state_of {St A} (r : res (A * St)) (d : St) : St :=
  match r with Ok (_, s) => s | _ => d end.
Lemma mwp_state_of {St A} (m : M St A) s Q d : mwp m s Q -> exists a, Q a (state_of (m s) d).
Proof. unfold mwp, state_of. destruct (m s) as [[a s']| | |]; naive_solver. Qed.
