(* ===== verification/Bitmap.v ===== *)
(** * Bitmap: lib/kernel/bitmap.c

    A bitmap is an array of 32-bit elements that simulates an array of bits.
    The model keeps the representation (element array, masks, the count) and
    the specification reads it as a predicate on bit numbers, [bit b i].
    Bits of the last element past [bit_cnt] are whatever [malloc] left there;
    [bitmap_equiv] is the equality that ignores them. *)
From S2P Require Import Prelude.

Definition ELEM_BITS : Z := 32.
Definition BITMAP_ERROR : Z := 2 ^ 32 - 1.

(** [struct bitmap] *)
Record bitmap := Bitmap { bit_cnt : Z; bits : list Z }.

Definition elem_idx (bit_idx : Z) : Z := bit_idx / ELEM_BITS.
Definition bit_mask (bit_idx : Z) : Z := u32 (Z.shiftl 1 (bit_idx mod ELEM_BITS)).
Definition elem_cnt (bit_cnt : Z) : Z := DIV_ROUND_UP bit_cnt ELEM_BITS.
Definition byte_cnt (bit_cnt : Z) : Z := 4 *u elem_cnt bit_cnt.
Definition last_mask (b : bitmap) : Z :=
  let last_bits := bit_cnt b mod ELEM_BITS in
  if last_bits =? 0 then 2 ^ 32 - 1 else u32 (Z.shiftl 1 last_bits) -u 1.

Definition bitmap_size (b : bitmap) : Z := bit_cnt b.

(** Update the element that holds a bit, as the [orl]/[andl]/[xorl] statements do. *)
Definition set_elem (f : Z -> Z) (b : bitmap) (bit_idx : Z) : res bitmap :=
  e ← deref (znth (bits b) (elem_idx bit_idx));
  l ← deref (zset (bits b) (elem_idx bit_idx) (f e));
  mret (Bitmap (bit_cnt b) l).

Definition bitmap_mark (b : bitmap) (bit_idx : Z) : res bitmap :=
  set_elem (fun e => Z.lor e (bit_mask bit_idx)) b bit_idx.
Definition bitmap_reset (b : bitmap) (bit_idx : Z) : res bitmap :=
  set_elem (fun e => Z.land e (u32 (Z.lnot (bit_mask bit_idx)))) b bit_idx.
Definition bitmap_flip (b : bitmap) (bit_idx : Z) : res bitmap :=
  set_elem (fun e => Z.lxor e (bit_mask bit_idx)) b bit_idx.

Definition bitmap_set (b : bitmap) (idx : Z) (value : bool) : res bitmap :=
  _ ← ASSERT (idx <? bit_cnt b);
  if value then bitmap_mark b idx else bitmap_reset b idx.

Definition bitmap_test (b : bitmap) (idx : Z) : res bool :=
  _ ← ASSERT (idx <? bit_cnt b);
  e ← deref (znth (bits b) (elem_idx idx));
  mret (negb (Z.land e (bit_mask idx) =? 0)).

Definition bitmap_set_multiple (b : bitmap) (start cnt : Z) (value : bool) : res bitmap :=
  _ ← ASSERT (start <=? bit_cnt b);
  _ ← ASSERT (start +u cnt <=? bit_cnt b);
  for_range (Z.to_nat cnt) 0 (fun i b => bitmap_set b (start +u i) value) b.

Definition bitmap_set_all (b : bitmap) (value : bool) : res bitmap :=
  bitmap_set_multiple b 0 (bitmap_size b) value.

(** [malloc_words n] is what the allocator's memory holds before it is
    written: [None] when the allocation fails. *)
Definition bitmap_create (hdr_ok : bool) (words : option (list Z)) (cnt : Z)
    : res (option bitmap) :=
  if hdr_ok then
    match words with
    | Some w => b ← bitmap_set_all (Bitmap cnt w) false; mret (Some b)
    | None =>
        if cnt =? 0 then b ← bitmap_set_all (Bitmap cnt []) false; mret (Some b)
        else mret None
    end
  else mret None.

(** A bitmap in a block the caller provides: [words] is what the block holds
    behind the 8 bytes of the structure. *)
Definition bitmap_buf_size (bit_cnt : Z) : Z := 8 +u byte_cnt bit_cnt.
Definition bitmap_create_in_buf (cnt : Z) (words : list Z) (block_size : Z) : res bitmap :=
  _ ← ASSERT (bitmap_buf_size cnt <=? block_size);
  bitmap_set_all (Bitmap cnt words) false.

Definition bitmap_count (b : bitmap) (start cnt : Z) (value : bool) : res Z :=
  _ ← ASSERT (start <=? bit_cnt b);
  _ ← ASSERT (start +u cnt <=? bit_cnt b);
  for_range (Z.to_nat cnt) 0 (fun i value_cnt =>
    t ← bitmap_test b (start +u i);
    mret (if eqb t value then value_cnt +u 1 else value_cnt)) 0.

(** The loop of [bitmap_contains]: local variable [i]. *)
Definition contains_body (b : bitmap) (start cnt : Z) (value : bool) (i : Z)
    : res (Z + bool) :=
  if i <? cnt then
    t ← bitmap_test b (start +u i);
    mret (if eqb t value then inr true else inl (i +u 1))
  else mret (inr false).
Definition bitmap_contains (b : bitmap) (start cnt : Z) (value : bool) : res bool :=
  _ ← ASSERT (start <=? bit_cnt b);
  _ ← ASSERT (start +u cnt <=? bit_cnt b);
  loop (S (Z.to_nat cnt)) (contains_body b start cnt value) 0.

Definition bitmap_any (b : bitmap) (start cnt : Z) : res bool :=
  bitmap_contains b start cnt true.
Definition bitmap_none (b : bitmap) (start cnt : Z) : res bool :=
  r ← bitmap_contains b start cnt true; mret (negb r).
Definition bitmap_all (b : bitmap) (start cnt : Z) : res bool :=
  r ← bitmap_contains b start cnt false; mret (negb r).

Definition scan_body (b : bitmap) (cnt : Z) (value : bool) (last i : Z) : res (Z + Z) :=
  if i <=? last then
    c ← bitmap_contains b i cnt (negb value);
    mret (if negb c then inr i else inl (i +u 1))
  else mret (inr BITMAP_ERROR).
Definition bitmap_scan (b : bitmap) (start cnt : Z) (value : bool) : res Z :=
  _ ← ASSERT (start <=? bit_cnt b);
  if cnt <=? bit_cnt b then
    let last := bit_cnt b -u cnt in
    loop (S (S (Z.to_nat last))) (scan_body b cnt value last) start
  else mret BITMAP_ERROR.

Definition bitmap_scan_and_flip (b : bitmap) (start cnt : Z) (value : bool)
    : res (Z * bitmap) :=
  idx ← bitmap_scan b start cnt value;
  if idx =? BITMAP_ERROR then mret (idx, b)
  else b' ← bitmap_set_multiple b idx cnt (negb value); mret (idx, b').

(** File image: the elements in memory order ([bitmap_write] hands
    [b->bits] to [file_write_at], [bitmap_read] fills it back). *)
Definition bitmap_file_size (b : bitmap) : Z := byte_cnt (bit_cnt b).
Definition bits_bytes (b : bitmap) : list Z := words_bytes (bits b).
(** [b->bits] after [bitmap_read] received the bytes [bs] from the file. *)
Definition bitmap_load (b : bitmap) (bs : list Z) : res bitmap :=
  let ws := bytes_words (Z.to_nat (elem_cnt (bit_cnt b))) bs in
  let k := elem_cnt (bit_cnt b) - 1 in
  e ← deref (znth ws k);
  l ← deref (zset ws k (Z.land e (last_mask b)));
  mret (Bitmap (bit_cnt b) l).

(** ** Specification: a bitmap as a set of bit numbers *)
Definition bit (b : bitmap) (i : Z) : bool :=
  Z.testbit (default 0 (znth (bits b) (i / 32))) (i mod 32).

Record bitmap_wf (b : bitmap) : Prop := {
  wf_cnt : 0 <= bit_cnt b < 2 ^ 32 - 32;
  wf_len : zlen (bits b) = (bit_cnt b + 31) / 32;
  wf_u32 : Forall is_u32 (bits b);
}.

(** Same size, same bits in range. *)
#[export] Instance bitmap_equiv : Equiv bitmap := fun b1 b2 =>
  bit_cnt b1 = bit_cnt b2 /\ forall i, 0 <= i < bit_cnt b1 -> bit b1 i = bit b2 i.

(** ** Lemmas *)
Create HintDb bitmap discriminated.
#[export] Instance bitmap_equiv_equivalence : Equivalence (≡@{bitmap}).
Proof.
  split.
  - by intros b.
  - intros b1 b2 [Hc Hb]. split; [done|]. intros i Hi. symmetry. apply Hb. by rewrite Hc.
  - intros b1 b2 b3 [Hc Hb] [Hc' Hb']. split; [congruence|]. intros i Hi.
    rewrite Hb by done. apply Hb'. by rewrite <- Hc.
Qed.

Lemma elem_cnt_eq n : 0 <= n < 2 ^ 32 - 32 -> elem_cnt n = (n + 31) / 32.
Proof.
  intros. unfold elem_cnt, DIV_ROUND_UP, ELEM_BITS.
  rewrite (u32_small (n + 32)) by (unfold is_u32; lia).
  rewrite u32_small by (unfold is_u32; lia). f_equal. lia.
Qed.

Lemma elem_in_range b i : bitmap_wf b -> 0 <= i < bit_cnt b -> 0 <= i / 32 < zlen (bits b).
Proof. intros [? -> _] Hi. dlia. Qed.

Lemma bit_mask_eq i : bit_mask i = 2 ^ (i mod 32).
Proof.
  unfold bit_mask, ELEM_BITS. rewrite Z.shiftl_1_l. apply u32_small.
  pose proof (Z.mod_pos_bound i 32 ltac:(lia)). unfold is_u32. split; [lia|].
  apply Z.pow_lt_mono_r; lia.
Qed.

Lemma testbit_mask i k : 0 <= k -> Z.testbit (bit_mask i) k = bool_decide (k = i mod 32).
Proof.
  intros. rewrite bit_mask_eq, Z.pow2_bits_eqb by (apply Z.mod_pos_bound; lia).
  rewrite Z.eqb_sym. case_bool_decide; [by apply Z.eqb_eq|by apply Z.eqb_neq].
Qed.

Lemma testbit_lnot_mask i k :
  0 <= k < 32 -> Z.testbit (u32 (Z.lnot (bit_mask i))) k = negb (bool_decide (k = i mod 32)).
Proof.
  intros. unfold u32. rewrite Z.mod_pow2_bits_low, Z.lnot_spec, testbit_mask by lia. done.
Qed.

Lemma land_mask_testbit e i :
  negb (Z.land e (bit_mask i) =? 0) = Z.testbit e (i mod 32).
Proof.
  pose proof (Z.mod_pos_bound i 32 ltac:(lia)) as Hi.
  destruct (Z.testbit e (i mod 32)) eqn:E.
  - apply negb_true_iff, Z.eqb_neq. intros H0.
    assert (Z.testbit (Z.land e (bit_mask i)) (i mod 32) = true) as H1.
    { rewrite Z.land_spec, E, testbit_mask by lia. by rewrite bool_decide_eq_true_2. }
    by rewrite H0, Z.bits_0 in H1.
  - apply negb_false_iff, Z.eqb_eq, Z.bits_inj'. intros k Hk.
    rewrite Z.land_spec, testbit_mask, Z.bits_0 by lia.
    case_bool_decide; subst; [by rewrite E|by rewrite andb_false_r].
Qed.

Lemma is_u32_bits z : is_u32 z <-> 0 <= z /\ forall k, 32 <= k -> Z.testbit z k = false.
Proof.
  unfold is_u32. split.
  - intros [H0 H1]. split; [done|]. intros k Hk.
    destruct (decide (z = 0)) as [->|]; [apply Z.bits_0|].
    apply Z.bits_above_log2; [done|]. apply Z.log2_lt_pow2; [lia|].
    apply Z.lt_le_trans with (2 ^ 32); [done|]. apply Z.pow_le_mono_r; lia.
  - intros [H0 H]. split; [done|]. apply Z.nle_gt. intros Hle.
    assert (32 <= Z.log2 z) by (apply Z.log2_le_pow2; lia).
    pose proof (Z.bit_log2 z ltac:(lia)) as Hb. rewrite H in Hb by done. done.
Qed.
Lemma lor_u32 a b : is_u32 a -> is_u32 b -> is_u32 (Z.lor a b).
Proof.
  rewrite !is_u32_bits. intros [? Ha] [? Hb]. split; [by apply Z.lor_nonneg|].
  intros. by rewrite Z.lor_spec, Ha, Hb.
Qed.
Lemma lxor_u32 a b : is_u32 a -> is_u32 b -> is_u32 (Z.lxor a b).
Proof.
  rewrite !is_u32_bits. intros [? Ha] [? Hb]. split; [by apply Z.lxor_nonneg|].
  intros. by rewrite Z.lxor_spec, Ha, Hb.
Qed.
Lemma land_u32 a b : is_u32 a -> is_u32 (Z.land a b).
Proof.
  rewrite !is_u32_bits. intros [? Ha]. split; [apply Z.land_nonneg; auto|].
  intros. by rewrite Z.land_spec, Ha.
Qed.
#[export] Hint Resolve u32_range lor_u32 lxor_u32 land_u32 : bitmap.

(** What an element update does to the bits, given its effect inside one element. *)
Lemma set_elem_spec (f : Z -> Z) (g : bool -> bool) b i :
  bitmap_wf b -> 0 <= i < bit_cnt b ->
  (forall e, is_u32 e -> is_u32 (f e)) ->
  (forall e k, 0 <= k < 32 ->
     Z.testbit (f e) k = if decide (k = i mod 32) then g (Z.testbit e k) else Z.testbit e k) ->
  wp (set_elem f b i) (fun b' => bitmap_wf b' /\ bit_cnt b' = bit_cnt b /\
    forall j, 0 <= j -> bit b' j = if decide (j = i) then g (bit b j) else bit b j).
Proof.
  intros Hwf Hi Hu Hf. pose proof (elem_in_range b i Hwf Hi) as Hr.
  destruct (znth_is_Some (bits b) _ Hr) as [e He].
  unfold set_elem, elem_idx, ELEM_BITS. rewrite He. simpl.
  rewrite zset_Some by done. simpl. split_and!; [|done|].
  - destruct Hwf as [? Hl Hall]. split; simpl; [done|by rewrite zlen_insert|].
    apply Forall_insert; [done|]. apply Hu.
    rewrite Forall_lookup in Hall. apply (Hall (Z.to_nat (i / 32))).
    unfold znth in He. by rewrite decide_True in He by lia.
  - intros j Hj. unfold bit; simpl. rewrite znth_insert by done.
    pose proof (Z.mod_pos_bound j 32 ltac:(lia)) as Hm.
    destruct (decide (i / 32 = j / 32)) as [E|E].
    + simpl. rewrite Hf by done. rewrite <- E, He. simpl.
      case_decide as E1; case_decide as E2; subst; try done.
      destruct E2. rewrite (Z.div_mod j 32), (Z.div_mod i 32) by lia. congruence.
    + rewrite decide_False; [done|]. congruence.
Qed.

Ltac elem_bits := intros; rewrite ?Z.lor_spec, ?Z.land_spec, ?Z.lxor_spec;
  rewrite ?testbit_lnot_mask, ?testbit_mask by lia; repeat case_decide;
  repeat case_bool_decide; try done; by destruct (Z.testbit _ _).

Lemma bitmap_mark_spec b i : bitmap_wf b -> 0 <= i < bit_cnt b ->
  wp (bitmap_mark b i) (fun b' => bitmap_wf b' /\ bit_cnt b' = bit_cnt b /\
    forall j, 0 <= j -> bit b' j = if decide (j = i) then true else bit b j).
Proof.
  intros. apply (set_elem_spec _ (fun _ => true)); try done; [|elem_bits].
  intros. apply lor_u32; [done|]. unfold bit_mask. auto with bitmap.
Qed.
Lemma bitmap_reset_spec b i : bitmap_wf b -> 0 <= i < bit_cnt b ->
  wp (bitmap_reset b i) (fun b' => bitmap_wf b' /\ bit_cnt b' = bit_cnt b /\
    forall j, 0 <= j -> bit b' j = if decide (j = i) then false else bit b j).
Proof.
  intros. apply (set_elem_spec _ (fun _ => false)); try done; [|elem_bits].
  auto with bitmap.
Qed.
Lemma bitmap_flip_spec b i : bitmap_wf b -> 0 <= i < bit_cnt b ->
  wp (bitmap_flip b i) (fun b' => bitmap_wf b' /\ bit_cnt b' = bit_cnt b /\
    forall j, 0 <= j -> bit b' j = if decide (j = i) then negb (bit b j) else bit b j).
Proof.
  intros. apply (set_elem_spec _ negb); try done; [|elem_bits].
  intros. apply lxor_u32; [done|]. unfold bit_mask. auto with bitmap.
Qed.
Lemma bitmap_set_spec b i v : bitmap_wf b -> 0 <= i < bit_cnt b ->
  wp (bitmap_set b i v) (fun b' => bitmap_wf b' /\ bit_cnt b' = bit_cnt b /\
    forall j, 0 <= j -> bit b' j = if decide (j = i) then v else bit b j).
Proof.
  intros. unfold bitmap_set. wp_step. wp_step; [apply Z.ltb_lt; lia|].
  destruct v; [by apply bitmap_mark_spec|by apply bitmap_reset_spec].
Qed.
Lemma bitmap_test_spec b i : bitmap_wf b -> 0 <= i < bit_cnt b ->
  bitmap_test b i = Ok (bit b i).
Proof.
  intros Hwf Hi. unfold bitmap_test, elem_idx, ELEM_BITS, bit.
  assert ((i <? bit_cnt b) = true) as -> by (apply Z.ltb_lt; lia). simpl.
  destruct (znth_is_Some (bits b) (i / 32)) as [e ->]; [by apply elem_in_range|].
  simpl. by rewrite <- land_mask_testbit.
Qed.

Lemma bitmap_set_multiple_spec b start cnt v : bitmap_wf b -> 0 <= start -> 0 <= cnt ->
  start + cnt <= bit_cnt b ->
  wp (bitmap_set_multiple b start cnt v) (fun b' => bitmap_wf b' /\ bit_cnt b' = bit_cnt b /\
    forall j, 0 <= j -> bit b' j = if decide (start <= j < start + cnt) then v else bit b j).
Proof.
  intros Hwf Hs Hc Hle. pose proof (wf_cnt b Hwf).
  assert (forall z, 0 <= z <= start + cnt -> u32 z = z) as Hu
    by (intros; apply u32_small; unfold is_u32; lia).
  unfold bitmap_set_multiple. wp_step. wp_step; [apply Z.leb_le; lia|].
  wp_step. wp_step; [rewrite Hu by lia; apply Z.leb_le; lia|].
  eapply wp_mono.
  { apply (for_range_wp (fun i b' => bitmap_wf b' /\ bit_cnt b' = bit_cnt b /\
      forall j, 0 <= j -> bit b' j = if decide (start <= j < start + i) then v else bit b j)).
    - split_and!; try done. intros. by rewrite decide_False by lia.
    - intros k b' Hk (Hw & Hcnt & Hb). rewrite Hu by lia.
      eapply wp_mono; [apply bitmap_set_spec; [done|lia]|].
      intros b'' (Hw' & Hcnt' & Hb'). split_and!; [done|congruence|].
      intros j Hj. rewrite Hb', Hb by done. repeat case_decide; try done; lia. }
  simpl. intros b' H'. by rewrite Z2Nat.id in H' by lia.
Qed.

Lemma contains_loop_spec b start cnt v : bitmap_wf b -> 0 <= start -> 0 <= cnt ->
  start + cnt <= bit_cnt b ->
  wp (bitmap_contains b start cnt v) (fun r =>
    r = true <-> exists j, start <= j < start + cnt /\ bit b j = v).
Proof.
  intros Hwf Hs Hc Hle. pose proof (wf_cnt b Hwf).
  assert (forall z, 0 <= z <= start + cnt -> u32 z = z) as Hu
    by (intros; apply u32_small; unfold is_u32; lia).
  unfold bitmap_contains. wp_step. wp_step; [apply Z.leb_le; lia|].
  wp_step. wp_step; [rewrite Hu by lia; apply Z.leb_le; lia|].
  apply (loop_wp (fun i => 0 <= i <= cnt /\
           forall j, start <= j < start + i -> bit b j <> v)
          (fun i => Z.to_nat (cnt - i))); [|split; intros; lia|lia].
  intros i [Hi Hno]. unfold contains_body. destruct (Z.ltb_spec i cnt).
  - rewrite !Hu by lia. rewrite bitmap_test_spec by (done || lia). simpl.
    destruct (eqb (bit b (start + i)) v) eqn:E; simpl.
    + apply eqb_prop in E. split; [|done]. intros _. exists (start + i). split; [lia|done].
    + apply eqb_false_iff in E. split; [|lia]. split; [lia|].
      intros j Hj. destruct (decide (j = start + i)) as [->|]; [done|]. apply Hno. lia.
  - simpl. split; [done|]. intros (j & Hj & Hb). exfalso. apply (Hno j); [lia|done].
Qed.

(** [j] starts a group of [cnt] bits of value [v] inside the bitmap. *)
Definition group_at (b : bitmap) (cnt : Z) (v : bool) (j : Z) : Prop :=
  j + cnt <= bit_cnt b /\ forall k, j <= k < j + cnt -> bit b k = v.

Lemma bitmap_scan_spec b start cnt v : bitmap_wf b -> 0 <= start <= bit_cnt b -> 0 <= cnt ->
  wp (bitmap_scan b start cnt v) (fun r =>
    (r = BITMAP_ERROR /\ forall j, start <= j -> ~ group_at b cnt v j) \/
    (start <= r < BITMAP_ERROR /\ group_at b cnt v r /\
     forall j, start <= j < r -> ~ group_at b cnt v j)).
Proof.
  intros Hwf Hs Hc. pose proof (wf_cnt b Hwf).
  assert (forall z, 0 <= z <= bit_cnt b + 1 -> u32 z = z) as Hu
    by (intros; apply u32_small; unfold is_u32; lia).
  unfold bitmap_scan. wp_step. wp_step; [apply Z.leb_le; lia|].
  destruct (Z.leb_spec cnt (bit_cnt b)) as [Hle|Hgt].
  2:{ simpl. left. split; [done|]. intros j Hj [? _]. lia. }
  rewrite Hu by lia.
  apply (loop_wp (fun i => start <= i <= Z.max start (bit_cnt b - cnt + 1) /\
           forall j, start <= j < i -> ~ group_at b cnt v j)
          (fun i => Z.to_nat (bit_cnt b - cnt + 1 - i))); [|split; intros; lia|lia].
  intros i [Hi Hno]. unfold scan_body. destruct (Z.leb_spec i (bit_cnt b - cnt)) as [Hl|Hl].
  - wp_step. eapply wp_mono; [apply contains_loop_spec; (done || lia)|].
    intros r Hr. destruct r; simpl.
    + rewrite Hu by lia. split; [|lia]. split; [lia|]. intros j Hj.
      destruct (decide (j = i)) as [->|]; [|apply Hno; lia].
      intros [_ Hg]. destruct (proj1 Hr eq_refl) as (k & Hk & Hb).
      rewrite Hg in Hb by done. by destruct v.
    + right. split; [unfold BITMAP_ERROR; lia|]. split; [|done]. split; [lia|].
      intros k Hk. destruct (eqb (bit b k) v) eqn:E; [by apply eqb_prop|].
      apply eqb_false_iff in E.
      assert (false = true) as ?; [apply Hr|done]. exists k. split; [done|].
      destruct (bit b k), v; done.
  - simpl. left. split; [done|]. intros j Hj [Hg1 Hg2].
    apply (Hno j); [lia|]. split; done.
Qed.

Lemma bitmap_scan_and_flip_spec b start cnt v :
  bitmap_wf b -> 0 <= start <= bit_cnt b -> 0 <= cnt ->
  wp (bitmap_scan_and_flip b start cnt v) (fun '(r, b') =>
    bitmap_wf b' /\ bit_cnt b' = bit_cnt b /\
    ((r = BITMAP_ERROR /\ b' = b /\ forall j, start <= j -> ~ group_at b cnt v j) \/
     (start <= r < BITMAP_ERROR /\ group_at b cnt v r /\
      (forall j, start <= j < r -> ~ group_at b cnt v j) /\
      forall j, 0 <= j ->
        bit b' j = if decide (r <= j < r + cnt) then negb v else bit b j))).
Proof.
  intros Hwf Hs Hc. unfold bitmap_scan_and_flip. wp_step.
  eapply wp_mono; [by apply bitmap_scan_spec|].
  intros r [[-> Hno]|(Hr & Hg & Hno)].
  - simpl. split_and!; [done..|]. by left.
  - destruct (Z.eqb_spec r BITMAP_ERROR); [lia|].
    wp_step. eapply wp_mono; [apply bitmap_set_multiple_spec; [done|lia|lia|apply Hg]|].
    simpl. intros b' (Hw & Hcnt & Hb). split; [done|]; split; [done|]. right. split; [done|]. split; [done|]. by split.
Qed.

(** ** File image *)
Lemma last_mask_testbit b k : bitmap_wf b -> 0 <= k < 32 ->
  (bit_cnt b mod 32 = 0 \/ k < bit_cnt b mod 32) -> Z.testbit (last_mask b) k = true.
Proof.
  intros Hwf Hk Hor. unfold last_mask, ELEM_BITS.
  destruct (Z.eqb_spec (bit_cnt b mod 32) 0) as [E|E].
  - change (2 ^ 32 - 1) with (Z.ones 32). apply Z.ones_spec_low. lia.
  - pose proof (Z.mod_pos_bound (bit_cnt b) 32 ltac:(lia)).
    assert (2 ^ (bit_cnt b mod 32) < 2 ^ 32) by (apply Z.pow_lt_mono_r; lia).
    assert (0 < 2 ^ (bit_cnt b mod 32)) by (apply Z.pow_pos_nonneg; lia).
    rewrite Z.shiftl_1_l, (u32_small (2 ^ _)) by (unfold is_u32; lia).
    rewrite u32_small by (unfold is_u32; lia).
    rewrite Z.sub_1_r, <- Z.ones_equiv. apply Z.ones_spec_low. lia.
Qed.

(** ** Properties *)

(** C19.  Allocation on a bitmap is exact.  For a group size [cnt], a search from
    bit [start] for value [v] ends without a failed assertion; it returns
    [BITMAP_ERROR] and an unchanged bitmap only when no group exists,
    otherwise the first group at or after [start], flips exactly its bits,
    and a second search for the same group does not return it again. *)
Theorem bitmap_scan_and_flip_exact b start cnt v :
  bitmap_wf b -> 0 <= start <= bit_cnt b -> 0 < cnt ->
  exists r b', bitmap_scan_and_flip b start cnt v = Ok (r, b') /\ bitmap_wf b' /\
    ((r = BITMAP_ERROR /\ b' = b /\ forall j, start <= j -> ~ group_at b cnt v j) \/
     (start <= r < BITMAP_ERROR /\ group_at b cnt v r /\
      (forall j, start <= j < r -> ~ group_at b cnt v j) /\
      (forall j, 0 <= j ->
        bit b' j = if decide (r <= j < r + cnt) then negb v else bit b j) /\
      forall r2 b2, bitmap_scan_and_flip b' start cnt v = Ok (r2, b2) ->
        r2 <> BITMAP_ERROR -> r + cnt <= r2 \/ r2 + cnt <= r)).
Proof.
  intros Hwf Hs Hc.
  destruct (proj1 (wp_ok _ _) (bitmap_scan_and_flip_spec b start cnt v Hwf Hs ltac:(lia)))
    as ([r b'] & E & Hw & Hcnt & H).
  exists r, b'. split_and!; [done..|]. destruct H as [?|(? & ? & ? & Hb)]; [by left|].
  right. split_and!; try done; try tauto. intros r2 b2 E2 Hne.
  pose proof (bitmap_scan_and_flip_spec b' start cnt v Hw ltac:(lia) ltac:(lia)) as H2.
  rewrite E2 in H2. destruct H2 as (_ & _ & [(? & _)|(? & (? & Hg) & _)]); [done|].
  destruct (decide (r + cnt <= r2 \/ r2 + cnt <= r)) as [|Hov]; [done|]. exfalso.
  specialize (Hg (Z.max r r2) ltac:(lia)). rewrite Hb in Hg by lia.
  rewrite decide_True in Hg by lia. by destruct v.
Qed.

(**  The file image round-trips: a bitmap rebuilt by [bitmap_read] from the
    bytes [bitmap_write] stored is the same bitmap, for every bit in range,
    whatever the unused bits of the last element were. *)
Theorem bitmap_file_roundtrip b : bitmap_wf b -> 0 < bit_cnt b ->
  exists b', bitmap_load (Bitmap (bit_cnt b) []) (bits_bytes b) = Ok b' /\ b' ≡ b /\
    zlen (bits_bytes b) = bitmap_file_size b.
Proof.
  intros Hwf H0. pose proof Hwf as [Hc Hl Hu]. unfold bitmap_load. simpl.
  rewrite elem_cnt_eq by done.
  replace (Z.to_nat ((bit_cnt b + 31) / 32)) with (length (bits b))
    by (rewrite <- Hl; unfold zlen; lia).
  unfold bits_bytes. rewrite bytes_words_bytes by done. set (k := _ / _ - 1).
  assert (0 <= k < zlen (bits b)) as Hk by (rewrite Hl; subst k; dlia).
  destruct (znth_is_Some _ _ Hk) as [e He]. rewrite He. simpl.
  rewrite zset_Some by done. simpl. eexists. split_and!; [done|split; [done|]|].
  - simpl. intros i Hi. unfold bit. simpl. rewrite znth_insert by done.
    case_decide as E; [|done]. rewrite <- E, He. simpl. rewrite Z.land_spec.
    change (last_mask (Bitmap (bit_cnt b) [])) with (last_mask b).
    rewrite last_mask_testbit; [by rewrite andb_true_r|done|dlia|]. subst k. dlia.
  - unfold bitmap_file_size, byte_cnt. rewrite elem_cnt_eq by done. rewrite <- Hl.
    rewrite u32_small by (unfold is_u32; rewrite Hl; dlia).
    unfold zlen, bits_bytes. rewrite words_bytes_length. lia.
Qed.

(** ** Witnesses *)
Definition ex_bitmap : bitmap := Bitmap 40 [2 ^ 32 - 1; 5].
Lemma ex_bitmap_wf : bitmap_wf ex_bitmap.
Proof.
  split; [simpl; lia|reflexivity|]. repeat constructor; unfold is_u32; lia.
Qed.

Lemma bitmap_scan_and_flip_exact_witness :
  exists r b', bitmap_scan_and_flip ex_bitmap 0 3 false = Ok (r, b') /\ bitmap_wf b' /\ r = 35.
Proof.
  destruct (bitmap_scan_and_flip_exact ex_bitmap 0 3 false ex_bitmap_wf
              ltac:(simpl; lia) ltac:(lia)) as (r & b' & E & Hw & _).
  exists r, b'. split; [exact E|]. split; [exact Hw|].
  vm_compute in E. congruence.
Defined.

Lemma bitmap_file_roundtrip_witness :
  exists b', bitmap_load (Bitmap 40 []) (bits_bytes ex_bitmap) = Ok b' /\ b' ≡ ex_bitmap.
Proof.
  destruct (bitmap_file_roundtrip ex_bitmap ex_bitmap_wf ltac:(simpl; lia)) as (b' & E & He & _).
  exists b'. split; [exact E|exact He].
Defined.
