(* ===== verification/Lock.v ===== *)
(** * Lock: the sequential view of the locks of threads/synch.c

    In code that runs on one thread a lock is the thread that holds it:
    acquiring a lock one holds already fails an assertion, acquiring a lock
    another thread holds does not return ([Hang]: in a sequential execution
    nobody releases it), releasing a lock one does not hold fails an assertion.
    Synch.v models the semaphore underneath, with its waiting threads. *)
From S2P Require Import Prelude.

(** The holder. *)
Abbreviation lock := (option Z).
Definition lock_held (me : Z) (l : lock) : bool := bool_decide (l = Some me).
Definition lock_acquire (me : Z) (l : lock) : res lock :=
  match l with
  | None => Ok (Some me)
  | Some t => if decide (t = me) then Panic else Hang
  end.
Definition lock_release (me : Z) (l : lock) : res lock :=
  if lock_held me l then Ok None else Panic.

Lemma wp_lock_release me (l : lock) (Q : lock -> Prop) :
  l = Some me -> Q None -> wp (lock_release me l) Q.
Proof. intros ->. unfold lock_release, lock_held. by rewrite bool_decide_eq_true_2. Qed.

Lemma wp_lock_acquire me (l : lock) (Q : lock -> Prop) :
  l = None -> Q (Some me) -> wp (lock_acquire me l) Q.
Proof. by intros ->. Qed.
