(* ===== verification/Block.v ===== *)
(** * Block: devices/block.c

    A block device is a sector array behind a driver.  The drivers
    ([block->ops]) talk to hardware; what the kernel relies on is the class
    [driver]: sectors are [BLOCK_SECTOR_SIZE] bytes, a read returns the last
    write.  [ram_disk] is a concrete instance. *)
From stdpp Require Import strings.
From S2P Require Import Prelude.

Definition BLOCK_SECTOR_SIZE : Z := 512.

Inductive block_type_t :=
  | BLOCK_KERNEL | BLOCK_FILESYS | BLOCK_SCRATCH | BLOCK_SWAP
  | BLOCK_RAW | BLOCK_FOREIGN.
#[export] Instance block_type_eq_dec : EqDecision block_type_t.
Proof. solve_decision. Defined.
Definition block_type_code (t : block_type_t) : Z :=
  match t with
  | BLOCK_KERNEL => 0 | BLOCK_FILESYS => 1 | BLOCK_SCRATCH => 2 | BLOCK_SWAP => 3
  | BLOCK_RAW => 4 | BLOCK_FOREIGN => 5
  end.
Definition BLOCK_ROLE_CNT : Z := 4.

(** [struct block_operations] together with the driver state [aux]. *)
Class driver (D : Type) := {
  op_read : D -> Z -> D * list Z;
  op_write : D -> Z -> list Z -> D;
}.

(** What a driver promises. *)
Class driver_ok (D : Type) `{driver D} := {
  drv_sector : D -> Z -> list Z;
  drv_read_val : forall d s, snd (op_read d s) = drv_sector d s;
  drv_read_frame : forall d s s', drv_sector (fst (op_read d s)) s' = drv_sector d s';
  drv_write_val : forall d s x s',
    drv_sector (op_write d s x) s' = if decide (s' = s) then x else drv_sector d s';
}.

(** [struct block] *)
Record block (D : Type) := Block {
  blk_name : string;
  blk_type : block_type_t;
  blk_size : Z;
  blk_aux : D;
  read_cnt : Z;
  write_cnt : Z;
}.
Arguments Block {D}.
Arguments blk_name {D}. Arguments blk_type {D}. Arguments blk_size {D}.
Arguments blk_aux {D}. Arguments read_cnt {D}. Arguments write_cnt {D}.

Section block.
Context {D : Type} `{driver D}.

Definition check_sector (b : block D) (sector : Z) : res unit :=
  if blk_size b <=? sector then Panic else Ok tt.

Definition block_read (b : block D) (sector : Z) : res (list Z * block D) :=
  _ ← check_sector b sector;
  let '(aux, data) := op_read (blk_aux b) sector in
  mret (data, Block (blk_name b) (blk_type b) (blk_size b) aux
                    (u64 (read_cnt b + 1)) (write_cnt b)).

Definition block_write (b : block D) (sector : Z) (data : list Z) : res (block D) :=
  _ ← check_sector b sector;
  _ ← ASSERT (negb (bool_decide (blk_type b = BLOCK_FOREIGN)));
  mret (Block (blk_name b) (blk_type b) (blk_size b) (op_write (blk_aux b) sector data)
              (read_cnt b) (u64 (write_cnt b + 1))).

Definition block_size (b : block D) : Z := blk_size b.
Definition block_name (b : block D) : string := blk_name b.
Definition block_type (b : block D) : block_type_t := blk_type b.

(** The registry: [all_blocks] in probe order and [block_by_role].  A block is
    named by its position in [all_blocks] (blocks are never unregistered). *)
Record registry := Registry { all_blocks : list (block D); block_by_role : list (option nat) }.

Definition block_get_role (r : registry) (role : block_type_t) : res (option nat) :=
  _ ← ASSERT (block_type_code role <? BLOCK_ROLE_CNT);
  deref (znth (block_by_role r) (block_type_code role)).
Definition block_set_role (r : registry) (role : block_type_t) (b : option nat)
    : res registry :=
  _ ← ASSERT (block_type_code role <? BLOCK_ROLE_CNT);
  l ← deref (zset (block_by_role r) (block_type_code role) b);
  mret (Registry (all_blocks r) l).
(** [list_elem_to_block]: null at the end of the list. *)
Definition list_elem_to_block (r : registry) (i : nat) : option nat :=
  if (i <? length (all_blocks r))%nat then Some i else None.
Definition block_first (r : registry) : option nat := list_elem_to_block r 0.
Definition block_next (r : registry) (i : nat) : option nat := list_elem_to_block r (S i).
Fixpoint find_name (name : string) (i : nat) (l : list (block D)) : option nat :=
  match l with
  | [] => None
  | b :: l' => if bool_decide (name = blk_name b) then Some i else find_name name (S i) l'
  end.
Definition block_get_by_name (r : registry) (name : string) : option nat :=
  find_name name 0 (all_blocks r).
(** [strlcpy (block->name, name, 16)] keeps 15 characters. *)
Definition block_register (r : registry) (name : string) (type : block_type_t) (size : Z)
    (aux : D) : registry :=
  Registry (all_blocks r ++ [Block (String.substring 0 15 name) type size aux 0 0])
           (block_by_role r).
End block.
Arguments registry D : clear implicits.

(** ** A RAM disk *)
Abbreviation ram_disk := (gmap Z (list Z)).
Definition zero_sector : list Z := replicate 512 0.
#[export] Instance ram_driver : driver ram_disk := {|
  op_read d s := (d, default zero_sector (d !! s));
  op_write d s x := <[s := x]> d;
|}.
#[export, refine] Instance ram_driver_ok : driver_ok ram_disk := {|
  drv_sector d s := default zero_sector ((d : gmap Z (list Z)) !! s);
|}.
Proof.
  - done.
  - done.
  - intros d s x s'. cbn. case_decide; subst.
    + by rewrite lookup_insert_eq.
    + by rewrite lookup_insert_ne.
Defined.

(** ** Lemmas *)
Section block_lemmas.
Context {D : Type} `{driver_ok D}.
Implicit Types (b : block D).

(** The sectors of a device as the driver promises them. *)
Definition sector_of (b : block D) (s : Z) : list Z := drv_sector (blk_aux b) s.

Lemma block_read_spec b s : s < blk_size b ->
  wp (block_read b s) (fun '(x, b') => x = sector_of b s /\ blk_size b' = blk_size b /\
    blk_type b' = blk_type b /\ forall s', sector_of b' s' = sector_of b s').
Proof.
  intros Hs. unfold block_read, check_sector. rewrite (proj2 (Z.leb_gt _ _) Hs). simpl.
  unfold sector_of. pose proof (drv_read_val (blk_aux b) s) as Hv.
  pose proof (fun s' => drv_read_frame (blk_aux b) s s') as Hf.
  destruct (op_read (blk_aux b) s); simpl in *. by subst.
Qed.
Lemma block_write_spec b s x : s < blk_size b -> blk_type b <> BLOCK_FOREIGN ->
  wp (block_write b s x) (fun b' => blk_size b' = blk_size b /\ blk_type b' = blk_type b /\
    forall s', sector_of b' s' = if decide (s' = s) then x else sector_of b s').
Proof.
  intros Hs Ht. unfold block_write, check_sector. rewrite (proj2 (Z.leb_gt _ _) Hs). simpl.
  rewrite bool_decide_eq_false_2 by done. simpl. split_and!; [done..|].
  intros s'. unfold sector_of. simpl. apply drv_write_val.
Qed.
Lemma block_read_past_end b s : blk_size b <= s -> block_read b s = Panic.
Proof. intros. unfold block_read, check_sector. by rewrite (proj2 (Z.leb_le _ _)). Qed.
End block_lemmas.
