(* ===== verification/Store.v ===== *)
(** * Store: what the buffer cache promises to the file system

    The file system (filesys/inode.c and above) reads and writes whole sectors
    through [full_read] and [full_write].  [sector_store] is that interface and
    [sector_store_ok] its contract: one array of 512-byte sectors.
    Cache.v proves the contract for the cache in front of a device;
    [flat_store] below is the array itself. *)
From S2P Require Import Prelude Block.

Class sector_store (St : Type) := {
  store_read : Z -> M St (list Z);
  store_write : Z -> list Z -> M St unit;
}.

Class sector_store_ok (St : Type) `{sector_store St} := {
  store_inv : St -> Prop;
  store_size : St -> Z;
  store_view : St -> Z -> list Z;
  store_len : forall s k, store_inv s -> 0 <= k < store_size s ->
    zlen (store_view s k) = BLOCK_SECTOR_SIZE;
  store_read_ok : forall s k, store_inv s -> 0 <= k < store_size s ->
    mwp (store_read k) s (fun x s' => x = store_view s k /\ store_inv s' /\
      store_size s' = store_size s /\ forall q, store_view s' q = store_view s q);
  store_write_ok : forall s k x, store_inv s -> 0 <= k < store_size s ->
    zlen x = BLOCK_SECTOR_SIZE ->
    mwp (store_write k x) s (fun _ s' => store_inv s' /\
      store_size s' = store_size s /\
      forall q, store_view s' q = if decide (q = k) then x else store_view s q);
}.

(** ** The array itself *)
Record flat_store := FlatStore { flat_size : Z; flat_data : gmap Z (list Z) }.
Definition flat_get (s : flat_store) (k : Z) : list Z := default zero_sector (flat_data s !! k).
#[export] Instance flat_sector_store : sector_store flat_store := {|
  store_read k := fun s =>
    if decide (0 <= k < flat_size s) then Ok (flat_get s k, s) else Panic;
  store_write k x := fun s =>
    if decide (0 <= k < flat_size s)
    then Ok (tt, FlatStore (flat_size s) (<[k := x]> (flat_data s))) else Panic;
|}.
#[export, refine] Instance flat_sector_store_ok : sector_store_ok flat_store := {|
  store_inv s := map_Forall (fun _ x => zlen x = BLOCK_SECTOR_SIZE) (flat_data s);
  store_size := flat_size;
  store_view := flat_get;
|}.
Proof.
  - intros s k Hs _. unfold flat_get. destruct (flat_data s !! k) eqn:E; [by eapply Hs|done].
  - intros s k Hs Hk. unfold mwp. cbn. rewrite decide_True by done. done.
  - intros s k x Hs Hk Hx. unfold mwp. cbn. rewrite decide_True by done. cbn. split_and!.
    + by apply map_Forall_insert_2.
    + done.
    + intros q. unfold flat_get. cbn. case_decide; subst.
      * by rewrite lookup_insert_eq.
      * by rewrite lookup_insert_ne.
Defined.

(** ** Sequences of sector accesses *)
Inductive sector_op := Rd (k : Z) | Wr (k : Z) (x : list Z).
Section run.
Context {St : Type} `{sector_store St}.
(** The data each read of the sequence returned. *)
Fixpoint run_ops (ops : list sector_op) : M St (list (list Z)) :=
  match ops with
  | [] => mret []
  | Rd k :: ops' => x ← store_read k; xs ← run_ops ops'; mret (x :: xs)
  | Wr k x :: ops' => _ ← store_write k x; run_ops ops'
  end.
End run.

(** The same sequence on a function from sectors to contents. *)
Fixpoint ref_ops (f : Z -> list Z) (ops : list sector_op) : list (list Z) :=
  match ops with
  | [] => []
  | Rd k :: ops' => f k :: ref_ops f ops'
  | Wr k x :: ops' => ref_ops (fun q => if decide (q = k) then x else f q) ops'
  end.
Definition op_in_range (size : Z) (o : sector_op) : Prop :=
  match o with
  | Rd k => 0 <= k < size
  | Wr k x => 0 <= k < size /\ zlen x = BLOCK_SECTOR_SIZE
  end.

Lemma ref_ops_ext f g ops : (forall q, f q = g q) -> ref_ops f ops = ref_ops g ops.
Proof.
  revert f g. induction ops as [|[k|k x] ops IH]; intros f g Hfg; simpl; [done| |].
  - rewrite Hfg. f_equal. by apply IH.
  - apply IH. intros q. by case_decide.
Qed.

Lemma run_ops_spec {St} `{sector_store_ok St} ops s : store_inv s ->
  Forall (op_in_range (store_size s)) ops ->
  mwp (run_ops ops) s (fun xs s' => xs = ref_ops (store_view s) ops /\ store_inv s' /\
    store_size s' = store_size s).
Proof.
  revert s. induction ops as [|[k|k x] ops IH]; intros s Hs Hall; simpl; [done| |].
  - apply Forall_cons_1 in Hall as [Hk Hall]. wp_step.
    eapply mwp_mono; [apply (store_read_ok s k Hs Hk)|]. simpl. intros x s1 (-> & Hs1 & Hz1 & Hv1). wp_step.
    eapply mwp_mono; [apply IH; [done|by rewrite Hz1]|]. intros xs s2 (-> & Hs2 & Hz2).
    wp_step. split_and!; [|done|congruence]. f_equal. by apply ref_ops_ext.
  - apply Forall_cons_1 in Hall as [[Hk Hx] Hall]. wp_step.
    eapply mwp_mono; [apply (store_write_ok s k x Hs Hk Hx)|]. simpl. intros _ s1 (Hs1 & Hz1 & Hv1).
    eapply mwp_mono; [apply IH; [done|by rewrite Hz1]|]. intros xs s2 (-> & Hs2 & Hz2).
    split_and!; [|done|congruence]. by apply ref_ops_ext.
Qed.
