(* ===== verification/Cache.v ===== *)
(** * Cache: filesys/cache.c

    The buffer cache: 64 slots, each with its block lock, its data lock and the
    reader/writer counts, in front of the file system device.  The model is
    the code's: a lock is its holder, [me] is the running thread, and taking a
    lock another thread holds is [Hang] (the thread sleeps; nobody else runs
    in a sequential execution).  The theorems relate the cache and the device
    to one sector array, the [view]. *)
From stdpp Require Import strings.
From S2P Require Import Prelude Lock Block Store.

Definition INVALID_SECTOR : Z := 2 ^ 32 - 1.
Definition CACHE_CNT : Z := 64.

Inductive lock_type := NON_EXCLUSIVE | EXCLUSIVE.

(** [struct cache_block].  The two condition variables are never used. *)
Record cache_block := CacheBlock {
  block_lock : lock;
  readers : Z; read_waiters : Z;
  writers : Z; write_waiters : Z;
  cb_sector : Z;
  up_to_date : bool;
  dirty : bool;
  data_lock : lock;
  cb_data : list Z;
}.
Definition set_block_lock (l : lock) (c : cache_block) : cache_block :=
  CacheBlock l (readers c) (read_waiters c) (writers c) (write_waiters c) (cb_sector c)
    (up_to_date c) (dirty c) (data_lock c) (cb_data c).
Definition set_readers (n : Z) (c : cache_block) : cache_block :=
  CacheBlock (block_lock c) n (read_waiters c) (writers c) (write_waiters c) (cb_sector c)
    (up_to_date c) (dirty c) (data_lock c) (cb_data c).
Definition set_writers (n : Z) (c : cache_block) : cache_block :=
  CacheBlock (block_lock c) (readers c) (read_waiters c) n (write_waiters c) (cb_sector c)
    (up_to_date c) (dirty c) (data_lock c) (cb_data c).
Definition set_sector (s : Z) (c : cache_block) : cache_block :=
  CacheBlock (block_lock c) (readers c) (read_waiters c) (writers c) (write_waiters c) s
    (up_to_date c) (dirty c) (data_lock c) (cb_data c).
Definition set_up_to_date (u : bool) (c : cache_block) : cache_block :=
  CacheBlock (block_lock c) (readers c) (read_waiters c) (writers c) (write_waiters c)
    (cb_sector c) u (dirty c) (data_lock c) (cb_data c).
Definition set_dirty (d : bool) (c : cache_block) : cache_block :=
  CacheBlock (block_lock c) (readers c) (read_waiters c) (writers c) (write_waiters c)
    (cb_sector c) (up_to_date c) d (data_lock c) (cb_data c).
Definition set_data_lock (l : lock) (c : cache_block) : cache_block :=
  CacheBlock (block_lock c) (readers c) (read_waiters c) (writers c) (write_waiters c)
    (cb_sector c) (up_to_date c) (dirty c) l (cb_data c).
Definition set_data (x : list Z) (c : cache_block) : cache_block :=
  CacheBlock (block_lock c) (readers c) (read_waiters c) (writers c) (write_waiters c)
    (cb_sector c) (up_to_date c) (dirty c) (data_lock c) x.

(** The module's globals and the device it sits on. *)
Record cache_state (D : Type) := CacheState {
  cache : list cache_block;
  cache_sync : lock;
  hand : Z;
  fs_device : block D;
}.
Arguments CacheState {D}.
Arguments cache {D}. Arguments cache_sync {D}. Arguments hand {D}. Arguments fs_device {D}.

Definition clear_block (c : cache_block) : cache_block :=
  set_dirty false (set_up_to_date false (set_sector INVALID_SECTOR c)).

Section cache.
Context {D : Type} `{driver D}.
Variable me : Z.
Abbreviation C A := (M (cache_state D) A).

Definition get_cb (i : Z) : C cache_block :=
  fun s => match znth (cache s) i with Some c => Ok (c, s) | None => Fault end.
Definition put_cb (i : Z) (c : cache_block) : C unit :=
  fun s => match zset (cache s) i c with
           | Some l => Ok (tt, CacheState l (cache_sync s) (hand s) (fs_device s))
           | None => Fault end.
Definition set_hand (h : Z) : C unit :=
  modify (fun s => CacheState (cache s) (cache_sync s) h (fs_device s)).
Definition set_sync (l : lock) : C unit :=
  modify (fun s => CacheState (cache s) l (hand s) (fs_device s)).

Definition acquire_sync : C unit := l ← gets cache_sync; l' ← lift (lock_acquire me l); set_sync l'.
Definition release_sync : C unit := l ← gets cache_sync; l' ← lift (lock_release me l); set_sync l'.
Definition acquire_block (i : Z) : C unit :=
  c ← get_cb i; l ← lift (lock_acquire me (block_lock c)); put_cb i (set_block_lock l c).
Definition release_block (i : Z) : C unit :=
  c ← get_cb i; l ← lift (lock_release me (block_lock c)); put_cb i (set_block_lock l c).
Definition acquire_data (i : Z) : C unit :=
  c ← get_cb i; l ← lift (lock_acquire me (data_lock c)); put_cb i (set_data_lock l c).
Definition release_data (i : Z) : C unit :=
  c ← get_cb i; l ← lift (lock_release me (data_lock c)); put_cb i (set_data_lock l c).

(** [!lock_held_by_current_thread (l) && lock_try_acquire (l)] *)
Definition try_block (i : Z) : C bool :=
  c ← get_cb i;
  match block_lock c with
  | None => _ ← put_cb i (set_block_lock (Some me) c); mret true
  | Some _ => mret false
  end.

(** [in_cache] and [find_empty] are the same scan with a different test. *)
Definition scan_body (p : cache_block -> bool) (i : Z) : C (Z + option Z) :=
  if i <? CACHE_CNT then
    ok ← try_block i;
    if (ok : bool) then
      c ← get_cb i;
      if p c then mret (inr (Some i))
      else _ ← release_block i; mret (inl (i + 1))
    else mret (inl (i + 1))
  else mret (inr None).
Definition in_cache (sector : Z) : C (option Z) :=
  mloop 65 (scan_body (fun c => cb_sector c =? sector)) 0.
Definition find_empty : C (option Z) :=
  mloop 65 (scan_body (fun c => cb_sector c =? INVALID_SECTOR)) 0.

Definition flush_block (i : Z) : C unit :=
  _ ← acquire_data i;
  c ← get_cb i;
  _ ← (if dirty c && negb (cb_sector c =? INVALID_SECTOR) then
         s ← get;
         dev ← lift (block_write (fs_device s) (cb_sector c) (cb_data c));
         _ ← put (CacheState (cache s) (cache_sync s) (hand s) dev);
         put_cb i (clear_block c)
       else mret tt);
  release_data i.

Definition idle_block (c : cache_block) : bool :=
  (readers c =? 0) && (read_waiters c =? 0) && (writers c =? 0) && (write_waiters c =? 0).

(** One turn of either loop of [try_to_empty]; [hand] is the global. *)
Definition evict_body (bound : Z) (_ : unit) : C (unit + option Z) :=
  h ← gets hand;
  if h <? bound then
    ok ← try_block h;
    if (ok : bool) then
      c ← get_cb h;
      if idle_block c then _ ← flush_block h; mret (inr (Some h))
      else _ ← release_block h; _ ← set_hand (h + 1); mret (inl tt)
    else _ ← set_hand (h + 1); mret (inl tt)
  else mret (inr None).
Definition try_to_empty : C (option Z) :=
  hand_start ← gets hand;
  r ← mloop 65 (evict_body CACHE_CNT) tt;
  match r with
  | Some i => mret (Some i)
  | None => _ ← set_hand 0; mloop 65 (evict_body hand_start) tt
  end.

Definition add_exclusive_lock (i : Z) : C bool :=
  c ← get_cb i; _ ← put_cb i (set_writers (writers c + 1) c); mret true.
Definition add_nonexclusive_lock (i : Z) : C bool :=
  c ← get_cb i; _ ← put_cb i (set_readers (readers c + 1) c);
  _ ← release_block i; mret true.
Definition add_lock (i : Z) (t : lock_type) : C bool :=
  match t with EXCLUSIVE => add_exclusive_lock i | NON_EXCLUSIVE => add_nonexclusive_lock i end.

(** One attempt of [cache_lock]; [None] is the path that sleeps and retries. *)
Definition cache_lock_once (sector : Z) (type : lock_type) : C (option Z) :=
  _ ← acquire_sync;
  cb ← in_cache sector;
  match cb with
  | Some i =>
      c ← get_cb i; _ ← put_cb i (set_sector sector c);
      _ ← add_lock i type; _ ← release_sync; mret (Some i)
  | None =>
      cb ← find_empty;
      match cb with
      | Some i =>
          c ← get_cb i; _ ← put_cb i (set_sector sector c);
          _ ← add_lock i type; _ ← release_sync; mret (Some i)
      | None =>
          cb ← try_to_empty;
          match cb with
          | Some i =>
              c ← get_cb i; _ ← put_cb i (set_up_to_date false (set_sector sector c));
              _ ← add_lock i type; _ ← release_sync; mret (Some i)
          | None => _ ← release_sync; mret None
          end
      end
  end.
(** [fuel] bounds the [goto try_again] retries. *)
Definition cache_lock (fuel : nat) (sector : Z) (type : lock_type) : C Z :=
  mloop fuel (fun _ : unit =>
    r ← cache_lock_once sector type;
    mret (match r with Some i => inr i | None => inl tt end)) tt.

Definition cache_read (i : Z) : C (list Z) :=
  _ ← acquire_data i;
  c ← get_cb i;
  if up_to_date c then _ ← release_data i; mret (cb_data c)
  else
    _ ← put_cb i (set_up_to_date true c);
    s ← get;
    '(x, dev) ← lift (block_read (fs_device s) (cb_sector c));
    _ ← put (CacheState (cache s) (cache_sync s) (hand s) dev);
    c ← get_cb i;
    _ ← put_cb i (set_data x c);
    _ ← release_data i;
    mret x.

Definition cache_write (i : Z) (data : list Z) (size offset : Z) : C unit :=
  _ ← acquire_data i;
  c ← get_cb i;
  src ← lift (deref (zslice data 0 size));
  new ← lift (deref (zsplice (cb_data c) offset src));
  _ ← put_cb i (set_data new (set_dirty true (set_up_to_date true c)));
  release_data i.

Definition cache_zero (i : Z) : C (option (list Z)) :=
  c ← get_cb i;
  if lock_held me (block_lock c) then
    _ ← acquire_data i;
    c ← get_cb i;
    _ ← put_cb i (set_data (replicate 512 0) c);
    _ ← release_data i;
    mret (Some (replicate 512 0))
  else mret None.

Definition cache_dirty (i : Z) : C unit :=
  _ ← acquire_block i;
  c ← get_cb i; _ ← put_cb i (set_dirty true c);
  release_block i.

Definition cache_unlock (i : Z) : C unit :=
  c ← get_cb i;
  if negb (lock_held me (block_lock c)) then
    _ ← acquire_block i;
    c ← get_cb i; _ ← put_cb i (set_readers (readers c - 1) c);
    release_block i
  else
    _ ← put_cb i (set_writers (writers c - 1) c);
    release_block i.

Definition cache_free (sector : Z) : C unit :=
  cb ← in_cache sector;
  match cb with
  | Some i =>
      _ ← acquire_block i;
      c ← get_cb i; _ ← put_cb i (clear_block c);
      release_block i
  | None => mret tt
  end.

Definition cache_flush : C unit :=
  _ ← acquire_sync;
  _ ← mloop 65 (fun i =>
        if i <? CACHE_CNT then _ ← flush_block i; mret (inl (i + 1)) else mret (inr tt)) 0;
  release_sync.

(** [cache_init]: every slot is initialised; the locks are free afterwards.
    Starting the flush daemon thread is not part of the state. *)
Definition init_block (c : cache_block) : cache_block :=
  clear_block (CacheBlock None 0 0 0 0 (cb_sector c) (up_to_date c) (dirty c) None (cb_data c)).
Definition cache_init (s : cache_state D) : cache_state D :=
  CacheState (init_block <$> cache s) None (hand s) (fs_device s).

Definition full_read (fuel : nat) (sector size offset : Z) : C (list Z) :=
  i ← cache_lock fuel sector NON_EXCLUSIVE;
  x ← cache_read i;
  buf ← lift (deref (zslice x offset size));
  _ ← cache_unlock i;
  mret buf.
Definition full_write (fuel : nat) (sector : Z) (buffer : list Z) (size offset : Z) : C unit :=
  i ← cache_lock fuel sector EXCLUSIVE;
  _ ← (if (offset =? 0) && (size =? BLOCK_SECTOR_SIZE)
       then cache_write i buffer BLOCK_SECTOR_SIZE offset
       else _ ← cache_read i; cache_write i buffer size offset);
  cache_unlock i.
End cache.

(** ** Specification *)
Section cache_spec.
Context {D : Type} `{driver_ok D}.
Implicit Types (s : cache_state D) (c : cache_block) (dev : block D).

(** What a slot holds, locks apart. *)
Definition payload (c : cache_block) : Z * bool * bool * list Z :=
  (cb_sector c, up_to_date c, dirty c, cb_data c).
Definition holds (k : Z) (c : cache_block) : bool := (cb_sector c =? k) && up_to_date c.

(** The sector array the cache and the device stand for. *)
Definition view (s : cache_state D) (k : Z) : list Z :=
  match find (holds k) (cache s) with
  | Some c => cb_data c
  | None => sector_of (fs_device s) k
  end.

Record cb_ok (dev : block D) (c : cache_block) : Prop := {
  ok_len : zlen (cb_data c) = BLOCK_SECTOR_SIZE;
  ok_inv : cb_sector c = INVALID_SECTOR -> up_to_date c = false;
  ok_range : cb_sector c <> INVALID_SECTOR -> 0 <= cb_sector c < blk_size dev;
  ok_dirty : dirty c = true -> up_to_date c = true;
  ok_clean : up_to_date c = true -> dirty c = false -> cb_data c = sector_of dev (cb_sector c);
}.
Record cb_idle (c : cache_block) : Prop := {
  idle_lock : block_lock c = None;
  idle_dlock : data_lock c = None;
  idle_cnt : idle_block c = true;
}.

(** The cache is consistent: one slot per sector, clean slots agree with the
    device, the device is a Pintos device. *)
Record cache_ok (s : cache_state D) : Prop := {
  ok_cnt : zlen (cache s) = CACHE_CNT;
  ok_hand : 0 <= hand s <= CACHE_CNT;
  ok_dev : blk_type (fs_device s) <> BLOCK_FOREIGN /\ blk_size (fs_device s) < 2 ^ 32;
  ok_sect : forall k, 0 <= k < blk_size (fs_device s) ->
              zlen (sector_of (fs_device s) k) = BLOCK_SECTOR_SIZE;
  ok_blocks : forall i c, znth (cache s) i = Some c -> cb_ok (fs_device s) c;
  ok_uniq : forall i j ci cj, znth (cache s) i = Some ci -> znth (cache s) j = Some cj ->
              cb_sector ci = cb_sector cj -> cb_sector ci <> INVALID_SECTOR -> i = j;
}.
(** No thread holds a lock or a reference. *)
Definition cache_idle (s : cache_state D) : Prop :=
  cache_sync s = None /\ forall i c, znth (cache s) i = Some c -> cb_idle c.

Definition upd (s : cache_state D) (i : Z) (c : cache_block) : cache_state D :=
  CacheState (<[Z.to_nat i := c]> (cache s)) (cache_sync s) (hand s) (fs_device s).
Definition with_sync (s : cache_state D) (l : lock) : cache_state D :=
  CacheState (cache s) l (hand s) (fs_device s).
Definition with_hand (s : cache_state D) (h : Z) : cache_state D :=
  CacheState (cache s) (cache_sync s) h (fs_device s).
Definition with_dev (s : cache_state D) (dev : block D) : cache_state D :=
  CacheState (cache s) (cache_sync s) (hand s) dev.

(** *** The view, by lookup *)
Lemma holds_true k c : holds k c = true <-> cb_sector c = k /\ up_to_date c = true.
Proof. unfold holds. by rewrite andb_true_iff, Z.eqb_eq. Qed.
Lemma view_hit s i c k : cache_ok s -> znth (cache s) i = Some c ->
  cb_sector c = k -> up_to_date c = true -> view s k = cb_data c.
Proof.
  intros Hok Hc Hk Hu. unfold view. destruct (find (holds k) (cache s)) as [c'|] eqn:E.
  - apply find_znth in E as (j & Hj & [Hk' _]%holds_true).
    assert (cb_sector c <> INVALID_SECTOR).
    { intros Hi. apply (ok_inv _ _ (ok_blocks s Hok i c Hc)) in Hi. congruence. }
    assert (i = j) as -> by (eapply (ok_uniq s Hok); eauto; congruence). congruence.
  - pose proof (find_znth_None _ _ _ _ E Hc) as Hn.
    by rewrite (proj2 (holds_true k c)) in Hn.
Qed.
Lemma view_miss s k :
  (forall i c, znth (cache s) i = Some c -> cb_sector c = k -> up_to_date c = false) ->
  view s k = sector_of (fs_device s) k.
Proof.
  intros Hno. unfold view. destruct (find (holds k) (cache s)) as [c|] eqn:E; [|done].
  apply find_znth in E as (j & Hj & [Hk Hu]%holds_true).
  rewrite (Hno j c) in Hu; done.
Qed.
(** Either a slot holds sector [k] or none does. *)
Lemma cached_dec s k :
  (exists i c, znth (cache s) i = Some c /\ cb_sector c = k) \/
  (forall i c, znth (cache s) i = Some c -> cb_sector c <> k).
Proof.
  destruct (find (fun c => cb_sector c =? k) (cache s)) as [c|] eqn:E.
  - apply find_znth in E as (i & Hi & Hk%Z.eqb_eq). left. eauto.
  - right. intros i c Hc. apply (find_znth_None _ _ _ _ E) in Hc. by apply Z.eqb_neq.
Qed.

(** *** Updating one slot *)
Lemma upd_lookup s i c j : 0 <= i < zlen (cache s) ->
  znth (cache (upd s i c)) j = if decide (i = j) then Some c else znth (cache s) j.
Proof. apply znth_insert. Qed.

(** Replacing slot [i] keeps the cache consistent. *)
Lemma upd_ok s i c c' : cache_ok s -> znth (cache s) i = Some c -> cb_ok (fs_device s) c' ->
  (cb_sector c' = INVALID_SECTOR \/ cb_sector c' = cb_sector c \/
   forall j cj, znth (cache s) j = Some cj -> cb_sector cj <> cb_sector c') ->
  cache_ok (upd s i c').
Proof.
  intros Hok Hc Hc' Hs. pose proof (znth_Some _ _ _ Hc) as Hi.
  split; try apply Hok; simpl.
  - rewrite zlen_insert. apply Hok.
  - intros j cj. rewrite znth_insert by done. case_decide; intros; simplify_eq; [done|].
    by eapply ok_blocks.
  - intros j1 j2 c1 c2. rewrite !znth_insert by done.
    repeat case_decide; intros; simplify_eq; try done.
    + destruct Hs as [?|[E|Hs]]; [done| |].
      * rewrite E in *. by eapply (ok_uniq s Hok).
      * exfalso. by eapply Hs.
    + destruct Hs as [?|[E|Hs]]; [congruence| |].
      * by eapply (ok_uniq s Hok); eauto; congruence.
      * exfalso. by eapply Hs.
    + by eapply (ok_uniq s Hok).
Qed.

(** What the update does to the view: sector [k] is read through slot [i]. *)
Lemma view_upd s i c c' k : cache_ok s -> cache_ok (upd s i c') -> znth (cache s) i = Some c ->
  view (upd s i c') k =
    if decide (cb_sector c' = k /\ up_to_date c' = true) then cb_data c'
    else if decide (cb_sector c = k /\ up_to_date c = true) then sector_of (fs_device s) k
    else view s k.
Proof.
  intros Hok Hok' Hc. pose proof (znth_Some _ _ _ Hc) as Hi.
  case_decide as E1.
  { destruct E1. apply (view_hit _ i); try done. rewrite upd_lookup by done.
    by rewrite decide_True. }
  case_decide as E2.
  { destruct E2 as [Ek Eu]. apply (view_miss (upd s i c')). intros j cj.
    rewrite upd_lookup by done. case_decide; intros; simplify_eq.
    - destruct (up_to_date cj) eqn:?; [|done]. exfalso. auto.
    - destruct (up_to_date cj) eqn:Eq; [|done]. exfalso.
      assert (i = j); [|done]. apply (ok_uniq s Hok i j c cj); try done.
      intros Hi'. rewrite (ok_inv _ _ (ok_blocks s Hok i c Hc) Hi') in Eu. done. }
  assert (forall j cj, j <> i -> znth (cache (upd s i c')) j = Some cj <->
            znth (cache s) j = Some cj) as Hne.
  { intros. rewrite upd_lookup by done. by rewrite decide_False. }
  destruct (find (holds k) (cache s)) as [cj|] eqn:E.
  - apply find_znth in E as (j & Hj & [Hk Hu]%holds_true).
    assert (j <> i) by (intros ->; simplify_eq; auto).
    rewrite (view_hit s j cj k), (view_hit (upd s i c') j cj k); try done. by apply Hne.
  - rewrite (view_miss s k), (view_miss (upd s i c') k); [done| |].
    + intros j cj. rewrite upd_lookup by done. case_decide; intros; simplify_eq.
      * destruct (up_to_date cj) eqn:?; [|done]. exfalso. auto.
      * eapply find_znth_None in E; [|done]. destruct (up_to_date cj) eqn:?; [|done].
        by rewrite (proj2 (holds_true _ cj)) in E.
    + intros j cj Hj Hk. eapply find_znth_None in E; [|done].
      destruct (up_to_date cj) eqn:?; [|done]. by rewrite (proj2 (holds_true _ cj)) in E.
Qed.

(** *** Symbolic execution of slot accesses *)
Lemma mwp_get_cb i c s (Q : cache_block -> cache_state D -> Prop) :
  znth (cache s) i = Some c -> Q c s -> mwp (get_cb i) s Q.
Proof. intros Hc HQ. unfold mwp, get_cb. by rewrite Hc. Qed.
Lemma mwp_put_cb i c s (Q : unit -> cache_state D -> Prop) :
  0 <= i < zlen (cache s) -> Q tt (upd s i c) -> mwp (put_cb i c) s Q.
Proof. intros Hi HQ. unfold mwp, put_cb. by rewrite zset_Some. Qed.
Lemma upd_lookup_eq s i c : 0 <= i < zlen (cache s) -> znth (cache (upd s i c)) i = Some c.
Proof. intros. rewrite upd_lookup by done. by rewrite decide_True. Qed.
Lemma upd_len s i c : zlen (cache (upd s i c)) = zlen (cache s).
Proof. apply zlen_insert. Qed.
Lemma upd_upd s i c c' : upd (upd s i c) i c' = upd s i c'.
Proof. unfold upd. simpl. by rewrite list_insert_insert_eq. Qed.
Lemma upd_id s i c : znth (cache s) i = Some c -> upd s i c = s.
Proof. intros Hc. unfold upd. rewrite (znth_list_insert_id _ _ _ Hc). by destruct s. Qed.
Lemma set_block_lock_id l c : block_lock c = None ->
  set_block_lock None (set_block_lock l c) = c.
Proof. destruct c. simpl. by intros ->. Qed.

Ltac slot :=
  first [ eassumption | rewrite ?upd_len; simpl; rewrite ?zlen_insert; first [eassumption|lia]
        | apply upd_lookup_eq; slot ].
Ltac c_step :=
  first
  [ wp_step
  | lazymatch goal with
    | |- mwp (get_cb _) _ _ => eapply mwp_get_cb; [slot|]
    | |- mwp (put_cb _ _) _ _ => apply mwp_put_cb; [slot|]
    | |- wp (lock_acquire _ None) _ => simpl
    | Hl : ?l = None |- wp (lock_acquire _ ?l) _ => rewrite Hl; simpl
    | |- mwp (set_sync _) _ _ => apply mwp_modify
    | |- mwp (set_hand _) _ _ => apply mwp_modify
    | |- wp (lock_release ?m _) _ => apply wp_lock_release; [solve [assumption|reflexivity]|]
    end ]; cbv beta; simpl; rewrite ?upd_upd.

(** The scan takes the first free slot that passes the test; slots whose lock
    somebody holds are passed over. *)
Lemma scan_spec_gen me p s : zlen (cache s) = CACHE_CNT ->
  (forall l c, p (set_block_lock l c) = p c) ->
  mwp (mloop 65 (scan_body me p) 0) s (fun r s' =>
    match r with
    | Some i => exists c, znth (cache s) i = Some c /\ block_lock c = None /\ p c = true /\
                  s' = upd s i (set_block_lock (Some me) c)
    | None => s' = s /\ forall i c, znth (cache s) i = Some c -> block_lock c = None ->
                p c = false
    end).
Proof.
  intros Hlen Hp. unfold CACHE_CNT in *.
  apply (mloop_wp (fun i s' => s' = s /\ 0 <= i <= 64 /\
           forall j c, znth (cache s) j = Some c -> block_lock c = None -> j < i -> p c = false)
          (fun i => Z.to_nat (64 - i))); [|split_and!; [done|lia|lia|]|lia].
  2:{ intros j c Hj%znth_Some. lia. }
  intros i s' (-> & Hi & Hno). unfold scan_body, CACHE_CNT.
  destruct (Z.ltb_spec i 64) as [Hlt|Hge].
  2:{ c_step. split; [done|]. intros j c Hj ?. apply (Hno j); [done..|].
      apply znth_Some in Hj. lia. }
  destruct (znth_is_Some (cache s) i ltac:(lia)) as [c Hc].
  pose proof (znth_Some _ _ _ Hc) as Hr.
  unfold try_block. do 3 c_step. destruct (block_lock c) as [t|] eqn:Hn.
  { repeat c_step. split; [|lia]. split; [done|]. split; [lia|]. intros j cj Hj Hl Hlt'.
    destruct (decide (j = i)) as [->|]; [congruence|]. apply (Hno j); [done..|lia]. }
  repeat c_step. rewrite Hp. destruct (p c) eqn:E.
  - c_step. by exists c.
  - unfold release_block. repeat c_step.
    rewrite set_block_lock_id by done. rewrite upd_id by done.
    split; [|lia]. split; [done|]. split; [lia|]. intros j cj Hj Hl Hlt'.
    destruct (decide (j = i)) as [->|]; [congruence|]. apply (Hno j); [done..|lia].
Qed.

Lemma scan_spec me p s : zlen (cache s) = CACHE_CNT ->
  (forall i c, znth (cache s) i = Some c -> block_lock c = None) ->
  (forall l c, p (set_block_lock l c) = p c) ->
  mwp (mloop 65 (scan_body me p) 0) s (fun r s' =>
    match r with
    | Some i => exists c, znth (cache s) i = Some c /\ p c = true /\
                  s' = upd s i (set_block_lock (Some me) c)
    | None => s' = s /\ forall i c, znth (cache s) i = Some c -> p c = false
    end).
Proof.
  intros Hlen Hfree Hp. eapply mwp_mono; [by apply scan_spec_gen|].
  intros [i|] s'; naive_solver.
Qed.

(** *** Changes that do not concern the contents *)
Lemma cb_ok_payload dev c c' : payload c' = payload c -> cb_ok dev c -> cb_ok dev c'.
Proof. unfold payload. intros [= E1 E2 E3 E4] []. split; rewrite ?E1, ?E2, ?E3, ?E4; assumption. Qed.
Lemma payload_upd s i c c' : cache_ok s -> znth (cache s) i = Some c ->
  payload c' = payload c -> cache_ok (upd s i c') /\ forall k, view (upd s i c') k = view s k.
Proof.
  intros Hok Hc Hp. assert (cache_ok (upd s i c')) as Hok'.
  { apply (upd_ok s i c); [done..| |].
    - eapply cb_ok_payload; [done|]. by eapply ok_blocks.
    - right. left. by injection Hp. }
  split; [done|]. intros k. rewrite (view_upd s i c) by done.
  unfold payload in Hp. injection Hp as E1 E2 E3 E4. rewrite E1, E2, E4.
  repeat case_decide; [|done..]. symmetry. destruct_and!. by apply (view_hit s i c).
Qed.
Lemma with_sync_ok s l : cache_ok s -> cache_ok (with_sync s l).
Proof. intros []. by split. Qed.
Lemma with_hand_ok s h : cache_ok s -> 0 <= h <= CACHE_CNT -> cache_ok (with_hand s h).
Proof. intros [] ?. by split. Qed.

(** *** Writing a dirty slot back *)
Lemma with_dev_ok s i c dev : cache_ok s -> znth (cache s) i = Some c -> dirty c = true ->
  blk_size dev = blk_size (fs_device s) -> blk_type dev = blk_type (fs_device s) ->
  (forall k, sector_of dev k =
     if decide (k = cb_sector c) then cb_data c else sector_of (fs_device s) k) ->
  cache_ok (with_dev s dev) /\ forall k, view (with_dev s dev) k = view s k.
Proof.
  intros Hok Hc Hd Hsz Hty Hdev.
  pose proof (ok_blocks s Hok i c Hc) as Hcb.
  pose proof (ok_dirty _ _ Hcb Hd) as Hu.
  assert (cb_sector c <> INVALID_SECTOR) as Hni.
  { intros Hi. apply (ok_inv _ _ Hcb) in Hi. congruence. }
  assert (cache_ok (with_dev s dev)) as Hok'.
  { split; simpl; try apply Hok.
    - rewrite Hsz, Hty. apply Hok.
    - intros k Hk. rewrite Hdev. case_decide; [apply Hcb|]. apply (ok_sect s Hok). lia.
    - intros j cj Hj. destruct (ok_blocks s Hok j cj Hj) as [? ? Hr ? Hcl]. split; try done.
      + by rewrite Hsz.
      + intros Hu' Hd'. rewrite Hdev. case_decide as E; [|by apply Hcl].
        assert (i = j) as -> by (eapply (ok_uniq s Hok); eauto). congruence. }
  split; [done|]. intros k.
  destruct (decide (k = cb_sector c)) as [->|Hne].
  { by rewrite (view_hit s i c), (view_hit (with_dev s dev) i c). }
  unfold view. simpl. destruct (find _ _); [done|]. rewrite Hdev. by rewrite decide_False.
Qed.

(** Same contents, same lock on the cache, same device geometry. *)
Record same_view (s s' : cache_state D) : Prop := {
  sv_ok : cache_ok s';
  sv_view : forall k, view s' k = view s k;
  sv_sync : cache_sync s' = cache_sync s;
  sv_size : blk_size (fs_device s') = blk_size (fs_device s);
}.

Lemma flush_block_spec me i c s : cache_ok s -> znth (cache s) i = Some c ->
  data_lock c = None ->
  mwp (flush_block me i) s (fun _ s' => same_view s s' /\ hand s' = hand s /\
    exists c', cache s' = <[Z.to_nat i := c']> (cache s) /\ dirty c' = false /\
      block_lock c' = block_lock c /\ data_lock c' = None /\
      idle_block c' = idle_block c /\
      (dirty c = true -> sector_of (fs_device s') (cb_sector c) = cb_data c) /\
      forall k, k <> cb_sector c -> sector_of (fs_device s') k = sector_of (fs_device s) k).
Proof.
  intros Hok Hc Hl. pose proof (znth_Some _ _ _ Hc) as Hr.
  pose proof (ok_blocks s Hok i c Hc) as Hcb.
  unfold flush_block, acquire_data, release_data. repeat c_step.
  destruct (dirty c) eqn:Hd; simpl.
  - assert (cb_sector c <> INVALID_SECTOR) as Hni.
    { intros Hi. apply (ok_inv _ _ Hcb) in Hi. apply (ok_dirty _ _ Hcb) in Hd. congruence. }
    apply Z.eqb_neq in Hni as Hni'. rewrite Hni'. simpl.
    pose proof (ok_range _ _ Hcb Hni). pose proof (ok_dev s Hok) as [Ht Hs].
    repeat c_step. eapply wp_mono; [apply block_write_spec; [simpl; lia|done]|].
    intros dev (Hsz & Hty & Hdev). simpl in *.
    destruct (with_dev_ok s i c dev Hok Hc Hd Hsz Hty Hdev) as [Hok1 Hv1].
    assert (cb_ok dev (clear_block c)) as Hcl.
    { split; simpl; try done. apply Hcb. }
    assert (cache_ok (upd (with_dev s dev) i (clear_block c))) as Hok2.
    { apply (upd_ok (with_dev s dev) i c); try done. by left. }
    repeat c_step. unfold upd. simpl. rewrite !list_insert_insert_eq.
    change (set_data_lock None _) with (set_data_lock None (clear_block c)).
    replace (set_data_lock None (clear_block c)) with (clear_block c)
      by (destruct c; simpl in *; by subst).
    change (CacheState _ _ _ dev) with (upd (with_dev s dev) i (clear_block c)).
    split_and!; [|done|].
    + split; [done| |done|done]. intros k.
      rewrite (view_upd (with_dev s dev) i c) by done. rewrite Hv1. simpl.
      rewrite decide_False by naive_solver. case_decide as E; [|done]. destruct E as [<- Hu].
      rewrite Hdev, decide_True by done. symmetry. by apply (view_hit s i c).
    + exists (clear_block c). simpl. split; [done|]. split; [done|]. split; [done|].
      split; [done|]. split; [done|]. split.
      * intros _. by rewrite Hdev, decide_True.
      * intros k Hk. by rewrite Hdev, decide_False.
  - repeat c_step.
    replace (set_data_lock None _) with c by (destruct c; simpl in *; by subst).
    rewrite upd_id by done. split_and!; [by split|done|]. exists c.
    split_and!; try done. by rewrite list_insert_insert_eq.
Qed.

Lemma same_view_trans s1 s2 s3 : same_view s1 s2 -> same_view s2 s3 -> same_view s1 s3.
Proof. intros [] []. split; try done; congruence. Qed.
Lemma upd_same_view s i c c' : cache_ok s -> znth (cache s) i = Some c ->
  payload c' = payload c -> same_view s (upd s i c').
Proof. intros. destruct (payload_upd s i c c') as [? ?]; [done..|]. by split. Qed.

(** *** Eviction *)
Lemma evict_body_spec me bound s c : cache_ok s -> hand s < bound ->
  znth (cache s) (hand s) = Some c -> cb_idle c ->
  mwp (evict_body me bound tt) s (fun r s' =>
    r = inr (Some (hand s)) /\ same_view s s' /\ hand s' = hand s /\
    exists c', cache s' = <[Z.to_nat (hand s) := c']> (cache s) /\ dirty c' = false /\
      block_lock c' = Some me /\ data_lock c' = None /\ idle_block c' = true).
Proof.
  intros Hok Hb Hc [Hl Hdl Hid]. pose proof (znth_Some _ _ _ Hc) as Hr.
  set (i := hand s) in *. unfold evict_body, try_block. do 2 c_step. fold i.
  rewrite (proj2 (Z.ltb_lt _ _) Hb). do 3 c_step. rewrite Hl. repeat c_step.
  change (idle_block (set_block_lock (Some me) c)) with (idle_block c). rewrite Hid.
  repeat c_step. set (c1 := set_block_lock (Some me) c).
  pose proof (upd_same_view s i c c1 Hok Hc eq_refl) as Hv1.
  eapply mwp_mono.
  { apply (flush_block_spec me i c1); [apply Hv1|by apply upd_lookup_eq|done]. }
  intros _ s' (Hv & Hh & c' & Hcache & Hd & Hl' & Hdl' & Hid' & _). simpl in *.
  split; [done|]. split; [by eapply same_view_trans|]. split; [done|].
  exists c'. rewrite Hcache, list_insert_insert_eq. split_and!; try done.
  by rewrite Hid'.
Qed.

(** On an idle cache an eviction always finds a victim: the slot under the hand
    (slot 0 when the hand is past the last slot). *)
Lemma try_to_empty_spec me s : cache_ok s ->
  (forall i c, znth (cache s) i = Some c -> cb_idle c) ->
  mwp (try_to_empty me) s (fun r s' => exists i c',
    i = (if hand s <? CACHE_CNT then hand s else 0) /\ r = Some i /\
    same_view s s' /\ hand s' = i /\ 0 <= i < CACHE_CNT /\
    cache s' = <[Z.to_nat i := c']> (cache s) /\ dirty c' = false /\
    block_lock c' = Some me /\ data_lock c' = None /\ idle_block c' = true).
Proof.
  intros Hok Hidle. pose proof (ok_hand s Hok) as Hh. pose proof (ok_cnt s Hok) as Hcnt.
  unfold CACHE_CNT in *. unfold try_to_empty. do 3 c_step.
  destruct (Z.ltb_spec (hand s) 64) as [Hlt|Hge].
  - destruct (znth_is_Some (cache s) (hand s) ltac:(lia)) as [c Hc].
    eapply mwp_mono.
    { apply (mloop_wp (fun _ s' => s' = s) (fun _ => 0%nat)
        (fun r s' => r = Some (hand s) /\ same_view s s' /\ hand s' = hand s /\
           exists c', cache s' = <[Z.to_nat (hand s) := c']> (cache s) /\ dirty c' = false /\
           block_lock c' = Some me /\ data_lock c' = None /\ idle_block c' = true));
        [|done|lia].
      intros [] ? ->. eapply mwp_mono; [by eapply evict_body_spec; eauto|].
      simpl. intros r s' (-> & ?). by split. }
    simpl. intros r s' (-> & Hv & Hh' & c' & ?). c_step. exists (hand s), c'.
    unfold CACHE_CNT. destruct_and!. split_and!; try done; lia.
  - eapply mwp_mono.
    { apply (mloop_wp (fun _ s' => s' = s) (fun _ => 0%nat)
        (fun r s' => r = None /\ s' = s)); [|done|lia].
      intros [] ? ->. unfold evict_body. do 2 c_step.
      unfold CACHE_CNT. rewrite (proj2 (Z.ltb_ge _ _) Hge). by c_step. }
    simpl. intros r ? [-> ->]. repeat c_step.
    destruct (znth_is_Some (cache s) 0 ltac:(lia)) as [c Hc].
    set (s0 := with_hand s 0).
    assert (cache_ok s0) as Hok0 by (apply with_hand_ok; [done|unfold CACHE_CNT; lia]).
    apply (mloop_wp (fun _ s' => s' = s0) (fun _ => 0%nat)); [|done|lia].
    intros [] ? ->. eapply mwp_mono.
    { eapply (evict_body_spec me (hand s) s0 c); try done; [simpl; lia|by eapply Hidle]. }
    simpl. intros r s' (-> & [] & Hh' & c' & Hc'). exists 0, c'. split_and!; try done.
    all: tauto.
Qed.

(** *** Locking a sector into the cache *)

(** The slot as its locker leaves it. *)
Definition held (me : Z) (t : lock_type) (c : cache_block) : Prop :=
  data_lock c = None /\ read_waiters c = 0 /\ write_waiters c = 0 /\
  match t with
  | EXCLUSIVE => block_lock c = Some me /\ readers c = 0 /\ writers c = 1
  | NON_EXCLUSIVE => block_lock c = None /\ readers c = 1 /\ writers c = 0
  end.
(** Slot [i] holds sector [k] for [me], everything else is idle. *)
Record locked (me : Z) (t : lock_type) (i k : Z) (s s' : cache_state D) : Prop := {
  lk_view : same_view s s';
  lk_others : forall j c, j <> i -> znth (cache s') j = Some c -> cb_idle c;
  lk_slot : exists c, znth (cache s') i = Some c /\ cb_sector c = k /\ held me t c;
}.

Lemma idle_block_true c : idle_block c = true <->
  readers c = 0 /\ read_waiters c = 0 /\ writers c = 0 /\ write_waiters c = 0.
Proof. unfold idle_block. rewrite !andb_true_iff, !Z.eqb_eq. tauto. Qed.

Lemma claim_spec me t i k c c1 s1 : cache_sync s1 = Some me -> znth (cache s1) i = Some c ->
  cache_ok (upd s1 i c1) -> (forall q, view (upd s1 i c1) q = view s1 q) ->
  block_lock c1 = Some me -> data_lock c1 = None -> idle_block c1 = true ->
  cb_sector c1 = k ->
  mwp (_ ← put_cb i c1; _ ← add_lock me i t; _ ← release_sync me; mret (Some i)) s1
    (fun r s' => r = Some i /\ same_view (with_sync s1 None) s' /\
       exists c', cache s' = <[Z.to_nat i := c']> (cache s1) /\ cb_sector c' = k /\ held me t c').
Proof.
  intros Hs Hc Hok Hv Hl Hdl (Hr & Hrw & Hw & Hww)%idle_block_true Hk.
  pose proof (znth_Some _ _ _ Hc) as Hi.
  assert (forall c', payload c' = payload c1 ->
    same_view (with_sync s1 None) (with_sync (upd s1 i c') None)) as Hsv.
  { intros c' Hp. destruct (payload_upd (upd s1 i c1) i c1 c' Hok) as [Hok' Hv'];
      [by apply upd_lookup_eq|done|]. rewrite upd_upd in Hok', Hv'.
    split; [by apply with_sync_ok| |done|done]. intros q.
    change (view (upd s1 i c') q = view s1 q). by rewrite Hv', Hv. }
  destruct t; unfold add_lock, add_exclusive_lock, add_nonexclusive_lock, release_sync,
    release_block; repeat c_step.
  - split; [done|]. split; [by apply (Hsv (set_block_lock None (set_readers (readers c1 + 1) c1)))|].
    eexists. split; [done|]. simpl. split; [done|]. unfold held; simpl. split_and!; try done. lia.
  - split; [done|]. split; [by apply (Hsv (set_writers (writers c1 + 1) c1))|].
    eexists. split; [done|]. simpl. split; [done|]. unfold held; simpl. split_and!; try done. lia.
Qed.

Lemma claim_locked me t i k c c1 s s1 : cache_idle s ->
  same_view (with_sync s (Some me)) s1 -> znth (cache s1) i = Some c ->
  (forall j cj, j <> i -> znth (cache s1) j = Some cj -> cb_idle cj) ->
  cache_ok (upd s1 i c1) -> (forall q, view (upd s1 i c1) q = view s1 q) ->
  block_lock c1 = Some me -> data_lock c1 = None -> idle_block c1 = true ->
  cb_sector c1 = k ->
  mwp (_ ← put_cb i c1; _ ← add_lock me i t; _ ← release_sync me; mret (Some i)) s1
    (fun r s' => exists i', r = Some i' /\ locked me t i' k s s').
Proof.
  intros [Hsync _] [Hok1 Hv1 Hs1 Hz1] Hc Hoth Hok Hv Hl Hdl Hid Hk.
  pose proof (znth_Some _ _ _ Hc) as Hi.
  eapply mwp_mono; [by eapply claim_spec|]. simpl.
  intros r s' (-> & [Hok' Hv' Hs' Hz'] & c' & Hcache & Hk' & Hheld). exists i. split; [done|].
  split.
  - split; [done| | |simpl in *; congruence].
    + intros q. rewrite Hv'. change (view s1 q = view s q). by rewrite Hv1.
    + by rewrite Hs', Hsync.
  - intros j cj Hj. rewrite Hcache, znth_insert, decide_False by done. by apply Hoth.
  - exists c'. rewrite Hcache, znth_insert, decide_True by done. done.
Qed.

Lemma cache_lock_once_spec me t k s : cache_ok s -> cache_idle s ->
  0 <= k < blk_size (fs_device s) ->
  mwp (cache_lock_once me k t) s (fun r s' => exists i, r = Some i /\ locked me t i k s s').
Proof.
  intros Hok Hidle Hk. pose proof Hidle as [Hsync Hblk]. pose proof (ok_dev s Hok) as [_ Hsz].
  assert (k <> INVALID_SECTOR) as Hki by (unfold INVALID_SECTOR; lia).
  unfold cache_lock_once, acquire_sync. repeat c_step. fold (with_sync s (Some me)).
  set (s0 := with_sync s (Some me)). pose proof (with_sync_ok s (Some me) Hok : cache_ok s0) as Hok0.
  assert (forall i c, znth (cache s0) i = Some c -> block_lock c = None) as Hfree.
  { intros i c Hc. by apply (Hblk i c). }
  (* claiming slot [i], which nobody holds *)
  assert (forall i c c1, znth (cache s0) i = Some c ->
    c1 = set_sector k (set_block_lock (Some me) c) ->
    cache_ok (upd s0 i c1) -> (forall q, view (upd s0 i c1) q = view s0 q) ->
    mwp (c ← get_cb i; _ ← put_cb i (set_sector k c); _ ← add_lock me i t;
         _ ← release_sync me; mret (Some i)) (upd s0 i (set_block_lock (Some me) c))
      (fun r s' => exists i', r = Some i' /\ locked me t i' k s s')) as Hclaim.
  { intros i c c1 Hc -> Hok1 Hv1. pose proof (znth_Some _ _ _ Hc) as Hi.
    destruct (Hblk i c Hc) as [Hl Hdl Hid].
    set (c0 := set_block_lock (Some me) c).
    pose proof (upd_same_view s0 i c c0 Hok0 Hc eq_refl) as Hsv.
    do 2 c_step. apply (claim_locked me t i k c0); try done; rewrite ?upd_upd; try done.
    - by apply upd_lookup_eq.
    - intros j cj Hj. rewrite upd_lookup, decide_False by done. by apply Hblk.
    - intros q. rewrite Hv1. symmetry. apply Hsv. }
  eapply mwp_mono; [apply scan_spec; [apply Hok0|done|done]|].
  intros [i|]; simpl.
  { intros s1 (c & Hc & Hsec%Z.eqb_eq & ->). eapply Hclaim; [done..| |].
    all: apply (payload_upd s0 i c); [done..|]; unfold payload; simpl; by rewrite Hsec. }
  intros s1 [-> Hno]. c_step.
  assert (forall j cj, znth (cache s0) j = Some cj -> cb_sector cj <> k) as Hnok.
  { intros j cj Hj. by apply Z.eqb_neq, (Hno j). }
  eapply mwp_mono; [apply scan_spec; [apply Hok0|done|done]|].
  intros [i|]; simpl.
  { intros s1 (c & Hc & Hsec%Z.eqb_eq & ->).
    pose proof (ok_blocks s0 Hok0 i c Hc) as Hcb.
    pose proof (ok_inv _ _ Hcb Hsec) as Hu.
    assert (dirty c = false) as Hd.
    { destruct (dirty c) eqn:E; [|done]. rewrite (ok_dirty _ _ Hcb E) in Hu. done. }
    assert (cache_ok (upd s0 i (set_sector k (set_block_lock (Some me) c)))) as Hok1.
    { apply (upd_ok s0 i c); [done..| |by right; right].
      split; simpl; rewrite ?Hu, ?Hd; try done. apply Hcb. }
    eapply Hclaim; [done..|]. intros q. rewrite (view_upd s0 i c) by done. simpl.
    rewrite Hu. by rewrite !decide_False by naive_solver. }
  intros s1 [-> Hfull]. c_step.
  eapply mwp_mono; [apply try_to_empty_spec; [done|apply Hblk]|].
  intros r s1 (i & c & _ & -> & Hsv & _ & Hi & Hcache & Hd & Hl & Hdl & Hid).
  assert (znth (cache s1) i = Some c) as Hc.
  { rewrite Hcache, znth_insert by (rewrite (ok_cnt s0 Hok0); lia). by rewrite decide_True. }
  assert (forall j cj, j <> i -> znth (cache s1) j = Some cj -> znth (cache s0) j = Some cj) as Hoth.
  { intros j cj Hj. rewrite Hcache, znth_insert by (rewrite (ok_cnt s0 Hok0); lia).
    by rewrite decide_False. }
  pose proof (sv_ok _ _ Hsv) as Hok1. pose proof (ok_blocks s1 Hok1 i c Hc) as Hcb.
  assert (cache_ok (upd s1 i (set_up_to_date false (set_sector k c)))) as Hok2.
  { apply (upd_ok s1 i c); [done..| |].
    - split; simpl; try done; [apply Hcb| |by rewrite Hd].
      intros _. rewrite (sv_size _ _ Hsv). done.
    - destruct (decide (cb_sector c = k)) as [<-|Hne]; [by right; left|].
      right; right. intros j cj Hj. simpl. destruct (decide (j = i)) as [->|Hji].
      + congruence.
      + apply (Hnok j). by apply Hoth. }
  do 2 c_step. apply (claim_locked me t i k c _ s); try done.
  - intros j cj Hj Hjc. apply (Hblk j cj). by apply Hoth.
  - intros q. rewrite (view_upd s1 i c) by done. simpl. rewrite decide_False by naive_solver.
    case_decide as E; [|done]. destruct E as [<- Hu]. rewrite (view_hit s1 i c) by done.
    symmetry. by apply Hcb.
Qed.

Lemma cache_lock_spec me t k fuel s : cache_ok s -> cache_idle s ->
  0 <= k < blk_size (fs_device s) -> (0 < fuel)%nat ->
  mwp (cache_lock me fuel k t) s (fun i s' => locked me t i k s s').
Proof.
  intros Hok Hidle Hk Hf. unfold cache_lock.
  apply (mloop_wp (fun _ s' => s' = s) (fun _ => 0%nat)); [|done|done].
  intros [] ? ->. c_step. eapply mwp_mono; [by apply cache_lock_once_spec|].
  intros r s' (i & -> & Hl). by c_step.
Qed.

(** *** Reading and writing a locked slot *)
Lemma with_dev_same s dev : cache_ok s -> blk_size dev = blk_size (fs_device s) ->
  blk_type dev = blk_type (fs_device s) ->
  (forall k, sector_of dev k = sector_of (fs_device s) k) ->
  cache_ok (with_dev s dev) /\ forall k, view (with_dev s dev) k = view s k.
Proof.
  intros Hok Hsz Hty Hdev. split.
  - split; simpl; try apply Hok.
    + rewrite Hsz, Hty. apply Hok.
    + intros k Hk. rewrite Hdev. apply (ok_sect s Hok). lia.
    + intros j cj Hj. destruct (ok_blocks s Hok j cj Hj). split; try done.
      * by rewrite Hsz.
      * intros. rewrite Hdev. auto.
  - intros k. unfold view. simpl. by destruct (find _ _).
Qed.

Lemma held_payload me t c c' : held me t c -> data_lock c' = None ->
  readers c' = readers c -> read_waiters c' = read_waiters c -> writers c' = writers c ->
  write_waiters c' = write_waiters c -> block_lock c' = block_lock c -> held me t c'.
Proof. unfold held. intros. destruct t; intuition congruence. Qed.

(** Replacing the locked slot [i] by one with the same lock state. *)
Lemma locked_upd me t i k s s1 c' : locked me t i k s s1 -> same_view s (upd s1 i c') ->
  cb_sector c' = k -> held me t c' -> locked me t i k s (upd s1 i c').
Proof.
  intros [Hv Ho (c & Hc & _)] Hv' Hk Hh. pose proof (znth_Some _ _ _ Hc).
  split; [done| |].
  - intros j cj Hj. rewrite upd_lookup, decide_False by done. by apply Ho.
  - exists c'. by rewrite upd_lookup_eq.
Qed.

Lemma cache_read_spec me t i k s s1 : 0 <= k < blk_size (fs_device s) ->
  locked me t i k s s1 ->
  mwp (cache_read me i) s1 (fun x s2 => x = view s k /\ locked me t i k s s2 /\
    exists c, znth (cache s2) i = Some c /\ up_to_date c = true).
Proof.
  intros Hk Hlk. pose proof Hlk as [[Hok Hv Hs Hz] Ho (c & Hc & Hck & Hh)].
  pose proof (znth_Some _ _ _ Hc) as Hi. pose proof (proj1 Hh) as Hdl.
  unfold cache_read, acquire_data, release_data. repeat c_step.
  destruct (up_to_date c) eqn:Hu.
  - repeat c_step.
    replace (set_data_lock None _) with c by (destruct c; simpl in *; by subst).
    rewrite upd_id by done. rewrite (znth_list_insert_id _ _ _ Hc).
    split; [|split; [done|by exists c]].
    by rewrite <- Hv, (view_hit s1 i c).
  - repeat c_step. rewrite Hck. eapply wp_mono; [apply block_read_spec; lia|].
    intros [x dev] (-> & Hsz & Hty & Hdev). repeat c_step.
    unfold upd. simpl. rewrite !list_insert_insert_eq.
    destruct (with_dev_same s1 dev Hok Hsz Hty Hdev) as [Hok1 Hv1].
    set (x := sector_of (fs_device s1) k).
    set (c' := set_data x (set_up_to_date true c)).
    replace (set_data_lock None _) with c' by (destruct c; simpl in *; by subst).
    change (CacheState _ _ _ dev) with (upd (with_dev s1 dev) i c').
    pose proof (ok_blocks s1 Hok i c Hc) as Hcb.
    assert (dirty c = false) as Hd.
    { destruct (dirty c) eqn:E; [|done]. rewrite (ok_dirty _ _ Hcb E) in Hu. done. }
    assert (k <> INVALID_SECTOR) as Hki.
    { pose proof (ok_dev s1 Hok) as [_ ?]. unfold INVALID_SECTOR. lia. }
    assert (cache_ok (upd (with_dev s1 dev) i c')) as Hok2.
    { apply (upd_ok (with_dev s1 dev) i c); try done; [|by right; left].
      split; simpl; try congruence.
      - apply (ok_sect s1 Hok). lia.
      - intros _ _. by rewrite Hdev, Hck. }
    assert (view s k = x) as Hx.
    { rewrite <- Hv. apply view_miss. intros j cj Hj Hjk.
      destruct (decide (j = i)) as [->|Hne]; [congruence|].
      exfalso. apply Hne. eapply (ok_uniq s1 Hok); eauto; congruence. }
    split; [done|]. split.
    + apply (locked_upd me t i k s (with_dev s1 dev)); try done.
      * split; [|done|by exists c]. split; [done| |done|simpl; congruence].
        intros q. by rewrite Hv1.
      * split; [done| |done|simpl; congruence]. intros q.
        rewrite (view_upd (with_dev s1 dev) i c) by done. simpl. rewrite Hv1, Hv, Hck, Hu.
        case_decide as E; [by destruct E as [<- _]|]. by rewrite decide_False by naive_solver.
    + exists c'. split; [|done]. by apply upd_lookup_eq.
Qed.

Lemma cache_write_spec me i k data size offset new old s s1 : 0 <= k < blk_size (fs_device s) ->
  locked me EXCLUSIVE i k s s1 -> zlen (view s k) = BLOCK_SECTOR_SIZE ->
  (offset = 0 /\ size = BLOCK_SECTOR_SIZE \/
   exists c, znth (cache s1) i = Some c /\ up_to_date c = true) ->
  zslice data 0 size = Some new -> zsplice (view s k) offset new = Some old ->
  mwp (cache_write me i data size offset) s1 (fun _ s2 =>
    cache_ok s2 /\ cache_sync s2 = cache_sync s /\
    blk_size (fs_device s2) = blk_size (fs_device s) /\
    (forall q, view s2 q = if decide (q = k) then old else view s q) /\
    (forall j c, j <> i -> znth (cache s2) j = Some c -> cb_idle c) /\
    exists c, znth (cache s2) i = Some c /\ held me EXCLUSIVE c).
Proof.
  intros Hk [[Hok Hv Hs Hz] Ho (c & Hc & Hck & Hh)] Hsect Hcase Hnew Hold.
  pose proof (znth_Some _ _ _ Hc) as Hi. pose proof (proj1 Hh) as Hdl.
  pose proof (ok_blocks s1 Hok i c Hc) as Hcb.
  assert (zsplice (cb_data c) offset new = Some old) as Hsp.
  { destruct Hcase as [[-> ->]|(c0 & Hc0 & Hu)].
    - assert (zlen new = BLOCK_SECTOR_SIZE) as Hnl.
      { unfold zslice in Hnew. case_decide; [|done]. simplify_eq.
        unfold zlen, BLOCK_SECTOR_SIZE in *. rewrite length_take, length_drop. lia. }
      rewrite zsplice_all in Hold by (rewrite Hsect; congruence).
      rewrite zsplice_all by (rewrite (ok_len _ _ Hcb); congruence). done.
    - simplify_eq. by rewrite <- (view_hit s1 i c (cb_sector c)), Hv. }
  assert (zlen old = BLOCK_SECTOR_SIZE) as Hol.
  { apply zsplice_len in Hold. unfold zlen in *. congruence. }
  set (c' := set_data old (set_dirty true (set_up_to_date true c))).
  unfold cache_write, acquire_data, release_data. repeat c_step.
  apply (wp_deref _ new); [done|]. repeat c_step. apply (wp_deref _ old); [done|].
  repeat c_step. replace (set_data_lock None _) with c' by (destruct c; simpl in *; by subst).
  pose proof (ok_dev s1 Hok) as [_ Hlt].
  assert (cache_ok (upd s1 i c')) as Hok'.
  { apply (upd_ok s1 i c); [done..| |by right; left]. split; simpl; try done.
    - rewrite Hck. unfold INVALID_SECTOR. lia.
    - intros _. lia. }
  split_and!; try done.
  - intros q. rewrite (view_upd s1 i c) by done. simpl. rewrite Hck, Hv.
    destruct (decide (q = k)) as [->|Hne]; [by rewrite decide_True|].
    by rewrite !decide_False by naive_solver.
  - intros j cj Hj. rewrite list_insert_insert_eq, znth_insert, decide_False by done. by apply Ho.
  - exists c'. rewrite list_insert_insert_eq. split; [by apply (upd_lookup_eq s1)|].
    by eapply held_payload.
Qed.

Lemma cache_unlock_spec me t i c s : cache_ok s -> cache_sync s = None ->
  (forall j cj, j <> i -> znth (cache s) j = Some cj -> cb_idle cj) ->
  znth (cache s) i = Some c -> held me t c ->
  mwp (cache_unlock me i) s (fun _ s' => same_view s s' /\ cache_idle s').
Proof.
  intros Hok Hsync Ho Hc Hh. pose proof (znth_Some _ _ _ Hc) as Hi.
  assert (forall c', payload c' = payload c -> cb_idle c' ->
    same_view s (upd s i c') /\ cache_idle (upd s i c')) as Hfin.
  { intros c' Hp Hid. split; [by eapply upd_same_view|]. split; [done|].
    intros j cj. rewrite upd_lookup by done. case_decide; intros; simplify_eq; [done|].
    by eapply Ho. }
  destruct Hh as (Hdl & Hrw & Hww & Ht).
  unfold cache_unlock, acquire_block, release_block. do 2 c_step. destruct t.
  - destruct Ht as (Hl & Hr & Hw). unfold lock_held.
    rewrite Hl, bool_decide_eq_false_2 by done. simpl. repeat c_step.
    apply Hfin; [done|]. split; simpl; [done|done|].
    rewrite idle_block_true. simpl. rewrite Hr, Hw. done.
  - destruct Ht as (Hl & Hr & Hw). unfold lock_held.
    rewrite Hl, bool_decide_eq_true_2 by done. simpl. repeat c_step.
    apply Hfin; [done|]. split; simpl; [done|done|].
    rewrite idle_block_true. simpl. rewrite Hr, Hw. done.
Qed.

Lemma view_len s k : cache_ok s -> 0 <= k < blk_size (fs_device s) ->
  zlen (view s k) = BLOCK_SECTOR_SIZE.
Proof.
  intros Hok Hk. unfold view. destruct (find _ _) as [c|] eqn:E; [|by apply (ok_sect s Hok)].
  apply find_znth in E as (i & Hi & _). apply (ok_blocks s Hok i c Hi).
Qed.

Lemma full_read_spec me fuel k size offset s : cache_ok s -> cache_idle s ->
  0 <= k < blk_size (fs_device s) -> (0 < fuel)%nat ->
  0 <= offset -> 0 <= size -> offset + size <= BLOCK_SECTOR_SIZE ->
  mwp (full_read me fuel k size offset) s (fun buf s' =>
    Some buf = zslice (view s k) offset size /\ same_view s s' /\ cache_idle s').
Proof.
  intros Hok Hidle Hk Hf Ho Hs Hos. unfold full_read. wp_step.
  eapply mwp_mono; [by apply cache_lock_spec|]. simpl. intros i s1 Hlk. wp_step.
  eapply mwp_mono; [by eapply cache_read_spec|]. simpl.
  intros x s2 (-> & [Hv Hoth (c & Hc & _ & Hh)] & _). do 2 wp_step.
  pose proof (view_len s k Hok Hk) as Hlen.
  rewrite zslice_Some by lia. apply wp_ret. wp_step.
  eapply mwp_mono; [eapply (cache_unlock_spec me NON_EXCLUSIVE i c); try done; [apply Hv|]|].
  { destruct Hidle. by rewrite (sv_sync _ _ Hv). }
  intros _ s3 [Hv3 Hid3]. wp_step. split; [done|]. split; [|done].
  by eapply same_view_trans.
Qed.

Lemma full_write_spec me fuel k buffer size offset src new s : cache_ok s -> cache_idle s ->
  0 <= k < blk_size (fs_device s) -> (0 < fuel)%nat ->
  zslice buffer 0 size = Some src -> zsplice (view s k) offset src = Some new ->
  mwp (full_write me fuel k buffer size offset) s (fun _ s' =>
    cache_ok s' /\ cache_idle s' /\ blk_size (fs_device s') = blk_size (fs_device s) /\
    forall q, view s' q = if decide (q = k) then new else view s q).
Proof.
  intros Hok Hidle Hk Hf Hsrc Hnew. unfold full_write. wp_step.
  eapply mwp_mono; [by apply cache_lock_spec|]. simpl. intros i s1 Hlk. wp_step.
  pose proof (view_len s k Hok Hk) as Hlen.
  apply (mwp_mono _ _ (fun _ s2 =>
    cache_ok s2 /\ cache_sync s2 = cache_sync s /\
    blk_size (fs_device s2) = blk_size (fs_device s) /\
    (forall q, view s2 q = if decide (q = k) then new else view s q) /\
    (forall j c, j <> i -> znth (cache s2) j = Some c -> cb_idle c) /\
    exists c, znth (cache s2) i = Some c /\ held me EXCLUSIVE c)).
  - destruct ((offset =? 0) && (size =? BLOCK_SECTOR_SIZE)) eqn:E.
    + apply andb_prop in E as [->%Z.eqb_eq ->%Z.eqb_eq].
      by eapply (cache_write_spec me i k _ _ _ src); eauto.
    + wp_step. eapply mwp_mono; [by eapply cache_read_spec|]. simpl.
      intros x s2 (_ & Hlk2 & Hu). by eapply (cache_write_spec me i k _ _ _ src); eauto.
  - intros _ s2 (Hok2 & Hsync & Hsz & Hv & Ho & c & Hc & Hh).
    eapply mwp_mono; [eapply (cache_unlock_spec me EXCLUSIVE i c); try done|].
    { destruct Hidle. congruence. }
    intros _ s3 [[] Hid]. split_and!; try done; [congruence|]. intros q.
    by rewrite sv_view0, Hv.
Qed.

(** *** Flushing *)
Lemma cache_flush_spec me s : cache_ok s -> cache_idle s ->
  mwp (cache_flush me) s (fun _ s' => same_view s s' /\ cache_idle s' /\
    forall i c, znth (cache s') i = Some c -> dirty c = false).
Proof.
  intros Hok [Hsync Hid]. unfold cache_flush, acquire_sync, release_sync. repeat c_step.
  fold (with_sync s (Some me)). set (s0 := with_sync s (Some me)).
  pose proof (with_sync_ok s (Some me) Hok : cache_ok s0) as Hok0.
  pose proof (ok_cnt s Hok) as Hcnt. unfold CACHE_CNT in *.
  apply (mwp_mono _ _ (fun _ s' => same_view s0 s' /\
    (forall i c, znth (cache s') i = Some c -> cb_idle c) /\
    forall i c, znth (cache s') i = Some c -> dirty c = false)).
  - apply (mloop_wp (fun i s' => 0 <= i <= 64 /\ same_view s0 s' /\
      (forall j c, znth (cache s') j = Some c -> cb_idle c) /\
      forall j c, j < i -> znth (cache s') j = Some c -> dirty c = false)
      (fun i => Z.to_nat (64 - i))); [|split_and!; try done|lia].
    2:{ intros j c Hj Hc%znth_Some. lia. }
    intros i s1 (Hi & Hv & Hid1 & Hd). pose proof (ok_cnt _ (sv_ok _ _ Hv)) as Hc1.
    unfold CACHE_CNT in *. destruct (Z.ltb_spec i 64) as [Hlt|Hge].
    + destruct (znth_is_Some (cache s1) i ltac:(lia)) as [c Hc].
      destruct (Hid1 i c Hc) as [Hl Hdl Hcn]. c_step.
      eapply mwp_mono; [apply (flush_block_spec me i c); [apply Hv|done|done]|].
      intros _ s2 (Hv2 & _ & c' & Hcache & Hd' & Hl' & Hdl' & Hcn' & _). c_step.
      split; [|lia]. split; [lia|]. split; [by eapply same_view_trans|].
      split; intros j cj; rewrite Hcache, znth_insert by (by eapply znth_Some); case_decide.
      * intros; simplify_eq. split; congruence.
      * by apply Hid1.
      * by intros; simplify_eq.
      * intros Hj Hcj. apply (Hd j); [lia|done].
    + c_step. split; [done|]. split; [done|]. intros j c Hc. apply (Hd j); [|done].
      apply znth_Some in Hc. lia.
  - intros _ s1 ([Hok1 Hv1 Hs1 Hz1] & Hid1 & Hd1). repeat c_step.
    split; [split; [by apply (with_sync_ok s1)|exact Hv1|done|done]|]. split; [by split|done].
Qed.

(** *** Where the sequential picture ends *)
(** C22.  A sector can be cached twice.  While another thread holds the block lock
    of the slot that caches sector [k] (as [full_write] does between
    [cache_lock] and [cache_unlock]), [cache_lock] for the same sector does not
    see that slot; given an empty slot it hands out a second slot for [k]
    instead of waiting.  One-slot-per-sector is not an invariant of concurrent
    executions. *)
Theorem cache_lock_duplicates_sector me other s i k c e ce t :
  cache_sync s = None -> zlen (cache s) = CACHE_CNT ->
  znth (cache s) i = Some c -> cb_sector c = k -> block_lock c = Some other ->
  other <> me -> k <> INVALID_SECTOR ->
  (forall j cj, znth (cache s) j = Some cj -> cb_sector cj = k -> j = i) ->
  znth (cache s) e = Some ce -> cb_sector ce = INVALID_SECTOR -> block_lock ce = None ->
  exists j s', cache_lock me 1 k t s = Ok (j, s') /\ j <> i /\
    exists ci cj, znth (cache s') i = Some ci /\ znth (cache s') j = Some cj /\
      cb_sector ci = k /\ cb_sector cj = k.
Proof.
  intros Hsync Hlen Hc Hk Hl Hne Hki Huniq He Hes Hel.
  apply (mwp_ok (cache_lock me 1 k t) s (fun j s' => j <> i /\
    exists ci cj, znth (cache s') i = Some ci /\ znth (cache s') j = Some cj /\
      cb_sector ci = k /\ cb_sector cj = k)).
  unfold cache_lock. apply (mloop_wp (fun _ s' => s' = s) (fun _ => 0%nat)); [|done|lia].
  intros [] ? ->. c_step. unfold cache_lock_once, acquire_sync. repeat c_step.
  fold (with_sync s (Some me)). set (s0 := with_sync s (Some me)).
  eapply mwp_mono; [by apply scan_spec_gen|]. intros [j|]; simpl.
  { intros s1 (cj & Hj & Hlj & Hsj%Z.eqb_eq & _). exfalso.
    assert (j = i) as -> by (by eapply Huniq). congruence. }
  intros s1 [-> _]. repeat c_step. eapply mwp_mono; [by apply scan_spec_gen|].
  intros [j|]; simpl.
  2:{ intros s1 [-> Hno]. exfalso. specialize (Hno e ce He Hel). simpl in Hno.
      by rewrite Hes in Hno. }
  intros s1 (cj & Hj & Hlj & Hsj%Z.eqb_eq & ->). simpl in Hj.
  assert (j <> i) as Hji by (intros ->; congruence).
  pose proof (znth_Some _ _ _ Hj) as Hr.
  destruct t; unfold add_lock, add_exclusive_lock, add_nonexclusive_lock, release_sync,
    release_block; repeat c_step; (split; [done|]); exists c; eexists;
    rewrite ?list_insert_insert_eq, !znth_insert, decide_False, decide_True by done; done.
Qed.

(**  [cache_free] cannot succeed on a cached sector: [in_cache] returns with
    the slot's block lock held and [cache_free] acquires that lock again, which
    fails the assertion in [lock_acquire]; it returns, changing nothing, only
    when the sector is not cached.  [cache_dirty] fails the same assertion when
    its caller holds the slot exclusively. *)
Theorem cache_free_cached_panics me s k : cache_ok s -> cache_idle s -> k <> INVALID_SECTOR ->
  cache_free me k s =
    (if existsb (fun c => cb_sector c =? k) (cache s) then Panic else Ok (tt, s)) /\
  (forall i c, znth (cache s) i = Some c -> block_lock c = Some me -> cache_dirty me i s = Panic).
Proof.
  intros Hok [_ Hid] Hk.
  assert (forall i c s1, znth (cache s1) i = Some c -> block_lock c = Some me ->
    acquire_block me i s1 = Panic) as Hacq.
  { intros i c s1 Hc Hl. unfold acquire_block, mbind, M_bind, get_cb. rewrite Hc, Hl. simpl.
    unfold lift, lock_acquire. by rewrite decide_True. }
  split.
  - pose proof (scan_spec me (fun c => cb_sector c =? k) s (ok_cnt s Hok)
      ltac:(intros; by eapply Hid) ltac:(done)) as Hscan.
    apply mwp_ok in Hscan as (r & s1 & E & Hr).
    unfold cache_free, in_cache. unfold mbind at 1, M_bind at 1. rewrite E.
    destruct r as [i|].
    + destruct Hr as (c & Hc & Hsec & ->). pose proof (znth_Some _ _ _ Hc).
      destruct (existsb _ _) eqn:Ee.
      * unfold mbind at 1, M_bind at 1. erewrite Hacq; [done|by apply upd_lookup_eq|done].
      * exfalso. apply not_true_iff_false in Ee. apply Ee, existsb_exists. exists c.
        split; [|done]. apply list_elem_of_In. rewrite znth_lookup in Hc by lia.
        by eapply list_elem_of_lookup_2.
    + destruct Hr as [-> Hno]. destruct (existsb _ _) eqn:Ee; [|done]. exfalso.
      apply existsb_exists in Ee as (c & Hin & Hsec).
      apply list_elem_of_In, list_elem_of_lookup in Hin as [j Hj].
      rewrite (Hno (Z.of_nat j) c) in Hsec; [done|].
      rewrite znth_lookup by lia. by rewrite Nat2Z.id.
  - intros i c Hc Hl. unfold cache_dirty, mbind at 1, M_bind at 1. by erewrite Hacq.
Qed.
End cache_spec.

(** *** The contract of Store.v *)
#[export] Instance cache_store {D} `{driver D} (me : Z) : sector_store (cache_state D) := {|
  store_read k := full_read me 1 k BLOCK_SECTOR_SIZE 0;
  store_write k x := full_write me 1 k x BLOCK_SECTOR_SIZE 0;
|}.
#[export, refine] Instance cache_store_ok {D} `{driver_ok D} (me : Z) :
    @sector_store_ok (cache_state D) (cache_store me) := {|
  store_inv s := cache_ok s /\ cache_idle s;
  store_size s := blk_size (fs_device s);
  store_view := view;
|}.
Proof.
  - intros s k [Hok _]. by apply view_len.
  - intros s k [Hok Hid] Hk. eapply mwp_mono.
    { apply (full_read_spec me 1 k BLOCK_SECTOR_SIZE 0); try done; lia. }
    intros x s' (Hx & [] & Hid'). rewrite zslice_all in Hx by (by apply view_len).
    simplify_eq. by split_and!.
  - intros s k x [Hok Hid] Hk Hx. eapply mwp_mono.
    + apply (full_write_spec me 1 k x BLOCK_SECTOR_SIZE 0 x x); try done; [lia| |].
      * by apply zslice_all.
      * apply zsplice_all. by rewrite view_len.
    + intros _ s' (? & ? & ? & ?). by split_and!.
Defined.

(** ** Properties *)
Section cache_properties.
Context {D : Type} `{driver_ok D}.
Implicit Types (s : cache_state D).

(** The state the kernel boots with: 64 slots of 512 bytes in memory, hand at
    the first slot, a device of proper geometry. *)
Record boot_state (s : cache_state D) : Prop := {
  boot_cnt : zlen (cache s) = CACHE_CNT;
  boot_hand : hand s = 0;
  boot_data : forall i c, znth (cache s) i = Some c -> zlen (cb_data c) = BLOCK_SECTOR_SIZE;
  boot_dev : blk_type (fs_device s) <> BLOCK_FOREIGN /\ blk_size (fs_device s) < 2 ^ 32;
  boot_sect : forall k, 0 <= k < blk_size (fs_device s) ->
                zlen (sector_of (fs_device s) k) = BLOCK_SECTOR_SIZE;
}.

Lemma cache_init_ok s : boot_state s ->
  cache_ok (cache_init s) /\ cache_idle (cache_init s) /\
  forall k, view (cache_init s) k = sector_of (fs_device s) k.
Proof.
  intros [Hcnt Hhand Hdata Hdev Hsect].
  assert (forall i c, znth (cache (cache_init s)) i = Some c ->
    exists c0, znth (cache s) i = Some c0 /\ c = init_block c0) as Hinit.
  { intros i c. simpl. rewrite znth_fmap. destruct (znth (cache s) i) as [c0|]; [|done].
    simpl. intros [= <-]. by exists c0. }
  split_and!.
  - split; simpl; rewrite ?zlen_fmap, ?Hhand; try done.
    + intros i c (c0 & Hc0 & ->)%Hinit. split; simpl; try done. by apply (Hdata i).
    + intros i j ci cj (c0 & ? & ->)%Hinit _ _ Hne. by destruct Hne.
  - split; [done|]. intros i c (c0 & _ & ->)%Hinit. by split.
  - intros k. apply (view_miss (cache_init s)). by intros i c (c0 & _ & ->)%Hinit.
Qed.

(** C2.  The buffer cache is transparent: after [cache_init], any sequence of
    whole-sector reads and writes by one thread completes without waiting or
    failing an assertion, and every read returns what the last write of that
    sector stored (what the device held at boot when there was none), however
    the 64 slots were recycled in between. *)
Theorem cache_refines_sectors me s ops : boot_state s ->
  Forall (op_in_range (blk_size (fs_device s))) ops ->
  exists s', @run_ops _ (cache_store me) ops (cache_init s) =
               Ok (ref_ops (sector_of (fs_device s)) ops, s') /\
             cache_ok s' /\ cache_idle s'.
Proof.
  intros Hb Hall. destruct (cache_init_ok s Hb) as (Hok & Hid & Hv).
  pose proof (@run_ops_spec _ (cache_store me) (cache_store_ok me) ops (cache_init s)
                (conj Hok Hid) Hall) as Hrun.
  apply mwp_ok in Hrun as (xs & s' & E & -> & [Hok' Hid'] & _). exists s'.
  split; [|done]. rewrite E. do 2 f_equal. by apply ref_ops_ext.
Qed.

(** C21.  [cache_flush] makes the device current: afterwards no slot is dirty and
    every sector of the device itself holds what a read through the cache
    returned before the flush. *)
Theorem cache_flush_durable me s : cache_ok s -> cache_idle s ->
  exists s', cache_flush me s = Ok (tt, s') /\ cache_ok s' /\ cache_idle s' /\
    forall k, sector_of (fs_device s') k = view s k /\ view s' k = view s k.
Proof.
  intros Hok Hid. pose proof (cache_flush_spec me s Hok Hid) as Hf.
  apply mwp_ok in Hf as ([] & s' & E & [Hok' Hv _ _] & Hid' & Hd).
  exists s'. split; [done|]. split; [done|]. split; [done|]. intros k.
  split; [|done]. rewrite <- Hv. unfold view.
  destruct (find (holds k) (cache s')) as [c|] eqn:Ef; [|done].
  apply find_znth in Ef as (i & Hi & [<- Hu]%holds_true). symmetry.
  apply (ok_blocks s' Hok' i c Hi); [done|]. by apply (Hd i).
Qed.

End cache_properties.

(** ** Witnesses: a four-sector RAM disk *)
Definition ex_sector (b : Z) : list Z := replicate 512 b.
Definition ex_disk : block ram_disk :=
  Block "hdb" BLOCK_FILESYS 4 {[ 0 := ex_sector 7; 2 := ex_sector 9 ]} 0 0.
Definition ex_boot : cache_state ram_disk :=
  CacheState (replicate 64 (CacheBlock None 0 0 0 0 0 false false None (ex_sector 0))) None 0
    ex_disk.

Lemma znth_replicate {A} n (x y : A) i : znth (replicate n x) i = Some y -> y = x.
Proof.
  unfold znth. case_decide; [|done]. intros Hy%lookup_replicate. by destruct Hy.
Qed.
Lemma ex_boot_ok : boot_state ex_boot.
Proof.
  split; [done|done| |done|].
  - by intros i c ->%znth_replicate.
  - intros k Hk. simpl in Hk.
    assert (k = 0 \/ k = 1 \/ k = 2 \/ k = 3) as [-> | [-> | [-> | -> ]]] by lia; reflexivity.
Qed.

Lemma cache_refines_sectors_witness :
  exists s', @run_ops _ (cache_store 1) [Rd 0; Wr 1 (ex_sector 5); Rd 1; Rd 2] (cache_init ex_boot) =
    Ok ([ex_sector 7; ex_sector 5; ex_sector 9], s').
Proof.
  destruct (cache_refines_sectors 1 ex_boot [Rd 0; Wr 1 (ex_sector 5); Rd 1; Rd 2] ex_boot_ok)
    as (s' & E & _).
  - repeat constructor; simpl; try lia.
  - exists s'. exact E.
Defined.

Lemma cache_flush_durable_witness :
  exists s', cache_flush 1 (cache_init ex_boot) = Ok (tt, s') /\
    sector_of (fs_device s') 2 = ex_sector 9.
Proof.
  destruct (cache_init_ok ex_boot ex_boot_ok) as (Hok & Hid & Hv).
  destruct (cache_flush_durable 1 (cache_init ex_boot) Hok Hid) as (s' & E & _ & _ & Hs).
  exists s'. split; [exact E|]. destruct (Hs 2) as [-> _]. rewrite Hv. reflexivity.
Defined.

(** Thread 7 holds the slot of sector 2 exclusively; thread 1 asks for sector 2. *)
Definition ex_contended : cache_state ram_disk :=
  CacheState (CacheBlock (Some 7) 0 0 1 0 2 true false None (ex_sector 9)
              :: replicate 63 (CacheBlock None 0 0 0 0 INVALID_SECTOR false false None (ex_sector 0)))
    None 0 ex_disk.
Lemma cache_lock_duplicates_sector_witness :
  exists j s', cache_lock 1 1 2 NON_EXCLUSIVE ex_contended = Ok (j, s') /\ j <> 0.
Proof.
  destruct (cache_lock_duplicates_sector 1 7 ex_contended 0 2
    (CacheBlock (Some 7) 0 0 1 0 2 true false None (ex_sector 9)) 1
    (CacheBlock None 0 0 0 0 INVALID_SECTOR false false None (ex_sector 0)) NON_EXCLUSIVE)
    as (j & s' & E & Hne & _).
  1-5: reflexivity.
  - lia.
  - unfold INVALID_SECTOR. lia.
  - intros j cj Hj Hk. destruct (decide (j = 0)) as [|Hj0]; [done|]. exfalso.
    pose proof (znth_Some _ _ _ Hj). rewrite znth_lookup in Hj by lia.
    unfold ex_contended, cache in Hj.
    replace (Z.to_nat j) with (S (Z.to_nat (j - 1))) in Hj by lia.
    rewrite <- lookup_tail in Hj. unfold tail in Hj.
    apply lookup_replicate in Hj as [-> _]. unfold cb_sector, INVALID_SECTOR in Hk. lia.
  - reflexivity.
  - reflexivity.
  - reflexivity.
  - exists j, s'. split; [exact E|exact Hne].
Defined.

(** The cache after sector 2 has been read through it. *)
Definition ex_read : cache_state ram_disk :=
  state_of (full_read 1 1 2 512 0 (cache_init ex_boot)) ex_boot.
Lemma ex_read_ok : cache_ok ex_read /\ cache_idle ex_read.
Proof.
  destruct (cache_init_ok ex_boot ex_boot_ok) as (Hok & Hid & _).
  destruct (mwp_state_of _ _ _ ex_boot (full_read_spec 1 1 2 512 0 (cache_init ex_boot) Hok Hid
    ltac:(simpl; lia) ltac:(lia) ltac:(lia) ltac:(lia) ltac:(unfold BLOCK_SECTOR_SIZE; lia)))
    as (x & _ & Hsv & Hid').
  split; [exact (sv_ok _ _ Hsv)|exact Hid'].
Qed.
Lemma cache_free_cached_panics_witness : cache_free 1 2 ex_read = Panic.
Proof.
  destruct ex_read_ok as [Hok Hid].
  destruct (cache_free_cached_panics 1 ex_read 2 Hok Hid ltac:(done)) as [-> _].
  enough (existsb (fun c => cb_sector c =? 2) (cache ex_read) = true) as -> by reflexivity.
  vm_compute. reflexivity.
Defined.
