(* ===== verification/FsState.v ===== *)
(** * FsState: the state the file system modules share

    The kernel objects of filesys/inode.c, file.c, directory.c and free-map.c
    live in one store of objects, addressed by pointers ([Z]); freeing an
    object removes it, so a use after free is a [Fault].  Open inodes are
    shared (inode.c keeps the list of them), hence the object store rather than
    values.  [malloc_ok n] says whether the [n]-th allocation succeeds. *)
From S2P Require Import Prelude Lock Block Store Bitmap.

(** [struct inode].  [no_writers_cond] has no waiters anywhere in the sources. *)
Record inode := Inode {
  i_sector : Z;
  open_cnt : Z;
  removed : bool;
  i_lock : lock;
  deny_write_lock : lock;
  deny_write_cnt : Z;
  writer_cnt : Z;
}.
(** [struct file] and [struct dir]: the inode is a pointer. *)
Record file := File { f_inode : Z; f_pos : Z; f_deny_write : bool }.
Record dir := Dir { d_inode : Z; d_pos : Z }.

Record fs (St : Type) := Fs {
  store : St;
  inodes : gmap Z inode;
  open_inodes : list Z;
  open_inodes_lock : lock;
  files : gmap Z file;
  dirs : gmap Z dir;
  free_map : bitmap;
  free_map_file : option Z;
  next_ptr : Z;
  allocs : nat;
}.
Arguments Fs {St}. Arguments store {St}. Arguments inodes {St}. Arguments open_inodes {St}.
Arguments open_inodes_lock {St}. Arguments files {St}. Arguments dirs {St}.
Arguments free_map {St}. Arguments free_map_file {St}. Arguments next_ptr {St}.
Arguments allocs {St}.

Section setters.
Context {St : Type}.
Implicit Types (s : fs St).
Definition set_store (x : St) s : fs St :=
  Fs x (inodes s) (open_inodes s) (open_inodes_lock s) (files s) (dirs s) (free_map s)
     (free_map_file s) (next_ptr s) (allocs s).
Definition set_inodes (x : gmap Z inode) s : fs St :=
  Fs (store s) x (open_inodes s) (open_inodes_lock s) (files s) (dirs s) (free_map s)
     (free_map_file s) (next_ptr s) (allocs s).
Definition set_open_inodes (x : list Z) s : fs St :=
  Fs (store s) (inodes s) x (open_inodes_lock s) (files s) (dirs s) (free_map s)
     (free_map_file s) (next_ptr s) (allocs s).
Definition set_open_inodes_lock (x : lock) s : fs St :=
  Fs (store s) (inodes s) (open_inodes s) x (files s) (dirs s) (free_map s)
     (free_map_file s) (next_ptr s) (allocs s).
Definition set_files (x : gmap Z file) s : fs St :=
  Fs (store s) (inodes s) (open_inodes s) (open_inodes_lock s) x (dirs s) (free_map s)
     (free_map_file s) (next_ptr s) (allocs s).
Definition set_dirs (x : gmap Z dir) s : fs St :=
  Fs (store s) (inodes s) (open_inodes s) (open_inodes_lock s) (files s) x (free_map s)
     (free_map_file s) (next_ptr s) (allocs s).
Definition set_free_map (x : bitmap) s : fs St :=
  Fs (store s) (inodes s) (open_inodes s) (open_inodes_lock s) (files s) (dirs s) x
     (free_map_file s) (next_ptr s) (allocs s).
Definition set_free_map_file (x : option Z) s : fs St :=
  Fs (store s) (inodes s) (open_inodes s) (open_inodes_lock s) (files s) (dirs s) (free_map s)
     x (next_ptr s) (allocs s).
Definition set_next_ptr (x : Z) s : fs St :=
  Fs (store s) (inodes s) (open_inodes s) (open_inodes_lock s) (files s) (dirs s) (free_map s)
     (free_map_file s) x (allocs s).
Definition set_allocs (x : nat) s : fs St :=
  Fs (store s) (inodes s) (open_inodes s) (open_inodes_lock s) (files s) (dirs s) (free_map s)
     (free_map_file s) (next_ptr s) x.
End setters.

Section access.
Context {St : Type} `{sector_store St}.
Variable malloc_ok : nat -> bool.
Variable me : Z.

(** [full_read (sector, buf, BLOCK_SECTOR_SIZE, 0)] and [full_write]. *)
Definition fs_read (sector : Z) : M (fs St) (list Z) := fun s =>
  match store_read sector (store s) with
  | Ok (x, st) => Ok (x, set_store st s)
  | Panic => Panic | Fault => Fault | Hang => Hang
  end.
Definition fs_write (sector : Z) (x : list Z) : M (fs St) unit := fun s =>
  match store_write sector x (store s) with
  | Ok (_, st) => Ok (tt, set_store st s)
  | Panic => Panic | Fault => Fault | Hang => Hang
  end.

(** [malloc]/[calloc]: whether it succeeded. *)
Definition kalloc : M (fs St) bool := fun s =>
  Ok (malloc_ok (allocs s), set_allocs (S (allocs s)) s).
(** An allocation whose result the code uses without checking it. *)
Definition kalloc_unchecked : M (fs St) unit :=
  ok ← kalloc; if (ok : bool) then mret tt else fault.
(** An allocation followed by [ASSERT (p != NULL)]. *)
Definition kalloc_assert : M (fs St) unit := ok ← kalloc; assert ok.
(** The address of a new object. *)
Definition fresh_ptr : M (fs St) Z := fun s => Ok (next_ptr s, set_next_ptr (next_ptr s + 1) s).

Definition get_inode (p : Z) : M (fs St) inode := fun s =>
  match inodes s !! p with Some i => Ok (i, s) | None => Fault end.
Definition put_inode (p : Z) (i : inode) : M (fs St) unit :=
  modify (fun s => set_inodes (<[p := i]> (inodes s)) s).
Definition free_inode (p : Z) : M (fs St) unit :=
  modify (fun s => set_inodes (delete p (inodes s)) s).
Definition get_file (p : Z) : M (fs St) file := fun s =>
  match files s !! p with Some f => Ok (f, s) | None => Fault end.
Definition put_file (p : Z) (f : file) : M (fs St) unit :=
  modify (fun s => set_files (<[p := f]> (files s)) s).
Definition free_file (p : Z) : M (fs St) unit :=
  modify (fun s => set_files (delete p (files s)) s).
Definition get_dir (p : Z) : M (fs St) dir := fun s =>
  match dirs s !! p with Some d => Ok (d, s) | None => Fault end.
Definition put_dir (p : Z) (d : dir) : M (fs St) unit :=
  modify (fun s => set_dirs (<[p := d]> (dirs s)) s).
Definition free_dir (p : Z) : M (fs St) unit :=
  modify (fun s => set_dirs (delete p (dirs s)) s).

Definition acquire_open_inodes : M (fs St) unit :=
  l ← gets open_inodes_lock; l' ← lift (lock_acquire me l); modify (set_open_inodes_lock l').
Definition release_open_inodes : M (fs St) unit :=
  l ← gets open_inodes_lock; l' ← lift (lock_release me l); modify (set_open_inodes_lock l').
End access.
