(* ===== verification/Inode.v ===== *)
(** * Inode: filesys/inode.c

    On-disk inodes with direct, indirect and doubly indirect blocks, the list of
    open inodes, reading and writing by byte offset, growth and deallocation.
    Sector allocation is the free map's job and the free map is itself a file:
    [alloc] and [release] stand for [free_map_allocate (1, _)] and
    [free_map_release (_, 1)]; FreeMap.v ties the knot. *)
From S2P Require Import Prelude Lock Block Store Bitmap FsState.

Definition INODE_MAGIC : Z := 0x494e4f44.
Definition INDIRECT_IDX : Z := 123.
Definition DBL_INDIRECT_IDX : Z := 124.
Definition DIRECT_CNT : Z := 123.
Definition INDIRECT_CNT : Z := 1.
Definition DBL_INDIRECT_CNT : Z := 1.
Definition SECTOR_CNT : Z := DIRECT_CNT + INDIRECT_CNT + DBL_INDIRECT_CNT.
Definition PTRS_PER_SECTOR : Z := BLOCK_SECTOR_SIZE / 4.
Definition INODE_SPAN : Z :=
  (DIRECT_CNT + PTRS_PER_SECTOR * INDIRECT_CNT
   + PTRS_PER_SECTOR * PTRS_PER_SECTOR * DBL_INDIRECT_CNT) * BLOCK_SECTOR_SIZE.

(** [enum inode_type] *)
Definition FILE_INODE : Z := 0.
Definition DIR_INODE : Z := 1.

(** [struct inode_disk] and its 512-byte image. *)
Record inode_disk := InodeDisk {
  d_type : Z;
  d_length : Z;
  d_magic : Z;
  d_sectors : list Z;
}.
Definition encode_inode (d : inode_disk) : list Z :=
  words_bytes ([u32 (d_type d); u32 (d_length d); u32 (d_magic d)] ++ d_sectors d).
Definition decode_inode (bs : list Z) : inode_disk :=
  let ws := bytes_words 128 bs in
  InodeDisk (nth 0 ws 0) (s32 (nth 1 ws 0)) (nth 2 ws 0) (drop 3 ws).
Definition set_length (n : Z) (d : inode_disk) : inode_disk :=
  InodeDisk (d_type d) n (d_magic d) (d_sectors d).
Definition set_sectors (l : list Z) (d : inode_disk) : inode_disk :=
  InodeDisk (d_type d) (d_length d) (d_magic d) l.
(** A sector of block numbers ([block_sector_t buf[PTRS_PER_SECTOR]]). *)
Definition decode_ptrs (bs : list Z) : list Z := bytes_words 128 bs.
Definition encode_ptrs (ws : list Z) : list Z := words_bytes ws.

Definition bytes_to_sectors (size : Z) : Z := DIV_ROUND_UP (u32 size) BLOCK_SECTOR_SIZE.

(** [calculate_indices]: the offsets; their number is [*offset_cnt]. *)
Definition calculate_indices (sector_idx : Z) : list Z :=
  if sector_idx <? DIRECT_CNT then [u32 sector_idx]
  else if sector_idx <? DIRECT_CNT + PTRS_PER_SECTOR then
    [INDIRECT_IDX; u32 (sector_idx - DIRECT_CNT)]
  else
    [DBL_INDIRECT_IDX;
     u32 (Z.quot (sector_idx - DIRECT_CNT - PTRS_PER_SECTOR) PTRS_PER_SECTOR);
     u32 (Z.rem (sector_idx - DIRECT_CNT - PTRS_PER_SECTOR) PTRS_PER_SECTOR)].

(** A heap buffer of block numbers as [deallocate_inode] sees it. *)
Inductive ptr_buf := BNull | BFreed | BLive (ws : list Z).
Definition buf_read (b : ptr_buf) (i : Z) : res Z :=
  match b with BLive ws => deref (znth ws i) | _ => Fault end.
Definition buf_free (b : ptr_buf) : res ptr_buf :=
  match b with BNull => Ok BNull | BFreed => Fault | BLive _ => Ok BFreed end.

Section inode.
Context {St : Type} `{sector_store St}.
Variable malloc_ok : nat -> bool.
Variable me : Z.
Variable alloc : M (fs St) (option Z).
Variable release : Z -> M (fs St) unit.
Abbreviation FS A := (M (fs St) A).
Abbreviation kalloc := (kalloc malloc_ok).
Abbreviation kalloc_unchecked := (kalloc_unchecked malloc_ok).
Abbreviation kalloc_assert := (kalloc_assert malloc_ok).

Definition read_inode (sector : Z) : FS inode_disk :=
  x ← fs_read sector; mret (decode_inode x).
Definition write_inode (sector : Z) (d : inode_disk) : FS unit :=
  fs_write sector (encode_inode d).

Definition byte_to_sector (p pos : Z) : FS Z :=
  i ← get_inode p;
  _ ← kalloc_unchecked;
  d ← read_inode (i_sector i);
  if d_length d <? pos then mret (u32 (-1))
  else
    match calculate_indices (Z.quot pos BLOCK_SECTOR_SIZE) with
    | [o0] => fault (* [disk_inode] is freed before its sector table is read *)
    | [o0; o1] =>
        b ← lift (deref (znth (d_sectors d) INDIRECT_IDX));
        buf ← fs_read b;
        lift (deref (znth (decode_ptrs buf) o1))
    | [o0; o1; o2] =>
        b ← lift (deref (znth (d_sectors d) DBL_INDIRECT_IDX));
        buf ← fs_read b;
        b1 ← lift (deref (znth (decode_ptrs buf) o1));
        buf ← fs_read b1;
        lift (deref (znth (decode_ptrs buf) o2))
    | _ => mret (u32 (-1))
    end.

Definition same_sector (p1 p2 : Z) : FS bool :=
  i1 ← get_inode p1; i2 ← get_inode p2; mret (i_sector i1 =? i_sector i2).

Definition inode_get_inumber (p : Z) : FS Z := i ← get_inode p; mret (i_sector i).
Definition inode_get_type (p : Z) : FS Z :=
  i ← get_inode p; _ ← kalloc_assert; d ← read_inode (i_sector i); mret (d_type d).
Definition inode_length (p : Z) : FS Z :=
  i ← get_inode p; _ ← kalloc_assert; d ← read_inode (i_sector i); mret (d_length d).

(** [*temp_block_nr] is [nr] on entry; the result is the return value and
    [*temp_block_nr] on exit (an [int]). *)
Definition get_data_block (p offset : Z) (allocate : bool) (nr : Z) : FS (bool * Z) :=
  i ← get_inode p;
  _ ← kalloc_assert;
  d ← read_inode (i_sector i);
  _ ← assert (d_magic d =? INODE_MAGIC);
  if (d_length d <? offset) && negb allocate then mret (true, nr)
  else
    _ ← kalloc_assert;
    match calculate_indices (Z.quot offset BLOCK_SECTOR_SIZE) with
    | [o0] =>
        b ← lift (deref (znth (d_sectors d) o0));
        mret (true, s32 b)
    | [_; o1] =>
        b ← lift (deref (znth (d_sectors d) INDIRECT_IDX));
        buf ← fs_read b;
        b1 ← lift (deref (znth (decode_ptrs buf) o1));
        mret (true, s32 b1)
    | [_; o1; o2] =>
        b ← lift (deref (znth (d_sectors d) DBL_INDIRECT_IDX));
        buf ← fs_read b;
        b1 ← lift (deref (znth (decode_ptrs buf) o1));
        buf ← fs_read b1;
        b2 ← lift (deref (znth (decode_ptrs buf) o2));
        mret (true, s32 b2)
    | _ => mret (true, nr)
    end.

(** The bytes of the current chunk: how many, from which offset of the sector. *)
Definition chunk_of (left size offset : Z) : Z * Z :=
  let sector_ofs := Z.rem offset BLOCK_SECTOR_SIZE in
  let sector_left := BLOCK_SECTOR_SIZE - sector_ofs in
  let min_left := if left <? sector_left then left else sector_left in
  (sector_ofs, if size <? min_left then size else min_left).

(** Loop of [inode_read_at]; locals: size, offset, the bytes read so far. *)
Definition read_body (p : Z) (l : Z * Z * list Z) : FS (Z * Z * list Z + list Z) :=
  let '(size, offset, acc) := l in
  if 0 <? size then
    len ← inode_length p;
    let '(sector_ofs, chunk_size) := chunk_of (s32 (len - offset)) size offset in
    _ ← kalloc_unchecked;
    if chunk_size <=? 0 then mret (inr acc)
    else
      '(ok, sector_nr) ← get_data_block p offset false (-1);
      if negb ok then mret (inr acc)
      else
        piece ← (if sector_nr =? -1 then mret (replicate (Z.to_nat chunk_size) 0)
                 else sector_data ← fs_read (u32 sector_nr);
                      lift (deref (zslice sector_data sector_ofs chunk_size)));
        mret (inl (size - chunk_size, s32 (offset + chunk_size), acc ++ piece))
  else mret (inr acc).
(** The bytes copied into the buffer; their number is the return value. *)
Definition inode_read_at (p size offset : Z) : FS (list Z) :=
  _ ← kalloc_unchecked;
  mloop (S (Z.to_nat size)) (read_body p) (size, offset, []).

(** One turn of the loop of [extend_file]: allocate sector number
    [next_sector_idx] of the file.  Returns [false] when an allocation fails,
    and the inode as modified so far. *)
Definition extend_step (next : Z) (d : inode_disk) : FS (bool * inode_disk) :=
  let offsets := calculate_indices next in
  r ← alloc;
  match r with
  | None => mret (false, d)
  | Some sector_nr =>
      _ ← fs_write sector_nr zero_sector;
      if next <? DIRECT_CNT then
        l ← lift (deref (zset (d_sectors d) next sector_nr));
        mret (true, set_sectors l d)
      else if next <? DIRECT_CNT + PTRS_PER_SECTOR then
        '(ok, d) ←
          (if next =? DIRECT_CNT then
             r ← alloc;
             match r with
             | None => mret (false, d)
             | Some new_sector =>
                 l ← lift (deref (zset (d_sectors d) INDIRECT_IDX new_sector));
                 mret (true, set_sectors l d)
             end
           else mret (true, d));
        if negb ok then mret (false, d)
        else
          o1 ← lift (deref (znth offsets 1));
          b ← lift (deref (znth (d_sectors d) INDIRECT_IDX));
          buf ← fs_read b;
          buf ← lift (deref (zset (decode_ptrs buf) o1 sector_nr));
          _ ← fs_write b (encode_ptrs buf);
          mret (true, d)
      else
        '(ok, d) ←
          (if next =? DIRECT_CNT + PTRS_PER_SECTOR then
             r ← alloc;
             match r with
             | None => mret (false, d)
             | Some new_sector =>
                 l ← lift (deref (zset (d_sectors d) DBL_INDIRECT_IDX new_sector));
                 mret (true, set_sectors l d)
             end
           else mret (true, d));
        if negb ok then mret (false, d)
        else
          o1 ← lift (deref (znth offsets 1));
          o2 ← lift (deref (znth offsets 2));
          new_indirect ← (if o2 =? 0 then r ← alloc; mret (Some r) else mret None);
          match new_indirect with
          | Some None => mret (false, d)
          | _ =>
              b ← lift (deref (znth (d_sectors d) DBL_INDIRECT_IDX));
              buf ← fs_read b;
              buf ← (match new_indirect with
                     | Some (Some new_sector) =>
                         buf ← lift (deref (zset (decode_ptrs buf) o1 new_sector));
                         _ ← fs_write b (encode_ptrs buf); mret buf
                     | _ => mret (decode_ptrs buf)
                     end);
              b1 ← lift (deref (znth buf o1));
              buf ← fs_read b1;
              buf ← lift (deref (zset (decode_ptrs buf) o2 sector_nr));
              _ ← fs_write b1 (encode_ptrs buf);
              mret (true, d)
          end
  end.
Definition extend_body (last_new : Z) (l : Z * inode_disk)
    : FS (Z * inode_disk + bool * inode_disk) :=
  let '(next, d) := l in
  if next <=? last_new then
    '(ok, d) ← extend_step next d;
    mret (if (ok : bool) then inl (next +u 1, d) else inr (false, d))
  else mret (inr (true, d)).

(** [extend_file]: the return value and the inode as left in memory.  With
    [in_disk] the caller owns the inode; otherwise it is read from, and written
    back to, the sector of [p]. *)
Definition extend_file (p : option Z) (length : Z) (in_disk : option inode_disk)
    : FS (bool * option inode_disk) :=
  if (INODE_SPAN <? length) || (length <? 0) then mret (false, in_disk)
  else
    start ←
      (match in_disk with
       | Some d => mret (Some d)
       | None =>
           ok ← kalloc;
           if (ok : bool) then
             p ← lift (deref p); i ← get_inode p; d ← read_inode (i_sector i); mret (Some d)
           else mret None
       end);
    match start with
    | None => mret (false, in_disk)
    | Some d =>
        let last_new := u32 (Z.quot (length - 1) BLOCK_SECTOR_SIZE) in
        let last_old := u32 (Z.quot (d_length d - 1) BLOCK_SECTOR_SIZE) in
        if negb (d_length d =? -1) && (last_new <=? last_old) then
          let grow := (last_new =? last_old) && (d_length d <? length) in
          let d' := if grow then set_length length d else d in
          match in_disk with
          | Some _ => mret (true, Some d')
          | None =>
              p ← lift (deref p); i ← get_inode p;
              _ ← (if grow then write_inode (i_sector i) d' else mret tt);
              mret (true, None)
          end
        else
          let next := if d_length d =? -1 then 0 else last_old +u 1 in
          _ ← kalloc_unchecked;
          '(ok, d) ← mloop (S (S (Z.to_nat last_new))) (extend_body last_new) (next, d);
          if negb ok then mret (false, match in_disk with Some _ => Some d | None => None end)
          else
            let d := set_length length d in
            match in_disk with
            | Some _ => mret (true, Some d)
            | None =>
                p ← lift (deref p); i ← get_inode p;
                _ ← write_inode (i_sector i) d; mret (true, None)
            end
    end.

(** Loop of [deallocate_inode]. *)
Record dealloc_vars := DeallocVars {
  dv_next : Z; dv_indirect : ptr_buf; dv_dbl : ptr_buf;
  do_indirect_release : bool; do_dbl_release : bool;
}.
Definition dealloc_body (d : inode_disk) (nr_sectors : Z) (v : dealloc_vars)
    : FS (dealloc_vars + dealloc_vars) :=
  let next := dv_next v in
  if next <? nr_sectors then
    if next <? DIRECT_CNT then
      b ← lift (deref (znth (d_sectors d) next));
      _ ← release b;
      mret (inl (DeallocVars (next +u 1) (dv_indirect v) (dv_dbl v)
                   (do_indirect_release v) (do_dbl_release v)))
    else if next <? DIRECT_CNT + PTRS_PER_SECTOR then
      ind ← (match dv_indirect v with
             | BNull =>
                 _ ← kalloc_unchecked;
                 b ← lift (deref (znth (d_sectors d) INDIRECT_IDX));
                 x ← fs_read b; mret (BLive (decode_ptrs x))
             | b => mret b
             end);
      b ← lift (buf_read ind (next - DIRECT_CNT));
      _ ← release b;
      ind ← lift (buf_free ind);
      mret (inl (DeallocVars (next +u 1) ind (dv_dbl v) true (do_dbl_release v)))
    else
      let rel_next := (next - DIRECT_CNT - PTRS_PER_SECTOR) mod PTRS_PER_SECTOR in
      let ind_nr := (next - DIRECT_CNT - PTRS_PER_SECTOR) / PTRS_PER_SECTOR in
      dbl ← (match dv_dbl v with
             | BNull =>
                 _ ← kalloc_unchecked;
                 b ← lift (deref (znth (d_sectors d) DBL_INDIRECT_IDX));
                 x ← fs_read b; mret (BLive (decode_ptrs x))
             | b => mret b
             end);
      ind ← (if rel_next =? 0 then
               b ← lift (buf_read dbl ind_nr);
               _ ← release b;
               x ← fs_read b;
               match dv_indirect v with
               | BLive _ => mret (BLive (decode_ptrs x))
               | _ => fault (* the buffer is null or freed *)
               end
             else mret (dv_indirect v));
      dbl ← lift (buf_free dbl);
      b ← lift (buf_read ind rel_next);
      _ ← release b;
      mret (inl (DeallocVars (next +u 1) ind dbl (do_indirect_release v) true))
  else mret (inr v).
Definition deallocate_inode (sector : Z) : FS unit :=
  _ ← kalloc_unchecked;
  d ← read_inode sector;
  let nr_sectors :=
    if d_length d =? 0 then 0 else u32 (1 + Z.quot (d_length d - 1) BLOCK_SECTOR_SIZE) in
  v ← mloop (S (Z.to_nat nr_sectors)) (dealloc_body d nr_sectors)
        (DeallocVars 0 BNull BNull false false);
  _ ← (if do_indirect_release v then
         b ← lift (deref (znth (d_sectors d) INDIRECT_IDX)); release b
       else mret tt);
  if do_dbl_release v then
    b ← lift (deref (znth (d_sectors d) DBL_INDIRECT_IDX)); release b
  else mret tt.

Definition inode_create (sector length type : Z) : FS bool :=
  _ ← assert (0 <=? length);
  ok ← kalloc;
  if (ok : bool) then
    '(success, d) ← extend_file None length
        (Some (InodeDisk type (-1) INODE_MAGIC (replicate (Z.to_nat SECTOR_CNT) 0)));
    if negb success then
      _ ← kalloc_unchecked; _ ← deallocate_inode sector; panic
    else
      d ← lift (deref d);
      _ ← write_inode sector d;
      _ ← assert (d_length d =? length);
      _ ← assert (d_magic d =? INODE_MAGIC);
      mret true
  else mret false.

Definition inode_reopen (p : option Z) : FS (option Z) :=
  match p with
  | None => mret None
  | Some q =>
      _ ← acquire_open_inodes me;
      i ← get_inode q;
      _ ← put_inode q (Inode (i_sector i) (open_cnt i + 1) (removed i) (i_lock i)
                         (deny_write_lock i) (deny_write_cnt i) (writer_cnt i));
      _ ← release_open_inodes me;
      mret p
  end.

(** The scan of the open inode list in [inode_open]. *)
Fixpoint find_open (sector : Z) (l : list Z) : FS (option Z) :=
  match l with
  | [] => mret None
  | q :: l' => i ← get_inode q; if i_sector i =? sector then mret (Some q) else find_open sector l'
  end.
Definition inode_open (sector : Z) : FS (option Z) :=
  l ← gets open_inodes;
  r ← find_open sector l;
  match r with
  | Some q => _ ← inode_reopen (Some q); mret (Some q)
  | None =>
      ok ← kalloc;
      if (ok : bool) then
        q ← fresh_ptr;
        _ ← modify (fun s => set_open_inodes (q :: open_inodes s) s);
        _ ← put_inode q (Inode sector 1 false None None 0 0);
        mret (Some q)
      else mret None
  end.

Definition inode_close (p : option Z) : FS unit :=
  match p with
  | None => mret tt
  | Some q =>
      _ ← acquire_open_inodes me;
      i ← get_inode q;
      let i := Inode (i_sector i) (open_cnt i - 1) (removed i) (i_lock i)
                 (deny_write_lock i) (deny_write_cnt i) (writer_cnt i) in
      _ ← put_inode q i;
      _ ← release_open_inodes me;
      if open_cnt i =? 0 then
        _ ← modify (fun s => set_open_inodes (filter (fun x => x <> q) (open_inodes s)) s);
        _ ← (if removed i then deallocate_inode (i_sector i) else mret tt);
        free_inode q
      else mret tt
  end.

Definition inode_remove (p : Z) : FS unit :=
  i ← get_inode p;
  put_inode p (Inode (i_sector i) (open_cnt i) true (i_lock i)
                 (deny_write_lock i) (deny_write_cnt i) (writer_cnt i)).

(** [lock_acquire (&inode->deny_write_lock)] and its release. *)
Definition set_deny_lock (l : lock) (i : inode) : inode :=
  Inode (i_sector i) (open_cnt i) (removed i) (i_lock i) l (deny_write_cnt i) (writer_cnt i).
Definition acquire_deny (p : Z) : FS unit :=
  i ← get_inode p; l ← lift (lock_acquire me (deny_write_lock i)); put_inode p (set_deny_lock l i).
Definition release_deny (p : Z) : FS unit :=
  i ← get_inode p; l ← lift (lock_release me (deny_write_lock i)); put_inode p (set_deny_lock l i).
Definition add_writer (p n : Z) : FS unit :=
  i ← get_inode p;
  put_inode p (Inode (i_sector i) (open_cnt i) (removed i) (i_lock i) (deny_write_lock i)
                 (deny_write_cnt i) (writer_cnt i + n)).

(** Loop of [inode_write_at]; locals: size, offset, bytes written. *)
Definition write_body (p : Z) (buffer : list Z) (l : Z * Z * Z) : FS (Z * Z * Z + Z) :=
  let '(size, offset, bytes_written) := l in
  if 0 <? size then
    _ ← kalloc_unchecked;
    let '(sector_ofs, chunk_size) := chunk_of (INODE_SPAN - offset) size offset in
    if chunk_size <=? 0 then mret (inr bytes_written)
    else
      '(ok, nr) ← get_data_block p offset true 0;
      if negb ok then mret (inr bytes_written)
      else
        sector_data ← fs_read (u32 nr);
        piece ← lift (deref (zslice buffer bytes_written chunk_size));
        new ← lift (deref (zsplice sector_data sector_ofs piece));
        _ ← fs_write (u32 nr) new;
        mret (inl (size - chunk_size, s32 (offset + chunk_size), bytes_written + chunk_size))
  else mret (inr bytes_written).
Definition inode_write_at (p : Z) (buffer : list Z) (size offset : Z) : FS Z :=
  _ ← acquire_deny p;
  i ← get_inode p;
  if negb (deny_write_cnt i =? 0) then _ ← release_deny p; mret 0
  else
    _ ← add_writer p 1;
    _ ← release_deny p;
    _ ← extend_file (Some p) (s32 (offset + size)) None;
    _ ← kalloc_unchecked;
    bytes_written ← mloop (S (Z.to_nat size)) (write_body p buffer) (size, offset, 0);
    _ ← acquire_deny p;
    _ ← add_writer p (-1);
    _ ← release_deny p;
    mret bytes_written.

Definition inode_deny_write (p : Z) : FS unit :=
  i ← get_inode p;
  let i := Inode (i_sector i) (open_cnt i) (removed i) (i_lock i) (deny_write_lock i)
             (deny_write_cnt i + 1) (writer_cnt i) in
  _ ← put_inode p i;
  assert (deny_write_cnt i <=? open_cnt i).
Definition inode_allow_write (p : Z) : FS unit :=
  i ← get_inode p;
  _ ← assert (0 <? deny_write_cnt i);
  _ ← assert (deny_write_cnt i <=? open_cnt i);
  put_inode p (Inode (i_sector i) (open_cnt i) (removed i) (i_lock i) (deny_write_lock i)
                 (deny_write_cnt i - 1) (writer_cnt i)).

Definition inode_open_cnt (p : Z) : FS Z :=
  _ ← acquire_open_inodes me;
  i ← get_inode p;
  _ ← release_open_inodes me;
  mret (open_cnt i).
Definition set_i_lock (l : lock) (i : inode) : inode :=
  Inode (i_sector i) (open_cnt i) (removed i) l (deny_write_lock i) (deny_write_cnt i)
    (writer_cnt i).
Definition inode_lock (p : Z) : FS unit :=
  i ← get_inode p; l ← lift (lock_acquire me (i_lock i)); put_inode p (set_i_lock l i).
Definition inode_unlock (p : Z) : FS unit :=
  i ← get_inode p; l ← lift (lock_release me (i_lock i)); put_inode p (set_i_lock l i).
End inode.
