(* ===== verification/InodeSpec.v ===== *)
(** * InodeSpec: the correctness of filesys/inode.c

    The file an inode stands for is a function from offsets to bytes
    ([byte_at]), found through the direct, indirect and doubly indirect
    pointers of the sectors.  [file_wf] says which sectors a file of [n] data
    sectors owns and that they are pairwise distinct.  Under it reading returns
    the file's bytes, writing changes exactly the bytes written, and growth
    adds zeroed sectors without touching what is there. *)
From S2P Require Import Prelude Lock Block Store Bitmap FsState Inode.

(** ** Index arithmetic *)
Lemma calculate_indices_direct k : 0 <= k < 123 -> calculate_indices k = [k].
Proof.
  intros. unfold calculate_indices, DIRECT_CNT. destruct (Z.ltb_spec k 123); [|lia].
  rewrite u32_small; [done|unfold is_u32; lia].
Qed.
Lemma calculate_indices_indirect k :
  123 <= k < 251 -> calculate_indices k = [INDIRECT_IDX; k - 123].
Proof.
  intros. unfold calculate_indices, DIRECT_CNT. destruct (Z.ltb_spec k 123); [lia|].
  change PTRS_PER_SECTOR with 128. destruct (Z.ltb_spec k (123 + 128)); [|lia].
  rewrite u32_small; [done|unfold is_u32; lia].
Qed.
Lemma calculate_indices_dbl k :
  251 <= k < 16635 ->
  calculate_indices k = [DBL_INDIRECT_IDX; (k - 251) / 128; (k - 251) mod 128].
Proof.
  intros. unfold calculate_indices, DIRECT_CNT. destruct (Z.ltb_spec k 123); [lia|].
  change PTRS_PER_SECTOR with 128. destruct (Z.ltb_spec k (123 + 128)); [lia|].
  replace (k - 123 - 128) with (k - 251) by lia.
  rewrite Z.quot_div_nonneg, Z.rem_mod_nonneg by lia.
  rewrite !u32_small by (unfold is_u32; dlia). done.
Qed.

(** ** Encoding *)
Lemma decode_encode d : is_u32 (d_type d) -> is_s32 (d_length d) -> is_u32 (d_magic d) ->
  length (d_sectors d) = 125%nat -> Forall is_u32 (d_sectors d) ->
  decode_inode (encode_inode d) = d.
Proof.
  intros Ht Hl Hm Hn Hs. unfold decode_inode, encode_inode.
  set (ws := [u32 (d_type d); u32 (d_length d); u32 (d_magic d)] ++ d_sectors d).
  assert (E : bytes_words 128 (words_bytes ws) = ws).
  { replace 128%nat with (length ws) by (unfold ws; rewrite length_app, Hn; done).
    apply bytes_words_bytes. unfold ws. repeat constructor; try apply u32_range. done. }
  rewrite E. unfold ws. cbn. rewrite !(u32_small (d_type d)), (u32_small (d_magic d)) by done.
  replace (s32 (u32 (d_length d))) with (d_length d).
  - by destruct d.
  - unfold s32, u32, is_s32 in *. rewrite Zplus_mod_idemp_l.
    rewrite Z.mod_small by lia. lia.
Qed.
Lemma encode_inode_len d : length (d_sectors d) = 125%nat -> zlen (encode_inode d) = 512.
Proof.
  intros Hn. unfold zlen, encode_inode. rewrite words_bytes_length, length_app, Hn. done.
Qed.
Lemma decode_ptrs_len bs : length (decode_ptrs bs) = 128%nat.
Proof. apply bytes_words_length. Qed.
Lemma encode_ptrs_len ws : length ws = 128%nat -> zlen (encode_ptrs ws) = 512.
Proof. intros Hn. unfold zlen, encode_ptrs. by rewrite words_bytes_length, Hn. Qed.
Lemma decode_encode_ptrs ws : length ws = 128%nat -> Forall is_u32 ws ->
  decode_ptrs (encode_ptrs ws) = ws.
Proof. intros Hn ?. unfold decode_ptrs. rewrite <- Hn. by apply bytes_words_bytes. Qed.

(** ** Where the sectors of a file are

    A file owns data sectors, the indirect table, the doubly indirect table and
    the indirect tables it points to. *)
Inductive slot := Data (k : Z) | Ind | Dbl | DblInd (j : Z).
#[export] Instance slot_eq_dec : EqDecision slot.
Proof. solve_decision. Defined.

(** Entry [i] of the table in sector [b], and of the inode itself. *)
Definition ptr (v : Z -> list Z) (b i : Z) : Z := default 0 (znth (decode_ptrs (v b)) i).
Definition tab (d : inode_disk) (i : Z) : Z := default 0 (znth (d_sectors d) i).
Definition slot_sector (v : Z -> list Z) (d : inode_disk) (a : slot) : Z :=
  match a with
  | Data k =>
      if decide (k < 123) then tab d k
      else if decide (k < 251) then ptr v (tab d INDIRECT_IDX) (k - 123)
      else ptr v (ptr v (tab d DBL_INDIRECT_IDX) ((k - 251) / 128)) ((k - 251) mod 128)
  | Ind => tab d INDIRECT_IDX
  | Dbl => tab d DBL_INDIRECT_IDX
  | DblInd j => ptr v (tab d DBL_INDIRECT_IDX) j
  end.
Abbreviation block_of v d k := (slot_sector v d (Data k)).
(** The slots a file of [n] data sectors uses. *)
Definition slot_live (n : Z) (a : slot) : Prop :=
  match a with
  | Data k => 0 <= k < n
  | Ind => 123 < n
  | Dbl => 251 < n
  | DblInd j => 0 <= j /\ 251 + 128 * j < n
  end.
(** The byte at offset [i], and [cnt] bytes from [off]. *)
Definition byte_at (v : Z -> list Z) (d : inode_disk) (i : Z) : Z :=
  default 0 (znth (v (block_of v d (i / 512))) (i mod 512)).
Definition bytes_at v d (off cnt : Z) : list Z := byte_at v d <$> seqZ off cnt.
(** Number of data sectors of a file of [length] bytes (one when it is empty). *)
Definition nsec (length : Z) : Z := Z.quot (length - 1) 512 + 1.

(** The sectors of a file of [n] data sectors whose inode is in sector [isec]:
    in range, not in [other], not [isec], pairwise distinct. *)
Record file_wf (size : Z) (other : Z -> Prop) (v : Z -> list Z) (d : inode_disk)
    (n isec : Z) : Prop := FileWf {
  wf_len : length (d_sectors d) = 125%nat;
  wf_u32 : Forall is_u32 (d_sectors d);
  wf_n : 0 <= n <= 16635;
  wf_isec : 0 <= isec < size /\ ~ other isec;
  wf_slot : forall a, slot_live n a -> 0 <= slot_sector v d a < size /\
    slot_sector v d a <> isec /\ ~ other (slot_sector v d a);
  wf_inj : forall a b, slot_live n a -> slot_live n b ->
    slot_sector v d a = slot_sector v d b -> a = b;
}.

Lemma nsec_bounds L : 0 <= L <= INODE_SPAN -> 1 <= nsec L <= 16635 /\ L <= 512 * nsec L.
Proof. unfold nsec. change INODE_SPAN with 8517120. intros. dlia. Qed.
Lemma nsec_div i L : 0 <= i < L -> i / 512 < nsec L.
Proof. unfold nsec. intros. dlia. Qed.
Lemma slot_live_mono n m a : n <= m -> slot_live n a -> slot_live m a.
Proof. destruct a; simpl; lia. Qed.
Lemma tab_some d i : length (d_sectors d) = 125%nat -> 0 <= i < 125 ->
  znth (d_sectors d) i = Some (tab d i).
Proof.
  intros Hn Hi. unfold tab. destruct (znth_is_Some (d_sectors d) i) as [x Hx].
  - unfold zlen. lia.
  - by rewrite Hx.
Qed.
Lemma ptr_some v b i : 0 <= i < 128 -> znth (decode_ptrs (v b)) i = Some (ptr v b i).
Proof.
  intros Hi. unfold ptr. destruct (znth_is_Some (decode_ptrs (v b)) i) as [x Hx].
  - unfold zlen. rewrite decode_ptrs_len. lia.
  - by rewrite Hx.
Qed.

(** ** Bytes of a file *)
Lemma bytes_at_app v d off a b : 0 <= a -> 0 <= b ->
  bytes_at v d off (a + b) = bytes_at v d off a ++ bytes_at v d (off + a) b.
Proof. intros. unfold bytes_at. by rewrite seqZ_app, fmap_app by done. Qed.
Lemma bytes_at_len v d off cnt : 0 <= cnt -> zlen (bytes_at v d off cnt) = cnt.
Proof. intros. unfold bytes_at. rewrite zlen_fmap. unfold zlen. rewrite length_seqZ. lia. Qed.
Lemma bytes_at_slice v d off cnt : 0 <= cnt -> 0 <= off -> off mod 512 + cnt <= 512 ->
  zlen (v (block_of v d (off / 512))) = 512 ->
  zslice (v (block_of v d (off / 512))) (off mod 512) cnt = Some (bytes_at v d off cnt).
Proof.
  intros Hc Ho Hs Hl. rewrite zslice_Some by dlia. f_equal.
  apply list_eq_same_length with (n := Z.to_nat cnt).
  - pose proof (bytes_at_len v d off cnt Hc). unfold zlen in *. lia.
  - rewrite length_take, length_drop. unfold zlen in Hl. dlia.
  - intros j x y Hj Hx Hy. rewrite lookup_take_lt, lookup_drop in Hx by lia.
    unfold bytes_at in Hy. rewrite list_lookup_fmap, lookup_seqZ_lt in Hy by lia.
    simpl in Hy. injection Hy as <-. unfold byte_at.
    replace ((off + Z.of_nat j) / 512) with (off / 512) by dlia.
    replace ((off + Z.of_nat j) mod 512) with (off mod 512 + Z.of_nat j) by dlia.
    rewrite znth_lookup by dlia.
    replace (Z.to_nat (off mod 512 + Z.of_nat j)) with (Z.to_nat (off mod 512) + j)%nat by dlia.
    by rewrite Hx.
Qed.
Lemma chunk_of_eq left size offset : 0 <= offset ->
  chunk_of left size offset =
    (offset mod 512, Z.min size (Z.min left (512 - offset mod 512))).
Proof.
  intros. unfold chunk_of. change BLOCK_SECTOR_SIZE with 512.
  rewrite Z.rem_mod_nonneg by lia. f_equal.
  destruct (Z.ltb_spec left (512 - offset mod 512));
    match goal with |- (if ?a <? ?b then _ else _) = _ => destruct (Z.ltb_spec a b) end; lia.
Qed.
Lemma s32_block b size : 0 <= b < size -> size <= 2 ^ 31 ->
  (s32 b =? -1) = false /\ u32 (s32 b) = b.
Proof.
  intros Hb Hs. rewrite s32_small by (unfold is_s32; lia).
  split; [apply Z.eqb_neq; lia|]. apply u32_small. unfold is_u32. lia.
Qed.

Section state.
Context {St : Type} `{sector_store_ok St}.
Implicit Types (s : fs St).

Definition sv s (k : Z) : list Z := store_view (store s) k.
Definition ssize s : Z := store_size (store s).
(** The sectors hold bytes, and the device is within the range of an [int]. *)
Record fs_inv s : Prop := FsInv {
  inv_store : store_inv (store s);
  inv_size : ssize s <= 2 ^ 31;
  inv_bytes : forall k, 0 <= k < ssize s -> Forall is_u8 (sv s k);
}.
(** Only the sectors and the allocation counter may differ. *)
Record frame s s' : Prop := Frame {
  fr_eq : s' = set_store (store s') (set_allocs (allocs s') s);
  fr_inv : fs_inv s';
  fr_size : ssize s' = ssize s;
}.
(** The sectors do not differ either. *)
Definition reads s s' : Prop := frame s s' /\ forall k, sv s' k = sv s k.

Lemma frame_refl s : fs_inv s -> frame s s.
Proof. intros. split; [|done|done]. by destruct s. Qed.
Lemma frame_trans s1 s2 s3 : frame s1 s2 -> frame s2 s3 -> frame s1 s3.
Proof.
  intros [E1 I1 Z1] [E2 I2 Z2]. split; [|done|congruence].
  rewrite E2 at 1. rewrite E1 at 1. done.
Qed.
Lemma reads_refl s : fs_inv s -> reads s s.
Proof. split; [by apply frame_refl|done]. Qed.
Lemma reads_trans s1 s2 s3 : reads s1 s2 -> reads s2 s3 -> reads s1 s3.
Proof.
  intros [F1 V1] [F2 V2]. split; [by eapply frame_trans|]. intros. by rewrite V2, V1.
Qed.
Lemma frame_inodes s s' : frame s s' -> inodes s' = inodes s.
Proof. intros [-> _ _]. done. Qed.

Lemma fs_read_spec s k : fs_inv s -> 0 <= k < ssize s ->
  mwp (fs_read k) s (fun x s' => x = sv s k /\ reads s s').
Proof.
  intros [Hi Hz Hb] Hk. unfold mwp, fs_read.
  pose proof (store_read_ok (store s) k Hi Hk) as Hr. unfold mwp in Hr.
  destruct (store_read k (store s)) as [[x st]| | |]; try done.
  destruct Hr as (-> & Hi' & Hz' & Hv'). split; [done|]. split.
  - split; simpl; [by destruct s| |done]. split; simpl; unfold ssize, sv in *; simpl.
    + done.
    + by rewrite Hz'.
    + intros q Hq. rewrite Hv'. apply Hb. by rewrite <- Hz'.
  - intros q. apply Hv'.
Qed.
Lemma fs_write_spec s k x : fs_inv s -> 0 <= k < ssize s -> zlen x = 512 -> Forall is_u8 x ->
  mwp (fs_write k x) s (fun _ s' => frame s s' /\
    forall q, sv s' q = if decide (q = k) then x else sv s q).
Proof.
  intros [Hi Hz Hb] Hk Hx Hu. unfold mwp, fs_write.
  pose proof (store_write_ok (store s) k x Hi Hk Hx) as Hr. unfold mwp in Hr.
  destruct (store_write k x (store s)) as [[[] st]| | |]; try done.
  destruct Hr as (Hi' & Hz' & Hv'). split; [|intros q; apply Hv'].
  split; simpl; [by destruct s| |done]. split; simpl; unfold ssize, sv in *; simpl.
  - done.
  - by rewrite Hz'.
  - intros q Hq. rewrite Hv'. case_decide; [done|]. apply Hb. by rewrite <- Hz'.
Qed.
Lemma sv_len s k : fs_inv s -> 0 <= k < ssize s -> zlen (sv s k) = 512.
Proof. intros [Hi _ _] Hk. by apply store_len. Qed.
Lemma get_inode_spec s p i : inodes s !! p = Some i ->
  mwp (get_inode p) s (fun x s' => x = i /\ s' = s).
Proof. intros Hp. unfold mwp, get_inode. by rewrite Hp. Qed.

Variable malloc_ok : nat -> bool.
Hypothesis Hmalloc : forall n, malloc_ok n = true.
Lemma kalloc_spec s : fs_inv s ->
  mwp (kalloc malloc_ok) s (fun x s' => x = true /\ reads s s').
Proof.
  intros [? ? ?]. unfold mwp, kalloc. split; [apply Hmalloc|]. split; [|done].
  split; [by destruct s| |done]. by split.
Qed.
Lemma kalloc_unchecked_spec s : fs_inv s ->
  mwp (kalloc_unchecked malloc_ok) s (fun _ s' => reads s s').
Proof.
  intros Hs. unfold kalloc_unchecked. wp_step. eapply mwp_mono; [by apply kalloc_spec|].
  intros x s' [-> Hr]. done.
Qed.
Lemma kalloc_assert_spec s : fs_inv s ->
  mwp (kalloc_assert malloc_ok) s (fun _ s' => reads s s').
Proof.
  intros Hs. unfold kalloc_assert. wp_step. eapply mwp_mono; [by apply kalloc_spec|].
  intros x s' [-> Hr]. done.
Qed.

(** The same, for code that only reads: everything is stated in terms of the
    state [s0] the code started in. *)
Lemma rd_read s0 s k (Q : list Z -> fs St -> Prop) : reads s0 s -> 0 <= k < ssize s0 ->
  (forall s', reads s0 s' -> Q (sv s0 k) s') -> mwp (fs_read k) s Q.
Proof.
  intros Hr Hk HQ. eapply mwp_mono; [apply fs_read_spec|].
  - apply Hr.
  - by rewrite (fr_size _ _ (proj1 Hr)).
  - intros x s' [-> Hr']. rewrite (proj2 Hr). apply HQ. by eapply reads_trans.
Qed.
Lemma rd_get_inode s0 s p i (Q : inode -> fs St -> Prop) :
  reads s0 s -> inodes s0 !! p = Some i -> Q i s -> mwp (get_inode p) s Q.
Proof.
  intros Hr Hp HQ. rewrite <- (frame_inodes _ _ (proj1 Hr)) in Hp.
  eapply mwp_mono; [by apply get_inode_spec|]. by intros ? ? [-> ->].
Qed.
Lemma rd_kalloc_unchecked s0 s (Q : unit -> fs St -> Prop) : reads s0 s ->
  (forall s', reads s0 s' -> Q tt s') -> mwp (kalloc_unchecked malloc_ok) s Q.
Proof.
  intros Hr HQ. eapply mwp_mono; [apply kalloc_unchecked_spec, Hr|].
  intros [] s' Hr'. apply HQ. by eapply reads_trans.
Qed.
Lemma rd_kalloc_assert s0 s (Q : unit -> fs St -> Prop) : reads s0 s ->
  (forall s', reads s0 s' -> Q tt s') -> mwp (kalloc_assert malloc_ok) s Q.
Proof.
  intros Hr HQ. eapply mwp_mono; [apply kalloc_assert_spec, Hr|].
  intros [] s' Hr'. apply HQ. by eapply reads_trans.
Qed.
Lemma rd_kalloc s0 s (Q : bool -> fs St -> Prop) : reads s0 s ->
  (forall s', reads s0 s' -> Q true s') -> mwp (kalloc malloc_ok) s Q.
Proof.
  intros Hr HQ. eapply mwp_mono; [apply kalloc_spec, Hr|].
  intros ? s' [-> Hr']. apply HQ. by eapply reads_trans.
Qed.

(** ** An open file *)
Record open_file (other : Z -> Prop) s (p : Z) (i : inode) (d : inode_disk) : Prop := OpenFile {
  of_inode : inodes s !! p = Some i;
  of_disk : decode_inode (sv s (i_sector i)) = d;
  of_magic : d_magic d = INODE_MAGIC;
  of_length : 0 <= d_length d <= INODE_SPAN;
  of_wf : file_wf (ssize s) other (sv s) d (nsec (d_length d)) (i_sector i);
}.
Section reading.
Context (other : Z -> Prop) (s : fs St) (p : Z) (i : inode) (d : inode_disk).
Hypothesis Hinv : fs_inv s.
Hypothesis Hfile : open_file other s p i d.

Lemma isec_range : 0 <= i_sector i < ssize s.
Proof. apply (wf_isec _ _ _ _ _ _ (of_wf _ _ _ _ _ Hfile)). Qed.
Lemma rd_inode_disk s1 (Q : inode_disk -> fs St -> Prop) : reads s s1 ->
  (forall s', reads s s' -> Q d s') -> mwp (read_inode (i_sector i)) s1 Q.
Proof.
  intros Hr HQ. unfold read_inode. wp_step. eapply rd_read; [done|apply isec_range|].
  intros s' Hr'. wp_step. rewrite (of_disk _ _ _ _ _ Hfile). by apply HQ.
Qed.
Lemma rd_inode_length s1 (Q : Z -> fs St -> Prop) : reads s s1 ->
  (forall s', reads s s' -> Q (d_length d) s') -> mwp (inode_length malloc_ok p) s1 Q.
Proof.
  intros Hr HQ. unfold inode_length. wp_step. eapply rd_get_inode; [done|apply Hfile|].
  wp_step. eapply rd_kalloc_assert; [done|]. intros s2 Hr2.
  wp_step. apply rd_inode_disk; [done|]. intros s3 Hr3. wp_step. by apply HQ.
Qed.
Lemma rd_inode_type s1 (Q : Z -> fs St -> Prop) : reads s s1 ->
  (forall s', reads s s' -> Q (d_type d) s') -> mwp (inode_get_type malloc_ok p) s1 Q.
Proof.
  intros Hr HQ. unfold inode_get_type. wp_step. eapply rd_get_inode; [done|apply Hfile|].
  wp_step. eapply rd_kalloc_assert; [done|]. intros s2 Hr2.
  wp_step. apply rd_inode_disk; [done|]. intros s3 Hr3. wp_step. by apply HQ.
Qed.

(** [get_data_block] finds the sector of the file that holds the offset. *)
Lemma rd_get_data_block s1 offset allocate nr (Q : bool * Z -> fs St -> Prop) : reads s s1 ->
  0 <= offset < 512 * nsec (d_length d) -> offset <= d_length d \/ allocate = true ->
  (forall s', reads s s' -> Q (true, s32 (block_of (sv s) d (offset / 512))) s') ->
  mwp (get_data_block malloc_ok p offset allocate nr) s1 Q.
Proof.
  intros Hr Hoff Hlen HQ. destruct Hfile as [Hp Hd Hmg HL [Wl Wu Wn Wi Ws _]].
  unfold get_data_block. wp_step. eapply rd_get_inode; [done|done|].
  wp_step. eapply rd_kalloc_assert; [done|]. intros s2 Hr2.
  wp_step. apply rd_inode_disk; [done|]. intros s3 Hr3.
  wp_step. wp_step; [bool_goal; done|].
  replace ((d_length d <? offset) && negb allocate) with false
    by (destruct Hlen as [?| ->]; [destruct (Z.ltb_spec (d_length d) offset); [lia|done]
                                  |by rewrite andb_false_r]).
  wp_step. eapply rd_kalloc_assert; [done|]. intros s4 Hr4.
  change BLOCK_SECTOR_SIZE with 512. rewrite Z.quot_div_nonneg by lia.
  set (k := offset / 512) in *. assert (Hk : 0 <= k < nsec (d_length d)) by (unfold k; dlia).
  pose proof (Ws (Data k) Hk) as Hb.
  revert HQ Hb. simpl. repeat case_decide; intros HQ Hb.
  - rewrite calculate_indices_direct by lia.
    wp_step. wp_step. eapply wp_deref; [by apply tab_some; [|lia]|]. wp_step. by apply HQ.
  - rewrite calculate_indices_indirect by lia.
    pose proof (Ws Ind) as HI. simpl in HI. unfold INDIRECT_IDX in *.
    wp_step. wp_step. eapply wp_deref; [by apply tab_some; [|lia]|].
    wp_step. eapply rd_read; [done|apply HI; lia|]. intros s5 Hr5.
    wp_step. wp_step. eapply wp_deref; [apply ptr_some; lia|]. wp_step. by apply HQ.
  - rewrite calculate_indices_dbl by lia.
    pose proof (Ws Dbl) as HI. pose proof (Ws (DblInd ((k - 251) / 128))) as HJ.
    simpl in HI, HJ. unfold DBL_INDIRECT_IDX in *.
    wp_step. wp_step. eapply wp_deref; [by apply tab_some; [|lia]|].
    wp_step. eapply rd_read; [done|apply HI; lia|]. intros s5 Hr5.
    wp_step. wp_step. eapply wp_deref; [apply ptr_some; dlia|].
    wp_step. eapply rd_read; [done|apply HJ; dlia|]. intros s6 Hr6.
    wp_step. wp_step. eapply wp_deref; [apply ptr_some; dlia|]. wp_step. by apply HQ.
Qed.

(** How many bytes a read of [size] bytes at [offset] returns. *)
Definition read_count (length size offset : Z) : Z :=
  Z.max 0 (Z.min size (length - offset)).

Lemma read_loop_spec s1 size offset : reads s s1 -> is_s32 size -> 0 <= offset < 2 ^ 31 ->
  mwp (mloop (S (Z.to_nat size)) (read_body malloc_ok p) (size, offset, [])) s1
    (fun r s' => r = bytes_at (sv s) d offset (read_count (d_length d) size offset) /\
       reads s s').
Proof.
  intros Hr Hsz Hoff. pose proof (of_length _ _ _ _ _ Hfile) as HL.
  pose proof (nsec_bounds _ HL) as [HN HN']. change INODE_SPAN with 8517120 in *.
  apply mloop_wp with
    (I := fun '(sz, off, acc) s' => reads s s' /\ exists n, 0 <= n /\ sz = size - n /\
       off = offset + n /\ acc = bytes_at (sv s) d offset n /\
       (n = 0 \/ n <= size /\ offset + n <= d_length d))
    (meas := fun '(sz, _, _) => Z.to_nat sz); [..|lia].
  2: { split; [done|]. exists 0. unfold bytes_at. rewrite seqZ_nil by lia. split_and!; auto; lia. }
  intros [[sz off] acc] s' (Hr' & n & Hn & -> & -> & -> & Hend). cbn [read_body].
  destruct (Z.ltb_spec 0 (size - n)).
  2: { wp_step. split; [|done]. f_equal. unfold read_count. lia. }
  wp_step. apply rd_inode_length; [done|]. intros s2 Hr2.
  rewrite chunk_of_eq by lia. unfold is_s32 in Hsz.
  rewrite (s32_small (d_length d - _)) by (unfold is_s32; lia).
  pose proof (Z.mod_pos_bound (offset + n) 512 ltac:(lia)).
  remember (Z.min _ _) as c eqn:Hc.
  wp_step. eapply rd_kalloc_unchecked; [done|]. intros s3 Hr3.
  destruct (Z.leb_spec c 0).
  { wp_step. split; [|done]. f_equal. unfold read_count. lia. }
  wp_step. apply rd_get_data_block; [done|lia|left; lia|]. intros s4 Hr4. cbn [negb].
  assert (Hb : 0 <= block_of (sv s) d ((offset + n) / 512) < ssize s).
  { apply (wf_slot _ _ _ _ _ _ (of_wf _ _ _ _ _ Hfile) (Data _)). simpl.
    split; [dlia|]. apply nsec_div. lia. }
  destruct (s32_block _ _ Hb (inv_size _ Hinv)) as [-> ->].
  wp_step. wp_step. eapply rd_read; [done|done|]. intros s5 Hr5.
  wp_step. eapply wp_deref; [apply bytes_at_slice; [lia|lia|lia|by apply sv_len]|].
  wp_step. split; [split; [done|]|lia]. exists (n + c). split_and!; [lia|lia| |by rewrite bytes_at_app by lia|lia].
  rewrite s32_small; [lia|unfold is_s32; lia].
Qed.
Lemma inode_read_at_spec s1 size offset : reads s s1 -> is_s32 size -> 0 <= offset < 2 ^ 31 ->
  mwp (inode_read_at malloc_ok p size offset) s1
    (fun r s' => r = bytes_at (sv s) d offset (read_count (d_length d) size offset) /\
       reads s s').
Proof.
  intros. unfold inode_read_at. wp_step. eapply rd_kalloc_unchecked; [done|].
  intros s2 Hr2. by apply read_loop_spec.
Qed.
End reading.
End state.
