(* ===== verification/InodeGrow.v ===== *)
(** * InodeGrow: one more sector for a file

    [allocator_ok] is what filesys/inode.c relies on from the free map
    ([free_map_allocate (1, _)] and [free_map_release (_, 1)]); FreeMap.v proves
    it for filesys/free-map.c.  Under it [extend_file] adds zeroed sectors
    and leaves the rest as it was: here one turn of its loop. *)
From S2P Require Import Prelude Lock Block Store Bitmap FsState Inode InodeSpec.

(** [frame], with the free map also free to change. *)
Section aframe.
Context {St : Type} `{sector_store_ok St}.
Record aframe (s s' : fs St) : Prop := Aframe {
  af_eq : s' = set_store (store s') (set_allocs (allocs s') (set_free_map (free_map s') s));
  af_inv : fs_inv s';
  af_size : ssize s' = ssize s;
}.
Lemma aframe_refl s : fs_inv s -> aframe s s.
Proof. intros. split; [|done|done]. by destruct s. Qed.
Lemma aframe_trans s1 s2 s3 : aframe s1 s2 -> aframe s2 s3 -> aframe s1 s3.
Proof.
  intros [E1 I1 Z1] [E2 I2 Z2]. split; [|done|congruence].
  rewrite E2 at 1. rewrite E1 at 1. done.
Qed.
Lemma frame_aframe s s' : frame s s' -> aframe s s' /\ free_map s' = free_map s.
Proof.
  intros [E I Z]. split.
  - split; [|done|done]. rewrite E at 1. rewrite E. by destruct s.
  - by rewrite E.
Qed.
Lemma aframe_inodes s s' : aframe s s' -> inodes s' = inodes s.
Proof. intros [-> _ _]. done. Qed.
End aframe.

(** The contract of the sector allocator. *)
Class allocator_ok {St} `{sector_store_ok St}
    (alloc : M (fs St) (option Z)) (release : Z -> M (fs St) unit) := {
  (** the sectors it can still hand out, and the sectors, inodes and files it
      keeps for itself *)
  al_free : bitmap -> gset Z;
  al_meta : Z -> Prop;
  al_inode : Z -> Prop;
  al_file : Z -> Prop;
  al_inv : fs St -> Prop;
  al_range : forall s k, al_inv s -> k ∈ al_free (free_map s) -> 0 <= k < ssize s /\ ~ al_meta k;
  al_stable : forall s s', al_inv s -> frame s s' ->
    (forall q, al_meta q -> sv s' q = sv s q) -> al_inv s';
  al_ext : forall s s', al_inv s -> store s' = store s -> free_map s' = free_map s ->
    free_map_file s' = free_map_file s ->
    (forall p, al_inode p -> inodes s' !! p = inodes s !! p) ->
    (forall p, al_file p -> files s' !! p = files s !! p) -> al_inv s';
  al_alloc : forall s, fs_inv s -> al_inv s ->
    mwp alloc s (fun r s' => aframe s s' /\ al_inv s' /\
      (forall q, ~ al_meta q -> sv s' q = sv s q) /\
      match r with
      | Some k => k ∈ al_free (free_map s) /\
          al_free (free_map s') = al_free (free_map s) ∖ {[k]}
      | None => al_free (free_map s) = ∅ /\ al_free (free_map s') = ∅
      end);
  al_release : forall s k, fs_inv s -> al_inv s -> 0 <= k < ssize s -> ~ al_meta k ->
    k ∉ al_free (free_map s) ->
    mwp (release k) s (fun _ s' => aframe s s' /\ al_inv s' /\
      (forall q, ~ al_meta q -> sv s' q = sv s q) /\
      al_free (free_map s') = {[k]} ∪ al_free (free_map s));
}.

Lemma al_put_inode {St} `{allocator_ok St} (s : fs St) p i : al_inv s -> ~ al_inode p ->
  al_inv (set_inodes (<[p := i]> (inodes s)) s).
Proof.
  intros Hal Hp. eapply al_ext; try done. intros q Hq. cbn [inodes set_inodes].
  rewrite lookup_insert_ne; [done|]. by intros ->.
Qed.

(** ** Updating sectors *)
Definition upd (f : Z -> list Z) (k : Z) (x : list Z) (q : Z) : list Z :=
  if decide (q = k) then x else f q.
Lemma upd_eq f k x : upd f k x k = x.
Proof. unfold upd. by rewrite decide_True. Qed.
Lemma upd_ne f k x q : q <> k -> upd f k x q = f q.
Proof. intros. unfold upd. by rewrite decide_False. Qed.

Lemma ptr_ext (f g : Z -> list Z) b i : f b = g b -> ptr f b i = ptr g b i.
Proof. intros E. unfold ptr. by rewrite E. Qed.
(** Storing one entry in a table. *)
Definition set_entry (f : Z -> list Z) (b i x : Z) : Z -> list Z :=
  upd f b (encode_ptrs (<[Z.to_nat i := x]> (decode_ptrs (f b)))).
Lemma decode_ptrs_u32 bs : zlen bs = 512 -> Forall is_u8 bs -> Forall is_u32 (decode_ptrs bs).
Proof. intros Hl Hu. apply bytes_words_u32; [done|]. unfold zlen in Hl. lia. Qed.
Lemma set_entry_ptr f b i x j : zlen (f b) = 512 -> Forall is_u8 (f b) -> is_u32 x ->
  0 <= i < 128 -> ptr (set_entry f b i x) b j = if decide (i = j) then x else ptr f b j.
Proof.
  intros Hl Hu Hx Hi. unfold ptr, set_entry. rewrite upd_eq, decode_encode_ptrs.
  - rewrite znth_insert by (unfold zlen; rewrite decode_ptrs_len; lia). by case_decide.
  - by rewrite length_insert, decode_ptrs_len.
  - apply Forall_insert; [by apply decode_ptrs_u32|done].
Qed.
Lemma set_entry_ne f b i x q : q <> b -> set_entry f b i x q = f q.
Proof. apply upd_ne. Qed.
Lemma tab_set_sectors d i x j : length (d_sectors d) = 125%nat -> 0 <= i < 125 ->
  tab (set_sectors (<[Z.to_nat i := x]> (d_sectors d)) d) j = if decide (i = j) then x else tab d j.
Proof.
  intros Hl Hi. unfold tab. simpl. rewrite znth_insert by (unfold zlen; lia). by case_decide.
Qed.

(** The sectors of a file depend only on its tables. *)
Lemma slot_sector_ext v v' d n a : 0 <= n <= 16635 -> slot_live n a ->
  (forall b, (b = Ind \/ b = Dbl \/ exists j, b = DblInd j) -> slot_live n b ->
     v' (slot_sector v d b) = v (slot_sector v d b)) ->
  slot_sector v' d a = slot_sector v d a.
Proof.
  intros Hn Ha Hv.
  assert (HI : 123 < n -> v' (tab d INDIRECT_IDX) = v (tab d INDIRECT_IDX)).
  { intros. apply (Hv Ind); [by left|done]. }
  assert (HD : 251 < n -> v' (tab d DBL_INDIRECT_IDX) = v (tab d DBL_INDIRECT_IDX)).
  { intros. apply (Hv Dbl); [by right; left|done]. }
  assert (HJ : forall j, 0 <= j -> 251 + 128 * j < n ->
    v' (ptr v (tab d DBL_INDIRECT_IDX) j) = v (ptr v (tab d DBL_INDIRECT_IDX) j)).
  { intros j ??. apply (Hv (DblInd j)); [by right; right; exists j|done]. }
  destruct a as [k| | |j]; simpl in *; [|done|done|].
  - repeat case_decide; [done|by apply ptr_ext, HI; lia|].
    rewrite (ptr_ext v' v _ _ (HD ltac:(lia))). apply ptr_ext, HJ; dlia.
  - apply ptr_ext, HD. lia.
Qed.
Lemma file_wf_ext size other v v' d n isec : file_wf size other v d n isec ->
  (forall b, (b = Ind \/ b = Dbl \/ exists j, b = DblInd j) -> slot_live n b ->
     v' (slot_sector v d b) = v (slot_sector v d b)) ->
  file_wf size other v' d n isec.
Proof.
  intros [Wl Wu Wn Wi Ws Wj] Hv. split; try done.
  - intros a Ha. rewrite (slot_sector_ext v v' d n) by done. by apply Ws.
  - intros a b Ha Hb. rewrite !(slot_sector_ext v v' d n) by done. by apply Wj.
Qed.

(** One more data sector: the slots that are new, and the sectors they take. *)
Definition new_slots (n : Z) : list slot :=
  (if decide (n = 123) then [Ind] else []) ++ (if decide (n = 251) then [Dbl] else []) ++
  (if decide (251 <= n /\ (n - 251) mod 128 = 0) then [DblInd ((n - 251) / 128)] else []) ++
  [Data n].
(** Sectors that growing by one data sector takes. *)
Definition ext_cost (n : Z) : Z := zlen (new_slots n).
Lemma ext_cost_pos n : 1 <= ext_cost n.
Proof. unfold ext_cost, new_slots, zlen. rewrite !length_app. simpl. lia. Qed.

Lemma new_slots_dbl n a : 251 <= n -> a ∈ new_slots n ->
  (n = 251 /\ a = Dbl) \/ ((n - 251) mod 128 = 0 /\ a = DblInd ((n - 251) / 128)) \/ a = Data n.
Proof.
  intros Hn. unfold new_slots. rewrite (decide_False (P := n = 123)) by lia.
  destruct (decide (n = 251)), (decide (251 <= n /\ (n - 251) mod 128 = 0)) as [[]|];
    simpl; set_solver.
Qed.
Lemma slot_live_new n a : 0 <= n -> slot_live (n + 1) a -> slot_live n a \/ a ∈ new_slots n.
Proof.
  intros Hn Ha. unfold new_slots. rewrite !elem_of_app, list_elem_of_singleton.
  destruct a as [k| | |j]; simpl in *.
  - destruct (decide (k = n)) as [->|]; [by right; right; right; right|left; lia].
  - destruct (decide (n = 123)); [right; left; by left|left; lia].
  - destruct (decide (n = 251)); [right; right; left; by left|left; lia].
  - destruct (decide (251 + 128 * j = n)) as [E|]; [|left; lia].
    right. right. right. left. rewrite decide_True by dlia.
    replace ((n - 251) / 128) with j by dlia. by left.
Qed.
Lemma slot_dec_live n a : slot_live n a \/ ~ slot_live n a.
Proof. destruct a; simpl; lia. Qed.
Lemma file_wf_grow size (other other' : Z -> Prop) v v' d d' n isec :
  file_wf size other v d n isec -> n < 16635 ->
  length (d_sectors d') = 125%nat -> Forall is_u32 (d_sectors d') ->
  (forall q, other' q -> other q) ->
  (forall a, slot_live n a -> slot_sector v' d' a = slot_sector v d a) ->
  (forall a, a ∈ new_slots n -> 0 <= slot_sector v' d' a < size /\
     other (slot_sector v' d' a) /\ ~ other' (slot_sector v' d' a)) ->
  (forall a b, a ∈ new_slots n -> b ∈ new_slots n ->
     slot_sector v' d' a = slot_sector v' d' b -> a = b) ->
  file_wf size other' v' d' (n + 1) isec.
Proof.
  intros [Wl Wu Wn Wi Ws Wj] Hn Hl Hu Ho Hold Hnew Hinj.
  split; [done|done|lia|naive_solver| |].
  - intros a [Ha|Ha]%slot_live_new; [| |lia].
    + rewrite (Hold a Ha). naive_solver.
    + pose proof (Hnew a Ha) as (? & ? & ?). split_and!; try done; [lia..|].
      intros E. rewrite E in *. tauto.
  - intros a b [Ha|Ha]%slot_live_new [Hb|Hb]%slot_live_new E; try lia.
    + rewrite !Hold in E by done. by apply Wj.
    + rewrite (Hold a Ha) in E. pose proof (Ws a Ha) as (_ & _ & X). rewrite E in X.
      pose proof (Hnew b Hb). tauto.
    + rewrite (Hold b Hb) in E. pose proof (Ws b Hb) as (_ & _ & X). rewrite <- E in X.
      pose proof (Hnew a Ha). tauto.
    + by apply Hinj.
Qed.

(** ** One more data sector, as an update of the tables *)
Section grow_pure.
Context (size : Z) (other other' : Z -> Prop) (v f : Z -> list Z) (d d' : inode_disk)
  (n isec sn : Z).
Definition fresh_in (q : Z) : Prop := 0 <= q < size /\ other q /\ ~ other' q.
Hypothesis Hwf : file_wf size other v d n isec.
Hypothesis Hsub : forall q, other' q -> other q.
Hypothesis Hsn : fresh_in sn /\ is_u32 sn.
Hypothesis Hlen : length (d_sectors d') = 125%nat.
Hypothesis Hu32 : Forall is_u32 (d_sectors d').
Definition grow_post (v' : Z -> list Z) : Prop :=
  file_wf size other' v' d' (n + 1) isec /\
  (forall a, slot_live n a -> slot_sector v' d' a = slot_sector v d a) /\
  block_of v' d' n = sn /\
  (forall a, a ∈ new_slots n -> other (slot_sector v' d' a)).

Lemma grow_post_intro v' : n < 16635 ->
  (forall a, slot_live n a -> slot_sector v' d' a = slot_sector v d a) ->
  block_of v' d' n = sn ->
  (forall a, a ∈ new_slots n -> a = Data n \/ fresh_in (slot_sector v' d' a)) ->
  (forall a b, a ∈ new_slots n -> b ∈ new_slots n ->
     slot_sector v' d' a = slot_sector v' d' b -> a = b) ->
  grow_post v'.
Proof.
  intros Hn Hold Hsec Hnew Hinj.
  assert (Hfr : forall a, a ∈ new_slots n -> fresh_in (slot_sector v' d' a)).
  { intros a Ha. destruct (Hnew a Ha) as [-> |X]; [|done]. rewrite Hsec. apply Hsn. }
  split_and!; [|done|done|intros a Ha; by apply Hfr].
  by eapply file_wf_grow.
Qed.

Lemma grow_direct : n < 123 ->
  (forall j, j < 123 -> tab d' j = if decide (n = j) then sn else tab d j) -> grow_post f.
Proof.
  intros Hn Ht. pose proof (wf_n _ _ _ _ _ _ Hwf) as Hn'. apply grow_post_intro.
  - lia.
  - intros [k| | |j]; simpl; intros; try lia.
    rewrite !decide_True by lia. rewrite Ht, decide_False by lia. done.
  - simpl. rewrite decide_True, Ht by lia. by rewrite decide_True.
  - unfold new_slots. rewrite !decide_False by lia. set_solver.
  - unfold new_slots. rewrite !decide_False by lia. set_solver.
Qed.

Lemma grow_indirect it : 123 <= n < 251 -> it = tab d' INDIRECT_IDX ->
  (forall j, j < 123 -> tab d' j = tab d j) ->
  (if decide (n = 123) then fresh_in it /\ it <> sn
   else it = tab d INDIRECT_IDX /\ f it = v it) ->
  zlen (f it) = 512 -> Forall is_u8 (f it) ->
  grow_post (set_entry f it (n - 123) sn).
Proof.
  intros Hn Hit Ht Hcase Hl Hu. destruct Hsn as [Hfr Hsu].
  assert (Hptr : forall j, ptr (set_entry f it (n - 123) sn) it j =
    if decide (n - 123 = j) then sn else ptr f it j) by (intros; apply set_entry_ptr; auto; lia).
  assert (Hnew : slot_sector (set_entry f it (n - 123) sn) d' (Data n) = sn).
  { simpl. rewrite decide_False, decide_True by lia. rewrite <- Hit, Hptr.
    by rewrite decide_True. }
  apply grow_post_intro; [lia| |done|..].
  - intros [k| | |j]; cbn [slot_live]; intros; simpl; try lia.
    + destruct (decide (k < 123)); [by rewrite Ht|].
      rewrite !decide_True by lia. rewrite <- Hit, Hptr, decide_False by lia.
      destruct (decide (n = 123)); [lia|]. destruct Hcase as [Hit' Hf]. rewrite <- Hit'.
      by apply ptr_ext.
    + destruct (decide (n = 123)); [lia|]. rewrite <- Hit. by destruct Hcase.
  - unfold new_slots. rewrite (decide_False (P := n = 251)), (decide_False (P := 251 <= n /\ _)) by lia.
    case_decide; intros a Ha; [|set_solver].
    assert (a = Ind \/ a = Data n) as [-> | ->] by set_solver; [right|by left].
    simpl. rewrite <- Hit. apply Hcase.
  - unfold new_slots. rewrite (decide_False (P := n = 251)), (decide_False (P := 251 <= n /\ _)) by lia.
    case_decide; intros a b Ha Hb E; [|set_solver].
    assert (a = Ind \/ a = Data n) as [-> | ->] by set_solver;
    assert (b = Ind \/ b = Data n) as [-> | ->] by set_solver; try done;
      rewrite Hnew in E; simpl in E; rewrite <- Hit in E; destruct Hcase; congruence.
Qed.

Lemma grow_dbl dt it : 251 <= n < 16635 -> dt = tab d' DBL_INDIRECT_IDX ->
  it = ptr f dt ((n - 251) / 128) ->
  (forall j, j < 124 -> tab d' j = tab d j) ->
  (if decide (n = 251) then fresh_in dt /\ dt <> sn else dt = tab d DBL_INDIRECT_IDX) ->
  (if decide ((n - 251) mod 128 = 0) then fresh_in it /\ it <> sn /\ it <> dt
   else it = ptr v dt ((n - 251) / 128)) ->
  (forall j, slot_live n (DblInd j) -> ptr f dt j = ptr v dt j) ->
  (forall a, slot_live n a -> a = Ind \/ (exists j, a = DblInd j) ->
     f (slot_sector v d a) = v (slot_sector v d a)) ->
  zlen (f it) = 512 -> Forall is_u8 (f it) ->
  grow_post (set_entry f it ((n - 251) mod 128) sn).
Proof.
  intros Hn Hdt Hit Ht Hcd Hci Hptrs Htabs Hl Hu. destruct Hsn as [Hfr Hsu].
  set (o1 := (n - 251) / 128) in *. set (o2 := (n - 251) mod 128) in *.
  assert (Ho : 0 <= o1 /\ 0 <= o2 < 128 /\ n = 251 + 128 * o1 + o2) by (unfold o1, o2; dlia).
  clearbody o1 o2. set (f' := set_entry f it o2 sn).
  assert (Hdtv : n <> 251 -> dt = tab d DBL_INDIRECT_IDX) by (intros; by destruct (decide (n = 251))).
  (* the indirect table is no other sector of the file *)
  assert (Hne : forall a, slot_live n a -> a <> DblInd o1 -> slot_sector v d a <> it).
  { intros a Ha Hao E. destruct (decide (o2 = 0)).
    - destruct Hci as ((_ & X & _) & _). apply (wf_slot _ _ _ _ _ _ Hwf) in Ha. rewrite E in Ha. tauto.
    - apply Hao. eapply wf_inj; [done|done|simpl; lia|]. rewrite E, Hci. simpl. rewrite Hdtv; [done|lia]. }
  assert (Hdi : dt <> it).
  { destruct (decide (o2 = 0)); [naive_solver|]. rewrite Hdtv by lia. apply (Hne Dbl); [simpl; lia|done]. }
  assert (Hf' : forall q, q <> it -> f' q = f q) by (intros; by apply set_entry_ne).
  assert (Hdp : forall j, ptr f' dt j = ptr f dt j) by (intros; apply ptr_ext, Hf'; done).
  assert (Hptr : forall j, ptr f' it j = if decide (o2 = j) then sn else ptr f it j)
    by (intros; apply set_entry_ptr; (done || lia)).
  assert (Hnew : slot_sector f' d' (Data n) = sn).
  { simpl. rewrite !decide_False by lia. rewrite <- Hdt, Hdp.
    replace ((n - 251) / 128) with o1 by dlia. rewrite <- Hit, Hptr. apply decide_True. dlia. }
  assert (HnewJ : slot_sector f' d' (DblInd o1) = it) by (simpl; by rewrite <- Hdt, Hdp).
  assert (HnewD : slot_sector f' d' Dbl = dt) by done.
  assert (Hold : forall a, slot_live n a -> slot_sector f' d' a = slot_sector v d a).
  { intros [k| | |j] Ha; simpl in Ha |- *.
    - destruct (decide (k < 123)); [apply Ht; lia|].
      destruct (decide (k < 251)).
      { rewrite Ht by done. apply ptr_ext. rewrite Hf'; [|apply (Hne Ind); [simpl; lia|done]].
        apply (Htabs Ind); [simpl; lia|by left]. }
      rewrite <- Hdt, Hdp, <- Hdtv by lia. set (j := (k - 251) / 128).
      assert (Hj : slot_live n (DblInd j)) by (unfold j; simpl; dlia).
      rewrite Hptrs by done.
      assert (HT : f (ptr v dt j) = v (ptr v dt j)).
      { pose proof (Htabs (DblInd j) Hj ltac:(right; by exists j)) as X. simpl in X.
        rewrite <- Hdtv in X; [done|lia]. }
      destruct (decide (j = o1)) as [E|E].
      + assert (o2 <> 0) by (unfold j in E; dlia).
        rewrite decide_False in Hci by done. rewrite E, <- Hci, Hptr.
        rewrite decide_False by (unfold j in E; dlia). apply ptr_ext.
        rewrite E, <- Hci in HT. done.
      + apply ptr_ext. rewrite Hf'; [done|]. pose proof (Hne (DblInd j) Hj) as X. simpl in X.
        rewrite <- Hdtv in X by lia. apply X. congruence.
    - apply Ht. unfold INDIRECT_IDX. lia.
    - rewrite <- Hdt. apply Hdtv. lia.
    - rewrite <- Hdt, Hdp, <- Hdtv by lia. apply Hptrs. done. }
  assert (Hel : forall a, a ∈ new_slots n -> (n = 251 /\ a = Dbl) \/
    (o2 = 0 /\ a = DblInd o1) \/ a = Data n).
  { intros a Ha. destruct (new_slots_dbl n a ltac:(lia) Ha) as [?|[[E ->]| ->]]; [by left| |by do 2 right].
    right. left. split; [dlia|f_equal; dlia]. }
  apply grow_post_intro; [lia|done|done|..].
  - intros a [(-> & ->)|[(E & ->)| ->]]%Hel; [right|right|by left].
    + rewrite HnewD. apply Hcd.
    + rewrite HnewJ. rewrite decide_True in Hci by done. apply Hci.
  - intros a b Ha%Hel Hb%Hel E.
    destruct Ha as [(E1 & ->)|[(E1 & ->)| ->]], Hb as [(E2 & ->)|[(E2 & ->)| ->]]; try done;
      rewrite ?Hnew, ?HnewJ, ?HnewD in E;
      repeat match goal with
      | E : n = 251 |- _ => rewrite decide_True in Hcd by done; clear E
      | E : o2 = 0 |- _ => rewrite decide_True in Hci by done; clear E
      end; naive_solver.
Qed.
End grow_pure.

(** ** Running code that allocates and writes

    [grown s0 s F f]: since [s0] the sectors [F] have been allocated, and
    outside the allocator's own sectors the contents are now [f]. *)
Section growing.
Context {St : Type} `{sector_store_ok St} {alloc : M (fs St) (option Z)}
  {release : Z -> M (fs St) unit} `{!allocator_ok alloc release}.
Implicit Types (s : fs St).
Abbreviation free s := (al_free (alloc := alloc) (release := release) (free_map s)).
Abbreviation meta := (al_meta (alloc := alloc) (release := release)).
Abbreviation al_inv := (al_inv (alloc := alloc) (release := release)).
(** The sectors a file must not use. *)
Definition taken s (q : Z) : Prop := meta q \/ q ∈ free s.

Record grown s0 s (F : list Z) (f : Z -> list Z) : Prop := Grown {
  gr_frame : aframe s0 s;
  gr_inv : al_inv s;
  gr_free : free s = free s0 ∖ list_to_set F;
  gr_nodup : NoDup F;
  gr_fresh : forall k, k ∈ F -> k ∈ free s0;
  gr_view : forall q, ~ meta q -> sv s q = f q;
}.
Lemma grown_refl s : fs_inv s -> al_inv s -> grown s s [] (sv s).
Proof.
  intros. split; try done.
  - by apply aframe_refl.
  - set_solver.
  - constructor.
  - set_solver.
Qed.
Lemma gr_range s0 s F f k : grown s0 s F f -> al_inv s0 -> k ∈ F ->
  0 <= k < ssize s0 /\ ~ meta k /\ k ∈ free s0 /\ k ∉ free s.
Proof.
  intros Hg Hal Hk. pose proof (gr_fresh _ _ _ _ Hg k Hk) as Hf.
  destruct (al_range _ _ Hal Hf) as [Hr Hm].
  split; [exact Hr|]. split; [exact Hm|]. split; [exact Hf|].
  rewrite (gr_free _ _ _ _ Hg). set_solver.
Qed.
Lemma gr_size s0 s F f : grown s0 s F f ->
  (size (free s) = size (free s0) - length F)%nat /\ (length F <= size (free s0))%nat.
Proof.
  intros [_ _ Hf Hn Hs _]. rewrite Hf.
  assert (HF : (list_to_set F : gset Z) ⊆ free s0) by set_solver.
  pose proof (subseteq_size _ _ HF) as HS. rewrite size_list_to_set in HS by done.
  rewrite size_difference, size_list_to_set by done. lia.
Qed.

Lemma gr_alloc s0 s F f (Q : option Z -> fs St -> Prop) : grown s0 s F f ->
  (length F < size (free s0))%nat ->
  (forall k s', k ∉ F -> grown s0 s' (k :: F) f -> Q (Some k) s') -> mwp alloc s Q.
Proof.
  intros Hg Hs HQ. pose proof (gr_size _ _ _ _ Hg) as [Hsz _].
  destruct Hg as [Ha Hi Hf Hn Hfr Hv].
  eapply mwp_mono; [apply al_alloc; [apply Ha|done]|]. intros [k|] s' (Ha' & Hi' & Hv' & Hk).
  - destruct Hk as [Hk Hfr']. assert (HkF : k ∉ F) by (rewrite Hf in Hk; set_solver).
    apply HQ; [done|]. split; [by eapply aframe_trans|done| | | |].
    + rewrite Hfr', Hf. set_solver.
    + by constructor.
    + rewrite Hf in Hk. set_solver.
    + intros q Hq. by rewrite Hv', Hv.
  - destruct Hk as [Hk _]. rewrite Hk, size_empty in Hsz. lia.
Qed.
Lemma gr_read s0 s F f k (Q : list Z -> fs St -> Prop) : grown s0 s F f ->
  0 <= k < ssize s0 -> ~ meta k -> (forall s', grown s0 s' F f -> Q (f k) s') ->
  mwp (fs_read k) s Q.
Proof.
  intros [Ha Hi Hf Hn Hfr Hv] Hk Hm HQ.
  eapply mwp_mono; [apply fs_read_spec; [apply Ha|by rewrite (af_size _ _ Ha)]|].
  intros x s' [-> [Hr Hv']]. rewrite Hv by done. apply HQ.
  destruct (frame_aframe _ _ Hr) as [Hr' Hfm]. split; try done.
  - by eapply aframe_trans.
  - eapply al_stable; [done|done|]. intros. apply Hv'.
  - by rewrite Hfm.
  - intros q Hq. by rewrite Hv', Hv.
Qed.
Lemma gr_write s0 s F f k x (Q : unit -> fs St -> Prop) : grown s0 s F f ->
  0 <= k < ssize s0 -> ~ meta k -> zlen x = 512 -> Forall is_u8 x ->
  (forall s', grown s0 s' F (upd f k x) -> Q tt s') -> mwp (fs_write k x) s Q.
Proof.
  intros [Ha Hi Hf Hn Hfr Hv] Hk Hm Hl Hu HQ.
  eapply mwp_mono; [apply fs_write_spec; [apply Ha|by rewrite (af_size _ _ Ha)|done|done]|].
  intros [] s' [Hr Hv']. apply HQ.
  destruct (frame_aframe _ _ Hr) as [Hr' Hfm]. split; try done.
  - by eapply aframe_trans.
  - eapply al_stable; [done|done|]. intros q Hq. rewrite Hv'. case_decide; [by subst|done].
  - by rewrite Hfm.
  - intros q Hq. rewrite Hv'. unfold upd. case_decide; [done|]. by apply Hv.
Qed.
Lemma gr_sector s0 s F f k : grown s0 s F f -> ~ meta k -> 0 <= k < ssize s0 ->
  zlen (f k) = 512 /\ Forall is_u8 (f k).
Proof.
  intros Hg Hm Hk. rewrite <- (gr_view _ _ _ _ Hg k Hm).
  rewrite <- (af_size _ _ (gr_frame _ _ _ _ Hg)) in Hk.
  pose proof (af_inv _ _ (gr_frame _ _ _ _ Hg)).
  split; [by apply sv_len|by apply inv_bytes].
Qed.
(** Reading a table, changing one entry and writing it back. *)
Lemma gr_set_entry s0 s F f b i x (Q : unit -> fs St -> Prop) : grown s0 s F f ->
  0 <= b < ssize s0 -> ~ meta b -> is_u32 x -> 0 <= i < 128 ->
  (forall s', grown s0 s' F (set_entry f b i x) -> Q tt s') ->
  mwp (fs_write b (encode_ptrs (<[Z.to_nat i := x]> (decode_ptrs (f b))))) s Q.
Proof.
  intros Hg Hb Hm Hx Hi HQ. destruct (gr_sector _ _ _ _ b Hg Hm Hb) as [Hl Hu].
  eapply gr_write; [done|done|done| | |done].
  - apply encode_ptrs_len. by rewrite length_insert, decode_ptrs_len.
  - apply words_bytes_u8.
Qed.

(** *** One turn of the loop of [extend_file] *)
Definition same_header (d d' : inode_disk) : Prop :=
  d_type d' = d_type d /\ d_length d' = d_length d /\ d_magic d' = d_magic d.
Lemma same_header_refl d : same_header d d.
Proof. done. Qed.
Lemma same_header_sectors d l : same_header d (set_sectors l d).
Proof. done. Qed.
Lemma same_header_trans d1 d2 d3 : same_header d1 d2 -> same_header d2 d3 -> same_header d1 d3.
Proof. unfold same_header. naive_solver congruence. Qed.

(** The tables of the file. *)
Definition table_of (v : Z -> list Z) d n (q : Z) : Prop :=
  exists a, slot_live n a /\ (a = Ind \/ a = Dbl \/ exists j, a = DblInd j) /\
    q = slot_sector v d a.
Record step_post s d n isec s' F f d' : Prop := StepPost {
  sp_grown : grown s s' F f;
  sp_cost : zlen F = ext_cost n;
  sp_wf : file_wf (ssize s) (taken s') f d' (n + 1) isec;
  sp_header : same_header d d';
  sp_slots : forall a, slot_live n a -> slot_sector f d' a = slot_sector (sv s) d a;
  sp_new : f (block_of f d' n) = zero_sector;
  sp_taken : forall a, a ∈ new_slots n -> taken s (slot_sector f d' a);
  sp_frame : forall q, q ∉ F -> ~ table_of (sv s) d n q -> f q = sv s q;
}.

Lemma taken_sub s s' F f : grown s s' F f -> forall q, taken s' q -> taken s q.
Proof. intros Hg q [?|Hq]; [by left|right]. rewrite (gr_free _ _ _ _ Hg) in Hq. set_solver. Qed.
Lemma gr_fresh_in s s' F f k : grown s s' F f -> al_inv s -> k ∈ F ->
  fresh_in (ssize s) (taken s) (taken s') k.
Proof.
  intros Hg Hal Hk. pose proof (gr_range _ _ _ _ _ Hg Hal Hk) as (? & ? & ? & ?).
  split; [done|]. split; [by right|]. intros [?|?]; done.
Qed.
Lemma gr_u32 s s' F f k : grown s s' F f -> al_inv s -> k ∈ F -> fs_inv s -> is_u32 k.
Proof.
  intros Hg Hal Hk Hi. pose proof (gr_range _ _ _ _ _ Hg Hal Hk) as (? & _).
  pose proof (inv_size _ Hi). unfold is_u32. lia.
Qed.
Lemma zero_sector_u8 : Forall is_u8 zero_sector.
Proof. unfold zero_sector. apply Forall_replicate. unfold is_u8. lia. Qed.
Lemma set_sectors_wf d i x : length (d_sectors d) = 125%nat -> Forall is_u32 (d_sectors d) ->
  is_u32 x -> 0 <= i < 125 ->
  zset (d_sectors d) i x = Some (<[Z.to_nat i := x]> (d_sectors d)) /\
  length (<[Z.to_nat i := x]> (d_sectors d)) = 125%nat /\
  Forall is_u32 (<[Z.to_nat i := x]> (d_sectors d)).
Proof.
  intros Hl Hu Hx Hi. split; [apply zset_Some; unfold zlen; lia|].
  split; [by rewrite length_insert|by apply Forall_insert].
Qed.

Section step.
Context (s : fs St) (d : inode_disk) (n isec : Z).
Hypothesis Hinv : fs_inv s.
Hypothesis Hal : al_inv s.
Hypothesis Hwf : file_wf (ssize s) (taken s) (sv s) d n isec.
Hypothesis Hcost : ext_cost n <= Z.of_nat (size (free s)).


Lemma extend_step_direct : n < 123 ->
  mwp (extend_step alloc n d) s
    (fun r s' => r.1 = true /\ exists F f, step_post s d n isec s' F f r.2).
Proof.
  intros Hn. pose proof Hwf as [Wl Wu Wn _ _ _]. pose proof (ext_cost_pos n).
  assert (Hc1 : ext_cost n = 1) by (unfold ext_cost, new_slots; by rewrite !decide_False by lia).
  unfold extend_step. wp_step. eapply gr_alloc; [by apply grown_refl|simpl; lia|].
  intros sn s1 _ Hg1. pose proof (gr_range _ _ _ _ sn Hg1 Hal ltac:(left)) as (Hr & Hm & _).
  wp_step. eapply gr_write; [done|done|done|done|apply zero_sector_u8|]. intros s2 Hg2.
  unfold DIRECT_CNT. destruct (Z.ltb_spec n 123); [|lia].
  pose proof (gr_u32 _ _ _ _ sn Hg2 Hal ltac:(left) Hinv) as Hsu.
  destruct (set_sectors_wf d n sn Wl Wu Hsu ltac:(lia)) as (Hz & Hl' & Hu').
  wp_step. wp_step. eapply wp_deref; [done|]. wp_step. cbn. split; [done|].
  exists [sn], (upd (sv s) sn zero_sector).
  destruct (grow_direct (ssize s) (taken s) (taken s2) (sv s) (upd (sv s) sn zero_sector) d
    (set_sectors (<[Z.to_nat n:=sn]> (d_sectors d)) d) n isec sn) as (Hwf' & Hold & Hnew & Hoth); try done.
  - by eapply taken_sub.
  - split; [|done]. eapply gr_fresh_in; [done|done|left].
  - intros j Hj. apply tab_set_sectors; [done|lia].
  - split; try done.
    + rewrite Hnew. apply upd_eq.
    + intros q Hq _. apply upd_ne. set_solver.
Qed.

(** Allocating a table and storing its number in entry [idx] of the inode. *)
Lemma gr_table s1 F f (c : bool) idx (Q : bool * inode_disk -> fs St -> Prop) :
  grown s s1 F f -> (c = true -> (length F < size (free s))%nat) -> 123 <= idx < 125 ->
  (forall d' x s' F', grown s s' F' f ->
     F' = (if c then [x] else []) ++ F -> NoDup F' ->
     length (d_sectors d') = 125%nat -> Forall is_u32 (d_sectors d') -> same_header d d' ->
     (forall j, tab d' j = if c then (if decide (idx = j) then x else tab d j) else tab d j) ->
     Q (true, d') s') ->
  mwp (if c then r ← alloc; match r with
                 | None => mret (false, d)
                 | Some new_sector =>
                     l ← lift (deref (zset (d_sectors d) idx new_sector));
                     mret (true, set_sectors l d)
                 end
       else mret (true, d)) s1 Q.
Proof.
  intros Hg Hs Hi HQ. pose proof Hwf as [Wl Wu Wn _ _ _]. destruct c.
  - wp_step. eapply gr_alloc; [done|by apply Hs|]. intros x s2 Hx Hg2.
    pose proof (gr_u32 _ _ _ _ x Hg2 Hal ltac:(left) Hinv) as Hxu.
    destruct (set_sectors_wf d idx x Wl Wu Hxu ltac:(lia)) as (Hz & Hl' & Hu').
    wp_step. wp_step. eapply wp_deref; [done|]. wp_step.
    eapply HQ with (x := x) (F' := x :: F); try done.
    + apply Hg2.
    + intros j. apply tab_set_sectors; [done|lia].
  - wp_step. eapply HQ with (x := 0) (F' := F); try done. apply Hg.
Qed.

Lemma extend_step_indirect : 123 <= n < 251 ->
  mwp (extend_step alloc n d) s
    (fun r s' => r.1 = true /\ exists F f, step_post s d n isec s' F f r.2).
Proof.
  intros Hn. pose proof Hwf as [Wl Wu Wn _ Ws _].
  assert (Hc1 : ext_cost n = if decide (n = 123) then 2 else 1).
  { unfold ext_cost, new_slots. rewrite (decide_False (P := n = 251)), (decide_False (P := 251 <= n /\ _)) by lia.
    by case_decide. }
  assert (Hsz : (0 < size (free s))%nat /\ (n = 123 -> (1 < size (free s))%nat))
    by (destruct (decide (n = 123)); lia).
  unfold extend_step. wp_step. eapply gr_alloc; [by apply grown_refl|simpl; lia|].
  intros sn s1 _ Hg1. pose proof (gr_range _ _ _ _ sn Hg1 Hal ltac:(left)) as (Hr & Hm & _).
  wp_step. eapply gr_write; [done|done|done|done|apply zero_sector_u8|]. intros s2 Hg2.
  unfold DIRECT_CNT. destruct (Z.ltb_spec n 123); [lia|]. change PTRS_PER_SECTOR with 128.
  destruct (Z.ltb_spec n (123 + 128)); [|lia].
  wp_step. eapply gr_table; [done|intros; apply Hsz; lia|unfold INDIRECT_IDX; lia|].
  intros d' x s3 F' Hg3 HF' Hnd Hl' Hu' Hh Ht. cbn [negb]. set (it := tab d' INDIRECT_IDX).
  assert (Hcase : if decide (n = 123) then it ∈ F' /\ it <> sn
    else it = tab d INDIRECT_IDX /\ upd (sv s) sn zero_sector it = sv s it).
  { unfold it. rewrite Ht. destruct (decide (n = 123)) as [->|Hne].
    - simpl in *. subst F'. inversion Hnd; subst. set_solver.
    - replace (n =? 123) with false by (symmetry; by apply Z.eqb_neq). split; [done|]. apply upd_ne.
      pose proof (Ws Ind ltac:(simpl; lia)) as (_ & _ & Ho). simpl in Ho. intros E. apply Ho.
      rewrite E. apply (gr_fresh_in _ _ _ _ sn Hg2); [done|left]. }
  assert (Hit : 0 <= it < ssize s /\ ~ meta it).
  { destruct (decide (n = 123)).
    - destruct Hcase as [Hf _]. by destruct (gr_range _ _ _ _ it Hg3 Hal Hf) as (? & ? & _).
    - destruct Hcase as [-> _]. pose proof (Ws Ind ltac:(simpl; lia)) as (? & _ & Ho).
      split; [done|]. intros ?. apply Ho. by left. }
  pose proof (gr_u32 _ _ _ _ sn Hg2 Hal ltac:(left) Hinv) as Hsu.
  rewrite calculate_indices_indirect by done.
  wp_step. wp_step. eapply wp_deref; [done|].
  wp_step. wp_step. eapply wp_deref; [by apply tab_some; [|unfold INDIRECT_IDX; lia]|]. fold it.
  wp_step. eapply gr_read; [done|apply Hit|apply Hit|]. intros s4 Hg4.
  wp_step. wp_step. eapply wp_deref; [apply zset_Some; unfold zlen; rewrite decode_ptrs_len; lia|].
  wp_step. eapply gr_set_entry; [done|apply Hit|apply Hit|done|lia|]. intros s5 Hg5. wp_step.
  split; [done|]. exists F', (set_entry (upd (sv s) sn zero_sector) it (n - 123) sn).
  destruct (gr_sector _ _ _ _ it Hg4) as [Hl Hu]; [apply Hit..|].
  destruct (grow_indirect (ssize s) (taken s) (taken s5) (sv s) (upd (sv s) sn zero_sector) d d'
    n isec sn) with (it := it) as (Hwf' & Hold & Hnew & Hoth); try done.
  - by eapply taken_sub.
  - split; [|done]. eapply gr_fresh_in; [done|done|]. subst F'. set_solver.
  - intros j Hj. rewrite Ht. destruct (n =? 123); [|done].
    rewrite decide_False by (unfold INDIRECT_IDX; lia). done.
  - destruct (decide (n = 123)); [|done]. destruct Hcase. split; [|done].
    by eapply gr_fresh_in.
  - assert (Hne : it <> sn).
    { destruct (decide (n = 123)); [by apply Hcase|]. destruct Hcase as [-> _]. intros E.
      pose proof (Ws Ind ltac:(simpl; lia)) as (_ & _ & Ho). simpl in Ho. apply Ho.
      rewrite E. apply (gr_fresh_in _ _ _ _ sn Hg2); [done|left]. }
    split; try done.
    + rewrite Hc1. subst F'. unfold zlen.
      destruct (Z.eqb_spec n 123), (decide (n = 123)); try lia; done.
    + cbn [snd]. rewrite Hnew, set_entry_ne by congruence. apply upd_eq.
    + intros q Hq Hnt. rewrite set_entry_ne, upd_ne; [done|subst F'; set_solver|].
      destruct (decide (n = 123)); [destruct Hcase; congruence|]. destruct Hcase as [-> _].
      intros ->. apply Hnt. exists Ind. split_and!; [simpl; lia|by left|done].
Qed.

(** The end of a doubly indirect step: the doubly indirect table holds the
    indirect table's number, which gets its entry. *)
Lemma extend_dbl_finish sn d' F' f s1 dt it (o1 o2 : Z) : 251 <= n < 16635 ->
  o1 = (n - 251) / 128 -> o2 = (n - 251) mod 128 ->
  grown s s1 F' f -> sn ∈ F' -> zlen F' = ext_cost n -> same_header d d' ->
  length (d_sectors d') = 125%nat -> Forall is_u32 (d_sectors d') ->
  dt = tab d' DBL_INDIRECT_IDX -> it = ptr f dt o1 ->
  (forall j, j < 124 -> tab d' j = tab d j) ->
  (if decide (n = 251) then dt ∈ F' /\ dt <> sn else dt = tab d DBL_INDIRECT_IDX) ->
  (if decide (o2 = 0) then it ∈ F' /\ it <> sn /\ it <> dt else it = ptr (sv s) dt o1) ->
  (forall j, slot_live n (DblInd j) -> ptr f dt j = ptr (sv s) dt j) ->
  (forall q, q ∉ F' -> ~ (251 < n /\ q = dt) -> f q = sv s q) ->
  f sn = zero_sector ->
  mwp (x ← fs_read it; buf ← lift (deref (zset (decode_ptrs x) o2 sn));
       _ ← fs_write it (encode_ptrs buf); mret (true, d')) s1
    (fun r s' => r.1 = true /\ exists F f, step_post s d n isec s' F f r.2).
Proof.
  intros Hn -> -> Hg Hsn HF Hh Hl' Hu' Hdt Hit Ht Hcd Hci Hptrs Hf Hz.
  pose proof Hwf as [Wl Wu Wn _ Ws Wj].
  assert (Hdtv : n <> 251 -> dt = tab d DBL_INDIRECT_IDX) by (intros; by destruct (decide (n = 251))).
  assert (HnF : forall a, slot_live n a -> slot_sector (sv s) d a ∉ F').
  { intros a Ha Hin. apply (Ws a Ha). apply (gr_fresh_in _ _ _ _ _ Hg Hal Hin). }
  assert (Hito : (n - 251) mod 128 <> 0 -> it = slot_sector (sv s) d (DblInd ((n - 251) / 128)) /\
    slot_live n (DblInd ((n - 251) / 128))).
  { intros E. rewrite decide_False in Hci by done. rewrite Hci, Hdtv by dlia.
    split; [done|simpl; dlia]. }
  assert (Hitr : 0 <= it < ssize s /\ ~ meta it).
  { destruct (decide ((n - 251) mod 128 = 0)) as [E|E].
    - destruct Hci as (Hin & _). by destruct (gr_range _ _ _ _ it Hg Hal Hin) as (? & ? & _).
    - destruct (Hito E) as [-> Hlive]. pose proof (Ws _ Hlive) as (? & _ & Ho).
      split; [done|]. intros ?. apply Ho. by left. }
  pose proof (gr_u32 _ _ _ _ sn Hg Hal Hsn Hinv) as Hsu.
  wp_step. eapply gr_read; [done|apply Hitr|apply Hitr|]. intros s2 Hg2.
  wp_step. wp_step. eapply wp_deref; [apply zset_Some; unfold zlen; rewrite decode_ptrs_len; dlia|].
  wp_step. eapply gr_set_entry; [done|apply Hitr|apply Hitr|done|dlia|]. intros s3 Hg3. wp_step.
  split; [done|]. exists F', (set_entry f it ((n - 251) mod 128) sn).
  destruct (gr_sector _ _ _ _ it Hg2) as [Hl Hu]; [apply Hitr..|].
  destruct (grow_dbl (ssize s) (taken s) (taken s3) (sv s) f d d' n isec sn)
    with (dt := dt) (it := it) as (Hwf' & Hold & Hnew & Hoth); try done.
  - by eapply taken_sub.
  - split; [|done]. by eapply gr_fresh_in.
  - destruct (decide (n = 251)); [|done]. destruct Hcd. split; [by eapply gr_fresh_in|done].
  - destruct (decide ((n - 251) mod 128 = 0)); [|done]. destruct Hci as (? & ? & ?).
    split; [by eapply gr_fresh_in|done].
  - intros a Ha Hk. apply Hf; [by apply HnF|]. intros [Hlt E]. rewrite Hdtv in E by lia.
    assert (a = Dbl) as -> by (apply Wj; [done|simpl; lia|done]). naive_solver.
  - assert (Hne : it <> sn).
    { destruct (decide ((n - 251) mod 128 = 0)) as [E|E]; [by apply Hci|].
      destruct (Hito E) as [-> Hlive]. intros E'. apply (HnF _ Hlive). by rewrite E'. }
    split; try done.
    + cbn [snd]. rewrite Hnew, set_entry_ne; congruence.
    + intros q Hq Hnt. rewrite set_entry_ne.
      * apply Hf; [done|]. intros [Hlt ->]. apply Hnt. exists Dbl.
        split_and!; [simpl; lia|by right; left|]. rewrite Hdtv by lia. done.
      * destruct (decide ((n - 251) mod 128 = 0)) as [E|E]; [destruct Hci; congruence|].
        destruct (Hito E) as [-> Hlive]. intros ->. apply Hnt.
        eexists. split_and!; [done|right; right; by eexists|done].
Qed.

Lemma ext_cost_dbl : 251 <= n -> ext_cost n =
  1 + (if decide (n = 251) then 1 else 0) + (if decide ((n - 251) mod 128 = 0) then 1 else 0).
Proof.
  intros. unfold ext_cost, new_slots, zlen. rewrite decide_False by lia.
  destruct (decide (n = 251)), (decide ((n - 251) mod 128 = 0)),
    (decide (251 <= n /\ (n - 251) mod 128 = 0)); try done; lia.
Qed.
Lemma extend_step_dbl : 251 <= n < 16635 ->
  mwp (extend_step alloc n d) s
    (fun r s' => r.1 = true /\ exists F f, step_post s d n isec s' F f r.2).
Proof.
  intros Hn. pose proof Hwf as [Wl Wu Wn _ Ws _].
  pose proof (ext_cost_dbl ltac:(lia)) as Hc1.
  unfold extend_step. wp_step. eapply gr_alloc; [by apply grown_refl|simpl; repeat case_decide; lia|].
  intros sn s1 _ Hg1. pose proof (gr_range _ _ _ _ sn Hg1 Hal ltac:(left)) as (Hr & Hm & _).
  wp_step. eapply gr_write; [done|done|done|done|apply zero_sector_u8|]. intros s2 Hg2.
  unfold DIRECT_CNT. destruct (Z.ltb_spec n 123); [lia|]. change PTRS_PER_SECTOR with 128.
  destruct (Z.ltb_spec n (123 + 128)); [lia|].
  wp_step. eapply gr_table; [done| |unfold DBL_INDIRECT_IDX; lia|].
  { intros E%Z.eqb_eq. cbn [length]. rewrite (decide_True (P := n = 251)) in Hc1 by lia.
    destruct (decide ((n - 251) mod 128 = 0)); lia. }
  intros d' x s3 F' Hg3 HF' Hnd Hl' Hu' Hh Ht. cbn [negb].
  set (dt := tab d' DBL_INDIRECT_IDX) in *. set (f1 := upd (sv s) sn zero_sector) in *.
  assert (Hcd : if decide (n = 251) then dt ∈ F' /\ dt <> sn else dt = tab d DBL_INDIRECT_IDX).
  { unfold dt. rewrite Ht. destruct (decide (n = 251)) as [->|Hne].
    - simpl in *. subst F'. inversion Hnd; subst. set_solver.
    - by replace (n =? 123 + 128) with false by (symmetry; apply Z.eqb_neq; lia). }
  assert (HsnF : sn ∈ F') by (subst F'; set_solver).
  assert (HF1 : zlen F' = 1 + (if decide (n = 251) then 1 else 0)).
  { subst F'. destruct (Z.eqb_spec n (123 + 128)), (decide (n = 251)); try lia; done. }
  assert (Hdlive : forall j, slot_live n (DblInd j) -> n <> 251) by (simpl; lia).
  assert (Hdsn : dt <> sn).
  { destruct (decide (n = 251)); [by apply Hcd|]. intros E.
    pose proof (Ws Dbl ltac:(simpl; lia)) as (_ & _ & Ho). simpl in Ho. apply Ho.
    rewrite <- Hcd, E. apply (gr_fresh_in _ _ _ _ sn Hg3 Hal HsnF). }
  assert (Hdt : 0 <= dt < ssize s /\ ~ meta dt).
  { destruct (decide (n = 251)).
    - destruct Hcd as [Hf _]. by destruct (gr_range _ _ _ _ dt Hg3 Hal Hf) as (? & ? & _).
    - rewrite Hcd. pose proof (Ws Dbl ltac:(simpl; lia)) as (? & _ & Ho).
      split; [done|]. intros ?. apply Ho. by left. }
  assert (Hf1 : forall q, q ∉ F' -> f1 q = sv s q) by (intros; apply upd_ne; congruence).
  assert (Hf1d : f1 dt = sv s dt) by by apply upd_ne.
  assert (Htab : forall j, j < 124 -> tab d' j = tab d j).
  { intros j Hj. rewrite Ht. destruct (n =? _); [|done]. by rewrite decide_False by (unfold DBL_INDIRECT_IDX; lia). }
  rewrite calculate_indices_dbl by lia.
  set (o1 := (n - 251) / 128) in *. set (o2 := (n - 251) mod 128) in *.
  assert (Ho : 0 <= o1 < 128 /\ n = 251 + 128 * o1 + o2 /\ 0 <= o2 < 128) by (unfold o1, o2; dlia).
  wp_step. wp_step. eapply wp_deref; [done|]. wp_step. wp_step. eapply wp_deref; [done|].
  destruct (Z.eqb_spec o2 0) as [E0|E0].
  - wp_step. wp_step. eapply gr_alloc; [done| |].
    { rewrite (decide_True (P := o2 = 0)) in Hc1 by done. unfold zlen in HF1. lia. }
    intros it s4 HitF Hg4. wp_step.
    wp_step. wp_step. eapply wp_deref; [by apply tab_some; [|unfold DBL_INDIRECT_IDX; lia]|]. fold dt.
    wp_step. eapply gr_read; [done|apply Hdt|apply Hdt|]. intros s5 Hg5.
    pose proof (gr_u32 _ _ _ _ it Hg5 Hal ltac:(left) Hinv) as Hiu.
    destruct (gr_sector _ _ _ _ dt Hg5) as [Hl Hu]; [apply Hdt..|].
    wp_step. wp_step. wp_step. eapply wp_deref; [apply zset_Some; unfold zlen; rewrite decode_ptrs_len; lia|].
    wp_step. eapply gr_set_entry; [done|apply Hdt|apply Hdt|done|lia|]. intros s6 Hg6. wp_step.
    assert (Hp : forall j, ptr (set_entry f1 dt o1 it) dt j = if decide (o1 = j) then it else ptr f1 dt j)
      by (intros; apply set_entry_ptr; (done || lia)).
    wp_step. wp_step. eapply wp_deref.
    { rewrite znth_insert, decide_True; [done|done|]. unfold zlen. rewrite decode_ptrs_len. lia. }
    eapply (extend_dbl_finish sn d' (it :: F') (set_entry f1 dt o1 it) _ dt it o1 o2); try done.
    + set_solver.
    + unfold zlen in *. rewrite length_cons, Hc1, (decide_True (P := o2 = 0)) by done. lia.
    + by rewrite Hp, decide_True.
    + destruct (decide (n = 251)); [|done]. set_solver.
    + rewrite decide_True by done. split; [left|]. split; [by intros ->|]. intros ->.
      destruct (decide (n = 251)); [by destruct Hcd|].
      apply (Ws Dbl ltac:(simpl; lia)). simpl. rewrite <- Hcd.
      apply (gr_fresh_in _ _ _ _ dt Hg6 Hal ltac:(left)).
    + intros j Hj. rewrite Hp, decide_False by (simpl in Hj; lia). by apply ptr_ext.
    + intros q Hq Hnd'. destruct (decide (q = dt)) as [->|].
      * destruct (decide (n = 251)); [destruct Hcd; set_solver|]. exfalso. apply Hnd'. split; [lia|done].
      * rewrite set_entry_ne by done. apply Hf1. set_solver.
    + rewrite set_entry_ne by done. apply upd_eq.
  - wp_step. wp_step.
    wp_step. wp_step. eapply wp_deref; [by apply tab_some; [|unfold DBL_INDIRECT_IDX; lia]|]. fold dt.
    wp_step. eapply gr_read; [done|apply Hdt|apply Hdt|]. intros s5 Hg5.
    wp_step. wp_step. wp_step. wp_step. eapply wp_deref; [apply ptr_some; lia|].
    eapply (extend_dbl_finish sn d' F' f1 _ dt (ptr f1 dt o1) o1 o2); try done.
    + rewrite Hc1, (decide_False (P := o2 = 0)) by done. lia.
    + rewrite decide_False by done. by apply ptr_ext.
    + intros j Hj. by apply ptr_ext.
    + intros q Hq _. by apply Hf1.
    + apply upd_eq.
Qed.
Lemma extend_step_spec : n < 16635 ->
  mwp (extend_step alloc n d) s
    (fun r s' => r.1 = true /\ exists F f, step_post s d n isec s' F f r.2).
Proof.
  intros Hn. pose proof (wf_n _ _ _ _ _ _ Hwf).
  destruct (decide (n < 123)); [by apply extend_step_direct|].
  destruct (decide (n < 251)); [apply extend_step_indirect; lia|apply extend_step_dbl; lia].
Qed.
End step.
End growing.
