(* ===== verification/InodeWrite.v ===== *)
(** * InodeWrite: the whole of [extend_file], and [inode_write_at]

    Growth by any number of sectors, as far as the free map has sectors, and
    writing at any offset: exactly the bytes written change, the gap reads as
    zeros, and no sector outside the file is touched. *)
From Stdlib Require Import FunctionalExtensionality.
From S2P Require Import Prelude Lock Block Store Bitmap FsState Inode InodeSpec InodeGrow.

Lemma nsec_mono a b : a <= b -> nsec a <= nsec b.
Proof. unfold nsec. intros. pose proof (Z.quot_le_mono (a - 1) (b - 1) 512). lia. Qed.
Lemma quot_nsec L : 0 <= L <= INODE_SPAN ->
  u32 (Z.quot (L - 1) BLOCK_SECTOR_SIZE) = nsec L - 1.
Proof.
  intros HL. pose proof (nsec_bounds L HL). unfold nsec in *. change BLOCK_SECTOR_SIZE with 512.
  rewrite u32_small; [lia|unfold is_u32; lia].
Qed.

(** ** Writing data sectors in place *)
Section in_place.
Context {St : Type} `{sector_store_ok St}.
Variable malloc_ok : nat -> bool.
Hypothesis Hmalloc : forall n, malloc_ok n = true.
Variable me : Z.
Implicit Types (s : fs St).

Definition splice_byte (buffer : list Z) (off n j old : Z) : Z :=
  if decide (off <= j < off + n) then default 0 (znth buffer (j - off)) else old.

Lemma splice_byte_in buffer off n j o : off <= j < off + n ->
  splice_byte buffer off n j o = default 0 (znth buffer (j - off)).
Proof. intros. unfold splice_byte. by rewrite decide_True. Qed.
Lemma splice_byte_extend buffer off n c j o : 0 <= n -> 0 < c ->
  ~ (off + n <= j < off + n + c) ->
  splice_byte buffer off n j o = splice_byte buffer off (n + c) j o.
Proof.
  intros. unfold splice_byte. destruct (decide (off <= j < off + n)).
  - by rewrite decide_True by lia.
  - by rewrite decide_False by lia.
Qed.

(** [n] bytes of [buffer] have been stored at [off]. *)
Record stored other s s' p i d buffer off n : Prop := Stored {
  st_frame : frame s s';
  st_open : open_file other s' p i d;
  st_bytes : forall j, 0 <= j < 512 * nsec (d_length d) ->
    byte_at (sv s') d j = splice_byte buffer off n j (byte_at (sv s) d j);
  st_slots : forall a, slot_live (nsec (d_length d)) a -> slot_sector (sv s') d a = slot_sector (sv s) d a;
  st_others : forall q, (forall k, 0 <= k < nsec (d_length d) -> q <> block_of (sv s) d k) ->
    sv s' q = sv s q;
}.
Lemma stored_refl other s p i d buffer off : fs_inv s -> open_file other s p i d ->
  stored other s s p i d buffer off 0.
Proof.
  intros. split; try done; [by apply frame_refl|]. intros j _. unfold splice_byte.
  by rewrite decide_False by lia.
Qed.
Lemma stored_reads other s s1 s2 p i d buffer off n :
  stored other s s1 p i d buffer off n -> reads s1 s2 -> stored other s s2 p i d buffer off n.
Proof.
  intros [F O B L X] [Hf Hv].
  assert (E : sv s2 = sv s1) by by apply functional_extensionality.
  split; rewrite ?E; try done; [by eapply frame_trans|]. destruct O as [Op Od Om Ol Ow].
  split; rewrite ?E, ?(frame_inodes _ _ Hf), ?(fr_size _ _ Hf); done.
Qed.
Lemma Forall_zslice {A} (P : A -> Prop) l off n x : Forall P l -> zslice l off n = Some x -> Forall P x.
Proof. unfold zslice. case_decide; [|done]. intros ? [= <-]. by apply Forall_take, Forall_drop. Qed.
Lemma zslice_len {A} (l : list A) off n x : zslice l off n = Some x -> zlen x = n.
Proof.
  unfold zslice, zlen. case_decide as Hd; [|done]. intros [= <-].
  rewrite length_take, length_drop. lia.
Qed.
Lemma znth_zslice {A} (l : list A) off n x j : zslice l off n = Some x -> 0 <= j < n ->
  znth x j = znth l (off + j).
Proof.
  unfold zslice, zlen. case_decide as Hd; [|done]. intros [= <-] Hj.
  rewrite !znth_lookup by lia. rewrite lookup_take_lt, lookup_drop by lia. f_equal. lia.
Qed.
Lemma znth_zsplice {A} (l new l' : list A) off j : zsplice l off new = Some l' ->
  znth l' j = if decide (off <= j < off + zlen new) then znth new (j - off) else znth l j.
Proof.
  unfold zsplice, zlen. case_decide as Hd; [|done]. intros [= <-].
  destruct (decide (0 <= j)) as [Hj|Hj].
  2: { rewrite decide_False by lia. unfold znth. by rewrite !decide_False. }
  rewrite !(znth_lookup _ j) by done. case_decide.
  - rewrite znth_lookup by lia. rewrite lookup_app_r; rewrite length_take; [|lia].
    rewrite lookup_app_l by lia. f_equal. lia.
  - destruct (decide (j < off)).
    + rewrite lookup_app_l by (rewrite length_take; lia). apply lookup_take_lt. lia.
    + rewrite lookup_app_r; rewrite length_take; [|lia]. rewrite lookup_app_r by lia.
      rewrite lookup_drop. f_equal. lia.
Qed.
Lemma Forall_zsplice {A} (P : A -> Prop) l off new l' : Forall P l -> Forall P new ->
  zsplice l off new = Some l' -> Forall P l'.
Proof.
  unfold zsplice. case_decide; [|done]. intros ?? [= <-].
  apply Forall_app; split; [by apply Forall_take|]. apply Forall_app; split; [done|by apply Forall_drop].
Qed.

Lemma div512 x : x = 512 * (x / 512) + x mod 512 /\ 0 <= x mod 512 < 512.
Proof. split; [apply Z.div_mod; lia|apply Z.mod_pos_bound; lia]. Qed.

(** One chunk. *)
Lemma store_chunk other s s1 p i d buffer off n c piece new (Q : unit -> fs St -> Prop) :
  stored other s s1 p i d buffer off n ->
  0 <= n -> 0 < c -> 0 <= off -> (off + n) mod 512 + c <= 512 -> off + n + c <= 512 * nsec (d_length d) ->
  Forall is_u8 buffer -> zslice buffer n c = Some piece ->
  zsplice (sv s1 (block_of (sv s1) d ((off + n) / 512))) ((off + n) mod 512) piece = Some new ->
  (forall s2, stored other s s2 p i d buffer off (n + c) -> Q tt s2) ->
  mwp (fs_write (block_of (sv s1) d ((off + n) / 512)) new) s1 Q.
Proof.
  intros [F O B L X] Hn Hc Ho Hm He Hu Hpc Hnew HQ.
  destruct O as [Op Od Omg Ol Ow]. pose proof Ow as [Wl Wu Wn Wi Ws Wj].
  pose proof (fr_inv _ _ F) as Hi1. pose proof (div512 (off + n)) as Hdm.
  set (k := (off + n) / 512) in *. set (m := (off + n) mod 512) in *. clearbody k m.
  assert (Hk : slot_live (nsec (d_length d)) (Data k)) by (simpl; lia).
  destruct (Ws _ Hk) as (Hr & Hni & _). set (b := block_of (sv s1) d k) in *.
  pose proof (zslice_len _ _ _ _ Hpc) as Hplen.
  pose proof (sv_len s1 b Hi1 Hr) as Hbl.
  eapply mwp_mono.
  { apply fs_write_spec; [done|done| |].
    - unfold zlen in *. rewrite (zsplice_len _ _ _ _ Hnew). done.
    - eapply Forall_zsplice; [|by eapply Forall_zslice|done]. by apply inv_bytes. }
  intros [] s2 [Hf2 Hv2]. apply HQ.
  assert (Hother : forall a, slot_live (nsec (d_length d)) a -> a <> Data k ->
    sv s2 (slot_sector (sv s1) d a) = sv s1 (slot_sector (sv s1) d a)).
  { intros a Ha Hne. rewrite Hv2, decide_False; [done|]. intros E. by apply Hne, Wj. }
  assert (Htab : forall a, a = Ind \/ a = Dbl \/ (exists j, a = DblInd j) ->
    slot_live (nsec (d_length d)) a ->
    sv s2 (slot_sector (sv s1) d a) = sv s1 (slot_sector (sv s1) d a)).
  { intros a Ht Ha. apply Hother; [done|]. intros ->. by destruct Ht as [?|[?|[? ?]]]. }
  assert (Hsl : forall a, slot_live (nsec (d_length d)) a ->
    slot_sector (sv s2) d a = slot_sector (sv s1) d a).
  { intros a Ha. by apply (slot_sector_ext _ _ _ (nsec (d_length d))). }
  split.
  - by eapply frame_trans.
  - split; [by rewrite (frame_inodes _ _ Hf2)| |done|done|].
    + rewrite Hv2, decide_False by done. done.
    + rewrite (fr_size _ _ Hf2). by eapply file_wf_ext.
  - intros j Hj. pose proof (div512 j) as Hjm. specialize (B j Hj). unfold byte_at in *.
    set (kj := j / 512) in *. set (mj := j mod 512) in *. clearbody kj mj.
    assert (Hjl : slot_live (nsec (d_length d)) (Data kj)) by (simpl; lia).
    rewrite Hsl by done. destruct (decide (kj = k)) as [E|E].
    + subst kj. fold b in B |- *. rewrite Hv2, decide_True by done.
      rewrite (znth_zsplice _ _ _ _ _ Hnew), Hplen. destruct (decide (m <= mj < m + c)) as [D|D].
      * rewrite (znth_zslice _ _ _ _ _ Hpc) by lia. rewrite splice_byte_in by lia. do 2 f_equal. lia.
      * rewrite B. apply splice_byte_extend; lia.
    + rewrite Hother by (done || congruence). rewrite B. apply splice_byte_extend; lia.
  - intros a Ha. rewrite Hsl by done. by apply L.
  - intros q Hq. rewrite Hv2, decide_False; [by apply X|]. unfold b. rewrite (L _ Hk).
    by apply Hq.
Qed.

(** The loop of [inode_write_at]. *)
Lemma write_loop_spec other s p i d buffer size off : fs_inv s -> open_file other s p i d ->
  0 <= size -> 0 <= off -> off + size <= INODE_SPAN -> off + size <= 512 * nsec (d_length d) ->
  size <= zlen buffer -> Forall is_u8 buffer ->
  mwp (mloop (S (Z.to_nat size)) (write_body malloc_ok p buffer) (size, off, 0)) s
    (fun r s' => r = size /\ stored other s s' p i d buffer off size).
Proof.
  intros Hi Hof Hs Ho Hsp He Hl Hu. change INODE_SPAN with 8517120 in *.
  apply mloop_wp with
    (I := fun '(sz, o, bw) s' => 0 <= bw <= size /\ sz = size - bw /\ o = off + bw /\
       stored other s s' p i d buffer off bw)
    (meas := fun '(sz, _, _) => Z.to_nat sz); [..|lia].
  2: { split_and!; try lia. by apply stored_refl. }
  intros [[sz o] n] s1 (Hn & -> & -> & Hst). cbn [write_body].
  destruct (Z.ltb_spec 0 (size - n)).
  2: { wp_step. assert (n = size) as <- by lia. done. }
  assert (Hi1 : fs_inv s1) by apply Hst.
  wp_step. eapply rd_kalloc_unchecked; [done|by apply reads_refl|]. intros s2 Hr2.
  pose proof (stored_reads _ _ _ _ _ _ _ _ _ _ Hst Hr2) as Hst2.
  rewrite chunk_of_eq by lia. change INODE_SPAN with 8517120.
  pose proof (div512 (off + n)) as [_ Hm].
  remember (Z.min (size - n) _) as c eqn:Hc. destruct (Z.leb_spec c 0); [lia|].
  assert (Hi2 : fs_inv s2) by apply Hr2.
  pose proof (of_wf _ _ _ _ _ (st_open _ _ _ _ _ _ _ _ _ Hst2)) as Hwf2.
  wp_step. eapply (rd_get_data_block malloc_ok Hmalloc other s2 p i d);
    [by apply Hst2|by apply reads_refl|lia|by right|].
  intros s3 Hr3. cbn [negb].
  assert (Hb : 0 <= block_of (sv s2) d ((off + n) / 512) < ssize s2).
  { apply (wf_slot _ _ _ _ _ _ Hwf2 (Data _)). simpl. dlia. }
  destruct (s32_block _ _ Hb (inv_size _ Hi2)) as [_ Hub]. rewrite Hub.
  wp_step. eapply rd_read; [done|done|]. intros s4 Hr4.
  pose proof (stored_reads _ _ _ _ _ _ _ _ _ _ Hst2 Hr4) as Hst4.
  assert (E4 : sv s4 = sv s2) by (apply functional_extensionality; apply Hr4).
  pose proof (sv_len _ _ Hi2 Hb) as Hlen.
  wp_step. wp_step. eapply wp_deref; [apply zslice_Some; lia|].
  set (piece := take _ _). assert (Hpiece : zslice buffer n c = Some piece) by (apply zslice_Some; lia).
  pose proof (zslice_len _ _ _ _ Hpiece) as Hplen.
  wp_step. wp_step. eapply wp_deref; [apply zsplice_Some; lia|]. set (new := take _ _ ++ _).
  wp_step. rewrite <- E4. eapply store_chunk with (c := c); [exact Hst4|lia|lia|lia|lia|lia|done|exact Hpiece| |].
  { rewrite E4. apply zsplice_Some; lia. }
  intros s5 Hst5. wp_step. split; [|lia]. rewrite s32_small by (unfold is_s32; lia).
  split_and!; (lia || done).
Qed.

(** ** The locks of [inode_write_at] *)
Definition with_writer (n : Z) (i : inode) : inode :=
  Inode (i_sector i) (open_cnt i) (removed i) (i_lock i) None (deny_write_cnt i) (writer_cnt i + n).

Lemma acquire_deny_spec s p i (Q : unit -> fs St -> Prop) :
  inodes s !! p = Some i -> deny_write_lock i = None ->
  Q tt (set_inodes (<[p := set_deny_lock (Some me) i]> (inodes s)) s) ->
  mwp (acquire_deny me p) s Q.
Proof.
  intros Hp Hd HQ. unfold acquire_deny, mwp, mbind, M_bind, get_inode. rewrite Hp. simpl.
  unfold lift. rewrite Hd. simpl. exact HQ.
Qed.
Lemma release_deny_spec s p i (Q : unit -> fs St -> Prop) :
  inodes s !! p = Some i -> deny_write_lock i = Some me ->
  Q tt (set_inodes (<[p := set_deny_lock None i]> (inodes s)) s) ->
  mwp (release_deny me p) s Q.
Proof.
  intros Hp Hd HQ. unfold release_deny, mwp, mbind, M_bind, get_inode. rewrite Hp. simpl.
  unfold lift, lock_release, lock_held. rewrite Hd. rewrite bool_decide_eq_true_2 by done. exact HQ.
Qed.
Lemma add_writer_spec s p i n (Q : unit -> fs St -> Prop) : inodes s !! p = Some i ->
  Q tt (set_inodes (<[p := Inode (i_sector i) (open_cnt i) (removed i) (i_lock i)
     (deny_write_lock i) (deny_write_cnt i) (writer_cnt i + n)]> (inodes s)) s) ->
  mwp (add_writer p n) s Q.
Proof.
  intros Hp HQ. unfold add_writer, mwp, mbind, M_bind, get_inode. rewrite Hp. exact HQ.
Qed.
Lemma set_inodes_twice x y s : set_inodes x (set_inodes y s) = set_inodes x s.
Proof. done. Qed.

Lemma inode_write_at_denied alloc s p i buffer size off (Q : Z -> fs St -> Prop) :
  inodes s !! p = Some i -> deny_write_lock i = None -> deny_write_cnt i <> 0 -> Q 0 s ->
  mwp (inode_write_at malloc_ok me alloc p buffer size off) s Q.
Proof.
  intros Hp Hd Hc HQ. unfold inode_write_at. wp_step. eapply acquire_deny_spec; [done|done|].
  wp_step. eapply mwp_mono; [apply get_inode_spec, lookup_insert_eq|]. intros ? ? [-> ->].
  cbn [deny_write_cnt set_deny_lock]. destruct (Z.eqb_spec (deny_write_cnt i) 0); [done|]. cbn [negb].
  wp_step. eapply release_deny_spec; [apply lookup_insert_eq|done|]. wp_step.
  cbn [inodes set_inodes]. rewrite set_inodes_twice, insert_insert_eq.
  replace (set_deny_lock None (set_deny_lock (Some me) i)) with i
    by (destruct i; simpl in *; by subst).
  rewrite insert_id by done. by destruct s.
Qed.
(** What happens between the two critical sections. *)
Lemma inode_write_at_bracket alloc s p i buffer size off (Q : Z -> fs St -> Prop) :
  inodes s !! p = Some i -> deny_write_lock i = None -> deny_write_cnt i = 0 ->
  mwp (_ ← extend_file malloc_ok alloc (Some p) (s32 (off + size)) None;
       _ ← kalloc_unchecked malloc_ok;
       mloop (S (Z.to_nat size)) (write_body malloc_ok p buffer) (size, off, 0))
    (set_inodes (<[p := with_writer 1 i]> (inodes s)) s)
    (fun r s1 => inodes s1 = <[p := with_writer 1 i]> (inodes s) /\ Q r (set_inodes (inodes s) s1)) ->
  mwp (inode_write_at malloc_ok me alloc p buffer size off) s Q.
Proof.
  intros Hp Hd Hc Hbody. unfold inode_write_at. wp_step. eapply acquire_deny_spec; [done|done|].
  wp_step. eapply mwp_mono; [apply get_inode_spec, lookup_insert_eq|]. intros ? ? [-> ->].
  cbn [deny_write_cnt set_deny_lock]. destruct (Z.eqb_spec (deny_write_cnt i) 0); [|done]. cbn [negb].
  wp_step. eapply add_writer_spec; [apply lookup_insert_eq|].
  wp_step. eapply release_deny_spec; [apply lookup_insert_eq|done|].
  cbn [inodes set_inodes]. rewrite !set_inodes_twice, !insert_insert_eq. cbn -[mloop write_body extend_file].
  change (set_deny_lock None _) with (with_writer 1 i).
  apply mwp_bind_inv in Hbody. wp_step. eapply mwp_mono; [exact Hbody|]. intros r1 s1 Hb1.
  apply mwp_bind_inv in Hb1. wp_step. eapply mwp_mono; [exact Hb1|]. intros r2 s2 Hb2.
  wp_step. eapply mwp_mono; [exact Hb2|]. intros r s3 [Hi HQ].
  wp_step. eapply acquire_deny_spec; [by rewrite Hi; apply lookup_insert_eq|done|].
  wp_step. eapply add_writer_spec; [apply lookup_insert_eq|].
  wp_step. eapply release_deny_spec; [apply lookup_insert_eq|done|].
  cbn [inodes set_inodes]. rewrite !set_inodes_twice, !insert_insert_eq, Hi, insert_insert_eq.
  wp_step. rewrite insert_id; [done|]. rewrite Hp. f_equal. destruct i; simpl in *. subst.
  unfold set_deny_lock; simpl. f_equal. lia.
Qed.

(** Changing the in-memory inodes. *)
Lemma fs_inv_set_inodes s x : fs_inv s -> fs_inv (set_inodes x s).
Proof. intros [? ? ?]. by split. Qed.
Lemma open_file_set_inodes other s p i i' d x : open_file other s p i d ->
  x !! p = Some i' -> i_sector i' = i_sector i -> open_file other (set_inodes x s) p i' d.
Proof. intros [Hp Hd Hm Hl Hw] Hx E. split; rewrite ?E; done. Qed.
Lemma frame_set_inodes s s1 x : inodes s1 = x -> frame (set_inodes x s) s1 ->
  frame s (set_inodes (inodes s) s1).
Proof.
  intros Hx [E I Z]. split; [|by apply fs_inv_set_inodes|done].
  rewrite E at 1. simpl. by rewrite E.
Qed.
Lemma stored_set_inodes other s s1 p i i' d buffer off n :
  inodes s !! p = Some i -> i_sector i' = i_sector i ->
  stored other (set_inodes (<[p := i']> (inodes s)) s) s1 p i' d buffer off n ->
  stored other s (set_inodes (inodes s) s1) p i d buffer off n.
Proof.
  intros Hp E [F O B L X]. pose proof (frame_inodes _ _ F) as Hi. split; try done.
  - by apply (frame_set_inodes _ _ (<[p := i']> (inodes s))).
  - eapply open_file_set_inodes; [done|done|done].
Qed.

(** ** Within the file's length: no sector is allocated *)
Lemma extend_file_noop alloc other s p i d L : fs_inv s -> open_file other s p i d ->
  0 <= L <= d_length d ->
  mwp (extend_file malloc_ok alloc (Some p) L None) s
    (fun r s' => r = (true, None) /\ reads s s').
Proof.
  intros Hi Hof HL. pose proof (of_length _ _ _ _ _ Hof) as Hlen.
  pose proof (nsec_mono L (d_length d) ltac:(lia)).
  unfold extend_file. destruct (Z.ltb_spec INODE_SPAN L); [lia|]. destruct (Z.ltb_spec L 0); [lia|].
  cbn [orb]. wp_step. wp_step. eapply rd_kalloc; [done|by apply reads_refl|]. intros s1 Hr1.
  wp_step. wp_step. eapply wp_deref; [done|]. wp_step. eapply rd_get_inode; [done|apply Hof|].
  wp_step. eapply rd_inode_disk; [done|done|]. intros s2 Hr2. wp_step.
  rewrite !quot_nsec by lia. destruct (Z.eqb_spec (d_length d) (-1)); [lia|]. cbn [negb andb].
  destruct (Z.leb_spec (nsec L - 1) (nsec (d_length d) - 1)); [|lia].
  destruct (Z.ltb_spec (d_length d) L); [lia|]. rewrite andb_false_r.
  wp_step. wp_step. eapply wp_deref; [done|]. wp_step. eapply rd_get_inode; [done|apply Hof|].
  wp_step. wp_step. wp_step. done.
Qed.
Lemma inode_write_at_in_place alloc other s p i d buffer size off :
  fs_inv s -> open_file other s p i d -> deny_write_lock i = None -> deny_write_cnt i = 0 ->
  0 <= size -> 0 <= off -> off + size <= d_length d -> size <= zlen buffer -> Forall is_u8 buffer ->
  mwp (inode_write_at malloc_ok me alloc p buffer size off) s
    (fun r s' => r = size /\ stored other s s' p i d buffer off size).
Proof.
  intros Hi Hof Hl Hc Hs Ho He Hb Hu. pose proof (of_inode _ _ _ _ _ Hof) as Hp.
  pose proof (of_length _ _ _ _ _ Hof) as Hlen. pose proof (nsec_bounds _ Hlen) as [_ Hsec].
  apply inode_write_at_bracket with (i := i); [done|done|done|].
  pose proof (fs_inv_set_inodes _ (<[p := with_writer 1 i]> (inodes s)) Hi) as Hia.
  pose proof (open_file_set_inodes _ _ _ _ (with_writer 1 i) _ (<[p := with_writer 1 i]> (inodes s))
    Hof (lookup_insert_eq _ _ _) eq_refl) as Hofa.
  set (sa := set_inodes _ s) in *. change INODE_SPAN with 8517120 in Hlen.
  rewrite s32_small by (unfold is_s32; lia).
  wp_step. eapply mwp_mono; [eapply extend_file_noop; [done|done|lia]|]. intros r1 s1 [_ Hr1].
  wp_step. eapply rd_kalloc_unchecked; [done|done|]. intros s2 Hr2.
  pose proof (stored_reads _ _ _ _ _ _ _ _ _ _
    (stored_refl _ _ _ _ _ buffer off Hia Hofa) Hr2) as Hst.
  eapply mwp_mono; [eapply (write_loop_spec other s2 p (with_writer 1 i) d); try done|].
  - apply Hr2.
  - apply Hst.
  - change INODE_SPAN with 8517120. lia.
  - lia.
  - intros r s3 [-> Hst3]. split.
    + rewrite (frame_inodes _ _ (st_frame _ _ _ _ _ _ _ _ _ Hst3)).
      by rewrite (frame_inodes _ _ (proj1 Hr2)).
    + split; [done|]. apply (stored_set_inodes other s s3 p i (with_writer 1 i)); [done|done|].
      fold sa. destruct Hst3 as [F3 O3 B3 L3 X3].
      assert (E : sv s2 = sv sa) by (apply functional_extensionality; apply Hr2).
      rewrite E in *. split; try done. eapply frame_trans; [apply Hr2|done].
Qed.
End in_place.

Section writing.
Context {St : Type} `{sector_store_ok St} {alloc : M (fs St) (option Z)}
  {release : Z -> M (fs St) unit} `{!allocator_ok alloc release}.
Implicit Types (s : fs St).
Abbreviation free s := (al_free (alloc := alloc) (release := release) (free_map s)).
Abbreviation meta := (al_meta (alloc := alloc) (release := release)).
Abbreviation al_inv := (al_inv (alloc := alloc) (release := release)).
Abbreviation taken := (taken (alloc := alloc) (release := release)).
Abbreviation step_post := (step_post (alloc := alloc) (release := release)).

(** ** Growing from [n] to [m] data sectors *)
Fixpoint grow_cost (n : Z) (cnt : nat) : Z :=
  match cnt with O => 0 | S cnt' => ext_cost n + grow_cost (n + 1) cnt' end.
Record extended s s' d d' n m isec : Prop := Extended {
  ex_frame : aframe s s';
  ex_al : al_inv s';
  ex_wf : file_wf (ssize s') (taken s') (sv s') d' m isec;
  ex_header : same_header d d';
  ex_slots : forall a, slot_live n a -> slot_sector (sv s') d' a = slot_sector (sv s) d a;
  ex_new : forall a, slot_live m a -> ~ slot_live n a -> taken s (slot_sector (sv s') d' a);
  ex_old : forall k, 0 <= k < n -> sv s' (block_of (sv s) d k) = sv s (block_of (sv s) d k);
  ex_zero : forall k, n <= k < m -> sv s' (block_of (sv s') d' k) = zero_sector;
  ex_taken : forall q, taken s' q -> taken s q;
  ex_others : forall q, ~ taken s q -> ~ table_of (sv s) d n q -> sv s' q = sv s q;
}.
Lemma extended_refl s d n isec : fs_inv s -> al_inv s ->
  file_wf (ssize s) (taken s) (sv s) d n isec -> extended s s d d n n isec.
Proof. intros. split; try done; [by apply aframe_refl|lia]. Qed.
Lemma table_not_data size other v d n isec k : file_wf size other v d n isec ->
  0 <= k < n -> ~ table_of v d n (block_of v d k).
Proof.
  intros Hwf Hk (a & Ha & Ht & E). apply (wf_inj _ _ _ _ _ _ Hwf) in E; [|done|done].
  subst a. naive_solver.
Qed.
Lemma extended_trans s1 s2 s3 d1 d2 d3 n1 n2 n3 isec : 0 <= n1 <= n2 -> n2 <= n3 ->
  file_wf (ssize s1) (taken s1) (sv s1) d1 n1 isec ->
  extended s1 s2 d1 d2 n1 n2 isec -> extended s2 s3 d2 d3 n2 n3 isec ->
  extended s1 s3 d1 d3 n1 n3 isec.
Proof.
  intros Hn1 Hn2 Hwf1 [F1 A1 W1 H1 S1 N1 O1 Z1 T1 X1] [F2 A2 W2 H2 S2 N2 O2 Z2 T2 X2].
  assert (Htab : forall q, ~ taken s1 q -> ~ table_of (sv s1) d1 n1 q -> ~ table_of (sv s2) d2 n2 q).
  { intros q Hq Hnt (a & Ha & Hk & ->).
    destruct (slot_dec_live n1 a) as [Hl|Hl].
    - apply Hnt. exists a. split_and!; [done|done|by apply S1].
    - by apply Hq, N1. }
  split; [by eapply aframe_trans|done|done|by eapply same_header_trans|..].
  - intros a Ha. rewrite S2 by (apply (slot_live_mono n1); [lia|done]). by apply S1.
  - intros a Ha Hn. destruct (slot_dec_live n2 a) as [Hl|Hl].
    + rewrite S2 by done. by apply N1.
    + apply T1. by apply N2.
  - intros k Hk. rewrite <- (O1 k Hk). rewrite <- (S1 (Data k) Hk). apply O2. lia.
  - intros k Hk. destruct (decide (k < n2)).
    + rewrite (S2 (Data k)) by (simpl; lia). rewrite O2 by lia. apply Z1. lia.
    + apply Z2. lia.
  - auto.
  - intros q Hq Hnt. rewrite X2; [by apply X1|auto|by apply Htab].
Qed.

Lemma step_extended s d n isec s' F f d' : al_inv s -> 0 <= n ->
  file_wf (ssize s) (taken s) (sv s) d n isec ->
  step_post s d n isec s' F f d' -> extended s s' d d' n (n + 1) isec.
Proof.
  intros Hal Hn Hwf [Hg Hc Hwf' Hh Hs Hz Htk Hfr].
  assert (Hsv : forall a, slot_live (n + 1) a -> sv s' (slot_sector f d' a) = f (slot_sector f d' a)).
  { intros a Ha. apply (gr_view _ _ _ _ Hg). intros Hm.
    apply (wf_slot _ _ _ _ _ _ Hwf' a Ha). by left. }
  assert (Hsl : forall a, slot_live (n + 1) a -> slot_sector (sv s') d' a = slot_sector f d' a).
  { intros a Ha. apply (slot_sector_ext f (sv s') d' (n + 1)); [apply Hwf'|done|]. auto. }
  assert (HF : forall q, ~ taken s q -> q ∉ F).
  { intros q Hq Hin. apply Hq. right. by apply (gr_fresh _ _ _ _ Hg). }
  assert (Hlive : forall a, slot_live n a -> slot_live (n + 1) a) by (intros; apply (slot_live_mono n); [lia|done]).
  split; try done.
  - apply Hg.
  - apply Hg.
  - rewrite (af_size _ _ (gr_frame _ _ _ _ Hg)). eapply file_wf_ext; [done|]. auto.
  - intros a Ha. rewrite Hsl by auto. by apply Hs.
  - intros a Ha Hna. rewrite Hsl by done. apply Htk.
    apply slot_live_new in Ha; [tauto|done].
  - intros k Hk. pose proof (wf_slot _ _ _ _ _ _ Hwf (Data k) Hk) as (_ & _ & Ho).
    rewrite (gr_view _ _ _ _ Hg) by (intros ?; apply Ho; by left).
    apply Hfr; [by apply HF|]. by eapply table_not_data.
  - intros k Hk. assert (k = n) as -> by lia. rewrite Hsl, Hsv, Hz by (simpl; lia). done.
  - by eapply taken_sub.
  - intros q Hq Hnt. rewrite (gr_view _ _ _ _ Hg) by (intros ?; apply Hq; by left). auto.
Qed.
Lemma step_free s d n isec s' F f d' : step_post s d n isec s' F f d' ->
  Z.of_nat (size (free s')) = Z.of_nat (size (free s)) - ext_cost n.
Proof.
  intros Hsp. destruct (gr_size _ _ _ _ (sp_grown _ _ _ _ _ _ _ _ Hsp)) as [-> ?].
  pose proof (sp_cost _ _ _ _ _ _ _ _ Hsp). unfold zlen in *. lia.
Qed.
Lemma extend_loop_spec cnt : forall fuel s d n isec last_new,
  fs_inv s -> al_inv s -> file_wf (ssize s) (taken s) (sv s) d n isec ->
  grow_cost n cnt <= Z.of_nat (size (free s)) -> n + Z.of_nat cnt <= 16635 ->
  last_new = n + Z.of_nat cnt - 1 -> (cnt < fuel)%nat ->
  mwp (mloop fuel (extend_body alloc last_new) (n, d)) s
    (fun r s' => r.1 = true /\ extended s s' d r.2 n (n + Z.of_nat cnt) isec /\
       Z.of_nat (size (free s')) = Z.of_nat (size (free s)) - grow_cost n cnt).
Proof.
  induction cnt as [|cnt IH]; intros fuel s d n isec last_new Hi Hal Hwf Hc Hn -> Hf;
    (destruct fuel as [|fuel]; [lia|]); apply mloop_step; unfold extend_body at 1.
  - destruct (Z.leb_spec n (n + Z.of_nat 0 - 1)); [lia|]. wp_step. split; [done|].
    replace (n + Z.of_nat 0) with n by lia. split; [by apply extended_refl|cbn [grow_cost]; lia].
  - pose proof (wf_n _ _ _ _ _ _ Hwf). cbn [grow_cost] in *.
    assert (Hpos : forall m c, 0 <= grow_cost m c).
    { intros m c. revert m. induction c as [|c IHc]; intros m; simpl; [lia|].
      pose proof (ext_cost_pos m). specialize (IHc (m + 1)). lia. }
    specialize (Hpos (n + 1) cnt). destruct (Z.leb_spec n (n + Z.of_nat (S cnt) - 1)); [|lia].
    wp_step. eapply mwp_mono; [apply (extend_step_spec s d n isec); (done || lia)|].
    intros [ok d'] s1 (Eok & F & f & Hsp). simpl in Eok. subst ok. wp_step. cbn [snd] in *.
    pose proof (step_extended s d n isec s1 F f d' Hal ltac:(lia) Hwf Hsp) as Hex.
    pose proof (step_free _ _ _ _ _ _ _ _ Hsp) as Hfree.
    rewrite u32_small by (unfold is_u32; lia).
    eapply mwp_mono; [apply (IH fuel s1 d' (n + 1) isec); try lia; try apply Hex|].
    intros [ok d2] s2 (-> & Hex2 & Hfree2). split; [done|]. cbn [snd] in *. split; [|lia].
    replace (n + Z.of_nat (S cnt)) with (n + 1 + Z.of_nat cnt) by lia.
    eapply extended_trans; [..|done|done]; [lia|lia|done].
Qed.

(** ** [extend_file] on an open file *)
(** The sectors of the file: its inode, tables and data. *)
Definition owns (v : Z -> list Z) d n isec (q : Z) : Prop :=
  q = isec \/ exists a, slot_live n a /\ q = slot_sector v d a.
Record resized s s' p i d d' : Prop := Resized {
  rs_frame : aframe s s';
  rs_al : al_inv s';
  rs_open : open_file (taken s') s' p i d';
  rs_type : d_type d' = d_type d;
  rs_grow : nsec (d_length d) <= nsec (d_length d');
  rs_bytes : forall j, 0 <= j < 512 * nsec (d_length d) ->
    byte_at (sv s') d' j = byte_at (sv s) d j;
  rs_zero : forall j, 512 * nsec (d_length d) <= j < 512 * nsec (d_length d') ->
    byte_at (sv s') d' j = 0;
  rs_owns : forall q, owns (sv s') d' (nsec (d_length d')) (i_sector i) q ->
    owns (sv s) d (nsec (d_length d)) (i_sector i) q \/ taken s q;
  rs_taken : forall q, taken s' q -> taken s q;
  rs_others : forall q, ~ taken s q -> ~ owns (sv s) d (nsec (d_length d)) (i_sector i) q ->
    sv s' q = sv s q;
}.
Lemma resized_refl s p i d : fs_inv s -> al_inv s -> open_file (taken s) s p i d ->
  resized s s p i d d.
Proof. intros. split; try done; [by apply aframe_refl|lia|auto]. Qed.
Lemma decode_inode_u32 bs : zlen bs = 512 -> Forall is_u8 bs -> is_u32 (d_type (decode_inode bs)).
Proof.
  intros Hl Hu. unfold decode_inode. cbn [d_type].
  pose proof (decode_ptrs_u32 bs Hl Hu) as HF. unfold decode_ptrs in HF.
  destruct (bytes_words 128 bs) as [|w ws]; simpl; [unfold is_u32; lia|].
  by apply Forall_cons_1 in HF as [? _].
Qed.
Lemma slot_sector_header v d d' a : d_sectors d' = d_sectors d ->
  slot_sector v d' a = slot_sector v d a.
Proof. intros E. destruct a; simpl; unfold tab; by rewrite E. Qed.
Lemma file_wf_header size other v d d' n isec : d_sectors d' = d_sectors d ->
  file_wf size other v d n isec -> file_wf size other v d' n isec.
Proof.
  intros E [Wl Wu Wn Wi Ws Wj]. split; rewrite ?E; try done.
  - intros a Ha. rewrite (slot_sector_header v d d') by done. by apply Ws.
  - intros a b. rewrite !(slot_sector_header v d d') by done. apply Wj.
Qed.

(** Writing the inode back after growing in memory. *)
Lemma write_back s s1 p i d d1 n m L : fs_inv s -> open_file (taken s) s p i d ->
  n = nsec (d_length d) -> extended s s1 d d1 n m (i_sector i) ->
  m = nsec L -> n <= m -> 0 <= L <= INODE_SPAN ->
  mwp (write_inode (i_sector i) (set_length L d1)) s1 (fun _ s' =>
    resized s s' p i d (set_length L d1) /\ free_map s' = free_map s1).
Proof.
  intros Hi Hof -> Hex -> Hnm HL. pose proof Hof as [Hp Hd Hmg Hlen Hwf].
  destruct Hex as [Fr Al Wf Hh Hs Hn Ho Hz Ht Hx]. pose proof Wf as [Wl Wu Wn [Wi1 Wi2] Ws Wj].
  pose proof (af_inv _ _ Fr) as Hi1.
  unfold write_inode. eapply mwp_mono.
  { apply fs_write_spec; [done|done|by apply encode_inode_len|apply words_bytes_u8]. }
  intros _ s' [Hfr Hv]. destruct (frame_aframe _ _ Hfr) as [Hfr' Hfm].
  destruct Hh as (Ht1 & Hl1 & Hm1). pose proof (nsec_bounds _ Hlen) as [Hn0 _].
  assert (Htk : forall q, taken s' q <-> taken s1 q) by (intros; unfold taken; by rewrite Hfm).
  assert (Hdata : forall a, slot_live (nsec L) a ->
    sv s' (slot_sector (sv s1) d1 a) = sv s1 (slot_sector (sv s1) d1 a)).
  { intros a Ha. rewrite Hv, decide_False; [done|]. by apply Ws. }
  assert (Hsl : forall a, slot_live (nsec L) a ->
    slot_sector (sv s') (set_length L d1) a = slot_sector (sv s1) d1 a).
  { intros a Ha. rewrite (slot_sector_header _ d1) by done.
    apply (slot_sector_ext _ _ _ (nsec L)); [done|done|]. intros b _ Hb. by apply Hdata. }
  assert (Hba : forall j, 0 <= j < 512 * nsec L ->
    byte_at (sv s') (set_length L d1) j = byte_at (sv s1) d1 j).
  { intros j Hj. unfold byte_at. rewrite Hsl, Hdata by (simpl; dlia). done. }
  split; [|done]. split.
  - by eapply aframe_trans.
  - eapply al_stable; [done|done|]. intros q Hq. rewrite Hv, decide_False; [done|].
    intros ->. apply Wi2. by left.
  - split; [by rewrite (aframe_inodes _ _ Hfr'), (aframe_inodes _ _ Fr)|..]; cbn [d_length set_length].
    + rewrite Hv, decide_True by done. apply decode_encode; cbn; try done.
      * rewrite Ht1, <- Hd. apply decode_inode_u32; [apply sv_len|apply inv_bytes]; try done;
          by rewrite <- (af_size _ _ Fr).
      * unfold is_s32. change INODE_SPAN with 8517120 in HL. lia.
      * rewrite Hm1, Hmg. done.
    + by rewrite <- Hmg.
    + done.
    + rewrite (fr_size _ _ Hfr). apply (file_wf_header _ _ _ d1); [done|].
      eapply file_wf_ext; [|intros b _ Hb; by apply Hdata].
      destruct Wf. split; try done.
      * by rewrite Htk.
      * intros a Ha. rewrite Htk. by apply Ws.
  - done.
  - done.
  - cbn [d_length set_length]. intros j Hj. rewrite Hba by lia. unfold byte_at. rewrite Hs by (simpl; dlia).
    rewrite Ho by dlia. done.
  - cbn [d_length set_length]. intros j Hj. rewrite Hba by dlia. unfold byte_at. rewrite Hz by dlia.
    unfold zero_sector, znth. case_decide; [|done].
    rewrite lookup_replicate_2; [done|]. dlia.
  - cbn [d_length set_length]. intros q [->|(a & Ha & ->)]; [by left; left|].
    rewrite Hsl by done. destruct (slot_dec_live (nsec (d_length d)) a) as [Hl|Hl].
    + left. right. exists a. split; [done|by apply Hs].
    + right. by apply Hn.
  - intros q Hq. by apply Ht, Htk.
  - intros q Hq Hno. rewrite Hv, decide_False; [|by intros ->; apply Hno; left].
    apply Hx; [done|]. intros (a & Ha & _ & ->). apply Hno. right. by exists a.
Qed.

(** Code that only reads changes none of this. *)
Record same_fs s s1 : Prop := SameFs {
  sf_sv : sv s1 = sv s; sf_size : ssize s1 = ssize s; sf_map : free_map s1 = free_map s;
  sf_inodes : inodes s1 = inodes s; sf_frame : aframe s s1; sf_al : al_inv s1;
}.
Lemma reads_same s s1 : al_inv s -> reads s s1 -> same_fs s s1.
Proof.
  intros Hal [Hf Hv]. destruct (frame_aframe _ _ Hf) as [Ha Hm].
  split; [|apply Hf|done|by apply aframe_inodes|done|].
  - by apply functional_extensionality.
  - eapply al_stable; [done|done|]. auto.
Qed.
Lemma open_file_same s s1 p i d : same_fs s s1 -> open_file (taken s) s p i d ->
  open_file (taken s1) s1 p i d.
Proof.
  intros [Hv Hz Hm Hi _ _] [Hp Hd Hmg Hl Hwf]. unfold taken, InodeGrow.taken in *.
  split; rewrite ?Hv, ?Hz, ?Hm, ?Hi; done.
Qed.
Lemma resized_same s s1 s' p i d d' : same_fs s s1 -> resized s1 s' p i d d' ->
  resized s s' p i d d'.
Proof.
  intros [Hv Hz Hm Hi Hf _] [F A O T G B Z W K X]. unfold taken, InodeGrow.taken in *.
  rewrite Hv, Hm in *. split; try done. by eapply aframe_trans.
Qed.
Lemma resized_trans_same s s1 s' p i d d' : resized s s1 p i d d' -> same_fs s1 s' ->
  resized s s' p i d d'.
Proof.
  intros [F A O T G B Z W K X] Hs. pose proof (open_file_same _ _ _ _ _ Hs O).
  destruct Hs as [Hv Hz Hm Hi Hf Ha]. unfold taken, InodeGrow.taken in *.
  split; rewrite ?Hv, ?Hm; try done; [by eapply aframe_trans|].
  intros q. unfold InodeGrow.taken. rewrite Hm. apply K.
Qed.

Variable malloc_ok : nat -> bool.
Hypothesis Hmalloc : forall n, malloc_ok n = true.

(** Sectors taken by growing a file from [L] to [L'] bytes. *)
Definition cost_to (L L' : Z) : Z := grow_cost (nsec L) (Z.to_nat (nsec L' - nsec L)).

Lemma extend_file_spec s p i d L : fs_inv s -> al_inv s -> open_file (taken s) s p i d ->
  0 <= L <= INODE_SPAN -> cost_to (d_length d) L <= Z.of_nat (size (free s)) ->
  mwp (extend_file malloc_ok alloc (Some p) L None) s (fun r s' => r = (true, None) /\
    exists d', resized s s' p i d d' /\ d_length d' = Z.max (d_length d) L /\
      Z.of_nat (size (free s')) = Z.of_nat (size (free s)) - cost_to (d_length d) L).
Proof.
  intros Hi Hal Hof HL Hc. pose proof (of_length _ _ _ _ _ Hof) as Hlen.
  pose proof (nsec_bounds _ HL) as [HN1 _]. pose proof (nsec_bounds _ Hlen) as [HN2 _].
  unfold extend_file. destruct (Z.ltb_spec INODE_SPAN L); [lia|]. destruct (Z.ltb_spec L 0); [lia|].
  cbn [orb]. wp_step. wp_step. eapply rd_kalloc; [done|by apply reads_refl|]. intros s1 Hr1.
  wp_step. wp_step. eapply wp_deref; [done|]. wp_step. eapply rd_get_inode; [done|apply Hof|].
  wp_step. eapply rd_inode_disk; [done|done|]. intros s2 Hr2. wp_step.
  rewrite !quot_nsec by done. destruct (Z.eqb_spec (d_length d) (-1)); [lia|]. cbn [negb andb].
  assert (Hgrow0 : nsec L <= nsec (d_length d) -> cost_to (d_length d) L = 0).
  { intros. unfold cost_to. by replace (Z.to_nat (nsec L - nsec (d_length d))) with 0%nat by lia. }
  pose proof (reads_same _ _ Hal Hr2) as Hs2. pose proof (open_file_same _ _ _ _ _ Hs2 Hof) as Hof2.
  assert (Hi2 : fs_inv s2) by apply Hr2.
  destruct (Z.leb_spec (nsec L - 1) (nsec (d_length d) - 1)).
  - rewrite Hgrow0 by lia. wp_step. wp_step. eapply wp_deref; [done|]. wp_step. eapply rd_get_inode; [done|apply Hof|].
    destruct (Z.eqb_spec (nsec L - 1) (nsec (d_length d) - 1)), (Z.ltb_spec (d_length d) L); cbn [andb].
    + wp_step. eapply mwp_mono.
      { apply (write_back s2 s2 p i d d (nsec (d_length d)) (nsec (d_length d)) L); try done; try lia.
        apply extended_refl; [done|apply Hs2|apply Hof2]. }
      intros [] s3 [Hrs Hfm]. wp_step. split; [done|]. eexists. split; [by eapply resized_same|].
      cbn [d_length set_length]. rewrite Hfm, (sf_map _ _ Hs2). lia.
    + wp_step. wp_step. wp_step. split; [done|]. exists d. split.
      { eapply resized_same; [done|]. apply resized_refl; [done|apply Hs2|done]. }
      rewrite (sf_map _ _ Hs2). lia.
    + exfalso. pose proof (nsec_mono (d_length d) L ltac:(lia)). lia.
    + wp_step. wp_step. wp_step. split; [done|]. exists d. split.
      { eapply resized_same; [done|]. apply resized_refl; [done|apply Hs2|done]. }
      rewrite (sf_map _ _ Hs2). lia.
  - assert (Hlt : d_length d < L).
    { destruct (Z.lt_ge_cases (d_length d) L) as [?|Hge]; [done|].
      pose proof (nsec_mono L (d_length d) Hge). lia. }
    rewrite u32_small by (unfold is_u32; lia). rewrite Z.sub_add.
    wp_step. eapply rd_kalloc_unchecked; [done|done|]. intros s3 Hr3. wp_step.
    pose proof (reads_same _ _ Hal Hr3) as Hs3. pose proof (open_file_same _ _ _ _ _ Hs3 Hof) as Hof3.
    assert (Hi3 : fs_inv s3) by apply Hr3.
    set (cnt := Z.to_nat (nsec L - nsec (d_length d))) in *.
    eapply mwp_mono; [eapply (extend_loop_spec cnt _ s3 d (nsec (d_length d)) (i_sector i))|].
    + done.
    + apply Hs3.
    + apply Hof3.
    + by rewrite (sf_map _ _ Hs3).
    + lia.
    + lia.
    + lia.
    + intros [ok d1] s4 (Eok & Hex & Hfree). simpl in Eok. subst ok. cbn [snd negb] in *.
      replace (nsec (d_length d) + Z.of_nat cnt) with (nsec L) in Hex by lia.
      wp_step. wp_step. eapply wp_deref; [done|]. wp_step.
      eapply mwp_mono; [apply (get_inode_spec s4 p i)|].
      { rewrite (aframe_inodes _ _ (ex_frame _ _ _ _ _ _ _ Hex)). apply Hof3. }
      intros ? ? [-> ->]. wp_step.
      eapply mwp_mono; [eapply (write_back s3 s4 p i d d1); try done; lia|].
      intros [] s5 [Hrs Hfm]. wp_step. split; [done|]. eexists. split; [by eapply resized_same|].
      cbn [d_length set_length]. rewrite Hfm, Hfree, (sf_map _ _ Hs3). unfold cost_to. fold cnt. lia.
Qed.

(** ** [inode_write_at] with growth *)
Variable me : Z.
Record written s s' p i d d' buffer off n : Prop := Written {
  wr_frame : aframe s s';
  wr_al : al_inv s';
  wr_open : open_file (taken s') s' p i d';
  wr_type : d_type d' = d_type d;
  wr_length : d_length d' = Z.max (d_length d) (off + n);
  wr_bytes : forall j, 0 <= j < 512 * nsec (d_length d') -> byte_at (sv s') d' j =
    splice_byte buffer off n j
      (if decide (j < 512 * nsec (d_length d)) then byte_at (sv s) d j else 0);
  wr_owns : forall q, owns (sv s') d' (nsec (d_length d')) (i_sector i) q ->
    owns (sv s) d (nsec (d_length d)) (i_sector i) q \/ taken s q;
  wr_others : forall q, ~ taken s q -> ~ owns (sv s) d (nsec (d_length d)) (i_sector i) q ->
    sv s' q = sv s q;
  wr_taken : forall q, taken s' q -> taken s q;
  wr_free : Z.of_nat (size (free s')) =
    Z.of_nat (size (free s)) - cost_to (d_length d) (off + n);
}.
Lemma taken_frame s s' : frame s s' -> taken s' = taken s.
Proof. intros Hf. unfold taken, InodeGrow.taken. by rewrite (proj2 (frame_aframe _ _ Hf)). Qed.
(** Growth, then the bytes. *)
Lemma written_intro s s1 s2 p i d d' buffer off n : 0 <= off -> 0 <= n ->
  0 <= d_length d <= INODE_SPAN ->
  resized s s1 p i d d' -> d_length d' = Z.max (d_length d) (off + n) ->
  Z.of_nat (size (free s1)) = Z.of_nat (size (free s)) - cost_to (d_length d) (off + n) ->
  stored (taken s1) s1 s2 p i d' buffer off n ->
  written s s2 p i d d' buffer off n.
Proof.
  intros Ho Hn HL [F A O T G B Z W K X] Hl Hfr [F2 O2 B2 L2 X2].
  pose proof (taken_frame _ _ F2) as Et. destruct (frame_aframe _ _ F2) as [Fa Em].
  pose proof (nsec_bounds _ (of_length _ _ _ _ _ O)) as [_ Hns].
  pose proof (of_wf _ _ _ _ _ O) as Wf.
  split; try done.
  - by eapply aframe_trans.
  - eapply al_stable; [done|done|]. intros q Hq. apply X2. intros k Hk ->.
    apply (wf_slot _ _ _ _ _ _ Wf (Data k) Hk). by left.
  - by rewrite Et.
  - intros j Hj. rewrite B2 by lia. f_equal. case_decide; [apply B; lia|apply Z; lia].
  - intros q Hq. apply W. destruct Hq as [->|(a & Ha & ->)]; [by left|]. right. exists a.
    split; [done|by apply L2].
  - intros q Hq Hno. rewrite X2; [by apply X|]. intros k Hk ->.
    destruct (W (block_of (sv s1) d' k)) as [?|?]; [|done..].
    right. by exists (Data k).
  - intros q. rewrite Et. apply K.
  - by rewrite Em.
Qed.
Lemma written_set_inodes s s1 p i i' d d' buffer off n :
  inodes s !! p = Some i -> i_sector i' = i_sector i ->
  ~ al_inode (alloc := alloc) (release := release) p ->
  written (set_inodes (<[p := i']> (inodes s)) s) s1 p i' d d' buffer off n ->
  written s (set_inodes (inodes s) s1) p i d d' buffer off n.
Proof.
  intros Hp E Hai [F A O T L B W X K Z]. pose proof (aframe_inodes _ _ F) as Ei. simpl in Ei.
  rewrite E in *. split; try done.
  - destruct F as [E1 I1 Z1]. split; [|by apply fs_inv_set_inodes|done].
    rewrite E1 at 1. simpl. by rewrite E1.
  - replace (inodes s) with (<[p := i]> (inodes s1)).
    + by apply al_put_inode.
    + rewrite Ei, insert_insert_eq. by apply insert_id.
  - by eapply open_file_set_inodes.
Qed.

Lemma inode_write_at_spec s p i d buffer size off :
  fs_inv s -> al_inv s -> ~ al_inode (alloc := alloc) (release := release) p ->
  open_file (taken s) s p i d -> deny_write_lock i = None -> deny_write_cnt i = 0 ->
  0 <= size -> 0 <= off -> off + size <= INODE_SPAN -> size <= zlen buffer -> Forall is_u8 buffer ->
  cost_to (d_length d) (off + size) <= Z.of_nat (stdpp.base.size (free s)) ->
  mwp (inode_write_at malloc_ok me alloc p buffer size off) s
    (fun r s' => r = size /\ exists d', written s s' p i d d' buffer off size).
Proof.
  intros Hi Hal Hai Hof Hl Hc Hs Ho He Hb Hu Hcost. pose proof (of_inode _ _ _ _ _ Hof) as Hp.
  pose proof (of_length _ _ _ _ _ Hof) as Hlen.
  apply inode_write_at_bracket with (i := i); [done|done|done|].
  pose proof (fs_inv_set_inodes _ (<[p := with_writer 1 i]> (inodes s)) Hi) as Hia.
  pose proof (open_file_set_inodes _ _ _ _ (with_writer 1 i) _ (<[p := with_writer 1 i]> (inodes s))
    Hof (lookup_insert_eq _ _ _) eq_refl) as Hofa.
  pose proof (al_put_inode s p (with_writer 1 i) Hal Hai) as Hala.
  set (sa := set_inodes _ s) in *.
  assert (Hs32 : s32 (off + size) = off + size)
    by (change INODE_SPAN with 8517120 in He; apply s32_small; unfold is_s32; lia).
  rewrite Hs32. wp_step.
  eapply mwp_mono; [apply (extend_file_spec sa p (with_writer 1 i) d (off + size)); try done; lia|].
  intros r1 s1 (_ & d' & Hrs & Hd' & Hfree).
  assert (Hi1 : fs_inv s1) by apply Hrs.
  wp_step. eapply rd_kalloc_unchecked; [done|by apply reads_refl|]. intros s2 Hr2.
  pose proof (reads_same _ _ (rs_al _ _ _ _ _ _ Hrs) Hr2) as Hs2.
  pose proof (resized_trans_same _ _ _ _ _ _ _ Hrs Hs2) as Hrs2.
  pose proof (rs_open _ _ _ _ _ _ Hrs2) as Hof2.
  pose proof (nsec_bounds _ (of_length _ _ _ _ _ Hof2)) as [_ Hns].
  eapply mwp_mono; [eapply (write_loop_spec malloc_ok Hmalloc (taken s2) s2 p (with_writer 1 i) d')|].
  all: try done; try lia; try apply Hr2.
  intros r s3 [-> Hst]. split.
  - rewrite (frame_inodes _ _ (st_frame _ _ _ _ _ _ _ _ _ Hst)), (sf_inodes _ _ Hs2).
    by rewrite (aframe_inodes _ _ (rs_frame _ _ _ _ _ _ Hrs)).
  - split; [done|]. exists d'. apply (written_set_inodes s s3 p i (with_writer 1 i)); try done.
    fold sa. eapply (written_intro sa s2); try done. by rewrite (sf_map _ _ Hs2).
Qed.

(** ** [inode_create] *)
(** Sector [sector] holds the inode of a file of [L] zero bytes. *)
Record created s s' sector type L d' : Prop := Created {
  cr_frame : aframe s s';
  cr_al : al_inv s';
  cr_disk : decode_inode (sv s' sector) = d';
  cr_header : d_type d' = type /\ d_length d' = L /\ d_magic d' = INODE_MAGIC;
  cr_wf : file_wf (ssize s') (taken s') (sv s') d' (nsec L) sector;
  cr_bytes : forall j, 0 <= j < 512 * nsec L -> byte_at (sv s') d' j = 0;
  cr_owns : forall q, owns (sv s') d' (nsec L) sector q -> q = sector \/ taken s q;
  cr_taken : forall q, taken s' q -> taken s q;
  cr_others : forall q, ~ taken s q -> q <> sector -> sv s' q = sv s q;
  cr_free : Z.of_nat (size (free s')) =
    Z.of_nat (size (free s)) - grow_cost 0 (Z.to_nat (nsec L));
}.
Lemma inode_create_spec s sector L type : fs_inv s -> al_inv s ->
  0 <= sector < ssize s -> ~ taken s sector -> is_u32 type -> 0 <= L <= INODE_SPAN ->
  grow_cost 0 (Z.to_nat (nsec L)) <= Z.of_nat (size (free s)) ->
  mwp (inode_create malloc_ok alloc release sector L type) s
    (fun r s' => r = true /\ exists d', created s s' sector type L d').
Proof.
  intros Hi Hal Hsec Hnt Hty HL Hc. pose proof (nsec_bounds _ HL) as [HN _].
  unfold inode_create. wp_step. wp_step; [bool_goal; lia|].
  wp_step. eapply rd_kalloc; [done|by apply reads_refl|]. intros s1 Hr1.
  wp_step. unfold extend_file. destruct (Z.ltb_spec INODE_SPAN L); [lia|].
  destruct (Z.ltb_spec L 0); [lia|]. cbn [orb]. wp_step. wp_step. cbn [d_length]. change (-1 =? -1) with true. cbn [negb andb].
  set (d0 := InodeDisk _ _ _ _).
  wp_step. eapply rd_kalloc_unchecked; [done|done|]. intros s2 Hr2.
  pose proof (reads_same _ _ Hal Hr2) as Hs2. assert (Hi2 : fs_inv s2) by apply Hr2.
  assert (Et : taken s2 = taken s) by (unfold taken, InodeGrow.taken; by rewrite (sf_map _ _ Hs2)).
  assert (Hwf0 : file_wf (ssize s2) (taken s2) (sv s2) d0 0 sector).
  { rewrite (sf_size _ _ Hs2), Et. split; try done.
    - by apply Forall_replicate.
    - intros [] Ha; simpl in Ha; lia.
    - intros [] ? Ha; simpl in Ha; lia. }
  rewrite quot_nsec by done.
  wp_step. eapply mwp_mono.
  { apply (extend_loop_spec (Z.to_nat (nsec L)) _ s2 d0 0 sector); try done; try lia; [apply Hs2|].
    by rewrite (sf_map _ _ Hs2). }
  intros [ok d1] s3 (Eok & Hex & Hfree). simpl in Eok. subst ok. cbn [snd negb] in *.
  replace (0 + Z.of_nat (Z.to_nat (nsec L))) with (nsec L) in Hex by lia.
  wp_step. cbn [negb]. wp_step. wp_step. eapply wp_deref; [done|].
  destruct Hex as [Fr Al Wf (Ht1 & Hl1 & Hm1) Hs Hn _ Hz Ht Hx].
  pose proof Wf as [Wl Wu Wn [Wi1 Wi2] Ws Wj]. pose proof (af_inv _ _ Fr) as Hi3.
  wp_step. unfold write_inode. eapply mwp_mono.
  { apply fs_write_spec; [done|done|by apply encode_inode_len|apply words_bytes_u8]. }
  intros _ s' [Hfr Hv]. destruct (frame_aframe _ _ Hfr) as [Hfr' Hfm].
  wp_step. wp_step; [cbn; bool_goal; done|]. wp_step. wp_step; [cbn; rewrite Hm1; done|]. wp_step.
  split; [done|]. exists (set_length L d1).
  assert (Et' : taken s' = taken s3) by by apply taken_frame.
  assert (Hdata : forall a, slot_live (nsec L) a ->
    sv s' (slot_sector (sv s3) d1 a) = sv s3 (slot_sector (sv s3) d1 a)).
  { intros a Ha. rewrite Hv, decide_False; [done|]. by apply Ws. }
  assert (Hsl : forall a, slot_live (nsec L) a ->
    slot_sector (sv s') (set_length L d1) a = slot_sector (sv s3) d1 a).
  { intros a Ha. rewrite (slot_sector_header _ d1) by done.
    apply (slot_sector_ext _ _ _ (nsec L)); [done|done|]. intros b _ Hb. by apply Hdata. }
  split.
  - eapply aframe_trans; [apply Hs2|]. by eapply aframe_trans.
  - eapply al_stable; [done|done|]. intros q Hq. rewrite Hv, decide_False; [done|].
    intros ->. apply Wi2. by left.
  - rewrite Hv, decide_True by done. apply decode_encode; cbn; try done.
    + by rewrite Ht1.
    + unfold is_s32. change INODE_SPAN with 8517120 in HL. lia.
    + by rewrite Hm1.
  - done.
  - rewrite (fr_size _ _ Hfr), Et'. apply (file_wf_header _ _ _ d1); [done|].
    eapply file_wf_ext; [done|]. intros b _ Hb. by apply Hdata.
  - intros j Hj. unfold byte_at. rewrite Hsl, Hdata, Hz by (simpl; dlia).
    unfold zero_sector, znth. case_decide; [|done]. rewrite lookup_replicate_2; [done|]. dlia.
  - intros q [->|(a & Ha & ->)]; [by left|right]. rewrite Hsl by done. rewrite <- Et. apply Hn; [done|].
    destruct a; simpl; lia.
  - intros q Hq. rewrite Et' in Hq. rewrite <- Et. auto.
  - intros q Hq Hne. rewrite Hv, decide_False by done. rewrite Hx; [by rewrite (sf_sv _ _ Hs2)|by rewrite Et|].
    intros (a & Ha & _). destruct a; simpl in Ha; lia.
  - by rewrite Hfm, Hfree, (sf_map _ _ Hs2).
Qed.

(** ** [deallocate_inode] *)
(** The sectors [R] have been released since [s]. *)
Record released s s' (R : Z -> Prop) : Prop := Released {
  rl_frame : aframe s s';
  rl_al : al_inv s';
  rl_view : forall q, ~ meta q -> sv s' q = sv s q;
  rl_free : forall q, q ∈ free s' <-> q ∈ free s \/ R q;
}.
Lemma released_refl s : fs_inv s -> al_inv s -> released s s (fun _ => False).
Proof. intros. split; try done; [by apply aframe_refl|tauto]. Qed.
Lemma released_ext s s' R R' : released s s' R -> (forall q, R q <-> R' q) -> released s s' R'.
Proof. intros [F A V W] E. split; try done. intros q. rewrite W. by rewrite E. Qed.
Lemma released_reads s s1 s' R : al_inv s -> reads s s1 -> released s1 s' R -> released s s' R.
Proof.
  intros Hal Hr [F A V W]. pose proof (reads_same _ _ Hal Hr) as Hs. split.
  - eapply aframe_trans; [apply Hs|done].
  - done.
  - intros q Hq. rewrite V by done. apply Hr.
  - intros q. rewrite W. by rewrite (sf_map _ _ Hs).
Qed.
Lemma released_then_reads s s1 s' R : released s s1 R -> reads s1 s' -> released s s' R.
Proof.
  intros [F A V W] Hr. pose proof (reads_same _ _ A Hr) as Hs. split.
  - eapply aframe_trans; [done|apply Hs].
  - apply Hs.
  - intros q Hq. rewrite (sf_sv _ _ Hs). by apply V.
  - intros q. by rewrite (sf_map _ _ Hs).
Qed.
Lemma released_release s s1 R q (Q : unit -> fs St -> Prop) : released s s1 R ->
  0 <= q < ssize s -> ~ taken s q -> ~ R q ->
  (forall s2, released s s2 (fun x => R x \/ x = q) -> Q tt s2) -> mwp (release q) s1 Q.
Proof.
  intros [F A V W] Hq Hnt Hnr HQ.
  eapply mwp_mono; [apply (al_release (alloc := alloc)); [apply F|done| | |]|].
  - by rewrite (af_size _ _ F).
  - intros ?. apply Hnt. by left.
  - rewrite W. intros [?|?]; [|done]. apply Hnt. by right.
  - intros [] s2 (F2 & A2 & V2 & W2). apply HQ. split; try done.
    + by eapply aframe_trans.
    + intros x Hx. rewrite V2, V; done.
    + intros x. rewrite W2. rewrite elem_of_union, elem_of_singleton, W. tauto.
Qed.

Section dealloc.
Context (s : fs St) (d : inode_disk) (sector : Z).
Hypothesis Hinv : fs_inv s.
Hypothesis Hal : al_inv s.
Hypothesis Hd : decode_inode (sv s sector) = d.
Hypothesis Hlen : 0 < d_length d <= INODE_SPAN.
Hypothesis Hwf : file_wf (ssize s) (taken s) (sv s) d (nsec (d_length d)) sector.
Abbreviation n := (nsec (d_length d)).

Lemma live_sector a : slot_live n a -> 0 <= slot_sector (sv s) d a < ssize s /\
  ~ taken s (slot_sector (sv s) d a).
Proof. intros Ha. pose proof (wf_slot _ _ _ _ _ _ Hwf a Ha). tauto. Qed.
(** The local variables before the turn for sector [j]. *)
Definition vars_at (j : Z) : dealloc_vars :=
  if decide (j < 124) then DeallocVars j BNull BNull false false
  else DeallocVars j BFreed BNull true false.
Definition data_below (j q : Z) : Prop := exists k, 0 <= k < j /\ q = block_of (sv s) d k.
Lemma vars_at_lo j : j < 124 -> vars_at j = DeallocVars j BNull BNull false false.
Proof. intros. unfold vars_at. by rewrite decide_True. Qed.
Lemma dealloc_turn j s1 : 0 <= j < n -> j < 124 -> released s s1 (data_below j) ->
  mwp (dealloc_body malloc_ok release d n (vars_at j)) s1
    (fun r s2 => r = inl (vars_at (j + 1)) /\ released s s2 (data_below (j + 1))).
Proof.
  intros Hj Hj' Hr. pose proof Hwf as [Wl Wu Wn _ Ws Wj]. change PTRS_PER_SECTOR with 128 in *.
  assert (Hlive : slot_live n (Data j)) by done.
  destruct (live_sector _ Hlive) as [Hrg Hnt].
  assert (Hnb : ~ data_below j (block_of (sv s) d j)).
  { intros (k & Hk & E). apply Wj in E; [|done|simpl; lia]. injection E. lia. }
  assert (Hst : forall s2, released s s2 (fun x => data_below j x \/ x = block_of (sv s) d j) ->
    released s s2 (data_below (j + 1))).
  { intros s2 Hs2. eapply released_ext; [done|]. intros q. split.
    - intros [(k & Hk & ->)| ->]; [exists k|exists j]; split; (done || lia).
    - intros (k & Hk & ->). destruct (decide (k = j)) as [->|]; [by right|].
      left. exists k. split; (done || lia). }
  unfold dealloc_body. rewrite vars_at_lo by done.
  cbn [dv_next dv_indirect dv_dbl do_indirect_release do_dbl_release].
  destruct (Z.ltb_spec j n); [|lia]. unfold DIRECT_CNT. destruct (Z.ltb_spec j 123).
  - simpl in Hrg, Hnt, Hnb, Hst. rewrite decide_True in * by done.
    wp_step. wp_step. eapply wp_deref; [by apply tab_some; [|lia]|].
    wp_step. eapply released_release; [done|done|done|done|]. intros s2 Hs2. wp_step.
    rewrite u32_small by (unfold is_u32; lia). split; [|by apply Hst].
    unfold vars_at. by rewrite decide_True by lia.
  - change PTRS_PER_SECTOR with 128. destruct (Z.ltb_spec j (123 + 128)); [|lia].
    destruct (live_sector Ind ltac:(simpl; lia)) as [HI HIt]. simpl in HI, HIt.
    assert (HIv : sv s1 (tab d INDIRECT_IDX) = sv s (tab d INDIRECT_IDX)).
    { apply Hr. intros ?. apply HIt. by left. }
    assert (Hi1 : fs_inv s1) by apply Hr.
    wp_step. wp_step. eapply rd_kalloc_unchecked; [done|by apply reads_refl|]. intros s2 Hr2.
    wp_step. wp_step. eapply wp_deref; [by apply tab_some; [|unfold INDIRECT_IDX; lia]|].
    wp_step. eapply rd_read; [done|by rewrite (af_size _ _ (rl_frame _ _ _ Hr))|]. intros s3 Hr3.
    rewrite HIv. wp_step. wp_step. wp_step. cbn [buf_read].
    eapply wp_deref; [apply ptr_some; lia|].
    simpl in Hrg, Hnt, Hnb, Hst. rewrite (decide_False (P := j < 123)), (decide_True (P := j < 251)) in * by lia.
    wp_step. eapply released_release; [by eapply released_then_reads|done|done|done|]. intros s4 Hs4.
    wp_step. wp_step. cbn [buf_free wp]. wp_step. rewrite u32_small by (unfold is_u32; lia).
    split; [|by apply Hst]. unfold vars_at. by rewrite decide_False by lia.
Qed.
Lemma dealloc_run cnt : forall fuel j s1, 0 <= j -> j + Z.of_nat cnt <= n -> j + Z.of_nat cnt <= 124 ->
  released s s1 (data_below j) -> exists s2,
    mloop (cnt + fuel) (dealloc_body malloc_ok release d n) (vars_at j) s1 =
      mloop fuel (dealloc_body malloc_ok release d n) (vars_at (j + Z.of_nat cnt)) s2 /\
    released s s2 (data_below (j + Z.of_nat cnt)).
Proof.
  induction cnt as [|cnt IH]; intros fuel j s1 Hj Hn Hn' Hr.
  { exists s1. by rewrite Z.add_0_r. }
  pose proof (dealloc_turn j s1 ltac:(lia) ltac:(lia) Hr) as Ht.
  apply mwp_ok in Ht as (r & s2 & Heq & -> & Hr2).
  destruct (IH fuel (j + 1) s2) as (s3 & Heq3 & Hr3); [lia|lia|lia|done|].
  exists s3. replace (j + Z.of_nat (S cnt)) with (j + 1 + Z.of_nat cnt) by lia.
  split; [|done]. rewrite <- Heq3. simpl. unfold mloop at 1. fold (@mloop (fs St) dealloc_vars dealloc_vars).
  by rewrite Heq.
Qed.
Lemma dealloc_count : (if d_length d =? 0 then 0
  else u32 (1 + Z.quot (d_length d - 1) BLOCK_SECTOR_SIZE)) = n.
Proof.
  pose proof (nsec_bounds (d_length d) ltac:(lia)) as [Hb _].
  destruct (Z.eqb_spec (d_length d) 0); [lia|]. unfold nsec in *. change BLOCK_SECTOR_SIZE with 512.
  rewrite u32_small; [lia|unfold is_u32; lia].
Qed.
Lemma deallocate_inode_spec : n <= 124 ->
  mwp (deallocate_inode malloc_ok release sector) s (fun _ s' =>
    released s s' (fun q => exists a, slot_live n a /\ q = slot_sector (sv s) d a)).
Proof.
  intros Hn. pose proof (nsec_bounds (d_length d) ltac:(lia)) as [Hb _].
  pose proof Hwf as [Wl Wu Wn [Wi _] Ws Wj].
  unfold deallocate_inode. wp_step. eapply rd_kalloc_unchecked; [done|by apply reads_refl|].
  intros s1 Hr1. wp_step. unfold read_inode. wp_step. eapply rd_read; [done|done|].
  intros s2 Hr2. wp_step. rewrite Hd, dealloc_count.
  assert (H2 : released s s2 (data_below 0)).
  { eapply released_ext; [eapply released_then_reads; [by apply released_refl|done]|].
    intros q. split; [done|]. intros (k & Hk & _). lia. }
  destruct (dealloc_run (Z.to_nat n) 1 0 s2) as (s3 & Heq & H3); [lia|lia|lia|done|].
  replace (Z.to_nat n + 1)%nat with (S (Z.to_nat n)) in Heq by lia.
  replace (0 + Z.of_nat (Z.to_nat n)) with n in * by lia.
  change (vars_at 0) with (DeallocVars 0 BNull BNull false false) in Heq.
  wp_step. eapply mwp_same; [exact Heq|]. apply mloop_step. unfold dealloc_body.
  assert (Hnext : dv_next (vars_at n) = n) by (unfold vars_at; by case_decide).
  rewrite Hnext. destruct (Z.ltb_spec n n); [lia|]. wp_step.
  assert (Hdbl : do_dbl_release (vars_at n) = false) by (unfold vars_at; by case_decide).
  rewrite Hdbl. unfold vars_at. destruct (decide (n < 124)) as [Hlt|Hge].
  - cbn [do_indirect_release]. wp_step. wp_step. wp_step. eapply released_ext; [done|]. intros q. split.
    + intros (k & Hk & ->). by exists (Data k).
    + intros ([k| | |j] & Ha & ->); simpl in Ha; try lia. by exists k.
  - cbn [do_indirect_release]. wp_step. wp_step. wp_step.
    eapply wp_deref; [by apply tab_some; [|unfold INDIRECT_IDX; lia]|].
    assert (HI : slot_live n Ind) by (simpl; lia). destruct (live_sector Ind HI) as [Hr Ht].
    eapply released_release; [done|done|done| |].
    { intros (k & Hk & E). pose proof (Wj Ind (Data k) HI Hk E). done. }
    intros s4 H4. wp_step. eapply released_ext; [done|]. intros q. split.
    + intros [(k & Hk & ->)| ->]; [by exists (Data k)|by exists Ind].
    + intros ([k| | |j] & Ha & ->); simpl in Ha; try lia; [left; by exists k|by right].
Qed.
Lemma deallocate_inode_fault : 124 < n -> deallocate_inode malloc_ok release sector s = Fault.
Proof.
  intros Hn. pose proof Hwf as [Wl Wu Wn [Wi _] Ws Wj].
  assert (Hm : mwp (_ ← kalloc_unchecked malloc_ok; read_inode sector) s
    (fun x s2 => x = d /\ reads s s2)).
  { wp_step. eapply rd_kalloc_unchecked; [done|by apply reads_refl|]. intros s1 Hr1.
    unfold read_inode. wp_step. eapply rd_read; [done|done|]. intros s2 Hr2. wp_step. by rewrite Hd. }
  apply mwp_ok in Hm as (x & s2 & Heq0 & -> & Hr2). unfold mbind, M_bind in Heq0.
  unfold deallocate_inode, mbind, M_bind.
  destruct (kalloc_unchecked malloc_ok s) as [[[] s1]| | |]; try done. rewrite Heq0.
  rewrite dealloc_count.
  assert (H2 : released s s2 (data_below 0)).
  { eapply released_ext; [eapply released_then_reads; [by apply released_refl|done]|].
    intros q. split; [done|]. intros (k & Hk & _). lia. }
  destruct (dealloc_run 124 (Z.to_nat (n - 123)) 0 s2) as (s3 & Heq & H3); [lia|lia|lia|done|].
  replace (124 + Z.to_nat (n - 123))%nat with (S (Z.to_nat n)) in Heq by lia.
  change (vars_at 0) with (DeallocVars 0 BNull BNull false false) in Heq. rewrite Heq.
  destruct (Z.to_nat (n - 123)) as [|fuel] eqn:Ef; [lia|].
  unfold mloop at 1. fold (@mloop (fs St) dealloc_vars dealloc_vars).
  unfold dealloc_body at 1. change (0 + Z.of_nat 124) with 124.
  change (vars_at 124) with (DeallocVars 124 BFreed BNull true false).
  cbn [dv_next dv_indirect]. destruct (Z.ltb_spec 124 n); [|lia].
  reflexivity.
Qed.
End dealloc.
End writing.
