(* ===== verification/File.v ===== *)
(** * File: filesys/file.c

    An open file is an inode pointer, a position and the deny-write flag.  The
    operations work on file pointers into the object store of FsState.v; a null
    [struct file *] is [None] where the code accepts it. *)
From S2P Require Import Prelude Lock Block Store Bitmap FsState Inode.

Section file.
Context {St : Type} `{sector_store St}.
Variable malloc_ok : nat -> bool.
Variable me : Z.
Variable alloc : M (fs St) (option Z).
Variable release : Z -> M (fs St) unit.
Abbreviation FS A := (M (fs St) A).
Abbreviation kalloc := (kalloc malloc_ok).
Abbreviation inode_read_at := (inode_read_at malloc_ok).
Abbreviation inode_write_at := (inode_write_at malloc_ok me alloc).
Abbreviation inode_close := (inode_close malloc_ok me release).

Definition file_open (ino : option Z) : FS (option Z) :=
  ok ← kalloc;
  match ino with
  | Some i =>
      if (ok : bool) then
        f ← fresh_ptr; _ ← put_file f (File i 0 false); mret (Some f)
      else _ ← inode_close ino; mret None
  | None => _ ← inode_close None; mret None
  end.

Definition same_file (f1 f2 : option Z) : FS bool :=
  match f1, f2 with
  | Some p1, Some p2 =>
      f1 ← get_file p1; f2 ← get_file p2; same_sector (f_inode f1) (f_inode f2)
  | _, _ => mret false
  end.

Definition file_reopen (f : Z) : FS (option Z) :=
  f ← get_file f; i ← inode_reopen me (Some (f_inode f)); file_open i.

Definition file_get_inode (f : Z) : FS Z := f ← get_file f; mret (f_inode f).

Definition set_pos (f : file) (pos : Z) : file := File (f_inode f) pos (f_deny_write f).

(** The bytes read; their number is the return value. *)
Definition file_read (p size : Z) : FS (list Z) :=
  f ← get_file p;
  bs ← inode_read_at (f_inode f) size (f_pos f);
  _ ← put_file p (set_pos f (s32 (f_pos f + zlen bs)));
  mret bs.
Definition file_read_at (p size file_ofs : Z) : FS (list Z) :=
  f ← get_file p; inode_read_at (f_inode f) size file_ofs.
Definition file_write (p : Z) (buffer : list Z) (size : Z) : FS Z :=
  f ← get_file p;
  n ← inode_write_at (f_inode f) buffer size (f_pos f);
  _ ← put_file p (set_pos f (s32 (f_pos f + n)));
  mret n.
Definition file_write_at (p : Z) (buffer : list Z) (size file_ofs : Z) : FS Z :=
  f ← get_file p; inode_write_at (f_inode f) buffer size file_ofs.

(** Loop of [file_clear]; locals: bytes_to_write, write_size, bytes_written. *)
Definition clear_body (p size : Z) (l : Z * Z * Z) : FS (Z * Z * Z + Z) :=
  let '(bytes_to_write, write_size, bytes_written) := l in
  if 0 <? bytes_to_write then
    let write_size := if size <? write_size then size else write_size in
    n ← file_write p (replicate 1024 0) write_size;
    let bytes_written := s32 (bytes_written + n) in
    if bytes_written =? 0 then mret (inr bytes_written)
    else mret (inl (s32 (bytes_to_write - bytes_written), write_size, bytes_written))
  else mret (inr bytes_written).
Definition file_clear (p size : Z) : FS Z :=
  f ← get_file p;
  _ ← put_file p (set_pos f 0);
  n ← mloop (S (Z.to_nat size)) (clear_body p size) (size, 1024, 0);
  f ← get_file p;
  _ ← put_file p (set_pos f 0);
  mret n.

Definition file_deny_write (p : option Z) : FS unit :=
  _ ← assert (bool_decide (p <> None));
  p ← lift (deref p);
  f ← get_file p;
  if negb (f_deny_write f) then
    _ ← put_file p (File (f_inode f) (f_pos f) true); inode_deny_write (f_inode f)
  else mret tt.
Definition file_allow_write (p : option Z) : FS unit :=
  _ ← assert (bool_decide (p <> None));
  p ← lift (deref p);
  f ← get_file p;
  if f_deny_write f then
    _ ← put_file p (File (f_inode f) (f_pos f) false); inode_allow_write (f_inode f)
  else mret tt.

Definition file_close (p : option Z) : FS unit :=
  match p with
  | None => mret tt
  | Some q =>
      _ ← file_allow_write p;
      f ← get_file q;
      _ ← inode_close (Some (f_inode f));
      free_file q
  end.

Definition file_length (p : option Z) : FS Z :=
  _ ← assert (bool_decide (p <> None));
  p ← lift (deref p); f ← get_file p; inode_length malloc_ok (f_inode f).
Definition file_seek (p : option Z) (new_pos : Z) : FS unit :=
  _ ← assert (bool_decide (p <> None));
  _ ← assert (0 <=? new_pos);
  p ← lift (deref p); f ← get_file p; put_file p (set_pos f new_pos).
Definition file_tell (p : option Z) : FS Z :=
  _ ← assert (bool_decide (p <> None));
  p ← lift (deref p); f ← get_file p; mret (f_pos f).
End file.
