(* ===== verification/FreeMap.v ===== *)
(** * FreeMap: filesys/free-map.c

    The free map is a bitmap in memory and a file on disk.  Allocating a sector
    writes that file, and writing a file may allocate sectors, so the C code is
    mutually recursive; [free_map_allocate] takes the depth of that recursion.
    FreeMapSpec.v shows depth 1 is enough: the file never grows. *)
From S2P Require Import Prelude Lock Block Store Bitmap FsState Inode File.

Definition FREE_MAP_SECTOR : Z := 0.
Definition ROOT_DIR_SECTOR : Z := 1.

Section free_map.
Context {St : Type} `{sector_store St}.
Variable malloc_ok : nat -> bool.
Variable me : Z.
Abbreviation FS A := (M (fs St) A).

(** [bitmap_write] and [bitmap_read] of lib/kernel/bitmap.c. *)
Definition bitmap_write (alloc : FS (option Z)) (b : bitmap) (file : option Z) : FS bool :=
  let size := s32 (byte_cnt (bit_cnt b)) in
  p ← lift (deref file);
  n ← file_write_at malloc_ok me alloc p (bits_bytes b) size 0;
  mret (n =? size).
Definition bitmap_read (b : bitmap) (file : option Z) : FS (bool * bitmap) :=
  if 0 <? bit_cnt b then
    let size := s32 (byte_cnt (bit_cnt b)) in
    p ← lift (deref file);
    bs ← file_read_at malloc_ok p size 0;
    b' ← lift (bitmap_load b (bs ++ drop (length bs) (bits_bytes b)));
    mret (zlen bs =? size, b')
  else mret (true, b).

(** [free_map_allocate (cnt, &sector)]: the sector when it returns true. *)
Fixpoint free_map_allocate_cnt (depth : nat) (cnt : Z) : FS (option Z) :=
  match depth with
  | O => hang
  | S depth' =>
      b ← gets free_map;
      '(sector, b) ← lift (bitmap_scan_and_flip b 0 cnt false);
      _ ← modify (set_free_map b);
      if sector =? BITMAP_ERROR then mret None
      else
        file ← gets free_map_file;
        match file with
        | None => mret (Some sector)
        | Some _ =>
            ok ← bitmap_write (free_map_allocate_cnt depth' 1) b file;
            if (ok : bool) then mret (Some sector)
            else
              b ← gets free_map;
              b ← lift (bitmap_set_multiple b sector cnt false);
              _ ← modify (set_free_map b);
              mret None
        end
  end.
(** The call [inode.c] and [filesys.c] make. *)
Definition free_map_allocate (depth : nat) : FS (option Z) := free_map_allocate_cnt depth 1.

Definition free_map_release_cnt (depth : nat) (sector cnt : Z) : FS unit :=
  b ← gets free_map;
  all ← lift (bitmap_all b sector cnt);
  _ ← assert all;
  b ← lift (bitmap_set_multiple b sector cnt false);
  _ ← modify (set_free_map b);
  file ← gets free_map_file;
  _ ← bitmap_write (free_map_allocate depth) b file;
  mret tt.
Definition free_map_release (depth : nat) (sector : Z) : FS unit :=
  free_map_release_cnt depth sector 1.

(** [words] is what [malloc] finds in the block for the bits, when it succeeds. *)
Definition free_map_init (device_size : Z) (words : option (list Z)) : FS unit :=
  b ← lift (bitmap_create true words device_size);
  match b with
  | None => panic
  | Some b =>
      b ← lift (bitmap_mark b FREE_MAP_SECTOR);
      b ← lift (bitmap_mark b ROOT_DIR_SECTOR);
      modify (set_free_map b)
  end.

Section depth.
Variable depth : nat.
Abbreviation alloc := (free_map_allocate depth).
Abbreviation release := (free_map_release depth).

Definition free_map_open : FS unit :=
  i ← inode_open malloc_ok me FREE_MAP_SECTOR;
  f ← file_open malloc_ok me release i;
  _ ← modify (set_free_map_file f);
  match f with
  | None => panic
  | Some _ =>
      b ← gets free_map;
      '(ok, b) ← bitmap_read b f;
      _ ← modify (set_free_map b);
      if (ok : bool) then mret tt else panic
  end.

Definition free_map_close : FS unit :=
  b ← gets free_map;
  f ← gets free_map_file;
  ok ← bitmap_write alloc b f;
  if (ok : bool) then file_close malloc_ok me release f else panic.

Definition free_map_create : FS unit :=
  b ← gets free_map;
  ok ← inode_create malloc_ok alloc release FREE_MAP_SECTOR (s32 (bitmap_file_size b)) FILE_INODE;
  if negb ok then panic
  else
    i ← inode_open malloc_ok me FREE_MAP_SECTOR;
    f ← file_open malloc_ok me release i;
    _ ← modify (set_free_map_file f);
    match f with
    | None => panic
    | Some _ =>
        b ← gets free_map;
        ok ← bitmap_write alloc b f;
        if (ok : bool) then mret tt else panic
    end.
End depth.
End free_map.
