(* ===== verification/FreeMapSpec.v ===== *)
(** * FreeMapSpec: the free map is a sector allocator

    filesys/free-map.c discharges [allocator_ok], the contract the file system
    relies on: sectors are handed out at most once, a released sector can be
    handed out again, and only the sectors of the free map's own file are
    touched.  The recursion free map -> file -> inode -> free map stops at
    depth 1. *)
From Stdlib Require Import FunctionalExtensionality.
From S2P Require Import Prelude Lock Block Store Bitmap FsState Inode InodeSpec InodeGrow InodeWrite File FreeMap.

(** The free sectors a bitmap describes. *)
Definition free_sectors (b : bitmap) : gset Z :=
  list_to_set (filter (fun k => bit b k = false) (seqZ 0 (bit_cnt b))).
Lemma elem_of_free_sectors b k :
  k ∈ free_sectors b <-> 0 <= k < bit_cnt b /\ bit b k = false.
Proof.
  unfold free_sectors. rewrite elem_of_list_to_set, list_elem_of_filter, elem_of_seqZ.
  rewrite Z.add_0_l. tauto.
Qed.

Section spec.
Context {St : Type} `{sector_store_ok St}.
Implicit Types (s : fs St).
Variable malloc_ok : nat -> bool.
Hypothesis Hmalloc : forall n, malloc_ok n = true.
Variable me : Z.
(** The free map's file: its [struct file], its inode, the inode's sector and
    contents, and the sectors it owns. *)
Variables (fp ip isec : Z) (d : inode_disk) (own : slot -> Z).
Abbreviation n := (nsec (d_length d)).

Definition fm_meta (q : Z) : Prop := q = isec \/ exists a, slot_live n a /\ q = own a.
Record fm_inv s : Prop := FmInv {
  fm_wf : bitmap_wf (free_map s);
  fm_cnt : bit_cnt (free_map s) = ssize s /\ 0 < ssize s;
  fm_used : forall q, fm_meta q -> bit (free_map s) q = true;
  fm_file : free_map_file s = Some fp /\ exists f, files s !! fp = Some f /\ f_inode f = ip;
  fm_inode : exists i, open_file (fun _ => False) s ip i d /\ i_sector i = isec /\
    deny_write_lock i = None /\ deny_write_cnt i = 0;
  fm_own : forall a, slot_live n a -> slot_sector (sv s) d a = own a;
  fm_len : byte_cnt (bit_cnt (free_map s)) <= d_length d;
}.
(** The file on disk holds the map in memory. *)
Definition fm_sync s : Prop :=
  bytes_at (sv s) d 0 (zlen (bits_bytes (free_map s))) = bits_bytes (free_map s).

Lemma bits_bytes_len b : bitmap_wf b -> zlen (bits_bytes b) = byte_cnt (bit_cnt b) /\
  0 <= byte_cnt (bit_cnt b) /\ (bit_cnt b <= 2 ^ 31 -> byte_cnt (bit_cnt b) < 2 ^ 30).
Proof.
  intros [Hc Hl Hu]. unfold byte_cnt. rewrite elem_cnt_eq by done.
  rewrite u32_small by (unfold is_u32; dlia).
  unfold bits_bytes, zlen in *. rewrite words_bytes_length. dlia.
Qed.
(** A state that differs from [s] only in the map itself. *)
Lemma fm_inv_set_map s b : fs_inv s -> fm_inv s -> bitmap_wf b -> bit_cnt b = bit_cnt (free_map s) ->
  (forall q, fm_meta q -> bit b q = true) -> fm_inv (set_free_map b s) /\ fs_inv (set_free_map b s).
Proof.
  intros [? ? ?] [Hw Hc Hu Hf Hi Ho Hl] Hb Hcnt Hbu. split; [|by split]. split; try done.
  - cbn [free_map set_free_map]. by rewrite Hcnt.
  - destruct Hi as (i & [? ? ? ? ?] & ?). exists i. split; [by split|done].
  - cbn [free_map set_free_map]. by rewrite Hcnt.
Qed.
Lemma fm_stable s s' : fm_inv s -> frame s s' -> (forall q, fm_meta q -> sv s' q = sv s q) ->
  fm_inv s'.
Proof.
  intros [Hw Hc Hu Hf Hi Ho Hl] Hfr Hv. destruct (frame_aframe _ _ Hfr) as [_ Hm].
  destruct Hi as (i & [Op Od Om Ol Ow] & Hsec & Hdl & Hdc).
  assert (Hsv : forall a, slot_live n a -> sv s' (slot_sector (sv s) d a) = sv s (slot_sector (sv s) d a)).
  { intros a Ha. apply Hv. right. exists a. split; [done|by apply Ho]. }
  split; rewrite ?Hm, ?(fr_size _ _ Hfr); try done.
  - destruct Hfr as [-> _ _]. done.
  - exists i. split; [|done]. split; try done.
    + by rewrite (frame_inodes _ _ Hfr).
    + rewrite Hv by (left; done). done.
    + rewrite (fr_size _ _ Hfr). eapply file_wf_ext; [done|]. auto.
  - intros a Ha. rewrite (slot_sector_ext (sv s) (sv s') d n); [by apply Ho|apply Ow|done|]. auto.
Qed.

(** Writing the map's file: in place, no allocation. *)
Lemma bitmap_write_spec alloc s : fs_inv s -> fm_inv s ->
  mwp (bitmap_write malloc_ok me alloc (free_map s) (Some fp)) s (fun r s' => r = true /\
    frame s s' /\ fm_inv s' /\ (forall q, ~ fm_meta q -> sv s' q = sv s q) /\ fm_sync s').
Proof.
  intros Hi Hinv. pose proof Hinv as [Hw Hc Hu (Hf & f & Hfp & Hfi) (i & Hof & Hsec & Hdl & Hdc) Ho Hl].
  destruct (bits_bytes_len _ Hw) as (Hlen & Hp & Hbig). pose proof (inv_size _ Hi) as Hsz.
  set (b := free_map s) in *. rewrite (proj1 Hc) in Hbig at 1. specialize (Hbig Hsz).
  unfold bitmap_write. rewrite (s32_small (byte_cnt _)) by (unfold is_s32; lia).
  wp_step. wp_step. eapply wp_deref; [done|]. wp_step. unfold file_write_at.
  wp_step. unfold get_file, mwp at 1. rewrite Hfp. rewrite Hfi.
  eapply mwp_mono; [apply (inode_write_at_in_place malloc_ok Hmalloc me _ (fun _ => False) s ip i d); try done; try lia|].
  { apply words_bytes_u8. }
  intros r s' [-> [F O B L X]]. wp_step. split; [apply Z.eqb_refl|].
  destruct (frame_aframe _ _ F) as [_ Hm].
  assert (Hown : forall k, 0 <= k < n -> fm_meta (block_of (sv s) d k)).
  { intros k Hk. right. exists (Data k). split; [done|by apply Ho]. }
  assert (Hnm : forall q, ~ fm_meta q -> sv s' q = sv s q).
  { intros q Hq. apply X. intros k Hk ->. by apply Hq, Hown. }
  split; [done|]. split; [|split; [done|]].
  - split; rewrite ?Hm, ?(fr_size _ _ F); try done.
    + rewrite (fr_eq _ _ F). split; [done|]. by exists f.
    + by exists i.
    + intros a Ha. rewrite L by done. by apply Ho.
  - pose proof (nsec_bounds _ (of_length _ _ _ _ _ Hof)) as [_ Hns].
    unfold fm_sync. rewrite Hm. fold b. apply list_eq_same_length with (n := length (bits_bytes b)).
    + done.
    + pose proof (bytes_at_len (sv s') d 0 (zlen (bits_bytes b)) (zlen_nonneg _)). unfold zlen in *. lia.
    + intros k x y Hk Hx Hy. unfold bytes_at in Hx.
      rewrite list_lookup_fmap, lookup_seqZ_lt in Hx by (unfold zlen; lia). simpl in Hx.
      injection Hx as <-. rewrite B by (unfold zlen in *; lia).
      rewrite splice_byte_in by (unfold zlen in *; lia).
      rewrite znth_lookup by lia. replace (Z.to_nat _) with k by lia. by rewrite Hy.
Qed.

Lemma aframe_set_map s b s' : frame (set_free_map b s) s' -> aframe s s'.
Proof. intros [E I Z]. split; [|done|done]. rewrite E at 1. rewrite E. done. Qed.
(** A search for one free sector. *)
Lemma scan_one b : bitmap_wf b -> bit_cnt b <= 2 ^ 31 ->
  wp (bitmap_scan_and_flip b 0 1 false) (fun '(r, b') =>
    (r = BITMAP_ERROR /\ b' = b /\ free_sectors b = ∅) \/
    (r <> BITMAP_ERROR /\ r ∈ free_sectors b /\ bitmap_wf b' /\ bit_cnt b' = bit_cnt b /\
     free_sectors b' = free_sectors b ∖ {[r]} /\ forall q, bit b q = true -> 0 <= q -> bit b' q = true)).
Proof.
  intros Hw Hc. pose proof (wf_cnt _ Hw).
  eapply wp_mono; [apply bitmap_scan_and_flip_spec; [done|lia|lia]|].
  intros [r b'] (Hw' & Hc' & [(-> & -> & Hno)|(Hr & [Hg1 Hg2] & Hno & Hb)]); [left|right].
  - split; [done|]. split; [done|]. apply set_eq. intros k. rewrite elem_of_free_sectors.
    split; [|set_solver]. intros [Hk Hkb]. exfalso. apply (Hno k); [lia|]. split; [lia|].
    intros j Hj. by replace j with k by lia.
  - split; [lia|]. assert (Hrb : bit b r = false) by (apply Hg2; lia).
    split; [rewrite elem_of_free_sectors; split; [lia|done]|]. split; [done|]. split; [done|]. split.
    + apply set_eq. intros k. rewrite elem_of_difference, !elem_of_free_sectors, elem_of_singleton, Hc'.
      split.
      * intros [Hk Hkb]. rewrite Hb in Hkb by lia. case_decide; [done|]. split; [done|lia].
      * intros [[Hk Hkb] Hne]. split; [done|]. rewrite Hb by lia. by rewrite decide_False by lia.
    + intros q Hq Hq0. rewrite Hb by done. by case_decide.
Qed.

Lemma free_map_allocate_spec depth s : fs_inv s -> fm_inv s ->
  mwp (free_map_allocate malloc_ok me (S depth)) s (fun r s' => aframe s s' /\ fm_inv s' /\
    (forall q, ~ fm_meta q -> sv s' q = sv s q) /\
    match r with
    | Some k => k ∈ free_sectors (free_map s) /\
        free_sectors (free_map s') = free_sectors (free_map s) ∖ {[k]} /\ fm_sync s'
    | None => free_sectors (free_map s) = ∅ /\ free_sectors (free_map s') = ∅
    end).
Proof.
  intros Hi Hinv. pose proof Hinv as [Hw Hc Hu [Hf _] _ _ _]. pose proof (inv_size _ Hi) as Hsz.
  unfold free_map_allocate. cbn [free_map_allocate_cnt]. wp_step. wp_step. wp_step. wp_step.
  eapply wp_mono; [apply scan_one; [done|lia]|]. intros [r b'] Hr. wp_step. wp_step.
  destruct Hr as [(-> & -> & He)|(Hne & Hr & Hw' & Hc' & Hfr & Hbu)].
  - replace (set_free_map (free_map s) s) with s by by destruct s.
    rewrite Z.eqb_refl. wp_step.
    split; [by apply aframe_refl|]. done.
  - destruct (Z.eqb_spec r BITMAP_ERROR); [done|].
    assert (Hmr : forall q, fm_meta q -> 0 <= q).
    { intros q Hq. pose proof Hinv as [_ _ _ _ (i & Hof & Hs & _) Ho _].
      pose proof (of_wf _ _ _ _ _ Hof) as [_ _ _ Wi Ws _].
      destruct Hq as [->|(a & Ha & ->)]; [lia|]. rewrite <- Ho by done. by apply Ws. }
    destruct (fm_inv_set_map s b') as [Hinv' Hi']; [done|done|done|done| |].
    { intros q Hq. apply Hbu; [by apply Hu|by apply Hmr]. }
    set (s1 := set_free_map b' s) in *.
    wp_step. wp_step. change (free_map_file s1) with (free_map_file s). rewrite Hf.
    wp_step. eapply mwp_mono; [apply (bitmap_write_spec _ s1 Hi' Hinv')|].
    intros ok s2 (-> & F & Hinv2 & Hv & Hsync). wp_step.
    destruct (frame_aframe _ _ F) as [_ Hm].
    split; [by eapply aframe_set_map|]. split; [done|]. split; [done|]. rewrite Hm. done.
Qed.
Lemma free_map_release_spec depth s k : fs_inv s -> fm_inv s -> 0 <= k < ssize s ->
  ~ fm_meta k -> k ∉ free_sectors (free_map s) ->
  mwp (free_map_release malloc_ok me depth k) s (fun _ s' => aframe s s' /\ fm_inv s' /\
    (forall q, ~ fm_meta q -> sv s' q = sv s q) /\
    free_sectors (free_map s') = {[k]} ∪ free_sectors (free_map s) /\ fm_sync s').
Proof.
  intros Hi Hinv Hk Hm Hnf. pose proof Hinv as [Hw Hc Hu [Hf _] (i & Hof & Hs & _) Ho _].
  pose proof (inv_size _ Hi) as Hsz. pose proof (of_wf _ _ _ _ _ Hof) as [_ _ _ Wi Ws _].
  unfold free_map_release, free_map_release_cnt. wp_step. wp_step. wp_step. wp_step.
  unfold bitmap_all. wp_step. eapply wp_mono; [apply contains_loop_spec; (done || lia)|].
  intros r Hr. wp_step. assert (r = false) as ->.
  { destruct r; [|done]. destruct (proj1 Hr eq_refl) as (j & Hj & Hb).
    exfalso. apply Hnf. rewrite elem_of_free_sectors. replace j with k in Hb by lia. split; [lia|done]. }
  wp_step. wp_step; [done|]. wp_step. wp_step.
  eapply wp_mono; [apply bitmap_set_multiple_spec; (done || lia)|].
  intros b' (Hw' & Hc' & Hb'). wp_step. wp_step.
  destruct (fm_inv_set_map s b') as [Hinv' Hi']; [done|done|done|done| |].
  { intros q Hq. assert (0 <= q).
    { destruct Hq as [->|(a & Ha & ->)]; [lia|]. rewrite <- Ho by done. by apply Ws. }
    rewrite Hb' by done. case_decide; [|by apply Hu]. exfalso. apply Hm.
    by replace k with q by lia. }
  set (s1 := set_free_map b' s) in *.
  wp_step. wp_step. change (free_map_file s1) with (free_map_file s). rewrite Hf.
  wp_step. eapply mwp_mono; [apply (bitmap_write_spec _ s1 Hi' Hinv')|].
  intros ok s2 (_ & F & Hinv2 & Hv & Hsync). wp_step.
  destruct (frame_aframe _ _ F) as [_ Hm2].
  split; [by eapply aframe_set_map|]. split; [done|]. split; [done|]. split; [|done].
  rewrite Hm2. change (free_map s1) with b'. apply set_eq. intros q.
  rewrite elem_of_union, elem_of_singleton, !elem_of_free_sectors, Hc'. split.
  - intros [Hq Hqb]. rewrite Hb' in Hqb by lia. case_decide; [left; lia|by right].
  - intros [->|[Hq Hqb]]; (split; [lia|]); rewrite Hb' by lia; case_decide; (done || lia).
Qed.

(** The free map is a sector allocator. *)
#[export, refine] Instance free_map_allocator depth :
  allocator_ok (free_map_allocate malloc_ok me (S depth)) (free_map_release malloc_ok me (S depth)) := {|
    al_free := free_sectors;
    al_meta := fm_meta;
    al_inode := fun p => p = ip;
    al_file := fun p => p = fp;
    al_inv := fm_inv;
|}.
Proof.
  - intros s k Hinv Hk. pose proof Hinv as [Hw [Hc _] Hu _ _ _ _].
    rewrite elem_of_free_sectors, Hc in Hk. split; [tauto|]. intros Hm%Hu. destruct Hk. congruence.
  - intros s s' Hinv Hf Hv. by eapply fm_stable.
  - intros s s' [Hw Hc Hu (Hf & f & Hfp & Hfi) (i & [Op Od Om Ol Ow] & Hi & Hdl) Ho Hl] Es Em Ef Ei Efl.
    assert (Ev : sv s' = sv s) by (unfold sv; by rewrite Es).
    assert (Ez : ssize s' = ssize s) by (unfold ssize; by rewrite Es).
    split; rewrite ?Em, ?Ez, ?Ev, ?Ef; try done.
    + split; [done|]. exists f. by rewrite Efl.
    + exists i. split; [|done]. split; rewrite ?Ev, ?Ez; try done. by rewrite Ei.
  - intros s Hi Hinv. eapply mwp_mono; [by apply free_map_allocate_spec|].
    intros [k|] s' (? & ? & ? & Hk); split_and!; try done; apply Hk.
  - intros s k Hi Hinv Hk Hm Hf. eapply mwp_mono; [by apply free_map_release_spec|].
    intros ? s' (? & ? & ? & ? & _). done.
Defined.
End spec.
