(* ===== verification/Directory.v ===== *)
(** * Directory: filesys/directory.c

    A directory is a file of 20-byte entries: inode sector, name[15], in_use.
    Entries are kept as bytes, so that what is left behind a name's terminator
    and the uninitialised local [struct dir_entry e] ([garbage]) stay visible. *)
From S2P Require Import Prelude Lock Block Store Bitmap FsState Inode File FreeMap.

Definition NAME_MAX : Z := 14.
Definition ENTRY_SIZE : Z := 20.

(** [struct dir_entry] as bytes. *)
Definition e_sector (e : list Z) : Z := le_val (take 4 e).
Definition e_in_use (e : list Z) : bool := negb (nth 19 e 0 =? 0).
Definition set_in_use (v : Z) (e : list Z) : list Z := take 19 e ++ [v].
Definition set_sector (k : Z) (e : list Z) : list Z := le_bytes 4 k ++ drop 4 e.
(** [strcmp (name, e.name) == 0] and [strlen (e.name)]: [mem] is the memory from
    [e.name] to the end of the entry; reading past it is a fault. *)
Fixpoint strcmp_eq (name mem : list Z) : res bool :=
  match mem with
  | [] => Fault
  | x :: mem' =>
      match name with
      | [] => Ok (x =? 0)
      | c :: name' => if c =? x then strcmp_eq name' mem' else Ok false
      end
  end.
Fixpoint c_string (mem : list Z) : res (list Z) :=
  match mem with
  | [] => Fault
  | x :: mem' => if x =? 0 then Ok [] else l ← c_string mem'; mret (x :: l)
  end.
(** [strlcpy (e.name, name, sizeof e.name)] *)
Definition set_name (name : list Z) (e : list Z) : list Z :=
  let n := take (Z.to_nat NAME_MAX) name in
  take 4 e ++ n ++ [0] ++ drop (4 + length n + 1) e.
(** [inode_read_at (inode, &e, sizeof e, ofs)] on top of what [e] held. *)
Definition fill (bs e : list Z) : list Z := bs ++ drop (length bs) e.

(** Turns of a scan of a directory: the largest file has fewer entries. *)
Definition SCAN_FUEL : nat := Z.to_nat (INODE_SPAN / ENTRY_SIZE + 2).

Section directory.
Context {St : Type} `{sector_store St}.
Variable malloc_ok : nat -> bool.
Variable me : Z.
Variable depth : nat.
Abbreviation FS A := (M (fs St) A).
Abbreviation alloc := (free_map_allocate malloc_ok me depth).
Abbreviation release := (free_map_release malloc_ok me depth).
Abbreviation kalloc := (kalloc malloc_ok).
Abbreviation inode_read_at := (inode_read_at malloc_ok).
Abbreviation inode_write_at := (inode_write_at malloc_ok me alloc).
Abbreviation inode_open := (inode_open malloc_ok me).
Abbreviation inode_close := (inode_close malloc_ok me release).

Definition dir_create (sector entry_cnt : Z) : FS bool :=
  inode_create malloc_ok alloc release sector (s32 (entry_cnt *u ENTRY_SIZE)) DIR_INODE.

Definition dir_open (ino : option Z) : FS (option Z) :=
  ok ← kalloc;
  match ino with
  | Some i =>
      if (ok : bool) then d ← fresh_ptr; _ ← put_dir d (Dir i 0); mret (Some d)
      else _ ← inode_close ino; mret None
  | None => _ ← inode_close None; mret None
  end.
Definition dir_open_root : FS (option Z) := i ← inode_open ROOT_DIR_SECTOR; dir_open i.
Definition dir_reopen (d : Z) : FS (option Z) :=
  d ← get_dir d; i ← inode_reopen me (Some (d_inode d)); dir_open i.
Definition dir_close (d : option Z) : FS unit :=
  match d with
  | None => mret tt
  | Some p => d ← get_dir p; _ ← inode_close (Some (d_inode d)); free_dir p
  end.
Definition dir_get_inode (d : Z) : FS Z := d ← get_dir d; mret (d_inode d).

(** Loop of [lookup]: local [ofs]. *)
Definition lookup_body (p : Z) (name : list Z) (ofs : Z) : FS (Z + option (list Z * Z)) :=
  e ← inode_read_at p ENTRY_SIZE (s32 ofs);
  if zlen e =? ENTRY_SIZE then
    if e_in_use e then
      eq ← lift (strcmp_eq name (drop 4 e));
      if (eq : bool) then mret (inr (Some (e, ofs))) else mret (inl (ofs +u ENTRY_SIZE))
    else mret (inl (ofs +u ENTRY_SIZE))
  else mret (inr None).
(** [lookup]: the entry and its offset. *)
Definition lookup (d : Z) (name : list Z) : FS (option (list Z * Z)) :=
  d ← get_dir d; mloop SCAN_FUEL (lookup_body (d_inode d) name) 0.

(** [dir_lookup]: [*inode] on exit; the return value is whether it is non-null. *)
Definition dir_lookup (d : option Z) (name : list Z) : FS (option Z) :=
  _ ← assert (bool_decide (d <> None));
  d ← lift (deref d);
  r ← lookup d name;
  match r with
  | Some (e, _) => inode_open (e_sector e)
  | None => mret None
  end.

(** Loop of [dir_add] that looks for a free slot; locals [e] and [ofs]. *)
Definition free_slot_body (p : Z) (l : list Z * Z) : FS (list Z * Z + list Z * Z) :=
  let '(e, ofs) := l in
  bs ← inode_read_at p ENTRY_SIZE ofs;
  let e := fill bs e in
  if zlen bs =? ENTRY_SIZE then
    if negb (e_in_use e) then mret (inr (e, ofs)) else mret (inl (e, s32 (ofs + ENTRY_SIZE)))
  else mret (inr (e, ofs)).
Definition dir_add (garbage : list Z) (d : option Z) (name : list Z) (inode_sector : Z) : FS bool :=
  _ ← assert (bool_decide (d <> None));
  if (zlen name =? 0) || (NAME_MAX <? zlen name) then mret false
  else
    p ← lift (deref d);
    r ← lookup p name;
    match r with
    | Some _ => mret false
    | None =>
        d ← get_dir p;
        '(e, ofs) ← mloop SCAN_FUEL (free_slot_body (d_inode d)) (garbage, 0);
        let e := set_sector inode_sector (set_name name (set_in_use 1 e)) in
        n ← inode_write_at (d_inode d) e ENTRY_SIZE ofs;
        mret (n =? ENTRY_SIZE)
    end.

Definition dir_remove (d : option Z) (name : list Z) : FS bool :=
  _ ← assert (bool_decide (d <> None));
  p ← lift (deref d);
  r ← lookup p name;
  match r with
  | None => _ ← inode_close None; mret false
  | Some (e, ofs) =>
      i ← inode_open (e_sector e);
      match i with
      | None => _ ← inode_close None; mret false
      | Some q =>
          d ← get_dir p;
          n ← inode_write_at (d_inode d) (set_in_use 0 e) ENTRY_SIZE (s32 ofs);
          if negb (n =? ENTRY_SIZE) then _ ← inode_close i; mret false
          else _ ← inode_remove q; _ ← inode_close i; mret true
      end
  end.

(** [dir_readdir]: the name stored, when it returns true. *)
Definition readdir_body (p : Z) (_ : unit) : FS (unit + option (list Z)) :=
  d ← get_dir p;
  e ← inode_read_at (d_inode d) ENTRY_SIZE (d_pos d);
  if zlen e =? ENTRY_SIZE then
    _ ← put_dir p (Dir (d_inode d) (s32 (d_pos d + ENTRY_SIZE)));
    if e_in_use e then
      name ← lift (c_string (drop 4 e)); mret (inr (Some name))
    else mret (inl tt)
  else mret (inr None).
Definition dir_readdir (p : Z) : FS (option (list Z)) := mloop SCAN_FUEL (readdir_body p) tt.

Definition dir_set_pos (p pos : Z) : FS unit := d ← get_dir p; put_dir p (Dir (d_inode d) pos).
Definition dir_get_pos (p : Z) : FS Z := d ← get_dir p; mret (d_pos d).
End directory.
