(* ===== verification/Filesys.v ===== *)
(** * Filesys: filesys/filesys.c

    Creating, opening and removing files by name, formatting, mounting and
    unmounting, composed from the directory, file, inode and free-map layers. *)
From S2P Require Import Prelude Lock Block Store Bitmap FsState Inode File FreeMap Directory.

Section filesys.
Context {St : Type} `{sector_store St}.
Variable malloc_ok : nat -> bool.
Variable me : Z.
Variable depth : nat.
Variable garbage : list Z.
Abbreviation FS A := (M (fs St) A).
Abbreviation alloc := (free_map_allocate malloc_ok me depth).
Abbreviation release := (free_map_release malloc_ok me depth).
Abbreviation dir_open_root := (dir_open_root malloc_ok me depth).
Abbreviation dir_close := (dir_close malloc_ok me depth).
Abbreviation dir_lookup := (dir_lookup malloc_ok me).
Abbreviation dir_add := (dir_add malloc_ok me depth garbage).
Abbreviation dir_remove := (dir_remove malloc_ok me depth).
Abbreviation file_open := (file_open malloc_ok me release).
Abbreviation file_clear := (file_clear malloc_ok me alloc).
Abbreviation file_close := (file_close malloc_ok me release).

Definition filesys_open (name : list Z) : FS (option Z) :=
  dir ← dir_open_root;
  i ← (match dir with Some _ => dir_lookup dir name | None => mret None end);
  _ ← dir_close dir;
  file_open i.
Definition filesys_open_with_dir (dir : option Z) (name : list Z) : FS (option Z) :=
  match dir with
  | None => mret None
  | Some _ => i ← dir_lookup dir name; file_open i
  end.

(** The part [filesys_create] and [filesys_create_with_dir] share: allocate the
    inode's sector, create the inode, add the entry; every step is attempted
    whatever the one before returned. *)
Definition create_entry (dir : option Z) (name : list Z) (initial_size type : Z) : FS bool :=
  r ← alloc;
  let inode_sector := default 0 r in
  created ← inode_create malloc_ok alloc release inode_sector initial_size type;
  dir_add_r ← dir_add dir name inode_sector;
  let success := bool_decide (dir <> None) && bool_decide (r <> None) && created && dir_add_r in
  _ ← (if negb success && negb (inode_sector =? 0) then release inode_sector else mret tt);
  mret success.

Definition filesys_create (name : list Z) (initial_size type : Z) : FS bool :=
  dir ← dir_open_root;
  success ← create_entry dir name initial_size type;
  _ ← dir_close dir;
  if (success : bool) then
    fp ← filesys_open name;
    p ← lift (deref fp);
    _ ← file_clear p initial_size;
    _ ← file_close fp;
    mret success
  else mret success.
Definition filesys_create_with_dir (dir : option Z) (name : list Z) (initial_size type : Z) : FS bool :=
  success ← create_entry dir name initial_size type;
  if (success : bool) then
    fp ← filesys_open_with_dir dir name;
    p ← lift (deref fp);
    _ ← file_clear p initial_size;
    _ ← file_close fp;
    mret success
  else mret success.

Definition filesys_remove (name : list Z) : FS bool :=
  dir ← dir_open_root;
  success ← (match dir with Some _ => dir_remove dir name | None => mret false end);
  _ ← dir_close dir;
  mret success.
Definition filesys_remove_with_dir (dir : option Z) (name : list Z) : FS bool :=
  match dir with Some _ => dir_remove dir name | None => mret false end.

Definition do_format : FS unit :=
  _ ← free_map_create malloc_ok me depth;
  ok ← dir_create malloc_ok me depth ROOT_DIR_SECTOR 24;
  if negb ok then panic else free_map_close malloc_ok me depth.

(** [device]: the size of the BLOCK_FILESYS device, when there is one. *)
Definition filesys_init (device : option Z) (words : option (list Z)) (format : bool) : FS unit :=
  match device with
  | None => panic
  | Some size =>
      _ ← modify (fun s => set_open_inodes [] (set_open_inodes_lock None s));
      _ ← free_map_init size words;
      _ ← (if format then do_format else mret tt);
      free_map_open malloc_ok me depth
  end.
Definition filesys_done : FS unit := free_map_close malloc_ok me depth.
End filesys.
