(* ===== verification/FsExample.v ===== *)
(** * FsExample: a formatted device

    A 64-sector device, formatted and mounted by [filesys_init], with one file
    created, opened and written.  The state is what the model computes; it satisfies the
    invariants of the development, so the theorems about the file system apply
    to it. *)
From S2P Require Import Prelude Lock Block Store Bitmap FsState Inode InodeSpec InodeGrow InodeWrite File.
From S2P Require Import FreeMap FreeMapSpec Directory Filesys.

Definition all_ok (_ : nat) : bool := true.
Definition blank : fs flat_store :=
  Fs (FlatStore 64 ∅) ∅ [] None ∅ ∅ (Bitmap 0 []) None 100 0.
Definition junk : list Z := replicate 20 204.
(** Mount, then create the file "a" of 600 bytes and open it. *)
Definition ex_prog : M (fs flat_store) (option Z) :=
  _ ← filesys_init all_ok 1 2 (Some 64) (Some [77; 88]) true;
  _ ← filesys_create all_ok 1 2 junk [97] 600 FILE_INODE;
  f ← filesys_open all_ok 1 2 [97];
  _ ← file_write all_ok 1 (free_map_allocate all_ok 1 2) (default 0 f) [1; 2; 3; 4; 5] 5;
  mret f.
Definition ex_fs : fs flat_store := state_of (ex_prog blank) blank.
(** The open file, its inode, and the free map's. *)
Definition ex_file : Z := match ex_prog blank with Ok (Some f, _) => f | _ => 0 end.
Definition ex_inode : Z := match files ex_fs !! ex_file with Some f => f_inode f | None => 0 end.
Definition ex_isec : Z := match inodes ex_fs !! ex_inode with Some i => i_sector i | None => 0 end.
Definition ex_fm_file : Z := default 0 (free_map_file ex_fs).
Definition ex_fm_inode : Z := match files ex_fs !! ex_fm_file with Some f => f_inode f | None => 0 end.
Definition ex_disk (sector : Z) : inode_disk := decode_inode (sv ex_fs sector).
Definition ex_own (a : slot) : Z := match a with Data 0 => 2 | _ => 0 end.

Definition flat_check (s : fs flat_store) : bool :=
  (flat_size (store s) <=? 2 ^ 31) &&
  forallb (fun '(_, x) => (zlen x =? 512) && forallb (fun b => (0 <=? b) && (b <? 256)) x)
    (map_to_list (flat_data (store s))).
Lemma flat_check_ok s : flat_check s = true -> fs_inv s.
Proof.
  unfold flat_check. intros [Hs Hf]%andb_prop. apply Z.leb_le in Hs. rewrite forallb_forall in Hf.
  assert (HA : forall k x, flat_data (store s) !! k = Some x -> zlen x = 512 /\ Forall is_u8 x).
  { intros k x Hk. apply elem_of_map_to_list, list_elem_of_In in Hk. apply Hf in Hk.
    apply andb_prop in Hk as [Hl Hb]. split; [by apply Z.eqb_eq|]. rewrite Forall_forall.
    intros b Hin. rewrite forallb_forall in Hb. apply Hb in Hin.
    unfold is_u8. apply andb_prop in Hin as [?%Z.leb_le ?%Z.ltb_lt]. lia. }
  split.
  - intros k x Hk. by apply HA in Hk as [? _].
  - done.
  - intros k _. unfold sv, flat_get. simpl. unfold flat_get.
    destruct (flat_data (store s) !! k) as [x|] eqn:E; simpl; [by apply HA in E as [_ ?]|].
    apply zero_sector_u8.
Qed.
Lemma ex_fs_inv : fs_inv ex_fs.
Proof. apply flat_check_ok. vm_compute. reflexivity. Qed.

(** Files of at most 123 sectors have only direct slots. *)
Lemma slot_live_direct n a : n <= 123 -> slot_live n a -> exists k, a = Data k /\ 0 <= k < n.
Proof. destruct a; simpl; intros; try lia. by eexists. Qed.
Lemma file_wf_direct (size : Z) (other : Z -> Prop) v d n isec :
  length (d_sectors d) = 125%nat -> Forall is_u32 (d_sectors d) -> 0 <= n <= 123 ->
  0 <= isec < size -> ~ other isec ->
  Forall (fun b => 0 <= b < size /\ b <> isec /\ ~ other b) (take (Z.to_nat n) (d_sectors d)) ->
  NoDup (take (Z.to_nat n) (d_sectors d)) ->
  file_wf size other v d n isec.
Proof.
  intros Hl Hu Hn Hi Ho Hf Hd.
  assert (Hk : forall k, 0 <= k < n ->
    take (Z.to_nat n) (d_sectors d) !! Z.to_nat k = Some (slot_sector v d (Data k))).
  { intros k Hk. rewrite lookup_take_lt by lia. simpl. rewrite decide_True by lia.
    rewrite <- znth_lookup by lia. apply tab_some; [done|lia]. }
  split; try done; [lia| |].
  - intros a Ha. apply slot_live_direct in Ha as (k & -> & Hkn); [|lia].
    rewrite Forall_lookup in Hf. by eapply Hf, Hk.
  - intros a b Ha Hb E. apply slot_live_direct in Ha as (k & -> & Hkn); [|lia].
    apply slot_live_direct in Hb as (k' & -> & Hkn'); [|lia].
    pose proof (Hk k Hkn) as H1. pose proof (Hk k' Hkn') as H2. rewrite E in H1.
    pose proof (NoDup_lookup _ _ _ _ Hd H1 H2). f_equal. lia.
Qed.

#[export] Instance is_u32_dec z : Decision (is_u32 z).
Proof. unfold is_u32. apply _. Defined.
Lemma bitmap_wf_compute b : bool_decide (0 <= bit_cnt b < 2 ^ 32 - 32 /\
  zlen (bits b) = (bit_cnt b + 31) / 32 /\ Forall is_u32 (bits b)) = true -> bitmap_wf b.
Proof. intros (? & ? & ?)%bool_decide_eq_true_1. by split. Qed.

(** A computed state whose free map's file has one sector is a mounted one. *)
Lemma fm_inv_compute (s : fs flat_store) fp ip d own ino k f :
  bitmap_wf (free_map s) -> bit_cnt (free_map s) = ssize s -> 0 < ssize s ->
  nsec (d_length d) = 1 -> 0 <= d_length d <= INODE_SPAN -> d_magic d = INODE_MAGIC ->
  bit (free_map s) 0 = true -> bit (free_map s) k = true -> own (Data 0) = k ->
  free_map_file s = Some fp -> files s !! fp = Some f -> f_inode f = ip ->
  inodes s !! ip = Some ino -> i_sector ino = 0 -> deny_write_lock ino = None ->
  deny_write_cnt ino = 0 -> decode_inode (sv s 0) = d ->
  length (d_sectors d) = 125%nat -> Forall is_u32 (d_sectors d) -> tab d 0 = k -> 0 < k < ssize s ->
  byte_cnt (bit_cnt (free_map s)) <= d_length d ->
  fm_inv fp ip 0 d own s.
Proof.
  intros Hw Hc Hp HN HL Hmg H0 Hk Hok Hf Hff Hfi Hi His Hil Hic Hd Hls Hu Ht Hkr Hlen.
  assert (H1 : forall a, slot_live (nsec (d_length d)) a -> a = Data 0).
  { rewrite HN. intros a Ha. apply slot_live_direct in Ha as (j & -> & Hj); [|lia].
    f_equal. lia. }
  assert (Hs1 : take 1 (d_sectors d) = [k]).
  { pose proof (tab_some d 0 Hls ltac:(lia)) as E. rewrite Ht in E.
    unfold znth in E. destruct (d_sectors d); simpl in *; [done|]. by injection E as ->. }
  split; try done.
  - intros q [->|(a & Ha & ->)]; [done|]. rewrite (H1 a Ha), Hok. done.
  - split; [done|]. by exists f.
  - exists ino. split; [|done]. split; try done; [by rewrite His|]. rewrite HN, His.
    apply file_wf_direct; try done; try lia; change (Z.to_nat 1) with 1%nat; rewrite Hs1.
    + repeat constructor; (lia || exact id).
    + apply NoDup_singleton.
  - intros a Ha. rewrite (H1 a Ha), Hok. simpl. done.
Qed.
(** Its hypotheses are computed. *)
Ltac compute_hyp :=
  lazymatch goal with
  | |- bitmap_wf _ => apply bitmap_wf_compute; vm_compute; reflexivity
  | |- Forall _ _ => apply (bool_decide_unpack _); vm_compute; exact I
  | |- _ = _ => vm_compute; reflexivity
  | |- _ => vm_compute; first [reflexivity | split; first [reflexivity | intros E; discriminate E]
      | intros E; discriminate E]
  end.
Lemma ex_fm_inv : fm_inv ex_fm_file ex_fm_inode 0 (ex_disk 0) ex_own ex_fs.
Proof.
  apply (fm_inv_compute ex_fs ex_fm_file ex_fm_inode (ex_disk 0) ex_own
    (Inode 0 1 false None None 0 0) 2 (File ex_fm_inode 0 false)); compute_hyp.
Qed.

(** The free map of the example as the allocator of its files. *)
Definition ex_alloc : M (fs flat_store) (option Z) := free_map_allocate all_ok 1 2.
Definition ex_release : Z -> M (fs flat_store) unit := free_map_release all_ok 1 2.
#[export] Instance ex_allocator : allocator_ok ex_alloc ex_release :=
  free_map_allocator all_ok (fun _ => eq_refl) 1 ex_fm_file ex_fm_inode 0 (ex_disk 0) ex_own 1.
Abbreviation ex_taken := (taken (alloc := ex_alloc) (release := ex_release) ex_fs).

Lemma ex_taken_iff q : ex_taken q <-> q = 0 \/ q = 2 \/ q ∈ free_sectors (free_map ex_fs).
Proof.
  assert (HN : nsec (d_length (ex_disk 0)) = 1) by (vm_compute; reflexivity).
  unfold taken. cbn [al_meta al_free ex_allocator free_map_allocator]. unfold fm_meta. rewrite HN.
  clear HN. split.
  - intros [[->|(a & Ha & ->)]|Hf]; [by left| |by right; right].
    apply slot_live_direct in Ha as (k & -> & Hk); [|lia]. assert (k = 0) as -> by lia.
    right; left. reflexivity.
  - intros [->|[->|Hf]]; [left; by left| |by right]. left. right. exists (Data 0).
    split; [simpl; lia|reflexivity].
Qed.
#[export] Instance ex_taken_dec q : Decision (q = 0 \/ q = 2 \/ q ∈ free_sectors (free_map ex_fs)).
Proof. apply _. Defined.
Lemma ex_al_inv : al_inv (alloc := ex_alloc) (release := ex_release) ex_fs.
Proof. apply ex_fm_inv. Qed.
Definition ex_ino : inode := Inode ex_isec 1 false None None 0 0.
Lemma ex_open : open_file ex_taken ex_fs ex_inode ex_ino (ex_disk ex_isec).
Proof.
  assert (HN : nsec (d_length (ex_disk ex_isec)) = 2) by (vm_compute; reflexivity).
  split; rewrite ?HN; clear HN.
  - vm_compute. reflexivity.
  - reflexivity.
  - vm_compute. reflexivity.
  - vm_compute. split; intros E; discriminate E.
  - replace (ssize ex_fs) with 64 by (vm_compute; reflexivity).
    assert (Hd : take (Z.to_nat 2) (d_sectors (ex_disk ex_isec)) = [5; 6]) by (vm_compute; reflexivity).
    assert (Hi : i_sector ex_ino = 4) by (vm_compute; reflexivity).
    assert (Hn : Forall (fun q => ~ (q = 0 \/ q = 2 \/ q ∈ free_sectors (free_map ex_fs))) [4; 5; 6]).
    { apply (bool_decide_unpack _). vm_compute. exact I. }
    apply Forall_cons_1 in Hn as [H4 Hn]. apply Forall_cons_1 in Hn as [H5 Hn].
    apply Forall_cons_1 in Hn as [H6 _].
    apply (not_iff_compat (ex_taken_iff _)) in H4, H5, H6.
    apply file_wf_direct.
    + vm_compute. reflexivity.
    + apply (bool_decide_unpack _). vm_compute. exact I.
    + lia.
    + rewrite Hi. lia.
    + rewrite Hi. exact H4.
    + rewrite Hd, Hi. repeat constructor; try lia; assumption.
    + rewrite Hd. apply (bool_decide_unpack _). vm_compute. exact I.
Qed.

(** A larger device, just formatted. *)
Definition big_blank : fs flat_store :=
  Fs (FlatStore 256 ∅) ∅ [] None ∅ ∅ (Bitmap 0 []) None 100 0.
Definition big_fs : fs flat_store :=
  state_of (filesys_init all_ok 1 2 (Some 256) (Some (replicate 8 77)) true big_blank) big_blank.
Definition big_fm_file : Z := default 0 (free_map_file big_fs).
Definition big_fm_inode : Z := match files big_fs !! big_fm_file with Some f => f_inode f | None => 0 end.
Definition big_disk : inode_disk := decode_inode (sv big_fs 0).
Lemma big_fs_inv : fs_inv big_fs.
Proof. apply flat_check_ok. vm_compute. reflexivity. Qed.
Lemma big_fm_inv : fm_inv big_fm_file big_fm_inode 0 big_disk ex_own big_fs.
Proof.
  apply (fm_inv_compute big_fs big_fm_file big_fm_inode big_disk ex_own
    (Inode 0 1 false None None 0 0) 2 (File big_fm_inode 0 false)); compute_hyp.
Qed.
Definition big_allocator : allocator_ok ex_alloc ex_release :=
  free_map_allocator all_ok (fun _ => eq_refl) 1 big_fm_file big_fm_inode 0 big_disk ex_own 1.
Lemma big_not_taken : ~ taken (allocator_ok0 := big_allocator) big_fs 1.
Proof.
  assert (HN : nsec (d_length big_disk) = 1) by (vm_compute; reflexivity).
  unfold taken. cbn [al_meta al_free big_allocator free_map_allocator]. unfold fm_meta. rewrite HN.
  clear HN. intros [[E|(a & Ha & E)]|Hf]; [discriminate E| |].
  - apply slot_live_direct in Ha as (k & -> & Hk); [|lia]. assert (k = 0) as -> by lia. discriminate E.
  - revert Hf. apply (bool_decide_unpack _). vm_compute. exact I.
Qed.

(** The kernel unfolds the computed states last. *)
#[global] Strategy 1000 [ex_fs big_fs].
