(* ===== verification/FsProps.v ===== *)
(** * FsProps: what filesys/inode.c, free-map.c and file.c guarantee

    The theorems about files, with witnesses on the formatted device of
    FsExample.v. *)
From S2P Require Import Prelude Lock Block Store Bitmap FsState Inode InodeSpec InodeGrow InodeWrite File.
From S2P Require Import FreeMap FreeMapSpec Directory Filesys FsExample.

(** ** Helper lemmas *)
Section helpers.
Context {St : Type} `{sector_store_ok St} {alloc : M (fs St) (option Z)}
  {release : Z -> M (fs St) unit} `{!allocator_ok alloc release}.
Implicit Types (s : fs St).
Abbreviation taken := (taken (alloc := alloc) (release := release)).
(** A file none of whose sectors changed. *)
Lemma other_file_kept s s' (other : Z -> Prop) q j e : aframe s s' ->
  (forall x, other x -> taken s x) -> open_file (taken s) s q j e ->
  (forall x, owns (sv s) e (nsec (d_length e)) (i_sector j) x -> sv s' x = sv s x) ->
  open_file other s' q j e /\
  forall off cnt, 0 <= off -> off + cnt <= 512 * nsec (d_length e) ->
    bytes_at (sv s') e off cnt = bytes_at (sv s) e off cnt.
Proof.
  intros F Hsub [Op Od Om Ol Ow] Hv. pose proof Ow as [Wl Wu Wn [Wi1 Wi2] Ws Wj].
  assert (Hs : forall a, slot_live (nsec (d_length e)) a ->
    sv s' (slot_sector (sv s) e a) = sv s (slot_sector (sv s) e a)).
  { intros a Ha. apply Hv. right. by exists a. }
  assert (Hsl : forall a, slot_live (nsec (d_length e)) a ->
    slot_sector (sv s') e a = slot_sector (sv s) e a).
  { intros a Ha. apply (slot_sector_ext _ _ _ (nsec (d_length e))); auto. }
  split.
  - split; try done.
    + by rewrite (aframe_inodes _ _ F).
    + rewrite Hv; [done|by left].
    + rewrite (af_size _ _ F). apply (file_wf_ext _ _ (sv s)); [|auto].
      split; try done; [split; [done|intros ?; by apply Wi2, Hsub]|].
      intros a Ha. destruct (Ws a Ha) as (? & ? & Ho). split_and!; try lia; try done.
      intros ?. by apply Ho, Hsub.
  - intros off cnt Ho Hc. unfold bytes_at. apply list_fmap_ext. intros i x [Hx Hi]%lookup_seqZ.
    unfold byte_at. rewrite Hsl, Hs by (simpl; dlia). done.
Qed.
End helpers.

(** ** Properties of inodes *)

(** C11.  Reading is exact: on an open file, [inode_read_at] of [size] bytes at
    [offset] returns the file's bytes from [offset] on, as many as asked for or
    left before the end of the file, through direct, indirect and doubly indirect
    blocks alike; it always returns, fails no assertion, and changes neither
    a sector nor an object in memory. *)
Theorem inode_read_at_bytes {St} `{sector_store_ok St} malloc_ok (other : Z -> Prop) (s : fs St) p i d
    size offset :
  (forall n, malloc_ok n = true) -> fs_inv s -> open_file other s p i d ->
  is_s32 size -> 0 <= offset < 2 ^ 31 ->
  exists s', inode_read_at malloc_ok p size offset s =
      Ok (bytes_at (sv s) d offset (Z.max 0 (Z.min size (d_length d - offset))), s') /\
    (forall k, sv s' k = sv s k) /\
    s' = set_store (store s') (set_allocs (allocs s') s).
Proof.
  intros Hm Hi Hof Hsz Hoff.
  pose proof (inode_read_at_spec malloc_ok Hm other s p i d Hi Hof s size offset
    (reads_refl s Hi) Hsz Hoff) as Hr.
  apply mwp_ok in Hr as (r & s' & Heq & -> & [Hf Hv]). exists s'. split; [exact Heq|].
  split; [exact Hv|apply Hf].
Qed.

(** The rest of the last sector of a file, behind its length, is zero: so it is when the
    file has been created, and so writing leaves it. *)
Definition slack_zero (v : Z -> list Z) (d : inode_disk) : Prop :=
  forall j, d_length d <= j < 512 * nsec (d_length d) -> byte_at v d j = 0.

Lemma grown_slack v v' d d' buffer off size : 0 <= d_length d <= INODE_SPAN -> 0 <= d_length d' <= INODE_SPAN ->
  d_length d' = Z.max (d_length d) (off + size) ->
  (forall j, 0 <= j < 512 * nsec (d_length d') -> byte_at v' d' j =
     splice_byte buffer off size j (if decide (j < 512 * nsec (d_length d)) then byte_at v d j else 0)) ->
  slack_zero v d -> slack_zero v' d' /\
    forall j, d_length d <= j < d_length d' -> ~ (off <= j < off + size) -> byte_at v' d' j = 0.
Proof.
  intros H1 H2 HL HB HS. pose proof (nsec_bounds _ H2) as [_ Hn].
  assert (Hz : forall j, d_length d <= j < 512 * nsec (d_length d') -> ~ (off <= j < off + size) -> byte_at v' d' j = 0).
  { intros j Hj Ho. rewrite HB by lia. unfold splice_byte. rewrite decide_False by done. case_decide; [apply HS; lia|done]. }
  split; [intros j Hj; apply Hz; lia|intros j Hj Ho; apply Hz; [lia|done]].
Qed.

(** C1.  Writing is exact: on an open file that is not write-denied, with enough
    free sectors, [inode_write_at] writes all [size] bytes at any [offset] up to
    the maximal file size; the length becomes the larger of the old length and
    [offset + size].  In all of the file's sectors, behind its length too, each byte is
    the one written there, or the old one, or zero in a sector that is new; so if the
    slack of the last sector was zero it is zero again and the file has grown with zeros.
    Every sector in use that is not the file's, of an open file or not, is
    unchanged, and every other open file that shares no sector with this one
    stays well formed and keeps its bytes. *)
Theorem inode_write_at_bytes {St} `{sector_store_ok St} malloc_ok me
    (alloc : M (fs St) (option Z)) (release : Z -> M (fs St) unit) `{!allocator_ok alloc release}
    (s : fs St) p i d buffer size offset :
  let taken := taken (alloc := alloc) (release := release) in
  let n := nsec (d_length d) in
  (forall k, malloc_ok k = true) -> fs_inv s -> al_inv s -> ~ al_inode p ->
  open_file (taken s) s p i d -> deny_write_lock i = None -> deny_write_cnt i = 0 ->
  0 <= size -> 0 <= offset -> offset + size <= INODE_SPAN ->
  size <= zlen buffer -> Forall is_u8 buffer ->
  cost_to (d_length d) (offset + size) <= Z.of_nat (stdpp.base.size (al_free (free_map s))) ->
  exists s' d', inode_write_at malloc_ok me alloc p buffer size offset s = Ok (size, s') /\
    fs_inv s' /\ al_inv s' /\ open_file (taken s') s' p i d' /\
    d_length d' = Z.max (d_length d) (offset + size) /\
    (forall j, 0 <= j < 512 * nsec (d_length d') -> byte_at (sv s') d' j =
       if decide (offset <= j < offset + size) then default 0 (znth buffer (j - offset))
       else if decide (j < 512 * n) then byte_at (sv s) d j else 0) /\
    (slack_zero (sv s) d -> slack_zero (sv s') d' /\
       forall j, d_length d <= j < d_length d' -> ~ (offset <= j < offset + size) -> byte_at (sv s') d' j = 0) /\
    (forall x, ~ taken s x -> ~ owns (sv s) d n (i_sector i) x -> sv s' x = sv s x) /\
    forall q j e, open_file (taken s) s q j e ->
      (forall x, owns (sv s) e (nsec (d_length e)) (i_sector j) x ->
         ~ owns (sv s) d n (i_sector i) x) ->
      open_file (taken s') s' q j e /\
      bytes_at (sv s') e 0 (d_length e) = bytes_at (sv s) e 0 (d_length e).
Proof.
  intros taken n Hm Hi Hal Hai Hof Hl Hc Hs Ho He Hb Hu Hcost.
  pose proof (inode_write_at_spec malloc_ok Hm me s p i d buffer size offset
    Hi Hal Hai Hof Hl Hc Hs Ho He Hb Hu Hcost) as Hw.
  apply mwp_ok in Hw as (r & s' & Heq & -> & d' & [F A O T L B W X K _]).
  exists s', d'. split; [exact Heq|]. split; [apply F|]. split; [exact A|]. split; [exact O|].
  split; [exact L|]. split; [exact B|]. split; [|split; [exact X|]].
  - apply (grown_slack (sv s) (sv s') d d' buffer offset size); [apply Hof|apply O|exact L|exact B].
  - intros q j e Hq Hd. pose proof (of_length _ _ _ _ _ Hq) as Hel.
    pose proof (nsec_bounds _ Hel) as [_ Hns].
    destruct (other_file_kept s s' (taken s') q j e F K Hq) as [Hk1 Hk2].
    + intros x Hx. apply X; [|exact (Hd x Hx)]. destruct Hx as [->|(a & Ha & ->)].
      * apply (of_wf _ _ _ _ _ Hq).
      * apply (of_wf _ _ _ _ _ Hq), Ha.
    + split; [exact Hk1|]. apply Hk2; lia.
Qed.

(** C23.  Creating is exact: [inode_create] on an allocated sector
    makes it the inode of a file of [L] zero bytes, and zeros behind them in its last
    sector, whose sectors were free before, for every length up to the maximum, when there are
    enough free sectors; no other sector in use changes. *)
Theorem inode_create_zeroed {St} `{sector_store_ok St} malloc_ok
    (alloc : M (fs St) (option Z)) (release : Z -> M (fs St) unit) `{!allocator_ok alloc release}
    (s : fs St) sector L type :
  let taken := taken (alloc := alloc) (release := release) in
  (forall k, malloc_ok k = true) -> fs_inv s -> al_inv s ->
  0 <= sector < ssize s -> ~ taken s sector -> is_u32 type -> 0 <= L <= INODE_SPAN ->
  grow_cost 0 (Z.to_nat (nsec L)) <= Z.of_nat (stdpp.base.size (al_free (free_map s))) ->
  exists s', inode_create malloc_ok alloc release sector L type s = Ok (true, s') /\
    fs_inv s' /\ al_inv s' /\
    let d' := decode_inode (sv s' sector) in
    d_type d' = type /\ d_length d' = L /\ d_magic d' = INODE_MAGIC /\
    file_wf (ssize s') (taken s') (sv s') d' (nsec L) sector /\
    bytes_at (sv s') d' 0 L = replicate (Z.to_nat L) 0 /\ slack_zero (sv s') d' /\
    (forall q, owns (sv s') d' (nsec L) sector q -> q = sector \/ taken s q) /\
    (forall q, ~ taken s q -> q <> sector -> sv s' q = sv s q).
Proof.
  intros taken Hm Hi Hal Hsec Hnt Hty HL Hc.
  pose proof (inode_create_spec malloc_ok Hm s sector L type Hi Hal Hsec Hnt Hty HL Hc) as Hr.
  apply mwp_ok in Hr as (r & s' & Heq & -> & d' & [F A D (H1 & H2 & H3) W B O K X _]).
  pose proof (nsec_bounds _ HL) as [_ Hns]. exists s'. rewrite D.
  split; [exact Heq|]. split; [apply F|]. split; [exact A|]. split; [exact H1|]. split; [exact H2|].
  split; [exact H3|]. split; [exact W|]. split; [|split; [|split; [exact O|exact X]]].
  2: { intros j Hj. rewrite H2 in Hj. apply B. lia. }
  apply list_eq_same_length with (n := Z.to_nat L).
  - by rewrite length_replicate.
  - pose proof (bytes_at_len (sv s') d' 0 L ltac:(lia)). unfold zlen in *. lia.
  - intros k x y Hk Hx Hy. unfold bytes_at in Hx.
    rewrite list_lookup_fmap, lookup_seqZ_lt in Hx by lia. simpl in Hx. injection Hx as <-.
    rewrite lookup_replicate_2 in Hy by done. injection Hy as <-. apply B. lia.
Qed.

(**  Deallocating a file of at most 124 data sectors releases exactly its
    data sectors and its indirect table: they become free, nothing else does.
    The inode's own sector is not released. *)
Theorem deallocate_inode_releases {St} `{sector_store_ok St} malloc_ok
    (alloc : M (fs St) (option Z)) (release : Z -> M (fs St) unit) `{!allocator_ok alloc release}
    (s : fs St) sector :
  let taken := taken (alloc := alloc) (release := release) in
  let d := decode_inode (sv s sector) in
  let n := nsec (d_length d) in
  (forall k, malloc_ok k = true) -> fs_inv s -> al_inv s -> 0 < d_length d <= INODE_SPAN ->
  file_wf (ssize s) (taken s) (sv s) d n sector -> n <= 124 ->
  exists s', deallocate_inode malloc_ok release sector s = Ok (tt, s') /\ al_inv s' /\
    (forall q, q ∈ al_free (free_map s') <-> q ∈ al_free (free_map s) \/
       exists a, slot_live n a /\ q = slot_sector (sv s) d a) /\
    sector ∉ al_free (free_map s').
Proof.
  intros taken d n Hm Hi Hal HL Hwf Hn.
  pose proof (deallocate_inode_spec malloc_ok Hm s d sector Hi Hal eq_refl HL Hwf Hn) as Hr.
  apply mwp_ok in Hr as ([] & s' & Heq & [F A V W]). exists s'. split; [exact Heq|].
  split; [exact A|]. split; [exact W|]. intros Hin%W. destruct Hin as [Hin|(a & Ha & E)].
  - apply (wf_isec _ _ _ _ _ _ Hwf). by right.
  - by destruct (wf_slot _ _ _ _ _ _ Hwf a Ha) as (_ & Hne & _).
Qed.

(**  Deallocating a file of more than 124 data sectors uses the buffer of
    the indirect table after freeing it: [deallocate_inode] reaches undefined
    behaviour on every such file. *)
Theorem deallocate_inode_use_after_free {St} `{sector_store_ok St} malloc_ok
    (alloc : M (fs St) (option Z)) (release : Z -> M (fs St) unit) `{!allocator_ok alloc release}
    (s : fs St) sector :
  let d := decode_inode (sv s sector) in
  (forall k, malloc_ok k = true) -> fs_inv s -> al_inv s -> 0 < d_length d <= INODE_SPAN ->
  file_wf (ssize s) (taken (alloc := alloc) (release := release) s) (sv s) d (nsec (d_length d)) sector ->
  124 < nsec (d_length d) ->
  deallocate_inode malloc_ok release sector s = Fault.
Proof.
  intros d Hm Hi Hal HL Hwf Hn. by eapply deallocate_inode_fault.
Qed.

(** ** Properties of the free map *)

(** C6.  Allocation of a sector is exact and durable.  On a mounted file system
    [free_map_allocate] returns [None] only when every sector is in use;
    otherwise it returns a sector that was free, marks exactly that sector
    used, rewrites the free map's own file so that the disk holds the new map,
    and touches no other sector.  Releasing the sector again gives back the
    set of free sectors there was before.  The recursion through the file
    system ends at the first level. *)
Theorem free_map_allocate_exact {St} `{sector_store_ok St} malloc_ok me fp ip isec d own depth
    (s : fs St) :
  (forall k, malloc_ok k = true) -> fs_inv s -> fm_inv fp ip isec d own s ->
  exists r s', free_map_allocate malloc_ok me (S depth) s = Ok (r, s') /\
    fs_inv s' /\ fm_inv fp ip isec d own s' /\
    (forall q, ~ fm_meta isec d own q -> sv s' q = sv s q) /\
    match r with
    | None => free_sectors (free_map s) = ∅
    | Some k => k ∈ free_sectors (free_map s) /\
        free_sectors (free_map s') = free_sectors (free_map s) ∖ {[k]} /\ fm_sync d s' /\
        exists s2, free_map_release malloc_ok me depth k s' = Ok (tt, s2) /\
          free_sectors (free_map s2) = free_sectors (free_map s) /\ fm_sync d s2
    end.
Proof.
  intros Hm Hi Hinv.
  pose proof (free_map_allocate_spec malloc_ok Hm me fp ip isec d own depth s Hi Hinv) as Ha.
  apply mwp_ok in Ha as (r & s' & Heq & F & Hinv' & Hv & Hr). exists r, s'.
  split; [exact Heq|]. split; [apply F|]. split; [exact Hinv'|]. split; [exact Hv|].
  destruct r as [k|]; [|apply Hr]. destruct Hr as (Hk & Hfr & Hs).
  split; [exact Hk|]. split; [exact Hfr|]. split; [exact Hs|].
  assert (Hkr : 0 <= k < ssize s /\ ~ fm_meta isec d own k).
  { pose proof Hinv as [_ [Hc _] Hu _ _ _ _]. rewrite elem_of_free_sectors, Hc in Hk.
    split; [tauto|]. intros Hx%Hu. destruct Hk. congruence. }
  assert (Hrel : mwp (free_map_release malloc_ok me depth k) s' (fun _ s2 =>
    free_sectors (free_map s2) = {[k]} ∪ free_sectors (free_map s') /\ fm_sync d s2)).
  { eapply mwp_mono; [apply (free_map_release_spec malloc_ok Hm me fp ip isec d own depth s' k)|].
    - apply F.
    - exact Hinv'.
    - rewrite (af_size _ _ F). apply Hkr.
    - apply Hkr.
    - rewrite Hfr. set_solver.
    - intros [] s2 (_ & _ & _ & ? & ?). done. }
  apply mwp_ok in Hrel as ([] & s2 & Heq2 & Hf2 & Hs2). exists s2. split; [exact Heq2|].
  split; [|exact Hs2]. rewrite Hf2, Hfr. apply set_eq. intros q.
  destruct (decide (q = k)); set_solver.
Qed.

(** ** [file_clear] *)
Section clear.
Context {St : Type} `{sector_store_ok St} {alloc : M (fs St) (option Z)}
  {release : Z -> M (fs St) unit} `{!allocator_ok alloc release}.
Implicit Types (s : fs St).
Abbreviation taken := (taken (alloc := alloc) (release := release)).
Abbreviation al_inv := (al_inv (alloc := alloc) (release := release)).
Abbreviation al_inode := (al_inode (alloc := alloc) (release := release)).
Abbreviation al_file := (al_file (alloc := alloc) (release := release)).
Variable malloc_ok : nat -> bool.
Hypothesis Hmalloc : forall n, malloc_ok n = true.
Variable me : Z.

(** An open [struct file] that can be written. *)
Record writable s fp p i d pos : Prop := Writable {
  wa_inv : fs_inv s;
  wa_al : al_inv s;
  wa_own : ~ al_inode p /\ ~ al_file fp;
  wa_file : exists f, files s !! fp = Some f /\ f_inode f = p /\ f_pos f = pos;
  wa_open : open_file (taken s) s p i d;
  wa_lock : deny_write_lock i = None /\ deny_write_cnt i = 0;
}.
Lemma writable_set_pos s fp p i d pos f pos' : writable s fp p i d pos -> files s !! fp = Some f ->
  writable (set_files (<[fp := set_pos f pos']> (files s)) s) fp p i d pos'.
Proof.
  intros [[I1 I2 I3] A [O1 O2] (f0 & Hf & Hp & _) O L] Hf'. rewrite Hf in Hf'. injection Hf' as ->.
  split.
  - by split.
  - eapply al_ext; try done. intros q Hq. cbn [files set_files]. rewrite lookup_insert_ne; [done|].
    by intros ->.
  - done.
  - exists (set_pos f pos'). split; [apply lookup_insert_eq|done].
  - destruct O. by split.
  - done.
Qed.
(** One [file_write]. *)
Lemma file_write_spec s fp p i d pos buffer n : writable s fp p i d pos ->
  0 <= n -> 0 <= pos -> pos + n <= INODE_SPAN -> n <= zlen buffer -> Forall is_u8 buffer ->
  cost_to (d_length d) (pos + n) <=
    Z.of_nat (size (al_free (alloc := alloc) (release := release) (free_map s))) ->
  mwp (file_write malloc_ok me alloc fp buffer n) s (fun r s' => r = n /\ exists s1 d',
    written (alloc := alloc) (release := release) s s1 p i d d' buffer pos n /\
    free_map s' = free_map s1 /\ store s' = store s1 /\
    writable s' fp p i d' (pos + n)).
Proof.
  intros Hw Hn Hp Hs Hb Hu Hc. pose proof Hw as [I A [O1 O2] (f & Hf & Hfi & Hfp) O [L1 L2]].
  unfold file_write. wp_step. unfold get_file, mwp at 1. rewrite Hf, Hfi, Hfp. wp_step.
  eapply mwp_mono; [eapply (inode_write_at_spec malloc_ok Hmalloc me s p i d); done|].
  intros r s1 [-> (d' & W)]. pose proof (wr_frame _ _ _ _ _ _ _ _ _ W) as F.
  wp_step. unfold put_file. wp_step. wp_step. split; [done|]. exists s1, d'.
  split; [done|]. split; [done|]. split; [done|].
  change INODE_SPAN with 8517120 in Hs. rewrite s32_small by (unfold is_s32; lia). rewrite <- Hfp at 1.
  assert (Hf1 : files s1 = files s) by (rewrite (af_eq _ _ F); done).
  rewrite Hfp. eapply writable_set_pos; [|rewrite Hf1; exact Hf].
  split; try done; [apply F|apply W| |apply W].
  exists f. by rewrite Hf1.
Qed.
Lemma grow_cost_direct cnt : forall n, 0 <= n -> n + Z.of_nat cnt <= 123 ->
  grow_cost n cnt = Z.of_nat cnt.
Proof.
  induction cnt as [|cnt IH]; intros n Hn Hc; [done|]. cbn [grow_cost]. rewrite IH by lia.
  unfold ext_cost, new_slots. rewrite !decide_False by lia. unfold zlen. simpl. lia.
Qed.
Lemma cost_to_direct L L' : 0 <= L <= INODE_SPAN -> 0 <= L' <= INODE_SPAN -> nsec L' <= 123 ->
  cost_to L L' = Z.max 0 (nsec L' - nsec L).
Proof.
  intros HL HL' Hn. pose proof (nsec_bounds _ HL) as [? _]. unfold cost_to.
  destruct (decide (nsec L' <= nsec L)).
  - replace (Z.to_nat _) with 0%nat by lia. simpl. lia.
  - rewrite grow_cost_direct; lia.
Qed.
Lemma file_clear_spec s fp p i d pos len : writable s fp p i d pos -> 1024 < len < 2048 ->
  4 <= Z.of_nat (size (al_free (alloc := alloc) (release := release) (free_map s))) ->
  mwp (file_clear malloc_ok me alloc fp len) s (fun r s' => r = 2048 /\ exists d',
    writable s' fp p i d' 0 /\ d_length d' = Z.max (d_length d) 2048).
Proof.
  intros Hw Hlen Hfree. pose proof (wa_open _ _ _ _ _ _ Hw) as Hof.
  pose proof (of_length _ _ _ _ _ Hof) as HL. pose proof (nsec_bounds _ HL) as [Hns _].
  assert (Hspan : INODE_SPAN = 8517120) by reflexivity.
  pose proof (wa_file _ _ _ _ _ _ Hw) as (f & Hf & Hfi & Hfp).
  assert (Hzero : Forall is_u8 (replicate 1024 0)).
  { apply Forall_replicate. unfold is_u8. lia. }
  assert (Hzl : zlen (replicate 1024 0) = 1024) by reflexivity.
  unfold file_clear. wp_step. unfold get_file at 1, mwp at 1. rewrite Hf. wp_step. unfold put_file at 1. wp_step.
  pose proof (writable_set_pos _ _ _ _ _ _ _ 0 Hw Hf) as Hw1. set (s1 := set_files _ s) in *.
  change (free_map s) with (free_map s1) in Hfree.
  replace (S (Z.to_nat len)) with (S (S (S (Z.to_nat len - 2)))) by lia.
  wp_step. apply mloop_step. unfold clear_body at 1. destruct (Z.ltb_spec 0 len); [|lia].
  destruct (Z.ltb_spec len 1024); [lia|]. wp_step.
  assert (N1 : nsec 1024 = 2) by reflexivity. assert (N2 : nsec 2048 = 4) by reflexivity.
  assert (Hc1 : cost_to (d_length d) (0 + 1024) = Z.max 0 (2 - nsec (d_length d)))
    by (change (0 + 1024) with 1024; rewrite cost_to_direct, N1; lia).
  eapply mwp_mono; [apply (file_write_spec s1 fp p i d 0 _ 1024 Hw1); (lia || done)|].
  intros r s2 (-> & s2' & d1 & W & Hm2 & Hst2 & Hw2).
  rewrite !s32_small by (unfold is_s32; lia). change (0 + 1024 =? 0) with false. cbv iota. wp_step.
  apply mloop_step. unfold clear_body at 1. destruct (Z.ltb_spec 0 (len - (0 + 1024))); [|lia].
  destruct (Z.ltb_spec len 1024); [lia|]. wp_step.
  pose proof (wr_length _ _ _ _ _ _ _ _ _ W) as Hd1. pose proof (wr_free _ _ _ _ _ _ _ _ _ W) as Hf1.
  rewrite <- Hm2, Hc1 in Hf1. change (0 + 1024) with 1024 in *.
  assert (Hns1 : nsec (d_length d1) = Z.max (nsec (d_length d)) 2).
  { rewrite Hd1, <- N1. destruct (Z.max_spec (d_length d) 1024) as [[? ->]|[? ->]].
    - pose proof (nsec_mono (d_length d) 1024 ltac:(lia)). lia.
    - pose proof (nsec_mono 1024 (d_length d) ltac:(lia)). lia. }
  assert (Hc2 : cost_to (d_length d1) (1024 + 1024) = Z.max 0 (4 - nsec (d_length d1)))
    by (rewrite cost_to_direct; [rewrite <- N2; done|lia|lia|change (nsec (1024 + 1024)) with 4; lia]).
  eapply mwp_mono; [apply (file_write_spec s2 fp p i d1 1024 _ 1024 Hw2); (lia || done)|].
  intros r s3 (-> & s3' & d2 & W2 & _ & _ & Hw3).
  rewrite !s32_small by (unfold is_s32; lia). change (1024 + 1024 =? 0) with false. cbv iota. wp_step.
  apply mloop_step. unfold clear_body at 1.
  destruct (Z.ltb_spec 0 (len - 1024 - (1024 + 1024))); [lia|]. wp_step.
  pose proof (wa_file _ _ _ _ _ _ Hw3) as (f3 & Hf3 & _).
  wp_step. unfold get_file, mwp at 1. rewrite Hf3. wp_step. unfold put_file. wp_step. wp_step.
  split; [done|]. exists d2. split; [by eapply writable_set_pos|].
  rewrite (wr_length _ _ _ _ _ _ _ _ _ W2), Hd1. lia.
Qed.
End clear.

(**  [file_clear] overruns: asked to zero the first [size] bytes of a file,
    for every [size] strictly between 1024 and 2048 it writes 2048 bytes, so a
    file shorter than that grows to 2048 bytes. *)
Theorem file_clear_overruns {St} `{sector_store_ok St} malloc_ok me
    (alloc : M (fs St) (option Z)) (release : Z -> M (fs St) unit) `{!allocator_ok alloc release}
    (s : fs St) fp p i d pos size :
  (forall k, malloc_ok k = true) ->
  writable (alloc := alloc) (release := release) s fp p i d pos -> 1024 < size < 2048 ->
  4 <= Z.of_nat (stdpp.base.size (al_free (free_map s))) ->
  exists s' d', file_clear malloc_ok me alloc fp size s = Ok (2048, s') /\
    writable (alloc := alloc) (release := release) s' fp p i d' 0 /\
    d_length d' = Z.max (d_length d) 2048.
Proof.
  intros Hm Hw Hs Hf.
  pose proof (file_clear_spec malloc_ok Hm me s fp p i d pos size Hw Hs Hf) as Hr.
  apply mwp_ok in Hr as (r & s' & Heq & -> & d' & Hw' & Hl). exists s', d'.
  split; [exact Heq|]. split; [exact Hw'|exact Hl].
Qed.

(** ** Witnesses *)
Lemma inode_read_at_bytes_witness :
  exists s', inode_read_at all_ok ex_inode 8 2 ex_fs = Ok ([3; 4; 5; 0; 0; 0; 0; 0], s').
Proof.
  destruct (inode_read_at_bytes all_ok ex_taken ex_fs ex_inode ex_ino (ex_disk ex_isec) 8 2
    (fun _ => eq_refl) ex_fs_inv ex_open ltac:(unfold is_s32; lia) ltac:(lia)) as (s' & E & _).
  exists s'. rewrite E. do 2 f_equal.
Defined.

Lemma slack_zero_check v d : forallb (fun j => byte_at v d j =? 0)
    (seqZ (d_length d) (512 * nsec (d_length d) - d_length d)) = true -> slack_zero v d.
Proof. intros E j Hj. rewrite forallb_forall in E. apply Z.eqb_eq, E, list_elem_of_In, elem_of_seqZ. lia. Qed.
Lemma ex_slack_zero : slack_zero (sv ex_fs) (ex_disk ex_isec).
Proof. apply slack_zero_check. vm_compute. reflexivity. Qed.
Lemma inode_write_at_bytes_witness :
  exists s' d', inode_write_at all_ok 1 ex_alloc ex_inode [9; 8] 2 1023 ex_fs = Ok (2, s') /\
    d_length d' = 1025 /\ byte_at (sv s') d' 1024 = 8 /\ byte_at (sv s') d' 1022 = 0 /\
    byte_at (sv s') d' 0 = 1 /\ slack_zero (sv s') d'.
Proof.
  destruct (inode_write_at_bytes all_ok 1 ex_alloc ex_release ex_fs ex_inode ex_ino
    (ex_disk ex_isec) [9; 8] 2 1023 (fun _ => eq_refl) ex_fs_inv ex_al_inv) as
    (s' & d' & E & _ & _ & _ & Hl & Hb & Hz & _).
  - vm_compute. intros X. discriminate X.
  - exact ex_open.
  - reflexivity.
  - reflexivity.
  - lia.
  - lia.
  - vm_compute. intros X. discriminate X.
  - reflexivity.
  - repeat constructor; lia.
  - vm_compute. intros X. discriminate X.
  - replace (Z.max _ _) with 1025 in Hl by (vm_compute; reflexivity).
    assert (Hn : nsec (d_length d') = 3) by (rewrite Hl; reflexivity).
    exists s', d'. split; [exact E|]. split; [exact Hl|].
    rewrite !Hb by (rewrite Hn; lia). split; [vm_compute; reflexivity|]. split; [vm_compute; reflexivity|].
    split; [vm_compute; reflexivity|]. apply Hz, ex_slack_zero.
Defined.

Lemma inode_create_zeroed_witness :
  exists s', inode_create all_ok ex_alloc ex_release 1 64000 FILE_INODE big_fs = Ok (true, s') /\
    d_length (decode_inode (sv s' 1)) = 64000.
Proof.
  destruct (inode_create_zeroed all_ok ex_alloc ex_release (allocator_ok0 := big_allocator) big_fs 1
    64000 FILE_INODE (fun _ => eq_refl) big_fs_inv big_fm_inv) as (s' & E & _ & _ & _ & Hl & _).
  - vm_compute. split; [intros X; discriminate X|reflexivity].
  - exact big_not_taken.
  - unfold is_u32, FILE_INODE. lia.
  - vm_compute. split; intros X; discriminate X.
  - vm_compute. intros X. discriminate X.
  - exists s'. split; [exact E|exact Hl].
Defined.

Lemma deallocate_inode_releases_witness :
  exists s', deallocate_inode all_ok ex_release ex_isec ex_fs = Ok (tt, s') /\
    5 ∈ free_sectors (free_map s') /\ ex_isec ∉ free_sectors (free_map s').
Proof.
  destruct (deallocate_inode_releases all_ok ex_alloc ex_release ex_fs ex_isec
    (fun _ => eq_refl) ex_fs_inv ex_al_inv) as (s' & E & _ & Hf & Hs).
  - vm_compute. split; [reflexivity|intros X; discriminate X].
  - pose proof (of_wf _ _ _ _ _ ex_open) as W. unfold ex_disk in W.
    change (i_sector ex_ino) with ex_isec in W. exact W.
  - vm_compute. intros X. discriminate X.
  - exists s'. split; [exact E|]. split; [|exact Hs]. apply Hf. right. exists (Data 0).
    split; [vm_compute; split; [intros X; discriminate X|reflexivity]|vm_compute; reflexivity].
Defined.

(** A file of 64000 bytes, made by [inode_create] on the larger device. *)
Lemma deallocate_inode_use_after_free_witness :
  exists s', deallocate_inode all_ok ex_release 1 s' = Fault.
Proof.
  pose proof (inode_create_spec (allocator_ok0 := big_allocator) all_ok (fun _ => eq_refl) big_fs 1
    64000 FILE_INODE big_fs_inv big_fm_inv) as Hc.
  assert (Hm : mwp (inode_create all_ok ex_alloc ex_release 1 64000 FILE_INODE) big_fs
    (fun _ s' => exists d', created (allocator_ok0 := big_allocator) big_fs s' 1 FILE_INODE 64000 d')).
  { eapply mwp_mono; [apply Hc|intros ? ? [_ X]; exact X].
    - vm_compute. split; [intros X; discriminate X|reflexivity].
    - exact big_not_taken.
    - unfold is_u32, FILE_INODE. lia.
    - vm_compute. split; intros X; discriminate X.
    - vm_compute. intros X. discriminate X. }
  destruct (proj1 (mwp_ok _ _ _) Hm) as (? & s' & _ & d' & C). exists s'.
  destruct (cr_header _ _ _ _ _ _ C) as (_ & Hl & _).
  apply (deallocate_inode_use_after_free all_ok ex_alloc ex_release (allocator_ok0 := big_allocator)).
  - exact (fun _ => eq_refl).
  - apply C.
  - apply C.
  - rewrite (cr_disk _ _ _ _ _ _ C), Hl. vm_compute. split; [reflexivity|intros X; discriminate X].
  - rewrite (cr_disk _ _ _ _ _ _ C), Hl. exact (cr_wf _ _ _ _ _ _ C).
  - rewrite (cr_disk _ _ _ _ _ _ C), Hl. vm_compute. reflexivity.
Defined.

Lemma free_map_allocate_exact_witness :
  exists s', free_map_allocate all_ok 1 1 ex_fs = Ok (Some 7, s') /\ 7 ∉ free_sectors (free_map s').
Proof.
  destruct (free_map_allocate_exact all_ok 1 _ _ _ _ _ 0 ex_fs (fun _ => eq_refl) ex_fs_inv ex_fm_inv)
    as (r & s' & E & _ & _ & _ & Hr).
  assert (Hres : match free_map_allocate all_ok 1 1 ex_fs with Ok (x, _) => x | _ => None end = Some 7)
    by (vm_compute; reflexivity).
  rewrite E in Hres. subst r. exists s'. split; [exact E|]. destruct Hr as (_ & Hf & _).
  rewrite Hf. intros [_ Hn]%elem_of_difference. apply Hn, elem_of_singleton. reflexivity.
Defined.

Lemma file_clear_overruns_witness :
  exists s' d', file_clear all_ok 1 ex_alloc ex_file 1500 ex_fs = Ok (2048, s') /\ d_length d' = 2048.
Proof.
  destruct (file_clear_overruns all_ok 1 ex_alloc ex_release ex_fs ex_file ex_inode ex_ino
    (ex_disk ex_isec) 5 1500 (fun _ => eq_refl)) as (s' & d' & E & _ & Hl).
  - split.
    + exact ex_fs_inv.
    + exact ex_al_inv.
    + vm_compute. split; intros X; discriminate X.
    + exists (File ex_inode 5 false). vm_compute. repeat split.
    + exact ex_open.
    + split; reflexivity.
  - lia.
  - vm_compute. intros X. discriminate X.
  - exists s', d'. split; [exact E|]. rewrite Hl. vm_compute. reflexivity.
Defined.
