(* ===== verification/DirSpec.v ===== *)
(** * DirSpec: a directory is a finite map from names to sectors

    The entries of a directory are its file cut into pieces of 20 bytes
    ([entries_of]); those in use make a map ([dir_map]).  [lookup] finds a name in that
    map, and [dir_add] inserts one, wherever the free slot is and whatever the slot held
    before. *)
From S2P Require Import Prelude Lock Block Store Bitmap FsState Inode InodeSpec InodeGrow InodeWrite File.
From S2P Require Import FreeMap FreeMapSpec Directory Filesys FsExample.

(** ** Entries *)
Definition e_name (e : list Z) : option (list Z) :=
  match c_string (take 15 (drop 4 e)) with Ok l => Some l | _ => None end.
Definition entry_of (e : list Z) : option (list Z * Z) :=
  if e_in_use e then (fun n => (n, e_sector e)) <$> e_name e else None.
Definition used (es : list (list Z)) : list (list Z * Z) := omap entry_of es.
Definition dir_map (es : list (list Z)) : gmap (list Z) Z := list_to_map (used es).
(** The entries in use are named, by different names. *)
Record dir_ok (es : list (list Z)) : Prop := DirOk {
  do_len : Forall (fun e => length e = 20%nat) es;
  do_named : forall e, e ∈ es -> e_in_use e = true -> is_Some (e_name e);
  do_nodup : NoDup (used es).*1;
}.
Definition good_name (n : list Z) : Prop := n <> [] /\ zlen n <= NAME_MAX /\ 0 ∉ n /\ Forall is_u8 n.

Lemma c_string_prefix l m : 0 ∉ l -> c_string (l ++ 0 :: m) = Ok l.
Proof.
  induction l as [|x l IH]; simpl; [done|]. intros [Hx Hl]%not_elem_of_cons.
  rewrite (proj2 (Z.eqb_neq x 0)) by done. by rewrite IH.
Qed.
Lemma c_string_inv m l : c_string m = Ok l -> exists m', m = l ++ 0 :: m' /\ 0 ∉ l.
Proof.
  revert l. induction m as [|x m IH]; intros l; simpl; [done|].
  destruct (Z.eqb_spec x 0) as [->|Hx]; [intros [= <-]; exists m; split; [done|by intros ?%elem_of_nil]|].
  destruct (c_string m) as [l0| | |]; try done. intros [= <-]. destruct (IH l0 eq_refl) as (m' & -> & H0).
  exists m'. split; [done|]. by apply not_elem_of_cons.
Qed.
Lemma strcmp_prefix name l m : 0 ∉ name -> 0 ∉ l -> strcmp_eq name (l ++ 0 :: m) = Ok (bool_decide (name = l)).
Proof.
  revert l. induction name as [|c name IH]; intros l Hn Hl.
  - destruct l as [|x l]; simpl; [done|]. apply not_elem_of_cons in Hl as [Hx _].
    by rewrite (proj2 (Z.eqb_neq x 0)) by done.
  - apply not_elem_of_cons in Hn as [Hc Hn]. destruct l as [|x l]; simpl.
    + by rewrite (proj2 (Z.eqb_neq c 0)) by done.
    + apply not_elem_of_cons in Hl as [Hx Hl]. destruct (Z.eqb_spec c x) as [->|Hcx].
      * rewrite IH by done. f_equal. apply bool_decide_ext. split; congruence.
      * f_equal. symmetry. apply bool_decide_eq_false_2. congruence.
Qed.
(** The comparison of [lookup], on an entry in use. *)
Lemma strcmp_entry e name n : 0 ∉ name -> length e = 20%nat -> e_name e = Some n ->
  strcmp_eq name (drop 4 e) = Ok (bool_decide (name = n)).
Proof.
  intros H0 Hl He. unfold e_name in He. destruct (c_string (take 15 (drop 4 e))) as [l| | |] eqn:E; try done.
  injection He as <-. apply c_string_inv in E as (m & Em & Hn).
  rewrite <- (take_drop 15 (drop 4 e)), Em, <- app_assoc. by apply strcmp_prefix.
Qed.

(** ** The new entry *)
Definition new_entry (sector : Z) (name e : list Z) : list Z := set_sector sector (set_name name (set_in_use 1 e)).
Lemma new_entry_eq sector name e : zlen name <= NAME_MAX -> length e = 20%nat ->
  new_entry sector name e = le_bytes 4 sector ++ name ++ 0 :: drop (5 + length name) (take 19 e) ++ [1].
Proof.
  intros Hn He. unfold NAME_MAX, zlen in Hn. unfold new_entry, set_sector, set_name, set_in_use.
  change (Z.to_nat NAME_MAX) with 14%nat. rewrite (take_ge name) by lia.
  set (e1 := take 19 e ++ [1]). assert (length (take 4 e1) = 4%nat) as H4.
  { unfold e1. by rewrite length_take, length_app, length_take, He. }
  rewrite drop_app_length' by done. do 2 f_equal. cbn [app]. f_equal. unfold e1.
  rewrite drop_app_le by (rewrite length_take; lia). by replace (4 + length name + 1)%nat with (5 + length name)%nat by lia.
Qed.
Lemma new_entry_spec sector name e : good_name name -> is_u32 sector -> length e = 20%nat ->
  let e' := new_entry sector name e in
  length e' = 20%nat /\ entry_of e' = Some (name, sector) /\ e_in_use e' = true /\ e_name e' = Some name /\
  (Forall is_u8 e -> Forall is_u8 e').
Proof.
  intros (Hne & Hn & H0 & H8) Hs He. cbv zeta. rewrite new_entry_eq by done. unfold NAME_MAX, zlen in Hn.
  set (r := drop (5 + length name) (take 19 e)).
  assert (length r = 14 - length name)%nat as Hr by (unfold r; rewrite length_drop, length_take; lia).
  pose proof (le_bytes_length 4 sector) as H4.
  set (b := le_bytes 4 sector) in *.
  assert (drop 4 (b ++ name ++ 0 :: r ++ [1]) = name ++ 0 :: r ++ [1]) as Hd by (by rewrite <- H4, drop_app_length).
  assert (e_in_use (b ++ name ++ 0 :: r ++ [1]) = true) as Hu.
  { unfold e_in_use. replace (b ++ name ++ 0 :: r ++ [1]) with ((b ++ name ++ 0 :: r) ++ [1]) by (rewrite <- !app_assoc; done).
    rewrite app_nth2; rewrite !length_app, H4; simpl; rewrite Hr; [|lia].
    by replace (15 - (length name + S (14 - length name)))%nat with 0%nat by lia. }
  assert (e_name (b ++ name ++ 0 :: r ++ [1]) = Some name) as Hnm.
  { unfold e_name. rewrite Hd. replace (name ++ 0 :: r ++ [1]) with ((name ++ 0 :: r) ++ [1]) by (rewrite <- app_assoc; done).
    rewrite take_app_length' by (rewrite length_app; simpl; lia). by rewrite c_string_prefix. }
  assert (e_sector (b ++ name ++ 0 :: r ++ [1]) = sector) as Hsec.
  { unfold e_sector. rewrite take_app_length' by done.
    apply le_bytes_val. unfold is_u32 in Hs. change (256 ^ Z.of_nat 4) with (2 ^ 32). lia. }
  split; [rewrite !length_app, H4; simpl; rewrite length_app; simpl; lia|].
  split.
  { unfold entry_of. rewrite Hu, Hnm. cbn [fmap option_fmap option_map]. by rewrite Hsec. }
  split; [done|]. split; [done|]. intros H8e. apply Forall_app. split; [apply le_bytes_u8|]. apply Forall_app. split; [done|].
  constructor; [done|]. apply Forall_app. split; [by apply Forall_drop, Forall_take|by repeat constructor].
Qed.

(** ** The map *)
(** The first entry in use with a name, and its offset. *)
Fixpoint find_entry (name : list Z) (es : list (list Z)) (ofs : Z) : option (list Z * Z) :=
  match es with
  | [] => None
  | e :: es' => if e_in_use e && bool_decide (e_name e = Some name) then Some (e, ofs)
                else find_entry name es' (ofs + ENTRY_SIZE)
  end.
Lemma dir_ok_cons e es : dir_ok (e :: es) -> dir_ok es /\ length e = 20%nat /\ (e_in_use e = true -> is_Some (e_name e)).
Proof.
  intros [Hl Hn Hd]. apply Forall_cons_1 in Hl as [He Hl]. split; [|split; [done|apply Hn; left]].
  split; [done| |].
  - intros x Hx. apply Hn. by right.
  - unfold used in *. simpl in Hd. destruct (entry_of e); [by apply list.NoDup_cons in Hd as [_ ?]|done].
Qed.
Lemma dir_map_find name es : dir_ok es -> forall ofs,
  dir_map es !! name = (fun r => e_sector r.1) <$> find_entry name es ofs.
Proof.
  unfold dir_map, used. induction es as [|e es IH]; intros Ho ofs; simpl; [apply lookup_empty|].
  apply dir_ok_cons in Ho as (Ho & _ & Hnm). unfold entry_of. destruct (e_in_use e); simpl; [|by apply IH].
  destruct (Hnm eq_refl) as [n Hn]. rewrite Hn. simpl. case_bool_decide as E.
  - injection E as ->. by rewrite lookup_insert_eq.
  - rewrite lookup_insert_ne by congruence. by apply IH.
Qed.
Lemma find_entry_offset name es ofs e o : find_entry name es ofs = Some (e, o) ->
  exists k, es !! k = Some e /\ o = ofs + 20 * Z.of_nat k.
Proof.
  revert ofs. induction es as [|x es IH]; intros ofs; simpl; [done|]. destruct (_ && _).
  - intros [= -> ->]. exists 0%nat. split; [done|lia].
  - intros (k & Hk & ->)%IH. exists (S k). split; [done|]. unfold ENTRY_SIZE. lia.
Qed.
(** A new entry in place of one that is not in use, or at the end. *)
Definition put_entry (k : nat) (e : list Z) (es : list (list Z)) : list (list Z) := take k es ++ e :: drop (S k) es.
Lemma used_put k es x e : entry_of x = None -> (es !! k = Some x \/ (k = length es /\ es !! k = None)) ->
  exists l1 l2, used es = l1 ++ l2 /\ used (put_entry k e es) = l1 ++ option_list (entry_of e) ++ l2.
Proof.
  intros Hx Hk. exists (used (take k es)), (used (drop (S k) es)). unfold used, put_entry. rewrite omap_app. split.
  - destruct Hk as [Hk|[-> Hk]].
    + rewrite <- (take_drop_middle es k x Hk) at 1. rewrite omap_app. simpl. by rewrite Hx.
    + rewrite take_ge, drop_ge by lia. simpl. by rewrite app_nil_r.
  - f_equal. simpl. by destruct (entry_of e).
Qed.
Lemma put_entry_ok k es x e name sector : dir_ok es -> entry_of x = None ->
  (es !! k = Some x \/ (k = length es /\ es !! k = None)) ->
  length e = 20%nat -> entry_of e = Some (name, sector) -> e_name e = Some name -> dir_map es !! name = None ->
  dir_ok (put_entry k e es) /\ dir_map (put_entry k e es) = <[name := sector]> (dir_map es).
Proof.
  intros [Hl Hn Hd] Hx Hk He Hent Hnm Hnone. destruct (used_put k es x e Hx Hk) as (l1 & l2 & E1 & E2).
  rewrite Hent in E2. simpl in E2. unfold dir_map in *. rewrite E2. rewrite E1 in Hd, Hnone |- *.
  apply not_elem_of_list_to_map_2 in Hnone. rewrite fmap_app in Hd, Hnone.
  assert (l1 ++ (name, sector) :: l2 ≡ₚ (name, sector) :: l1 ++ l2) as Hperm by (symmetry; apply Permutation_middle).
  assert (NoDup (l1 ++ (name, sector) :: l2).*1) as Hd'.
  { rewrite Hperm. simpl. rewrite fmap_app. by apply list.NoDup_cons. }
  split; [split|].
  - unfold put_entry. apply Forall_app. split; [by apply Forall_take|]. constructor; [done|by apply Forall_drop].
  - intros y Hy. unfold put_entry in Hy. apply elem_of_app in Hy as [Hy|Hy].
    + apply Hn. apply list_elem_of_lookup in Hy as [i [Hy _]%lookup_take_Some]. by eapply list_elem_of_lookup_2.
    + apply elem_of_cons in Hy as [->|Hy]; [by rewrite Hnm|]. apply Hn.
      apply list_elem_of_lookup in Hy as [i Hy]. rewrite lookup_drop in Hy. by eapply list_elem_of_lookup_2.
  - by rewrite E2.
  - rewrite (list_to_map_proper _ ((name, sector) :: l1 ++ l2)); [done|done|done].
Qed.

(** ** Directory files *)
Definition entry_at (v : Z -> list Z) (d : inode_disk) (k : Z) : list Z := bytes_at v d (20 * k) 20.
Definition entries_of (v : Z -> list Z) (d : inode_disk) : list (list Z) := entry_at v d <$> seqZ 0 (d_length d / 20).
Lemma entries_len v d : 0 <= d_length d -> zlen (entries_of v d) = d_length d / 20.
Proof. intros. unfold entries_of, zlen. rewrite length_fmap, length_seqZ. dlia. Qed.
Lemma entries_lookup v d k : 0 <= d_length d -> (k < Z.to_nat (d_length d / 20))%nat ->
  entries_of v d !! k = Some (entry_at v d (Z.of_nat k)).
Proof. intros HL Hk. unfold entries_of. rewrite list_lookup_fmap, lookup_seqZ_lt by lia. done. Qed.
Lemma SCAN_FUEL_enough L : 0 <= L <= INODE_SPAN -> (Z.to_nat (L / 20) + 1 < SCAN_FUEL)%nat.
Proof.
  intros HL. unfold SCAN_FUEL. change (INODE_SPAN / ENTRY_SIZE + 2) with 425858. change INODE_SPAN with 8517120 in HL.
  assert (Z.of_nat (Z.to_nat 425858) = 425858) by (apply Z2Nat.id; lia). dlia.
Qed.
#[local] Opaque SCAN_FUEL.
#[local] Arguments entry_at : simpl never.

Section dir.
Context {St : Type} `{sector_store_ok St}.
Variable malloc_ok : nat -> bool.
Hypothesis Hmalloc : forall n, malloc_ok n = true.
Context (other : Z -> Prop) (s : fs St) (q pos p : Z) (i : inode) (d : inode_disk).
Hypothesis Hinv : fs_inv s.
Hypothesis Hfile : open_file other s p i d.
Hypothesis Hdir : dirs s !! q = Some (Dir p pos).
Hypothesis Hlen : d_length d mod 20 = 0.
Abbreviation es := (entries_of (sv s) d).
Hypothesis Hes : dir_ok es.

Lemma dlen_range : 0 <= d_length d <= 8517120.
Proof. pose proof (of_length _ _ _ _ _ Hfile) as Hl. by change INODE_SPAN with 8517120 in Hl. Qed.
(** Reading an entry, and reading at the end. *)
Lemma read_entry s1 k (Q : list Z -> fs St -> Prop) : reads s s1 -> 0 <= k <= d_length d / 20 ->
  (forall s2, reads s s2 -> Q (if decide (k < d_length d / 20) then entry_at (sv s) d k else []) s2) ->
  mwp (inode_read_at malloc_ok p ENTRY_SIZE (20 * k)) s1 Q.
Proof.
  intros Hr Hk HQ. pose proof dlen_range. eapply mwp_mono.
  - apply (inode_read_at_spec malloc_ok Hmalloc other s p i d Hinv Hfile s1 ENTRY_SIZE (20 * k) Hr).
    + unfold is_s32, ENTRY_SIZE. lia.
    + dlia.
  - intros r s2 [-> Hr2]. specialize (HQ s2 Hr2). unfold read_count, ENTRY_SIZE. case_decide.
    + replace (Z.max 0 (Z.min 20 (d_length d - 20 * k))) with 20 by dlia. done.
    + replace (Z.max 0 (Z.min 20 (d_length d - 20 * k))) with 0 by dlia. done.
Qed.
Lemma get_dir_spec s1 (Q : dir -> fs St -> Prop) : reads s s1 -> Q (Dir p pos) s1 -> mwp (get_dir q) s1 Q.
Proof.
  intros [F _] HQ. unfold mwp, get_dir. assert (dirs s1 = dirs s) as -> by (by rewrite (fr_eq _ _ F)). by rewrite Hdir.
Qed.
Lemma entry_len k : zlen (entry_at (sv s) d k) = 20.
Proof. by apply bytes_at_len. Qed.
Lemma entries_drop k : 0 <= k < d_length d / 20 ->
  drop (Z.to_nat k) es = entry_at (sv s) d k :: drop (Z.to_nat (k + 1)) es.
Proof.
  intros Hk. pose proof dlen_range. rewrite (drop_S es (entry_at (sv s) d k) (Z.to_nat k)).
  - by replace (Z.to_nat (k + 1)) with (S (Z.to_nat k)) by lia.
  - rewrite entries_lookup by dlia. f_equal. f_equal. lia.
Qed.

Lemma lookup_loop name : 0 ∉ name -> forall fuel s1 k, reads s s1 -> 0 <= k <= d_length d / 20 ->
  (Z.to_nat (d_length d / 20 - k) < fuel)%nat -> dir_ok (drop (Z.to_nat k) es) ->
  mwp (mloop fuel (lookup_body malloc_ok p name) (20 * k)) s1
    (fun r s' => r = find_entry name (drop (Z.to_nat k) es) (20 * k) /\ reads s s').
Proof.
  intros Hn0. pose proof dlen_range as Hd. induction fuel as [|fuel IH]; intros s1 k Hr Hk Hf Ho; [lia|].
  apply mloop_step. unfold lookup_body at 1. rewrite s32_small by (unfold is_s32; dlia).
  wp_step. apply (read_entry s1 k); [done|done|]. intros s2 Hr2. case_decide as Hlt.
  - rewrite entry_len. change (20 =? ENTRY_SIZE) with true. cbv iota. rewrite entries_drop in Ho |- * by lia.
    apply dir_ok_cons in Ho as (Ho & Hl & Hnm). generalize dependent (entry_at (sv s) d k). intros e Hl Hnm. cbn [find_entry].
    assert (u32 (20 * (k + 1)) = 20 * (k + 1)) as Hnext by (apply u32_small; unfold is_u32; dlia).
    assert (20 * k + ENTRY_SIZE = 20 * (k + 1)) as -> by (unfold ENTRY_SIZE; lia).
    destruct (e_in_use e); cbn [andb].
    + destruct (Hnm eq_refl) as [n Hn]. rewrite Hn. wp_step. wp_step. eapply wp_mono.
      { apply wp_eq. by apply (strcmp_entry _ _ n). }
      intros b ->. rewrite (bool_decide_ext (Some n = Some name) (name = n)) by (split; congruence).
      case_bool_decide; wp_step; [done|]. rewrite Hnext. apply IH; [done|lia|lia|done].
    + wp_step. rewrite Hnext. apply IH; [done|lia|lia|done].
  - change (zlen [] =? ENTRY_SIZE) with false. cbv iota. wp_step. split; [|done].
    rewrite drop_ge; [done|]. pose proof (entries_len (sv s) d ltac:(lia)). unfold zlen in *. lia.
Qed.
Lemma lookup_spec s1 name : reads s s1 -> 0 ∉ name ->
  mwp (lookup malloc_ok q name) s1 (fun r s' => r = find_entry name es 0 /\ reads s s').
Proof.
  intros Hr Hn0. unfold lookup. wp_step. apply get_dir_spec; [done|]. pose proof dlen_range.
  pose proof (SCAN_FUEL_enough (d_length d) (of_length _ _ _ _ _ Hfile)).
  apply (lookup_loop name Hn0 SCAN_FUEL s1 0); [done|dlia|dlia|done].
Qed.

Lemma entry_u8 k : 0 <= k < d_length d / 20 -> Forall is_u8 (entry_at (sv s) d k).
Proof.
  intros Hk. pose proof dlen_range. unfold entry_at, bytes_at. apply Forall_fmap, Forall_forall. intros j Hj.
  apply list_elem_of_In, elem_of_seqZ in Hj. simpl. unfold byte_at. destruct (znth _ _) as [x|] eqn:E; [|done]. simpl.
  assert (0 <= j / 512 < nsec (d_length d)) as Hlive by (split; [dlia|apply nsec_div; dlia]).
  pose proof (wf_slot _ _ _ _ _ _ (of_wf _ _ _ _ _ Hfile) (Data (j / 512)) Hlive) as [Hsec _].
  pose proof (inv_bytes _ Hinv _ Hsec) as H8. unfold znth in E. case_decide; [|done]. by eapply Forall_lookup_1 in H8.
Qed.
(** The first entry not in use, or the end; the local [e] then. *)
Lemma slot_loop : forall fuel s1 k e, reads s s1 -> 0 <= k <= d_length d / 20 -> (Z.to_nat (d_length d / 20 - k) < fuel)%nat ->
  length e = 20%nat -> Forall is_u8 e ->
  mwp (mloop fuel (free_slot_body malloc_ok p) (e, 20 * k)) s1 (fun r s' => reads s s' /\
    length r.1 = 20%nat /\ Forall is_u8 r.1 /\ exists k', r.2 = 20 * k' /\ 0 <= k' <= d_length d / 20 /\
    (k' < d_length d / 20 -> e_in_use (entry_at (sv s) d k') = false)).
Proof.
  pose proof dlen_range as Hd. induction fuel as [|fuel IH]; intros s1 k e Hr Hk Hf He H8; [lia|].
  apply mloop_step. unfold free_slot_body at 1. wp_step. apply (read_entry s1 k); [done|done|]. intros s2 Hr2.
  case_decide as Hlt.
  - pose proof (entry_u8 k ltac:(lia)) as H8k. rewrite entry_len. change (20 =? ENTRY_SIZE) with true. cbv iota.
    assert (length (entry_at (sv s) d k) = 20%nat) as Hl by (pose proof (entry_len k); unfold zlen in *; lia).
    assert (fill (entry_at (sv s) d k) e = entry_at (sv s) d k) as ->.
    { unfold fill. rewrite Hl, drop_ge by lia. apply app_nil_r. }
    destruct (e_in_use (entry_at (sv s) d k)) eqn:Hu; cbn [negb]; wp_step.
    + assert (s32 (20 * k + ENTRY_SIZE) = 20 * (k + 1)) as ->
        by (unfold ENTRY_SIZE; rewrite s32_small; [lia|unfold is_s32; dlia]).
      apply IH; try done; lia.
    + split; [done|]. split; [done|]. split; [done|]. exists k. split; [done|]. split; [lia|done].
  - change (zlen [] =? ENTRY_SIZE) with false. cbv iota. wp_step. unfold fill. simpl.
    split; [done|]. split; [done|]. split; [done|]. exists k. split; [done|]. split; [done|]. intros. lia.
Qed.
End dir.

(** ** What a write of an entry does *)
Lemma put_entry_lookup k e (es : list (list Z)) j : (k <= length es)%nat ->
  put_entry k e es !! j = if decide (j = k) then Some e else es !! j.
Proof.
  intros Hk. unfold put_entry. assert (length (take k es) = k) as Hl by (rewrite length_take; lia).
  destruct (decide (j = k)) as [->|Hne].
  - rewrite lookup_app_r, Hl, Nat.sub_diag by lia. done.
  - destruct (decide (j < k)%nat).
    + by rewrite lookup_app_l, lookup_take_lt by lia.
    + rewrite lookup_app_r, Hl by lia. destruct (j - k)%nat as [|m] eqn:E; [lia|]. simpl. rewrite lookup_drop. f_equal. lia.
Qed.
Lemma entries_put v d v' d' k e : 0 <= d_length d -> d_length d mod 20 = 0 -> 0 <= k <= d_length d / 20 -> length e = 20%nat ->
  d_length d' = Z.max (d_length d) (20 * k + 20) ->
  (forall j, 0 <= j < d_length d' -> byte_at v' d' j =
     splice_byte e (20 * k) 20 j (if decide (j < 512 * nsec (d_length d)) then byte_at v d j else 0)) ->
  d_length d <= 512 * nsec (d_length d) ->
  entries_of v' d' = put_entry (Z.to_nat k) e (entries_of v d).
Proof.
  intros HL Hm Hk He Hd' Hb Hns. pose proof (entries_len v d HL) as Hn. unfold zlen in Hn.
  assert (0 <= d_length d') as HL' by lia.
  apply list_eq. intros j. rewrite put_entry_lookup by lia.
  destruct (decide (Z.of_nat j < d_length d' / 20)) as [Hj|Hj].
  - rewrite entries_lookup by dlia. case_decide as Ejk.
    + f_equal. unfold entry_at. apply list_eq_same_length with (n := 20%nat); [done| |].
      { pose proof (bytes_at_len v' d' (20 * Z.of_nat j) 20 ltac:(lia)). unfold zlen in *. lia. }
      intros x a b Hx Ha Hb'. unfold bytes_at in Ha. rewrite list_lookup_fmap, lookup_seqZ_lt in Ha by lia. simpl in Ha.
      injection Ha as <-. rewrite Hb by dlia. rewrite splice_byte_in by lia.
      replace (20 * Z.of_nat j + Z.of_nat x - 20 * k) with (Z.of_nat x) by lia.
      rewrite znth_lookup, Nat2Z.id by lia. by rewrite Hb'.
    + rewrite entries_lookup by dlia. f_equal. unfold entry_at, bytes_at. apply list_fmap_ext. intros y z [-> Hy]%lookup_seqZ.
      rewrite Hb by dlia. unfold splice_byte. rewrite decide_False by lia. rewrite decide_True by dlia. done.
  - rewrite lookup_ge_None_2; [|pose proof (entries_len v' d' HL') as Hn'; unfold zlen in Hn'; lia].
    rewrite decide_False by dlia. symmetry. apply lookup_ge_None_2. dlia.
Qed.
Lemma grow_cost_mono n a b : (a <= b)%nat -> grow_cost n a <= grow_cost n b.
Proof.
  revert n b. induction a as [|a IH]; intros n b Hab; simpl.
  - clear Hab. revert n. induction b as [|b IHb]; intros n; simpl; [lia|]. specialize (IHb (n + 1)).
    assert (0 <= ext_cost n) by (unfold ext_cost; apply zlen_nonneg). lia.
  - destruct b as [|b]; [lia|]. simpl. specialize (IH (n + 1) b ltac:(lia)). lia.
Qed.
Lemma cost_to_mono L L1 L2 : L1 <= L2 -> cost_to L L1 <= cost_to L L2.
Proof. intros Hle. unfold cost_to. apply grow_cost_mono. pose proof (nsec_mono L1 L2 Hle). lia. Qed.

(** ** The contract *)
Section dir_add.
Context {St : Type} `{sector_store_ok St}.
Variable malloc_ok : nat -> bool.
Hypothesis Hmalloc : forall n, malloc_ok n = true.
Variable me : Z.
Variable depth : nat.
Abbreviation alloc := (free_map_allocate malloc_ok me depth).
Abbreviation release := (free_map_release malloc_ok me depth).
Context `{!allocator_ok alloc release}.
Abbreviation taken := (taken (alloc := alloc) (release := release)).
(** An open directory [q], whose file may be written. *)
Record open_dir (s : fs St) (q p : Z) (i : inode) (d : inode_disk) : Prop := OpenDir {
  od_inv : fs_inv s;
  od_al : al_inv s;
  od_own : ~ al_inode (alloc := alloc) (release := release) p;
  od_file : open_file (taken s) s p i d;
  od_deny : deny_write_lock i = None /\ deny_write_cnt i = 0;
  od_dir : exists pos, dirs s !! q = Some (Dir p pos);
  od_len : d_length d mod 20 = 0;
  od_ok : dir_ok (entries_of (sv s) d);
}.
Lemma entries_ext v v' d : (forall k, v' k = v k) -> entries_of v' d = entries_of v d.
Proof.
  intros Hv. assert (forall b j, ptr v' b j = ptr v b j) as Hp by (intros; unfold ptr; by rewrite Hv).
  unfold entries_of, entry_at, bytes_at. apply list_fmap_ext. intros ? k _. apply list_fmap_ext. intros ? j _.
  unfold byte_at. rewrite Hv. unfold slot_sector. by rewrite !Hp.
Qed.
Lemma open_dir_reads s s' q p i d : open_dir s q p i d -> reads s s' ->
  open_dir s' q p i d /\ entries_of (sv s') d = entries_of (sv s) d.
Proof.
  intros [Hi Ha Ho Hf Hd [pos Hq] Hl Hk] Hr. pose proof (reads_same _ _ Ha Hr) as Hs.
  pose proof (entries_ext (sv s) (sv s') d (proj2 Hr)) as He. split; [|exact He].
  split; [apply Hr|apply Hs|done|by eapply open_file_same|done| |done|by rewrite He].
  exists pos. by rewrite (fr_eq _ _ (proj1 Hr)).
Qed.

Lemma dir_write_spec s q p i d k e : open_dir s q p i d -> 0 <= k <= d_length d / 20 -> length e = 20%nat -> Forall is_u8 e ->
  d_length d + 20 <= INODE_SPAN ->
  cost_to (d_length d) (d_length d + 20) <= Z.of_nat (size (al_free (alloc := alloc) (release := release) (free_map s))) ->
  dir_ok (put_entry (Z.to_nat k) e (entries_of (sv s) d)) ->
  mwp (inode_write_at malloc_ok me alloc p e ENTRY_SIZE (20 * k)) s (fun n s' => n = ENTRY_SIZE /\
    exists d', open_dir s' q p i d' /\ entries_of (sv s') d' = put_entry (Z.to_nat k) e (entries_of (sv s) d)).
Proof.
  intros [Hi Ha Ho Hf [Hd1 Hd2] [pos Hq] Hl Hk] Hkr He H8 Hspan Hcost Hok. pose proof (of_length _ _ _ _ _ Hf) as HL.
  pose proof (nsec_bounds _ HL) as [_ Hns]. unfold ENTRY_SIZE.
  assert (20 * k + 20 <= d_length d + 20) as Hle by dlia.
  eapply mwp_mono; [apply (inode_write_at_spec malloc_ok Hmalloc me s p i d); try done|].
  - lia.
  - lia.
  - unfold zlen. lia.
  - pose proof (cost_to_mono (d_length d) _ _ Hle). lia.
  - intros n s' [-> (d' & W)]. split; [done|]. exists d'.
    pose proof (nsec_bounds _ (of_length _ _ _ _ _ (wr_open _ _ _ _ _ _ _ _ _ W))) as [_ Hns'].
    assert (entries_of (sv s') d' = put_entry (Z.to_nat k) e (entries_of (sv s) d)) as E.
    { apply (entries_put (sv s) d (sv s') d' k e); try done; [lia|apply W|intros j Hj; apply W; lia]. }
    split; [|done]. split; [apply W|apply W|done|apply W|done| | |by rewrite E].
    + exists pos. by rewrite (af_eq _ _ (wr_frame _ _ _ _ _ _ _ _ _ W)).
    + rewrite (wr_length _ _ _ _ _ _ _ _ _ W). dlia.
Qed.

(** C5. [dir_add] implements insertion into the map of a directory: a name that is
    not there yet is entered with its sector, in a free entry or at the end, and every
    other name keeps its sector; a name that is there already is refused and the map
    stays as it is. *)
Theorem dir_add_inserts s q p i d garbage name sector : open_dir s q p i d -> good_name name -> is_u32 sector ->
  length garbage = 20%nat -> Forall is_u8 garbage -> d_length d + 20 <= INODE_SPAN ->
  cost_to (d_length d) (d_length d + 20) <= Z.of_nat (size (al_free (alloc := alloc) (release := release) (free_map s))) ->
  let m := dir_map (entries_of (sv s) d) in
  exists r s' d', dir_add malloc_ok me depth garbage (Some q) name sector s = Ok (r, s') /\ open_dir s' q p i d' /\
    r = bool_decide (m !! name = None) /\ dir_map (entries_of (sv s') d') = if r then <[name := sector]> m else m.
Proof.
  intros Ho Hname Hsec Hg Hg8 Hspan Hcost m. pose proof Hname as (Hne & Hnl & Hn0 & Hn8).
  enough (mwp (dir_add malloc_ok me depth garbage (Some q) name sector) s (fun r s' => exists d', open_dir s' q p i d' /\
    r = bool_decide (m !! name = None) /\ dir_map (entries_of (sv s') d') = if r then <[name := sector]> m else m)) as Hm.
  { apply mwp_ok in Hm as (r & s' & E & d' & Hm). by exists r, s', d'. }
  destruct (od_dir _ _ _ _ _ Ho) as [pos Hq]. pose proof (od_file _ _ _ _ _ Ho) as Hf. pose proof (of_length _ _ _ _ _ Hf) as HL.
  unfold dir_add. wp_step. wp_step; [done|].
  assert ((zlen name =? 0) || (NAME_MAX <? zlen name) = false) as ->.
  { apply orb_false_intro; [apply Z.eqb_neq|apply Z.ltb_ge; lia]. destruct name; [done|]. unfold zlen. simpl. lia. }
  wp_step. wp_step. apply wp_ret. wp_step. eapply mwp_mono.
  { apply (lookup_spec malloc_ok Hmalloc (taken s) s q pos p i d); try apply Ho; [done| |done]. apply reads_refl, Ho. }
  intros r s1 [-> Hr1]. destruct (open_dir_reads _ _ _ _ _ _ Ho Hr1) as [Ho1 E1].
  pose proof (dir_map_find name _ (od_ok _ _ _ _ _ Ho) 0) as Hfind. fold m in Hfind.
  destruct (find_entry name (entries_of (sv s) d) 0) as [x|].
  { wp_step. exists d. split; [done|]. rewrite Hfind. split; [done|]. by rewrite E1. }
  wp_step. apply (get_dir_spec s q pos p Hq); [done|]. wp_step. eapply mwp_mono.
  { pose proof (SCAN_FUEL_enough _ HL) as Hfuel.
    assert (0 <= 0 <= d_length d / 20) as H00 by dlia.
    assert (Z.to_nat (d_length d / 20 - 0) < SCAN_FUEL)%nat as H01 by (rewrite Z.sub_0_r; lia).
    exact (slot_loop malloc_ok Hmalloc (taken s) s p i d (od_inv _ _ _ _ _ Ho) Hf (od_len _ _ _ _ _ Ho)
      SCAN_FUEL s1 0 garbage Hr1 H00 H01 Hg Hg8). }
  intros [e ofs] s2 (Hr2 & He & He8 & k & Hofs & Hk & Hfree). simpl in He, He8, Hofs. subst ofs. cbv beta iota.
  destruct (open_dir_reads _ _ _ _ _ _ Ho Hr2) as [Ho2 E2].
  destruct (new_entry_spec sector name e Hname Hsec He) as (Hl' & Hent & _ & Hnm & H8').
  fold (new_entry sector name e). wp_step.
  destruct (put_entry_ok (Z.to_nat k) (entries_of (sv s) d)
    (default (replicate 20 0) (entries_of (sv s) d !! Z.to_nat k)) (new_entry sector name e) name sector) as [Hok Hmap];
    [apply Ho| | |done|done|done|done|].
  - destruct (decide (k < d_length d / 20)) as [Hlt|Hge].
    + rewrite entries_lookup by dlia. simpl. unfold entry_of. rewrite Z2Nat.id by lia. by rewrite Hfree.
    + rewrite lookup_ge_None_2; [done|]. pose proof (entries_len (sv s) d ltac:(lia)). unfold zlen in *. lia.
  - pose proof (entries_len (sv s) d ltac:(lia)) as Hn. unfold zlen in Hn.
    destruct (entries_of (sv s) d !! Z.to_nat k) as [x|] eqn:Ex; [by left|]. right. apply lookup_ge_None_1 in Ex. split; [lia|done].
  - eapply mwp_mono.
    { cbn [d_inode]. pose proof (reads_same _ _ (od_al _ _ _ _ _ Ho) Hr2) as Hs. rewrite <- (sf_map _ _ Hs) in Hcost.
      rewrite <- E2 in Hok. exact (dir_write_spec s2 q p i d k (new_entry sector name e) Ho2 Hk Hl' (H8' He8) Hspan Hcost Hok). }
    intros n s3 (-> & d' & Ho3 & E3). wp_step. exists d'. split; [done|]. rewrite Hfind. split; [done|].
    rewrite E3, E2. exact Hmap.
Qed.

(** C29. [lookup] and the map agree: a name is found exactly when it is in the map,
    with the sector it has there, at the offset of its entry; nothing is changed. *)
Theorem lookup_exact s q p i d name : open_dir s q p i d -> 0 ∉ name ->
  exists r s', lookup malloc_ok q name s = Ok (r, s') /\ open_dir s' q p i d /\
    (fun x => e_sector x.1) <$> r = dir_map (entries_of (sv s) d) !! name /\
    forall e ofs, r = Some (e, ofs) -> e = bytes_at (sv s) d ofs ENTRY_SIZE /\ 0 <= ofs < d_length d.
Proof.
  intros Ho Hn0. destruct (od_dir _ _ _ _ _ Ho) as [pos Hq]. pose proof (od_file _ _ _ _ _ Ho) as Hf.
  pose proof (of_length _ _ _ _ _ Hf) as HL.
  pose proof (lookup_spec malloc_ok Hmalloc (taken s) s q pos p i d (od_inv _ _ _ _ _ Ho) Hf Hq (od_len _ _ _ _ _ Ho)
    (od_ok _ _ _ _ _ Ho) s name (reads_refl _ (od_inv _ _ _ _ _ Ho)) Hn0) as Hl.
  apply mwp_ok in Hl as (r & s' & E & -> & Hr). exists (find_entry name (entries_of (sv s) d) 0), s'. split; [done|].
  split; [by apply (open_dir_reads s s')|]. split; [symmetry; apply dir_map_find, Ho|].
  intros e ofs (k & Hk & ->)%find_entry_offset. assert (k < Z.to_nat (d_length d / 20))%nat as Hlt.
  { pose proof (entries_len (sv s) d ltac:(lia)). unfold zlen in *. apply lookup_lt_Some in Hk. lia. }
  rewrite entries_lookup in Hk by (lia || done). injection Hk as <-. split; [done|]. dlia.
Qed.
End dir_add.

(** ** Witness: the root directory of the formatted device *)
Definition ex_dir_prog : M (fs flat_store) (option Z) := dir_open_root all_ok 1 2.
Definition ex_dir_fs : fs flat_store := state_of (ex_dir_prog ex_fs) ex_fs.
Definition ex_dir : Z := match ex_dir_prog ex_fs with Ok (Some q, _) => q | _ => 0 end.
Definition ex_dir_inode : Z := match dirs ex_dir_fs !! ex_dir with Some x => d_inode x | None => 0 end.
Definition ex_root : inode := Inode 1 1 false None None 0 0.
Definition ex_root_disk : inode_disk := decode_inode (sv ex_dir_fs 1).
#[global] Strategy 1000 [ex_dir_fs].
Lemma ex_dir_same : store ex_dir_fs = store ex_fs /\ free_map ex_dir_fs = free_map ex_fs /\
  free_map_file ex_dir_fs = free_map_file ex_fs /\ files ex_dir_fs = files ex_fs /\
  inodes ex_dir_fs !! ex_fm_inode = inodes ex_fs !! ex_fm_inode.
Proof. vm_compute. repeat split. Qed.
Lemma ex_dir_taken q : taken (alloc := ex_alloc) (release := ex_release) ex_dir_fs q <-> ex_taken q.
Proof. unfold taken. by rewrite (proj1 (proj2 ex_dir_same)). Qed.
Lemma ex_dir_file : open_file (taken (alloc := ex_alloc) (release := ex_release) ex_dir_fs) ex_dir_fs ex_dir_inode ex_root ex_root_disk.
Proof.
  assert (HN : nsec (d_length ex_root_disk) = 1) by (vm_compute; reflexivity).
  split; rewrite ?HN; clear HN.
  - vm_compute. reflexivity.
  - reflexivity.
  - vm_compute. reflexivity.
  - vm_compute. split; intros E; discriminate E.
  - replace (ssize ex_dir_fs) with 64 by (vm_compute; reflexivity).
    assert (Hd : take (Z.to_nat 1) (d_sectors ex_root_disk) = [3]) by (vm_compute; reflexivity).
    assert (Hn : Forall (fun q => ~ (q = 0 \/ q = 2 \/ q ∈ free_sectors (free_map ex_fs))) [1; 3]).
    { apply (bool_decide_unpack _). vm_compute. exact I. }
    apply Forall_cons_1 in Hn as [H1 Hn]. apply Forall_cons_1 in Hn as [H3 _].
    apply (not_iff_compat (ex_taken_iff _)) in H1, H3.
    apply (not_iff_compat (ex_dir_taken _)) in H1, H3.
    apply file_wf_direct.
    + vm_compute. reflexivity.
    + apply (bool_decide_unpack _). vm_compute. exact I.
    + lia.
    + cbn. lia.
    + exact H1.
    + rewrite Hd. cbn [i_sector ex_root]. repeat constructor; try lia; assumption.
    + rewrite Hd. apply (bool_decide_unpack _). vm_compute. exact I.
Qed.
Definition entry_okb (e : list Z) : bool := (length e =? 20)%nat && (negb (e_in_use e) || bool_decide (is_Some (e_name e))).
Lemma dir_ok_compute es : forallb entry_okb es && bool_decide (NoDup (used es).*1) = true -> dir_ok es.
Proof.
  intros [Hf Hn%bool_decide_eq_true]%andb_prop. rewrite forallb_forall in Hf. split; [| |done].
  - apply Forall_forall. intros e He. apply Hf in He. apply andb_prop in He as [He _]. by apply Nat.eqb_eq.
  - intros e He%list_elem_of_In Hu. apply Hf in He. apply andb_prop in He as [_ He]. rewrite Hu in He. simpl in He.
    by apply bool_decide_eq_true in He.
Qed.
Lemma ex_open_dir : open_dir all_ok 1 2 (allocator_ok0 := ex_allocator) ex_dir_fs ex_dir ex_dir_inode ex_root ex_root_disk.
Proof.
  destruct ex_dir_same as (Es & Em & Emf & Ef & Ei). split.
  - apply flat_check_ok. vm_compute. reflexivity.
  - eapply (al_ext ex_fs); [exact ex_al_inv|exact Es|exact Em|exact Emf| |intros; by rewrite Ef].
    intros p Hp. change (p = ex_fm_inode) in Hp. subst p. exact Ei.
  - intros Hp. change (ex_dir_inode = ex_fm_inode) in Hp. vm_compute in Hp. discriminate Hp.
  - exact ex_dir_file.
  - split; reflexivity.
  - exists 0. vm_compute. reflexivity.
  - vm_compute. reflexivity.
  - apply dir_ok_compute. vm_compute. reflexivity.
Qed.
Lemma dir_add_inserts_witness :
  exists s' d', dir_add all_ok 1 2 junk (Some ex_dir) [98] 9 ex_dir_fs = Ok (true, s') /\
    dir_map (entries_of (sv s') d') = {[ [98] := 9; [97] := 4 ]}.
Proof.
  destruct (dir_add_inserts all_ok (fun _ => eq_refl) 1 2 (allocator_ok0 := ex_allocator) ex_dir_fs ex_dir ex_dir_inode ex_root
    ex_root_disk junk [98] 9) as (r & s' & d' & E & _ & -> & Hm).
  - exact ex_open_dir.
  - split; [discriminate|]. split; [vm_compute; discriminate|]. split; [apply (bool_decide_unpack _); vm_compute; exact I|].
    repeat constructor; lia.
  - unfold is_u32. lia.
  - reflexivity.
  - apply Forall_replicate. unfold is_u8. lia.
  - vm_compute. discriminate.
  - vm_compute. discriminate.
  - exists s', d'. replace (bool_decide _) with true in E, Hm by (vm_compute; reflexivity). split; [exact E|]. rewrite Hm.
    apply (bool_decide_unpack _). vm_compute. exact I.
Defined.
Lemma lookup_exact_witness : exists e s', lookup all_ok ex_dir [97] ex_dir_fs = Ok (Some (e, 0), s') /\ e_sector e = 4.
Proof.
  destruct (lookup_exact all_ok (fun _ => eq_refl) 1 2 (allocator_ok0 := ex_allocator) ex_dir_fs ex_dir ex_dir_inode ex_root
    ex_root_disk [97] ex_open_dir) as (r & s' & E & _ & Hm & _).
  - apply (bool_decide_unpack _). vm_compute. exact I.
  - assert (match lookup all_ok ex_dir [97] ex_dir_fs with Ok (Some (_, o), _) => o | _ => 1 end = 0) as Ho by (vm_compute; reflexivity).
    rewrite E in Ho. replace (dir_map _ !! [97]) with (Some 4) in Hm by (vm_compute; reflexivity).
    destruct r as [[e o]|]; [|discriminate Hm]. subst o. exists e, s'. split; [exact E|]. by injection Hm.
Defined.
