(* ===== verification/CString.v ===== *)
(** * CString: lib/string.c

    Memory is a finite map from addresses to bytes and a pointer is an
    address; the null pointer is 0 and is never mapped.  A read or write outside the
    map is a [Fault].  The loops that look for a terminator have no bound of
    their own: each turn reads a new address, so the number of mapped bytes
    bounds them. *)
From S2P Require Import Prelude.

Abbreviation mem := (gmap Z Z).
Abbreviation MM := (M (gmap Z Z)).
Definition NULL : Z := 0.
Definition mload (p : Z) : MM Z := fun m => match m !! p with Some x => Ok (x, m) | None => Fault end.
(** A store to a mapped byte. *)
Definition mstore (p x : Z) : MM unit := fun m =>
  match m !! p with Some _ => Ok (tt, <[p := u8 x]> m) | None => Fault end.
Definition scan_fuel : MM nat := gets (fun m => S (S (size m))).
Definition non_null (p size : Z) : MM unit := assert (negb (p =? NULL) || (size =? 0)).

(** [while (size-- > 0) *dst++ = *src++;] *)
Fixpoint copy_up (n : nat) (dst src : Z) : MM unit :=
  match n with
  | O => mret tt
  | S n' => x ← mload src; _ ← mstore dst x; copy_up n' (dst + 1) (src + 1)
  end.
(** [while (size-- > 0) *--dst = *--src;] *)
Fixpoint copy_down (n : nat) (dst src : Z) : MM unit :=
  match n with
  | O => mret tt
  | S n' => x ← mload (src - 1); _ ← mstore (dst - 1) x; copy_down n' (dst - 1) (src - 1)
  end.
Definition memcpy (dst src size : Z) : MM Z :=
  _ ← non_null dst size; _ ← non_null src size;
  _ ← copy_up (Z.to_nat size) dst src; mret dst.
(** Both branches of [memmove] and the pointer it returns: in the second branch
    [dst] has come back to where it started, in the first it has not. *)
Definition memmove (dst src size : Z) : MM Z :=
  _ ← non_null dst size; _ ← non_null src size;
  if dst <? src then _ ← copy_up (Z.to_nat size) dst src; mret (dst + size)
  else _ ← copy_down (Z.to_nat size) (dst + size) (src + size); mret dst.

Fixpoint memcmp_loop (n : nat) (a b : Z) : MM Z :=
  match n with
  | O => mret 0
  | S n' =>
      x ← mload a; y ← mload b;
      if negb (x =? y) then mret (if y <? x then 1 else -1) else memcmp_loop n' (a + 1) (b + 1)
  end.
Definition memcmp (a b size : Z) : MM Z :=
  _ ← non_null a size; _ ← non_null b size; memcmp_loop (Z.to_nat size) a b.

Definition strcmp_body (l : Z * Z) : MM (Z * Z + Z) :=
  let '(a, b) := l in
  x ← mload a; y ← mload b;
  if negb (x =? 0) && (x =? y) then mret (inl (a + 1, b + 1))
  else mret (inr (if x <? y then -1 else if y <? x then 1 else 0)).
Definition strcmp (a b : Z) : MM Z :=
  _ ← assert (negb (a =? NULL)); _ ← assert (negb (b =? NULL));
  fuel ← scan_fuel; mloop fuel strcmp_body (a, b).

Fixpoint memchr_loop (n : nat) (block ch : Z) : MM Z :=
  match n with
  | O => mret NULL
  | S n' => x ← mload block; if x =? ch then mret block else memchr_loop n' (block + 1) ch
  end.
Definition memchr (block ch size : Z) : MM Z :=
  _ ← non_null block size; memchr_loop (Z.to_nat size) block (u8 ch).

Definition strchr_body (c : Z) (string : Z) : MM (Z + Z) :=
  x ← mload string;
  if x =? c then mret (inr string)
  else if x =? 0 then mret (inr NULL)
  else mret (inl (string + 1)).
Definition strchr (string c : Z) : MM Z :=
  _ ← assert (negb (string =? NULL));
  fuel ← scan_fuel; mloop fuel (strchr_body (u8 c)) string.

(** [strcspn] and [strspn]: [stop_on] is whether a match ends the scan. *)
Definition span_body (string set : Z) (stop_on : bool) (length : Z) : MM (Z + Z) :=
  x ← mload (string + length);
  if x =? 0 then mret (inr length)
  else
    p ← strchr set x;
    if eqb (negb (p =? NULL)) stop_on then mret (inr length) else mret (inl (length + 1)).
Definition strcspn (string stop : Z) : MM Z :=
  fuel ← scan_fuel; mloop fuel (span_body string stop true) 0.
Definition strspn (string skip : Z) : MM Z :=
  fuel ← scan_fuel; mloop fuel (span_body string skip false) 0.

Definition strpbrk_body (stop : Z) (string : Z) : MM (Z + Z) :=
  x ← mload string;
  if x =? 0 then mret (inr NULL)
  else
    p ← strchr stop x;
    if negb (p =? NULL) then mret (inr string) else mret (inl (string + 1)).
Definition strpbrk (string stop : Z) : MM Z :=
  fuel ← scan_fuel; mloop fuel (strpbrk_body stop) string.

Definition strrchr_body (c : Z) (l : Z * Z) : MM (Z * Z + Z) :=
  let '(string, p) := l in
  x ← mload string;
  if x =? 0 then mret (inr p) else mret (inl (string + 1, if x =? c then string else p)).
Definition strrchr (string c : Z) : MM Z :=
  fuel ← scan_fuel; mloop fuel (strrchr_body (u8 c)) (string, NULL).

Definition strlen_body (string p : Z) : MM (Z + Z) :=
  x ← mload p; if x =? 0 then mret (inr (p - string)) else mret (inl (p + 1)).
Definition strlen (string : Z) : MM Z :=
  _ ← assert (negb (string =? NULL));
  fuel ← scan_fuel; mloop fuel (strlen_body string) string.

(** [string[length]] is read before [length < maxlen] is tested. *)
Definition strnlen_body (string maxlen length : Z) : MM (Z + Z) :=
  x ← mload (string + length);
  if negb (x =? 0) && (length <? maxlen) then mret (inl (length + 1)) else mret (inr length).
Definition strnlen (string maxlen : Z) : MM Z :=
  fuel ← scan_fuel; mloop fuel (strnlen_body string maxlen) 0.

Fixpoint strstr_loop (n : nat) (haystack needle needle_len i : Z) : MM Z :=
  match n with
  | O => mret NULL
  | S n' =>
      r ← memcmp (haystack + i) needle needle_len;
      if r =? 0 then mret (haystack + i) else strstr_loop n' haystack needle needle_len (i + 1)
  end.
Definition strstr (haystack needle : Z) : MM Z :=
  haystack_len ← strlen haystack;
  needle_len ← strlen needle;
  if needle_len <=? haystack_len then
    strstr_loop (S (Z.to_nat (haystack_len - needle_len))) haystack needle needle_len 0
  else mret NULL.

(** [strtok_r]: the token and [*save_ptr] on exit. *)
Definition skip_body (delimiters s : Z) : MM (Z + Z * bool) :=
  x ← mload s;
  p ← strchr delimiters x;
  if negb (p =? NULL) then
    if x =? 0 then mret (inr (s, true)) else mret (inl (s + 1))
  else mret (inr (s, false)).
Definition token_body (delimiters s : Z) : MM (Z + Z) :=
  x ← mload s;
  p ← strchr delimiters x;
  if p =? NULL then mret (inl (s + 1)) else mret (inr s).
Definition strtok_r (s delimiters save_ptr : Z) : MM (Z * Z) :=
  _ ← assert (negb (delimiters =? NULL));
  let s := if s =? NULL then save_ptr else s in
  _ ← assert (negb (s =? NULL));
  fuel ← scan_fuel;
  '(s, at_end) ← mloop fuel (skip_body delimiters) s;
  if (at_end : bool) then mret (NULL, s)
  else
    let token := s in
    s ← mloop fuel (token_body delimiters) s;
    x ← mload s;
    if negb (x =? 0) then _ ← mstore s 0; mret (token, s + 1)
    else mret (token, s).

Fixpoint set_loop (n : nat) (dst value : Z) : MM unit :=
  match n with
  | O => mret tt
  | S n' => _ ← mstore dst value; set_loop n' (dst + 1) value
  end.
Definition memset (dst value size : Z) : MM Z :=
  _ ← non_null dst size; _ ← set_loop (Z.to_nat size) dst value; mret dst.

Definition strlcpy (dst src size : Z) : MM Z :=
  _ ← assert (negb (dst =? NULL)); _ ← assert (negb (src =? NULL));
  src_len ← strlen src;
  if 0 <? size then
    let dst_len := if src_len <? size - 1 then src_len else size - 1 in
    _ ← memcpy dst src dst_len;
    _ ← mstore (dst + dst_len) 0;
    mret src_len
  else mret src_len.

Definition strlcat (dst src size : Z) : MM Z :=
  _ ← assert (negb (dst =? NULL)); _ ← assert (negb (src =? NULL));
  src_len ← strlen src;
  dst_len ← strlen dst;
  if (0 <? size) && (dst_len <? size) then
    let room := size - dst_len - 1 in
    let copy_cnt := if src_len <? room then src_len else room in
    _ ← memcpy (dst + dst_len) src copy_cnt;
    _ ← mstore (dst + dst_len + copy_cnt) 0;
    mret (src_len + dst_len)
  else mret (src_len + dst_len).

(** ** Specification *)
(** The string at [p]: its bytes without the terminator. *)
Record cstr (m : mem) (p : Z) (l : list Z) : Prop := Cstr {
  cs_null : 0 < p;
  cs_byte : forall i x, l !! i = Some x -> m !! (p + Z.of_nat i) = Some x;
  cs_range : Forall (fun x => 0 < x < 256) l;
  cs_end : m !! (p + zlen l) = Some 0;
}.
(** The sign of the first difference. *)
Fixpoint bytes_compare (a b : list Z) : Z :=
  match a, b with
  | [], [] => 0
  | [], _ :: _ => -1
  | _ :: _, [] => 1
  | x :: a', y :: b' => if x <? y then -1 else if y <? x then 1 else bytes_compare a' b'
  end.

Lemma mload_spec p x m (Q : Z -> mem -> Prop) : m !! p = Some x -> Q x m -> mwp (mload p) m Q.
Proof. intros E H. unfold mwp, mload. by rewrite E. Qed.
Lemma mstore_spec p x m (Q : unit -> mem -> Prop) :
  is_Some (m !! p) -> Q tt (<[p := u8 x]> m) -> mwp (mstore p x) m Q.
Proof. intros [y E] H. unfold mwp, mstore. by rewrite E. Qed.
Lemma u8_small x : 0 <= x < 256 -> u8 x = x.
Proof. apply Z.mod_small. Qed.

Lemma cstr_tail m p x l : cstr m p (x :: l) -> cstr m (p + 1) l.
Proof.
  intros [Hn Hb Hr He]. apply Forall_cons_1 in Hr as [_ Hr]. split; [lia| |done|].
  - intros i y Hi. rewrite <- (Hb (S i) y Hi). f_equal. lia.
  - rewrite <- He. f_equal. unfold zlen. simpl length. lia.
Qed.
Lemma cstr_drop m p l k : (k <= length l)%nat -> cstr m p l -> cstr m (p + Z.of_nat k) (drop k l).
Proof.
  revert p l. induction k as [|k IH]; intros p l Hk Hl.
  - by rewrite Z.add_0_r.
  - destruct l as [|x l]; simpl in *; [lia|]. apply cstr_tail in Hl.
    replace (p + Z.of_nat (S k)) with (p + 1 + Z.of_nat k) by lia. apply IH; [lia|done].
Qed.
Lemma cstr_head m p l : cstr m p l -> m !! p = Some (match l with [] => 0 | x :: _ => x end).
Proof.
  intros [_ Hb _ He]. destruct l as [|x l].
  - rewrite <- He. f_equal. unfold zlen. simpl. lia.
  - rewrite <- (Hb 0%nat x eq_refl). f_equal. lia.
Qed.
(** The terminator is within the mapped bytes. *)
Lemma cstr_size m p l : cstr m p l -> (length l < size m)%nat.
Proof.
  intros [_ Hb _ He]. assert (Hsub : (list_to_set (seqZ p (zlen l + 1)) : gset Z) ⊆ dom m).
  { intros q Hq. rewrite elem_of_list_to_set, elem_of_seqZ in Hq. apply elem_of_dom.
    destruct (decide (q = p + zlen l)) as [->|Hne]; [by eexists|].
    destruct (lookup_lt_is_Some_2 l (Z.to_nat (q - p))) as [x Hx]; [unfold zlen in *; lia|].
    exists x. rewrite <- (Hb _ _ Hx). f_equal. lia. }
  apply subseteq_size in Hsub. rewrite size_list_to_set, length_seqZ, size_dom in Hsub
    by apply NoDup_seqZ. unfold zlen in Hsub. lia.
Qed.
Lemma cstr_ne m p l : cstr m p l -> negb (p =? NULL) = true.
Proof. intros [? _ _ _]. apply negb_true_iff, Z.eqb_neq. unfold NULL. lia. Qed.
Lemma cstr_ext m m' p l : cstr m p l ->
  (forall q, p <= q <= p + zlen l -> m' !! q = m !! q) -> cstr m' p l.
Proof.
  intros [Hn Hb Hr He] Hm. split; [done| |done|].
  - intros i x Hi. rewrite Hm; [by apply Hb|]. apply lookup_lt_Some in Hi. unfold zlen. lia.
  - rewrite Hm; [done|]. unfold zlen. lia.
Qed.

(** A scan along a string: the invariant speaks of what is left of it. *)
Lemma scan_loop {L R} m (I : L -> list Z -> Prop) (Q : R -> mem -> Prop) (body : L -> MM (L + R)) :
  (forall l rest, I l rest -> mwp (body l) m (fun x m' =>
     match x with
     | inl l' => m' = m /\ exists c rest', rest = c :: rest' /\ I l' rest'
     | inr r => Q r m' end)) ->
  forall rest l fuel, I l rest -> (length rest < fuel)%nat -> mwp (mloop fuel body l) m Q.
Proof.
  intros Hb rest. induction rest as [|c rest IH]; intros l fuel HI Hf;
    (destruct fuel as [|fuel]; [simpl in Hf; lia|]); apply mloop_step.
  - eapply mwp_mono; [by apply Hb|]. intros [l'|r] m'; [|done]. intros (_ & c & rest' & ? & _). done.
  - eapply mwp_mono; [by apply Hb|]. intros [l'|r] m'; [|done].
    intros (-> & c' & rest' & [= <- <-] & HI'). apply IH; [done|]. simpl in Hf. lia.
Qed.

Lemma strlen_spec m p l (Q : Z -> mem -> Prop) : cstr m p l -> Q (zlen l) m -> mwp (strlen p) m Q.
Proof.
  intros Hl HQ. unfold strlen, scan_fuel. wp_step. wp_step; [by eapply cstr_ne|]. wp_step. wp_step.
  eapply (scan_loop m (fun q rest => cstr m q rest /\ q - p = zlen l - zlen rest)).
  - intros q rest [Hr Hq]. unfold strlen_body. wp_step.
    eapply mload_spec; [by apply cstr_head|]. pose proof (cs_range _ _ _ Hr) as Hrg.
    destruct rest as [|c rest].
    + cbn [Z.eqb]. wp_step. replace (q - p) with (zlen l); [done|]. unfold zlen in *. simpl in *. lia.
    + apply Forall_cons_1 in Hrg as [? _]. destruct (Z.eqb_spec c 0); [lia|]. wp_step. split; [done|].
      exists c, rest. split; [done|]. split; [by eapply cstr_tail|]. unfold zlen in *. simpl in *. lia.
  - split; [done|]. lia.
  - pose proof (cstr_size _ _ _ Hl). lia.
Qed.

(** [n] bytes from [p] can be read and written, and hold bytes. *)
Definition mapped (m : mem) (p n : Z) : Prop :=
  forall q, p <= q < p + n -> exists x, m !! q = Some x /\ 0 <= x < 256.
(** What a copy does: the destination holds what the source held before. *)
Definition moved (m : mem) (dst src n : Z) (m' : mem) : Prop :=
  forall q, m' !! q = if decide (dst <= q < dst + n) then m !! (q - dst + src) else m !! q.

Lemma mapped_le m p p' n n' : mapped m p n -> p <= p' -> p' + n' <= p + n -> mapped m p' n'.
Proof. intros H ?? q ?. apply H. lia. Qed.
Lemma mapped_insert m p n q x : mapped m p n -> 0 <= x < 256 -> mapped (<[q := x]> m) p n.
Proof.
  intros H Hx r Hr. destruct (decide (q = r)) as [->|]; [rewrite lookup_insert_eq; eauto|].
  rewrite lookup_insert_ne by done. by apply H.
Qed.
Lemma moved_0 m dst src : moved m dst src 0 m.
Proof. intros q. rewrite decide_False; [done|lia]. Qed.
(** One byte more at the low end, or at the high end, of what is left to copy. *)
Lemma moved_low m dst src n x m' : 0 <= n -> m !! src = Some x ->
  dst <= src \/ src + n < dst ->
  moved (<[dst := x]> m) (dst + 1) (src + 1) n m' -> moved m dst src (n + 1) m'.
Proof.
  intros Hn Hx Ho Hm q. rewrite Hm. destruct (decide (q = dst)) as [->|Hne].
  - rewrite decide_False, lookup_insert_eq, decide_True by lia. rewrite <- Hx. f_equal. lia.
  - destruct (decide (dst + 1 <= q < dst + 1 + n)).
    + rewrite lookup_insert_ne, decide_True by lia. f_equal. lia.
    + rewrite lookup_insert_ne, decide_False by lia. done.
Qed.
Lemma moved_high m dst src n x m' : 0 <= n -> m !! (src + n) = Some x ->
  src <= dst \/ dst + n < src ->
  moved (<[dst + n := x]> m) dst src n m' -> moved m dst src (n + 1) m'.
Proof.
  intros Hn Hx Ho Hm q. rewrite Hm. destruct (decide (q = dst + n)) as [->|Hne].
  - rewrite decide_False, lookup_insert_eq, decide_True by lia. rewrite <- Hx. f_equal. lia.
  - destruct (decide (dst <= q < dst + n)).
    + rewrite lookup_insert_ne, decide_True by lia. done.
    + rewrite lookup_insert_ne, decide_False by lia. done.
Qed.

Lemma copy_up_spec n m dst src (Q : unit -> mem -> Prop) :
  mapped m dst (Z.of_nat n) -> mapped m src (Z.of_nat n) ->
  dst <= src \/ src + Z.of_nat n <= dst ->
  (forall m', moved m dst src (Z.of_nat n) m' -> Q tt m') -> mwp (copy_up n dst src) m Q.
Proof.
  revert m dst src. induction n as [|n IH]; intros m dst src Hd Hs Ho HQ; simpl.
  - wp_step. apply HQ, moved_0.
  - destruct (Hs src ltac:(lia)) as (x & Hx & Hxr). destruct (Hd dst ltac:(lia)) as (y & Hy & _).
    wp_step. eapply mload_spec; [done|]. wp_step. apply mstore_spec; [by eexists|].
    rewrite u8_small by done. apply IH.
    + apply mapped_insert; [|done]. eapply mapped_le; [exact Hd|lia..].
    + apply mapped_insert; [|done]. eapply mapped_le; [exact Hs|lia..].
    + lia.
    + intros m' Hm. apply HQ. rewrite Nat2Z.inj_succ. eapply moved_low; [lia|exact Hx|lia|exact Hm].
Qed.
Lemma copy_down_spec n m dst src (Q : unit -> mem -> Prop) :
  mapped m dst (Z.of_nat n) -> mapped m src (Z.of_nat n) ->
  src <= dst \/ dst + Z.of_nat n <= src ->
  (forall m', moved m dst src (Z.of_nat n) m' -> Q tt m') ->
  mwp (copy_down n (dst + Z.of_nat n) (src + Z.of_nat n)) m Q.
Proof.
  revert m dst src. induction n as [|n IH]; intros m dst src Hd Hs Ho HQ; cbn [copy_down].
  - wp_step. apply HQ, moved_0.
  - replace (src + Z.of_nat (S n) - 1) with (src + Z.of_nat n) by lia.
    replace (dst + Z.of_nat (S n) - 1) with (dst + Z.of_nat n) by lia.
    destruct (Hs (src + Z.of_nat n) ltac:(lia)) as (x & Hx & Hxr).
    destruct (Hd (dst + Z.of_nat n) ltac:(lia)) as (y & Hy & _).
    wp_step. eapply mload_spec; [done|]. wp_step. apply mstore_spec; [by eexists|].
    rewrite u8_small by done. apply IH.
    + apply mapped_insert; [|done]. eapply mapped_le; [exact Hd|lia..].
    + apply mapped_insert; [|done]. eapply mapped_le; [exact Hs|lia..].
    + lia.
    + intros m' Hm. apply HQ. rewrite Nat2Z.inj_succ. eapply moved_high; [lia|exact Hx|lia|exact Hm].
Qed.
Lemma non_null_ok p n m (Q : unit -> mem -> Prop) : 0 < p -> Q tt m -> mwp (non_null p n) m Q.
Proof.
  intros. unfold non_null. wp_step; [|done]. apply orb_true_iff. left. apply negb_true_iff, Z.eqb_neq.
  unfold NULL. lia.
Qed.

Lemma memcpy_spec dst src n m (Q : Z -> mem -> Prop) : 0 <= n -> 0 < dst -> 0 < src ->
  mapped m dst n -> mapped m src n -> dst <= src \/ src + n <= dst ->
  (forall m', moved m dst src n m' -> Q dst m') -> mwp (memcpy dst src n) m Q.
Proof.
  intros Hn Hd0 Hs0 Hd Hs Ho HQ. unfold memcpy.
  wp_step. apply non_null_ok; [done|]. wp_step. apply non_null_ok; [done|]. wp_step.
  apply copy_up_spec; rewrite ?Z2Nat.id by done; [done..|]. intros m' Hm. wp_step. by apply HQ.
Qed.

(** A null-terminated string read as a list: comparison in lockstep. *)
Lemma strcmp_loop_spec m fuel a b l l' : cstr m a l -> cstr m b l' -> (length l < fuel)%nat ->
  mwp (mloop fuel strcmp_body (a, b)) m (fun r m' => r = bytes_compare l l' /\ m' = m).
Proof.
  revert a b l l'. induction fuel as [|fuel IH]; intros a b l l' Ha Hb Hf; [lia|].
  apply mloop_step. unfold strcmp_body at 1.
  wp_step. eapply mload_spec; [by apply cstr_head|]. wp_step. eapply mload_spec; [by apply cstr_head|].
  pose proof (cs_range _ _ _ Ha) as Ra. pose proof (cs_range _ _ _ Hb) as Rb.
  destruct l as [|x l], l' as [|y l']; cbn [bytes_compare].
  - by cbn.
  - apply Forall_cons_1 in Rb as [? _]. cbn [Z.eqb negb andb]. wp_step.
    by rewrite (proj2 (Z.ltb_lt 0 y)) by lia.
  - apply Forall_cons_1 in Ra as [? _]. rewrite (proj2 (Z.eqb_neq x 0)) by lia. cbn [negb andb].
    wp_step. by rewrite (proj2 (Z.ltb_ge x 0)), (proj2 (Z.ltb_lt 0 x)) by lia.
  - apply Forall_cons_1 in Ra as [? _]. rewrite (proj2 (Z.eqb_neq x 0)) by lia. cbn [negb andb].
    destruct (Z.eqb_spec x y) as [<-|Hne]; wp_step.
    + rewrite Z.ltb_irrefl. apply IH; [by eapply cstr_tail..|]. simpl in Hf. lia.
    + destruct (Z.ltb_spec x y); [done|]. by rewrite (proj2 (Z.ltb_lt y x)) by lia.
Qed.
Lemma bytes_compare_eq l l' : bytes_compare l l' = 0 <-> l = l'.
Proof.
  revert l'. induction l as [|x l IH]; intros [|y l']; cbn [bytes_compare]; [done..|].
  destruct (Z.ltb_spec x y); [split; [done|intros [= -> ->]; lia]|].
  destruct (Z.ltb_spec y x); [split; [done|intros [= -> ->]; lia]|].
  rewrite IH. split; [intros ->; f_equal; lia|by intros [= _ ->]].
Qed.

(** [strchr] as a function of the string it searches. *)
Fixpoint find_char (p c : Z) (l : list Z) : Z :=
  match l with
  | [] => if c =? 0 then p else NULL
  | x :: l' => if x =? c then p else find_char (p + 1) c l'
  end.
Definition is_char_of (d : list Z) (x : Z) : bool := existsb (Z.eqb x) d.

Lemma find_char_null p c d : 0 < p -> c <> 0 -> (find_char p c d =? NULL) = negb (is_char_of d c).
Proof.
  unfold is_char_of. intros Hp Hc. revert p Hp. induction d as [|x d IH]; intros p Hp; cbn.
  - by rewrite (proj2 (Z.eqb_neq c 0)).
  - rewrite (Z.eqb_sym c x). destruct (x =? c); cbn; [apply Z.eqb_neq; unfold NULL; lia|].
    apply IH. lia.
Qed.
Lemma find_char_zero p d : 0 < p -> Forall (fun x => 0 < x < 256) d ->
  (find_char p 0 d =? NULL) = false.
Proof.
  intros Hp Hd. revert p Hp. induction Hd as [|x d Hx _ IH]; intros p Hp; cbn.
  - apply Z.eqb_neq. unfold NULL. lia.
  - rewrite (proj2 (Z.eqb_neq x 0)) by lia. apply IH. lia.
Qed.
Lemma strchr_spec m p l c (Q : Z -> mem -> Prop) : cstr m p l -> 0 <= c < 256 ->
  Q (find_char p c l) m -> mwp (strchr p c) m Q.
Proof.
  intros Hl Hc HQ. unfold strchr, scan_fuel. wp_step. wp_step; [by eapply cstr_ne|]. wp_step. wp_step.
  rewrite u8_small by done.
  eapply (scan_loop m (fun q rest => cstr m q rest /\ find_char q c rest = find_char p c l)).
  - intros q rest [Hr Hq]. unfold strchr_body. wp_step.
    eapply mload_spec; [by apply cstr_head|]. pose proof (cs_range _ _ _ Hr) as Hrg.
    destruct rest as [|x rest]; cbn [find_char] in Hq.
    + rewrite (Z.eqb_sym 0 c). destruct (c =? 0); cbn [Z.eqb]; wp_step; by rewrite Hq.
    + apply Forall_cons_1 in Hrg as [? _]. destruct (x =? c); [wp_step; by rewrite Hq|].
      rewrite (proj2 (Z.eqb_neq x 0)) by lia. wp_step. split; [done|].
      exists x, rest. split; [done|]. split; [by eapply cstr_tail|done].
  - done.
  - pose proof (cstr_size _ _ _ Hl). lia.
Qed.

(** What is left after the leading delimiters, and the token at the front. *)
Fixpoint skip_delims (d l : list Z) : list Z :=
  match l with x :: l' => if is_char_of d x then skip_delims d l' else l | [] => [] end.
Fixpoint take_token (d l : list Z) : list Z :=
  match l with x :: l' => if is_char_of d x then [] else x :: take_token d l' | [] => [] end.
Definition after_token (d l : list Z) : list Z := drop (S (length (take_token d l))) l.
(** The tokens of a string, for [S (length l)] of fuel or more. *)
Fixpoint tokens (fuel : nat) (d l : list Z) : list (list Z) :=
  match fuel with
  | O => []
  | S fuel' =>
      match skip_delims d l with
      | [] => []
      | l' => take_token d l' :: tokens fuel' d (after_token d l')
      end
  end.

Lemma skip_delims_len d l : (length (skip_delims d l) <= length l)%nat.
Proof. induction l as [|x l IH]; simpl; [lia|]. destruct (is_char_of d x); simpl; lia. Qed.
Lemma skip_delims_drop d l : skip_delims d l = drop (length l - length (skip_delims d l)) l.
Proof.
  induction l as [|x l IH]; simpl; [done|]. destruct (is_char_of d x); simpl.
  - pose proof (skip_delims_len d l).
    replace (S (length l) - length (skip_delims d l))%nat
      with (S (length l - length (skip_delims d l))) by lia. done.
  - by rewrite Nat.sub_diag.
Qed.
Lemma skip_delims_head d l x l' : skip_delims d l = x :: l' -> is_char_of d x = false.
Proof.
  induction l as [|y l IH]; simpl; [done|]. destruct (is_char_of d y) eqn:E; [done|]. by intros [= -> ->].
Qed.
Lemma take_token_prefix d l : take_token d l = take (length (take_token d l)) l.
Proof. induction l as [|x l IH]; simpl; [done|]. destruct (is_char_of d x); simpl; congruence. Qed.
Lemma take_token_len d l : (length (take_token d l) <= length l)%nat.
Proof. induction l as [|x l IH]; simpl; [done|]. destruct (is_char_of d x); simpl; lia. Qed.
Lemma take_token_clean d l : Forall (fun x => is_char_of d x = false) (take_token d l).
Proof.
  induction l as [|x l IH]; simpl; [constructor|]. destruct (is_char_of d x) eqn:E; by constructor.
Qed.

Section Strtok.
Context (m : mem) (dp : Z) (d : list Z) (Hd : cstr m dp d).

Lemma is_delim_spec x (Q : Z -> mem -> Prop) : 0 <= x < 256 ->
  (forall p, (p =? NULL) = (if x =? 0 then false else negb (is_char_of d x)) -> Q p m) ->
  mwp (strchr dp x) m Q.
Proof.
  intros Hx HQ. eapply strchr_spec; [exact Hd|done|]. apply HQ. pose proof (cs_null _ _ _ Hd).
  destruct (Z.eqb_spec x 0) as [->|Hne].
  - apply find_char_zero; [done|by eapply cs_range].
  - by apply find_char_null.
Qed.

Lemma skip_loop_spec s l fuel : cstr m s l -> (length l < fuel)%nat ->
  mwp (mloop fuel (skip_body dp) s) m (fun r m' => m' = m /\
    r = (s + zlen l - zlen (skip_delims d l), bool_decide (skip_delims d l = []))).
Proof.
  intros Hl Hf.
  eapply (scan_loop m (fun q rest => cstr m q rest /\ q + zlen rest = s + zlen l /\
    skip_delims d rest = skip_delims d l)); [|done|exact Hf].
  intros q rest (Hr & Hq & Hs). unfold skip_body. wp_step.
  eapply mload_spec; [by apply cstr_head|]. pose proof (cs_range _ _ _ Hr) as Hrg.
  destruct rest as [|c rest]; wp_step.
  - apply is_delim_spec; [lia|]. intros p ->. cbn. split; [done|]. simpl in Hs. rewrite <- Hs.
    f_equal. unfold zlen in *. simpl in *. lia.
  - apply Forall_cons_1 in Hrg as [? _]. apply is_delim_spec; [lia|]. intros p ->.
    rewrite (proj2 (Z.eqb_neq c 0)) by lia. rewrite negb_involutive. simpl in Hs.
    destruct (is_char_of d c); wp_step.
    + split; [done|]. exists c, rest. split; [done|]. split; [by eapply cstr_tail|].
      split; [|done]. unfold zlen in *. simpl in *. lia.
    + split; [done|]. rewrite <- Hs. f_equal. lia.
Qed.
Lemma token_loop_spec s l fuel : cstr m s l -> (length l < fuel)%nat ->
  mwp (mloop fuel (token_body dp) s) m (fun r m' => m' = m /\ r = s + zlen (take_token d l)).
Proof.
  intros Hl Hf.
  eapply (scan_loop m (fun q rest => cstr m q rest /\
    q + zlen (take_token d rest) = s + zlen (take_token d l))); [|done|exact Hf].
  intros q rest (Hr & Hq). unfold token_body. wp_step.
  eapply mload_spec; [by apply cstr_head|]. pose proof (cs_range _ _ _ Hr) as Hrg.
  destruct rest as [|c rest]; wp_step.
  - apply is_delim_spec; [lia|]. intros p ->. cbn. split; [done|]. unfold zlen in *. simpl in *. lia.
  - apply Forall_cons_1 in Hrg as [? _]. apply is_delim_spec; [lia|]. intros p ->.
    rewrite (proj2 (Z.eqb_neq c 0)) by lia. simpl in Hq.
    destruct (is_char_of d c); cbn [negb]; wp_step.
    + split; [done|]. unfold zlen in *. simpl in *. lia.
    + split; [done|]. exists c, rest. split; [done|]. split; [by eapply cstr_tail|].
      unfold zlen in *. simpl in *. lia.
Qed.
End Strtok.

(** One call of [strtok_r] on the string [l] at [p], whether [p] is given or saved. *)
Definition token_found (m : mem) (p : Z) (d l : list Z) (t save : Z) (m' : mem) : Prop :=
  match skip_delims d l with
  | [] => t = NULL /\ m' = m
  | l1 => p <= t /\ t < save /\ save + zlen (after_token d l1) = p + zlen l /\
          (t + zlen (take_token d l1) < save \/
           t + zlen (take_token d l1) = save /\ after_token d l1 = []) /\
          cstr m' t (take_token d l1) /\ cstr m' save (after_token d l1) /\
          forall q, ~ (t <= q < save /\ q < p + zlen l) -> m' !! q = m !! q
  end.

Lemma strtok_r_spec m dp d s save p l (Q : Z * Z -> mem -> Prop) :
  cstr m dp d -> p = (if s =? NULL then save else s) -> cstr m p l ->
  (forall t save' m', token_found m p d l t save' m' -> Q (t, save') m') ->
  mwp (strtok_r s dp save) m Q.
Proof.
  intros Hd Hp Hl HQ. unfold strtok_r, scan_fuel. rewrite <- Hp.
  wp_step. wp_step; [by eapply cstr_ne|]. wp_step. wp_step; [by eapply cstr_ne|].
  wp_step. wp_step. wp_step. pose proof (cstr_size _ _ _ Hl) as Hsz.
  eapply mwp_mono; [eapply skip_loop_spec; [exact Hd|exact Hl|lia]|]. intros r m' [-> ->].
  unfold token_found in HQ. pose proof (skip_delims_drop d l) as Ht.
  pose proof (skip_delims_len d l) as Htl. pose proof (skip_delims_head d l) as Hh.
  destruct (skip_delims d l) as [|x l1] eqn:El.
  { rewrite bool_decide_eq_true_2 by done. wp_step. by apply HQ. }
  rewrite bool_decide_eq_false_2 by done. specialize (Hh x l1 eq_refl).
  set (t := p + zlen l - zlen (x :: l1)) in *.
  assert (Hct : cstr m t (x :: l1)).
  { rewrite Ht. replace t with (p + Z.of_nat (length l - length (x :: l1)));
      [apply cstr_drop; [lia|done]|]. unfold t, zlen. lia. }
  wp_step. eapply mwp_mono; [eapply token_loop_spec; [exact Hd|exact Hct|]|].
  { simpl in *. lia. }
  intros r m' [-> ->]. set (k := take_token d (x :: l1)) in *.
  pose proof (take_token_len d (x :: l1)) as Hkl. fold k in Hkl.
  assert (Hk : (0 < length k)%nat) by (subst k; simpl; rewrite Hh; simpl; lia).
  assert (Hkt : k = take (length k) (x :: l1)) by apply take_token_prefix.
  assert (Hpt : p <= t) by (unfold t, zlen; lia).
  assert (Hend : t + zlen k <= p + zlen l) by (unfold t, zlen; lia).
  assert (Hrk : Forall (fun y => 0 < y < 256) k) by (rewrite Hkt; apply Forall_take, (cs_range _ _ _ Hct)).
  assert (Hbk : forall i y, k !! i = Some y -> m !! (t + Z.of_nat i) = Some y).
  { intros i y Hi. apply (cs_byte _ _ _ Hct). rewrite Hkt in Hi.
    by apply lookup_take_Some in Hi as [? _]. }
  assert (Hrest : cstr m (t + zlen k) (drop (length k) (x :: l1))) by by apply cstr_drop.
  wp_step. eapply mload_spec; [by apply cstr_head|].
  unfold after_token in HQ. fold k in HQ.
  replace (drop (S (length k)) (x :: l1)) with (drop 1 (drop (length k) (x :: l1))) in HQ
    by (rewrite drop_drop; f_equal; lia).
  assert (Hlen : length (drop (length k) (x :: l1)) = (length (x :: l1) - length k)%nat)
    by apply length_drop.
  destruct (drop (length k) (x :: l1)) as [|y rest] eqn:Er.
  - cbn [Z.eqb negb]. wp_step. apply HQ. split; [done|]. split; [unfold zlen; lia|].
    change (length []) with 0%nat in Hlen. change (zlen (drop 1 [])) with 0.
    split; [unfold t, zlen; lia|]. split; [by right|]. split; [|by split; [exact Hrest|]]. split; [apply (cs_null _ _ _ Hct)|done|done|].
    rewrite <- (cs_end _ _ _ Hrest). f_equal. unfold zlen. simpl. lia.
  - pose proof (cs_range _ _ _ Hrest) as Hy. apply Forall_cons_1 in Hy as [Hy _].
    rewrite (proj2 (Z.eqb_neq y 0)) by lia. cbn [negb]. wp_step.
    apply mstore_spec; [eexists; by apply (cstr_head _ _ _ Hrest)|]. wp_step. apply HQ.
    split; [done|]. split; [unfold zlen; lia|].
    change (length (y :: rest)) with (S (length rest)) in Hlen. change (drop 1 (y :: rest)) with rest.
    split; [unfold t, zlen; lia|]. split; [left; lia|].
    split; [|split].
    + split; [apply (cs_null _ _ _ Hct)| |done|by rewrite lookup_insert_eq].
      intros i z Hi. pose proof (lookup_lt_Some _ _ _ Hi). rewrite lookup_insert_ne by (unfold zlen; lia).
      by apply Hbk.
    + apply cstr_tail in Hrest.
      eapply cstr_ext; [exact Hrest|]. intros q Hq. rewrite lookup_insert_ne; [done|lia].
    + intros q Hq. rewrite lookup_insert_ne; [done|]. unfold t, zlen in *. lia.
Qed.

(** The loop of the usage example above [strtok_r], which process.c follows too:
    the addresses of the tokens in order. *)
Definition tokenize_body (delimiters : Z) (l : Z * Z * list Z) : MM (Z * Z * list Z + list Z) :=
  let '(s, save, acc) := l in
  '(token, save) ← strtok_r s delimiters save;
  if token =? NULL then mret (inr acc) else mret (inl (NULL, save, acc ++ [token])).
Definition tokenize (fuel : nat) (s delimiters : Z) : MM (list Z) :=
  mloop fuel (tokenize_body delimiters) (s, NULL, []).

(** The strings [ls] at the addresses [ps], all of them below [hi]. *)
Definition strings_at (m : mem) (lo hi : Z) (ps : list Z) (ls : list (list Z)) : Prop :=
  Forall2 (fun p l => cstr m p l /\ lo <= p /\ p + zlen l < hi) ps ls.

Lemma strings_at_ext m m' lo hi ps ls : strings_at m lo hi ps ls ->
  (forall q, lo <= q < hi -> m' !! q = m !! q) -> strings_at m' lo hi ps ls.
Proof.
  intros H Hm. eapply Forall2_impl; [|exact H]. intros p l (Hc & ? & ?).
  split; [|done]. eapply cstr_ext; [exact Hc|]. intros q Hq. apply Hm. lia.
Qed.

Lemma after_token_len d l x l1 : skip_delims d l = x :: l1 ->
  (length (after_token d (x :: l1)) < length l)%nat.
Proof.
  intros E. pose proof (skip_delims_len d l) as H. rewrite E in H. unfold after_token.
  rewrite length_drop. simpl in *. lia.
Qed.
Lemma tokens_fuel fuel fuel' d l : (length l < fuel)%nat -> (length l < fuel')%nat ->
  tokens fuel d l = tokens fuel' d l.
Proof.
  revert fuel' l. induction fuel as [|fuel IH]; intros [|fuel'] l H H'; [lia..|]. cbn [tokens].
  destruct (skip_delims d l) as [|x l1] eqn:E; [done|]. f_equal.
  apply after_token_len in E. apply IH; lia.
Qed.

Lemma tokenize_spec fuel m dp d s save p l acc (Q : list Z -> mem -> Prop) :
  cstr m dp d -> p = (if s =? NULL then save else s) -> cstr m p l ->
  dp + zlen d < p \/ p + zlen l < dp -> (length l < fuel)%nat ->
  (forall ps m', strings_at m' p (p + zlen l + 1) ps (tokens fuel d l) ->
     (forall q, ~ p <= q < p + zlen l -> m' !! q = m !! q) -> Q (acc ++ ps) m') ->
  mwp (mloop fuel (tokenize_body dp) (s, save, acc)) m Q.
Proof.
  revert m s save p l acc Q. induction fuel as [|fuel IH]; intros m s save p l acc Q Hd Hp Hl Ho Hf HQ;
    [lia|].
  apply mloop_step. unfold tokenize_body at 1. wp_step.
  eapply strtok_r_spec; [exact Hd|exact Hp|exact Hl|]. intros t save' m' Hm.
  unfold token_found in Hm. cbn [tokens] in HQ. pose proof (after_token_len d l) as Hal.
  destruct (skip_delims d l) as [|x l1] eqn:E.
  { destruct Hm as [-> ->]. rewrite Z.eqb_refl. wp_step. rewrite <- (app_nil_r acc).
    apply HQ; [constructor|done]. }
  destruct Hm as (Hpt & Hts & Hsl & Htok & Hct & Hcs & Hm). specialize (Hal _ _ eq_refl).
  rewrite (proj2 (Z.eqb_neq t NULL)) by (pose proof (cs_null _ _ _ Hct); unfold NULL; lia).
  wp_step. pose proof (cs_null _ _ _ Hcs) as Hs0.
  set (k := take_token d (x :: l1)) in *. set (r := after_token d (x :: l1)) in *.
  assert (Hkr : t + zlen k < save' \/ t + zlen k = save' /\ zlen r = 0).
  { destruct Htok as [?|[? ->]]; [by left|by right]. }
  apply (IH m' NULL save' save' r).
  - eapply cstr_ext; [exact Hd|]. intros q Hq. apply Hm. lia.
  - done.
  - done.
  - lia.
  - lia.
  - intros ps m2 Hps Hm2. rewrite <- app_assoc. apply HQ.
    + constructor.
      * split; [|split; [done|]].
        { eapply cstr_ext; [exact Hct|]. intros q Hq. apply Hm2. lia. }
        pose proof (zlen_nonneg r). lia.
      * eapply Forall2_impl; [|exact Hps]. cbv beta. intros p' l' (? & ? & ?). split; [done|]. lia.
    + intros q Hq. rewrite Hm2 by lia. apply Hm. lia.
Qed.

(** *** Properties *)
(** [memmove] copies correctly however the two regions overlap: afterwards
    the destination holds the bytes the source held before and nothing else
    changed.  It returns [dst] only when it copied backward; when [dst] is below
    [src] it returns the end of the destination, although it says it returns DST. *)
Theorem memmove_moves dst src n m : 0 <= n -> 0 < dst -> 0 < src ->
  mapped m dst n -> mapped m src n ->
  mwp (memmove dst src n) m (fun r m' =>
    moved m dst src n m' /\ r = (if dst <? src then dst + n else dst)).
Proof.
  intros Hn Hd0 Hs0 Hd Hs. unfold memmove.
  wp_step. apply non_null_ok; [done|]. wp_step. apply non_null_ok; [done|].
  destruct (Z.ltb_spec dst src); wp_step.
  - apply copy_up_spec; rewrite ?Z2Nat.id by done; [done..|lia|]. intros m' Hm. by wp_step.
  - rewrite <- (Z2Nat.id n Hn) at 2 3.
    apply copy_down_spec; rewrite ?Z2Nat.id by done; [done..|lia|]. intros m' Hm. by wp_step.
Qed.

(** [strlcpy] returns the length of the source and leaves in the destination
    its longest prefix that fits in [size - 1] bytes, terminated; it writes nothing
    beyond that. *)
Theorem strlcpy_truncates dst src size l m : 0 < size -> 0 < dst -> cstr m src l ->
  mapped m dst size -> dst + size <= src \/ src + zlen l < dst ->
  mwp (strlcpy dst src size) m (fun r m' =>
    r = zlen l /\ cstr m' dst (take (Z.to_nat (size - 1)) l) /\
    forall q, ~ dst <= q < dst + size -> m' !! q = m !! q).
Proof.
  intros Hsz Hd0 Hl Hd Ho. unfold strlcpy.
  wp_step. wp_step; [apply negb_true_iff, Z.eqb_neq; unfold NULL; lia|].
  wp_step. wp_step; [by eapply cstr_ne|]. wp_step. eapply strlen_spec; [exact Hl|].
  rewrite (proj2 (Z.ltb_lt 0 size)) by done. pose proof (zlen_nonneg l). wp_step.
  set (k := if zlen l <? size - 1 then zlen l else size - 1).
  assert (Hk : k = Z.min (zlen l) (size - 1)) by (unfold k; destruct (Z.ltb_spec (zlen l) (size - 1)); lia).
  assert (Ht : zlen (take (Z.to_nat (size - 1)) l) = k).
  { unfold zlen. rewrite length_take. unfold zlen in *. lia. }
  apply memcpy_spec; [lia|done|by destruct Hl| | |lia|].
  - eapply mapped_le; [exact Hd|lia..].
  - intros q Hq. destruct (lookup_lt_is_Some_2 l (Z.to_nat (q - src))) as [x Hx]; [unfold zlen in *; lia|].
    exists x. split; [rewrite <- (cs_byte _ _ _ Hl _ _ Hx); f_equal; lia|].
    pose proof (proj1 (Forall_lookup _ _) (cs_range _ _ _ Hl) _ _ Hx) as Hr. simpl in Hr. lia.
  - intros m1 Hm1. wp_step. apply mstore_spec.
    { rewrite Hm1, decide_False by lia. destruct (Hd (dst + k)) as (x & Hx & _); [lia|by exists x]. }
    wp_step. split; [done|]. split.
    + split; [done| |apply Forall_take; by destruct Hl|].
      * intros i x Hi. pose proof (lookup_lt_Some _ _ _ Hi) as Hlt. apply lookup_take_Some in Hi as [Hi _].
        rewrite lookup_insert_ne by (unfold zlen in *; lia).
        rewrite Hm1, decide_True by (unfold zlen in *; lia). rewrite <- (cs_byte _ _ _ Hl _ _ Hi). f_equal. lia.
      * by rewrite Ht, lookup_insert_eq.
    + intros q Hq. rewrite lookup_insert_ne by lia. rewrite Hm1, decide_False by lia. done.
Qed.

(** C24. Calling [strtok_r] until it returns null, as its comment and process.c do,
    terminates and finds exactly the maximal runs of non-delimiters of the string,
    in order, each terminated in place; nothing outside the string is written. *)
Theorem strtok_r_tokens m s dp d l : cstr m s l -> cstr m dp d ->
  dp + zlen d < s \/ s + zlen l < dp ->
  mwp (tokenize (S (length l)) s dp) m (fun ps m' =>
    strings_at m' s (s + zlen l + 1) ps (tokens (S (length l)) d l) /\
    (forall q, ~ s <= q < s + zlen l -> m' !! q = m !! q)).
Proof.
  intros Hl Hd Ho. unfold tokenize. eapply tokenize_spec with (p := s) (l := l);
    [exact Hd| |exact Hl|exact Ho|lia|].
  - by rewrite (proj2 (Z.eqb_neq s NULL)) by (pose proof (cs_null _ _ _ Hl); unfold NULL; lia).
  - intros ps m' Hps Hm. by split.
Qed.

(** [strcmp] is zero exactly on equal strings and otherwise has the sign of the
    first difference of unsigned bytes, a proper prefix being the lesser. *)
Theorem strcmp_compares m a b l l' : cstr m a l -> cstr m b l' ->
  mwp (strcmp a b) m (fun r m' => m' = m /\ r = bytes_compare l l' /\ (r = 0 <-> l = l')).
Proof.
  intros Ha Hb. unfold strcmp, scan_fuel. wp_step. wp_step; [by eapply cstr_ne|].
  wp_step. wp_step; [by eapply cstr_ne|]. wp_step. wp_step.
  pose proof (cstr_size _ _ _ Ha). eapply mwp_mono; [apply strcmp_loop_spec; [done..|lia]|].
  intros r m' [-> ->]. split; [done|]. split; [done|apply bytes_compare_eq].
Qed.

(** *** Witnesses *)
(** A memory holding the bytes [l] at [p]. *)
Definition bytes_mem (p : Z) (l : list Z) : mem :=
  list_to_map (zip (seqZ p (zlen l)) l).
Definition ex_bytes : list Z := [32; 97; 98; 32; 32; 99; 0; 32; 0].
Definition ex_mem : mem := bytes_mem 10 ex_bytes.

Fixpoint cstr_ok (m : mem) (p : Z) (l : list Z) : bool :=
  match l with
  | [] => bool_decide (m !! p = Some 0)
  | x :: l' => bool_decide (m !! p = Some x) && (0 <? x) && (x <? 256) && cstr_ok m (p + 1) l'
  end.
Lemma cstr_ok_sound m p l : 0 < p -> cstr_ok m p l = true -> cstr m p l.
Proof.
  intros Hp. revert p Hp. induction l as [|x l IH]; intros p Hp; cbn [cstr_ok].
  - intros H%bool_decide_eq_true_1. split; [done|done|constructor|].
    rewrite <- H. f_equal. unfold zlen. simpl. lia.
  - rewrite !andb_true_iff, bool_decide_eq_true, !Z.ltb_lt. intros (((Hx & ?) & ?) & Hl).
    apply IH in Hl as [_ Hb Hr He]; [|lia]. split; [done| |by constructor|].
    + intros [|i] y Hi; simpl in Hi; simplify_eq; [rewrite <- Hx; f_equal; lia|].
      rewrite <- (Hb i y Hi). f_equal. lia.
    + rewrite <- He. f_equal. unfold zlen. simpl length. lia.
Qed.
Definition mapped_ok (m : mem) (p n : Z) : bool :=
  forallb (fun q => match m !! q with Some x => (0 <=? x) && (x <? 256) | None => false end) (seqZ p n).
Lemma mapped_ok_sound m p n : mapped_ok m p n = true -> mapped m p n.
Proof.
  unfold mapped_ok. rewrite forallb_forall. intros H q Hq.
  specialize (H q). destruct (m !! q) as [x|].
  - exists x. split; [done|]. apply andb_true_iff in H; [rewrite Z.leb_le, Z.ltb_lt in H; lia|].
    apply list_elem_of_In, elem_of_seqZ. lia.
  - discriminate H. apply list_elem_of_In, elem_of_seqZ. lia.
Qed.
Lemma memmove_moves_witness :
  mwp (memmove 11 13 4) ex_mem (fun r m' => moved ex_mem 11 13 4 m' /\ r = 15).
Proof.
  eapply mwp_mono.
  - apply (memmove_moves 11 13 4 ex_mem); [lia|lia|lia|by apply mapped_ok_sound|by apply mapped_ok_sound].
  - intros r m' [? ->]. by split.
Defined.
Lemma strlcpy_truncates_witness :
  mwp (strlcpy 17 11 2) ex_mem (fun r m' => r = 5 /\ cstr m' 17 [97]).
Proof.
  eapply mwp_mono.
  - apply (strlcpy_truncates 17 11 2 [97; 98; 32; 32; 99] ex_mem);
      [lia|lia|by apply cstr_ok_sound|by apply mapped_ok_sound|right; vm_compute; reflexivity].
  - intros r m' (-> & ? & _). by split.
Defined.
Lemma strtok_r_tokens_witness :
  mwp (tokenize 7 10 17) ex_mem (fun ps m' =>
    strings_at m' 10 17 ps [[97; 98]; [99]] /\ m' !! 17 = Some 32).
Proof.
  eapply mwp_mono.
  - apply (strtok_r_tokens ex_mem 10 17 [32] [32; 97; 98; 32; 32; 99]);
      [by apply cstr_ok_sound|by apply cstr_ok_sound|right; vm_compute; reflexivity].
  - intros ps m' [Hp Hm]. split; [exact Hp|]. rewrite Hm; [done|]. vm_compute. intros [_ H]. discriminate H.
Defined.
Lemma strcmp_compares_witness :
  mwp (strcmp 11 15) ex_mem (fun r _ => r = -1).
Proof.
  eapply mwp_mono.
  - apply (strcmp_compares ex_mem 11 15 [97; 98; 32; 32; 99] [99]); by apply cstr_ok_sound.
  - intros r m' (_ & -> & _). done.
Defined.
