(* ===== verification/KList.v ===== *)
(** * KList: lib/kernel/list.c

    The heap maps the address of a [struct list_elem] to its two pointers.  A
    [struct list] at [l] is its head element at [l] and its tail element 8 bytes
    further.  The loops over a list are bounded by the number of elements of
    the heap.  [rep h l xs] says that the list at [l] holds the elements [xs];
    the theorems state each operation as an operation on [xs]. *)
From S2P Require Import Prelude.
From Stdlib Require Import Sorting.Sorted.

Record list_elem := ListElem { prev : Z; next : Z }.
Abbreviation heap := (gmap Z list_elem).
Abbreviation HM := (M (gmap Z list_elem)).
Definition NULL : Z := 0.

Definition load (e : Z) : HM list_elem := fun h =>
  match h !! e with Some n => Ok (n, h) | None => Fault end.
Definition get_prev (e : Z) : HM Z := n ← load e; mret (prev n).
Definition get_next (e : Z) : HM Z := n ← load e; mret (next n).
Definition store (e : Z) (n : list_elem) : HM unit := _ ← load e; modify (<[e := n]>).
Definition set_prev (e p : Z) : HM unit := n ← load e; store e (ListElem p (next n)).
Definition set_next (e p : Z) : HM unit := n ← load e; store e (ListElem (prev n) p).
Definition walk_fuel : HM nat := gets (fun h => S (S (size h))).

Definition is_head (e : Z) : HM bool :=
  if e =? NULL then mret false else n ← load e; mret ((prev n =? NULL) && negb (next n =? NULL)).
Definition is_interior (e : Z) : HM bool :=
  if e =? NULL then mret false
  else n ← load e; mret (negb (prev n =? NULL) && negb (next n =? NULL)).
Definition is_tail (e : Z) : HM bool :=
  if e =? NULL then mret false else n ← load e; mret (negb (prev n =? NULL) && (next n =? NULL)).
(** [ASSERT (a || b)] *)
Definition assert_or (a b : HM bool) : HM unit :=
  x ← a; if (x : bool) then mret tt else y ← b; assert y.
Definition assert_b (a : HM bool) : HM unit := x ← a; assert x.
Definition not_null (p : Z) : HM unit := assert (negb (p =? NULL)).

Definition list_head (l : Z) : HM Z := _ ← not_null l; mret l.
Definition list_tail (l : Z) : HM Z := _ ← not_null l; mret (l + 8).
Definition list_end (l : Z) : HM Z := _ ← not_null l; mret (l + 8).
Definition list_rend (l : Z) : HM Z := _ ← not_null l; mret l.
Definition list_begin (l : Z) : HM Z := _ ← not_null l; get_next l.
Definition list_rbegin (l : Z) : HM Z := _ ← not_null l; get_prev (l + 8).
Definition list_next (e : Z) : HM Z := _ ← assert_or (is_head e) (is_interior e); get_next e.
Definition list_prev (e : Z) : HM Z := _ ← assert_or (is_interior e) (is_tail e); get_prev e.

Definition list_init (l : Z) : HM unit :=
  _ ← not_null l;
  _ ← set_prev l NULL; _ ← set_next l (l + 8);
  _ ← set_prev (l + 8) l; set_next (l + 8) NULL.

Definition list_insert (before elem : Z) : HM unit :=
  _ ← assert_or (is_interior before) (is_tail before);
  _ ← not_null elem;
  p ← get_prev before; _ ← set_prev elem p;
  _ ← set_next elem before;
  p ← get_prev before; _ ← set_next p elem;
  set_prev before elem.

Definition list_splice (before first last : Z) : HM unit :=
  _ ← assert_or (is_interior before) (is_tail before);
  if first =? last then mret tt
  else
    last ← list_prev last;
    _ ← assert_b (is_interior first); _ ← assert_b (is_interior last);
    fp ← get_prev first; ln ← get_next last; _ ← set_next fp ln;
    ln ← get_next last; fp ← get_prev first; _ ← set_prev ln fp;
    bp ← get_prev before; _ ← set_prev first bp;
    _ ← set_next last before;
    bp ← get_prev before; _ ← set_next bp first;
    set_prev before last.

Definition list_push_front (l elem : Z) : HM unit := b ← list_begin l; list_insert b elem.
Definition list_push_back (l elem : Z) : HM unit := e ← list_end l; list_insert e elem.
Definition list_remove (elem : Z) : HM Z :=
  _ ← assert_b (is_interior elem);
  p ← get_prev elem; n ← get_next elem; _ ← set_next p n;
  n ← get_next elem; p ← get_prev elem; _ ← set_prev n p;
  get_next elem.

Definition list_empty (l : Z) : HM bool := b ← list_begin l; e ← list_end l; mret (b =? e).
Definition list_front (l : Z) : HM Z := b ← list_empty l; _ ← assert (negb b); get_next l.
Definition list_back (l : Z) : HM Z := b ← list_empty l; _ ← assert (negb b); get_prev (l + 8).
Definition list_pop_front (l : Z) : HM Z := front ← list_front l; _ ← list_remove front; mret front.
Definition list_pop_back (l : Z) : HM Z := back ← list_back l; _ ← list_remove back; mret back.

Definition size_body (l : Z) (s : Z * Z) : HM (Z * Z + Z) :=
  let '(e, cnt) := s in
  e' ← list_end l;
  if e =? e' then mret (inr cnt) else n ← list_next e; mret (inl (n, cnt + 1)).
Definition list_size (l : Z) : HM Z :=
  e ← list_begin l; fuel ← walk_fuel; mloop fuel (size_body l) (e, 0).

(** [swap] of the two pointers of one element, and of two pointers of two elements. *)
Definition swap_links (e : Z) : HM unit := n ← load e; store e (ListElem (next n) (prev n)).
Definition swap_next_prev (a b : Z) : HM unit :=
  x ← get_next a; y ← get_prev b; _ ← set_next a y; set_prev b x.
Definition swap_prev_next (a b : Z) : HM unit :=
  x ← get_prev a; y ← get_next b; _ ← set_prev a y; set_next b x.
Definition reverse_body (l e : Z) : HM (Z + unit) :=
  e' ← list_end l;
  if e =? e' then mret (inr tt) else _ ← swap_links e; p ← get_prev e; mret (inl p).
Definition list_reverse (l : Z) : HM unit :=
  b ← list_empty l;
  if (b : bool) then mret tt
  else
    e ← list_begin l; fuel ← walk_fuel; _ ← mloop fuel (reverse_body l) e;
    _ ← swap_next_prev l (l + 8);
    a ← get_next l; b ← get_prev (l + 8); swap_prev_next a b.

(** ** The operations that compare elements: [less] is the caller's function. *)
Section Less.
Context (less : Z -> Z -> bool).

Definition sorted_body (b a : Z) : HM (Z + bool) :=
  a ← list_next a;
  if a =? b then mret (inr true)
  else p ← list_prev a; if less a p then mret (inr false) else mret (inl a).
Definition is_sorted (a b : Z) : HM bool :=
  if a =? b then mret true else fuel ← walk_fuel; mloop fuel (sorted_body b) a.

Definition run_body (b a : Z) : HM (Z + Z) :=
  a ← list_next a;
  if a =? b then mret (inr a)
  else p ← list_prev a; if less a p then mret (inr a) else mret (inl a).
Definition find_end_of_run (a b : Z) : HM Z :=
  _ ← not_null a; _ ← not_null b; _ ← assert (negb (a =? b));
  fuel ← walk_fuel; mloop fuel (run_body b) a.

Definition merge_body (b1 : Z) (s : Z * Z) : HM (Z * Z + unit) :=
  let '(a0, a1b0) := s in
  if (a0 =? a1b0) || (a1b0 =? b1) then mret (inr tt)
  else if negb (less a1b0 a0) then a0 ← list_next a0; mret (inl (a0, a1b0))
  else
    a1b0 ← list_next a1b0;
    p ← list_prev a1b0;
    _ ← list_splice a0 p a1b0;
    mret (inl (a0, a1b0)).
Definition inplace_merge (a0 a1b0 b1 : Z) : HM unit :=
  _ ← not_null a0; _ ← not_null a1b0; _ ← not_null b1;
  _ ← assert_b (is_sorted a0 a1b0); _ ← assert_b (is_sorted a1b0 b1);
  fuel ← walk_fuel; mloop fuel (merge_body b1) (a0, a1b0).

(** One pass over the list; the result is the number of runs of its output. *)
Definition pass_body (l : Z) (s : Z * Z) : HM (Z * Z + Z) :=
  let '(a0, cnt) := s in
  e ← list_end l;
  if a0 =? e then mret (inr cnt)
  else
    let cnt := cnt + 1 in
    e ← list_end l; a1b0 ← find_end_of_run a0 e;
    e ← list_end l;
    if a1b0 =? e then mret (inr cnt)
    else
      e ← list_end l; b1 ← find_end_of_run a1b0 e;
      _ ← inplace_merge a0 a1b0 b1;
      mret (inl (b1, cnt)).
Definition sort_body (l : Z) (_ : unit) : HM (unit + unit) :=
  a0 ← list_begin l; fuel ← walk_fuel;
  output_run_cnt ← mloop fuel (pass_body l) (a0, 0);
  if 1 <? output_run_cnt then mret (inl tt) else mret (inr tt).
Definition list_sort (l : Z) : HM unit :=
  _ ← not_null l;
  fuel ← walk_fuel; _ ← mloop fuel (sort_body l) tt;
  b ← list_begin l; e ← list_end l; assert_b (is_sorted b e).

Definition ordered_body (l elem e : Z) : HM (Z + Z) :=
  e' ← list_end l;
  if e =? e' then mret (inr e)
  else if less elem e then mret (inr e) else n ← list_next e; mret (inl n).
Definition list_insert_ordered (l elem : Z) : HM unit :=
  _ ← not_null l; _ ← not_null elem;
  e ← list_begin l; fuel ← walk_fuel; e ← mloop fuel (ordered_body l elem) e;
  list_insert e elem.

Definition unique_body (l duplicates elem : Z) : HM (Z + unit) :=
  next ← list_next elem;
  e ← list_end l;
  if next =? e then mret (inr tt)
  else if negb (less elem next) && negb (less next elem) then
    _ ← list_remove next;
    _ ← (if negb (duplicates =? NULL) then list_push_back duplicates next else mret tt);
    mret (inl elem)
  else mret (inl next).
Definition list_unique (l duplicates : Z) : HM unit :=
  _ ← not_null l;
  b ← list_empty l;
  if (b : bool) then mret tt
  else elem ← list_begin l; fuel ← walk_fuel; mloop fuel (unique_body l duplicates) elem.

(** [list_max] and [list_min]: [better e m] is the test that replaces [m] by [e]. *)
Definition extremum_body (better : Z -> Z -> bool) (l : Z) (s : Z * Z) : HM (Z * Z + Z) :=
  let '(e, m) := s in
  e' ← list_end l;
  if e =? e' then mret (inr m)
  else n ← list_next e; mret (inl (n, if better e m then e else m)).
Definition list_max (l : Z) : HM Z :=
  max ← list_begin l; e ← list_end l;
  if negb (max =? e) then
    e ← list_next max; fuel ← walk_fuel;
    mloop fuel (extremum_body (fun e max => less max e) l) (e, max)
  else mret max.
Definition list_min (l : Z) : HM Z :=
  min ← list_begin l; e ← list_end l;
  if negb (min =? e) then
    e ← list_next min; fuel ← walk_fuel;
    mloop fuel (extremum_body (fun e min => less e min) l) (e, min)
  else mret min.
End Less.

(** ** The list a heap holds *)
Definition lastd (d : Z) (l : list Z) : Z := List.last l d.
(** The elements [ns] in a row, after [p] and before [z]. *)
Fixpoint chain (h : heap) (p : Z) (ns : list Z) (z : Z) : Prop :=
  match ns with
  | [] => True
  | n :: ns' => h !! n = Some (ListElem p (hd z ns')) /\ chain h n ns' z
  end.
Definition nodes (l : Z) (xs : list Z) : list Z := l :: xs ++ [l + 8].
Record rep (h : heap) (l : Z) (xs : list Z) : Prop := Rep {
  rep_nodup : NoDup (nodes l xs);
  rep_null : NULL ∉ nodes l xs;
  rep_chain : chain h NULL (nodes l xs) NULL;
}.
(** Only the elements [ns] changed. *)
Definition same_but (h : heap) (ns : list Z) (h' : heap) : Prop := forall q, q ∉ ns -> h' !! q = h !! q.

Lemma lastd_snoc d l x : lastd d (l ++ [x]) = x.
Proof. unfold lastd. apply last_last. Qed.
Lemma lastd_cons d x l : lastd d (x :: l) = lastd x l.
Proof.
  unfold lastd. revert d x. induction l as [|y l IH]; intros d x; [done|].
  change (List.last (x :: y :: l) d) with (List.last (y :: l) d). by rewrite !IH.
Qed.
Lemma chain_app h p a b z : chain h p (a ++ b) z <-> chain h p a (hd z b) /\ chain h (lastd p a) b z.
Proof.
  revert p. induction a as [|x a IH]; intros p; [naive_solver|].
  rewrite lastd_cons. cbn [app chain]. rewrite IH.
  replace (hd z (a ++ b)) with (hd (hd z b) a) by (by destruct a). tauto.
Qed.
Lemma chain_frame h h' p ns z : (forall n, n ∈ ns -> h' !! n = h !! n) -> chain h p ns z -> chain h' p ns z.
Proof.
  revert p. induction ns as [|n ns IH]; intros p Hf; [done|]. intros [Hn Hc]. cbn [chain].
  rewrite Hf by left. split; [done|]. apply IH; [|done]. intros m Hm. apply Hf. by right.
Qed.
Lemma chain_mapped h p ns z n : chain h p ns z -> n ∈ ns -> is_Some (h !! n).
Proof.
  revert p. induction ns as [|m ns IH]; intros p Hc Hn; [by apply not_elem_of_nil in Hn|].
  destruct Hc as [Hm Hc]. apply elem_of_cons in Hn as [->|Hn]; [by eexists|by eapply IH].
Qed.
(** The pointers of one element of a row. *)
Lemma chain_at h p a n b z : chain h p (a ++ n :: b) z -> h !! n = Some (ListElem (lastd p a) (hd z b)).
Proof. rewrite chain_app. by intros (_ & ? & _). Qed.
Lemma rep_at h l xs a n b : rep h l xs -> nodes l xs = a ++ n :: b ->
  h !! n = Some (ListElem (lastd NULL a) (hd NULL b)).
Proof. intros [_ _ Hc] E. rewrite E in Hc. by apply chain_at in Hc. Qed.
Lemma rep_size h l xs : rep h l xs -> (length xs + 2 <= size h)%nat.
Proof.
  intros [Hn _ Hc]. transitivity (length (nodes l xs)).
  { unfold nodes. simpl. rewrite length_app. simpl. lia. }
  rewrite <- (size_list_to_set (C:=gset Z)) by done. rewrite <- size_dom. apply subseteq_size.
  intros n Hx. apply elem_of_list_to_set in Hx. apply elem_of_dom. by eapply chain_mapped.
Qed.
Lemma rep_ne h l xs n : rep h l xs -> n ∈ nodes l xs -> (n =? NULL) = false.
Proof. intros [_ H0 _] Hn. apply Z.eqb_neq. intros ->. done. Qed.
Lemma rep_frame h h' l xs : (forall n, n ∈ nodes l xs -> h' !! n = h !! n) -> rep h l xs -> rep h' l xs.
Proof. intros Hf [? ? Hc]. split; [done..|]. by eapply chain_frame. Qed.
Lemma nodes_split l xs ys : nodes l (xs ++ ys) = (l :: xs) ++ ys ++ [l + 8].
Proof. unfold nodes. by rewrite <- !app_assoc. Qed.
(** The node before a position and the node at it. *)
Lemma split_last (l : Z) xs : exists a u, l :: xs = a ++ [u].
Proof. destruct (exists_last (l:=l :: xs) ltac:(done)) as (a & u & E). eauto. Qed.
Lemma split_first (ys : list Z) t : exists b c, ys ++ [t] = b :: c /\ b = hd t ys.
Proof. destruct ys; simpl; eauto. Qed.

Lemma load_spec e n h (Q : list_elem -> heap -> Prop) : h !! e = Some n -> Q n h -> mwp (load e) h Q.
Proof. intros E H. unfold mwp, load. by rewrite E. Qed.
Lemma get_prev_spec e n h (Q : Z -> heap -> Prop) : h !! e = Some n -> Q (prev n) h -> mwp (get_prev e) h Q.
Proof. intros. unfold get_prev. wp_step. eapply load_spec; [done|]. by wp_step. Qed.
Lemma get_next_spec e n h (Q : Z -> heap -> Prop) : h !! e = Some n -> Q (next n) h -> mwp (get_next e) h Q.
Proof. intros. unfold get_next. wp_step. eapply load_spec; [done|]. by wp_step. Qed.
Lemma store_spec e n n' h (Q : unit -> heap -> Prop) :
  h !! e = Some n -> Q tt (<[e := n']> h) -> mwp (store e n') h Q.
Proof. intros. unfold store. wp_step. eapply load_spec; [done|]. by wp_step. Qed.
Lemma set_prev_spec e p n h (Q : unit -> heap -> Prop) :
  h !! e = Some n -> Q tt (<[e := ListElem p (next n)]> h) -> mwp (set_prev e p) h Q.
Proof. intros. unfold set_prev. wp_step. eapply load_spec; [done|]. by eapply store_spec. Qed.
Lemma set_next_spec e p n h (Q : unit -> heap -> Prop) :
  h !! e = Some n -> Q tt (<[e := ListElem (prev n) p]> h) -> mwp (set_next e p) h Q.
Proof. intros. unfold set_next. wp_step. eapply load_spec; [done|]. by eapply store_spec. Qed.
Lemma not_null_spec e h (Q : unit -> heap -> Prop) :
  (e =? NULL) = false -> Q tt h -> mwp (not_null e) h Q.
Proof. intros E H. unfold not_null. wp_step; [by rewrite E|done]. Qed.
Lemma is_interior_spec e n h (Q : bool -> heap -> Prop) : (e =? NULL) = false -> h !! e = Some n ->
  Q (negb (prev n =? NULL) && negb (next n =? NULL)) h -> mwp (is_interior e) h Q.
Proof. intros E H HQ. unfold is_interior. rewrite E. wp_step. eapply load_spec; [done|]. by wp_step. Qed.
Lemma is_tail_spec e n h (Q : bool -> heap -> Prop) : (e =? NULL) = false -> h !! e = Some n ->
  Q (negb (prev n =? NULL) && (next n =? NULL)) h -> mwp (is_tail e) h Q.
Proof. intros E H HQ. unfold is_tail. rewrite E. wp_step. eapply load_spec; [done|]. by wp_step. Qed.
Lemma is_head_spec e n h (Q : bool -> heap -> Prop) : (e =? NULL) = false -> h !! e = Some n ->
  Q ((prev n =? NULL) && negb (next n =? NULL)) h -> mwp (is_head e) h Q.
Proof. intros E H HQ. unfold is_head. rewrite E. wp_step. eapply load_spec; [done|]. by wp_step. Qed.

(** [is_interior (e) || is_tail (e)]: an element with something before it. *)
Lemma assert_back e n h (Q : unit -> heap -> Prop) : (e =? NULL) = false -> h !! e = Some n ->
  (prev n =? NULL) = false -> Q tt h -> mwp (assert_or (is_interior e) (is_tail e)) h Q.
Proof.
  intros E H Hp HQ. unfold assert_or. wp_step. eapply is_interior_spec; [done..|]. rewrite Hp. cbn.
  destruct (next n =? NULL) eqn:En; cbn [negb]; [|by wp_step].
  wp_step. eapply is_tail_spec; [done..|]. rewrite Hp, En. by wp_step.
Qed.
(** [is_head (e) || is_interior (e)]: an element with something after it. *)
Lemma assert_fwd e n h (Q : unit -> heap -> Prop) : (e =? NULL) = false -> h !! e = Some n ->
  (next n =? NULL) = false -> Q tt h -> mwp (assert_or (is_head e) (is_interior e)) h Q.
Proof.
  intros E H Hp HQ. unfold assert_or. wp_step. eapply is_head_spec; [done..|]. rewrite Hp. cbn.
  destruct (prev n =? NULL) eqn:En; cbn [andb]; [by wp_step|].
  wp_step. eapply is_interior_spec; [done..|]. rewrite Hp, En. by wp_step.
Qed.
Lemma assert_inner e n h (Q : unit -> heap -> Prop) : (e =? NULL) = false -> h !! e = Some n ->
  (prev n =? NULL) = false -> (next n =? NULL) = false -> Q tt h -> mwp (assert_b (is_interior e)) h Q.
Proof.
  intros E H Hp Hn HQ. unfold assert_b. wp_step. eapply is_interior_spec; [done..|]. rewrite Hp, Hn.
  by wp_step.
Qed.

(** Look through the stores of a step. *)
Ltac heap_lookup :=
  repeat first [rewrite lookup_insert_eq | rewrite lookup_insert_ne by congruence]; try done.
(** Elements of a row without repetitions differ. *)
Lemma nodup_mid (a : list Z) n b m : NoDup (a ++ n :: b) -> m ∈ a \/ m ∈ b -> m <> n.
Proof.
  intros (_ & Ha & Hb)%list.NoDup_app [Hm|Hm] ->; [by apply (Ha n Hm); left|]. by apply list.NoDup_cons in Hb as [? _].
Qed.

Section Steps.
Context (h : heap) (l : Z) (xs : list Z) (Hr : rep h l xs).

Lemma next_nonnull a n m b : nodes l xs = a ++ n :: m :: b ->
  h !! n = Some (ListElem (lastd NULL a) m) /\ (n =? NULL) = false /\ (m =? NULL) = false.
Proof.
  intros E. split; [by apply (rep_at _ _ _ _ _ _ Hr E)|].
  split; eapply rep_ne; try exact Hr; rewrite E, elem_of_app, !elem_of_cons; tauto.
Qed.
Lemma prev_nonnull a m n b : nodes l xs = a ++ m :: n :: b ->
  h !! n = Some (ListElem m (hd NULL b)) /\ (n =? NULL) = false /\ (m =? NULL) = false.
Proof.
  intros E. split; [|split; eapply rep_ne; try exact Hr; rewrite E, elem_of_app, !elem_of_cons; tauto].
  assert (E' : nodes l xs = (a ++ [m]) ++ n :: b) by by rewrite <- app_assoc.
  rewrite (rep_at _ _ _ _ _ _ Hr E'). by rewrite lastd_snoc.
Qed.
Lemma list_next_spec a n m b (Q : Z -> heap -> Prop) :
  nodes l xs = a ++ n :: m :: b -> Q m h -> mwp (list_next n) h Q.
Proof.
  intros E HQ. destruct (next_nonnull _ _ _ _ E) as (Hn & H0 & Hm). unfold list_next.
  wp_step. eapply assert_fwd; [done..|]. by eapply get_next_spec.
Qed.
Lemma list_prev_spec a m n b (Q : Z -> heap -> Prop) :
  nodes l xs = a ++ m :: n :: b -> Q m h -> mwp (list_prev n) h Q.
Proof.
  intros E HQ. destruct (prev_nonnull _ _ _ _ E) as (Hn & H0 & Hm). unfold list_prev.
  wp_step. eapply assert_back; [done..|]. by eapply get_prev_spec.
Qed.
Lemma not_null_list (Q : unit -> heap -> Prop) : Q tt h -> mwp (not_null l) h Q.
Proof. apply not_null_spec. eapply rep_ne; [exact Hr|]. by left. Qed.
Lemma list_end_spec (Q : Z -> heap -> Prop) : Q (l + 8) h -> mwp (list_end l) h Q.
Proof. intros. unfold list_end. wp_step. apply not_null_list. by wp_step. Qed.
Lemma list_begin_spec (Q : Z -> heap -> Prop) : Q (hd (l + 8) xs) h -> mwp (list_begin l) h Q.
Proof.
  intros HQ. unfold list_begin. wp_step. apply not_null_list. destruct (split_first xs (l + 8)) as (b & c & E & Eb).
  eapply get_next_spec; [apply (next_nonnull [] l b c); unfold nodes; by rewrite E|]. cbn. by rewrite Eb.
Qed.
Lemma list_tail_prev (Q : Z -> heap -> Prop) : Q (lastd l xs) h -> mwp (get_prev (l + 8)) h Q.
Proof.
  intros HQ. destruct (split_last l xs) as (a & u & E).
  assert (En : nodes l xs = a ++ u :: [l + 8]).
  { unfold nodes. rewrite (app_comm_cons xs), E. by rewrite <- app_assoc. }
  eapply get_prev_spec; [by apply (prev_nonnull _ _ _ _ En)|]. cbn.
  replace u with (lastd l xs); [done|]. rewrite <- (lastd_cons 0 l xs), E. by rewrite lastd_snoc.
Qed.
Lemma elem_in_nodes x : x ∈ xs -> x ∈ nodes l xs.
Proof. intros. unfold nodes. rewrite elem_of_cons, elem_of_app. tauto. Qed.
Lemma tail_not_in : l + 8 ∉ xs.
Proof.
  destruct Hr as [Hn _ _]. unfold nodes in Hn. apply list.NoDup_cons in Hn as [_ Hn].
  apply list.NoDup_app in Hn as (_ & Hd & _). intros Hi. apply (Hd _ Hi). by left.
Qed.
(** The end test of a walk. *)
Lemma at_end ys zs : xs = ys ++ zs -> (hd (l + 8) zs =? l + 8) = bool_decide (zs = []).
Proof.
  intros E. destruct zs as [|z zs]; cbn [hd]; [apply Z.eqb_refl|].
  rewrite bool_decide_eq_false_2 by done. apply Z.eqb_neq. intros ->. apply tail_not_in.
  rewrite E, elem_of_app, elem_of_cons. tauto.
Qed.
Lemma list_empty_spec (Q : bool -> heap -> Prop) :
  Q (bool_decide (xs = [])) h -> mwp (list_empty l) h Q.
Proof.
  intros HQ. unfold list_empty. wp_step. apply list_begin_spec. wp_step. apply list_end_spec. wp_step.
  by rewrite (at_end [] xs).
Qed.
Lemma list_next_walk ys z zs (Q : Z -> heap -> Prop) : xs = ys ++ z :: zs ->
  Q (hd (l + 8) zs) h -> mwp (list_next z) h Q.
Proof.
  intros E HQ. destruct (split_first zs (l + 8)) as (b & c & Ez & Eb).
  eapply list_next_spec with (a := l :: ys) (b := c) (m := b).
  - unfold nodes. rewrite E, <- app_assoc. cbn. by rewrite Ez.
  - by rewrite Eb.
Qed.

(** A walk from an element to the end of the list. *)
Lemma walk_loop {L R} (I : L -> list Z -> list Z -> Prop) (Q : R -> heap -> Prop) (body : L -> HM (L + R)) :
  (forall s ys zs, xs = ys ++ zs -> I s ys zs -> mwp (body s) h (fun x h' =>
     match x with
     | inl s' => h' = h /\ exists z zs', zs = z :: zs' /\ I s' (ys ++ [z]) zs'
     | inr r => Q r h' end)) ->
  forall zs ys s fuel, xs = ys ++ zs -> I s ys zs -> (length zs < fuel)%nat -> mwp (mloop fuel body s) h Q.
Proof.
  intros Hb zs. induction zs as [|z zs IH]; intros ys s fuel E HI Hf;
    (destruct fuel as [|fuel]; [simpl in Hf; lia|]); apply mloop_step;
    (eapply mwp_mono; [by eapply Hb|]); intros [s'|r] h'; try done.
  - intros (_ & z & zs' & ? & _). done.
  - intros (-> & z' & zs' & [= <- <-] & HI'). eapply IH; [|exact HI'|simpl in Hf; lia].
    by rewrite <- app_assoc.
Qed.
End Steps.

(** Insertion before an arbitrary element, and the removal of one. *)
Lemma list_insert_spec h l xs ys e (Q : unit -> heap -> Prop) :
  rep h l (xs ++ ys) -> is_Some (h !! e) -> e <> NULL -> e ∉ nodes l (xs ++ ys) ->
  (forall h', rep h' l (xs ++ e :: ys) -> same_but h (e :: nodes l (xs ++ ys)) h' -> Q tt h') ->
  mwp (list_insert (hd (l + 8) ys) e) h Q.
Proof.
  intros Hr [e0 He] He0 Hf HQ. pose proof (rep_nodup _ _ _ Hr) as Hnd. pose proof (rep_null _ _ _ Hr) as H0.
  destruct (split_last l xs) as (a & u & Ea). destruct (split_first ys (l + 8)) as (b & c & Eb & <-).
  assert (En : nodes l (xs ++ ys) = a ++ u :: b :: c).
  { rewrite nodes_split, Ea, Eb. by rewrite <- app_assoc. }
  assert (En' : nodes l (xs ++ e :: ys) = a ++ u :: e :: b :: c).
  { rewrite nodes_split, Ea. cbn. rewrite Eb. by rewrite <- app_assoc. }
  destruct (prev_nonnull _ _ _ Hr _ _ _ _ En) as (Hb & Hb0 & Hu0).
  destruct (next_nonnull _ _ _ Hr _ _ _ _ En) as (Hu & _).
  pose proof (rep_chain _ _ _ Hr) as Hc. rewrite En in *. clear Hr.
  assert (Hub : u <> b) by (eapply not_eq_sym, nodup_mid; [exact Hnd|]; right; by left).
  rewrite elem_of_app, !elem_of_cons in Hf.
  assert (Heu : e <> u) by naive_solver. assert (Heb : e <> b) by naive_solver.
  unfold list_insert. wp_step. eapply assert_back; [done|exact Hb|done|].
  wp_step. apply not_null_spec; [by apply Z.eqb_neq|].
  wp_step. eapply get_prev_spec; [done|]. wp_step. eapply set_prev_spec; [done|]. cbn.
  wp_step. eapply set_next_spec; [by heap_lookup|]. cbn.
  wp_step. eapply get_prev_spec; [by heap_lookup|]. cbn.
  wp_step. eapply set_next_spec; [by heap_lookup|]. cbn.
  eapply set_prev_spec; [by heap_lookup|]. cbn. apply HQ.
  - split; rewrite En'.
    + apply list.NoDup_app in Hnd as (Ha & Hd & Hb'). apply list.NoDup_app. split; [done|]. split.
      * intros x Hx Hx'. apply (Hd x Hx). rewrite !elem_of_cons in *. naive_solver.
      * rewrite !list.NoDup_cons in *. rewrite !elem_of_cons in *. naive_solver.
    + rewrite elem_of_app, !elem_of_cons in *. naive_solver.
    + apply chain_app in Hc as [Hca [_ [_ Hcc]]]. apply chain_app. cbn [chain hd].
      split; [|repeat split].
      * eapply chain_frame; [|exact Hca]. intros n Hn.
        assert (n <> u) by (eapply nodup_mid; [exact Hnd|by left]).
        assert (n <> b) by (apply list.NoDup_app in Hnd as (_ & Hd & _); intros ->; apply (Hd _ Hn); right; left).
        assert (n <> e) by naive_solver. heap_lookup.
      * heap_lookup.
      * heap_lookup.
      * heap_lookup.
      * eapply chain_frame; [|exact Hcc]. intros n Hn.
        assert (n <> u) by (eapply nodup_mid; [exact Hnd|right; by right]).
        assert (n <> b) by (intros ->; apply list.NoDup_app in Hnd as (_ & _ & Hd); rewrite !list.NoDup_cons in Hd; naive_solver).
        assert (n <> e) by naive_solver. heap_lookup.
  - intros q Hq. rewrite elem_of_cons, elem_of_app, !elem_of_cons in Hq.
    assert (q <> e /\ q <> u /\ q <> b) as (? & ? & ?) by naive_solver. heap_lookup.
Qed.
Lemma list_remove_spec h l xs e ys (Q : Z -> heap -> Prop) :
  rep h l (xs ++ e :: ys) ->
  (forall h', rep h' l (xs ++ ys) -> same_but h (nodes l (xs ++ ys)) h' -> Q (hd (l + 8) ys) h') ->
  mwp (list_remove e) h Q.
Proof.
  intros Hr HQ. pose proof (rep_nodup _ _ _ Hr) as Hnd. pose proof (rep_null _ _ _ Hr) as H0.
  destruct (split_last l xs) as (a & u & Ea). destruct (split_first ys (l + 8)) as (b & c & Eb & Ehd).
  rewrite <- Ehd in HQ.
  assert (En : nodes l (xs ++ e :: ys) = a ++ u :: e :: b :: c).
  { rewrite nodes_split, Ea. cbn. rewrite Eb. by rewrite <- app_assoc. }
  assert (En' : nodes l (xs ++ ys) = a ++ u :: b :: c).
  { rewrite nodes_split, Ea, Eb. by rewrite <- app_assoc. }
  assert (En2 : nodes l (xs ++ e :: ys) = (a ++ [u]) ++ e :: b :: c) by by rewrite <- app_assoc.
  destruct (prev_nonnull _ _ _ Hr _ _ _ _ En) as (He & He0 & Hu0). cbn in He.
  destruct (next_nonnull _ _ _ Hr _ _ _ _ En) as (Hu & _).
  destruct (prev_nonnull _ _ _ Hr _ _ _ _ En2) as (Hb & Hb0 & _).
  pose proof (rep_chain _ _ _ Hr) as Hc. rewrite En in *. clear Hr En2.
  assert (Hue : u <> e) by (eapply not_eq_sym, nodup_mid; [exact Hnd|]; right; by left).
  assert (Hub : u <> b) by (eapply not_eq_sym, nodup_mid; [exact Hnd|]; right; right; by left).
  assert (Hnd2 := Hnd). apply list.NoDup_app in Hnd2 as (Hda & Hdd & Hdb). rewrite !list.NoDup_cons, !elem_of_cons in Hdb.
  assert (Heb : e <> b) by naive_solver.
  unfold list_remove. wp_step. eapply assert_inner; [done|exact He|done|done|].
  wp_step. eapply get_prev_spec; [done|]. wp_step. eapply get_next_spec; [done|]. cbn.
  wp_step. eapply set_next_spec; [done|]. cbn.
  wp_step. eapply get_next_spec; [by heap_lookup|]. wp_step. eapply get_prev_spec; [by heap_lookup|]. cbn.
  wp_step. eapply set_prev_spec; [by heap_lookup|]. cbn.
  eapply get_next_spec; [by heap_lookup|]. cbn. apply HQ.
  - split; rewrite En'.
    + apply list.NoDup_app. split; [done|]. split.
      * intros x Hx Hx'. apply (Hdd x Hx). rewrite !elem_of_cons in *. naive_solver.
      * rewrite !list.NoDup_cons, !elem_of_cons. naive_solver.
    + rewrite elem_of_app, !elem_of_cons in *. naive_solver.
    + apply chain_app in Hc as [Hca [_ [_ [_ Hcc]]]]. apply chain_app. cbn [chain hd].
      split; [|repeat split].
      * eapply chain_frame; [|exact Hca]. intros n Hn. pose proof (Hdd n Hn) as Hx.
        rewrite !elem_of_cons in Hx. assert (n <> u /\ n <> b) as [? ?] by naive_solver. heap_lookup.
      * heap_lookup.
      * heap_lookup.
      * eapply chain_frame; [|exact Hcc]. intros n Hn.
        assert (n <> u /\ n <> b) as [? ?] by naive_solver. heap_lookup.
  - intros q Hq. rewrite En', elem_of_app, !elem_of_cons in Hq.
    assert (q <> u /\ q <> b) as (? & ?) by naive_solver. heap_lookup.
Qed.

Lemma list_init_spec h l (Q : unit -> heap -> Prop) :
  is_Some (h !! l) -> is_Some (h !! (l + 8)) -> l <> NULL -> l + 8 <> NULL ->
  (forall h', rep h' l [] -> same_but h [l; l + 8] h' -> Q tt h') -> mwp (list_init l) h Q.
Proof.
  intros [n Hn] [m Hm] H0 H8 HQ. assert (l <> l + 8) by lia. unfold list_init.
  wp_step. apply not_null_spec; [by apply Z.eqb_neq|].
  wp_step. eapply set_prev_spec; [done|]. wp_step. eapply set_next_spec; [by heap_lookup|]. cbn.
  wp_step. eapply set_prev_spec; [by heap_lookup|]. eapply set_next_spec; [by heap_lookup|]. cbn.
  apply HQ.
  - split; unfold nodes; cbn [app].
    + rewrite !list.NoDup_cons, elem_of_cons. repeat split; try apply not_elem_of_nil; [|apply list.NoDup_nil; done].
      intros [?|?%not_elem_of_nil]; done.
    + rewrite !elem_of_cons. intros [?|[?|?%not_elem_of_nil]]; congruence.
    + cbn. repeat split; heap_lookup.
  - intros q Hq. rewrite !elem_of_cons in Hq. assert (q <> l /\ q <> l + 8) as [? ?] by naive_solver. heap_lookup.
Qed.
Lemma list_push_front_spec h l xs e (Q : unit -> heap -> Prop) :
  rep h l xs -> is_Some (h !! e) -> e <> NULL -> e ∉ nodes l xs ->
  (forall h', rep h' l (e :: xs) -> same_but h (e :: nodes l xs) h' -> Q tt h') ->
  mwp (list_push_front l e) h Q.
Proof.
  intros Hr ??? HQ. unfold list_push_front. wp_step. eapply list_begin_spec; [done|].
  by eapply (list_insert_spec h l []).
Qed.
Lemma list_push_back_spec h l xs e (Q : unit -> heap -> Prop) :
  rep h l xs -> is_Some (h !! e) -> e <> NULL -> e ∉ nodes l xs ->
  (forall h', rep h' l (xs ++ [e]) -> same_but h (e :: nodes l xs) h' -> Q tt h') ->
  mwp (list_push_back l e) h Q.
Proof.
  intros Hr ??? HQ. unfold list_push_back. wp_step. eapply list_end_spec; [done|].
  apply (list_insert_spec h l xs []); by rewrite ?app_nil_r.
Qed.
Lemma list_pop_front_spec h l x xs (Q : Z -> heap -> Prop) : rep h l (x :: xs) ->
  (forall h', rep h' l xs -> same_but h (nodes l xs) h' -> Q x h') -> mwp (list_pop_front l) h Q.
Proof.
  intros Hr HQ. unfold list_pop_front, list_front. wp_step. wp_step. eapply list_empty_spec; [done|].
  wp_step. wp_step; [by rewrite bool_decide_eq_false_2|].
  eapply get_next_spec; [by eapply (next_nonnull _ _ _ Hr [])|]. cbn.
  wp_step. eapply (list_remove_spec _ _ []); [exact Hr|]. intros h' ??. wp_step. by apply HQ.
Qed.
Lemma list_pop_back_spec h l xs x (Q : Z -> heap -> Prop) : rep h l (xs ++ [x]) ->
  (forall h', rep h' l xs -> same_but h (nodes l xs) h' -> Q x h') -> mwp (list_pop_back l) h Q.
Proof.
  intros Hr HQ. unfold list_pop_back, list_back. wp_step. wp_step. eapply list_empty_spec; [done|].
  wp_step. wp_step; [by rewrite bool_decide_eq_false_2 by (by destruct xs)|].
  eapply list_tail_prev; [exact Hr|]. rewrite lastd_snoc.
  wp_step. eapply (list_remove_spec _ _ xs x []); [exact Hr|]. rewrite app_nil_r. intros h' ??. wp_step.
  by apply HQ.
Qed.
Lemma list_size_spec h l xs (Q : Z -> heap -> Prop) : rep h l xs -> Q (zlen xs) h -> mwp (list_size l) h Q.
Proof.
  intros Hr HQ. unfold list_size, walk_fuel. wp_step. eapply list_begin_spec; [done|]. wp_step. wp_step.
  pose proof (rep_size _ _ _ Hr).
  eapply (walk_loop h xs (fun s ys zs => s = (hd (l + 8) zs, zlen ys))) with (ys := []) (zs := xs); [|done|done|lia].
  intros s ys zs E ->. unfold size_body. wp_step. eapply list_end_spec; [done|].
  rewrite (at_end h l xs Hr ys zs E). destruct zs as [|z zs].
  - rewrite bool_decide_eq_true_2 by done. wp_step. by rewrite app_nil_r in E; subst.
  - rewrite bool_decide_eq_false_2 by done. wp_step. eapply list_next_walk; [done|exact E|]. wp_step. split; [done|]. exists z, zs. split; [done|].
    f_equal. unfold zlen. rewrite length_app. simpl. lia.
Qed.

(** Where [list_insert_ordered] puts an element. *)
Fixpoint ordered_insert (less : Z -> Z -> bool) (e : Z) (xs : list Z) : list Z :=
  match xs with
  | [] => [e]
  | x :: xs' => if less e x then e :: xs else x :: ordered_insert less e xs'
  end.
Definition in_order (less : Z -> Z -> bool) : list Z -> Prop :=
  StronglySorted (fun a b => less b a = false).
Lemma ordered_insert_split less e xs : exists ys zs, xs = ys ++ zs /\
  ordered_insert less e xs = ys ++ e :: zs /\ Forall (fun y => less e y = false) ys /\
  match zs with [] => True | z :: _ => less e z = true end.
Proof.
  induction xs as [|x xs (ys & zs & -> & E & Hy & Hz)]; simpl.
  - exists [], []. done.
  - destruct (less e x) eqn:Ex.
    + exists [], (x :: ys ++ zs). done.
    + exists (x :: ys), zs. cbn. rewrite E. split; [done|]. split; [done|]. split; [by constructor|done].
Qed.
Lemma list_insert_ordered_spec less h l xs e (Q : unit -> heap -> Prop) :
  rep h l xs -> is_Some (h !! e) -> e <> NULL -> e ∉ nodes l xs ->
  (forall h', rep h' l (ordered_insert less e xs) -> same_but h (e :: nodes l xs) h' -> Q tt h') ->
  mwp (list_insert_ordered less l e) h Q.
Proof.
  intros Hr He He0 Hn HQ. unfold list_insert_ordered, walk_fuel. wp_step. eapply not_null_list; [done|].
  wp_step. apply not_null_spec; [by apply Z.eqb_neq|]. wp_step. eapply list_begin_spec; [done|].
  wp_step. wp_step. wp_step. pose proof (rep_size _ _ _ Hr).
  eapply (walk_loop h xs (fun s ys zs => s = hd (l + 8) zs /\
    ordered_insert less e xs = ys ++ ordered_insert less e zs)) with (ys := []) (zs := xs); [|done|done|lia].
  intros s ys zs E [-> Hi]. unfold ordered_body. wp_step. eapply list_end_spec; [done|].
  rewrite (at_end h l xs Hr ys zs E).
  assert (Hins : ordered_insert less e zs = e :: zs -> mwp (list_insert (hd (l + 8) zs) e) h Q).
  { intros Hz. rewrite Hz in Hi. apply list_insert_spec with (xs := ys); [by rewrite <- E|done|done|by rewrite <- E|].
    rewrite <- Hi, <- E. exact HQ. }
  destruct zs as [|z zs].
  - rewrite bool_decide_eq_true_2 by done. wp_step. by apply Hins.
  - rewrite bool_decide_eq_false_2 by done. cbn [hd]. cbn [ordered_insert] in Hins, Hi.
    destruct (less e z) eqn:Ez; wp_step; [by apply Hins|].
    eapply list_next_walk; [done|exact E|]. wp_step. split; [done|]. exists z, zs. split; [done|].
    split; [done|]. by rewrite <- app_assoc.
Qed.

(** *** Reversal *)
Definition swapped (n : list_elem) : list_elem := ListElem (next n) (prev n).
Lemma rev_reverse (l : list Z) : rev l = reverse l.
Proof. apply rev_alt. Qed.
Lemma lastd_rev d ns : lastd d (rev ns) = hd d ns.
Proof. destruct ns as [|n ns]; [done|]. cbn. apply lastd_snoc. Qed.
Lemma hd_rev d ns : hd d (rev ns) = lastd d ns.
Proof. rewrite <- (rev_involutive ns) at 2. by rewrite lastd_rev. Qed.
Lemma chain_swapped h h' p ns z : chain h p ns z -> (forall n, n ∈ ns -> h' !! n = swapped <$> h !! n) ->
  chain h' z (rev ns) p.
Proof.
  revert p. induction ns as [|n ns IH]; intros p Hc Hs; [done|]. destruct Hc as [Hn Hc]. cbn [rev].
  apply chain_app. split.
  - apply (IH n); [done|]. intros m Hm. apply Hs. by right.
  - cbn [chain hd]. split; [|done]. rewrite Hs by left. rewrite Hn, lastd_rev. done.
Qed.
Lemma reverse_loop h l xs (Hr : rep h l xs) zs ys h' fuel : xs = ys ++ zs ->
  (forall n, h' !! n = if decide (n ∈ ys) then swapped <$> h !! n else h !! n) -> (length zs < fuel)%nat ->
  mwp (mloop fuel (reverse_body l) (hd (l + 8) zs)) h'
    (fun _ h2 => forall n, h2 !! n = if decide (n ∈ xs) then swapped <$> h !! n else h !! n).
Proof.
  revert ys h' fuel. induction zs as [|z zs IH]; intros ys h' fuel E Hh Hf;
    (destruct fuel as [|fuel]; [simpl in Hf; lia|]); apply mloop_step; unfold reverse_body at 1; wp_step;
    unfold list_end; wp_step; (apply not_null_spec; [by eapply rep_ne; [exact Hr|left]|]); wp_step;
    rewrite (at_end h l xs Hr ys _ E).
  - rewrite bool_decide_eq_true_2 by done. wp_step. by rewrite app_nil_r in E; subst.
  - rewrite bool_decide_eq_false_2 by done. cbn [hd].
    pose proof (rep_nodup _ _ _ Hr) as Hnd. unfold nodes in Hnd. rewrite list.NoDup_cons in Hnd.
    destruct Hnd as [_ (Hnd & _)%list.NoDup_app]. rewrite E in Hnd.
    pose proof Hnd as Hnd2. apply list.NoDup_app in Hnd2 as (_ & Hd & Hnd2). apply list.NoDup_cons in Hnd2 as [Hz _].
    assert (Hzy : z ∉ ys) by (intros Hi; apply (Hd z Hi); left).
    destruct (split_last l ys) as (a & u & Ea). destruct (split_first zs (l + 8)) as (b & c & Eb & Ehd).
    assert (En : nodes l xs = (a ++ [u]) ++ z :: b :: c).
    { rewrite E, nodes_split, Ea. cbn. by rewrite Eb. }
    destruct (next_nonnull _ _ _ Hr _ _ _ _ En) as (Hz' & _). rewrite lastd_snoc in Hz'.
    assert (Hzh : h' !! z = Some (ListElem u b)) by by rewrite Hh, decide_False.
    unfold swap_links. wp_step. wp_step. eapply load_spec; [done|]. eapply store_spec; [done|]. cbn.
    wp_step. eapply get_prev_spec; [by heap_lookup|]. wp_step. cbn [prev swapped next]. rewrite Ehd.
    apply (IH (ys ++ [z])); [by rewrite <- app_assoc| |simpl in Hf; lia].
    intros n. destruct (decide (n = z)) as [->|Hne].
    + rewrite lookup_insert_eq, decide_True by (rewrite elem_of_app; right; by left). rewrite Hz'. cbn. by rewrite Ehd.
    + rewrite lookup_insert_ne by done. rewrite Hh. destruct (decide (n ∈ ys)) as [Hi|Hi].
      * rewrite decide_True; [done|]. rewrite elem_of_app. by left.
      * rewrite decide_False; [done|]. rewrite elem_of_app, list_elem_of_singleton. naive_solver.
Qed.
(** Closing the reversed row: its ends are moved from the tail and head of the
    list to the head and tail. *)
Lemma chain_reclose h h3 l t g m f : NoDup (g :: m) -> f = lastd g m ->
  chain h t (g :: m) l ->
  (forall n, n ∈ m -> n <> g -> n <> f -> h3 !! n = h !! n) ->
  (forall a b, h !! g = Some (ListElem t b) -> g <> f -> h3 !! g = Some (ListElem l b) /\
     (h !! f = Some (ListElem a l) -> h3 !! f = Some (ListElem a t))) ->
  (g = f -> h3 !! g = Some (ListElem l t)) ->
  chain h3 l (g :: m) t.
Proof.
  intros Hnd Ef Hc Hne Hgf Heq.
  destruct (list_eq_dec Z.eq_dec m []) as [->|Hm].
  { cbn in Ef. subst f. cbn. split; [by apply Heq|done]. }
  destruct (exists_last Hm) as (k & f' & E). subst m. rewrite lastd_snoc in Ef. subst f'.
  apply list.NoDup_cons in Hnd as [Hg Hnd]. apply list.NoDup_app in Hnd as (Hk & Hd & _).
  assert (g <> f) by (intros ->; apply Hg; rewrite elem_of_app; right; by left).
  destruct Hc as [Hgl Hc]. apply chain_app in Hc as [Hck [Hfl _]].
  destruct (Hgf (lastd g k) (hd l (k ++ [f])) Hgl) as [Hg3 Hf3]; [done|].
  cbn [chain]. split.
  { rewrite Hg3. by destruct k. }
  apply chain_app. split.
  - eapply chain_frame; [|exact Hck]. intros n Hn. apply Hne.
    + rewrite elem_of_app. by left.
    + intros ->. apply Hg. rewrite elem_of_app. by left.
    + intros ->. apply (Hd f Hn). by left.
  - cbn. split; [|done]. by apply Hf3.
Qed.
Lemma list_reverse_spec h l xs (Q : unit -> heap -> Prop) : rep h l xs ->
  (forall h', rep h' l (rev xs) -> same_but h (nodes l xs) h' -> Q tt h') -> mwp (list_reverse l) h Q.
Proof.
  intros Hr HQ. unfold list_reverse, walk_fuel. wp_step. eapply list_empty_spec; [done|].
  destruct (decide (xs = [])) as [->|Hne].
  { rewrite bool_decide_eq_true_2 by done. wp_step. by apply HQ. }
  rewrite bool_decide_eq_false_2 by done. wp_step. eapply list_begin_spec; [done|]. wp_step. wp_step.
  pose proof (rep_size _ _ _ Hr) as Hsz. wp_step.
  eapply mwp_mono; [apply (reverse_loop h l xs Hr xs []); [done| |lia]|].
  { intros n. rewrite decide_False; [done|]. apply not_elem_of_nil. }
  intros [] h2 Hh2. cbv beta in Hh2. pose proof (rep_nodup _ _ _ Hr) as Hnd. pose proof (rep_null _ _ _ Hr) as H0.
  pose proof (tail_not_in _ _ _ Hr) as Ht.
  unfold nodes in Hnd. rewrite list.NoDup_cons in Hnd. destruct Hnd as [Hl (Hnd & _)%list.NoDup_app].
  rewrite elem_of_app, list_elem_of_singleton in Hl.
  assert (Hlx : l ∉ xs) by naive_solver. assert (Hll : l <> l + 8) by lia.
  pose proof (rep_chain _ _ _ Hr) as Hc. unfold nodes in Hc. destruct Hc as [Hcl Hc].
  apply chain_app in Hc as [Hcx [Hct _]]. cbn in Hcx, Hct.
  assert (Hc2 : chain h2 (l + 8) (rev xs) l).
  { eapply chain_swapped; [exact Hcx|]. intros n Hn. by rewrite Hh2, decide_True. }
  assert (Hl2 : h2 !! l = Some (ListElem NULL (lastd 0 (rev xs)))).
  { rewrite Hh2, decide_False by done. rewrite Hcl, lastd_rev. by destruct xs. }
  assert (Ht2 : h2 !! (l + 8) = Some (ListElem (hd 0 (rev xs)) NULL)).
  { rewrite Hh2, decide_False by done. rewrite Hct, hd_rev. destruct xs; [done|]. by rewrite !lastd_cons. }
  assert (Hin : forall n, n ∈ rev xs <-> n ∈ xs) by (intros n; rewrite rev_reverse; apply elem_of_reverse).
  assert (Hndr : NoDup (rev xs)) by (by rewrite rev_reverse, reverse_Permutation).
  assert (Hne' : rev xs <> []) by (intros E%(f_equal (@rev Z)); rewrite rev_involutive in E; done).
  destruct (rev xs) as [|g m] eqn:Er; [done|]. rewrite lastd_cons in Hl2. cbn [hd] in Ht2. set (f := lastd g m) in *.
  assert (Hfx : f ∈ xs).
  { apply Hin. unfold f. rewrite <- (lastd_cons 0 g m). rewrite <- Er, lastd_rev. rewrite Er. apply Hin. destruct xs; [done|]. by left. }
  assert (Hgx : g ∈ xs) by (apply Hin; left).
  assert (Hgl : g <> l /\ g <> l + 8 /\ f <> l /\ f <> l + 8) by (repeat split; intros ->; done).
  destruct Hgl as (?&?&?&?).
  pose proof Hc2 as [Hg2 _].
  assert (Hf2 : exists a, h2 !! f = Some (ListElem a l)).
  { destruct (exists_last Hne') as (k & f' & E). unfold f. rewrite <- (lastd_cons 0 g m), E, lastd_snoc.
    rewrite E in Hc2. apply chain_at in Hc2. by eexists. }
  destruct Hf2 as [fp Hf2].
  assert (Hmn : forall n, n ∈ m -> n <> l /\ n <> l + 8).
  { intros n Hn. assert (n ∈ xs) by (apply Hin; by right). split; intros ->; done. }
  assert (Hfin : forall h3, h3 !! l = Some (ListElem NULL g) -> h3 !! (l + 8) = Some (ListElem f NULL) ->
    chain h3 l (g :: m) (l + 8) -> (forall n, n <> l -> n <> l + 8 -> n <> g -> n <> f -> h3 !! n = h2 !! n) ->
    Q tt h3).
  { intros h3 H3l H3t H3c H3n. apply HQ.
    - split.
      + unfold nodes. apply list.NoDup_cons. rewrite elem_of_app, list_elem_of_singleton, Hin. split; [naive_solver|].
        apply list.NoDup_app. split; [done|]. split; [|apply NoDup_singleton].
        intros n Hn ->%list_elem_of_singleton. by apply Ht, Hin.
      + unfold nodes in H0 |- *. rewrite elem_of_cons, elem_of_app, Hin in *. done.
      + unfold nodes. change (chain h3 NULL ([l] ++ (g :: m) ++ [l + 8]) NULL). apply chain_app. split; [done|].
        apply chain_app. split; [exact H3c|]. rewrite lastd_cons. split; [exact H3t|done].
    - intros q Hq. unfold nodes in Hq. rewrite elem_of_cons, elem_of_app, list_elem_of_singleton in Hq.
      rewrite H3n, Hh2, decide_False; naive_solver. }
  unfold swap_next_prev, swap_prev_next.
  wp_step. wp_step. eapply get_next_spec; [done|]. wp_step. eapply get_prev_spec; [done|]. cbn.
  wp_step. eapply set_next_spec; [done|]. cbn. eapply set_prev_spec; [by heap_lookup|]. cbn.
  wp_step. eapply get_next_spec; [by heap_lookup|]. cbn. wp_step. eapply get_prev_spec; [by heap_lookup|]. cbn.
  wp_step. eapply get_prev_spec; [by heap_lookup|]. cbn. wp_step. eapply get_next_spec; [by heap_lookup|]. cbn.
  wp_step. eapply set_prev_spec; [by heap_lookup|]. cbn.
  destruct (decide (g = f)) as [Egf|Hgf].
  - eapply set_next_spec; [rewrite <- Egf; by heap_lookup|]. cbn. rewrite <- Egf in *.
    apply Hfin; [by heap_lookup..| |intros; by heap_lookup].
    eapply (chain_reclose h2 _ l (l + 8) g m g); [done|exact Egf|exact Hc2| |done|intros; by heap_lookup].
    intros n Hn ??. apply Hmn in Hn as [??]. heap_lookup.
  - eapply set_next_spec; [by heap_lookup|]. cbn.
    apply Hfin; [by heap_lookup..| |intros; by heap_lookup].
    eapply (chain_reclose h2 _ l (l + 8) g m f); [done|done|exact Hc2| | |done].
    + intros n Hn ??. apply Hmn in Hn as [??]. heap_lookup.
    + intros a b Hb _. rewrite Hg2 in Hb. injection Hb as <-. split; [by heap_lookup|].
      intros Hf. rewrite Hf2 in Hf. injection Hf as <-. by heap_lookup.
Qed.

(** ** The abstract list

    [list_op] is a client's call on one list and [call] runs it; [apply] is the
    same call on a mathematical list.  [U] is the set of elements the client owns. *)
Inductive list_op : Type :=
  | PushFront (e : Z)
  | PushBack (e : Z)
  | InsertBefore (i : nat) (e : Z)
  | Remove (i : nat)
  | PopFront
  | PopBack
  | Reverse
  | Size.
Definition call (l : Z) (xs : list Z) (o : list_op) : HM Z :=
  match o with
  | PushFront e => _ ← list_push_front l e; mret 0
  | PushBack e => _ ← list_push_back l e; mret 0
  | InsertBefore i e => _ ← list_insert (hd (l + 8) (drop i xs)) e; mret 0
  | Remove i => list_remove (hd (l + 8) (drop i xs))
  | PopFront => list_pop_front l
  | PopBack => list_pop_back l
  | Reverse => _ ← list_reverse l; mret 0
  | Size => list_size l
  end.
Definition fresh (U : gset Z) (xs : list Z) (e : Z) : bool := bool_decide (e ∈ U /\ e ∉ xs).
Definition apply (U : gset Z) (l : Z) (xs : list Z) (o : list_op) : option (Z * list Z) :=
  match o with
  | PushFront e => if fresh U xs e then Some (0, e :: xs) else None
  | PushBack e => if fresh U xs e then Some (0, xs ++ [e]) else None
  | InsertBefore i e => if fresh U xs e then Some (0, take i xs ++ e :: drop i xs) else None
  | Remove i => if (i <? length xs)%nat then Some (hd (l + 8) (drop (S i) xs), take i xs ++ drop (S i) xs) else None
  | PopFront => match xs with x :: xs' => Some (x, xs') | [] => None end
  | PopBack => match rev xs with x :: xs' => Some (x, rev xs') | [] => None end
  | Reverse => Some (0, rev xs)
  | Size => Some (zlen xs, xs)
  end.
Fixpoint calls (U : gset Z) (l : Z) (xs : list Z) (os : list list_op) : HM (list Z) :=
  match os with
  | [] => mret []
  | o :: os' =>
      r ← call l xs o;
      match apply U l xs o with
      | Some (_, xs') => rs ← calls U l xs' os'; mret (r :: rs)
      | None => mret []
      end
  end.
Fixpoint applies (U : gset Z) (l : Z) (xs : list Z) (os : list list_op) : option (list Z * list Z) :=
  match os with
  | [] => Some ([], xs)
  | o :: os' =>
      match apply U l xs o with
      | Some (r, xs') => match applies U l xs' os' with Some (rs, ys) => Some (r :: rs, ys) | None => None end
      | None => None
      end
  end.
(** The client's elements are memory and are not the list's own two. *)
Definition owned (U : gset Z) (h : heap) (l : Z) : Prop :=
  NULL ∉ U /\ l ∉ U /\ l + 8 ∉ U /\ forall e, e ∈ U -> is_Some (h !! e).

Lemma same_but_mapped h h' l xs ns e : same_but h ns h' -> rep h' l xs -> (forall n, n ∈ ns -> n ∈ nodes l xs) ->
  is_Some (h !! e) -> is_Some (h' !! e).
Proof.
  intros Hs Hr Hns He. destruct (decide (e ∈ ns)) as [Hi|Hi].
  - eapply chain_mapped; [apply (rep_chain _ _ _ Hr)|by apply Hns].
  - by rewrite Hs.
Qed.
Lemma owned_step U h h' l xs ns : owned U h l -> same_but h ns h' -> rep h' l xs ->
  (forall n, n ∈ ns -> n ∈ nodes l xs) -> owned U h' l.
Proof.
  intros (?&?&?&Hm) Hs Hr Hns. split; [done|]. split; [done|]. split; [done|]. intros e He.
  eapply same_but_mapped; [done..|]. by apply Hm.
Qed.
Lemma fresh_sound U h l xs e : owned U h l -> fresh U xs e = true ->
  is_Some (h !! e) /\ e <> NULL /\ e ∉ nodes l xs.
Proof.
  intros (?&?&?&Hm) [He Hx]%bool_decide_eq_true_1. split; [by apply Hm|]. split; [by intros ->|].
  unfold nodes. rewrite elem_of_cons, elem_of_app, list_elem_of_singleton. naive_solver.
Qed.
Lemma in_nodes_insert l xs ys e n : n ∈ e :: nodes l (xs ++ ys) -> n ∈ nodes l (xs ++ e :: ys).
Proof. unfold nodes. rewrite !elem_of_cons, !elem_of_app, !elem_of_cons. tauto. Qed.

Lemma call_apply U h l xs o r xs' : owned U h l -> rep h l xs -> apply U l xs o = Some (r, xs') ->
  mwp (call l xs o) h (fun x h' => x = r /\ rep h' l xs' /\ owned U h' l).
Proof.
  intros HU Hr Ha. destruct o as [e|e|i e|i| | | |]; simpl in Ha |- *.
  - destruct (fresh U xs e) eqn:Ef; simplify_eq. destruct (fresh_sound _ _ _ _ _ HU Ef) as (?&?&?).
    wp_step. apply (list_push_front_spec h l xs); [done..|]. intros h' Hr' Hs. wp_step.
    split; [done|]. split; [done|]. eapply owned_step; [done..|]. intros n. apply (in_nodes_insert l []).
  - destruct (fresh U xs e) eqn:Ef; simplify_eq. destruct (fresh_sound _ _ _ _ _ HU Ef) as (?&?&?).
    wp_step. apply (list_push_back_spec h l xs); [done..|]. intros h' Hr' Hs. wp_step.
    split; [done|]. split; [done|]. eapply owned_step; [done..|]. intros n Hn. apply in_nodes_insert.
    by rewrite app_nil_r.
  - destruct (fresh U xs e) eqn:Ef; simplify_eq. destruct (fresh_sound _ _ _ _ _ HU Ef) as (?&?&?).
    wp_step. apply (list_insert_spec h l (take i xs) (drop i xs)); rewrite ?take_drop; [done..|].
    intros h' Hr' Hs. wp_step. split; [done|]. split; [done|]. eapply owned_step; [done..|].
    intros n Hn. apply in_nodes_insert. by rewrite take_drop.
  - destruct (i <? length xs)%nat eqn:Ei; simplify_eq. apply Nat.ltb_lt in Ei.
    destruct (drop i xs) as [|e ys] eqn:Ed.
    { apply (f_equal length) in Ed. rewrite length_drop in Ed. simpl in Ed. lia. }
    assert (Hys : drop (S i) xs = ys) by (by rewrite <- Nat.add_1_r, <- drop_drop, Ed). rewrite Hys.
    rewrite <- (take_drop i xs), Ed in Hr. cbn [hd]. apply (list_remove_spec h l (take i xs) e ys); [done|].
    intros h' Hr' Hs. split; [done|]. split; [done|]. by eapply owned_step.
  - destruct xs as [|x xs0]; simplify_eq. eapply list_pop_front_spec; [done|]. intros h' Hr' Hs.
    split; [done|]. split; [done|]. by eapply owned_step.
  - destruct (rev xs) as [|x ys] eqn:Er; simplify_eq. apply (f_equal (@rev Z)) in Er.
    rewrite rev_involutive in Er. cbn in Er. subst xs. eapply list_pop_back_spec; [done|]. intros h' Hr' Hs.
    split; [done|]. split; [done|]. by eapply owned_step.
  - simplify_eq. wp_step. apply (list_reverse_spec h l xs); [done|]. intros h' Hr' Hs. wp_step.
    split; [done|]. split; [done|]. eapply owned_step; [done..|]. intros n. unfold nodes.
    rewrite !elem_of_cons, !elem_of_app, rev_reverse, elem_of_reverse. tauto.
  - simplify_eq. by eapply list_size_spec.
Qed.
Lemma calls_applies U l os h xs rs ys : owned U h l -> rep h l xs -> applies U l xs os = Some (rs, ys) ->
  mwp (calls U l xs os) h (fun r h' => r = rs /\ rep h' l ys).
Proof.
  revert h xs rs ys. induction os as [|o os IH]; intros h xs rs ys HU Hr Ha; simpl in Ha |- *.
  { simplify_eq. by wp_step. }
  destruct (apply U l xs o) as [[r xs']|] eqn:Eo; [|done].
  destruct (applies U l xs' os) as [[rs' ys']|] eqn:Es; simplify_eq.
  wp_step. eapply mwp_mono; [by eapply call_apply|]. intros x h' (-> & Hr' & HU').
  wp_step. eapply mwp_mono; [by eapply IH|]. intros rs2 h2 [-> ?]. by wp_step.
Qed.

(** C12. The intrusive doubly linked list implements the mathematical list: from
    [list_init] on, any sequence of insertions at either end or in the middle,
    removals, reversals and size queries that the mathematical list accepts runs
    without a failed assertion or a stray access, returns the same results and
    leaves a heap that represents the resulting list. *)
Theorem list_refines U h l os rs ys : owned U h l -> is_Some (h !! l) -> is_Some (h !! (l + 8)) ->
  l <> NULL -> l + 8 <> NULL -> applies U l [] os = Some (rs, ys) ->
  mwp (list_init l ≫= fun _ => calls U l [] os) h (fun r h' => r = rs /\ rep h' l ys).
Proof.
  intros HU ???? Ha. wp_step. apply list_init_spec; [done..|]. intros h' Hr Hs.
  apply calls_applies; [|done|done]. eapply owned_step; [done..|]. done.
Qed.

(** Inserting into a list that is in order keeps it in order, puts the element
    after every element that does not follow it (so equal elements stay in the
    order they came) and changes nothing else of the list. *)
Theorem list_insert_ordered_in_order (less : Z -> Z -> bool) h l xs e :
  (forall a b c, less a b = false -> less b c = false -> less a c = false) ->
  (forall a b, less a b = true -> less b a = false) ->
  rep h l xs -> in_order less xs -> is_Some (h !! e) -> e <> NULL -> e ∉ nodes l xs ->
  mwp (list_insert_ordered less l e) h (fun _ h' =>
    same_but h (e :: nodes l xs) h' /\
    exists ys zs, xs = ys ++ zs /\ rep h' l (ys ++ e :: zs) /\ in_order less (ys ++ e :: zs) /\
      Forall (fun y => less e y = false) ys /\ Forall (fun z => less e z = true) zs).
Proof.
  intros Htr Has Hr Ho He He0 Hn. apply list_insert_ordered_spec with (xs := xs); [done..|].
  intros h' Hr' Hs. split; [done|]. destruct (ordered_insert_split less e xs) as (ys & zs & -> & E & Hy & Hz).
  rewrite E in Hr'. exists ys, zs. split; [done|]. split; [done|].
  assert (Hzs : Forall (fun z => less e z = true) zs).
  { destruct zs as [|z zs]; [constructor|]. constructor; [done|].
    clear E Hr Hr' Hn Hs Hy. induction ys as [|y ys IH]; simpl in Ho; [|apply IH; by inversion Ho].
    apply StronglySorted_inv in Ho as [_ Hf]. eapply Forall_impl; [|exact Hf]. cbv beta. intros w Hw.
    destruct (less e w) eqn:Ew; [done|]. rewrite (Htr e w z Ew Hw) in Hz. done. }
  split; [|done]. clear E Hr Hr' Hn Hs Hz. unfold in_order in *.
  induction ys as [|y ys IH]; simpl in *.
  - constructor; [done|]. eapply Forall_impl; [|exact Hzs]. cbv beta. intros w. apply Has.
  - apply StronglySorted_inv in Ho as [Ho Hf]. apply Forall_cons_1 in Hy as [Hey Hy].
    constructor; [by apply IH|]. apply Forall_app in Hf as [Hf1 Hf2]. apply Forall_app. split; [done|]. by constructor.
Qed.

(** *** Witnesses *)
(** Memory for a list at 8 and for the elements 100, 110 and 120. *)
Definition ex_heap : heap :=
  list_to_map ((fun e => (e, ListElem 0 0)) <$> [8; 16; 100; 110; 120]).
Definition ex_owned : gset Z := {[100; 110; 120]}.
Lemma ex_owned_ok : owned ex_owned ex_heap 8.
Proof.
  split; [by vm_compute|]. split; [by vm_compute|]. split; [by vm_compute|].
  intros e He. unfold ex_owned in He. rewrite !elem_of_union, !elem_of_singleton in He.
  destruct He as [[->| ->]| ->]; by eexists.
Qed.
Lemma list_refines_witness :
  mwp (list_init 8 ≫= fun _ =>
         calls ex_owned 8 [] [PushBack 100; PushFront 110; InsertBefore 1 120; Reverse; Size; PopBack])
      ex_heap (fun r h' => r = [0; 0; 0; 0; 3; 110] /\ rep h' 8 [100; 120]).
Proof.
  apply (list_refines ex_owned ex_heap 8
           [PushBack 100; PushFront 110; InsertBefore 1 120; Reverse; Size; PopBack]);
    [exact ex_owned_ok|by eexists|by eexists|done|done|vm_compute; reflexivity].
Defined.
(** The list 100, 120 built in that memory, and an order by the last digits. *)
Definition ex_list : heap :=
  list_to_map [(8, ListElem 0 100); (16, ListElem 120 0); (100, ListElem 8 120); (120, ListElem 100 16);
               (110, ListElem 0 0)].
Lemma ex_list_rep : rep ex_list 8 [100; 120].
Proof.
  split.
  - apply (bool_decide_eq_true_1 (NoDup (nodes 8 [100; 120]))). vm_compute. reflexivity.
  - apply (bool_decide_eq_true_1 (NULL ∉ nodes 8 [100; 120])). vm_compute. reflexivity.
  - cbn. repeat split.
Qed.
Lemma list_insert_ordered_in_order_witness :
  mwp (list_insert_ordered Z.ltb 8 110) ex_list (fun _ h' => exists ys zs,
    [100; 120] = ys ++ zs /\ rep h' 8 (ys ++ 110 :: zs)).
Proof.
  eapply mwp_mono.
  - apply (list_insert_ordered_in_order Z.ltb ex_list 8 [100; 120] 110).
    + intros a b c. rewrite !Z.ltb_ge. lia.
    + intros a b. rewrite Z.ltb_lt, Z.ltb_ge. lia.
    + exact ex_list_rep.
    + repeat constructor.
    + by eexists.
    + done.
    + apply (bool_decide_eq_true_1 (110 ∉ nodes 8 [100; 120])). vm_compute. reflexivity.
  - intros x h' (_ & ys & zs & E & Hr & _). exists ys, zs. by split.
Defined.
