(* ===== verification/Vaddr.v ===== *)
(** * Vaddr: threads/vaddr.h and threads/pte.h

    Virtual addresses and page table entries as 32-bit words, with the bit
    operations of the macros.  The lemmas give their arithmetic meaning. *)
From S2P Require Import Prelude.

Definition PGBITS : Z := 12.
Definition BITMASK (shift cnt : Z) : Z := u32 (Z.shiftl (u32 (Z.shiftl 1 cnt) -u 1) shift).
Definition PGSIZE : Z := Z.shiftl 1 PGBITS.
Definition PGMASK : Z := BITMASK 0 PGBITS.
Definition LOADER_PHYS_BASE : Z := 0xc0000000.
Definition PHYS_BASE : Z := LOADER_PHYS_BASE.

Definition pg_ofs (va : Z) : Z := Z.land va PGMASK.
Definition pg_no (va : Z) : Z := Z.shiftr va PGBITS.
Definition pg_round_up (va : Z) : Z := Z.land (va +u PGSIZE -u 1) (u32 (Z.lnot PGMASK)).
Definition pg_round_down (va : Z) : Z := Z.land va (u32 (Z.lnot PGMASK)).
Definition is_user_vaddr (va : Z) : bool := va <? PHYS_BASE.
Definition is_kernel_vaddr (va : Z) : bool := PHYS_BASE <=? va.
Definition ptov (paddr : Z) : res Z := _ ← ASSERT (paddr <? PHYS_BASE); mret (paddr +u PHYS_BASE).
Definition vtop (va : Z) : res Z := _ ← ASSERT (is_kernel_vaddr va); mret (va -u PHYS_BASE).

Definition PTSHIFT : Z := PGBITS.
Definition PTBITS : Z := 10.
Definition PTMASK : Z := BITMASK PTSHIFT PTBITS.
Definition PDSHIFT : Z := PTSHIFT + PTBITS.
Definition pt_no (va : Z) : Z := Z.shiftr (Z.land va PTMASK) PTSHIFT.
Definition pd_no (va : Z) : Z := Z.shiftr va PDSHIFT.

Definition PTE_ADDR : Z := 0xfffff000.
Definition PTE_P : Z := 0x1.
Definition PTE_W : Z := 0x2.
Definition PTE_U : Z := 0x4.
Definition PTE_A : Z := 0x20.
Definition PTE_D : Z := 0x40.
Definition PTE_G : Z := Z.shiftl 1 8.

Definition pde_create_user (pt : Z) : res Z :=
  _ ← ASSERT (pg_ofs pt =? 0);
  p ← vtop pt; mret (Z.lor (Z.lor (Z.lor p PTE_U) PTE_P) PTE_W).
Definition pde_create_kernel (pt : Z) : res Z :=
  _ ← ASSERT (pg_ofs pt =? 0);
  p ← vtop pt; mret (Z.lor (Z.lor (Z.lor p PTE_P) PTE_W) PTE_G).
Definition pde_get_pt (pde : Z) : res Z :=
  _ ← ASSERT (negb (Z.land pde PTE_P =? 0)); ptov (Z.land pde PTE_ADDR).
Definition pte_create_kernel (page : Z) (writable : bool) : res Z :=
  _ ← ASSERT (pg_ofs page =? 0);
  p ← vtop page; mret (Z.lor (Z.lor (Z.lor p PTE_P) (if writable then PTE_W else 0)) PTE_G).
Definition pte_create_user (page : Z) (writable : bool) : res Z :=
  _ ← ASSERT (pg_ofs page =? 0);
  p ← vtop page; mret (Z.lor (Z.lor (Z.lor p PTE_P) (if writable then PTE_W else 0)) PTE_U).
Definition pte_get_page (pte : Z) : res Z := ptov (Z.land pte PTE_ADDR).

(** ** Arithmetic meaning *)
Lemma PGSIZE_eq : PGSIZE = 4096. Proof. reflexivity. Qed.
Lemma pg_ofs_eq va : pg_ofs va = va mod 4096.
Proof. apply (Z.land_ones va 12). lia. Qed.
Lemma pg_no_eq va : pg_no va = va / 4096.
Proof. apply (Z.shiftr_div_pow2 va 12). lia. Qed.
Lemma pd_no_eq va : pd_no va = va / 2 ^ 22.
Proof. apply (Z.shiftr_div_pow2 va 22). lia. Qed.

(** A mask of the bits from [a] up to 32. *)
Lemma testbit_high_mask a k : 0 <= a <= 32 -> 0 <= k ->
  Z.testbit (2 ^ 32 - 2 ^ a) k = (a <=? k) && (k <? 32).
Proof.
  intros Ha Hk. replace (2 ^ 32 - 2 ^ a) with (Z.shiftl (Z.ones (32 - a)) a).
  - rewrite Z.shiftl_spec by done. destruct (Z.leb_spec a k); cbn.
    + rewrite Z.testbit_ones_nonneg by lia. apply eq_true_iff_eq. rewrite !Z.ltb_lt. lia.
    + rewrite Z.testbit_neg_r by lia. done.
  - rewrite Z.shiftl_mul_pow2, Z.ones_equiv by lia. unfold Z.pred. rewrite Z.mul_add_distr_r, <- Z.pow_add_r by lia.
    replace (32 - a + a) with 32 by lia. lia.
Qed.
Lemma testbit_small x a k : 0 <= x < 2 ^ a -> a <= k -> Z.testbit x k = false.
Proof.
  intros Hx Hk. destruct (Z.eq_dec x 0) as [->|Hne]; [apply Z.testbit_0_l|].
  apply Z.bits_above_log2; [lia|]. assert (0 <= a) by (destruct (Z.neg_nonneg_cases a); [rewrite Z.pow_neg_r in Hx; lia|done]).
  apply Z.lt_le_trans with a; [|done]. apply Z.log2_lt_pow2; lia.
Qed.
Lemma land_high_mask x a : is_u32 x -> 0 <= a <= 32 -> Z.land x (2 ^ 32 - 2 ^ a) = 2 ^ a * (x / 2 ^ a).
Proof.
  intros Hx Ha. rewrite Z.mul_comm, <- Z.shiftr_div_pow2, <- Z.shiftl_mul_pow2 by lia.
  apply Z.bits_inj'. intros k Hk. rewrite Z.land_spec, testbit_high_mask, Z.shiftl_spec by lia.
  destruct (Z.leb_spec a k); cbn [andb]; [|by rewrite andb_false_r, Z.testbit_neg_r by lia].
  rewrite Z.shiftr_spec by lia. replace (k - a + a) with k by lia.
  destruct (Z.ltb_spec k 32); cbn [andb]; [apply andb_true_r|].
  rewrite (testbit_small x 32 k) by (unfold is_u32 in *; lia). done.
Qed.
(** Flags or-ed below the address bits. *)
Lemma lor_low x f a : 0 <= a -> x mod 2 ^ a = 0 -> 0 <= f < 2 ^ a -> Z.lor x f = x + f.
Proof.
  intros Ha Hx Hf. symmetry. apply Z.add_nocarry_lor, Z.bits_inj'. intros k Hk.
  rewrite Z.land_spec, Z.bits_0. destruct (Z.lt_ge_cases k a).
  - rewrite <- (Z.mod_pow2_bits_low x a k), Hx, Z.bits_0 by lia. done.
  - rewrite (testbit_small f a k) by lia. apply andb_false_r.
Qed.
Lemma land_lor_low x f g a : 0 <= a -> x mod 2 ^ a = 0 -> 0 <= g < 2 ^ a -> Z.land (Z.lor x f) g = Z.land f g.
Proof.
  intros Ha Hx Hg. rewrite Z.land_lor_distr_l. replace (Z.land x g) with 0; [done|].
  symmetry. apply Z.bits_inj'. intros k Hk. rewrite Z.land_spec, Z.bits_0. destruct (Z.lt_ge_cases k a).
  - rewrite <- (Z.mod_pow2_bits_low x a k), Hx, Z.bits_0 by lia. done.
  - rewrite (testbit_small g a k) by lia. apply andb_false_r.
Qed.

Lemma pg_round_down_eq va : is_u32 va -> pg_round_down va = 4096 * (va / 4096).
Proof. intros. change (u32 (Z.lnot PGMASK)) with (2 ^ 32 - 2 ^ 12). by apply (land_high_mask va 12). Qed.
Lemma pt_no_eq va : is_u32 va -> pt_no va = va / 4096 mod 1024.
Proof.
  intros Hv. unfold pt_no. change PTMASK with (Z.shiftl (Z.ones 10) 12). change PTSHIFT with 12.
  rewrite Z.shiftr_land, Z.shiftr_shiftl_l by lia. change (Z.shiftl (Z.ones 10) (12 - 12)) with (Z.ones 10).
  rewrite Z.land_ones, Z.shiftr_div_pow2 by lia. done.
Qed.
(** An address is its directory index, table index and offset. *)
Lemma vaddr_split va : is_u32 va -> va = pd_no va * 2 ^ 22 + pt_no va * 4096 + pg_ofs va.
Proof. intros Hv. rewrite pd_no_eq, pt_no_eq, pg_ofs_eq by done. dlia. Qed.
Lemma pd_no_range va : is_u32 va -> 0 <= pd_no va < 1024.
Proof. intros Hv. rewrite pd_no_eq. unfold is_u32 in Hv. dlia. Qed.
Lemma pt_no_range va : is_u32 va -> 0 <= pt_no va < 1024.
Proof. intros Hv. rewrite pt_no_eq by done. dlia. Qed.

(** A page of the kernel's mapping of physical memory. *)
Definition kpage (p : Z) : Prop := PHYS_BASE <= p < 2 ^ 32 /\ p mod 4096 = 0.
Lemma kpage_ofs p : kpage p -> pg_ofs p = 0.
Proof. intros [_ ?]. by rewrite pg_ofs_eq. Qed.
Lemma kpage_vtop p : kpage p -> vtop p = Ok (p - PHYS_BASE).
Proof.
  intros [Hp _]. unfold vtop, is_kernel_vaddr. rewrite (proj2 (Z.leb_le _ _)) by lia. cbn.
  rewrite u32_small; [done|]. unfold is_u32, PHYS_BASE, LOADER_PHYS_BASE in *. lia.
Qed.
(** The address bits of an entry that points to a page, whatever its flags. *)
Lemma entry_page p f : kpage p -> 0 <= f < 4096 ->
  ptov (Z.land (Z.lor (p - PHYS_BASE) f) PTE_ADDR) = Ok p.
Proof.
  intros [Hp Hm] Hf. unfold PHYS_BASE, LOADER_PHYS_BASE in *.
  rewrite (lor_low _ f 12); [|lia| |lia]; [|change (2 ^ 12) with 4096; dlia].
  change PTE_ADDR with (2 ^ 32 - 2 ^ 12).
  rewrite land_high_mask; [|unfold is_u32; lia|lia].
  change (2 ^ 12) with 4096.
  replace (4096 * ((p - 0xc0000000 + f) / 4096)) with (p - 0xc0000000) by dlia.
  unfold ptov. rewrite (proj2 (Z.ltb_lt _ _)) by (unfold PHYS_BASE, LOADER_PHYS_BASE; lia). cbn.
  f_equal. rewrite u32_small; unfold is_u32, PHYS_BASE, LOADER_PHYS_BASE; lia.
Qed.
Definition user_flags (writable : bool) : Z := if writable then 7 else 5.
Lemma pte_create_user_eq p w : kpage p ->
  pte_create_user p w = Ok (Z.lor (p - PHYS_BASE) (user_flags w)).
Proof.
  intros Hp. unfold pte_create_user. rewrite kpage_ofs by done. cbn. rewrite kpage_vtop by done. cbn.
  f_equal. rewrite <- !Z.lor_assoc. by destruct w.
Qed.
Lemma pde_create_user_eq p : kpage p -> pde_create_user p = Ok (Z.lor (p - PHYS_BASE) 7).
Proof.
  intros Hp. unfold pde_create_user. rewrite kpage_ofs by done. cbn. rewrite kpage_vtop by done. cbn.
  f_equal. by rewrite <- !Z.lor_assoc.
Qed.
Lemma entry_flag p f g : kpage p -> 0 <= g < 4096 -> Z.land (Z.lor (p - PHYS_BASE) f) g = Z.land f g.
Proof.
  intros [Hp Hm] Hg. apply (land_lor_low _ _ _ 12); [lia| |done].
  unfold PHYS_BASE, LOADER_PHYS_BASE in *. change (2 ^ 12) with 4096. dlia.
Qed.
Lemma entry_u32 p f : kpage p -> 0 <= f < 4096 -> is_u32 (Z.lor (p - PHYS_BASE) f).
Proof.
  intros [Hp Hm] Hf. unfold PHYS_BASE, LOADER_PHYS_BASE in *.
  rewrite (lor_low _ f 12); [unfold is_u32; lia|lia| |lia]. change (2 ^ 12) with 4096. dlia.
Qed.
Lemma entry_nonzero p f : kpage p -> 0 < f < 4096 -> Z.lor (p - PHYS_BASE) f <> 0.
Proof.
  intros [Hp Hm] Hf. unfold PHYS_BASE, LOADER_PHYS_BASE in *.
  rewrite (lor_low _ f 12); [lia|lia| |lia]. change (2 ^ 12) with 4096. dlia.
Qed.

(** A page table entry made for a page leads back to that page, is present and
    accessible to user code, is writable exactly when asked, and starts neither
    accessed nor dirty. *)
Theorem pte_roundtrip p w : kpage p ->
  exists pte, pte_create_user p w = Ok pte /\ is_u32 pte /\ pte <> 0 /\ pte_get_page pte = Ok p /\
    Z.land pte PTE_P <> 0 /\ Z.land pte PTE_U <> 0 /\ (Z.land pte PTE_W <> 0 <-> w = true) /\
    Z.land pte PTE_A = 0 /\ Z.land pte PTE_D = 0 /\ Z.land pte PTE_G = 0.
Proof.
  intros Hp. assert (Hf : 0 < user_flags w < 4096) by (by destruct w).
  exists (Z.lor (p - PHYS_BASE) (user_flags w)). split; [by apply pte_create_user_eq|].
  split; [apply entry_u32; [done|lia]|]. split; [by apply entry_nonzero|]. split; [apply entry_page; [done|lia]|].
  rewrite !entry_flag by done. by destruct w.
Qed.
Lemma pte_roundtrip_witness : exists pte, pte_create_user 0xc0101000 false = Ok pte /\
  pte_get_page pte = Ok 0xc0101000 /\ Z.land pte PTE_W = 0.
Proof.
  destruct (pte_roundtrip 0xc0101000 false) as (pte & E & _ & _ & Hg & _ & _ & Hw & _).
  - split; [done|reflexivity].
  - exists pte. split; [exact E|]. split; [exact Hg|].
    destruct (Z.eq_dec (Z.land pte PTE_W) 0) as [H|H]; [exact H|]. by apply Hw in H.
Defined.
