(* ===== verification/Palloc.v ===== *)
(** * Palloc: threads/palloc.c

    The kernel's memory is two pools of pages and the contents of the pages,
    1024 words each, by kernel virtual address.  A null pointer is 0.  The
    locks are used by one thread at a time here (see Lock.v); [me] is that
    thread. *)
From S2P Require Import Prelude.
From S2P Require Import Bitmap.
From S2P Require Import Lock.
From S2P Require Import Vaddr.

Record pool := Pool { pool_lock : lock; used_map : bitmap; base : Z }.
Abbreviation frame := (list Z).
(** [cr3] is the processor's page directory register. *)
Record kmem := Kmem { kernel_pool : pool; user_pool : pool; frames : gmap Z frame; cr3 : Z }.
Definition set_kernel_pool (p : pool) (k : kmem) : kmem := Kmem p (user_pool k) (frames k) (cr3 k).
Definition set_user_pool (p : pool) (k : kmem) : kmem := Kmem (kernel_pool k) p (frames k) (cr3 k).
Definition set_frames (f : gmap Z frame) (k : kmem) : kmem := Kmem (kernel_pool k) (user_pool k) f (cr3 k).
Definition set_cr3 (z : Z) (k : kmem) : kmem := Kmem (kernel_pool k) (user_pool k) (frames k) z.
(** [&user_pool] or [&kernel_pool] *)
Definition pool_of (user : bool) (k : kmem) : pool := if user then user_pool k else kernel_pool k.
Definition set_pool (user : bool) (p : pool) (k : kmem) : kmem :=
  if user then set_user_pool p k else set_kernel_pool p k.
Abbreviation KM := (M kmem).
Definition NULL : Z := 0.

Definition PAL_ASSERT : Z := 0x1.
Definition PAL_ZERO : Z := 0x2.
Definition PAL_USER : Z := 0x4.
Definition flag (flags f : Z) : bool := negb (Z.land flags f =? 0).

(** [memset (pages, byte, PGSIZE * n)], [w] being four times the byte. *)
Fixpoint fill_pages (n : nat) (page w : Z) (fs : gmap Z frame) : res (gmap Z frame) :=
  match n with
  | O => mret fs
  | S n' => _ ← deref (fs !! page); fill_pages n' (page + PGSIZE) w (<[page := replicate 1024 w]> fs)
  end.

Definition init_pool (start page_cnt : Z) (words : list Z) : res pool :=
  let bm_pages := DIV_ROUND_UP (bitmap_buf_size page_cnt) PGSIZE in
  if page_cnt <? bm_pages then Panic
  else
    let page_cnt := page_cnt -u bm_pages in
    m ← bitmap_create_in_buf page_cnt words (bm_pages *u PGSIZE);
    mret (Pool None m (start +u bm_pages *u PGSIZE)).
(** [kwords] and [uwords] are what the memory of the two bitmaps holds at boot. *)
Definition palloc_init (init_ram_pages user_page_limit : Z) (kwords uwords : list Z) : res (pool * pool) :=
  free_start ← ptov (1024 * 1024);
  free_end ← ptov (init_ram_pages *u PGSIZE);
  let free_pages := (free_end -u free_start) / PGSIZE in
  let user_pages := free_pages / 2 in
  let user_pages := if user_page_limit <? user_pages then user_page_limit else user_pages in
  let kernel_pages := free_pages -u user_pages in
  k ← init_pool free_start kernel_pages kwords;
  u ← init_pool (free_start +u kernel_pages *u PGSIZE) user_pages uwords;
  mret (k, u).

Definition page_from_pool (p : pool) (page : Z) : bool :=
  let page_no := pg_no page in
  let start_page := pg_no (base p) in
  let end_page := start_page +u bitmap_size (used_map p) in
  (start_page <=? page_no) && (page_no <? end_page).

Section Palloc.
Context (me : Z).

Definition palloc_get_multiple (flags page_cnt : Z) : KM Z :=
  if page_cnt =? 0 then mret NULL
  else
    k ← get;
    let user := flag flags PAL_USER in
    let p := pool_of user k in
    l ← lift (lock_acquire me (pool_lock p));
    '(page_idx, m) ← lift (bitmap_scan_and_flip (used_map p) 0 page_cnt false);
    l ← lift (lock_release me l);
    _ ← modify (set_pool user (Pool l m (base p)));
    let pages := if negb (page_idx =? BITMAP_ERROR) then base p +u PGSIZE *u page_idx else NULL in
    if negb (pages =? NULL) then
      if flag flags PAL_ZERO then
        k ← get; fs ← lift (fill_pages (Z.to_nat page_cnt) pages 0 (frames k));
        _ ← modify (set_frames fs); mret pages
      else mret pages
    else if flag flags PAL_ASSERT then panic else mret pages.
Definition palloc_get_page (flags : Z) : KM Z := palloc_get_multiple flags 1.

Definition palloc_free_multiple (pages page_cnt : Z) : KM unit :=
  _ ← assert (pg_ofs pages =? 0);
  if (pages =? NULL) || (page_cnt =? 0) then mret tt
  else
    k ← get;
    user ← (if page_from_pool (kernel_pool k) pages then mret false
            else if page_from_pool (user_pool k) pages then mret true
            else panic);
    let p := pool_of user k in
    let page_idx := pg_no pages -u pg_no (base p) in
    fs ← lift (fill_pages (Z.to_nat page_cnt) pages 0xcccccccc (frames k));
    _ ← modify (set_frames fs);
    all ← lift (bitmap_all (used_map p) page_idx page_cnt); _ ← assert all;
    m ← lift (bitmap_set_multiple (used_map p) page_idx page_cnt false);
    modify (set_pool user (Pool (pool_lock p) m (base p))).
Definition palloc_free_page (page : Z) : KM unit := palloc_free_multiple page 1.
End Palloc.

(** ** Specification *)
Definition in_pool (p : pool) (a : Z) : Prop :=
  base p <= a < base p + 4096 * bit_cnt (used_map p) /\ a mod 4096 = 0.
Definition page_bit (p : pool) (a : Z) : bool := bit (used_map p) ((a - base p) / 4096).
(** The page at [a] is allocated. *)
Definition taken (k : kmem) (a : Z) : Prop :=
  exists user, in_pool (pool_of user k) a /\ page_bit (pool_of user k) a = true.
Definition a_frame (ws : frame) : Prop := length ws = 1024%nat /\ Forall is_u32 ws.

Record pool_wf (p : pool) : Prop := PoolWf {
  pw_map : bitmap_wf (used_map p);
  pw_lock : pool_lock p = None;
  pw_base : kpage (base p);
  pw_top : base p + 4096 * bit_cnt (used_map p) <= 2 ^ 32;
}.
Record kmem_wf (k : kmem) : Prop := KmemWf {
  kw_pool : forall user, pool_wf (pool_of user k);
  kw_apart : base (kernel_pool k) + 4096 * bit_cnt (used_map (kernel_pool k)) <= base (user_pool k);
  kw_frames : forall user a, in_pool (pool_of user k) a -> exists ws, frames k !! a = Some ws /\ a_frame ws;
}.
(** The block of [n] pages at [a]. *)
Definition in_block (a n q : Z) : Prop := a <= q < a + 4096 * n /\ q mod 4096 = 0.
(** Same pools up to what is allocated in them. *)
Definition same_pools (k k' : kmem) : Prop :=
  cr3 k' = cr3 k /\ forall user, base (pool_of user k') = base (pool_of user k) /\
    bit_cnt (used_map (pool_of user k')) = bit_cnt (used_map (pool_of user k)).

Lemma in_block_dec a n q : Decision (in_block a n q).
Proof. unfold in_block. apply _. Qed.
#[export] Existing Instance in_block_dec.
Lemma pool_of_set u u' p k : pool_of u' (set_pool u p k) = if eqb u u' then p else pool_of u' k.
Proof. by destruct u, u'. Qed.
Lemma frames_set_pool u p k : frames (set_pool u p k) = frames k.
Proof. by destruct u. Qed.
Lemma cr3_set_pool u p k : cr3 (set_pool u p k) = cr3 k.
Proof. by destruct u. Qed.
Lemma pool_of_frames u f k : pool_of u (set_frames f k) = pool_of u k.
Proof. by destruct u. Qed.
Lemma in_pool_kpage p a : pool_wf p -> in_pool p a -> kpage a.
Proof. intros [? ? [Hb Hm] Ht] [Ha Hz]. split; [|done]. lia. Qed.
Lemma in_pool_disjoint k a : kmem_wf k -> in_pool (kernel_pool k) a -> ~ in_pool (user_pool k) a.
Proof. intros [_ Hd _] [? _] [? _]. lia. Qed.
Lemma page_index p a : pool_wf p -> in_pool p a ->
  0 <= (a - base p) / 4096 < bit_cnt (used_map p) /\ a = base p + 4096 * ((a - base p) / 4096).
Proof.
  intros [? ? [Hb Hm] Ht] [Ha Hz]. assert (bit_cnt (used_map p) <= 2 ^ 20) by (unfold PHYS_BASE, LOADER_PHYS_BASE in *; lia).
  clear Ht. dlia.
Qed.

Lemma in_block_pages p a n q : pool_wf p -> in_block a n q -> a mod 4096 = 0 ->
  base p <= a -> a + 4096 * n <= base p + 4096 * bit_cnt (used_map p) ->
  in_pool p q /\ (a - base p) / 4096 <= (q - base p) / 4096 < (a - base p) / 4096 + n.
Proof.
  intros [? ? [Hb Hm] Ht] [Hq Hqm] Ha ??. split; [split; [lia|done]|]. clear Ht Hb. dlia.
Qed.
Lemma fill_pages_spec n a w fs : a mod 4096 = 0 ->
  (forall q, in_block a (Z.of_nat n) q -> is_Some (fs !! q)) ->
  wp (fill_pages n a w fs) (fun fs' => forall q,
    fs' !! q = if decide (in_block a (Z.of_nat n) q) then Some (replicate 1024 w) else fs !! q).
Proof.
  revert a fs. induction n as [|n IH]; intros a fs Ha Hm; cbn [fill_pages].
  - wp_step. intros q. rewrite decide_False; [done|]. intros [? _]. lia.
  - destruct (Hm a) as [ws Hws]; [split; [lia|done]|]. rewrite Hws. wp_step. cbn [deref]. wp_step.
    change PGSIZE with 4096. eapply wp_mono; [apply IH; [dlia|]|].
    + intros q [Hq Hqm]. rewrite lookup_insert_ne by lia. apply Hm. split; [lia|done].
    + intros fs' Hfs q. rewrite Hfs. unfold in_block. destruct (decide (q = a)) as [->|Hne].
      * rewrite decide_False by lia. rewrite lookup_insert_eq, decide_True; [done|lia].
      * rewrite lookup_insert_ne by done. apply decide_ext.
        split; intros [? ?]; (split; [|done]); [lia|]. dlia.
Qed.

(** What an allocation of [n] pages at [a] does to the memory. *)
Record got (k : kmem) (user zero : bool) (n a : Z) (k' : kmem) : Prop := Got {
  got_wf : kmem_wf k';
  got_pools : same_pools k k';
  got_page : kpage a;
  got_free : forall q, in_block a n q -> in_pool (pool_of user k) q /\ ~ taken k q;
  got_taken : forall q, taken k' q <-> taken k q \/ in_block a n q;
  got_frames : forall q, frames k' !! q =
    if decide (zero = true /\ in_block a n q) then Some (replicate 1024 0) else frames k !! q;
}.
(** [n] free pages in a row. *)
Definition free_run (p : pool) (n a : Z) : Prop :=
  a mod 4096 = 0 /\ base p <= a /\ a + 4096 * n <= base p + 4096 * bit_cnt (used_map p) /\
  forall q, in_block a n q -> page_bit p q = false.

Lemma zero_frame : a_frame (replicate 1024 0).
Proof. split; [done|]. apply Forall_replicate. done. Qed.
Lemma taken_pool k user a : kmem_wf k -> in_pool (pool_of user k) a -> (taken k a <-> page_bit (pool_of user k) a = true).
Proof.
  intros Hk Ha. split; [|by exists user]. intros (u & Hu & Hb).
  destruct user, u; try done; exfalso; cbn in *; by eapply in_pool_disjoint.
Qed.

(** Marking the pages of a run in the map of a pool. *)
Section Mark.
Context (k : kmem) (user : bool) (n a : Z) (v : bool) (m : bitmap).
Let p := pool_of user k.
Let r := (a - base p) / 4096.
Context (Hk : kmem_wf k) (Ham : a mod 4096 = 0) (Hlo : base p <= a)
  (Hhi : a + 4096 * n <= base p + 4096 * bit_cnt (used_map p)).
Context (Hm : bitmap_wf m) (Hc : bit_cnt m = bit_cnt (used_map p))
  (Hb : forall j, 0 <= j -> bit m j = if decide (r <= j < r + n) then v else bit (used_map p) j).
Definition marked : kmem := set_pool user (Pool None m (base p)) k.

Lemma in_pool_marked u q : in_pool (pool_of u marked) q <-> in_pool (pool_of u k) q.
Proof.
  unfold marked, in_pool. rewrite pool_of_set. destruct (eqb user u) eqn:E; [|done].
  apply eqb_prop in E as ->. cbn. by rewrite Hc.
Qed.
Lemma page_bit_marked u q : in_pool (pool_of u k) q -> page_bit (pool_of u marked) q =
  if decide (u = user /\ in_block a n q) then v else page_bit (pool_of u k) q.
Proof.
  intros Hq. unfold marked, page_bit. rewrite pool_of_set. destruct (eqb user u) eqn:E.
  - apply eqb_prop in E as <-. cbn. fold p in Hq |- *.
    destruct (page_index p q (kw_pool _ Hk user) Hq) as [Hi Hqe]. rewrite Hb by lia.
    apply decide_ext. split.
    + intros Hr. split; [done|]. split; [|apply Hq]. subst r. destruct Hq as [Hq _].
      pose proof (pw_base _ (kw_pool _ Hk user)) as [_ Hbm]. fold p in Hbm.
      assert (4096 * ((a - base p) / 4096) = a - base p) by dlia. lia.
    + intros [_ Hbl]. by apply (in_block_pages p a n q (kw_pool _ Hk user)).
  - apply eqb_false_iff in E. rewrite decide_False; [done|]. intros [-> _]. done.
Qed.
Lemma marked_wf : kmem_wf marked.
Proof.
  split.
  - intros u. unfold marked. rewrite pool_of_set. destruct (eqb user u); [|by apply Hk].
    destruct (kw_pool _ Hk user) as [? ? ? Ht]. by split; cbn; rewrite ?Hc.
  - destruct Hk as [_ Ha _]. unfold marked, p in *. by destruct user; cbn in *; rewrite ?Hc.
  - intros u q Hq%in_pool_marked. unfold marked. rewrite frames_set_pool. by eapply kw_frames.
Qed.
Lemma marked_pools : same_pools k marked.
Proof.
  split; [apply cr3_set_pool|]. intros u. unfold marked. rewrite pool_of_set.
  destruct (eqb user u) eqn:E; [|done]. by apply eqb_prop in E as <-.
Qed.
Lemma taken_marked q : taken marked q <->
  (in_block a n q /\ v = true) \/ (taken k q /\ ~ in_block a n q).
Proof.
  split.
  - intros (u & Hq%in_pool_marked & Ht). rewrite page_bit_marked in Ht by done.
    destruct (decide (u = user /\ in_block a n q)) as [[-> ?]|Hn]; [by left|].
    right. split; [by exists u|]. intros Hbl. apply Hn. split; [|done].
    pose proof (in_block_pages p a n q (kw_pool _ Hk user) Hbl Ham Hlo Hhi) as [Hq' _].
    destruct u, user; try done; exfalso; cbn in *; by eapply in_pool_disjoint.
  - intros [[Hbl Hv]|[(u & Hq & Ht) Hn]].
    + pose proof (in_block_pages p a n q (kw_pool _ Hk user) Hbl Ham Hlo Hhi) as [Hq' _].
      exists user. split; [by apply in_pool_marked|]. rewrite page_bit_marked by done. by rewrite decide_True.
    + exists u. split; [by apply in_pool_marked|]. rewrite page_bit_marked by done.
      rewrite decide_False; [done|tauto].
Qed.
End Mark.

Lemma set_pool_same u k : set_pool u (pool_of u k) k = k.
Proof. by destruct u, k. Qed.
Lemma kmem_wf_frames k fs : kmem_wf k ->
  (forall u q, in_pool (pool_of u k) q -> exists ws, fs !! q = Some ws /\ a_frame ws) -> kmem_wf (set_frames fs k).
Proof.
  intros [Hp Ha _] Hf. split.
  - intros u. rewrite pool_of_frames. apply Hp.
  - exact Ha.
  - intros u q. rewrite pool_of_frames. apply Hf.
Qed.
Lemma taken_frames fs k q : taken (set_frames fs k) q <-> taken k q.
Proof. unfold taken. split; intros (u & H); exists u; by rewrite pool_of_frames in *. Qed.
Lemma same_pools_frames k k' fs : same_pools k k' -> same_pools k (set_frames fs k').
Proof. intros [? H]. split; [done|]. intros u. rewrite pool_of_frames. apply H. Qed.

Lemma palloc_get_multiple_spec me flags n k (Q : Z -> kmem -> Prop) : kmem_wf k -> 0 < n ->
  let user := flag flags PAL_USER in
  ((forall a, ~ free_run (pool_of user k) n a) -> flag flags PAL_ASSERT = false /\ Q NULL k) ->
  (forall a k', got k user (flag flags PAL_ZERO) n a k' -> Q a k') ->
  mwp (palloc_get_multiple me flags n) k Q.
Proof.
  intros Hk Hn user HN HQ. unfold palloc_get_multiple. rewrite (proj2 (Z.eqb_neq n 0)) by lia.
  pose proof (kw_pool _ Hk user) as Hp. pose proof Hp as [Hm Hl Hb Ht]. fold user. set (p := pool_of user k) in *.
  wp_step. wp_step. cbv zeta. fold user. fold p. wp_step. wp_step. apply wp_lock_acquire; [done|].
  wp_step. wp_step. pose proof (wf_cnt _ Hm) as Hcnt.
  eapply wp_mono; [apply bitmap_scan_and_flip_spec; [done|lia|lia]|].
  intros [r m] (Hwm & Hcm & Hcase). wp_step. wp_step. apply wp_lock_release; [done|]. wp_step. wp_step.
  destruct Hcase as [(-> & -> & Hno)|(Hr & [Hrn Hfree] & _ & Hbits)].
  - rewrite Z.eqb_refl. cbn [negb]. cbv zeta.
    destruct HN as [-> HNQ].
    + intros a (Ham & Hlo & Hhi & Hq). apply (Hno ((a - base p) / 4096)); [apply Z.div_pos; lia|].
      pose proof Hb as [_ Hbm]. assert (4096 * ((a - base p) / 4096) = a - base p) as He by dlia.
      split; [lia|]. intros j Hj. specialize (Hq (base p + 4096 * j)). unfold page_bit in Hq.
      replace ((base p + 4096 * j - base p) / 4096) with j in Hq by dlia. apply Hq. split; [lia|dlia].
    + wp_step. rewrite Z.eqb_refl. cbn [negb]. replace (Pool None (used_map p) (base p)) with p; [by unfold p; rewrite set_pool_same|].
      rewrite <- Hl. clearbody p. by destruct p.
  - rewrite (proj2 (Z.eqb_neq r BITMAP_ERROR)) by lia. cbn [negb]. cbv zeta.
    assert (Hrb : base p +u PGSIZE *u r = base p + 4096 * r).
    { change PGSIZE with 4096. pose proof Hb as [? _]. unfold PHYS_BASE, LOADER_PHYS_BASE in *.
      rewrite (u32_small (4096 * r)), u32_small; unfold is_u32; lia. }
    rewrite Hrb. set (a := base p + 4096 * r). pose proof Hb as [Hb1 Hbm].
    assert (Ham : a mod 4096 = 0) by (unfold a; dlia).
    assert (Hri : (a - base p) / 4096 = r) by (unfold a; dlia).
    assert (Hkp : kpage a) by (split; [unfold a; lia|done]).
    rewrite (proj2 (Z.eqb_neq a NULL)) by (unfold a, NULL, PHYS_BASE, LOADER_PHYS_BASE in *; lia). cbn [negb].
    assert (Hbits' : forall j, 0 <= j -> bit m j =
      if decide ((a - base p) / 4096 <= j < (a - base p) / 4096 + n) then true else bit (used_map p) j).
    { intros j Hj. rewrite Hri. by rewrite Hbits. }
    set (k1 := set_pool user (Pool None m (base p)) k).
    assert (Hlo : base p <= a) by (unfold a; lia).
    assert (Hhi : a + 4096 * n <= base p + 4096 * bit_cnt (used_map p)) by (unfold a; lia).
    pose proof (marked_wf k user n a true m Hk Hlo Hhi Hwm Hcm Hbits') as Hw1.
    pose proof (marked_pools k user m Hcm) as Hs1.
    pose proof (fun q => taken_marked k user n a true m Hk Ham Hlo Hhi Hcm Hbits' q) as Ht1.
    change (marked k user m) with k1 in *.
    assert (Hfr : forall q, in_block a n q -> in_pool p q /\ ~ taken k q).
    { intros q Hq. destruct (in_block_pages p a n q Hp Hq Ham Hlo Hhi) as [Hq' Hi]. split; [done|].
      rewrite (taken_pool k user) by done. unfold page_bit. fold p. rewrite Hfree by lia. done. }
    assert (Htk : forall q, taken k1 q <-> taken k q \/ in_block a n q).
    { intros q. rewrite Ht1. destruct (decide (in_block a n q)); tauto. }
    destruct (flag flags PAL_ZERO) eqn:Ez.
    + wp_step. wp_step. wp_step. wp_step. unfold k1 at 1. rewrite frames_set_pool. fold k1.
      rewrite <- (Z2Nat.id n) in HQ, Hfr, Htk by lia.
      eapply wp_mono; [apply fill_pages_spec; [done|]|].
      { intros q Hq. destruct (kw_frames _ Hk user q) as (ws & ? & _); [by apply Hfr|by eexists]. }
      intros fs Hfs. wp_step. wp_step. wp_step. apply HQ. split; [|by apply same_pools_frames|done|done| |].
      * apply kmem_wf_frames; [done|]. intros u q Hq. rewrite Hfs. case_decide.
        { exists (replicate 1024 0). split; [done|]. apply zero_frame. }
        apply (kw_frames _ Hk u). exact (proj1 (in_pool_marked k user n a true m Hlo Hhi Hcm Hbits' u q) Hq).
      * intros q. by rewrite taken_frames.
      * intros q. cbn. rewrite Hfs. apply decide_ext. tauto.
    + wp_step. apply HQ. split; [done|done|done|done|done|]. intros q. rewrite decide_False by (intros [? _]; done).
      unfold k1. by rewrite frames_set_pool.
Qed.

(** Freeing a block of taken pages of one pool. *)
Record freed (k : kmem) (n a : Z) (k' : kmem) : Prop := Freed {
  freed_wf : kmem_wf k';
  freed_pools : same_pools k k';
  freed_taken : forall q, taken k' q <-> taken k q /\ ~ in_block a n q;
  freed_frames : forall q, frames k' !! q =
    if decide (in_block a n q) then Some (replicate 1024 0xcccccccc) else frames k !! q;
}.
Lemma page_from_pool_eq p a : pool_wf p -> 0 <= a -> a mod 4096 = 0 ->
  page_from_pool p a = bool_decide (in_pool p a).
Proof.
  intros [Hm ? [Hb Hbm] Ht] Ha Ham. pose proof (wf_cnt _ Hm). unfold page_from_pool, bitmap_size.
  rewrite !pg_no_eq, u32_small by (unfold is_u32, PHYS_BASE, LOADER_PHYS_BASE in *; clear Ham; dlia).
  apply eq_true_iff_eq. rewrite andb_true_iff, bool_decide_eq_true, Z.leb_le, Z.ltb_lt. unfold in_pool.
  clear Ht Hb. split; [intros [??]; split; [|done]; dlia|intros [? _]; dlia].
Qed.
Lemma palloc_free_multiple_spec user n a k (Q : unit -> kmem -> Prop) : kmem_wf k -> 0 < n ->
  (forall q, in_block a n q -> in_pool (pool_of user k) q /\ taken k q) -> a mod 4096 = 0 ->
  (forall k', freed k n a k' -> Q tt k') -> mwp (palloc_free_multiple a n) k Q.
Proof.
  intros Hk Hn Hin Ham HQ. unfold palloc_free_multiple.
  pose proof (kw_pool _ Hk user) as Hp. pose proof Hp as [Hm Hl Hb Ht]. set (p := pool_of user k) in *.
  assert (Ha : in_pool p a) by (apply Hin; split; [lia|done]). pose proof (in_pool_kpage _ _ Hp Ha) as Hka.
  pose proof Hb as [Hb1 Hbm]. pose proof (wf_cnt _ Hm) as Hcnt.
  wp_step. wp_step; [rewrite kpage_ofs by done; reflexivity|].
  rewrite (proj2 (Z.eqb_neq a NULL)) by (destruct Hka as [? _]; unfold NULL, PHYS_BASE, LOADER_PHYS_BASE in *; lia).
  rewrite (proj2 (Z.eqb_neq n 0)) by lia. cbn [orb]. wp_step. wp_step. wp_step.
  assert (Hhi : a + 4096 * n <= base p + 4096 * bit_cnt (used_map p)).
  { destruct (Hin (a + 4096 * (n - 1))) as [[? _] _]; [split; [lia|dlia]|]. fold p in H. destruct Ha as [_ _]. dlia. }
  assert (Hlo : base p <= a) by apply Ha.
  apply (mwp_mono _ _ (fun u k' => u = user /\ k' = k)).
  { assert (0 <= a) by (destruct Hka; unfold PHYS_BASE, LOADER_PHYS_BASE in *; lia).
    pose proof (page_from_pool_eq _ a (kw_pool _ Hk false) H Ham) as E1.
    pose proof (page_from_pool_eq _ a (kw_pool _ Hk true) H Ham) as E2. cbn in E1, E2. rewrite E1, E2.
    destruct user; cbn in p; subst p.
    - rewrite bool_decide_eq_false_2 by (intros Hi; by eapply in_pool_disjoint). by rewrite bool_decide_eq_true_2.
    - by rewrite bool_decide_eq_true_2. }
  intros u k' [-> ->]. cbv zeta. fold p. rewrite <- (Z2Nat.id n) in HQ, Hin by lia.
  wp_step. wp_step. eapply wp_mono; [apply fill_pages_spec; [done|]|].
  { intros q Hq. destruct (kw_frames _ Hk user q) as (ws & ? & _); [by apply Hin|by eexists]. }
  intros fs Hfs. wp_step. wp_step.
  set (r := (a - base p) / 4096) in *.
  assert (Hra : pg_no a -u pg_no (base p) = r).
  { rewrite !pg_no_eq. replace (a / 4096 - base p / 4096) with r by (unfold r; clear Hhi Hb1; dlia).
    apply u32_small. unfold is_u32, r. destruct Ha as [? _]. clear Hb1. dlia. }
  assert (Hrn : 0 <= r /\ r + n <= bit_cnt (used_map p)) by (unfold r; clear Hb1; dlia).
  rewrite Hra. rewrite Z2Nat.id in * by lia.
  wp_step. wp_step. unfold bitmap_all. apply wp_bind.
  eapply wp_mono; [apply contains_loop_spec; [done|lia..]|]. intros c Hc. wp_step.
  assert (c = false) as ->.
  { apply not_true_is_false. intros (j & Hj & Hbj)%Hc. assert (Hq : in_block a n (base p + 4096 * j)).
    { split; [|dlia]. assert (4096 * r = a - base p) by (unfold r; dlia). lia. }
    apply Hin in Hq as [Hq Hq2]. apply (taken_pool k user) in Hq2; [|done..]. unfold page_bit in Hq2. fold p in Hq2.
    replace ((base p + 4096 * j - base p) / 4096) with j in Hq2 by dlia. congruence. }
  wp_step. wp_step; [done|]. wp_step. wp_step.
  eapply wp_mono; [apply bitmap_set_multiple_spec; [done|lia..]|]. intros m (Hwm & Hcm & Hbits). wp_step.
  rewrite Hl. set (k1 := set_frames fs k).
  assert (Hk1 : kmem_wf k1).
  { apply kmem_wf_frames; [done|]. intros u q Hq. rewrite Hfs. case_decide.
    - eexists. split; [reflexivity|]. split; [done|]. apply Forall_replicate. done.
    - by apply (kw_frames _ Hk u). }
  change (set_pool user (Pool None m (base p)) k1) with (marked k1 user m).
  apply HQ. split.
  - exact (marked_wf k1 user n a false m Hk1 Hlo Hhi Hwm Hcm Hbits).
  - destruct (marked_pools k1 user m Hcm) as [? Hs]. split; [done|]. intros u. apply (Hs u).
  - intros q. rewrite (taken_marked k1 user n a false m Hk1 Ham Hlo Hhi Hcm Hbits q).
    unfold k1. rewrite taken_frames. split; [intros [[_ ?]|?]; done|by right].
  - intros q. unfold marked. rewrite frames_set_pool. cbn. apply Hfs.
Qed.

Lemma in_block_1 a q : a mod 4096 = 0 -> in_block a 1 q <-> q = a.
Proof. intros Ha. split; [intros [??]; dlia|]. intros ->. split; [lia|done]. Qed.
(** A free page is a run of one. *)
Lemma one_free_page p a : a mod 4096 = 0 -> base p <= a -> a + 4096 <= base p + 4096 * bit_cnt (used_map p) ->
  page_bit p a = false -> free_run p 1 a.
Proof. intros Ha H1 H2 Hb. split; [done|]. split; [done|]. split; [lia|]. intros q ->%in_block_1; done. Qed.

(** C8. [palloc_get_multiple] returns a null pointer, and changes nothing, only when
    the pool it is told to use has no run of that many free pages; otherwise the
    block it returns is page aligned, lies in that pool, was entirely free and is
    now taken, is zeroed when [PAL_ZERO] is given, and no other page's status or
    contents changed.  Giving the block back then makes exactly its pages free again. *)
Theorem palloc_get_free me flags n k : kmem_wf k -> 0 < n -> flag flags PAL_ASSERT = false ->
  mwp (palloc_get_multiple me flags n) k (fun a k' =>
    (a = NULL /\ k' = k /\ forall b, ~ free_run (pool_of (flag flags PAL_USER) k) n b) \/
    (got k (flag flags PAL_USER) (flag flags PAL_ZERO) n a k' /\
     mwp (palloc_free_multiple a n) k' (fun _ k2 =>
       freed k' n a k2 /\ forall q, taken k2 q <-> taken k q))).
Proof.
  intros Hk Hn Hf.
  assert (Hgot : forall a k', got k (flag flags PAL_USER) (flag flags PAL_ZERO) n a k' ->
    mwp (palloc_free_multiple a n) k' (fun _ k2 => freed k' n a k2 /\ forall q, taken k2 q <-> taken k q)).
  { intros a k' [Hw [Hs1 Hs] Hka Hfree Htk Hfr].
    eapply (palloc_free_multiple_spec (flag flags PAL_USER)); [done|done| |apply Hka|].
    - intros q Hq. split; [|apply Htk; by right]. destruct (Hfree q Hq) as [Hp _].
      destruct (Hs (flag flags PAL_USER)) as [Hb Hc]. unfold in_pool in *. by rewrite Hb, Hc.
    - intros k2 Hk2. split; [done|]. intros q. rewrite (freed_taken _ _ _ _ Hk2), Htk.
      split; [tauto|]. intros Hq. split; [by left|]. intros Hb. by apply (Hfree q). }
  apply palloc_get_multiple_spec; [done|done| |].
  - intros Hno. split; [done|]. by left.
  - intros a k' Hg. right. split; [exact Hg|]. by apply Hgot.
Qed.

(** *** Witness *)
(** Two pools of [n] pages each. *)
Definition ex_pool (start : Z) : pool := Pool None (Bitmap 4 [0]) start.
Definition ex_kmem : kmem :=
  Kmem (ex_pool 0xc0100000) (ex_pool 0xc0104000)
    (list_to_map ((fun i => (0xc0100000 + 4096 * i, replicate 1024 7)) <$> seqZ 0 8)) 0.
Definition frames_ok (k : kmem) (p : pool) : bool :=
  forallb (fun i => match frames k !! (base p + 4096 * i) with
    | Some ws => (length ws =? 1024)%nat && forallb (fun w => (0 <=? w) && (w <? 2 ^ 32)) ws
    | None => false end) (seqZ 0 (bit_cnt (used_map p))).
Lemma frames_ok_sound k user : pool_wf (pool_of user k) -> frames_ok k (pool_of user k) = true ->
  forall a, in_pool (pool_of user k) a -> exists ws, frames k !! a = Some ws /\ a_frame ws.
Proof.
  intros Hp Hf a Ha. destruct (page_index _ _ Hp Ha) as [Hi He]. unfold frames_ok in Hf.
  rewrite forallb_forall in Hf. specialize (Hf ((a - base (pool_of user k)) / 4096)).
  rewrite <- He in Hf. destruct (frames k !! a) as [ws|].
  - exists ws. split; [done|]. apply andb_true_iff in Hf.
    + destruct Hf as [Hl Hw]. split; [by apply Nat.eqb_eq in Hl|]. apply Forall_forall. intros w Hw'.
      rewrite forallb_forall in Hw. apply Hw, andb_true_iff in Hw'.
      rewrite Z.leb_le, Z.ltb_lt in Hw'. unfold is_u32. lia.
    + apply list_elem_of_In, elem_of_seqZ. lia.
  - discriminate Hf. apply list_elem_of_In, elem_of_seqZ. lia.
Qed.
Lemma ex_pool_wf start : kpage start -> start + 16384 <= 2 ^ 32 -> pool_wf (ex_pool start).
Proof.
  intros Hs Ht. split; [|done|done|cbn; lia]. split; cbn; [lia|done|by repeat constructor].
Qed.
Lemma ex_kmem_wf : kmem_wf ex_kmem.
Proof.
  assert (Hp : forall user, pool_wf (pool_of user ex_kmem)).
  { intros [|]; apply ex_pool_wf; try lia; (split; [done|reflexivity]). }
  split; [exact Hp|cbn; lia|]. intros user. apply frames_ok_sound; [apply Hp|].
  destruct user; vm_compute; reflexivity.
Qed.
Lemma palloc_get_free_witness :
  mwp (palloc_get_multiple 1 (Z.lor PAL_USER PAL_ZERO) 3) ex_kmem (fun a k' =>
    (a = NULL /\ k' = ex_kmem /\ forall b, ~ free_run (user_pool ex_kmem) 3 b) \/
    (got ex_kmem true true 3 a k' /\
     mwp (palloc_free_multiple a 3) k' (fun _ k2 =>
       freed k' 3 a k2 /\ forall q, taken k2 q <-> taken ex_kmem q))).
Proof. apply (palloc_get_free 1 (Z.lor PAL_USER PAL_ZERO) 3 ex_kmem); [exact ex_kmem_wf|lia|reflexivity]. Defined.
Example palloc_example : exists k', palloc_get_multiple 1 (Z.lor PAL_USER PAL_ZERO) 3 ex_kmem = Ok (0xc0104000, k').
Proof. eexists. vm_compute. reflexivity. Qed.
