(* ===== verification/Pagedir.v ===== *)
(** * Pagedir: userprog/pagedir.c

    Page directories and page tables are pages of the kernel's memory (see
    Palloc.v), read and written a word at a time; pointers into them are
    addresses.  [base_page_dir] and [init_ram_pages] are the globals of
    threads/init.c.  The processor's register that holds the active directory
    is [cr3]. *)
From S2P Require Import Prelude.
From S2P Require Import Bitmap.
From S2P Require Import Vaddr.
From S2P Require Import Palloc.

(** The word at an address. *)
Definition word (k : kmem) (a : Z) : option Z :=
  ws ← frames k !! (4096 * (a / 4096)); znth ws (a mod 4096 / 4).
Definition load_word (a : Z) : KM Z := k ← get; lift (deref (word k a)).
Definition store_word (a v : Z) : KM unit :=
  k ← get;
  ws ← lift (deref (frames k !! (4096 * (a / 4096))));
  ws' ← lift (deref (zset ws (a mod 4096 / 4) v));
  modify (set_frames (<[4096 * (a / 4096) := ws']> (frames k))).

Section Pagedir.
Context (me base_page_dir init_ram_pages : Z).

Definition pagedir_create : KM Z :=
  pd ← palloc_get_page me 0;
  if negb (pd =? NULL) then
    k ← get;
    ws ← lift (deref (frames k !! base_page_dir));
    _ ← modify (set_frames (<[pd := ws]> (frames k)));
    mret pd
  else mret pd.

(** [for (i = 0; i < n; i++) body (p + i)] over an array of words. *)
Fixpoint for_words (n : nat) (p : Z) (body : Z -> KM unit) : KM unit :=
  match n with O => mret tt | S n' => _ ← body p; for_words n' (p + 4) body end.
Definition destroy_pte (pte : Z) : KM unit :=
  e ← load_word pte;
  if flag e PTE_P then p ← lift (pte_get_page e); palloc_free_page p else mret tt.
Definition destroy_pde (pde : Z) : KM unit :=
  e ← load_word pde;
  if flag e PTE_P then
    pt ← lift (pde_get_pt e);
    _ ← for_words (Z.to_nat (PGSIZE / 4)) pt destroy_pte;
    palloc_free_page pt
  else mret tt.
Definition pagedir_destroy (pd : Z) : KM unit :=
  if pd =? NULL then mret tt
  else
    _ ← assert (negb (pd =? base_page_dir));
    _ ← for_words (Z.to_nat (pd_no PHYS_BASE)) pd destroy_pde;
    palloc_free_page pd.

Definition lookup_page (pd vaddr : Z) (create : bool) : KM Z :=
  _ ← assert (negb (pd =? NULL));
  _ ← assert (negb create || is_user_vaddr vaddr);
  let pde := pd + 4 * pd_no vaddr in
  e ← load_word pde;
  let found := (e ← load_word pde; pt ← lift (pde_get_pt e); mret (pt + 4 * pt_no vaddr)) in
  if e =? 0 then
    if create then
      pt ← palloc_get_page me PAL_ZERO;
      if pt =? NULL then mret NULL
      else v ← lift (pde_create_user pt); _ ← store_word pde v; found
    else mret NULL
  else found.

Definition pagedir_set_page (pd upage kpage : Z) (writable : bool) : KM bool :=
  _ ← assert (pg_ofs upage =? 0);
  _ ← assert (pg_ofs kpage =? 0);
  _ ← assert (is_user_vaddr upage);
  p ← lift (vtop kpage); _ ← assert (Z.shiftr p PTSHIFT <? init_ram_pages);
  _ ← assert (negb (pd =? base_page_dir));
  pte ← lookup_page pd upage true;
  if negb (pte =? NULL) then
    e ← load_word pte; _ ← assert (Z.land e PTE_P =? 0);
    v ← lift (pte_create_user kpage writable); _ ← store_word pte v;
    mret true
  else mret false.

Definition pagedir_get_page (pd uaddr : Z) : KM Z :=
  _ ← assert (is_user_vaddr uaddr);
  pte ← lookup_page pd uaddr false;
  if negb (pte =? NULL) then
    e ← load_word pte;
    if flag e PTE_P then p ← lift (pte_get_page e); mret (p + pg_ofs uaddr) else mret NULL
  else mret NULL.

Definition pagedir_activate (pd : Z) : KM unit :=
  let pd := if pd =? NULL then base_page_dir else pd in
  p ← lift (vtop pd); modify (set_cr3 p).
Definition active_pd : KM Z := p ← gets cr3; lift (ptov p).
Definition invalidate_pagedir (pd : Z) : KM unit :=
  a ← active_pd; if a =? pd then pagedir_activate pd else mret tt.

Definition pagedir_clear_page (pd upage : Z) : KM unit :=
  _ ← assert (pg_ofs upage =? 0);
  _ ← assert (is_user_vaddr upage);
  pte ← lookup_page pd upage false;
  if negb (pte =? NULL) then
    e ← load_word pte;
    if flag e PTE_P then
      _ ← store_word pte (Z.land e (u32 (Z.lnot PTE_P)));
      invalidate_pagedir pd
    else mret tt
  else mret tt.

(** The four accessors of the dirty and accessed bits, [f] being the bit. *)
Definition pte_flag (f pd vpage : Z) : KM bool :=
  pte ← lookup_page pd vpage false;
  if negb (pte =? NULL) then e ← load_word pte; mret (flag e f) else mret false.
Definition pte_set_flag (f pd vpage : Z) (v : bool) : KM unit :=
  pte ← lookup_page pd vpage false;
  if negb (pte =? NULL) then
    e ← load_word pte;
    if v then store_word pte (Z.lor e f)
    else _ ← store_word pte (Z.land e (u32 (Z.lnot f))); invalidate_pagedir pd
  else mret tt.
Definition pagedir_is_dirty (pd vpage : Z) : KM bool := pte_flag PTE_D pd vpage.
Definition pagedir_set_dirty (pd vpage : Z) (dirty : bool) : KM unit := pte_set_flag PTE_D pd vpage dirty.
Definition pagedir_is_accessed (pd vpage : Z) : KM bool := pte_flag PTE_A pd vpage.
Definition pagedir_set_accessed (pd vpage : Z) (accessed : bool) : KM unit :=
  pte_set_flag PTE_A pd vpage accessed.
End Pagedir.

(** ** Specification *)
(** The page table entry of an address: none when its page table is missing. *)
Definition pte_of (k : kmem) (pd va : Z) : option Z :=
  match word k (pd + 4 * pd_no va) with
  | Some pde =>
      if pde =? 0 then None
      else match pde_get_pt pde with Ok pt => word k (pt + 4 * pt_no va) | _ => None end
  | None => None
  end.
(** What the processor translates [va] with. *)
Definition mapped (k : kmem) (pd va : Z) : option Z :=
  match pte_of k pd va with Some e => if flag e PTE_P then Some e else None | None => None end.
(** A kernel page in use. *)
Definition own_page (k : kmem) (p : Z) : Prop := in_pool (kernel_pool k) p /\ taken k p.
(** A directory entry that points to the table [pt]. *)
Definition points (e pt : Z) : Prop :=
  exists f, e = Z.lor (pt - PHYS_BASE) f /\ 0 <= f < 4096 /\ Z.land f PTE_P <> 0.

Record pd_wf (k : kmem) (pd : Z) : Prop := PdWf {
  pd_own : own_page k pd;
  pd_entry : forall i, 0 <= i < 768 ->
    word k (pd + 4 * i) = Some 0 \/
    exists e pt, word k (pd + 4 * i) = Some e /\ points e pt /\ own_page k pt /\ pt <> pd;
  pd_inj : forall i j e e' pt, 0 <= i < 768 -> 0 <= j < 768 ->
    word k (pd + 4 * i) = Some e -> word k (pd + 4 * j) = Some e' ->
    own_page k pt -> points e pt -> points e' pt -> i = j;
  pd_pte : forall va e, 0 <= va < PHYS_BASE -> mapped k pd va = Some e -> exists p, kpage p /\ points e p;
}.

Lemma word_at k p i : p mod 4096 = 0 -> 0 <= i < 1024 ->
  word k (p + 4 * i) = frames k !! p ≫= fun ws => znth ws i.
Proof.
  intros Hp Hi. unfold word. replace (4096 * ((p + 4 * i) / 4096)) with p by dlia.
  by replace ((p + 4 * i) mod 4096 / 4) with i by dlia.
Qed.
Lemma own_kpage k p : kmem_wf k -> own_page k p -> kpage p.
Proof. intros Hk [Hp _]. by apply (in_pool_kpage _ _ (kw_pool _ Hk false)). Qed.
Lemma own_word k p i : kmem_wf k -> own_page k p -> 0 <= i < 1024 ->
  exists v, word k (p + 4 * i) = Some v /\ is_u32 v.
Proof.
  intros Hk Hp Hi. rewrite word_at; [|by apply (own_kpage k)|done].
  destruct (kw_frames _ Hk false p (proj1 Hp)) as (ws & -> & Hl & Hw). cbn.
  destruct (znth_is_Some ws i) as [v Hv]; [unfold zlen; lia|]. exists v. split; [done|].
  rewrite znth_lookup in Hv by lia. eapply Forall_lookup_1 in Hv; done.
Qed.
Lemma load_word_spec k a v (Q : Z -> kmem -> Prop) : word k a = Some v -> Q v k -> mwp (load_word a) k Q.
Proof. intros E H. unfold load_word. wp_step. wp_step. wp_step. by rewrite E. Qed.

(** One word changed. *)
Record stored (k : kmem) (p i v : Z) (k' : kmem) : Prop := Stored {
  st_wf : kmem_wf k';
  st_pools : same_pools k k';
  st_taken : forall q, taken k' q <-> taken k q;
  st_word : forall q j, q mod 4096 = 0 -> 0 <= j < 1024 ->
    word k' (q + 4 * j) = if decide (q = p /\ j = i) then Some v else word k (q + 4 * j);
  st_frames : forall q, q <> p -> frames k' !! q = frames k !! q;
}.
Lemma store_word_spec k p i v (Q : unit -> kmem -> Prop) : kmem_wf k -> own_page k p -> 0 <= i < 1024 -> is_u32 v ->
  (forall k', stored k p i v k' -> Q tt k') -> mwp (store_word (p + 4 * i) v) k Q.
Proof.
  intros Hk Hp Hi Hv HQ. pose proof (own_kpage k p Hk Hp) as [_ Hpm].
  destruct (kw_frames _ Hk false p (proj1 Hp)) as (ws & Hws & Hl & Hw). unfold store_word.
  replace (4096 * ((p + 4 * i) / 4096)) with p by dlia.
  replace ((p + 4 * i) mod 4096 / 4) with i by dlia.
  wp_step. wp_step. wp_step. wp_step. rewrite Hws. cbn [deref]. wp_step. wp_step. wp_step.
  assert (Hz : 0 <= i < zlen ws) by (unfold zlen; lia).
  rewrite zset_Some by done. cbn [deref]. wp_step. wp_step. apply HQ. split.
  - apply kmem_wf_frames; [done|]. intros u q Hq. destruct (decide (q = p)) as [->|].
    + rewrite lookup_insert_eq. eexists. split; [done|]. split; [by rewrite length_insert|].
      apply Forall_insert; done.
    + rewrite lookup_insert_ne by done. by eapply kw_frames.
  - by apply same_pools_frames.
  - intros q. apply taken_frames.
  - intros q j Hq Hj. rewrite !word_at by done. cbn [frames set_frames]. destruct (decide (q = p)) as [->|Hne].
    + rewrite lookup_insert_eq, Hws. cbn. rewrite znth_insert by done.
      apply decide_ext. intuition congruence.
    + rewrite lookup_insert_ne by done. rewrite decide_False; [done|tauto].
  - intros q Hq. cbn. by rewrite lookup_insert_ne.
Qed.

Lemma points_get e pt : kpage pt -> points e pt -> pde_get_pt e = Ok pt /\ pte_get_page e = Ok pt /\
  flag e PTE_P = true /\ e <> 0 /\ is_u32 e.
Proof.
  intros Hp (f & -> & Hf & HP). assert (Hl : Z.land (Z.lor (pt - PHYS_BASE) f) PTE_P <> 0) by by rewrite entry_flag.
  unfold pde_get_pt, pte_get_page, flag. rewrite (proj2 (Z.eqb_neq _ _)) by done. cbn.
  rewrite entry_page by done. split; [done|]. split; [done|]. split; [done|]. split; [|by apply entry_u32].
  intros E. rewrite E in Hl. done.
Qed.
Lemma points_inj e p q : kpage p -> kpage q -> points e p -> points e q -> p = q.
Proof.
  intros Hp Hq H1%points_get H2%points_get; [|done..]. destruct H1 as [E1 _], H2 as [E2 _]. congruence.
Qed.
Lemma user_split va : 0 <= va < PHYS_BASE -> 0 <= pd_no va < 768 /\ 0 <= pt_no va < 1024 /\
  va / 4096 = pd_no va * 1024 + pt_no va.
Proof.
  intros Hv. unfold PHYS_BASE, LOADER_PHYS_BASE in Hv. rewrite pd_no_eq, pt_no_eq by (unfold is_u32; lia). dlia.
Qed.

(** The table of an address. *)
Definition table_of (k : kmem) (pd va pt : Z) : Prop :=
  own_page k pt /\ pt <> pd /\ exists e, word k (pd + 4 * pd_no va) = Some e /\ points e pt.
Lemma pte_of_table k pd va pt : kmem_wf k -> table_of k pd va pt -> pte_of k pd va = word k (pt + 4 * pt_no va).
Proof.
  intros Hk (Ho & _ & e & He & Hp). unfold pte_of. rewrite He.
  destruct (points_get e pt) as (-> & _ & _ & Hne & _); [by apply (own_kpage k)|done|].
  by rewrite (proj2 (Z.eqb_neq e 0)).
Qed.
Lemma pte_of_cases k pd va : kmem_wf k -> pd_wf k pd -> 0 <= va < PHYS_BASE ->
  (word k (pd + 4 * pd_no va) = Some 0 /\ pte_of k pd va = None) \/ (exists pt, table_of k pd va pt).
Proof.
  intros Hk Hpd Hv. destruct (user_split va Hv) as (Hi & _).
  destruct (pd_entry _ _ Hpd (pd_no va) Hi) as [H0|(e & pt & He & Hp & Ho & Hne)].
  - left. split; [done|]. unfold pte_of. by rewrite H0.
  - right. exists pt. split; [done|]. split; [done|]. by exists e.
Qed.
Lemma table_unique k pd va va' pt : kmem_wf k -> pd_wf k pd -> 0 <= va < PHYS_BASE -> 0 <= va' < PHYS_BASE ->
  table_of k pd va pt -> table_of k pd va' pt -> pd_no va = pd_no va'.
Proof.
  intros Hk Hpd Hv Hv' (Ho & _ & e & He & Hp) (_ & _ & e' & He' & Hp').
  exact (pd_inj _ _ Hpd (pd_no va) (pd_no va') e e' pt (proj1 (user_split va Hv)) (proj1 (user_split va' Hv')) He He' Ho Hp Hp').
Qed.
Lemma table_same k pd va va' pt : pd_no va = pd_no va' -> table_of k pd va pt -> table_of k pd va' pt.
Proof. unfold table_of. by intros ->. Qed.

(** A new page table entry at the address of one. *)
Lemma store_pte k pd va pt v (Q : unit -> kmem -> Prop) : kmem_wf k -> pd_wf k pd -> 0 <= va < PHYS_BASE ->
  table_of k pd va pt -> is_u32 v -> (flag v PTE_P = true -> exists p, kpage p /\ points v p) ->
  (forall k', kmem_wf k' -> pd_wf k' pd -> same_pools k k' -> (forall q, taken k' q <-> taken k q) ->
     (forall va', 0 <= va' < PHYS_BASE ->
        pte_of k' pd va' = if decide (va' / 4096 = va / 4096) then Some v else pte_of k pd va') ->
     (forall q, q <> pt -> frames k' !! q = frames k !! q) -> Q tt k') ->
  mwp (store_word (pt + 4 * pt_no va) v) k Q.
Proof.
  intros Hk Hpd Hv Ht Hu Hvp HQ. destruct (user_split va Hv) as (Hi & Hj & Hsp).
  destruct Ht as (Ho & Hne & Hte). assert (Ht : table_of k pd va pt) by done.
  pose proof (own_kpage _ _ Hk Ho) as [_ Hptm]. pose proof (own_kpage _ _ Hk (pd_own _ _ Hpd)) as [_ Hpdm].
  apply store_word_spec; [done..|]. intros k' [Hw' Hs Htk Hwd Hfr].
  assert (Hown : forall q, own_page k q <-> own_page k' q).
  { intros q. unfold own_page, in_pool. destruct (proj2 Hs false) as [Hb Hc]. cbn in Hb, Hc. by rewrite Hb, Hc, Htk. }
  assert (Hpde : forall j, 0 <= j < 1024 -> word k' (pd + 4 * j) = word k (pd + 4 * j)).
  { intros j Hj'. rewrite Hwd by done. rewrite decide_False; [done|]. intros [? _]. congruence. }
  assert (Htab : forall va' q, 0 <= va' < PHYS_BASE -> table_of k pd va' q <-> table_of k' pd va' q).
  { intros va' q Hv'. unfold table_of. rewrite Hpde, Hown; [done|]. destruct (user_split va' Hv'). lia. }
  assert (Hpte : forall va', 0 <= va' < PHYS_BASE ->
    pte_of k' pd va' = if decide (va' / 4096 = va / 4096) then Some v else pte_of k pd va').
  { intros va' Hv'. destruct (user_split va' Hv') as (Hi' & Hj' & Hsp').
    destruct (pte_of_cases k pd va' Hk Hpd Hv') as [[H0 Hn]|[q Hq]].
    - rewrite decide_False.
      + rewrite Hn. unfold pte_of. by rewrite Hpde, H0 by lia.
      + intros E. assert (pd_no va' = pd_no va) as Ei by lia. destruct Hte as (e & He & Hp).
        rewrite Ei, He in H0. injection H0 as ->.
        destruct (points_get 0 pt) as (_ & _ & _ & Hn0 & _); [by apply (own_kpage k)|done|done].
    - rewrite (pte_of_table k' pd va' q) by (done || by apply Htab). rewrite (pte_of_table k pd va' q) by done.
      pose proof (own_kpage _ _ Hk (proj1 Hq)) as [_ Hqm].
      rewrite Hwd by done. apply decide_ext. split.
      + intros [-> Ej]. assert (pd_no va = pd_no va') by by eapply (table_unique k pd). lia.
      + intros E. assert (pd_no va = pd_no va' /\ pt_no va' = pt_no va) as [Ei ->] by lia. split; [|done].
        destruct Hte as (e & He & Hp). destruct Hq as (Hqo & _ & e' & He' & Hp'). rewrite <- Ei, He in He'.
        injection He' as <-. symmetry. apply (points_inj e); [by apply (own_kpage k)..|done|done]. }
  apply HQ; [done| |done|done|done|done]. split.
  - apply Hown, Hpd.
  - intros i Hi'. rewrite Hpde by lia. destruct (pd_entry _ _ Hpd i Hi') as [?|(e & q & ? & ? & ? & ?)]; [by left|].
    right. exists e, q. split; [done|]. split; [done|]. split; [by apply Hown|done].
  - intros i j e e' q Hi' Hj'. rewrite !Hpde by lia. rewrite <- Hown. by apply (pd_inj _ _ Hpd).
  - intros va' e Hv'. unfold mapped. rewrite Hpte by done. case_decide.
    + destruct (flag v PTE_P) eqn:Ef; [|done]. intros [= <-]. by apply Hvp.
    + by apply (pd_pte _ _ Hpd).
Qed.

(** [lookup_page] when it does not have to allocate. *)
Lemma pd_nonnull k pd : kmem_wf k -> own_page k pd -> (pd =? NULL) = false.
Proof. intros Hk Ho. destruct (own_kpage _ _ Hk Ho). apply Z.eqb_neq. unfold NULL, PHYS_BASE, LOADER_PHYS_BASE in *. lia. Qed.
Lemma found_spec k pd va pt (Q : Z -> kmem -> Prop) : kmem_wf k -> table_of k pd va pt ->
  Q (pt + 4 * pt_no va) k ->
  mwp (e ← load_word (pd + 4 * pd_no va); pt ← lift (pde_get_pt e); mret (pt + 4 * pt_no va)) k Q.
Proof.
  intros Hk (Ho & _ & e & He & Hp) HQ. wp_step. eapply load_word_spec; [exact He|]. wp_step. wp_step.
  destruct (points_get e pt) as (-> & _); [by apply (own_kpage k)|done|]. wp_step. by wp_step.
Qed.
Lemma lookup_found me k pd va pt create (Q : Z -> kmem -> Prop) : kmem_wf k -> pd_wf k pd -> 0 <= va < PHYS_BASE ->
  table_of k pd va pt -> Q (pt + 4 * pt_no va) k -> mwp (lookup_page me pd va create) k Q.
Proof.
  intros Hk Hpd Hv Ht HQ. unfold lookup_page. cbv zeta. wp_step. wp_step; [by rewrite (pd_nonnull k pd Hk (pd_own _ _ Hpd))|].
  wp_step. wp_step.
  { apply orb_true_iff. right. apply Z.ltb_lt. lia. }
  destruct Ht as (Ho & Hne & e & He & Hp). wp_step. eapply load_word_spec; [exact He|].
  destruct (points_get e pt) as (_ & _ & _ & H0 & _); [by apply (own_kpage k)|done|].
  rewrite (proj2 (Z.eqb_neq e 0)) by done. eapply found_spec; [done| |done]. split; [done|]. split; [done|]. by exists e.
Qed.
Lemma lookup_missing me k pd va (Q : Z -> kmem -> Prop) : kmem_wf k -> pd_wf k pd -> 0 <= va < PHYS_BASE ->
  word k (pd + 4 * pd_no va) = Some 0 -> Q NULL k -> mwp (lookup_page me pd va false) k Q.
Proof.
  intros Hk Hpd Hv H0 HQ. unfold lookup_page. cbv zeta. wp_step. wp_step; [by rewrite (pd_nonnull k pd Hk (pd_own _ _ Hpd))|].
  wp_step. wp_step; [reflexivity|]. wp_step. eapply load_word_spec; [exact H0|]. rewrite Z.eqb_refl. by wp_step.
Qed.

(** [lookup_page] that makes the missing table. *)
Record prepared (k : kmem) (pd va pt : Z) (k' : kmem) : Prop := Prepared {
  pr_wf : kmem_wf k';
  pr_pd : pd_wf k' pd;
  pr_table : table_of k' pd va pt;
  pr_pools : same_pools k k';
  pr_mapped : forall va', 0 <= va' < PHYS_BASE -> mapped k' pd va' = mapped k pd va';
  pr_taken : forall q, taken k' q -> taken k q \/ q = pt;
  pr_keep : forall q, taken k q -> taken k' q;
  pr_frames : forall q, taken k q -> q <> pd -> frames k' !! q = frames k !! q;
}.
Lemma znth_replicate_in {A} n (x : A) i : 0 <= i < Z.of_nat n -> znth (replicate n x) i = Some x.
Proof. intros. rewrite znth_lookup by lia. apply lookup_replicate. split; [done|lia]. Qed.

Lemma lookup_create me k pd va (Q : Z -> kmem -> Prop) : kmem_wf k -> pd_wf k pd -> 0 <= va < PHYS_BASE ->
  word k (pd + 4 * pd_no va) = Some 0 -> ((forall a, ~ free_run (kernel_pool k) 1 a) -> Q NULL k) ->
  (forall k' pt, prepared k pd va pt k' -> Q (pt + 4 * pt_no va) k') ->
  mwp (lookup_page me pd va true) k Q.
Proof.
  intros Hk Hpd Hv H0 HN HQ. destruct (user_split va Hv) as (Hi & Hj & Hsp).
  pose proof (pd_own _ _ Hpd) as Hpo. pose proof (own_kpage _ _ Hk Hpo) as [_ Hpm].
  unfold lookup_page. cbv zeta. wp_step. wp_step; [by rewrite (pd_nonnull k pd Hk (pd_own _ _ Hpd))|].
  wp_step. wp_step; [apply Z.ltb_lt; lia|]. wp_step. eapply load_word_spec; [exact H0|]. rewrite Z.eqb_refl.
  wp_step. apply palloc_get_multiple_spec; [exact Hk|lia| |].
  { intros Hno. split; [reflexivity|]. rewrite Z.eqb_refl. wp_step. by apply HN. }
  change (flag PAL_ZERO PAL_USER) with false. change (flag PAL_ZERO PAL_ZERO) with true.
  intros pt k1 [Hw1 Hs1 Hkp Hfree Htk Hfr]. pose proof Hkp as [Hpt1 Hptm].
  setoid_rewrite (in_block_1 pt _ Hptm) in Htk. setoid_rewrite (in_block_1 pt _ Hptm) in Hfree.
  destruct (Hfree pt eq_refl) as [Hpin Hpnt].
  assert (Hfr1 : forall q, q <> pt -> frames k1 !! q = frames k !! q).
  { intros q Hq. rewrite Hfr, decide_False; [done|]. intros [_ ?%in_block_1]; done. }
  assert (Hfrp : frames k1 !! pt = Some (replicate 1024 0)).
  { rewrite Hfr, decide_True; [done|]. split; [done|]. by apply in_block_1. }
  assert (Hpool : forall q, in_pool (kernel_pool k1) q <-> in_pool (kernel_pool k) q).
  { intros q. unfold in_pool. destruct (proj2 Hs1 false) as [Hb Hc]. cbn in Hb, Hc. by rewrite Hb, Hc. }
  assert (Hown1 : forall q, own_page k q -> own_page k1 q).
  { intros q [Hq Hqt]. split; [by apply Hpool|]. apply Htk. by left. }
  assert (Hptpd : pt <> pd) by (intros ->; by apply Hpnt, Hpo).
  assert (Hpto : own_page k1 pt) by (split; [by apply Hpool|apply Htk; by right]).
  rewrite (pd_nonnull k1 pt Hw1 Hpto).
  wp_step. wp_step. rewrite pde_create_user_eq by done. wp_step.
  set (e := Z.lor (pt - PHYS_BASE) 7).
  assert (Hpe : points e pt) by (exists 7; split; [done|]; split; [lia|done]).
  destruct (points_get e pt Hkp Hpe) as (_ & _ & _ & He0 & Heu).
  wp_step. apply store_word_spec; [exact Hw1|by apply Hown1|lia|exact Heu|].
  intros k2 [Hw2 Hs2 Htk2 Hwd2 Hfr2].
  assert (Hown2 : forall q, own_page k1 q -> own_page k2 q).
  { intros q [Hq Hqt]. split; [|by apply Htk2]. unfold in_pool in *.
    destruct (proj2 Hs2 false) as [Hb Hc]. cbn in Hb, Hc. by rewrite Hb, Hc. }
  assert (Hpde : forall j, 0 <= j < 1024 -> word k2 (pd + 4 * j) =
    if decide (j = pd_no va) then Some e else word k (pd + 4 * j)).
  { intros j Hj'. rewrite Hwd2 by done. rewrite (word_at k1) by done. rewrite Hfr1 by done.
    rewrite <- word_at by done. apply decide_ext. intuition. }
  assert (Hold : forall q j, own_page k q -> q <> pd -> 0 <= j < 1024 -> word k2 (q + 4 * j) = word k (q + 4 * j)).
  { intros q j Hq Hqp Hj'. pose proof (own_kpage _ _ Hk Hq) as [_ Hqm]. rewrite Hwd2 by done.
    rewrite decide_False by tauto. rewrite !word_at by done. rewrite Hfr1; [done|]. intros ->. by apply Hpnt, Hq. }
  assert (Hte : table_of k2 pd va pt).
  { split; [by apply Hown2|]. split; [done|]. exists e. split; [|done]. by rewrite Hpde, decide_True by lia. }
  assert (Hmap : forall va', 0 <= va' < PHYS_BASE -> mapped k2 pd va' = mapped k pd va').
  { intros va' Hv'. destruct (user_split va' Hv') as (Hi' & Hj' & Hsp'). unfold mapped.
    destruct (decide (pd_no va' = pd_no va)) as [Ei|Ei].
    - rewrite (pte_of_table k2 pd va' pt) by (done || by apply (table_same _ _ va)).
      assert (Hz : word k2 (pt + 4 * pt_no va') = Some 0).
      { rewrite Hwd2 by done. rewrite decide_False by tauto. rewrite word_at by done. rewrite Hfrp. cbn [mbind option_bind].
        by apply znth_replicate_in. }
      rewrite Hz. unfold pte_of. rewrite Ei, H0. done.
    - destruct (pte_of_cases k pd va' Hk Hpd Hv') as [[Hz Hn]|[q Hq]].
      + rewrite Hn. unfold pte_of. by rewrite Hpde, decide_False, Hz by lia.
      + rewrite (pte_of_table k pd va' q) by done. rewrite (pte_of_table k2 pd va' q); [|done|].
        * destruct Hq as (Hqo & Hqn & _). by rewrite Hold.
        * destruct Hq as (Hqo & Hqn & e' & He' & Hp'). split; [by apply Hown2, Hown1|]. split; [done|].
          exists e'. split; [|done]. by rewrite Hpde, decide_False by lia. }
  eapply found_spec; [exact Hw2|exact Hte|]. apply HQ. split; [exact Hw2| |exact Hte| |exact Hmap| | |].
  - split.
    + by apply Hown2, Hown1.
    + intros i Hi'. pose proof (Hpde i ltac:(lia)) as Hwi. rewrite Hwi.
      destruct (decide (i = pd_no va)) as [Ei|Ei].
      * right. exists e, pt. split; [reflexivity|]. split; [exact Hpe|]. split; [by apply Hown2|exact Hptpd].
      * destruct (pd_entry _ _ Hpd i Hi') as [?|(e' & q & ? & ? & ? & ?)]; [by left|].
        right. exists e', q. split; [done|]. split; [done|]. split; [by apply Hown2, Hown1|done].
    + intros i j ei ej q Hi' Hj'. rewrite !Hpde by lia.
      assert (Hnew : forall i' e', 0 <= i' < 768 -> word k (pd + 4 * i') = Some e' -> points e' pt -> False).
      { intros i' e' Hi2 He' Hp'. destruct (points_get e' pt Hkp Hp') as (_ & _ & _ & Hn0 & _).
        destruct (pd_entry _ _ Hpd i' Hi2) as [Hz|(e2 & p2 & E2 & P2 & O2 & _)]; [congruence|].
        rewrite He' in E2. injection E2 as <-. apply Hpnt.
        rewrite (points_inj e' pt p2); [apply O2|done|by apply (own_kpage k)|done|done]. }
      intros Hei Hej Hqo Hqi Hqj. pose proof (own_kpage _ _ Hw2 Hqo) as Hqk.
      destruct (decide (i = pd_no va)) as [->|Hin], (decide (j = pd_no va)) as [->|Hjn].
      * done.
      * assert (ei = e) as -> by congruence.
        assert (q = pt) as -> by by apply (points_inj e). exfalso. by eapply (Hnew j).
      * assert (ej = e) as -> by congruence.
        assert (q = pt) as -> by by apply (points_inj e). exfalso. by eapply (Hnew i).
      * destruct (pd_entry _ _ Hpd i Hi') as [Hz|(e2 & p2 & E2 & P2 & O2 & _)].
        { rewrite Hz in Hei. injection Hei as <-. destruct (points_get 0 q Hqk Hqi) as (_ & _ & _ & Hn0 & _). done. }
        rewrite Hei in E2. injection E2 as <-.
        assert (q = p2) as -> by (apply (points_inj ei); [done|by apply (own_kpage k)|done|done]).
        exact (pd_inj _ _ Hpd i j ei ej p2 Hi' Hj' Hei Hej O2 Hqi Hqj).
    + intros va' e' Hv'. rewrite Hmap by done. by apply (pd_pte _ _ Hpd).
  - destruct Hs1 as [Hc1 Hs1], Hs2 as [Hc2 Hs2]. split; [congruence|]. intros u.
    destruct (Hs1 u), (Hs2 u). split; congruence.
  - intros q. rewrite Htk2, Htk. tauto.
  - intros q Hq. apply Htk2, Htk. by left.
  - intros q Hq Hqp. rewrite Hfr2, Hfr1; [done| |done]. intros ->. done.
Qed.

(** The kernel address of the byte a user address stands for. *)
Definition translate (k : kmem) (pd va : Z) : Z :=
  match mapped k pd va with
  | Some e => match pte_get_page e with Ok p => p + pg_ofs va | _ => NULL end
  | None => NULL
  end.
Lemma nonnull_entry k pt i : kmem_wf k -> own_page k pt -> 0 <= i -> (pt + 4 * i =? NULL) = false.
Proof. intros Hk Ho ?. destruct (own_kpage _ _ Hk Ho). apply Z.eqb_neq. unfold NULL, PHYS_BASE, LOADER_PHYS_BASE in *. lia. Qed.
Lemma user_vaddr va : 0 <= va < PHYS_BASE -> is_user_vaddr va = true.
Proof. intros. apply Z.ltb_lt. lia. Qed.

Lemma pagedir_get_page_spec me k pd va (Q : Z -> kmem -> Prop) : kmem_wf k -> pd_wf k pd -> 0 <= va < PHYS_BASE ->
  Q (translate k pd va) k -> mwp (pagedir_get_page me pd va) k Q.
Proof.
  intros Hk Hpd Hv HQ. unfold pagedir_get_page. wp_step. wp_step; [by apply user_vaddr|].
  destruct (user_split va Hv) as (_ & Hj & _). unfold translate in HQ. pose proof (pd_pte _ _ Hpd va) as Hpte.
  unfold mapped in HQ, Hpte. wp_step.
  destruct (pte_of_cases k pd va Hk Hpd Hv) as [[H0 Hn]|[pt Ht]].
  - rewrite Hn in HQ. apply lookup_missing; [done..|]. rewrite Z.eqb_refl. cbn [negb]. by wp_step.
  - eapply lookup_found; [done..|]. rewrite (pte_of_table k pd va pt) in HQ, Hpte by done.
    rewrite (nonnull_entry k pt) by (done || apply Ht || lia). cbn [negb]. wp_step.
    destruct (own_word k pt (pt_no va)) as (e & He & _); [done|apply Ht|done|]. rewrite He in HQ, Hpte.
    eapply load_word_spec; [exact He|]. destruct (flag e PTE_P) eqn:Ef; [|by wp_step].
    destruct (Hpte e Hv eq_refl) as (p & Hkp & Hp). destruct (points_get e p Hkp Hp) as (_ & Eg & _).
    rewrite Eg in HQ. wp_step. wp_step. rewrite Eg. wp_step. by wp_step.
Qed.

(** What [pagedir_set_page] installs. *)
Lemma user_points p w : kpage p -> points (Z.lor (p - PHYS_BASE) (user_flags w)) p.
Proof. intros. exists (user_flags w). split; [done|]. by destruct w. Qed.
Lemma translate_new k pd va p w : kpage p -> mapped k pd va = Some (Z.lor (p - PHYS_BASE) (user_flags w)) ->
  translate k pd va = p + pg_ofs va.
Proof.
  intros Hp E. unfold translate. rewrite E. by destruct (points_get _ p Hp (user_points p w Hp)) as (_ & -> & _).
Qed.

(** C4. [pagedir_set_page] on an unmapped user page fails only when the page's table is
    missing and the kernel pool has no free page for one, and then it changes nothing;
    otherwise it maps exactly that page, making the table if need be: afterwards every address of the
    page translates to the same offset of the frame, with the access asked for, and
    every other user address translates as before; the directory stays well formed
    and no memory in use is given away. *)
Theorem pagedir_set_page_maps me base_page_dir init_ram_pages k pd upage p w :
  kmem_wf k -> pd_wf k pd -> 0 <= upage < PHYS_BASE -> upage mod 4096 = 0 ->
  kpage p -> (p - PHYS_BASE) / 4096 < init_ram_pages -> pd <> base_page_dir -> mapped k pd upage = None ->
  mwp (pagedir_set_page me base_page_dir init_ram_pages pd upage p w) k (fun ok k' =>
    (ok = false /\ k' = k /\ pte_of k pd upage = None /\ forall a, ~ free_run (kernel_pool k) 1 a) \/
    (ok = true /\ kmem_wf k' /\ pd_wf k' pd /\ (forall q, taken k q -> taken k' q) /\
     mapped k' pd upage = Some (Z.lor (p - PHYS_BASE) (user_flags w)) /\
     forall va, 0 <= va < PHYS_BASE -> mwp (pagedir_get_page me pd va) k' (fun a k2 => k2 = k' /\
       a = if decide (va / 4096 = upage / 4096) then p + pg_ofs va else translate k pd va))).
Proof.
  intros Hk Hpd Hu Hum Hkp Hram Hbase Hmap. unfold pagedir_set_page.
  wp_step. wp_step; [by rewrite pg_ofs_eq, Hum|]. wp_step. wp_step; [by rewrite kpage_ofs|].
  wp_step. wp_step; [by apply user_vaddr|]. wp_step. wp_step. rewrite kpage_vtop by done. wp_step.
  wp_step. wp_step; [change PTSHIFT with 12; rewrite Z.shiftr_div_pow2 by lia; apply Z.ltb_lt; exact Hram|].
  wp_step. wp_step; [by apply negb_true_iff, Z.eqb_neq|]. wp_step.
  destruct (user_split upage Hu) as (_ & Hj & _).
  assert (Hmain : forall k1 pt, prepared k pd upage pt k1 ->
    mwp (if negb (pt + 4 * pt_no upage =? NULL) then
      e ← load_word (pt + 4 * pt_no upage); _ ← assert (Z.land e PTE_P =? 0);
      v ← lift (pte_create_user p w); _ ← store_word (pt + 4 * pt_no upage) v; mret true
    else mret false) k1 (fun ok k' => (ok = false /\ k' = k /\ pte_of k pd upage = None /\ forall a, ~ free_run (kernel_pool k) 1 a) \/
    (ok = true /\ kmem_wf k' /\ pd_wf k' pd /\ (forall q, taken k q -> taken k' q) /\
     mapped k' pd upage = Some (Z.lor (p - PHYS_BASE) (user_flags w)) /\
     forall va, 0 <= va < PHYS_BASE -> mwp (pagedir_get_page me pd va) k' (fun a k2 => k2 = k' /\
       a = if decide (va / 4096 = upage / 4096) then p + pg_ofs va else translate k pd va)))).
  { intros k1 pt [Hw1 Hp1 Ht1 _ Hm1 _ Hkeep _].
    rewrite (nonnull_entry k1 pt) by (done || apply Ht1 || lia). cbn [negb]. wp_step.
    destruct (own_word k1 pt (pt_no upage)) as (e & He & _); [done|apply Ht1|done|].
    eapply load_word_spec; [exact He|]. wp_step.
    pose proof (Hm1 upage Hu) as Hme. rewrite Hmap in Hme. unfold mapped in Hme.
    rewrite (pte_of_table k1 pd upage pt), He in Hme by done. unfold flag in Hme.
    wp_step; [destruct (Z.land e PTE_P =? 0); done|]. wp_step. wp_step. rewrite pte_create_user_eq by done. wp_step.
    set (v := Z.lor (p - PHYS_BASE) (user_flags w)).
    pose proof (user_points p w Hkp) as Hvp. fold v in Hvp.
    destruct (points_get v p Hkp Hvp) as (_ & _ & Hvf & _ & Hvu).
    wp_step. eapply store_pte; [exact Hw1|exact Hp1|exact Hu|exact Ht1|exact Hvu|intros _; by exists p|].
    intros k' Hw' Hp' _ Htk' Hpte' _. wp_step. right. split; [done|]. split; [done|]. split; [done|].
    split; [intros q Hq; by apply Htk', Hkeep|].
    assert (Hm' : forall va, 0 <= va < PHYS_BASE ->
      mapped k' pd va = if decide (va / 4096 = upage / 4096) then Some v else mapped k pd va).
    { intros va Hv. rewrite <- (Hm1 va Hv). unfold mapped at 1. rewrite Hpte' by done. case_decide; [by rewrite Hvf|done]. }
    split; [by rewrite Hm', decide_True|]. intros va Hv. apply pagedir_get_page_spec; [done..|]. split; [done|].
    specialize (Hm' va Hv). case_decide.
    - by apply (translate_new k' pd va p w).
    - unfold translate. by rewrite Hm'. }
  destruct (pte_of_cases k pd upage Hk Hpd Hu) as [[H0 Hn]|[pt Ht]].
  - apply lookup_create; [done..| |exact Hmain]. intros Hno. rewrite Z.eqb_refl. cbn [negb]. wp_step. by left.
  - eapply lookup_found; [done..|]. apply Hmain. by split; auto.
Qed.

(** [pagedir_clear_page] unmaps exactly the page it is given, present or not:
    its addresses no longer translate and every other user address is untouched. *)
Theorem pagedir_clear_page_unmaps me base_page_dir k pd upage : kmem_wf k -> pd_wf k pd ->
  0 <= upage < PHYS_BASE -> upage mod 4096 = 0 -> kpage (cr3 k + PHYS_BASE) ->
  mwp (pagedir_clear_page me base_page_dir pd upage) k (fun _ k' =>
    kmem_wf k' /\ pd_wf k' pd /\ cr3 k' = cr3 k /\ (forall q, taken k' q <-> taken k q) /\
    forall va, 0 <= va < PHYS_BASE -> mwp (pagedir_get_page me pd va) k' (fun a k2 => k2 = k' /\
      a = if decide (va / 4096 = upage / 4096) then NULL else translate k pd va)).
Proof.
  intros Hk Hpd Hu Hum [Hcr _]. unfold pagedir_clear_page.
  wp_step. wp_step; [by rewrite pg_ofs_eq, Hum|]. wp_step. wp_step; [by apply user_vaddr|]. wp_step.
  destruct (user_split upage Hu) as (_ & Hj & Hsp).
  assert (Hsame : mapped k pd upage = None -> kmem_wf k /\ pd_wf k pd /\ cr3 k = cr3 k /\ (forall q, taken k q <-> taken k q) /\
    forall va, 0 <= va < PHYS_BASE -> mwp (pagedir_get_page me pd va) k (fun a k2 => k2 = k /\
      a = if decide (va / 4096 = upage / 4096) then NULL else translate k pd va)).
  { intros Hm. split; [done|]. split; [done|]. split; [done|]. split; [done|]. intros va Hv.
    apply pagedir_get_page_spec; [done..|]. split; [done|]. case_decide as E; [|done].
    assert (pd_no va = pd_no upage /\ pt_no va = pt_no upage) as [E1 E2].
    { destruct (user_split va Hv) as (? & ? & ?). destruct (user_split upage Hu). lia. }
    unfold translate, mapped, pte_of in *. by rewrite E1, E2, Hm. }
  destruct (pte_of_cases k pd upage Hk Hpd Hu) as [[H0 Hn]|[pt Ht]].
  - apply lookup_missing; [done..|]. rewrite Z.eqb_refl. cbn [negb]. wp_step. apply Hsame. unfold mapped. by rewrite Hn.
  - eapply lookup_found; [done..|]. rewrite (nonnull_entry k pt) by (done || apply Ht || lia). cbn [negb]. wp_step.
    destruct (own_word k pt (pt_no upage)) as (e & He & Hu32); [done|apply Ht|done|].
    eapply load_word_spec; [exact He|]. pose proof (pte_of_table k pd upage pt Hk Ht) as Hpt. rewrite He in Hpt.
    destruct (flag e PTE_P) eqn:Ef.
    2:{ wp_step. apply Hsame. unfold mapped. by rewrite Hpt, Ef. }
    set (v := Z.land e (u32 (Z.lnot PTE_P))).
    assert (Hvu : is_u32 v) by by apply land_u32.
    assert (Hvf : flag v PTE_P = false).
    { unfold flag, v. rewrite <- Z.land_assoc. change (Z.land (u32 (Z.lnot PTE_P)) PTE_P) with 0. by rewrite Z.land_0_r. }
    wp_step. eapply store_pte; [exact Hk|exact Hpd|exact Hu|exact Ht|exact Hvu|by rewrite Hvf|].
    intros k' Hw' Hp' [Hc' _] Htk' Hpte' _.
    assert (Hend : kmem_wf k' /\ pd_wf k' pd /\ cr3 k' = cr3 k /\ (forall q, taken k' q <-> taken k q) /\
      forall va, 0 <= va < PHYS_BASE -> mwp (pagedir_get_page me pd va) k' (fun a k2 => k2 = k' /\
        a = if decide (va / 4096 = upage / 4096) then NULL else translate k pd va)).
    { split; [done|]. split; [done|]. split; [done|]. split; [done|]. intros va Hv.
      apply pagedir_get_page_spec; [done..|]. split; [done|]. unfold translate, mapped. rewrite Hpte' by done.
      case_decide; [by rewrite Hvf|done]. }
    unfold invalidate_pagedir, active_pd. wp_step. wp_step. wp_step. wp_step. unfold ptov.
    rewrite Hc', (proj2 (Z.ltb_lt _ _)) by (unfold PHYS_BASE, LOADER_PHYS_BASE in *; lia). cbn [ASSERT]. wp_step. cbv beta. cbn [wp mbind res_bind mret res_ret].
    rewrite u32_small by (unfold is_u32, PHYS_BASE, LOADER_PHYS_BASE in *; lia).
    destruct (Z.eqb_spec (cr3 k + PHYS_BASE) pd) as [E|E]; [|by wp_step].
    unfold pagedir_activate. rewrite (pd_nonnull k' pd Hw' (pd_own _ _ Hp')). wp_step. wp_step.
    rewrite kpage_vtop by (apply (own_kpage k'); [done|apply Hp']). wp_step. wp_step.
    replace (set_cr3 (pd - PHYS_BASE) k') with k'; [done|].
    rewrite <- E. replace (cr3 k + PHYS_BASE - PHYS_BASE) with (cr3 k') by lia. by destruct k'.
Qed.

(** A directory without user entries. *)
Lemma empty_pd_wf k pd : kmem_wf k -> own_page k pd -> (forall i, 0 <= i < 768 -> word k (pd + 4 * i) = Some 0) ->
  pd_wf k pd /\ forall va, 0 <= va < PHYS_BASE -> mapped k pd va = None.
Proof.
  intros Hk Ho Hz. assert (Hm : forall va, 0 <= va < PHYS_BASE -> mapped k pd va = None).
  { intros va Hv. unfold mapped, pte_of. by rewrite Hz by apply (user_split va Hv). }
  split; [|done]. split; [done| | |].
  - intros i Hi. left. by apply Hz.
  - intros i j e e' pt Hi Hj. rewrite !Hz by done. intros [= <-] [= <-] Hpt Hp.
    destruct (points_get 0 pt) as (_ & _ & _ & Hn & _); [by apply (own_kpage k)|done|done].
  - intros va e Hv. by rewrite Hm.
Qed.

(** A new page directory is a copy of the kernel's: it maps no user address, has
    the kernel's entries above [PHYS_BASE], and creating it takes one free page and
    touches no other; without a free page the result is null and nothing changed. *)
Theorem pagedir_create_empty me base_page_dir k ws : kmem_wf k -> own_page k base_page_dir ->
  frames k !! base_page_dir = Some ws -> (forall i, 0 <= i < 768 -> znth ws i = Some 0) ->
  mwp (pagedir_create me base_page_dir) k (fun pd k' =>
    (pd = NULL /\ k' = k) \/
    (kmem_wf k' /\ pd_wf k' pd /\ (forall va, 0 <= va < PHYS_BASE -> mapped k' pd va = None) /\
     (forall i, 768 <= i < 1024 -> word k' (pd + 4 * i) = word k (base_page_dir + 4 * i)) /\
     ~ taken k pd /\ (forall q, taken k' q <-> taken k q \/ q = pd) /\
     forall q, q <> pd -> frames k' !! q = frames k !! q)).
Proof.
  intros Hk Hb Hws Hz. unfold pagedir_create. wp_step.
  apply palloc_get_multiple_spec; [exact Hk|lia| |].
  { intros _. split; [reflexivity|]. rewrite Z.eqb_refl. cbn [negb]. wp_step. by left. }
  change (flag 0 PAL_USER) with false. change (flag 0 PAL_ZERO) with false.
  intros pd k1 [Hw1 Hs1 Hkp Hfree Htk Hfr]. pose proof Hkp as [_ Hpm].
  setoid_rewrite (in_block_1 pd _ Hpm) in Htk. setoid_rewrite (in_block_1 pd _ Hpm) in Hfree.
  destruct (Hfree pd eq_refl) as [Hpin Hpnt].
  assert (Hfr1 : forall q, frames k1 !! q = frames k !! q).
  { intros q. rewrite Hfr, decide_False; [done|]. intros [? _]. done. }
  assert (Hpool : forall q, in_pool (kernel_pool k1) q <-> in_pool (kernel_pool k) q).
  { intros q. unfold in_pool. destruct (proj2 Hs1 false) as [Hb' Hc']. cbn in Hb', Hc'. by rewrite Hb', Hc'. }
  assert (Hpo : own_page k1 pd) by (split; [by apply Hpool|apply Htk; by right]).
  rewrite (pd_nonnull k1 pd Hw1 Hpo). cbn [negb]. wp_step. wp_step. wp_step. wp_step. rewrite Hfr1, Hws.
  cbn [deref]. wp_step. wp_step. wp_step. set (k2 := set_frames (<[pd := ws]> (frames k1)) k1).
  destruct (kw_frames _ Hk false base_page_dir (proj1 Hb)) as (ws' & Hws' & Hwf).
  rewrite Hws in Hws'. injection Hws' as <-.
  assert (Hw2 : kmem_wf k2).
  { apply kmem_wf_frames; [done|]. intros u q Hq. destruct (decide (q = pd)) as [->|].
    - rewrite lookup_insert_eq. by exists ws.
    - rewrite lookup_insert_ne by done. by eapply kw_frames. }
  assert (Hpw : forall i, 0 <= i < 1024 -> word k2 (pd + 4 * i) = znth ws i).
  { intros i Hi. rewrite word_at by done. cbn. by rewrite lookup_insert_eq. }
  assert (Ho2 : own_page k2 pd) by (destruct Hpo; split; [done|by apply taken_frames]).
  right. split; [done|]. destruct (empty_pd_wf k2 pd Hw2 Ho2) as [Hpd Hm].
  { intros i Hi. rewrite Hpw by lia. by apply Hz. }
  split; [done|]. split; [done|]. split.
  { intros i Hi. rewrite Hpw, word_at by (lia || by apply (own_kpage k)). by rewrite Hws. }
  split; [done|]. split; [intros q; unfold k2; rewrite taken_frames; apply Htk|].
  intros q Hq. cbn. rewrite lookup_insert_ne by done. apply Hfr1.
Qed.

(** *** Witnesses *)
(** A memory whose first page is an empty page directory. *)
Definition ex_pd : Z := 0xc0100000.
Definition ex_paged : kmem :=
  Kmem (Pool None (Bitmap 4 [1]) ex_pd) (ex_pool 0xc0104000)
    (list_to_map ((fun i => (ex_pd + 4096 * i, replicate 1024 0)) <$> seqZ 0 8)) 0x100000.
Lemma ex_paged_wf : kmem_wf ex_paged.
Proof.
  assert (Hp : forall user, pool_wf (pool_of user ex_paged)).
  { intros [|]; [apply ex_pool_wf; [split; [done|reflexivity]|lia]|].
    split; [|done|split; [done|reflexivity]|cbn; unfold ex_pd; lia].
    split; cbn; [lia|done|by repeat constructor]. }
  split; [exact Hp|cbn; unfold ex_pd; lia|]. intros user. apply frames_ok_sound; [apply Hp|].
  destruct user; vm_compute; reflexivity.
Qed.
Lemma ex_pd_own : own_page ex_paged ex_pd.
Proof.
  assert (Hi : in_pool (kernel_pool ex_paged) ex_pd) by (split; [cbn; unfold ex_pd; lia|reflexivity]).
  split; [exact Hi|]. exists false. split; [exact Hi|reflexivity].
Qed.
Lemma ex_pd_frame : frames ex_paged !! ex_pd = Some (replicate 1024 0).
Proof. vm_compute. reflexivity. Qed.
Lemma ex_pd_wf : pd_wf ex_paged ex_pd /\ forall va, 0 <= va < PHYS_BASE -> mapped ex_paged ex_pd va = None.
Proof.
  apply empty_pd_wf; [exact ex_paged_wf|exact ex_pd_own|]. intros i Hi. rewrite word_at by (reflexivity || lia).
  rewrite ex_pd_frame. cbn [mbind option_bind]. apply znth_replicate_in. lia.
Qed.
Lemma ex_paged_free : free_run (kernel_pool ex_paged) 1 (ex_pd + 4096).
Proof. by apply one_free_page. Qed.
Lemma pagedir_set_page_maps_witness :
  mwp (pagedir_set_page 1 0xc0103000 0x40000 ex_pd 0x8048000 0xc0105000 true) ex_paged (fun ok k' =>
    ok = true /\ mapped k' ex_pd 0x8048000 = Some (Z.lor 0x105000 7)).
Proof.
  eapply mwp_mono.
  - apply (pagedir_set_page_maps 1 0xc0103000 0x40000 ex_paged ex_pd 0x8048000 0xc0105000 true);
      [exact ex_paged_wf|exact (proj1 ex_pd_wf)|unfold PHYS_BASE, LOADER_PHYS_BASE; lia|reflexivity
      |split; [unfold PHYS_BASE, LOADER_PHYS_BASE; lia|reflexivity]|reflexivity|discriminate
      |apply (proj2 ex_pd_wf); unfold PHYS_BASE, LOADER_PHYS_BASE; lia].
  - cbv beta. intros ok k' [(_ & _ & _ & H)|(Hok & _ & _ & _ & Hm & _)]; [destruct (H _ ex_paged_free)|]. split; [exact Hok|exact Hm].
Defined.
Lemma pagedir_clear_page_unmaps_witness :
  mwp (pagedir_clear_page 1 0xc0103000 ex_pd 0x8048000) ex_paged (fun _ k' => kmem_wf k' /\ pd_wf k' ex_pd).
Proof.
  eapply mwp_mono.
  - apply (pagedir_clear_page_unmaps 1 0xc0103000 ex_paged ex_pd 0x8048000);
      [exact ex_paged_wf|exact (proj1 ex_pd_wf)|unfold PHYS_BASE, LOADER_PHYS_BASE; lia|reflexivity
      |split; [cbn; unfold PHYS_BASE, LOADER_PHYS_BASE; lia|reflexivity]].
  - cbv beta. intros u k' (H1 & H2 & _). split; [exact H1|exact H2].
Defined.
Lemma pagedir_create_empty_witness :
  mwp (pagedir_create 1 ex_pd) ex_paged (fun pd k' => (pd = NULL /\ k' = ex_paged) \/ pd_wf k' pd).
Proof.
  eapply mwp_mono.
  - apply (pagedir_create_empty 1 ex_pd ex_paged (replicate 1024 0));
      [exact ex_paged_wf|exact ex_pd_own|exact ex_pd_frame|].
    intros i Hi. apply znth_replicate_in. lia.
  - cbv beta. intros pd k' [H|(_ & H & _)]; [left; exact H|right; exact H].
Defined.
