(* ===== verification/Sched.v ===== *)
(** * Sched: the scheduler of threads/thread.c

    [kst] is the kernel's state as thread.c, synch.c and timer.c see it.  A
    [struct thread] is named by the address of its page and a list of threads
    is the list of those addresses in order (KList.v shows that the intrusive
    lists of the code are such lists).  A context switch changes [running]:
    what runs next is the code of that thread, so the functions here end where
    [schedule] hands over.  The magic number of a thread that exists is intact
    (kernel stacks do not overflow in the model). *)
From S2P Require Import Prelude.
From S2P Require Import Vaddr.
From S2P Require Import Palloc.
From S2P Require Import Pagedir.

Inductive thread_status : Type :=
  THREAD_RUNNING | THREAD_READY | THREAD_BLOCKED | THREAD_DYING.
#[global] Instance thread_status_eq : EqDecision thread_status.
Proof. solve_decision. Defined.

Definition TID_ERROR : Z := -1.
Definition PRI_MIN : Z := 0.
Definition PRI_DEFAULT : Z := 31.
Definition PRI_MAX : Z := 63.
Definition TIME_SLICE : Z := 4.
Definition FD_LIST_LEN : Z := 128.
Definition FD_TABLE_LEN : Z := 128.

Record child_thread_marker := Marker {
  c_tid : Z; c_retval : Z; c_name : list Z; c_invalid : Z; c_load_result : Z; c_exec_lock : Z }.
Record thread := Thread {
  tid : Z; status : thread_status; name : list Z; stack : Z; priority : Z;
  children : list child_thread_marker; child_count : Z; parent : Z;
  retval : Z; wakeup_time : Z; pagedir : Z; fd_list : list Z; wd : Z; exec_lock : Z }.

(** The semaphores of the kernel: named ones, the one inside a lock, the
    [timer_semaphore] of a thread and the local [waiter] of a thread in
    [cond_wait]. *)
Inductive sema_at : Type := Sema (a : Z) | LockSema (l : Z) | TimerSema (t : Z) | WaiterSema (t : Z).
#[global] Instance sema_at_eq : EqDecision sema_at.
Proof. solve_decision. Defined.
#[global] Instance sema_at_countable : Countable sema_at.
Proof.
  apply (inj_countable' (fun s => match s with
      | Sema a => inl (inl a) | LockSema a => inl (inr a) | TimerSema a => inr (inl a) | WaiterSema a => inr (inr a) end)
    (fun x => match x with
      | inl (inl a) => Sema a | inl (inr a) => LockSema a | inr (inl a) => TimerSema a | inr (inr a) => WaiterSema a end)).
  by intros [].
Defined.
Record semaphore := Semaphore { value : Z; waiters : list Z }.

(** The statistics and the current time slice. *)
Record clock := Clock { ticks : Z; thread_ticks : Z; idle_ticks : Z; kernel_ticks : Z; user_ticks : Z }.
(** The processor: the interrupt flag, whether an external interrupt is being
    handled, whether to yield when it returns, the kernel stack for interrupts. *)
Record cpu := Cpu { intr_on : bool; in_external_intr : bool; yield_on_return : bool; esp0 : Z }.
Record kst := Kst {
  threads : gmap Z thread; ready_list : list Z; all_list : list Z; wait_list : list Z;
  idle_thread : Z; initial_thread : Z; running : Z;
  semas : gmap sema_at semaphore; holders : gmap Z Z; conds : gmap Z (list Z);
  the_clock : clock; the_cpu : cpu; next_tid : Z; fd_table : list Z;
  mem : kmem; base_page_dir : Z; init_ram_pages : Z }.

Definition set_threads v k := Kst v (ready_list k) (all_list k) (wait_list k) (idle_thread k) (initial_thread k)
  (running k) (semas k) (holders k) (conds k) (the_clock k) (the_cpu k) (next_tid k) (fd_table k) (mem k)
  (base_page_dir k) (init_ram_pages k).
Definition set_ready v k := Kst (threads k) v (all_list k) (wait_list k) (idle_thread k) (initial_thread k)
  (running k) (semas k) (holders k) (conds k) (the_clock k) (the_cpu k) (next_tid k) (fd_table k) (mem k)
  (base_page_dir k) (init_ram_pages k).
Definition set_all v k := Kst (threads k) (ready_list k) v (wait_list k) (idle_thread k) (initial_thread k)
  (running k) (semas k) (holders k) (conds k) (the_clock k) (the_cpu k) (next_tid k) (fd_table k) (mem k)
  (base_page_dir k) (init_ram_pages k).
Definition set_wait v k := Kst (threads k) (ready_list k) (all_list k) v (idle_thread k) (initial_thread k)
  (running k) (semas k) (holders k) (conds k) (the_clock k) (the_cpu k) (next_tid k) (fd_table k) (mem k)
  (base_page_dir k) (init_ram_pages k).
Definition set_idle v k := Kst (threads k) (ready_list k) (all_list k) (wait_list k) v (initial_thread k)
  (running k) (semas k) (holders k) (conds k) (the_clock k) (the_cpu k) (next_tid k) (fd_table k) (mem k)
  (base_page_dir k) (init_ram_pages k).
Definition set_initial v k := Kst (threads k) (ready_list k) (all_list k) (wait_list k) (idle_thread k) v
  (running k) (semas k) (holders k) (conds k) (the_clock k) (the_cpu k) (next_tid k) (fd_table k) (mem k)
  (base_page_dir k) (init_ram_pages k).
Definition set_running v k := Kst (threads k) (ready_list k) (all_list k) (wait_list k) (idle_thread k)
  (initial_thread k) v (semas k) (holders k) (conds k) (the_clock k) (the_cpu k) (next_tid k) (fd_table k) (mem k)
  (base_page_dir k) (init_ram_pages k).
Definition set_semas v k := Kst (threads k) (ready_list k) (all_list k) (wait_list k) (idle_thread k)
  (initial_thread k) (running k) v (holders k) (conds k) (the_clock k) (the_cpu k) (next_tid k) (fd_table k) (mem k)
  (base_page_dir k) (init_ram_pages k).
Definition set_holders v k := Kst (threads k) (ready_list k) (all_list k) (wait_list k) (idle_thread k)
  (initial_thread k) (running k) (semas k) v (conds k) (the_clock k) (the_cpu k) (next_tid k) (fd_table k) (mem k)
  (base_page_dir k) (init_ram_pages k).
Definition set_conds v k := Kst (threads k) (ready_list k) (all_list k) (wait_list k) (idle_thread k)
  (initial_thread k) (running k) (semas k) (holders k) v (the_clock k) (the_cpu k) (next_tid k) (fd_table k) (mem k)
  (base_page_dir k) (init_ram_pages k).
Definition set_clock v k := Kst (threads k) (ready_list k) (all_list k) (wait_list k) (idle_thread k)
  (initial_thread k) (running k) (semas k) (holders k) (conds k) v (the_cpu k) (next_tid k) (fd_table k) (mem k)
  (base_page_dir k) (init_ram_pages k).
Definition set_cpu v k := Kst (threads k) (ready_list k) (all_list k) (wait_list k) (idle_thread k)
  (initial_thread k) (running k) (semas k) (holders k) (conds k) (the_clock k) v (next_tid k) (fd_table k) (mem k)
  (base_page_dir k) (init_ram_pages k).
Definition set_next_tid v k := Kst (threads k) (ready_list k) (all_list k) (wait_list k) (idle_thread k)
  (initial_thread k) (running k) (semas k) (holders k) (conds k) (the_clock k) (the_cpu k) v (fd_table k) (mem k)
  (base_page_dir k) (init_ram_pages k).
Definition set_fd_table v k := Kst (threads k) (ready_list k) (all_list k) (wait_list k) (idle_thread k)
  (initial_thread k) (running k) (semas k) (holders k) (conds k) (the_clock k) (the_cpu k) (next_tid k) v (mem k)
  (base_page_dir k) (init_ram_pages k).
Definition set_mem v k := Kst (threads k) (ready_list k) (all_list k) (wait_list k) (idle_thread k)
  (initial_thread k) (running k) (semas k) (holders k) (conds k) (the_clock k) (the_cpu k) (next_tid k) (fd_table k) v
  (base_page_dir k) (init_ram_pages k).
(** Fields of a thread. *)
Definition set_status v t := Thread (tid t) v (name t) (stack t) (priority t) (children t) (child_count t) (parent t)
  (retval t) (wakeup_time t) (pagedir t) (fd_list t) (wd t) (exec_lock t).
Definition set_priority v t := Thread (tid t) (status t) (name t) (stack t) v (children t) (child_count t) (parent t)
  (retval t) (wakeup_time t) (pagedir t) (fd_list t) (wd t) (exec_lock t).
Definition set_stack v t := Thread (tid t) (status t) (name t) v (priority t) (children t) (child_count t) (parent t)
  (retval t) (wakeup_time t) (pagedir t) (fd_list t) (wd t) (exec_lock t).
Definition set_tid v t := Thread v (status t) (name t) (stack t) (priority t) (children t) (child_count t) (parent t)
  (retval t) (wakeup_time t) (pagedir t) (fd_list t) (wd t) (exec_lock t).
Definition set_children v n t := Thread (tid t) (status t) (name t) (stack t) (priority t) v n (parent t)
  (retval t) (wakeup_time t) (pagedir t) (fd_list t) (wd t) (exec_lock t).
Definition set_parent v t := Thread (tid t) (status t) (name t) (stack t) (priority t) (children t) (child_count t) v
  (retval t) (wakeup_time t) (pagedir t) (fd_list t) (wd t) (exec_lock t).
Definition set_retval v t := Thread (tid t) (status t) (name t) (stack t) (priority t) (children t) (child_count t)
  (parent t) v (wakeup_time t) (pagedir t) (fd_list t) (wd t) (exec_lock t).
Definition set_wakeup v t := Thread (tid t) (status t) (name t) (stack t) (priority t) (children t) (child_count t)
  (parent t) (retval t) v (pagedir t) (fd_list t) (wd t) (exec_lock t).
Definition set_pagedir v t := Thread (tid t) (status t) (name t) (stack t) (priority t) (children t) (child_count t)
  (parent t) (retval t) (wakeup_time t) v (fd_list t) (wd t) (exec_lock t).
Definition set_fd_list v t := Thread (tid t) (status t) (name t) (stack t) (priority t) (children t) (child_count t)
  (parent t) (retval t) (wakeup_time t) (pagedir t) v (wd t) (exec_lock t).
Definition set_wd v t := Thread (tid t) (status t) (name t) (stack t) (priority t) (children t) (child_count t)
  (parent t) (retval t) (wakeup_time t) (pagedir t) (fd_list t) v (exec_lock t).

Abbreviation TM := (M kst).
(** ** Interrupts *)
Definition intr_get_level : TM bool := gets (fun k => intr_on (the_cpu k)).
Definition intr_context : TM bool := gets (fun k => in_external_intr (the_cpu k)).
Definition set_intr (b : bool) : TM unit :=
  modify (fun k => let c := the_cpu k in set_cpu (Cpu b (in_external_intr c) (yield_on_return c) (esp0 c)) k).
Definition intr_enable : TM bool :=
  old_level ← intr_get_level; c ← intr_context; _ ← assert (negb c); _ ← set_intr true; mret old_level.
Definition intr_disable : TM bool := old_level ← intr_get_level; _ ← set_intr false; mret old_level.
Definition intr_set_level (level : bool) : TM bool := if level then intr_enable else intr_disable.
Definition intr_yield_on_return : TM unit :=
  c ← intr_context; _ ← assert c;
  modify (fun k => let c := the_cpu k in set_cpu (Cpu (intr_on c) (in_external_intr c) true (esp0 c)) k).
(** [old_level = intr_disable (); m; intr_set_level (old_level);] *)
Definition atomically {A} (m : TM A) : TM A :=
  old_level ← intr_disable; r ← m; _ ← intr_set_level old_level; mret r.

(** ** Threads *)
Definition get_thread (t : Z) : TM thread := k ← get; lift (deref (threads k !! t)).
Definition upd_thread (t : Z) (f : thread -> thread) : TM unit :=
  th ← get_thread t; modify (fun k => set_threads (<[t := f th]> (threads k)) k).
Definition in_mem {A} (m : KM A) : TM A := fun k =>
  match m (mem k) with
  | Ok (a, m') => Ok (a, set_mem m' k) | Panic => Panic | Fault => Fault | Hang => Hang end.

Definition running_thread : TM Z := gets running.
Definition is_thread (t : Z) : TM bool := gets (fun k => bool_decide (is_Some (threads k !! t))).
Definition thread_current : TM Z :=
  t ← running_thread;
  b ← is_thread t; _ ← assert b;
  th ← get_thread t; _ ← assert (bool_decide (status th = THREAD_RUNNING));
  mret t.
Definition thread_tid : TM Z := t ← thread_current; th ← get_thread t; mret (tid th).
Definition thread_name : TM (list Z) := t ← thread_current; th ← get_thread t; mret (name th).

Definition next_thread_to_run : TM Z :=
  k ← get;
  match ready_list k with
  | [] => mret (idle_thread k)
  | t :: rest => _ ← put (set_ready rest k); mret t
  end.

(** [process_activate] of userprog/process.c and [tss_update] of userprog/tss.c. *)
Definition tss_update : TM unit :=
  t ← running_thread;
  modify (fun k => let c := the_cpu k in
    set_cpu (Cpu (intr_on c) (in_external_intr c) (yield_on_return c) (t +u PGSIZE)) k).
Definition process_activate : TM unit :=
  t ← thread_current; th ← get_thread t;
  b ← gets base_page_dir; _ ← in_mem (pagedir_activate b (pagedir th));
  tss_update.

Definition thread_schedule_tail (prev : Z) : TM unit :=
  cur ← running_thread;
  l ← intr_get_level; _ ← assert (negb l);
  _ ← upd_thread cur (set_status THREAD_RUNNING);
  _ ← modify (fun k => let c := the_clock k in
        set_clock (Clock (ticks c) 0 (idle_ticks c) (kernel_ticks c) (user_ticks c)) k);
  _ ← process_activate;
  if negb (prev =? NULL) then
    pt ← get_thread prev; init ← gets initial_thread;
    if bool_decide (status pt = THREAD_DYING) && negb (prev =? init) then
      _ ← assert (negb (prev =? cur));
      _ ← modify (fun k => set_threads (delete prev (threads k)) k);
      in_mem (palloc_free_page prev)
    else mret tt
  else mret tt.

Definition schedule : TM unit :=
  cur ← running_thread;
  next ← next_thread_to_run;
  l ← intr_get_level; _ ← assert (negb l);
  ct ← get_thread cur; _ ← assert (negb (bool_decide (status ct = THREAD_RUNNING)));
  b ← is_thread next; _ ← assert b;
  if negb (cur =? next) then _ ← modify (set_running next); thread_schedule_tail cur
  else thread_schedule_tail NULL.

Definition thread_block : TM unit :=
  c ← intr_context; _ ← assert (negb c);
  l ← intr_get_level; _ ← assert (negb l);
  t ← thread_current; _ ← upd_thread t (set_status THREAD_BLOCKED);
  schedule.
Definition thread_unblock (t : Z) : TM unit :=
  b ← is_thread t; _ ← assert b;
  atomically (
    th ← get_thread t; _ ← assert (bool_decide (status th = THREAD_BLOCKED));
    _ ← modify (fun k => set_ready (ready_list k ++ [t]) k);
    upd_thread t (set_status THREAD_READY)).
(** What [intr_set_level] restores belongs to the thread that yields, when it
    runs again; the interrupt level [schedule] leaves is off until then. *)
Definition thread_yield_body : TM unit :=
  cur ← thread_current;
  c ← intr_context; _ ← assert (negb c);
  _ ← intr_disable;
  k ← get;
  _ ← (if negb (cur =? idle_thread k) then modify (fun k => set_ready (ready_list k ++ [cur]) k) else mret tt);
  _ ← upd_thread cur (set_status THREAD_READY);
  schedule.

Definition thread_tick : TM unit :=
  t ← thread_current; th ← get_thread t;
  _ ← modify (fun k => let c := the_clock k in
        set_clock (if t =? idle_thread k then
                     Clock (ticks c) (thread_ticks c) (idle_ticks c + 1) (kernel_ticks c) (user_ticks c)
                   else if negb (pagedir th =? NULL) then
                     Clock (ticks c) (thread_ticks c) (idle_ticks c) (kernel_ticks c) (user_ticks c + 1)
                   else Clock (ticks c) (thread_ticks c) (idle_ticks c) (kernel_ticks c + 1) (user_ticks c)) k);
  _ ← modify (fun k => let c := the_clock k in
        set_clock (Clock (ticks c) (thread_ticks c +u 1) (idle_ticks c) (kernel_ticks c) (user_ticks c)) k);
  c ← gets the_clock;
  if TIME_SLICE <=? thread_ticks c then intr_yield_on_return else mret tt.

(** ** Specification *)
Definition st (k : kst) (t : Z) : option thread_status := status <$> threads k !! t.
(** Everything the scheduler does not touch: the threads up to their status, the
    semaphores, locks and condition variables, and the tables. *)
Record same_rest (k k' : kst) : Prop := SameRest {
  sr_threads : forall t, set_status THREAD_READY <$> threads k' !! t = set_status THREAD_READY <$> threads k !! t;
  sr_semas : semas k' = semas k;
  sr_holders : holders k' = holders k;
  sr_conds : conds k' = conds k;
  sr_all : all_list k' = all_list k;
  sr_wait : wait_list k' = wait_list k;
  sr_idle : idle_thread k' = idle_thread k;
  sr_initial : initial_thread k' = initial_thread k;
  sr_tid : next_tid k' = next_tid k;
  sr_fds : fd_table k' = fd_table k;
  sr_base : base_page_dir k' = base_page_dir k;
  sr_ctx : in_external_intr (the_cpu k') = in_external_intr (the_cpu k);
}.
(** The ready list holds exactly the ready threads other than the idle thread, once
    each; at most the running thread has status running. *)
Record sched_ok (k : kst) : Prop := SchedOk {
  so_ctx : in_external_intr (the_cpu k) = false;
  so_nodup : NoDup (ready_list k);
  so_ready : forall t, t ∈ ready_list k -> st k t = Some THREAD_READY /\ t <> idle_thread k;
  so_status : forall t, st k t = Some THREAD_READY -> t ∈ ready_list k \/ t = idle_thread k;
  so_unique : forall t, st k t = Some THREAD_RUNNING -> t = running k;
  so_idle : is_Some (threads k !! idle_thread k);
  so_null : threads k !! NULL = None;
  so_base : kpage (base_page_dir k);
  so_pd : forall t th, threads k !! t = Some th -> pagedir th = NULL \/ kpage (pagedir th);
}.
Record sched_inv (k : kst) : Prop := SchedInv {
  si_ok : sched_ok k;
  si_running : st k (running k) = Some THREAD_RUNNING;
}.
(** The next thread in line. *)
Definition next_up (k : kst) : Z := hd (idle_thread k) (ready_list k).

Lemma same_rest_refl k : same_rest k k.
Proof. by split. Qed.
Lemma same_rest_trans k1 k2 k3 : same_rest k1 k2 -> same_rest k2 k3 -> same_rest k1 k3.
Proof. intros [] []. split; congruence. Qed.
Lemma sr_thread k k' t th : same_rest k k' -> threads k !! t = Some th ->
  exists th', threads k' !! t = Some th' /\ set_status THREAD_READY th' = set_status THREAD_READY th.
Proof.
  intros Hs E. pose proof (sr_threads _ _ Hs t) as H. rewrite E in H.
  destruct (threads k' !! t) as [th'|]; [|done]. exists th'. split; [done|]. simpl in H. congruence.
Qed.

Lemma get_thread_spec k t th (Q : thread -> kst -> Prop) : threads k !! t = Some th -> Q th k -> mwp (get_thread t) k Q.
Proof. intros E H. unfold get_thread. wp_step. wp_step. wp_step. by rewrite E. Qed.
Lemma upd_thread_spec k t th f (Q : unit -> kst -> Prop) : threads k !! t = Some th ->
  Q tt (set_threads (<[t := f th]> (threads k)) k) -> mwp (upd_thread t f) k Q.
Proof. intros E H. unfold upd_thread. wp_step. eapply get_thread_spec; [done|]. by wp_step. Qed.
Lemma st_thread k t s : st k t = Some s -> exists th, threads k !! t = Some th /\ status th = s.
Proof. unfold st. destruct (threads k !! t) as [th|]; [|done]. intros [= <-]. eauto. Qed.
Lemma thread_current_spec k (Q : Z -> kst -> Prop) : st k (running k) = Some THREAD_RUNNING ->
  Q (running k) k -> mwp thread_current k Q.
Proof.
  intros (th & E & Es)%st_thread HQ. unfold thread_current, running_thread, is_thread.
  wp_step. wp_step. wp_step. wp_step. wp_step. wp_step; [apply bool_decide_eq_true_2; by eexists|].
  wp_step. eapply get_thread_spec; [done|]. wp_step. wp_step; [by apply bool_decide_eq_true_2|]. by wp_step.
Qed.
Lemma is_thread_spec k t (Q : bool -> kst -> Prop) : is_Some (threads k !! t) -> Q true k -> mwp (is_thread t) k Q.
Proof. intros H HQ. unfold is_thread. wp_step. by rewrite bool_decide_eq_true_2. Qed.

Lemma process_activate_spec k (Q : unit -> kst -> Prop) : st k (running k) = Some THREAD_RUNNING ->
  kpage (base_page_dir k) ->
  (forall th, threads k !! running k = Some th -> pagedir th = NULL \/ kpage (pagedir th)) ->
  (forall m e, kernel_pool m = kernel_pool (mem k) -> user_pool m = user_pool (mem k) -> frames m = frames (mem k) ->
     let c := the_cpu k in
     Q tt (set_cpu (Cpu (intr_on c) (in_external_intr c) (yield_on_return c) e) (set_mem m k))) ->
  mwp process_activate k Q.
Proof.
  intros Hr Hb Hpd HQ. unfold process_activate. wp_step. apply thread_current_spec; [done|].
  destruct (st_thread _ _ _ Hr) as (th & E & _). wp_step. eapply get_thread_spec; [done|]. wp_step. wp_step. wp_step.
  unfold in_mem, mwp, pagedir_activate, tss_update, running_thread.
  assert (Hk : kpage (if pagedir th =? NULL then base_page_dir k else pagedir th)).
  { destruct (Hpd th E) as [->|Hk]; [done|]. by destruct (pagedir th =? NULL). }
  cbv beta iota zeta delta [mbind M_bind lift modify gets].
  rewrite kpage_vtop by done. cbn. by apply HQ.
Qed.
Lemma lookup_upd_status k t th s x : threads k !! t = Some th ->
  status <$> (<[t := set_status s th]> (threads k)) !! x = if decide (x = t) then Some s else st k x.
Proof.
  intros E. destruct (decide (x = t)) as [->|Hne]; [by rewrite lookup_insert_eq|].
  by rewrite lookup_insert_ne.
Qed.
Lemma upd_status_same k t th s x : threads k !! t = Some th ->
  set_status THREAD_READY <$> (<[t := set_status s th]> (threads k)) !! x = set_status THREAD_READY <$> threads k !! x.
Proof.
  intros E. destruct (decide (x = t)) as [->|Hne]; [by rewrite lookup_insert_eq, E|].
  by rewrite lookup_insert_ne.
Qed.
Lemma upd_status_pd k t th s : threads k !! t = Some th ->
  (forall x thx, threads k !! x = Some thx -> pagedir thx = NULL \/ kpage (pagedir thx)) ->
  forall x thx, <[t := set_status s th]> (threads k) !! x = Some thx -> pagedir thx = NULL \/ kpage (pagedir thx).
Proof.
  intros E H x thx. destruct (decide (x = t)) as [->|Hne].
  - rewrite lookup_insert_eq. intros [= <-]. by apply (H t th).
  - rewrite lookup_insert_ne by done. apply H.
Qed.

(** The thread that runs after [schedule]: the head of the ready list, or the idle
    thread; nothing else changes but its status. *)
Lemma schedule_spec k s (Q : unit -> kst -> Prop) : sched_ok k -> intr_on (the_cpu k) = false ->
  st k (running k) = Some s -> s <> THREAD_RUNNING -> s <> THREAD_DYING ->
  (forall k', running k' = next_up k -> ready_list k' = tail (ready_list k) ->
     (forall t, st k' t = if decide (t = next_up k) then Some THREAD_RUNNING else st k t) ->
     same_rest k k' -> intr_on (the_cpu k') = false -> ticks (the_clock k') = ticks (the_clock k) ->
     frames (mem k') = frames (mem k) -> kernel_pool (mem k') = kernel_pool (mem k) ->
     user_pool (mem k') = user_pool (mem k) -> sched_inv k' -> Q tt k') ->
  mwp schedule k Q.
Proof.
  intros [Hctx Hnd Hready Hstat Huniq Hidle Hnull Hbase Hpd] Hi Hs Hs1 Hs2 HQ.
  destruct (st_thread _ _ _ Hs) as (ct & Ec & Esc).
  set (k1 := set_ready (tail (ready_list k)) k).
  assert (Hn : exists nt, threads k !! next_up k = Some nt).
  { unfold next_up. destruct (ready_list k) as [|t rest] eqn:E; [by destruct Hidle; eauto|].
    destruct (Hready t) as [Ht _]; [left|]. apply st_thread in Ht as (nt & ? & _). by exists nt. }
  destruct Hn as [nt Ent].
  unfold schedule, running_thread. wp_step. wp_step. wp_step.
  apply (mwp_mono _ _ (fun n k' => n = next_up k /\ k' = k1)).
  { unfold next_thread_to_run, next_up, k1. wp_step. wp_step. destruct (ready_list k) as [|t rest] eqn:E.
    - wp_step. split; [done|]. cbn. rewrite <- E. by destruct k.
    - wp_step. wp_step. by wp_step. }
  intros n k' [-> ->]. unfold intr_get_level. wp_step. wp_step. wp_step. wp_step; [cbn; by rewrite Hi|].
  wp_step. eapply get_thread_spec; [exact Ec|]. wp_step. wp_step.
  { apply negb_true_iff, bool_decide_eq_false_2. by rewrite Esc. }
  wp_step. apply is_thread_spec; [by exists nt|]. wp_step. wp_step; [done|].
  (* the state in which the switch is completed *)
  set (k2 := set_running (next_up k) k1).
  assert (Htail : forall prev, (prev = NULL \/ (prev = running k /\ prev <> next_up k)) -> mwp (thread_schedule_tail prev) k2 Q).
  { intros prev Hprev. unfold thread_schedule_tail, running_thread. wp_step. wp_step. wp_step.
    unfold intr_get_level. wp_step. wp_step. wp_step; [cbn; by rewrite Hi|].
    wp_step. eapply upd_thread_spec; [exact Ent|]. wp_step. wp_step. wp_step.
    apply process_activate_spec.
    - unfold st. cbn. by rewrite lookup_insert_eq.
    - exact Hbase.
    - intros th. cbn. rewrite lookup_insert_eq. intros [= <-]. by apply (Hpd (next_up k) nt).
    - intros m e Hm1 Hm2 Hm3. cbn.
      match goal with |- mwp _ ?k3 Q => set (kf := k3) end.
      assert (Hst : forall t, st kf t = if decide (t = next_up k) then Some THREAD_RUNNING else st k t).
      { intros t. unfold st. cbn. by apply (lookup_upd_status k). }
      assert (Hsr : same_rest k kf).
      { split; cbn; try done. intros t. by apply (upd_status_same k). }
      assert (Hinv : sched_inv kf).
      { split; [|by rewrite Hst, decide_True]. split; cbn.
        - done.
        - destruct (ready_list k); [done|]. by apply list.NoDup_cons in Hnd as [_ ?].
        - intros t Ht. assert (Ht' : t ∈ ready_list k) by (destruct (ready_list k); [done|by right]).
          destruct (Hready t Ht') as [? ?]. split; [|done]. rewrite Hst, decide_False; [done|].
          unfold next_up. intros ->. destruct (ready_list k) as [|t0 rest]; [by apply not_elem_of_nil in Ht|].
          apply list.NoDup_cons in Hnd as [? _]. done.
        - intros t. rewrite Hst. case_decide as En; [done|]. intros Hr. destruct (Hstat t Hr) as [Hin|?]; [|by right].
          left. unfold next_up in En. destruct (ready_list k) as [|t0 rest]; [done|].
          apply elem_of_cons in Hin as [->|Hin]; [done|exact Hin].
        - intros t. rewrite Hst. case_decide; [done|]. intros Hr. pose proof (Huniq t Hr) as ->. congruence.
        - destruct (decide (idle_thread k = next_up k)) as [->|]; [rewrite lookup_insert_eq; by eexists|].
          by rewrite lookup_insert_ne.
        - rewrite lookup_insert_ne; [done|]. intros E. rewrite E in Ent. congruence.
        - done.
        - by apply (upd_status_pd k). }
      assert (HQf : Q tt kf) by (by apply HQ).
      destruct Hprev as [->|[-> Hpn]]; [rewrite Z.eqb_refl; cbn [negb]; by wp_step|].
      rewrite (proj2 (Z.eqb_neq (running k) NULL)) by (intros E; rewrite E in Ec; congruence). cbn [negb].
      wp_step. eapply get_thread_spec; [cbn; by rewrite lookup_insert_ne|]. wp_step. wp_step.
      rewrite bool_decide_eq_false_2 by congruence. cbn [andb]. by wp_step. }
  destruct (Z.eqb_spec (running k) (next_up k)) as [E|E]; cbn [negb].
  - replace k1 with k2; [by apply Htail; left|]. unfold k2. rewrite <- E. unfold k1. by destruct k.
  - wp_step. wp_step. apply Htail. right. by split.
Qed.

(** Setting the status of one thread. *)
Definition with_status (t : Z) (th : thread) (s : thread_status) (k : kst) : kst :=
  set_threads (<[t := set_status s th]> (threads k)) k.
Lemma st_with_status k t th s x : threads k !! t = Some th ->
  st (with_status t th s k) x = if decide (x = t) then Some s else st k x.
Proof. apply lookup_upd_status. Qed.
Lemma with_status_rest k t th s : threads k !! t = Some th -> same_rest k (with_status t th s k).
Proof. intros E. split; try done. intros x. by apply (upd_status_same k). Qed.
Lemma idle_upd k t th f : threads k !! t = Some th -> is_Some (threads k !! idle_thread k) ->
  is_Some (<[t := f th]> (threads k) !! idle_thread k).
Proof.
  intros E H. destruct (decide (idle_thread k = t)) as [->|]; [rewrite lookup_insert_eq; by eexists|].
  by rewrite lookup_insert_ne.
Qed.

(** What follows a thread that gave up the processor. *)
Definition switched (k : kst) (s : thread_status) (k' : kst) : Prop :=
  sched_inv k' /\ same_rest k k' /\ intr_on (the_cpu k') = false /\ ticks (the_clock k') = ticks (the_clock k) /\
  (forall t, st k' t = if decide (t = running k') then Some THREAD_RUNNING
                       else if decide (t = running k) then Some s else st k t).

Lemma thread_block_spec k (Q : unit -> kst -> Prop) : sched_inv k -> intr_on (the_cpu k) = false ->
  (forall k', switched k THREAD_BLOCKED k' -> running k' = next_up k -> ready_list k' = tail (ready_list k) -> Q tt k') ->
  mwp thread_block k Q.
Proof.
  intros [Hok Hr] Hi HQ. destruct (st_thread _ _ _ Hr) as (th & E & Es).
  pose proof Hok as [Hctx Hnd Hready Hstat Huniq Hidle Hnull Hbase Hpd].
  unfold thread_block, intr_context, intr_get_level. wp_step. wp_step. wp_step. wp_step; [by rewrite Hctx|].
  wp_step. wp_step. wp_step. wp_step; [by rewrite Hi|]. wp_step. apply thread_current_spec; [done|].
  wp_step. eapply upd_thread_spec; [exact E|]. fold (with_status (running k) th THREAD_BLOCKED k).
  set (k1 := with_status (running k) th THREAD_BLOCKED k).
  assert (Hst : forall t, st k1 t = if decide (t = running k) then Some THREAD_BLOCKED else st k t).
  { intros t. by apply st_with_status. }
  pose proof (with_status_rest k _ _ THREAD_BLOCKED E) as Hsr.
  apply (schedule_spec k1 THREAD_BLOCKED); [|exact Hi|by rewrite Hst, decide_True|done|done|].
  - split; cbn; try done.
    + intros t Ht. destruct (Hready t Ht) as [Hs ?]. split; [|done]. rewrite Hst, decide_False; [done|]. intros ->. congruence.
    + intros t. rewrite Hst. case_decide; [done|]. apply Hstat.
    + intros t. rewrite Hst. case_decide; [done|]. apply Huniq.
    + by apply idle_upd.
    + rewrite lookup_insert_ne; [done|]. intros E2. rewrite E2 in E. congruence.
    + by apply (upd_status_pd k).
  - intros k' Hru Hre Hst' Hsr' Hi' Htk _ _ _ Hinv'. apply HQ; [|exact Hru|exact Hre].
    split; [done|]. split; [by eapply same_rest_trans|]. split; [done|]. split; [exact Htk|].
    intros t. rewrite Hst', Hst, Hru. done.
Qed.

(** The ready list once the running thread has joined it. *)
Definition queue (k : kst) : list Z :=
  if decide (running k = idle_thread k) then ready_list k else ready_list k ++ [running k].
Lemma thread_yield_spec k (Q : unit -> kst -> Prop) : sched_inv k ->
  (forall k', switched k THREAD_READY k' -> running k' = hd (idle_thread k) (queue k) -> ready_list k' = tail (queue k) -> Q tt k') ->
  mwp thread_yield_body k Q.
Proof.
  intros [Hok Hr] HQ. destruct (st_thread _ _ _ Hr) as (th & E & Es).
  pose proof Hok as [Hctx Hnd Hready Hstat Huniq Hidle Hnull Hbase Hpd].
  unfold thread_yield_body, intr_context, intr_disable, intr_get_level, set_intr.
  wp_step. apply thread_current_spec; [done|]. wp_step. wp_step. wp_step. wp_step; [by rewrite Hctx|].
  wp_step. wp_step. wp_step. wp_step. wp_step. wp_step. wp_step. wp_step.
  set (k0 := set_cpu _ k). wp_step.
  apply (mwp_mono _ _ (fun _ k' => k' = set_ready (queue k) k0)).
  { unfold queue. destruct (Z.eqb_spec (running k) (idle_thread k)) as [Er|Er].
    - cbn. rewrite Er, Z.eqb_refl. cbn. rewrite decide_True by done. by destruct k.
    - cbn. rewrite (proj2 (Z.eqb_neq _ _)) by done. cbn. by rewrite decide_False. }
  intros [] k' ->. wp_step. eapply upd_thread_spec; [exact E|].
  change (set_threads _ _) with (with_status (running k) th THREAD_READY (set_ready (queue k) k0)).
  set (k1 := with_status (running k) th THREAD_READY (set_ready (queue k) k0)).
  assert (Hst : forall t, st k1 t = if decide (t = running k) then Some THREAD_READY else st k t).
  { intros t. exact (st_with_status (set_ready (queue k) k0) _ _ _ t E). }
  assert (Hsr : same_rest k k1).
  { split; try done. intros x. exact (upd_status_same k _ _ THREAD_READY x E). }
  assert (Hrn : running k ∉ ready_list k) by (intros Hin; destruct (Hready _ Hin); congruence).
  assert (Hq : forall t, t ∈ queue k <-> t ∈ ready_list k \/ (t = running k /\ running k <> idle_thread k)).
  { intros t. unfold queue. case_decide; [tauto|]. rewrite elem_of_app, list_elem_of_singleton. tauto. }
  apply (schedule_spec k1 THREAD_READY); [|done|by rewrite Hst, decide_True|done|done|].
  - split; cbn; try done.
    + unfold queue. case_decide; [done|]. apply list.NoDup_app. split; [done|]. split; [|apply NoDup_singleton].
      intros x Hx ->%list_elem_of_singleton. done.
    + intros t Ht%Hq. rewrite Hst. case_decide as Et; [subst t; split; [done|tauto]|].
      destruct Ht as [Ht|[? _]]; [by apply Hready|done].
    + intros t. rewrite Hst. intros Ht. rewrite Hq. case_decide as Et; [subst t|].
      * destruct (decide (running k = idle_thread k)); tauto.
      * destruct (Hstat t Ht); tauto.
    + intros t. rewrite Hst. case_decide; [done|]. apply Huniq.
    + exact (idle_upd k _ _ (set_status THREAD_READY) E Hidle).
    + rewrite lookup_insert_ne; [done|]. intros E2. rewrite E2 in E. congruence.
    + exact (upd_status_pd k _ _ THREAD_READY E Hpd).
  - intros k' Hru Hre Hst' Hsr' Hi' Htk _ _ _ Hinv'. apply HQ; [|exact Hru|exact Hre].
    split; [done|]. split; [by eapply same_rest_trans|]. split; [done|]. split; [exact Htk|].
    intros t. rewrite Hst', Hst, Hru. done.
Qed.

Definition with_intr (b : bool) (k : kst) : kst :=
  let c := the_cpu k in set_cpu (Cpu b (in_external_intr c) (yield_on_return c) (esp0 c)) k.
Lemma atomically_spec {A} (m : TM A) k (Q : A -> kst -> Prop) : in_external_intr (the_cpu k) = false ->
  mwp m (with_intr false k) (fun r k' =>
    in_external_intr (the_cpu k') = false /\ Q r (with_intr (intr_on (the_cpu k)) k')) ->
  mwp (atomically m) k Q.
Proof.
  intros Hc H. unfold atomically. wp_step. unfold intr_disable, intr_get_level, set_intr.
  wp_step. wp_step. wp_step. wp_step. wp_step. wp_step. eapply mwp_mono; [exact H|]. intros r k' [Hc' HQ].
  wp_step. destruct (intr_on (the_cpu k)); cbn [intr_set_level].
  - unfold intr_enable, intr_get_level, intr_context, set_intr.
    wp_step. wp_step. wp_step. wp_step. wp_step. wp_step; [by rewrite Hc'|]. wp_step. wp_step. wp_step. wp_step. exact HQ.
  - unfold intr_disable, intr_get_level, set_intr. wp_step. wp_step. wp_step. wp_step. wp_step. wp_step. exact HQ.
Qed.
Lemma with_intr_twice b b' k : with_intr b (with_intr b' k) = with_intr b k.
Proof. by destruct k as [? ? ? ? ? ? ? ? ? ? ? [? ? ? ?]]. Qed.
Lemma with_intr_same k : with_intr (intr_on (the_cpu k)) k = k.
Proof. by destruct k as [? ? ? ? ? ? ? ? ? ? ? [? ? ? ?]]. Qed.
Lemma sched_ok_intr b k : sched_ok k -> sched_ok (with_intr b k).
Proof. intros []. by split. Qed.
Lemma same_rest_intr b k : same_rest k (with_intr b k).
Proof. by split. Qed.

Lemma thread_unblock_spec k t (Q : unit -> kst -> Prop) : sched_ok k -> st k t = Some THREAD_BLOCKED ->
  t <> idle_thread k ->
  (forall k', sched_ok k' -> same_rest k k' -> ready_list k' = ready_list k ++ [t] -> running k' = running k ->
     the_cpu k' = the_cpu k -> the_clock k' = the_clock k -> mem k' = mem k ->
     (forall x, st k' x = if decide (x = t) then Some THREAD_READY else st k x) -> Q tt k') ->
  mwp (thread_unblock t) k Q.
Proof.
  intros Hok Hb Hid HQ. destruct (st_thread _ _ _ Hb) as (th & E & Es).
  pose proof Hok as [Hctx Hnd Hready Hstat Huniq Hidle Hnull Hbase Hpd].
  unfold thread_unblock. wp_step. apply is_thread_spec; [by exists th|]. wp_step. wp_step; [done|].
  apply atomically_spec; [done|]. wp_step. eapply get_thread_spec; [exact E|]. wp_step. wp_step; [by apply bool_decide_eq_true_2|].
  wp_step. wp_step. eapply upd_thread_spec; [exact E|]. split; [done|].
  set (kf := set_threads (<[t := set_status THREAD_READY th]> (threads k)) (set_ready (ready_list k ++ [t]) k)).
  match goal with |- Q tt ?x => replace x with kf end.
  2:{ unfold kf. by destruct k as [? ? ? ? ? ? ? ? ? ? ? [? ? ? ?]]. }
  assert (Hst : forall x, st kf x = if decide (x = t) then Some THREAD_READY else st k x).
  { intros x. by apply (lookup_upd_status k). }
  assert (Htn : t ∉ ready_list k) by (intros Hin; destruct (Hready _ Hin); congruence).
  apply HQ; try done.
  - split; cbn; try done.
    + apply list.NoDup_app. split; [done|]. split; [|apply NoDup_singleton].
      intros x Hx ->%list_elem_of_singleton. done.
    + intros x. rewrite elem_of_app, list_elem_of_singleton, Hst. intros [Hx|Hx]; case_decide; subst; try done.
      by apply Hready.
    + intros x. rewrite Hst, elem_of_app, list_elem_of_singleton. case_decide; [tauto|]. intros Hx.
      destruct (Hstat x Hx); tauto.
    + intros x. rewrite Hst. case_decide; [done|]. apply Huniq.
    + exact (idle_upd k _ _ (set_status THREAD_READY) E Hidle).
    + rewrite lookup_insert_ne; [done|]. intros E2. rewrite E2 in E. congruence.
    + exact (upd_status_pd k _ _ THREAD_READY E Hpd).
  - split; try done. intros x. exact (upd_status_same k _ _ THREAD_READY x E).
Qed.

(** ** Round robin *)
Fixpoint yields (n : nat) : TM unit :=
  match n with O => mret tt | S n' => _ ← thread_yield_body; yields n' end.

(** C25. The scheduler is a fair round robin: a thread that is [n] places behind the
    head of the ready list runs after [n + 1] yields (forced or not), whichever
    threads do the yielding, and every step keeps the scheduler's invariant. *)
Theorem round_robin k n t : sched_inv k -> ready_list k !! n = Some t ->
  mwp (yields (S n)) k (fun _ k' => running k' = t /\ sched_inv k').
Proof.
  revert k. induction n as [|n IH]; intros k Hk Ht; cbn [yields]; wp_step; apply thread_yield_spec; try done;
    intros k' (Hinv & _) Hru Hre.
  - wp_step. split; [|done]. rewrite Hru. unfold queue. destruct (ready_list k) as [|r rest]; [done|].
    simpl in Ht. injection Ht as ->. by case_decide.
  - apply IH; [done|]. rewrite Hre. unfold queue. destruct (ready_list k) as [|r rest]; [done|].
    simpl in Ht. case_decide; [done|]. cbn. by rewrite lookup_app_l by (by eapply lookup_lt_Some).
Qed.

(** *** A concrete state *)
Definition kpage_ok (p : Z) : bool := (PHYS_BASE <=? p) && (p <? 2 ^ 32) && (p mod 4096 =? 0).
Definition thread_ok (k : kst) (x : Z * thread) : bool :=
  let '(t, th) := x in
  match status th with
  | THREAD_READY => bool_decide (t ∈ ready_list k \/ t = idle_thread k)
  | THREAD_RUNNING => t =? running k
  | _ => true
  end && ((pagedir th =? NULL) || kpage_ok (pagedir th)).
Definition sched_check (k : kst) : bool :=
  negb (in_external_intr (the_cpu k)) && bool_decide (NoDup (ready_list k)) &&
  forallb (fun t => bool_decide (st k t = Some THREAD_READY /\ t <> idle_thread k)) (ready_list k) &&
  forallb (thread_ok k) (map_to_list (threads k)) &&
  bool_decide (is_Some (threads k !! idle_thread k)) && bool_decide (threads k !! NULL = None) &&
  kpage_ok (base_page_dir k) && bool_decide (st k (running k) = Some THREAD_RUNNING).
Lemma kpage_ok_sound p : kpage_ok p = true -> kpage p.
Proof. unfold kpage_ok, kpage. rewrite !andb_true_iff, Z.leb_le, Z.ltb_lt, Z.eqb_eq. tauto. Qed.
Lemma sched_check_sound k : sched_check k = true -> sched_inv k.
Proof.
  unfold sched_check. rewrite !andb_true_iff, !bool_decide_eq_true, negb_true_iff, !forallb_forall.
  intros (((((((H1 & H2) & H3) & H4) & H5) & H6) & H7) & H8).
  assert (Hth : forall t th, threads k !! t = Some th -> thread_ok k (t, th) = true).
  { intros t th E. apply H4, list_elem_of_In, elem_of_map_to_list. done. }
  split; [|done]. split; try done.
  - intros t Ht%list_elem_of_In. by apply H3, bool_decide_eq_true in Ht.
  - intros t (th & E & Es)%st_thread. apply Hth in E. unfold thread_ok in E. rewrite Es in E.
    apply andb_true_iff in E as [E _]. by apply bool_decide_eq_true in E.
  - intros t (th & E & Es)%st_thread. apply Hth in E. unfold thread_ok in E. rewrite Es in E.
    apply andb_true_iff in E as [E _]. by apply Z.eqb_eq in E.
  - by apply kpage_ok_sound.
  - intros t th E. apply Hth in E. unfold thread_ok in E. apply andb_true_iff in E as [_ E].
    apply orb_true_iff in E as [E|E]; [left; by apply Z.eqb_eq|right; by apply kpage_ok_sound].
Qed.
Definition ex_thread (n : Z) (s : thread_status) : thread :=
  Thread n s [] 0 PRI_DEFAULT (replicate 16 (Marker 0 0 [] 0 0 0)) 0 0 0 0 NULL (replicate 128 0) NULL NULL.
(** The idle thread at 4096, a running thread and two ready ones. *)
Definition ex_kst : kst :=
  Kst {[4096 := ex_thread 1 THREAD_BLOCKED; 8192 := ex_thread 2 THREAD_RUNNING;
        12288 := ex_thread 3 THREAD_READY; 16384 := ex_thread 4 THREAD_READY]}
    [12288; 16384] [4096; 8192; 12288; 16384] [] 4096 8192 8192
    {[Sema 100 := Semaphore 0 []; LockSema 1 := Semaphore 1 []; LockSema 2 := Semaphore 1 []]} ∅ {[50 := []]}
    (Clock 10 0 0 0 0) (Cpu true false false 0) 5 (replicate 128 0) ex_paged 0xc0103000 0x40000.
Lemma ex_kst_inv : sched_inv ex_kst.
Proof. apply sched_check_sound. vm_compute. reflexivity. Qed.
Lemma round_robin_witness : mwp (yields 2) ex_kst (fun _ k' => running k' = 16384 /\ sched_inv k').
Proof. apply (round_robin ex_kst 1 16384); [exact ex_kst_inv|reflexivity]. Defined.
