(* ===== verification/Synch.v ===== *)
(** * Synch: threads/synch.c

    A function of synch.c that may sleep is a sequence of steps, and other
    threads run between its steps: each [instr] is a part of the code that runs
    with interrupts off, or a single load or store of what threads share.  The waiting
    list of a condition is changed with interrupts on: reading it ([LINK], [UNLINK]) and
    writing it ([STORE]) are steps of their own, so what another thread writes between
    them is lost.  [exec] is what a step does to the
    kernel's state; its result is the code the thread goes on with before the
    rest.  A thread that sleeps in [sema_down] comes back to the test of the
    [while] loop: that is the step [RETRY].  [step] is the machine: the running
    thread executes its next step, or, when interrupts are on, is preempted. *)
From S2P Require Import Prelude.
From S2P Require Import Vaddr.
From S2P Require Import Palloc.
From S2P Require Import Sched.

Inductive instr : Type :=
  | DOWN (s : sema_at)                    (* sema_down *)
  | RETRY (s : sema_at) (old_level : bool) (* sema_down, after thread_block *)
  | UP (s : sema_at)                      (* sema_up *)
  | CHECK (l : Z)                         (* the assertions of lock_acquire *)
  | HOLD (l : Z)                          (* lock->holder = thread_current () *)
  | CLEAR (l : Z)                         (* lock_release up to sema_up *)
  | WAIT (c l : Z)                        (* the assertions of cond_wait, sema_init *)
  | LINK (c : Z)                          (* list_push_back: reads the list *)
  | SIGNAL (c l : Z)                      (* the assertions of cond_signal *)
  | UNLINK (c : Z)                        (* list_empty, list_pop_front: reads the list *)
  | STORE (c : Z) (ws : list Z)           (* list_push_back, list_pop_front: writes it *)
  | BROADCAST (c l : Z)                   (* list_empty of cond_broadcast *)
  | SETLEVEL (b : bool)                   (* intr_set_level *)
  | YIELD                                 (* thread_yield *)
  | IDLE.                                 (* the loop of idle *)

(** ** Semaphores *)
Definition get_sema (s : sema_at) : TM semaphore := k ← get; lift (deref (semas k !! s)).
Definition set_sema (s : sema_at) (x : semaphore) : TM unit := modify (fun k => set_semas (<[s := x]> (semas k)) k).
Definition sema_init (s : sema_at) (v : Z) : TM unit := set_sema s (Semaphore v []).
(** The loop and the decrement of [sema_down]: false when the thread went to sleep. *)
Definition down_loop (s : sema_at) (old_level : bool) : TM bool :=
  x ← get_sema s;
  if value x =? 0 then
    t ← thread_current;
    _ ← set_sema s (Semaphore (value x) (waiters x ++ [t]));
    _ ← thread_block; mret false
  else
    _ ← set_sema s (Semaphore (value x -u 1) (waiters x));
    _ ← intr_set_level old_level; mret true.
Definition sema_try_down (s : sema_at) : TM bool :=
  atomically (
    x ← get_sema s;
    if 0 <? value x then _ ← set_sema s (Semaphore (value x -u 1) (waiters x)); mret true
    else mret false).
Definition sema_up (s : sema_at) : TM unit :=
  atomically (
    x ← get_sema s;
    _ ← (match waiters x with
         | [] => mret tt
         | t :: ws => _ ← set_sema s (Semaphore (value x) ws); thread_unblock t
         end);
    x ← get_sema s; set_sema s (Semaphore (value x +u 1) (waiters x))).

(** ** Locks and condition variables *)
Definition lock_held_by_current_thread (l : Z) : TM bool :=
  t ← thread_current; k ← get; mret (bool_decide (holders k !! l = Some t)).
Definition lock_init (l : Z) : TM unit :=
  _ ← modify (fun k => set_holders (delete l (holders k)) k); sema_init (LockSema l) 1.
Definition lock_try_acquire (l : Z) : TM bool :=
  h ← lock_held_by_current_thread l; _ ← assert (negb h);
  success ← sema_try_down (LockSema l);
  if (success : bool) then
    t ← thread_current; _ ← modify (fun k => set_holders (<[l := t]> (holders k)) k); mret true
  else mret false.
Definition cond_init (c : Z) : TM unit := modify (fun k => set_conds (<[c := []]> (conds k)) k).
Definition get_cond (c : Z) : TM (list Z) := k ← get; lift (deref (conds k !! c)).
Definition not_interrupt : TM unit := c ← intr_context; assert (negb c).
Definition assert_held (l : Z) : TM unit := h ← lock_held_by_current_thread l; assert h.

Definition sema_down (s : sema_at) : list instr := [DOWN s].
Definition lock_acquire (l : Z) : list instr := CHECK l :: sema_down (LockSema l) ++ [HOLD l].
Definition lock_release (l : Z) : list instr := [CLEAR l; UP (LockSema l)].
Definition cond_wait (c l : Z) : list instr := [WAIT c l].
Definition cond_signal (c l : Z) : list instr := [SIGNAL c l].
Definition cond_broadcast (c l : Z) : list instr := [BROADCAST c l].

Definition exec (i : instr) : TM (list instr) :=
  match i with
  | DOWN s =>
      _ ← not_interrupt; old_level ← intr_disable;
      b ← down_loop s old_level; mret (if (b : bool) then [] else [RETRY s old_level])
  | RETRY s old_level => b ← down_loop s old_level; mret (if (b : bool) then [] else [RETRY s old_level])
  | UP s => _ ← sema_up s; mret []
  | CHECK l => _ ← not_interrupt; h ← lock_held_by_current_thread l; _ ← assert (negb h); mret []
  | HOLD l => t ← thread_current; _ ← modify (fun k => set_holders (<[l := t]> (holders k)) k); mret []
  | CLEAR l => _ ← assert_held l; _ ← modify (fun k => set_holders (delete l (holders k)) k); mret []
  | WAIT c l =>
      _ ← not_interrupt; _ ← assert_held l;
      t ← thread_current; _ ← sema_init (WaiterSema t) 0;
      mret (LINK c :: lock_release l ++ sema_down (WaiterSema t) ++ lock_acquire l)
  | LINK c => t ← thread_current; ws ← get_cond c; mret [STORE c (ws ++ [t])]
  | SIGNAL c l => _ ← not_interrupt; _ ← assert_held l; mret [UNLINK c]
  | UNLINK c =>
      ws ← get_cond c;
      mret (match ws with [] => [] | t :: ws' => [STORE c ws'; UP (WaiterSema t)] end)
  | STORE c ws => _ ← modify (fun k => set_conds (<[c := ws]> (conds k)) k); mret []
  | BROADCAST c l =>
      ws ← get_cond c;
      mret (match ws with [] => [] | _ => cond_signal c l ++ cond_broadcast c l end)
  | SETLEVEL b => _ ← intr_set_level b; mret []
  | YIELD => old_level ← intr_get_level; _ ← thread_yield_body; mret [SETLEVEL old_level]
  | IDLE => _ ← intr_disable; _ ← thread_block; mret [SETLEVEL true; IDLE]
  end.

(** Code run by one thread that nothing interrupts; a thread that goes to sleep does
    not come back ([Hang]). *)
Fixpoint run (fuel : nat) (code : list instr) : TM unit :=
  match fuel, code with
  | _, [] => mret tt
  | O, _ => hang
  | S fuel', i :: rest =>
      more ← exec i;
      match more with RETRY _ _ :: _ => hang | _ => run fuel' (more ++ rest) end
  end.

(** ** The machine *)
Abbreviation codes := (gmap Z (list instr)).
Inductive step : kst * codes -> kst * codes -> Prop :=
  | step_exec k code i rest more k' :
      code !! running k = Some (i :: rest) -> exec i k = Ok (more, k') ->
      step (k, code) (k', <[running k := more ++ rest]> code)
  | step_preempt k code c k' :
      intr_on (the_cpu k) = true -> code !! running k = Some c -> thread_yield_body k = Ok (tt, k') ->
      step (k, code) (k', <[running k := SETLEVEL true :: c]> code).
Inductive reachable (m : kst * codes) : kst * codes -> Prop :=
  | reach_here : reachable m m
  | reach_step m1 m2 : reachable m m1 -> step m1 m2 -> reachable m m2.

(** The client code: any sequence of whole calls. *)
Inductive call : Type :=
  | Acquire (l : Z) | Release (l : Z) | Other (i : instr).
Definition call_code (c : call) : list instr :=
  match c with Acquire l => lock_acquire l | Release l => lock_release l | Other i => [i] end.
Definition calls_code (cs : list call) : list instr := flat_map call_code cs.
(** The other steps a thread [t] may take on its own: semaphores that are not part
    of a lock, condition variables, yielding. *)
Definition plain (t : Z) (i : instr) : Prop :=
  match i with
  | DOWN (Sema _) | UP (Sema _) => True
  | DOWN (WaiterSema t') => t' = t
  | WAIT _ _ | SIGNAL _ _ | BROADCAST _ _ | SETLEVEL _ | YIELD => True
  | _ => False
  end.
Definition good_call (t : Z) (c : call) : Prop := match c with Other i => plain t i | _ => True end.
Definition is_lock (s : sema_at) : bool := match s with LockSema _ => true | _ => false end.

(** The code of thread [t] at any moment: whole calls, after the rest of one. *)
Inductive coded (t : Z) : list instr -> Prop :=
  | cd_calls cs : Forall (good_call t) cs -> coded t (calls_code cs)
  | cd_down l cs : Forall (good_call t) cs -> coded t (DOWN (LockSema l) :: HOLD l :: calls_code cs)
  | cd_retry l b cs : Forall (good_call t) cs -> coded t (RETRY (LockSema l) b :: HOLD l :: calls_code cs)
  | cd_hold l cs : Forall (good_call t) cs -> coded t (HOLD l :: calls_code cs)
  | cd_up l cs : Forall (good_call t) cs -> coded t (UP (LockSema l) :: calls_code cs)
  | cd_wake w cs : Forall (good_call t) cs -> coded t (UP (WaiterSema w) :: calls_code cs)
  | cd_link c cs : Forall (good_call t) cs -> coded t (LINK c :: calls_code cs)
  | cd_unlink c cs : Forall (good_call t) cs -> coded t (UNLINK c :: calls_code cs)
  | cd_store c ws cs : Forall (good_call t) cs -> coded t (STORE c ws :: calls_code cs)
  | cd_store_up c ws w cs : Forall (good_call t) cs -> coded t (STORE c ws :: UP (WaiterSema w) :: calls_code cs)
  | cd_other s b cs : is_lock s = false -> (forall t', s = WaiterSema t' -> t' = t) ->
      Forall (good_call t) cs -> coded t (RETRY s b :: calls_code cs)
  | cd_level b c : coded t c -> (forall s b' rest, c <> RETRY s b' :: rest) -> coded t (SETLEVEL b :: c).
Inductive idle_code : list instr -> Prop :=
  | ic_idle : idle_code [IDLE]
  | ic_level b c : idle_code c -> idle_code (SETLEVEL b :: c).

(** The lock a thread has taken without being its holder yet, or any more. *)
Fixpoint between (c : list instr) : option Z :=
  match c with
  | SETLEVEL _ :: c' => between c'
  | HOLD l :: _ | UP (LockSema l) :: _ => Some l
  | _ => None
  end.
Definition owns (k : kst) (code : codes) (t l : Z) : Prop :=
  holders k !! l = Some t \/ (code !! t ≫= between) = Some l.
(** A thread that was woken up and is about to test the semaphore again. *)
Definition woken (k : kst) (code : codes) (s : sema_at) (t : Z) : Prop :=
  (exists b rest, code !! t = Some (RETRY s b :: rest)) /\ st k t <> Some THREAD_BLOCKED.

(** Every thread that is not dying runs code of the shapes above, and no other. *)
Definition alive (k : kst) (t : Z) : Prop := exists s, st k t = Some s /\ s <> THREAD_DYING.
Record code_ok (k : kst) (code : codes) : Prop := CodeOk {
  co_code : forall t c, code !! t = Some c -> if decide (t = idle_thread k) then idle_code c else coded t c;
  co_alive : forall t, is_Some (code !! t) <-> alive k t;
  co_idle : is_Some (code !! idle_thread k);
}.
(** A lock's semaphore is 1 when nobody owns the lock and 0 when exactly one thread does. *)
Record lock_ok (k : kst) (code : codes) : Prop := LockOk {
  lo_value : forall l x, semas k !! LockSema l = Some x ->
    (value x = 1 /\ forall t, ~ owns k code t l) \/
    (value x = 0 /\ exists t, owns k code t l /\ forall t', owns k code t' l -> t' = t);
  lo_between : forall t l, (code !! t ≫= between) = Some l ->
    holders k !! l = None /\ is_Some (semas k !! LockSema l);
  lo_held : forall t l, holders k !! l = Some t -> is_Some (semas k !! LockSema l);
}.
(** The waiting lists hold exactly the blocked threads, each in the loop of
    [sema_down] of that semaphore; while any thread waits, as many threads as the
    semaphore's value have been woken and will test it again. *)
Record sync_ok (k : kst) (code : codes) : Prop := SyncOk {
  sy_value : forall s x, semas k !! s = Some x -> 0 <= value x;
  sy_waiters : forall s x, semas k !! s = Some x -> NoDup (waiters x) /\
    forall t, t ∈ waiters x -> st k t = Some THREAD_BLOCKED /\ t <> idle_thread k /\
      exists b rest, code !! t = Some (RETRY s b :: rest);
  sy_blocked : forall t, st k t = Some THREAD_BLOCKED -> t = idle_thread k \/
    exists s x, semas k !! s = Some x /\ t ∈ waiters x;
  sy_woken : forall s x, semas k !! s = Some x -> waiters x <> [] ->
    exists ws, NoDup ws /\ value x <= zlen ws /\ forall w, w ∈ ws -> woken k code s w;
  sy_retry : forall t s b rest, code !! t = Some (RETRY s b :: rest) -> is_Some (semas k !! s);
}.
Record mach_inv (k : kst) (code : codes) : Prop := MachInv {
  mi_sched : sched_inv k;
  mi_code : code_ok k code;
  mi_lock : lock_ok k code;
  mi_sync : sync_ok k code;
  mi_intr : forall s b rest, code !! running k = Some (RETRY s b :: rest) -> intr_on (the_cpu k) = false;
}.

(** ** Shapes of code *)
Definition retrying (c : list instr) : Prop := exists s b rest, c = RETRY s b :: rest.
Lemma calls_between t cs : Forall (good_call t) cs -> between (calls_code cs) = None.
Proof.
  induction 1 as [|c cs Hc _ IH]; [done|]. destruct c as [l|l|i]; [done|done|].
  destruct i as [| |s| | | | | | | | | | | |]; try done. by destruct s.
Qed.
Lemma calls_not_retrying t cs : Forall (good_call t) cs -> ~ retrying (calls_code cs).
Proof.
  intros H (s & b & rest & E). destruct H as [|c cs Hc H]; [done|]. destruct c as [l|l|i]; [done|done|].
  destruct i; done.
Qed.
(** What follows the first step of a thread's code. *)
Lemma coded_cases t i rest : coded t (i :: rest) ->
  match i with
  | DOWN s =>
      (exists l cs, s = LockSema l /\ rest = HOLD l :: calls_code cs /\ Forall (good_call t) cs) \/
      (is_lock s = false /\ (forall t', s = WaiterSema t' -> t' = t) /\
       exists cs, rest = calls_code cs /\ Forall (good_call t) cs)
  | RETRY s b =>
      (exists l cs, s = LockSema l /\ rest = HOLD l :: calls_code cs /\ Forall (good_call t) cs) \/
      (is_lock s = false /\ (forall t', s = WaiterSema t' -> t' = t) /\
       exists cs, rest = calls_code cs /\ Forall (good_call t) cs)
  | CHECK l => exists cs, rest = DOWN (LockSema l) :: HOLD l :: calls_code cs /\ Forall (good_call t) cs
  | CLEAR l => exists cs, rest = UP (LockSema l) :: calls_code cs /\ Forall (good_call t) cs
  | STORE _ _ => exists cs, (rest = calls_code cs \/ exists w, rest = UP (WaiterSema w) :: calls_code cs) /\ Forall (good_call t) cs
  | UP _ | HOLD _ | WAIT _ _ | LINK _ | SIGNAL _ _ | UNLINK _ | BROADCAST _ _ | YIELD =>
      exists cs, rest = calls_code cs /\ Forall (good_call t) cs
  | SETLEVEL b => coded t rest /\ ~ retrying rest
  | IDLE => False
  end.
Proof.
  assert (Hcalls : forall cs, Forall (good_call t) cs -> calls_code cs = i :: rest -> coded t (i :: rest) ->
    match i with
    | DOWN s =>
        (exists l cs, s = LockSema l /\ rest = HOLD l :: calls_code cs /\ Forall (good_call t) cs) \/
        (is_lock s = false /\ (forall t', s = WaiterSema t' -> t' = t) /\
         exists cs, rest = calls_code cs /\ Forall (good_call t) cs)
    | RETRY s b => False
    | CHECK l => exists cs, rest = DOWN (LockSema l) :: HOLD l :: calls_code cs /\ Forall (good_call t) cs
    | CLEAR l => exists cs, rest = UP (LockSema l) :: calls_code cs /\ Forall (good_call t) cs
    | HOLD _ | LINK _ | UNLINK _ | STORE _ _ => False
    | UP _ | WAIT _ _ | SIGNAL _ _ | BROADCAST _ _ | YIELD => exists cs, rest = calls_code cs /\ Forall (good_call t) cs
    | SETLEVEL b => coded t rest /\ ~ retrying rest
    | IDLE => False
    end).
  { intros cs H E _. destruct H as [|c cs Hc H]; [done|].
    destruct c as [l|l|j]; cbn in E; injection E as <- <-; [by exists cs|by exists cs|].
    destruct j as [s|s b|s|l|l|l|c l|c|c l|c|c ws|c l|b| |]; cbn in Hc; try done; try (by exists cs); try (by split; [apply cd_calls|eapply calls_not_retrying]).
    right. destruct s; try done; (split; [done|]; split; [|by exists cs]); [done|by intros t' [= ->]]. }
  intros H. inversion H as [cs Hc E|l cs Hc E|l b cs Hc E|l cs Hc E|l cs Hc E|w cs Hc E|c cs Hc E|c cs Hc E|c ws cs Hc E|c ws w cs Hc E|s b cs Hs Ho Hc E|b c Hc Hn E]; subst;
    try (by exists cs).
  - pose proof (Hcalls cs Hc E H) as HH. destruct i; try done.
  - left. by exists l, cs.
  - left. by exists l, cs.
  - exists cs. split; [by left|done].
  - exists cs. split; [right; by exists w|done].
  - right. split; [done|]. split; [done|]. by exists cs.
  - split; [done|]. intros (s & b' & rest' & ->). by eapply Hn.
Qed.
Lemma calls_app t cs cs' : Forall (good_call t) cs -> Forall (good_call t) cs' ->
  coded t (calls_code cs ++ calls_code cs').
Proof.
  intros H H'. replace (calls_code cs ++ calls_code cs') with (calls_code (cs ++ cs')).
  - apply cd_calls, Forall_app. by split.
  - unfold calls_code. by rewrite flat_map_app.
Qed.

Lemma idle_not_retrying k code s b rest : code_ok k code -> code !! idle_thread k = Some (RETRY s b :: rest) -> False.
Proof. intros [Hc _] E. apply Hc in E. rewrite decide_True in E by done. inversion E. Qed.

(** ** How a step changes the invariants *)
Section Advance.
Context (k k' : kst) (code : codes) (r : Z) (c c' : list instr).
Context (Hcode : code !! r = Some c).
Let code' := <[r := c']> code.

Lemma code_other t : t <> r -> code' !! t = code !! t.
Proof. intros. unfold code'. by rewrite lookup_insert_ne. Qed.
Lemma code_self : code' !! r = Some c'.
Proof. unfold code'. by rewrite lookup_insert_eq. Qed.

Lemma code_step : code_ok k code -> idle_thread k' = idle_thread k ->
  (forall t, alive k' t <-> alive k t) ->
  (if decide (r = idle_thread k) then idle_code c' else coded r c') -> code_ok k' code'.
Proof.
  intros [Hc Ha Hid] Hi Hst Hc'. split.
  - intros t x. rewrite Hi. destruct (decide (t = r)) as [->|Hne].
    + rewrite code_self. by intros [= <-].
    + rewrite code_other by done. apply Hc.
  - intros t. rewrite Hst, <- Ha. destruct (decide (t = r)) as [->|Hne]; [|by rewrite code_other].
    rewrite code_self, Hcode. by split; eexists.
  - rewrite Hi. destruct (decide (idle_thread k = r)) as [->|Hne]; [rewrite code_self; by eexists|].
    by rewrite code_other.
Qed.
Lemma between_step t : between c' = between c -> (code' !! t ≫= between) = (code !! t ≫= between).
Proof.
  intros E. destruct (decide (t = r)) as [->|Hne]; [by rewrite code_self, Hcode|by rewrite code_other].
Qed.
Lemma lock_frame : lock_ok k code -> holders k' = holders k ->
  (forall l, value <$> semas k' !! LockSema l = value <$> semas k !! LockSema l) ->
  between c' = between c -> lock_ok k' code'.
Proof.
  intros [Hv Hb Hh] Eh Es Eb.
  assert (Ho : forall t l, owns k' code' t l <-> owns k code t l).
  { intros t l. unfold owns. by rewrite Eh, between_step. }
  assert (Hsome : forall l, is_Some (semas k !! LockSema l) -> is_Some (semas k' !! LockSema l)).
  { intros l [x Hx]. specialize (Es l). rewrite Hx in Es. destruct (semas k' !! LockSema l); [by eexists|done]. }
  split.
  - intros l x Hx. specialize (Es l). rewrite Hx in Es. cbn in Es.
    destruct (semas k !! LockSema l) as [x0|] eqn:E0; [|done]. injection Es as Ev. rewrite Ev.
    destruct (Hv l x0 E0) as [[? Hn]|[? (t & Ht & Hu)]]; [left|right]; (split; [done|]).
    + intros t. by rewrite Ho.
    + exists t. split; [by apply Ho|]. intros t' ?%Ho. by apply Hu.
  - intros t l. rewrite between_step by done. rewrite Eh. intros H%Hb. destruct H. split; [done|]. by apply Hsome.
  - intros t l. rewrite Eh. intros H%Hh. by apply Hsome.
Qed.
(** Steps that leave the semaphores alone. *)
Lemma sync_frame : sync_ok k code -> semas k' = semas k -> idle_thread k' = idle_thread k ->
  (forall t, t <> idle_thread k -> (st k' t = Some THREAD_BLOCKED <-> st k t = Some THREAD_BLOCKED)) ->
  code_ok k code -> ~ retrying c -> ~ retrying c' -> sync_ok k' code'.
Proof.
  intros [Hv Hw Hb Hk Hr] Es Ei Hst Hco Hc Hc'.
  assert (Hcr : forall t s b rest, code' !! t = Some (RETRY s b :: rest) <-> code !! t = Some (RETRY s b :: rest)).
  { intros t s b rest. destruct (decide (t = r)) as [->|]; [|by rewrite code_other].
    rewrite code_self, Hcode. split; intros [= ->]; exfalso; [apply Hc'|apply Hc]; by repeat eexists. }
  split; rewrite ?Es, ?Ei.
  - done.
  - intros s x Hx. destruct (Hw s x Hx) as [Hnd Hws]. split; [done|]. intros t Ht.
    destruct (Hws t Ht) as (? & ? & b & rest & ?). split; [by apply Hst|]. split; [done|].
    exists b, rest. by apply Hcr.
  - intros t Ht. destruct (decide (t = idle_thread k)) as [|Hne]; [by left|]. apply Hb, Hst; done.
  - intros s x Hx Hne. destruct (Hk s x Hx Hne) as (ws & ? & ? & Hws). exists ws. split; [done|]. split; [done|].
    intros w Hw'. destruct (Hws w Hw') as [(b & rest & Hcw) Hsw]. split; [exists b, rest; by apply Hcr|].
    rewrite Hst; [done|]. intros ->. by eapply idle_not_retrying.
  - intros t s b rest H%Hcr. by eapply Hr.
Qed.
(** Steps on one semaphore [s], which holds [x'] afterwards. *)
Lemma sync_update s x x' : sync_ok k code -> code_ok k code -> st k r = Some THREAD_RUNNING ->
  semas k' = <[s := x']> (semas k) -> semas k !! s = Some x \/ (semas k !! s = None /\ waiters x = []) ->
  idle_thread k' = idle_thread k -> (forall s' b rest, c = RETRY s' b :: rest -> s' = s) -> (forall s' b rest, c' = RETRY s' b :: rest -> s' = s) ->
  (forall t, t <> r -> t <> idle_thread k -> st k t <> Some THREAD_BLOCKED -> st k' t <> Some THREAD_BLOCKED) ->
  (forall t, st k t = Some THREAD_BLOCKED -> t <> idle_thread k -> t ∈ waiters x \/ st k' t = Some THREAD_BLOCKED) ->
  0 <= value x' -> NoDup (waiters x') ->
  (forall t, t ∈ waiters x' -> st k' t = Some THREAD_BLOCKED /\ t <> idle_thread k /\
     exists b rest, code' !! t = Some (RETRY s b :: rest)) ->
  (forall t, st k' t = Some THREAD_BLOCKED -> t = idle_thread k \/ t ∈ waiters x' \/
     (st k t = Some THREAD_BLOCKED /\ t ∉ waiters x)) ->
  (waiters x' <> [] -> exists ws, NoDup ws /\ value x' <= zlen ws /\ forall w, w ∈ ws -> woken k' code' s w) ->
  sync_ok k' code'.
Proof.
  intros [Hv Hw Hb Hk Hr] Hco Hrun Es Hx Ei Hc Hc' Hst1 Hst2 Hv' Hnd' Hw' Hb' Hk'.
  assert (Hcr : forall t s' b rest, s' <> s -> code' !! t = Some (RETRY s' b :: rest) <-> code !! t = Some (RETRY s' b :: rest)).
  { intros t s' b rest Hne. destruct (decide (t = r)) as [->|]; [|by rewrite code_other].
    rewrite code_self, Hcode. split; intros [= ->]; exfalso; apply Hne; by eauto. }
  split; rewrite ?Es, ?Ei.
  - intros s' y. destruct (decide (s' = s)) as [->|]; [rewrite lookup_insert_eq; by intros [= <-]|].
    rewrite lookup_insert_ne by done. apply Hv.
  - intros s' y. destruct (decide (s' = s)) as [->|Hne]; [rewrite lookup_insert_eq; by intros [= <-]|].
    rewrite lookup_insert_ne by done. intros Hy. destruct (Hw s' y Hy) as [Hnd Hws]. split; [done|]. intros t Ht.
    destruct (Hws t Ht) as (Hbt & Hti & b & rest & Hct). split; [|split; [done|exists b, rest; by apply Hcr]].
    destruct (Hst2 t Hbt Hti) as [Htx|]; [exfalso|done].
    destruct Hx as [E0|[_ E0]]; [|rewrite E0 in Htx; by apply not_elem_of_nil in Htx].
    destruct (Hw s x E0) as [_ Hws2]. destruct (Hws2 t Htx) as (_ & _ & b2 & rest2 & Hct2). congruence.
  - intros t Ht. destruct (Hb' t Ht) as [|[|[Hbt Hn]]]; [by left|right; exists s, x'; by rewrite lookup_insert_eq|].
    destruct (Hb t Hbt) as [|(s' & y & Hy & Hty)]; [by left|right]. exists s', y. split; [|done].
    rewrite lookup_insert_ne; [done|]. intros ->. destruct Hx as [E0|[E0 _]]; [|congruence].
    assert (x = y) as <- by congruence. done.
  - intros s' y. destruct (decide (s' = s)) as [->|Hne]; [rewrite lookup_insert_eq; by intros [= <-]|].
    rewrite lookup_insert_ne by done. intros Hy Hney. destruct (Hk s' y Hy Hney) as (ws & ? & ? & Hws).
    exists ws. split; [done|]. split; [done|]. intros w Hww. destruct (Hws w Hww) as [(b & rest & Hcw) Hsw].
    split; [exists b, rest; by apply Hcr|]. apply Hst1; [| |done].
    + intros ->. apply Hne. rewrite Hcode in Hcw. injection Hcw as ->. by eapply Hc.
    + intros ->. by eapply idle_not_retrying.
  - intros t s' b rest Ht. destruct (decide (s' = s)) as [->|Hne]; [rewrite lookup_insert_eq; by eexists|].
    rewrite lookup_insert_ne by done. apply Hcr in Ht; [|done]. by eapply Hr.
Qed.
(** Steps on one lock [l]. *)
Lemma lock_update l : lock_ok k code ->
  (forall l', l' <> l -> holders k' !! l' = holders k !! l') ->
  (forall l', l' <> l -> value <$> semas k' !! LockSema l' = value <$> semas k !! LockSema l') ->
  (forall l', l' <> l -> between c <> Some l' /\ between c' <> Some l') ->
  is_Some (semas k' !! LockSema l) ->
  (forall x, semas k' !! LockSema l = Some x ->
    (value x = 1 /\ forall t, ~ owns k' code' t l) \/
    (value x = 0 /\ exists t, owns k' code' t l /\ forall t', owns k' code' t' l -> t' = t)) ->
  (forall t, (code' !! t ≫= between) = Some l -> holders k' !! l = None) -> lock_ok k' code'.
Proof.
  intros [Hv Hb Hh] Eh Es Eb Hsl Hl Hbl.
  assert (Hbt : forall t l', l' <> l -> (code' !! t ≫= between) = Some l' <-> (code !! t ≫= between) = Some l').
  { intros t l' Hne. destruct (decide (t = r)) as [->|]; [|by rewrite code_other].
    rewrite code_self, Hcode. cbn. destruct (Eb l' Hne). tauto. }
  assert (Ho : forall t l', l' <> l -> owns k' code' t l' <-> owns k code t l').
  { intros t l' Hne. unfold owns. by rewrite Eh, Hbt. }
  assert (Hsome : forall l', is_Some (semas k !! LockSema l') -> is_Some (semas k' !! LockSema l')).
  { intros l' [x Hx]. destruct (decide (l' = l)) as [->|Hne]; [done|]. specialize (Es l' Hne). rewrite Hx in Es.
    destruct (semas k' !! LockSema l'); [by eexists|done]. }
  split.
  - intros l' x Hx. destruct (decide (l' = l)) as [->|Hne]; [by apply Hl|]. specialize (Es l' Hne). rewrite Hx in Es.
    cbn in Es. destruct (semas k !! LockSema l') as [x0|] eqn:E0; [|done]. injection Es as Ev. rewrite Ev.
    destruct (Hv l' x0 E0) as [[? Hn]|[? (t & Ht & Hu)]]; [left|right]; (split; [done|]).
    + intros t. by rewrite Ho.
    + exists t. split; [by apply Ho|]. intros t' Ht'. apply Hu. by apply Ho.
  - intros t l' Ht. destruct (decide (l' = l)) as [->|Hne]; [split; [by eapply Hbl|done]|].
    apply Hbt in Ht; [|done]. destruct (Hb t l' Ht). rewrite Eh by done. split; [done|]. by apply Hsome.
  - intros t l'. destruct (decide (l' = l)) as [->|Hne]; [done|]. rewrite Eh by done. intros H%Hh. by apply Hsome.
Qed.
End Advance.

(** ** The primitives *)
Lemma sr_some k k' t : same_rest k k' -> is_Some (st k' t) -> is_Some (st k t).
Proof.
  intros Hs. pose proof (sr_threads _ _ Hs t) as E. unfold st.
  destruct (threads k' !! t), (threads k !! t); try done; by intros [].
Qed.
Lemma sched_inv_fields k k' : sched_inv k -> threads k' = threads k -> ready_list k' = ready_list k ->
  running k' = running k -> idle_thread k' = idle_thread k -> base_page_dir k' = base_page_dir k ->
  in_external_intr (the_cpu k') = in_external_intr (the_cpu k) -> sched_inv k'.
Proof.
  intros [[Hc Hn Hr Hs Hu Hi H0 Hb Hp] Hrun] Et Er Eru Ei Eb Ec. unfold st in *.
  split; [split|]; unfold st; rewrite ?Et, ?Er, ?Eru, ?Ei, ?Eb, ?Ec; done.
Qed.
Lemma not_interrupt_spec k (Q : unit -> kst -> Prop) : sched_inv k -> Q tt k -> mwp not_interrupt k Q.
Proof.
  intros Hk HQ. pose proof (so_ctx _ (si_ok _ Hk)) as Hc. unfold not_interrupt, intr_context.
  wp_step. wp_step. wp_step; [by rewrite Hc|done].
Qed.
Lemma lock_held_spec k l (Q : bool -> kst -> Prop) : sched_inv k ->
  Q (bool_decide (holders k !! l = Some (running k))) k -> mwp (lock_held_by_current_thread l) k Q.
Proof.
  intros Hk HQ. unfold lock_held_by_current_thread. wp_step. apply thread_current_spec; [apply Hk|].
  wp_step. wp_step. by wp_step.
Qed.
Lemma assert_held_spec k l (Q : unit -> kst -> Prop) : sched_inv k -> holders k !! l = Some (running k) ->
  Q tt k -> mwp (assert_held l) k Q.
Proof.
  intros Hk Hl HQ. unfold assert_held. wp_step. apply lock_held_spec; [done|].
  wp_step; [by apply bool_decide_eq_true_2|done].
Qed.
Lemma get_sema_spec k s x (Q : semaphore -> kst -> Prop) : semas k !! s = Some x -> Q x k -> mwp (get_sema s) k Q.
Proof. intros E HQ. unfold get_sema. wp_step. wp_step. wp_step. by rewrite E. Qed.
Lemma get_cond_spec k c ws (Q : list Z -> kst -> Prop) : conds k !! c = Some ws -> Q ws k -> mwp (get_cond c) k Q.
Proof. intros E HQ. unfold get_cond. wp_step. wp_step. wp_step. by rewrite E. Qed.
Lemma intr_set_level_spec k b (Q : bool -> kst -> Prop) : in_external_intr (the_cpu k) = false ->
  Q (intr_on (the_cpu k)) (with_intr b k) -> mwp (intr_set_level b) k Q.
Proof.
  intros Hc HQ. destruct b; cbn [intr_set_level]; unfold intr_enable, intr_disable, intr_get_level, intr_context, set_intr.
  - wp_step. wp_step. wp_step. wp_step. wp_step. wp_step; [by rewrite Hc|]. wp_step. wp_step. by wp_step.
  - wp_step. wp_step. wp_step. wp_step. by wp_step.
Qed.
Definition put_sema (s : sema_at) (x : semaphore) (k : kst) : kst := set_semas (<[s := x]> (semas k)) k.

Lemma down_loop_spec k s x old (Q : bool -> kst -> Prop) : sched_inv k -> semas k !! s = Some x ->
  intr_on (the_cpu k) = false ->
  (value x <> 0 -> Q true (with_intr old (put_sema s (Semaphore (value x -u 1) (waiters x)) k))) ->
  (value x = 0 -> forall k', let k1 := put_sema s (Semaphore 0 (waiters x ++ [running k])) k in
     switched k1 THREAD_BLOCKED k' -> running k' = next_up k1 -> Q false k') ->
  mwp (down_loop s old) k Q.
Proof.
  intros Hk Hs Hi H1 H2. unfold down_loop. wp_step. eapply get_sema_spec; [done|].
  destruct (Z.eqb_spec (value x) 0) as [E|E].
  - wp_step. apply thread_current_spec; [apply Hk|]. unfold set_sema. wp_step. wp_step. wp_step. rewrite E.
    apply thread_block_spec; [by eapply sched_inv_fields|exact Hi|]. intros k' Hsw Hru _. wp_step. by apply H2.
  - unfold set_sema. wp_step. wp_step. wp_step. apply intr_set_level_spec; [apply Hk|]. wp_step. by apply H1.
Qed.

(** What waking one thread up does. *)
Record woke (k : kst) (t : Z) (k' : kst) : Prop := Woke {
  wk_sched : sched_ok k';
  wk_rest : same_rest k k';
  wk_running : running k' = running k;
  wk_cpu : the_cpu k' = the_cpu k;
  wk_st : forall x, st k' x = if decide (x = t) then Some THREAD_READY else st k x;
}.
Lemma sema_up_spec k s x (Q : unit -> kst -> Prop) : sched_ok k -> semas k !! s = Some x ->
  (waiters x = [] -> Q tt (put_sema s (Semaphore (value x +u 1) []) k)) ->
  (forall t ws, waiters x = t :: ws -> st k t = Some THREAD_BLOCKED /\ t <> idle_thread k /\
     forall k', woke (put_sema s (Semaphore (value x +u 1) ws) k) t k' -> Q tt k') ->
  mwp (sema_up s) k Q.
Proof.
  intros Hk Hs H1 H2. unfold sema_up. pose proof (so_ctx _ Hk) as Hc. apply atomically_spec; [done|].
  wp_step. eapply get_sema_spec; [exact Hs|]. destruct (waiters x) as [|t ws] eqn:Ew.
  - wp_step. wp_step. wp_step. eapply get_sema_spec; [exact Hs|]. unfold set_sema. wp_step. split; [done|].
    match goal with |- Q tt ?a => replace a with (put_sema s (Semaphore (value x +u 1) []) k) end; [by apply H1|].
    rewrite Ew. by destruct k as [? ? ? ? ? ? ? ? ? ? ? [? ? ? ?]].
  - destruct (H2 t ws eq_refl) as (Hb & Hid & HQ). wp_step. unfold set_sema. wp_step. wp_step.
    apply thread_unblock_spec; [by destruct Hk|exact Hb|exact Hid|].
    intros k1 Hok Hsr Hre Hru Hcpu Hclk Hmem Hst. wp_step.
    eapply get_sema_spec; [rewrite (sr_semas _ _ Hsr); cbn; by rewrite lookup_insert_eq|]. wp_step.
    split; [cbn; rewrite Hcpu; done|]. apply HQ.
    destruct Hok as [O1 O2 O3 O4 O5 O6 O7 O8 O9]. destruct Hsr as [R1 R2 R3 R4 R5 R6 R7 R8 R9 R10 R11 R12].
    cbn in *. split; cbn.
    + by split.
    + split; cbn; try done. rewrite R2. by rewrite insert_insert_eq.
    + done.
    + rewrite Hcpu. by destruct (the_cpu k).
    + exact Hst.
Qed.

(** ** Every step keeps the invariant *)
(** What a client must not do: take a lock it has, give or wait with a lock it has
    not, or use a semaphore or condition variable that was never initialised. *)
Definition misuse (k : kst) (i : instr) : bool :=
  match i with
  | DOWN s | UP s => bool_decide (semas k !! s = None)
  | CHECK l => bool_decide (holders k !! l = Some (running k))
  | CLEAR l => bool_decide (holders k !! l <> Some (running k))
  | WAIT c l | SIGNAL c l => bool_decide (holders k !! l <> Some (running k))
  | LINK c | UNLINK c | BROADCAST c _ => bool_decide (conds k !! c = None)
  | _ => false
  end.

Section Preserve.
Context (k : kst) (code : codes) (i : instr) (rest : list instr).
Context (Hm : mach_inv k code) (Hcode : code !! running k = Some (i :: rest)).
Local Abbreviation r := (running k).

Lemma run_status : st k r = Some THREAD_RUNNING.
Proof. apply Hm. Qed.
Lemma code_shape : if decide (r = idle_thread k) then idle_code (i :: rest) else coded r (i :: rest).
Proof. by apply (co_code _ _ (mi_code _ _ Hm)). Qed.
(** Only [IDLE] and [SETLEVEL] are run by the idle thread. *)
Lemma not_idle : match i with IDLE | SETLEVEL _ => True | _ => r <> idle_thread k /\ coded r (i :: rest) end.
Proof.
  pose proof code_shape as H. case_decide; [inversion H; by subst|]. by destruct i.
Qed.
(** A step that does not switch and changes only the named parts. *)
Lemma keep_local k' more :
  running k' = running k -> idle_thread k' = idle_thread k -> (forall t, st k' t = st k t) -> sched_inv k' ->
  (if decide (r = idle_thread k) then idle_code (more ++ rest) else coded r (more ++ rest)) ->
  lock_ok k' (<[running k := more ++ rest]> code) -> sync_ok k' (<[running k := more ++ rest]> code) ->
  (retrying (more ++ rest) -> intr_on (the_cpu k') = false) ->
  mach_inv k' (<[running k := more ++ rest]> code).
Proof.
  intros Eru Ei Est Hs Hc Hl Hy Hi. split; [done| |done|done|].
  - eapply (code_step k); [exact Hcode|apply Hm|done| |exact Hc]. intros t. unfold alive. by rewrite Est.
  - intros s b rest'. rewrite Eru, lookup_insert_eq. intros [= E]. apply Hi. rewrite E. by repeat eexists.
Qed.
(** A switch keeps the live threads, when the next one was ready, or was running, or is idle. *)
Lemma switched_alive k1 s k' : switched k1 s k' -> s <> THREAD_DYING -> running k1 = running k ->
  (forall t, st k1 t = st k t) -> alive k (running k') -> forall t, alive k' t <-> alive k t.
Proof.
  intros (_ & _ & _ & _ & Hst) Hs Eru Est Hal t. pose proof run_status as Hr. unfold alive in *. rewrite Hst.
  destruct (decide (t = running k')) as [->|]; [split; [done|by eexists]|]. rewrite Eru, Est.
  destruct (decide (t = running k)) as [->|]; [|done]. split; intros _; [by eexists|by exists s].
Qed.
Lemma alive_idle : alive k (idle_thread k).
Proof. apply (co_alive _ _ (mi_code _ _ Hm)), (co_idle _ _ (mi_code _ _ Hm)). Qed.
Lemma alive_next t : t = idle_thread k \/ t = r \/ st k t = Some THREAD_READY -> alive k t.
Proof.
  intros [->|[->|H]]; [apply alive_idle|exists THREAD_RUNNING; split; [apply run_status|done]|by exists THREAD_READY].
Qed.
(** A step after which another thread runs, with the semaphores as [k1] has them. *)
Lemma keep_switch k1 s k' more : switched k1 s k' -> running k1 = running k -> idle_thread k1 = idle_thread k ->
  (forall t, st k1 t = st k t) -> s <> THREAD_DYING -> alive k (running k') ->
  (if decide (r = idle_thread k) then idle_code (more ++ rest) else coded r (more ++ rest)) ->
  lock_ok k' (<[running k := more ++ rest]> code) -> sync_ok k' (<[running k := more ++ rest]> code) ->
  mach_inv k' (<[running k := more ++ rest]> code).
Proof.
  intros Hsw Eru Ei Est Hsd Hal Hc Hl Hy. pose proof (switched_alive _ _ _ Hsw Hsd Eru Est Hal) as Halv.
  destruct Hsw as (Hs & Hsr & Hi & _ & Hst). split; [done| |done|done|by intros].
  eapply (code_step k); [exact Hcode|apply Hm|rewrite (sr_idle _ _ Hsr); exact Ei|exact Halv|exact Hc].
Qed.

(** The owner of a lock is unique, and a lock between two holders has no holder. *)
Lemma owner_unique l t t' : owns k code t l -> owns k code t' l -> t = t'.
Proof.
  intros H H'. assert (Hx : is_Some (semas k !! LockSema l)).
  { destruct H as [H|H]; [by eapply (lo_held _ _ (mi_lock _ _ Hm))|by eapply (lo_between _ _ (mi_lock _ _ Hm))]. }
  destruct Hx as [x Hx]. destruct (lo_value _ _ (mi_lock _ _ Hm) l x Hx) as [[_ Hn]|[_ (o & _ & Hu)]].
  - by destruct (Hn t).
  - by rewrite (Hu t H), (Hu t' H').
Qed.
Lemma between_self l : between (i :: rest) = Some l -> owns k code r l /\ holders k !! l = None /\ is_Some (semas k !! LockSema l).
Proof.
  intros E. assert (Hb : (code !! r ≫= between) = Some l) by (rewrite Hcode; exact E).
  split; [by right|]. by eapply (lo_between _ _ (mi_lock _ _ Hm)).
Qed.
(** The rest of a whole call is idle with respect to locks. *)
Lemma rest_calls cs : rest = calls_code cs -> Forall (good_call r) cs -> coded r rest /\ between rest = None /\ ~ retrying rest.
Proof.
  intros -> H. split; [by apply cd_calls|]. split; [by eapply calls_between|by eapply calls_not_retrying].
Qed.
Lemma if_coded c : r <> idle_thread k -> coded r c -> if decide (r = idle_thread k) then idle_code c else coded r c.
Proof. intros Hn Hc. by rewrite decide_False. Qed.

End Preserve.

(** *** The steps that do not switch *)
Definition step_ok (k : kst) (code : codes) (i : instr) (rest : list instr) : Prop :=
  mwp (exec i) k (fun more k' => mach_inv k' (<[running k := more ++ rest]> code)).
Lemma exec_check k code l rest : mach_inv k code -> code !! running k = Some (CHECK l :: rest) ->
  misuse k (CHECK l) = false -> step_ok k code (CHECK l) rest.
Proof.
  intros Hm Hcode Hmis. pose proof (not_idle k code _ _ Hm Hcode) as Hni. unfold step_ok. destruct Hni as [Hni Hcd].
  apply coded_cases in Hcd as (cs & Hrest & Hcs). cbn in Hmis |- *. apply bool_decide_eq_false_1 in Hmis.
  wp_step. apply not_interrupt_spec; [apply Hm|]. wp_step. apply lock_held_spec; [apply Hm|].
  wp_step. wp_step; [by rewrite bool_decide_eq_false_2|]. wp_step.
  apply (keep_local k code _ rest Hm Hcode k []); try done; [apply Hm| | | |by rewrite Hrest; intros (?&?&?&?)].
  - apply (if_coded k); [done|]. rewrite Hrest. by apply cd_down.
  - eapply (lock_frame k k); [done|apply Hm|done|done|]. by rewrite Hrest.
  - eapply (sync_frame k k); try done; [apply Hm|apply Hm|by intros (?&?&?&?)|by rewrite Hrest; intros (?&?&?&?)].
Qed.
Lemma exec_hold k code l rest : mach_inv k code -> code !! running k = Some (HOLD l :: rest) ->
  step_ok k code (HOLD l) rest.
Proof.
  intros Hm Hcode. pose proof (not_idle k code _ _ Hm Hcode) as Hni.
  pose proof (between_self k code _ _ Hm Hcode) as Hbs. unfold step_ok. destruct Hni as [Hni Hcd].
  apply coded_cases in Hcd as (cs & Hrest & Hcs). destruct (rest_calls k code _ rest Hcode cs Hrest Hcs) as (Hcr & Hbr & Hnr).
  destruct (Hbs l eq_refl) as (Ho & Hh & Hx). cbn.
  wp_step. apply thread_current_spec; [apply Hm|]. wp_step. wp_step. wp_step.
  set (k' := set_holders (<[l := running k]> (holders k)) k).
  apply (keep_local k code _ rest Hm Hcode k' []); try done; [by apply (sched_inv_fields k); [apply Hm|done..]|by apply (if_coded k)| |].
  - eapply (lock_update k k' code (running k) (HOLD l :: rest) rest Hcode l); try done; [apply Hm| | | |].
    + intros l' Hne. cbn. by rewrite lookup_insert_ne.
    + intros l' Hne. cbn. split; congruence.
    + intros x Hlx. right.
      assert (Howns : owns k' (<[running k := rest]> code) (running k) l) by (left; cbn; by rewrite lookup_insert_eq).
      destruct (lo_value _ _ (mi_lock _ _ Hm) l x Hlx) as [[_ Hn]|[Hv _]]; [by destruct (Hn (running k))|].
      split; [done|]. exists (running k). split; [done|]. intros t' [Ht'|Ht']; cbn in Ht'.
      * rewrite lookup_insert_eq in Ht'. by injection Ht'.
      * destruct (decide (t' = running k)) as [|Hne]; [done|]. rewrite lookup_insert_ne in Ht' by done.
        by apply (owner_unique k code Hm l t' (running k)); [right|].
    + intros t Ht. destruct (decide (t = running k)) as [->|Hne]; [rewrite lookup_insert_eq in Ht; cbn in Ht; congruence|].
      rewrite lookup_insert_ne in Ht by done. exfalso. apply Hne, (owner_unique k code Hm l); [by right|done].
  - eapply (sync_frame k k'); try done; [apply Hm|apply Hm|by intros (?&?&?&?)].
Qed.
Lemma exec_clear k code l rest : mach_inv k code -> code !! running k = Some (CLEAR l :: rest) ->
  misuse k (CLEAR l) = false -> step_ok k code (CLEAR l) rest.
Proof.
  intros Hm Hcode Hmis. pose proof (not_idle k code _ _ Hm Hcode) as Hni. unfold step_ok. destruct Hni as [Hni Hcd].
  apply coded_cases in Hcd as (cs & Hrest & Hcs). cbn in Hmis |- *. apply bool_decide_eq_false_1, dec_stable in Hmis.
  wp_step. apply assert_held_spec; [apply Hm|done|]. wp_step. wp_step. wp_step.
  set (k' := set_holders (delete l (holders k)) k).
  assert (Ho : owns k code (running k) l) by by left.
  pose proof (lo_held _ _ (mi_lock _ _ Hm) _ _ Hmis) as Hx.
  apply (keep_local k code _ rest Hm Hcode k' []); try done; [by apply (sched_inv_fields k); [apply Hm|done..]| | | |by rewrite Hrest; intros (?&?&?&?)].
  - apply (if_coded k); [done|]. rewrite Hrest. by apply cd_up.
  - eapply (lock_update k k' code (running k) (CLEAR l :: rest) rest Hcode l); try done; [apply Hm| | | |].
    + intros l' Hne. cbn. by rewrite lookup_delete_ne.
    + intros l' Hne. rewrite Hrest. cbn. split; congruence.
    + intros x Hlx. right. destruct (lo_value _ _ (mi_lock _ _ Hm) l x Hlx) as [[_ Hn]|[Hv _]]; [by destruct (Hn (running k))|].
      split; [done|]. exists (running k). split; [right; rewrite lookup_insert_eq, Hrest; done|].
      intros t' [Ht'|Ht']; cbn in Ht'; [by rewrite lookup_delete_eq in Ht'|].
      destruct (decide (t' = running k)) as [|Hne]; [done|]. rewrite lookup_insert_ne in Ht' by done.
      by apply (owner_unique k code Hm l t' (running k)); [right|].
    + intros t _. cbn. by rewrite lookup_delete_eq.
  - eapply (sync_frame k k'); try done; [apply Hm|apply Hm|by intros (?&?&?&?)|by rewrite Hrest; intros (?&?&?&?)].
Qed.
Lemma exec_broadcast k code c l rest : mach_inv k code -> code !! running k = Some (BROADCAST c l :: rest) ->
  misuse k (BROADCAST c l) = false -> step_ok k code (BROADCAST c l) rest.
Proof.
  intros Hm Hcode Hmis. pose proof (not_idle k code _ _ Hm Hcode) as Hni. unfold step_ok. destruct Hni as [Hni Hcd].
  apply coded_cases in Hcd as (cs & Hrest & Hcs). cbn in Hmis |- *. apply bool_decide_eq_false_1 in Hmis.
  destruct (conds k !! c) as [ws|] eqn:Ec; [|done]. wp_step. eapply get_cond_spec; [done|]. wp_step.
  set (more := match ws with [] => [] | _ => cond_signal c l ++ cond_broadcast c l end).
  assert (Hall : exists cs', more ++ rest = calls_code cs' /\ Forall (good_call (running k)) cs').
  { unfold more. destruct ws; [by exists cs|]. exists (Other (SIGNAL c l) :: Other (BROADCAST c l) :: cs).
    split; [by rewrite Hrest|]. by repeat constructor. }
  destruct Hall as (cs' & Hall & Hcs').
  apply (keep_local k code _ rest Hm Hcode k more); try done; [apply Hm| | | |]; rewrite Hall.
  - apply (if_coded k); [done|]. by apply cd_calls.
  - eapply (lock_frame k k); [done|apply Hm|done|done|]. by eapply calls_between.
  - eapply (sync_frame k k); try done; [apply Hm|apply Hm|by intros (?&?&?&?)|by eapply calls_not_retrying].
  - intros H. exfalso. by eapply calls_not_retrying.
Qed.
Lemma exec_setlevel k code b rest : mach_inv k code -> code !! running k = Some (SETLEVEL b :: rest) ->
  step_ok k code (SETLEVEL b) rest.
Proof.
  intros Hm Hcode. pose proof (code_shape k code _ _ Hm Hcode) as Hsh. unfold step_ok. cbn. wp_step. apply intr_set_level_spec; [apply Hm|]. wp_step.
  assert (Hr : (if decide (running k = idle_thread k) then idle_code rest else coded (running k) rest) /\ ~ retrying rest).
  { case_decide.
    - inversion Hsh; subst. split; [done|]. intros (? & ? & ? & ->). by inversion H1.
    - by apply coded_cases in Hsh. }
  destruct Hr as [Hr Hnr].
  apply (keep_local k code _ rest Hm Hcode (with_intr b k) []); try done; [by apply (sched_inv_fields k); [apply Hm|done..]| |].
  - by eapply (lock_frame k (with_intr b k) code (running k) (SETLEVEL b :: rest)); [done|apply Hm|done|done|].
  - eapply (sync_frame k (with_intr b k)); try done; [apply Hm|apply Hm|by intros (?&?&?&?)].
Qed.

(** *** Waking up *)
(** The state after [sema_up] of [s], whose semaphore was [x]. *)
Definition upped (k : kst) (s : sema_at) (x : semaphore) (k' : kst) : Prop :=
  (k' = put_sema s (Semaphore (value x +u 1) []) k /\ waiters x = []) \/
  (exists t ws, waiters x = t :: ws /\ st k t = Some THREAD_BLOCKED /\
     woke (put_sema s (Semaphore (value x +u 1) ws) k) t k').
Lemma upped_facts k s x k' : upped k s x k' -> sched_inv k ->
  semas k' = <[s := Semaphore (value x +u 1) (tail (waiters x))]> (semas k) /\ holders k' = holders k /\
  conds k' = conds k /\ idle_thread k' = idle_thread k /\ running k' = running k /\ the_cpu k' = the_cpu k /\
  (forall t, alive k' t <-> alive k t) /\ sched_inv k'.
Proof.
  intros [[-> Hw]|(t & ws & Hw & Hb & [Hok Hsr Hru Hcpu Hst])] Hk; rewrite Hw; cbn [tail].
  - do 6 (split; [done|]). split; [done|]. by apply (sched_inv_fields k).
  - destruct Hsr as [R1 R2 R3 R4 R5 R6 R7 R8 R9 R10 R11 R12]. cbn in *.
    assert (Hst' : forall y, st k' y = if decide (y = t) then Some THREAD_READY else st k y) by exact Hst.
    do 4 (split; [done|]). split; [exact Hru|]. split; [exact Hcpu|]. split; [|split; [done|]].
    + intros y. unfold alive. rewrite Hst'. case_decide; [subst; rewrite Hb|done]. by split; intros _; eexists.
    + rewrite Hru, Hst'. case_decide as E; [|apply Hk]. subst t. exfalso. rewrite (si_running _ Hk) in Hb. done.
Qed.
Lemma up_sync k code r c c' s x k' : code !! r = Some c -> sync_ok k code -> code_ok k code ->
  st k r = Some THREAD_RUNNING -> ~ retrying c -> ~ retrying c' -> semas k !! s = Some x -> sched_inv k ->
  upped k s x k' -> sync_ok k' (<[r := c']> code).
Proof.
  intros Hcode Hy Hco Hr Hc Hc' Hx Hk Hup.
  destruct (upped_facts _ _ _ _ Hup Hk) as (Es & _ & _ & Ei & _).
  destruct (sy_waiters _ _ Hy s x Hx) as [Hnd Hws]. pose proof (sy_value _ _ Hy s x Hx) as Hv.
  assert (Hu : 0 <= value x +u 1 <= value x + 1).
  { split; [apply u32_range|]. apply Z.mod_le; lia. }
  assert (Hother : forall t, st k t = Some THREAD_BLOCKED -> t <> r) by (intros t Ht ->; congruence).
  eapply (sync_update k k' code r c c' Hcode s x); try done; [by left|..].
  - intros s' b rest ->. exfalso. apply Hc. by repeat eexists.
  - intros s' b rest ->. exfalso. apply Hc'. by repeat eexists.
  - intros t _ _. destruct Hup as [[-> _]|(t0 & ws & _ & _ & Hwk)]; [done|].
    rewrite (wk_st _ _ _ Hwk). by case_decide.
  - intros t Ht _. destruct Hup as [[-> _]|(t0 & ws & Hw & _ & Hwk)]; [by right|].
    rewrite (wk_st _ _ _ Hwk). case_decide as E; [subst t0; left; rewrite Hw; left|by right].
  - cbn. lia.
  - cbn. destruct (waiters x); [done|]. by apply list.NoDup_cons in Hnd as [_ ?].
  - cbn. intros t Ht. destruct Hup as [[_ Hw]|(t0 & ws & Hw & _ & Hwk)]; rewrite Hw in *; cbn in Ht.
    { by apply not_elem_of_nil in Ht. }
    apply list.NoDup_cons in Hnd as [Hn _]. destruct (Hws t) as (Hb & Hi & b & rest & Hct); [by right|].
    rewrite (wk_st _ _ _ Hwk), decide_False by (intros ->; done). split; [done|]. split; [done|].
    exists b, rest. rewrite lookup_insert_ne; [done|]. by apply not_eq_sym, Hother.
  - cbn. intros t Ht. right. destruct Hup as [[-> Hw]|(t0 & ws & Hw & _ & Hwk)]; rewrite Hw in *; cbn.
    { right. split; [exact Ht|]. apply not_elem_of_nil. }
    rewrite (wk_st _ _ _ Hwk) in Ht. case_decide as E; [done|]. destruct (decide (t ∈ ws)); [by left|right].
    split; [exact Ht|]. rewrite elem_of_cons. tauto.
  - cbn. intros Hne. destruct Hup as [[_ Hw]|(t0 & ws & Hw & _ & Hwk)]; rewrite Hw in *; [done|]. cbn in Hne.
    destruct (sy_woken _ _ Hy s x Hx) as (ws0 & Hnd0 & Hl0 & Hw0); [by rewrite Hw|].
    destruct (Hws t0) as (Hb0 & Hi0 & b0 & rest0 & Hct0); [left|].
    exists (t0 :: ws0). split; [|split].
    + apply list.NoDup_cons. split; [|done]. intros Hin. by destruct (Hw0 t0 Hin).
    + unfold zlen in *. simpl. lia.
    + intros w [->|Hin]%elem_of_cons.
      * split; [exists b0, rest0; rewrite lookup_insert_ne; [done|by apply not_eq_sym, Hother]|].
        rewrite (wk_st _ _ _ Hwk). by rewrite decide_True.
      * destruct (Hw0 w Hin) as [(b & rest & Hcw) Hsw]. split.
        { exists b, rest. rewrite lookup_insert_ne; [done|]. intros <-. rewrite Hcode in Hcw. injection Hcw as ->.
          apply Hc. by repeat eexists. }
        rewrite (wk_st _ _ _ Hwk). by case_decide.
Qed.
Lemma sema_up_upped k s x (Q : unit -> kst -> Prop) code : sched_inv k -> sync_ok k code -> semas k !! s = Some x ->
  (forall k', upped k s x k' -> Q tt k') -> mwp (sema_up s) k Q.
Proof.
  intros Hk Hy Hx HQ. apply (sema_up_spec k s x); [apply Hk|done| |].
  - intros Hw. apply HQ. by left.
  - intros t ws Hw. destruct (proj2 (sy_waiters _ _ Hy s x Hx) t) as (Hb & Hi & _); [rewrite Hw; left|].
    split; [done|]. split; [done|]. intros k' Hwk. apply HQ. right. by exists t, ws.
Qed.

Lemma exec_up k code s rest : mach_inv k code -> code !! running k = Some (UP s :: rest) ->
  misuse k (UP s) = false -> step_ok k code (UP s) rest.
Proof.
  intros Hm Hcode Hmis. pose proof (not_idle k code _ _ Hm Hcode) as [Hni Hcd].
  pose proof (between_self k code _ _ Hm Hcode) as Hbs.
  apply coded_cases in Hcd as (cs & Hrest & Hcs). destruct (rest_calls k code _ rest Hcode cs Hrest Hcs) as (Hcr & Hbr & Hnr).
  unfold step_ok. cbn in Hmis |- *. apply bool_decide_eq_false_1 in Hmis.
  destruct (semas k !! s) as [x|] eqn:Hx; [|done]. wp_step.
  eapply sema_up_upped; [apply Hm|apply Hm|exact Hx|]. intros k' Hup. wp_step.
  destruct (upped_facts _ _ _ _ Hup (mi_sched _ _ Hm)) as (Es & Eh & Ec & Ei & Eru & Ecpu & Hsome & Hinv).
  pose proof (sy_value _ _ (mi_sync _ _ Hm) s x Hx) as Hvx.
  split; [exact Hinv| | | |].
  - eapply (code_step k); [exact Hcode|apply Hm|done|exact Hsome|]. by apply (if_coded k).
  - destruct s as [a|l|t|t]; try (eapply (lock_frame k k' code (running k) _ rest Hcode); [apply Hm|exact Eh| |exact Hbr];
      intros l; rewrite Es, lookup_insert_ne; done).
    destruct (Hbs l eq_refl) as (Ho & Hh & _).
    eapply (lock_update k k' code (running k) _ rest Hcode l); [apply Hm| | | | | |].
    + intros l' _. by rewrite Eh.
    + intros l' Hne. rewrite Es, lookup_insert_ne; [done|]. congruence.
    + intros l' Hne. cbn. split; congruence.
    + rewrite Es, lookup_insert_eq. by eexists.
    + intros y. rewrite Es, lookup_insert_eq. intros [= <-]. left. cbn.
      destruct (lo_value _ _ (mi_lock _ _ Hm) l x Hx) as [[_ Hn]|[-> _]]; [by destruct (Hn (running k))|].
      split; [reflexivity|]. intros t [Ht|Ht].
      * rewrite Eh in Ht. congruence.
      * destruct (decide (t = running k)) as [->|Hne]; [rewrite lookup_insert_eq in Ht; cbn in Ht; congruence|].
        rewrite lookup_insert_ne in Ht by done. apply Hne. apply (owner_unique k code Hm l); [by right|done].
    + intros t Ht. by rewrite Eh.
  - eapply up_sync; [exact Hcode|apply Hm|apply Hm|apply Hm| |done|exact Hx|apply Hm|exact Hup]. by intros (?&?&?&?).
  - intros s' b rest'. rewrite Eru, lookup_insert_eq. intros [= E]. exfalso. apply Hnr. cbn in E. rewrite E. by repeat eexists.
Qed.
(** *** Conditions *)
(** A step that leaves semaphores and locks alone and goes on with code that is at no lock. *)
Lemma keep_plain k code i rest k' more : mach_inv k code -> code !! running k = Some (i :: rest) -> running k <> idle_thread k ->
  threads k' = threads k -> ready_list k' = ready_list k -> running k' = running k -> idle_thread k' = idle_thread k ->
  base_page_dir k' = base_page_dir k -> the_cpu k' = the_cpu k -> semas k' = semas k -> holders k' = holders k ->
  between (i :: rest) = None -> ~ retrying (i :: rest) ->
  coded (running k) (more ++ rest) -> between (more ++ rest) = None -> ~ retrying (more ++ rest) ->
  mach_inv k' (<[running k := more ++ rest]> code).
Proof.
  intros Hm Hcode Hni E1 E2 E3 E4 E5 E6 E7 E8 Hb Hr Hc Hb' Hr'.
  assert (Est : forall t, st k' t = st k t) by (intros t; unfold st; by rewrite E1).
  apply (keep_local k code _ rest Hm Hcode k' more); try done.
  - apply (sched_inv_fields k); [apply Hm|done..|by rewrite E6].
  - by apply (if_coded k).
  - eapply (lock_frame k k'); [exact Hcode|apply Hm|done|by rewrite E7|by rewrite Hb, Hb'].
  - eapply (sync_frame k k'); try done; [apply Hm|intros t _; by rewrite Est|apply Hm].
Qed.
Lemma exec_link k code c rest : mach_inv k code -> code !! running k = Some (LINK c :: rest) ->
  misuse k (LINK c) = false -> step_ok k code (LINK c) rest.
Proof.
  intros Hm Hcode Hmis. pose proof (not_idle k code _ _ Hm Hcode) as [Hni Hcd].
  apply coded_cases in Hcd as (cs & -> & Hcs). unfold step_ok. cbn in Hmis |- *. apply bool_decide_eq_false_1 in Hmis.
  destruct (conds k !! c) as [ws|] eqn:Ec; [|done].
  wp_step. apply thread_current_spec; [apply Hm|]. wp_step. eapply get_cond_spec; [done|]. wp_step.
  eapply (keep_plain k code _ _ k [STORE c (ws ++ [running k])]); try done; try (by intros (?&?&?&?)). by apply cd_store.
Qed.
Lemma exec_signal k code c l rest : mach_inv k code -> code !! running k = Some (SIGNAL c l :: rest) ->
  misuse k (SIGNAL c l) = false -> step_ok k code (SIGNAL c l) rest.
Proof.
  intros Hm Hcode Hmis. pose proof (not_idle k code _ _ Hm Hcode) as [Hni Hcd].
  apply coded_cases in Hcd as (cs & -> & Hcs). unfold step_ok. cbn in Hmis |- *. apply bool_decide_eq_false_1, dec_stable in Hmis.
  wp_step. apply not_interrupt_spec; [apply Hm|]. wp_step. apply assert_held_spec; [apply Hm|done|]. wp_step.
  eapply (keep_plain k code _ _ k [UNLINK c]); try done; try (by intros (?&?&?&?)). by apply cd_unlink.
Qed.
Lemma exec_unlink k code c rest : mach_inv k code -> code !! running k = Some (UNLINK c :: rest) ->
  misuse k (UNLINK c) = false -> step_ok k code (UNLINK c) rest.
Proof.
  intros Hm Hcode Hmis. pose proof (not_idle k code _ _ Hm Hcode) as [Hni Hcd].
  apply coded_cases in Hcd as (cs & -> & Hcs). unfold step_ok. cbn in Hmis |- *. apply bool_decide_eq_false_1 in Hmis.
  destruct (conds k !! c) as [ws|] eqn:Ec; [|done]. wp_step. eapply get_cond_spec; [done|]. wp_step.
  destruct ws as [|w ws].
  - eapply (keep_plain k code _ _ k []); try done; try (by intros (?&?&?&?));
      [by apply cd_calls|by eapply calls_between|by eapply calls_not_retrying].
  - eapply (keep_plain k code _ _ k [STORE c ws; UP (WaiterSema w)]); try done; try (by intros (?&?&?&?)). by apply cd_store_up.
Qed.
Lemma exec_store k code c ws rest : mach_inv k code -> code !! running k = Some (STORE c ws :: rest) ->
  step_ok k code (STORE c ws) rest.
Proof.
  intros Hm Hcode. pose proof (not_idle k code _ _ Hm Hcode) as [Hni Hcd].
  apply coded_cases in Hcd as (cs & Hrest & Hcs). unfold step_ok. cbn. wp_step. wp_step. wp_step.
  set (k' := set_conds (<[c := ws]> (conds k)) k).
  assert (Hr : coded (running k) rest /\ between rest = None /\ ~ retrying rest).
  { destruct Hrest as [->|[w ->]].
    - split; [by apply cd_calls|]. split; [by eapply calls_between|by eapply calls_not_retrying].
    - split; [by apply cd_wake|]. split; [done|by intros (?&?&?&?)]. }
  destruct Hr as (H1 & H2 & H3). eapply (keep_plain k code _ _ k' []); try done; by intros (?&?&?&?).
Qed.

(** *** Going to sleep *)
(** Nobody else waits on the semaphore that [cond_wait] makes for thread [t]. *)
Lemma waiter_sema_private k code t x : mach_inv k code -> st k t = Some THREAD_RUNNING ->
  semas k !! WaiterSema t = Some x -> waiters x = [].
Proof.
  intros Hm Hr Hx. destruct (waiters x) as [|w ws] eqn:E; [done|]. exfalso.
  destruct (proj2 (sy_waiters _ _ (mi_sync _ _ Hm) _ x Hx) w) as (Hb & Hi & b & rest & Hc); [rewrite E; left|].
  pose proof (co_code _ _ (mi_code _ _ Hm) _ _ Hc) as Hcd. rewrite decide_False in Hcd by done.
  apply coded_cases in Hcd as [(l & cs & ? & _)|(_ & Ho & _)]; [done|]. rewrite <- (Ho t eq_refl) in Hb. congruence.
Qed.
Lemma exec_wait k code c l rest : mach_inv k code -> code !! running k = Some (WAIT c l :: rest) ->
  misuse k (WAIT c l) = false -> step_ok k code (WAIT c l) rest.
Proof.
  intros Hm Hcode Hmis. pose proof (not_idle k code _ _ Hm Hcode) as [Hni Hcd].
  apply coded_cases in Hcd as (cs & Hrest & Hcs).
  unfold step_ok. cbn in Hmis |- *. apply bool_decide_eq_false_1, dec_stable in Hmis.
  pose proof (run_status k code Hm) as Hrun.
  wp_step. apply not_interrupt_spec; [apply Hm|]. wp_step. apply assert_held_spec; [apply Hm|done|].
  wp_step. apply thread_current_spec; [done|]. unfold sema_init, set_sema. wp_step. wp_step. wp_step.
  match goal with |- mach_inv ?a (<[_ := ?b ++ _]> _) => set (k' := a); set (more := b) end.
  set (cs' := Release l :: Other (DOWN (WaiterSema (running k))) :: Acquire l :: cs).
  assert (Hall : more ++ rest = LINK c :: calls_code cs') by by rewrite Hrest.
  assert (Hcs' : Forall (good_call (running k)) cs') by by repeat constructor.
  assert (Hcr : coded (running k) (more ++ rest)) by (rewrite Hall; by apply cd_link).
  assert (Hbr : between (more ++ rest) = None) by done.
  assert (Hnr : ~ retrying (more ++ rest)) by by intros (?&?&?&?).
  apply (keep_local k code _ rest Hm Hcode k' more); try done.
  - by apply (sched_inv_fields k); [apply Hm|..].
  - by apply (if_coded k).
  - eapply (lock_frame k k' code (running k) _ (more ++ rest) Hcode); [apply Hm|done| |exact Hbr].
    intros l'. cbn. by rewrite lookup_insert_ne.
  - assert (Hx : exists x, (semas k !! WaiterSema (running k) = Some x \/
      (semas k !! WaiterSema (running k) = None /\ waiters x = [])) /\ waiters x = []).
    { destruct (semas k !! WaiterSema (running k)) as [x|] eqn:E.
      - exists x. split; [by left|]. by eapply waiter_sema_private.
      - exists (Semaphore 0 []). split; [by right|done]. }
    destruct Hx as (x & Hx & Hwx).
    eapply (sync_update k k' code (running k) _ (more ++ rest) Hcode (WaiterSema (running k)) x (Semaphore 0 []));
      try done; [apply Hm|apply Hm| |by constructor| |].
    + intros t Ht _. by right.
    + intros t Ht. by apply not_elem_of_nil in Ht.
    + intros t Ht. right. right. split; [exact Ht|]. rewrite Hwx. apply not_elem_of_nil.
Qed.

(** The code after the loop of [sema_down] on [s]. *)
Definition after_down (t : Z) (s : sema_at) (rest : list instr) : Prop :=
  (exists l cs, s = LockSema l /\ rest = HOLD l :: calls_code cs /\ Forall (good_call t) cs) \/
  (is_lock s = false /\ (forall t', s = WaiterSema t' -> t' = t) /\
   exists cs, rest = calls_code cs /\ Forall (good_call t) cs).
Lemma after_down_coded t s rest b : after_down t s rest -> coded t rest /\ ~ retrying rest /\ coded t (RETRY s b :: rest).
Proof.
  intros [(l & cs & -> & -> & Hcs)|(Hs & Ho & cs & -> & Hcs)].
  - split; [by apply cd_hold|]. split; [by intros (?&?&?&?)|by apply cd_retry].
  - split; [by apply cd_calls|]. split; [by eapply calls_not_retrying|by apply cd_other].
Qed.
(** Of the threads that will test a semaphore again all but [t]. *)
Lemma without_one (ws : list Z) t v : NoDup ws -> v <= zlen ws ->
  exists ws', NoDup ws' /\ v - 1 <= zlen ws' /\ forall w, w ∈ ws' -> w ∈ ws /\ w <> t.
Proof.
  intros Hnd Hv. destruct (decide (t ∈ ws)) as [Hin|Hn].
  - apply elem_of_Permutation in Hin as [ws' Hp]. rewrite Hp in Hnd. apply list.NoDup_cons in Hnd as [Hn Hnd].
    exists ws'. split; [done|]. unfold zlen in *. rewrite (Permutation_length Hp) in Hv. simpl in Hv. split; [lia|].
    intros w Hw. rewrite Hp. split; [by right|]. intros ->. done.
  - exists ws. split; [done|]. split; [lia|]. intros w Hw. split; [done|]. intros ->. done.
Qed.

Section Down.
Context (k : kst) (code : codes) (i : instr) (rest : list instr) (s : sema_at) (x : semaphore) (old : bool).
Context (Hm : mach_inv k code) (Hcode : code !! running k = Some (i :: rest)) (Hx : semas k !! s = Some x).
Context (Hafter : after_down (running k) s rest) (Hni : running k <> idle_thread k).
Context (Hi : forall s' b rest', i :: rest = RETRY s' b :: rest' -> s' = s) (Hb : between (i :: rest) = None).
Local Abbreviation r := (running k).

Lemma lo_free l y : semas k !! LockSema l = Some y -> value y <> 0 ->
  value y = 1 /\ (forall t, ~ owns k code t l) /\ holders k !! l = None.
Proof.
  intros Hy Hv. destruct (lo_value _ _ (mi_lock _ _ Hm) l y Hy) as [[? Hn]|[? _]]; [|done].
  split; [done|]. split; [done|]. destruct (holders k !! l) as [t|] eqn:E; [|done]. by destruct (Hn t); left.
Qed.
Lemma down_taken : value x <> 0 -> mach_inv (with_intr old (put_sema s (Semaphore (value x -u 1) (waiters x)) k)) (<[r := rest]> code).
Proof.
  intros Hv. destruct (after_down_coded _ _ _ old Hafter) as (Hcr & Hnr & _).
  set (k' := with_intr old _). pose proof (sy_value _ _ (mi_sync _ _ Hm) s x Hx) as H0.
  assert (Hsub : 0 <= value x -u 1 <= value x - 1) by (split; [apply u32_range|apply Z.mod_le; lia]).
  pose proof (run_status k code Hm) as Hrun. destruct (sy_waiters _ _ (mi_sync _ _ Hm) s x Hx) as [Hnd Hws].
  apply (keep_local k code _ rest Hm Hcode k' []); try done; [by apply (sched_inv_fields k); [apply Hm|..]|by apply (if_coded k)| |].
  - destruct Hafter as [(l & cs & -> & -> & Hcs)|(Hs & _ & cs & Hrest & Hcs)].
    + destruct (lo_free l x Hx Hv) as (Hv1 & Hno & Hh).
      eapply (lock_update k k' code (running k) _ _ Hcode l); [apply Hm|done| | | | |].
      * intros l' Hne. cbn. rewrite lookup_insert_ne; [done|congruence].
      * intros l' Hne. rewrite Hb. cbn. split; congruence.
      * cbn. rewrite lookup_insert_eq. by eexists.
      * intros y. cbn. rewrite lookup_insert_eq. intros [= <-]. right. cbn. rewrite Hv1. split; [reflexivity|].
        exists r. split; [right; by rewrite lookup_insert_eq|]. intros t' [Ht'|Ht']; [cbn in Ht'; congruence|].
        destruct (decide (t' = r)) as [|Hne]; [done|]. rewrite lookup_insert_ne in Ht' by done.
        exfalso. by eapply (Hno t'); right.
      * intros t _. exact Hh.
    + eapply (lock_frame k k' code (running k) _ _ Hcode); [apply Hm|done| |].
      * intros l'. cbn. rewrite lookup_insert_ne; [done|]. intros ->. done.
      * rewrite Hb. rewrite Hrest. by eapply calls_between.
  - eapply (sync_update k k' code (running k) _ rest Hcode s x (Semaphore (value x -u 1) (waiters x))); try done;
      [apply Hm|apply Hm|by left| |intros t Ht _; by right|apply Hsub| | |].
    + intros s' b rest' E. exfalso. apply Hnr. rewrite E. by repeat eexists.
    + intros t Ht. destruct (Hws t Ht) as (Hbt & Hti & b & rest' & Hct). split; [done|]. split; [done|].
      exists b, rest'. rewrite lookup_insert_ne; [done|]. intros <-. congruence.
    + intros t Ht. right. destruct (decide (t ∈ waiters x)); [by left|by right].
    + intros Hne. destruct (sy_woken _ _ (mi_sync _ _ Hm) s x Hx Hne) as (ws & Hnd' & Hl & Hw).
      destruct (without_one ws r (value x) Hnd' Hl) as (ws' & Hnd'' & Hl' & Hw'). exists ws'. split; [done|].
      split; [cbn; lia|]. intros w Hin. destruct (Hw' w Hin) as [Hin' Hne']. destruct (Hw w Hin') as [(b & rest' & Hcw) Hsw].
      split; [exists b, rest'; by rewrite lookup_insert_ne|done].
Qed.
(** The thread that runs next was ready, or is the idle thread. *)
Lemma next_up_ready k1 : ready_list k1 = ready_list k -> idle_thread k1 = idle_thread k ->
  next_up k1 <> r /\ (next_up k1 = idle_thread k \/ st k (next_up k1) = Some THREAD_READY).
Proof.
  intros Er Ei. unfold next_up. rewrite Er, Ei. pose proof (run_status k code Hm) as Hrun.
  destruct (ready_list k) as [|t ts] eqn:E; cbn; [split; [done|by left]|].
  destruct (so_ready _ (si_ok _ (mi_sched _ _ Hm)) t) as [Ht Hti]; [rewrite E; left|].
  split; [|by right]. intros ->. congruence.
Qed.
Lemma down_asleep k' : value x = 0 -> let k1 := put_sema s (Semaphore 0 (waiters x ++ [r])) k in
  switched k1 THREAD_BLOCKED k' -> running k' = next_up k1 -> mach_inv k' (<[r := RETRY s old :: rest]> code).
Proof.
  intros Hv k1 Hsw Hru. destruct (after_down_coded _ _ _ old Hafter) as (_ & Hnr & Hcr).
  destruct (next_up_ready k1 eq_refl eq_refl) as [Hnx Hnx'].
  pose proof Hsw as (Hs' & Hsr & Hi' & _ & Hst). pose proof (run_status k code Hm) as Hrun.
  destruct (sy_waiters _ _ (mi_sync _ _ Hm) s x Hx) as [Hnd Hws]. rewrite Hru in Hst.
  assert (Hrn : r ∉ waiters x) by (intros Hin; destruct (Hws r Hin) as [? _]; congruence).
  assert (Hkept : forall t, st k t = Some THREAD_BLOCKED -> t <> idle_thread k -> st k' t = Some THREAD_BLOCKED).
  { intros t Ht Hti. rewrite Hst. case_decide as E; [subst t; destruct Hnx'; congruence|]. by case_decide. }
  assert (Hr' : st k' r = Some THREAD_BLOCKED).
  { rewrite Hst, decide_False by congruence. by rewrite decide_True. }
  apply (keep_switch k code _ rest Hm Hcode k1 THREAD_BLOCKED k' [RETRY s old]); try done; [|by apply (if_coded k)| |].
  - apply (alive_next k code Hm). rewrite Hru. tauto.
  - eapply (lock_frame k k' code (running k) _ _ Hcode); [apply Hm|apply (sr_holders _ _ Hsr)| |by rewrite Hb].
    intros l. rewrite (sr_semas _ _ Hsr). cbn. destruct (decide (s = LockSema l)) as [E|]; [|by rewrite lookup_insert_ne].
    rewrite <- E, lookup_insert_eq, Hx. cbn. by rewrite Hv.
  - eapply (sync_update k k' code (running k) _ _ Hcode s x (Semaphore 0 (waiters x ++ [r])));
      [apply Hm|apply Hm|done|apply (sr_semas _ _ Hsr)|by left|apply (sr_idle _ _ Hsr)|exact Hi| | | |done| | | |].
    + by intros s' b rest' [= -> _ _].
    + intros t Htr Hti Ht. rewrite Hst. repeat (case_decide; try done).
    + intros t Ht Hti. right. by apply Hkept.
    + cbn. apply list.NoDup_app. split; [done|]. split; [|apply NoDup_singleton].
      by intros t Ht ->%list_elem_of_singleton.
    + cbn. intros t [Ht| ->%list_elem_of_singleton]%elem_of_app.
      * destruct (Hws t Ht) as (Hbt & Hti & b & rest' & Hct). split; [by apply Hkept|]. split; [done|].
        exists b, rest'. rewrite lookup_insert_ne; [done|]. intros <-. done.
      * split; [done|]. split; [done|]. exists old, rest. by rewrite lookup_insert_eq.
    + cbn. intros t Ht. rewrite elem_of_app, list_elem_of_singleton. rewrite Hst in Ht.
      case_decide as E1; [done|]. case_decide as E2; [right; left; by right|].
      destruct (decide (t ∈ waiters x)); [right; left; by left|]. right. by right.
    + intros _. exists []. split; [constructor|]. split; [done|]. intros w Hw. by apply not_elem_of_nil in Hw.
Qed.
Lemma down_loop_step : intr_on (the_cpu k) = false ->
  mwp (down_loop s old) k (fun b k' => mach_inv k' (<[r := (if b then [] else [RETRY s old]) ++ rest]> code)).
Proof.
  intros Hoff. eapply down_loop_spec; [apply Hm|exact Hx|done| |].
  - intros Hv. by apply down_taken.
  - intros Hv k' k1 Hsw Hru. by apply down_asleep.
Qed.
End Down.

Lemma mach_inv_off k code : mach_inv k code -> mach_inv (with_intr false k) code.
Proof.
  intros [Hs [C1 C2 C3] [L1 L2 L3] [Y1 Y2 Y3 Y4 Y5] Hi].
  split; [by apply (sched_inv_fields k)|by split|by split|by split|by intros].
Qed.
Lemma exec_down k code s rest : mach_inv k code -> code !! running k = Some (DOWN s :: rest) ->
  misuse k (DOWN s) = false -> step_ok k code (DOWN s) rest.
Proof.
  intros Hm Hcode Hmis. pose proof (not_idle k code _ _ Hm Hcode) as [Hni Hcd]. apply coded_cases in Hcd.
  unfold step_ok. cbn in Hmis |- *. apply bool_decide_eq_false_1 in Hmis.
  destruct (semas k !! s) as [x|] eqn:Hx; [|done].
  wp_step. apply not_interrupt_spec; [apply Hm|]. unfold intr_disable, intr_get_level, set_intr.
  wp_step. wp_step. wp_step. wp_step. wp_step. wp_step. wp_step.
  change (set_cpu _ k) with (with_intr false k).
  eapply mwp_mono; [apply (down_loop_step (with_intr false k) code (DOWN s) rest s x); try done; by apply mach_inv_off|].
  intros b k' H. wp_step. exact H.
Qed.
Lemma exec_retry k code s old rest : mach_inv k code -> code !! running k = Some (RETRY s old :: rest) ->
  step_ok k code (RETRY s old) rest.
Proof.
  intros Hm Hcode. pose proof (not_idle k code _ _ Hm Hcode) as [Hni Hcd]. apply coded_cases in Hcd.
  unfold step_ok. cbn. destruct (sy_retry _ _ (mi_sync _ _ Hm) _ _ _ _ Hcode) as [x Hx].
  wp_step. eapply mwp_mono; [apply (down_loop_step k code (RETRY s old) rest s x); try done|].
  - by intros s' b rest' [= -> _ _].
  - by eapply (mi_intr _ _ Hm).
  - intros b k' H. wp_step. exact H.
Qed.

(** *** Giving up the processor *)
Lemma keep_gave_up k code s k' c c' : mach_inv k code -> code !! running k = Some c ->
  switched k s k' -> s <> THREAD_DYING -> (running k' = idle_thread k \/ running k' = running k \/ st k (running k') = Some THREAD_READY) ->
  (s = THREAD_BLOCKED -> running k = idle_thread k) ->
  (if decide (running k = idle_thread k) then idle_code c' else coded (running k) c') ->
  ~ retrying c -> ~ retrying c' -> between c' = between c -> mach_inv k' (<[running k := c']> code).
Proof.
  intros Hm Hcode Hsw Hsd Hru Hsb Hc' Hn Hn' Hbt.
  pose proof (switched_alive k code Hm k s k' Hsw Hsd eq_refl (fun _ => eq_refl) (alive_next k code Hm _ Hru)) as Halv.
  destruct Hsw as (Hs & Hsr & Hi & _ & Hst). assert (Hrun : st k (running k) = Some THREAD_RUNNING) by apply Hm.
  split; [done| | | |by intros].
  - eapply (code_step k); [exact Hcode|apply Hm|apply (sr_idle _ _ Hsr)|exact Halv|exact Hc'].
  - eapply (lock_frame k); [exact Hcode|apply Hm|apply (sr_holders _ _ Hsr)| |exact Hbt]. by rewrite (sr_semas _ _ Hsr).
  - eapply (sync_frame k); [exact Hcode|apply Hm|apply (sr_semas _ _ Hsr)|apply (sr_idle _ _ Hsr)| |apply Hm|done|done].
    intros t Hti. rewrite Hst. destruct (decide (t = running k')) as [E1|E1]; [|destruct (decide (t = running k)) as [E2|E2]].
    + subst t. split; [done|]. destruct Hru as [?|[E|E]]; [done|rewrite E in *; congruence|congruence].
    + subst t. split; [|congruence]. intros [= ->]. by destruct Hti; auto.
    + done.
Qed.
Lemma queue_next k : sched_inv k ->
  hd (idle_thread k) (queue k) = idle_thread k \/ hd (idle_thread k) (queue k) = running k \/
  st k (hd (idle_thread k) (queue k)) = Some THREAD_READY.
Proof.
  intros Hk. unfold queue. destruct (ready_list k) as [|t ts] eqn:E.
  - case_decide; cbn; auto.
  - assert (st k t = Some THREAD_READY) by (apply (so_ready _ (si_ok _ Hk)); rewrite E; left). case_decide; cbn; auto.
Qed.
Lemma exec_yield k code rest : mach_inv k code -> code !! running k = Some (YIELD :: rest) -> step_ok k code YIELD rest.
Proof.
  intros Hm Hcode. pose proof (not_idle k code _ _ Hm Hcode) as [Hni Hcd].
  apply coded_cases in Hcd as (cs & Hrest & Hcs). destruct (rest_calls k code _ rest Hcode cs Hrest Hcs) as (Hcr & Hbr & Hnr).
  unfold step_ok. cbn. unfold intr_get_level. wp_step. wp_step. wp_step. apply thread_yield_spec; [apply Hm|].
  intros k' Hsw Hru _. wp_step. cbn [app].
  eapply keep_gave_up; [done|exact Hcode|exact Hsw|done|rewrite Hru; apply queue_next, Hm|done| | | |exact Hbr].
  - apply (if_coded k); [done|]. apply cd_level; [done|]. intros s b rest' ->. apply Hnr. by repeat eexists.
  - by intros (?&?&?&?).
  - by intros (?&?&?&?).
Qed.
Lemma exec_idle k code rest : mach_inv k code -> code !! running k = Some (IDLE :: rest) -> step_ok k code IDLE rest.
Proof.
  intros Hm Hcode. pose proof (code_shape k code _ _ Hm Hcode) as Hsh.
  assert (H : running k = idle_thread k /\ rest = []).
  { case_decide; [by inversion Hsh|]. by apply coded_cases in Hsh. }
  destruct H as [Hid ->]. unfold step_ok. cbn. unfold intr_disable, intr_get_level, set_intr.
  wp_step. wp_step. wp_step. wp_step. wp_step. wp_step. wp_step. change (set_cpu _ k) with (with_intr false k).
  pose proof (mach_inv_off _ _ Hm) as Hm'. apply thread_block_spec; [apply Hm'|done|]. intros k' Hsw Hru _. wp_step.
  eapply (keep_gave_up (with_intr false k)); [exact Hm'|exact Hcode|exact Hsw|done| | | | | |done].
  - rewrite Hru. unfold next_up. cbn. destruct (ready_list k) as [|t ts] eqn:E; [by left|]. right. right.
    apply (so_ready _ (si_ok _ (mi_sched _ _ Hm))). rewrite E. left.
  - done.
  - cbn. rewrite decide_True by done. apply ic_level, ic_idle.
  - by intros (?&?&?&?).
  - by intros (?&?&?&?).
Qed.
Lemma preempt_step k code c k' : mach_inv k code -> intr_on (the_cpu k) = true -> code !! running k = Some c ->
  thread_yield_body k = Ok (tt, k') -> mach_inv k' (<[running k := SETLEVEL true :: c]> code).
Proof.
  intros Hm Hon Hcode E.
  assert (Hn : ~ retrying c).
  { intros (s & b & rest & ->). pose proof (mi_intr _ _ Hm _ _ _ Hcode). congruence. }
  pose proof (co_code _ _ (mi_code _ _ Hm) _ _ Hcode) as Hsh.
  assert (H : mwp thread_yield_body k (fun _ k' => mach_inv k' (<[running k := SETLEVEL true :: c]> code))).
  { apply thread_yield_spec; [apply Hm|]. intros k1 Hsw Hru _.
    eapply keep_gave_up; [done|exact Hcode|exact Hsw|done|rewrite Hru; apply queue_next, Hm|done| |done| |done].
    - case_decide; [by apply ic_level|]. apply cd_level; [done|]. intros s b rest ->. apply Hn. by repeat eexists.
    - by intros (?&?&?&?). }
  unfold mwp in H. by rewrite E in H.
Qed.

(** ** The machine's invariant *)
Lemma exec_ok k code i rest : mach_inv k code -> code !! running k = Some (i :: rest) -> misuse k i = false ->
  step_ok k code i rest.
Proof.
  intros Hm Hcode Hmis. destruct i; eauto using exec_down, exec_retry, exec_up, exec_check, exec_hold, exec_clear,
    exec_wait, exec_link, exec_signal, exec_unlink, exec_store, exec_broadcast, exec_setlevel, exec_yield, exec_idle.
Qed.
(** A misused call ends in a failed assertion, or on an object that does not exist. *)
Definition fails {A} (m : TM A) (k : kst) : Prop := forall r, m k <> Ok r.
Lemma fails_bind {A B} (m : TM A) (f : A -> TM B) k :
  fails m k \/ mwp m k (fun a k' => fails (f a) k') -> fails (m ≫= f) k.
Proof.
  unfold mwp. intros H r. unfold mbind, M_bind. destruct (m k) as [[a k']| | |] eqn:E; try done.
  destruct H as [H|H]; [by destruct (H (a, k'))|]. apply H.
Qed.
Lemma fails_assert k : fails (assert false) k.
Proof. by intros r. Qed.
Lemma fails_assert_held k l : sched_inv k -> holders k !! l <> Some (running k) -> fails (assert_held l) k.
Proof.
  intros Hk Hl. apply fails_bind. right. apply lock_held_spec; [done|].
  rewrite bool_decide_eq_false_2 by done. apply fails_assert.
Qed.
Lemma fails_deref {A} (f : kst -> option A) k : f k = None -> fails (k ← get; lift (deref (f k))) k.
Proof. intros E r. unfold mbind, M_bind, get, lift. cbn. by rewrite E. Qed.
Ltac fails_next := apply fails_bind; right.
Lemma exec_misuse k code i rest : mach_inv k code -> code !! running k = Some (i :: rest) -> misuse k i = true ->
  fails (exec i) k.
Proof.
  intros Hm Hcode Hmis. pose proof (mi_sched _ _ Hm) as Hk. pose proof (run_status k code Hm) as Hrun.
  destruct i as [s|s b|s|l|l|l|c l|c|c l|c|c ws|c l|b| |]; cbn in Hmis |- *; try done; apply bool_decide_eq_true_1 in Hmis.
  - fails_next. apply not_interrupt_spec; [done|]. fails_next. unfold intr_disable, intr_get_level, set_intr.
    wp_step. wp_step. wp_step. wp_step. wp_step. apply fails_bind. left. apply fails_bind. left. by apply fails_deref.
  - apply fails_bind. left. apply fails_bind. right. unfold intr_disable, intr_get_level, set_intr.
    wp_step. wp_step. wp_step. wp_step. wp_step. apply fails_bind. left. apply fails_bind. left. by apply fails_deref.
  - fails_next. apply not_interrupt_spec; [done|]. fails_next. apply lock_held_spec; [done|].
    rewrite bool_decide_eq_true_2 by done. apply fails_bind. left. apply fails_assert.
  - apply fails_bind. left. by apply fails_assert_held.
  - fails_next. apply not_interrupt_spec; [done|]. apply fails_bind. left. by apply fails_assert_held.
  - fails_next. apply thread_current_spec; [done|]. apply fails_bind. left. by apply fails_deref.
  - fails_next. apply not_interrupt_spec; [done|]. apply fails_bind. left. by apply fails_assert_held.
  - apply fails_bind. left. by apply fails_deref.
  - apply fails_bind. left. by apply fails_deref.
Qed.
Lemma step_inv m m' : mach_inv m.1 m.2 -> step m m' -> mach_inv m'.1 m'.2.
Proof.
  intros Hm Hs. destruct Hs as [k code i rest more k' Hc E|k code c k' Hon Hc E]; cbn in *; [|by eapply preempt_step].
  destruct (misuse k i) eqn:Hmis; [by destruct (exec_misuse _ _ _ _ Hm Hc Hmis (more, k'))|].
  pose proof (exec_ok _ _ _ _ Hm Hc Hmis) as H. unfold step_ok, mwp in H. by rewrite E in H.
Qed.
Lemma reachable_inv m m' : mach_inv m.1 m.2 -> reachable m m' -> mach_inv m'.1 m'.2.
Proof. intros Hm. induction 1; [done|]. by eapply step_inv. Qed.

(** ** Conditions are used with their lock *)
(** What a step does to semaphores, locks and conditions, and the code it goes on with. *)
Definition effect (k : kst) (i : instr) (more : list instr) (k' : kst) : Prop :=
  (forall s, is_Some (semas k !! s) -> is_Some (semas k' !! s)) /\
  holders k' = match i with HOLD l => <[l := running k]> (holders k) | CLEAR l => delete l (holders k) | _ => holders k end /\
  conds k' = match i with STORE c ws => <[c := ws]> (conds k) | _ => conds k end /\
  match i with
  | DOWN s | RETRY s _ => more = [] \/ exists b, more = [RETRY s b]
  | CLEAR l => more = [] /\ holders k !! l = Some (running k)
  | WAIT c l => more = LINK c :: lock_release l ++ sema_down (WaiterSema (running k)) ++ lock_acquire l /\
      is_Some (semas k' !! WaiterSema (running k)) /\ holders k !! l = Some (running k)
  | LINK c => exists ws, conds k !! c = Some ws /\ more = [STORE c (ws ++ [running k])]
  | SIGNAL c l => more = [UNLINK c] /\ holders k !! l = Some (running k)
  | UNLINK c => exists ws, conds k !! c = Some ws /\
      more = match ws with [] => [] | w :: ws' => [STORE c ws'; UP (WaiterSema w)] end
  | BROADCAST c l => more = [] \/ more = [SIGNAL c l; BROADCAST c l]
  | YIELD => exists b, more = [SETLEVEL b]
  | IDLE => more = [SETLEVEL true; IDLE]
  | _ => more = []
  end.
Lemma put_sema_grows k s x : forall s', is_Some (semas k !! s') -> is_Some (semas (put_sema s x k) !! s').
Proof.
  intros s' H. cbn. destruct (decide (s' = s)) as [->|]; [rewrite lookup_insert_eq; by eexists|by rewrite lookup_insert_ne].
Qed.
Lemma down_effect k s x old : sched_inv k -> semas k !! s = Some x -> intr_on (the_cpu k) = false ->
  mwp (down_loop s old) k (fun _ k' => (forall s', is_Some (semas k !! s') -> is_Some (semas k' !! s')) /\
    holders k' = holders k /\ conds k' = conds k).
Proof.
  intros Hk Hx Hi. eapply down_loop_spec; [done|exact Hx|done| |].
  - intros _. split; [apply put_sema_grows|done].
  - intros _ k' k1 Hsw _. destruct Hsw as (_ & Hsr & _). rewrite (sr_semas _ _ Hsr), (sr_holders _ _ Hsr), (sr_conds _ _ Hsr).
    split; [apply put_sema_grows|done].
Qed.
Lemma down_more s (b : bool) old : (if b then [] else [RETRY s old]) = [] \/ exists b', (if b then [] else [RETRY s old]) = [RETRY s b'].
Proof. destruct b; [by left|right; by exists old]. Qed.
Lemma exec_effect k code i rest : mach_inv k code -> code !! running k = Some (i :: rest) -> misuse k i = false ->
  mwp (exec i) k (effect k i).
Proof.
  intros Hm Hcode Hmis. pose proof (mi_sched _ _ Hm) as Hk. pose proof (run_status k code Hm) as Hrun.
  destruct i as [s|s b|s|l|l|l|c l|c|c l|c|c ws|c l|b| |]; cbn in Hmis |- *;
    repeat match type of Hmis with bool_decide _ = false => apply bool_decide_eq_false_1 in Hmis end.
  - destruct (semas k !! s) as [x|] eqn:Hx; [|done]. wp_step. apply not_interrupt_spec; [done|].
    unfold intr_disable, intr_get_level, set_intr. wp_step. wp_step. wp_step. wp_step. wp_step. wp_step. wp_step.
    change (set_cpu _ k) with (with_intr false k).
    eapply mwp_mono; [apply (down_effect (with_intr false k) s x); [by apply (sched_inv_fields k)|done..]|].
    intros b k' (H1 & H2 & H3). wp_step. split; [exact H1|]. split; [exact H2|]. split; [exact H3|]. apply down_more.
  - destruct (sy_retry _ _ (mi_sync _ _ Hm) _ _ _ _ Hcode) as [x Hx]. wp_step.
    eapply mwp_mono; [apply (down_effect k s x); [done|done|by eapply (mi_intr _ _ Hm)]|].
    intros b' k' (H1 & H2 & H3). wp_step. split; [exact H1|]. split; [exact H2|]. split; [exact H3|]. apply down_more.
  - destruct (semas k !! s) as [x|] eqn:Hx; [|done]. wp_step. eapply sema_up_upped; [done|apply Hm|exact Hx|].
    intros k' Hup. wp_step. destruct (upped_facts _ _ _ _ Hup Hk) as (Es & Eh & Ec & _).
    split; [|done]. intros s'. rewrite Es. apply (put_sema_grows k).
  - wp_step. apply not_interrupt_spec; [done|]. wp_step. apply lock_held_spec; [done|].
    wp_step. wp_step; [by rewrite bool_decide_eq_false_2|]. by wp_step.
  - wp_step. apply thread_current_spec; [done|]. wp_step. wp_step. by wp_step.
  - apply dec_stable in Hmis. wp_step. apply assert_held_spec; [done|done|]. wp_step. wp_step. by wp_step.
  - apply dec_stable in Hmis. wp_step. apply not_interrupt_spec; [done|]. wp_step. apply assert_held_spec; [done|done|].
    wp_step. apply thread_current_spec; [done|]. unfold sema_init, set_sema. wp_step. wp_step. wp_step.
    split; [apply put_sema_grows|]. split; [done|]. split; [done|]. split; [done|]. split; [|done].
    cbn. rewrite lookup_insert_eq. by eexists.
  - destruct (conds k !! c) as [ws|] eqn:Ec; [|done]. wp_step. apply thread_current_spec; [done|].
    wp_step. eapply get_cond_spec; [exact Ec|]. wp_step. split; [done|]. split; [done|]. split; [done|]. by exists ws.
  - apply dec_stable in Hmis. wp_step. apply not_interrupt_spec; [done|]. wp_step. apply assert_held_spec; [done|done|]. by wp_step.
  - destruct (conds k !! c) as [ws|] eqn:Ec; [|done]. wp_step. eapply get_cond_spec; [exact Ec|]. wp_step.
    split; [done|]. split; [done|]. split; [done|]. by exists ws.
  - wp_step. wp_step. by wp_step.
  - destruct (conds k !! c) as [ws|] eqn:Ec; [|done]. wp_step. eapply get_cond_spec; [exact Ec|]. wp_step.
    split; [done|]. split; [done|]. split; [done|]. destruct ws; [by left|by right].
  - wp_step. apply intr_set_level_spec; [apply Hk|]. by wp_step.
  - unfold intr_get_level. wp_step. wp_step. wp_step. apply thread_yield_spec; [done|]. intros k' (_ & Hsr & _) _ _. wp_step.
    unfold effect. rewrite (sr_semas _ _ Hsr), (sr_holders _ _ Hsr), (sr_conds _ _ Hsr).
    split; [done|]. split; [done|]. split; [done|]. by eexists.
  - unfold intr_disable, intr_get_level, set_intr. wp_step. wp_step. wp_step. wp_step. wp_step. wp_step. wp_step.
    change (set_cpu _ k) with (with_intr false k). apply thread_block_spec; [by apply (sched_inv_fields k)|done|].
    intros k' (_ & Hsr & _) _ _. wp_step. unfold effect. by rewrite (sr_semas _ _ Hsr), (sr_holders _ _ Hsr), (sr_conds _ _ Hsr).
Qed.

(** The condition whose list a thread is about to read or write, and what it writes. *)
Fixpoint at_list (c : list instr) : option Z :=
  match c with
  | SETLEVEL _ :: c' => at_list c'
  | LINK x :: _ | UNLINK x :: _ | STORE x _ :: _ => Some x
  | _ => None
  end.
Fixpoint storing (c : list instr) : option (Z * list Z) :=
  match c with SETLEVEL _ :: c' => storing c' | STORE x ws :: _ => Some (x, ws) | _ => None end.
Lemma storing_at c x ws : storing c = Some (x, ws) -> at_list c = Some x.
Proof. induction c as [|i c IH]; [done|]. destruct i; try done. by intros [= -> ->]. Qed.
Lemma calls_at_list t cs : Forall (good_call t) cs -> at_list (calls_code cs) = None.
Proof.
  induction 1 as [|c cs Hc _ IH]; [done|]. destruct c as [l|l|i]; [done|done|]. by destruct i.
Qed.
(** Only the first step of a thread's code, after the levels it restores, is at a list. *)
Lemma rest_at_list t i rest : coded t (i :: rest) \/ idle_code (i :: rest) ->
  match i with SETLEVEL _ => True | _ => at_list rest = None end.
Proof.
  intros [H|H]; [|by inversion H]. apply coded_cases in H. destruct i; try done;
    repeat match goal with
      | H : _ \/ _ |- _ => destruct H
      | H : _ /\ _ |- _ => destruct H
      | H : exists _, _ |- _ => destruct H
      end; subst; try done; by eapply calls_at_list.
Qed.

Section discipline.
(** The lock that goes with each condition. *)
Context (lock_of : Z -> Z).
Definition uses (i : instr) : Prop :=
  match i with WAIT c l | SIGNAL c l | BROADCAST c l => l = lock_of c | _ => True end.
(** The semaphores of waiting threads that code of thread [t] goes on to use exist. *)
Definition named (k : kst) (t : Z) (i : instr) : Prop :=
  match i with
  | LINK _ => is_Some (semas k !! WaiterSema t)
  | STORE _ ws => forall w, w ∈ ws -> is_Some (semas k !! WaiterSema w)
  | UP (WaiterSema w) => is_Some (semas k !! WaiterSema w)
  | _ => True
  end.
Record cond_ok (k : kst) (code : codes) : Prop := CondOk {
  cn_uses : forall t c, code !! t = Some c -> Forall uses c;
  cn_held : forall t x, (code !! t ≫= at_list) = Some x -> holders k !! lock_of x = Some t;
  cn_current : forall t x ws, (code !! t ≫= storing) = Some (x, ws) ->
    exists cur, conds k !! x = Some cur /\ (ws = cur ++ [t] \/ exists w, cur = w :: ws);
  cn_named : forall t c, code !! t = Some c -> Forall (named k t) c;
  cn_waiters : forall x ws w, conds k !! x = Some ws -> w ∈ ws -> is_Some (semas k !! WaiterSema w);
}.
Lemma named_grows k k' t i : (forall s, is_Some (semas k !! s) -> is_Some (semas k' !! s)) -> named k t i -> named k' t i.
Proof. intros Hg. destruct i as [| |[]| | | | | | | | | | | |]; cbn; auto. Qed.

Ltac split_effect := repeat match goal with
  | H : _ /\ _ |- _ => destruct H
  | H : exists _, _ |- _ => destruct H
  | H : _ \/ _ |- _ => destruct H
  end; subst.
(** The code that a step leaves to the running thread is at a list only with the lock. *)
Lemma effect_held k i more k' rest x : effect k i more k' -> match i with SETLEVEL _ => True | _ => at_list rest = None end ->
  uses i -> (forall x, at_list (i :: rest) = Some x -> holders k !! lock_of x = Some (running k)) ->
  at_list (more ++ rest) = Some x -> holders k' !! lock_of x = Some (running k).
Proof.
  intros (_ & Eh & _ & He) Hr Hu Hl Hx.
  assert (Hi : holders k' = holders k /\ holders k !! lock_of x = Some (running k)); [|by destruct Hi as [-> ?]].
  destruct i; cbn in He, Eh, Hu; split_effect; cbn [app lock_release sema_down lock_acquire at_list] in Hx;
    rewrite ?Hr in Hx; try done; (split; [exact Eh|]); try (injection Hx as <-); try done; try (by apply Hl).
  match goal with H : context [match ?l with [] => _ | _ => _ end] |- _ => destruct l end; cbn in Hx; [congruence|].
  injection Hx as <-. by apply Hl.
Qed.
(** What it is about to write is the list as it is, with a thread more or less. *)
Lemma effect_current k i more k' rest x ws : effect k i more k' -> match i with SETLEVEL _ => True | _ => at_list rest = None end ->
  (storing (i :: rest) = Some (x, ws) -> exists cur, conds k !! x = Some cur /\ (ws = cur ++ [running k] \/ exists w, cur = w :: ws)) ->
  storing (more ++ rest) = Some (x, ws) ->
  exists cur, conds k' !! x = Some cur /\ (ws = cur ++ [running k] \/ exists w, cur = w :: ws).
Proof.
  intros (_ & _ & Ec & He) Hr Hl Hx.
  assert (Hn : match i with SETLEVEL _ => True | _ => storing rest <> Some (x, ws) end).
  { destruct i; try done; intros E%storing_at; congruence. }
  destruct i; cbn in He, Ec; split_effect; cbn [app lock_release sema_down lock_acquire storing] in Hx; try done; rewrite Ec.
  - injection Hx as <- <-. eexists. split; [eassumption|by left].
  - match goal with H : context [match ?l with [] => _ | _ => _ end] |- _ => destruct l as [|w ws'] end; cbn in Hx; [done|].
    injection Hx as <- <-. eexists. split; [eassumption|right; by eexists].
  - by apply Hl.
Qed.
Lemma effect_named k i more k' rest : effect k i more k' -> Forall (named k (running k)) (i :: rest) ->
  (forall x ws w, conds k !! x = Some ws -> w ∈ ws -> is_Some (semas k !! WaiterSema w)) ->
  Forall (named k' (running k)) (more ++ rest).
Proof.
  intros (Hg & _ & _ & He) [Hi Hr]%list.Forall_cons Hw. apply list.Forall_app. split.
  2: { eapply list.Forall_impl; [exact Hr|]. intros j. by apply named_grows. }
  destruct i; cbn in He, Hi; split_effect; try (by repeat constructor).
  - constructor; [|constructor]. cbn. intros w [Hin| ->%list_elem_of_singleton]%elem_of_app; apply Hg; [by eapply Hw|done].
  - match goal with H : context [match ?l with [] => _ | _ => _ end] |- _ => idtac | |- context [match ?l with [] => _ | _ => _ end] => destruct l as [|w ws'] end; [done|].
    repeat constructor; cbn; intros; apply Hg; eapply Hw; try eassumption; [by right|by left].
Qed.
Lemma effect_uses k i more k' rest : effect k i more k' -> Forall uses (i :: rest) -> Forall uses (more ++ rest).
Proof.
  intros (_ & _ & _ & He) [Hi Hr]%list.Forall_cons. apply list.Forall_app. split; [|exact Hr].
  destruct i; cbn in He, Hi; split_effect; try (by repeat constructor).
  match goal with |- context [match ?l with [] => _ | _ => _ end] => destruct l end; by repeat constructor.
Qed.
(** Where a thread of the machine is: its first step, and nothing behind it, is at a list. *)
Lemma shape_at_list k code t i rest : mach_inv k code -> code !! t = Some (i :: rest) ->
  match i with SETLEVEL _ => True | _ => at_list rest = None end.
Proof.
  intros Hm Hc. pose proof (co_code _ _ (mi_code _ _ Hm) _ _ Hc) as H. apply (rest_at_list t).
  case_decide; [by right|by left].
Qed.
Lemma cond_exec k code i rest more k' : mach_inv k code -> cond_ok k code -> code !! running k = Some (i :: rest) ->
  misuse k i = false -> exec i k = Ok (more, k') -> cond_ok k' (<[running k := more ++ rest]> code).
Proof.
  intros Hm [Hu Hh Hc Hn Hw] Hcode Hmis E. pose proof (exec_effect _ _ _ _ Hm Hcode Hmis) as He.
  unfold mwp in He. rewrite E in He. pose proof (shape_at_list _ _ _ _ _ Hm Hcode) as Hr.
  pose proof He as (Hg & Eh & Ec & _). pose proof (Hu _ _ Hcode) as Hui. pose proof (Hn _ _ Hcode) as Hni.
  assert (Hat : forall x, at_list (i :: rest) = Some x -> holders k !! lock_of x = Some (running k)).
  { intros x Hx. apply Hh. by rewrite Hcode. }
  split.
  - intros t c. destruct (decide (t = running k)) as [->|Hne]; [|rewrite lookup_insert_ne by done; apply Hu].
    rewrite lookup_insert_eq. intros [= <-]. by eapply effect_uses.
  - intros t x. destruct (decide (t = running k)) as [->|Hne].
    + rewrite lookup_insert_eq. intros Hx. eapply effect_held; try done. by apply list.Forall_cons in Hui as [? _].
    + rewrite lookup_insert_ne by done. intros Hx%Hh. rewrite Eh. destruct i; try done.
      * rewrite lookup_insert_ne; [done|]. intros El. destruct (between_self k code _ _ Hm Hcode l eq_refl) as (_ & Hno & _). congruence.
      * destruct He as (_ & _ & _ & _ & Hl). rewrite lookup_delete_ne; [done|]. congruence.
  - intros t x ws. destruct (decide (t = running k)) as [->|Hne].
    + rewrite lookup_insert_eq. intros Hx. eapply effect_current; try done. intros Hs. apply Hc. by rewrite Hcode.
    + rewrite lookup_insert_ne by done. intros Hx. destruct (Hc t x ws Hx) as (cur & Hcur & Hcase). exists cur. split; [|done].
      rewrite Ec. destruct i; try done. rewrite lookup_insert_ne; [done|]. intros <-.
      assert (Ht : holders k !! lock_of c = Some t).
      { apply Hh. destruct (code !! t) as [ct|]; [|done]. by eapply storing_at. }
      pose proof (Hat c eq_refl). congruence.
  - intros t c. destruct (decide (t = running k)) as [->|Hne].
    + rewrite lookup_insert_eq. intros [= <-]. by eapply effect_named.
    + rewrite lookup_insert_ne by done. intros Hct%Hn. eapply list.Forall_impl; [exact Hct|]. intros j. by apply named_grows.
  - intros x ws w Hx Hin. rewrite Ec in Hx. destruct i; try (by eapply Hg, Hw).
    destruct (decide (c = x)) as [->|Hne]; [rewrite lookup_insert_eq in Hx; injection Hx as <-|rewrite lookup_insert_ne in Hx by done; by eapply Hg, Hw].
    apply list.Forall_cons in Hni as [Hni _]. by apply Hg, Hni.
Qed.
Lemma cond_preempt k code c k' : mach_inv k code -> cond_ok k code -> code !! running k = Some c ->
  thread_yield_body k = Ok (tt, k') -> cond_ok k' (<[running k := SETLEVEL true :: c]> code).
Proof.
  intros Hm [Hu Hh Hc Hn Hw] Hcode E.
  assert (H : mwp thread_yield_body k (fun _ k' => semas k' = semas k /\ holders k' = holders k /\ conds k' = conds k)).
  { apply thread_yield_spec; [apply Hm|]. intros k1 (_ & Hsr & _) _ _.
    by rewrite (sr_semas _ _ Hsr), (sr_holders _ _ Hsr), (sr_conds _ _ Hsr). }
  unfold mwp in H. rewrite E in H. destruct H as (Es & Eh & Ec).
  set (code' := <[running k := SETLEVEL true :: c]> code).
  assert (Hat : forall t, (code' !! t ≫= at_list) = (code !! t ≫= at_list) /\ (code' !! t ≫= storing) = (code !! t ≫= storing)).
  { intros t. unfold code'. destruct (decide (t = running k)) as [->|Hne]; [rewrite lookup_insert_eq, Hcode; done|by rewrite lookup_insert_ne]. }
  split; rewrite ?Eh, ?Ec, ?Es.
  - intros t ct. unfold code'. destruct (decide (t = running k)) as [->|Hne]; [|rewrite lookup_insert_ne by done; apply Hu].
    rewrite lookup_insert_eq. intros [= <-]. constructor; [done|by eapply Hu].
  - intros t x. rewrite (proj1 (Hat t)). apply Hh.
  - intros t x ws. rewrite (proj2 (Hat t)). apply Hc.
  - intros t ct Hct. assert (Forall (named k t) ct) as Hf.
    { unfold code' in Hct. destruct (decide (t = running k)) as [->|Hne]; [|rewrite lookup_insert_ne in Hct by done; by apply Hn].
      rewrite lookup_insert_eq in Hct. injection Hct as <-. constructor; [done|by eapply Hn]. }
    eapply list.Forall_impl; [exact Hf|]. intros j. apply named_grows. by rewrite Es.
  - exact Hw.
Qed.
End discipline.

(** ** Correctness of the machine *)
(** Where threads start: whole calls to run, nobody waiting, every lock free. *)
Record initial (k : kst) (code : codes) : Prop := Initial {
  in_sched : sched_inv k;
  in_code : forall t c, code !! t = Some c ->
    if decide (t = idle_thread k) then c = [IDLE] else exists cs, c = calls_code cs /\ Forall (good_call t) cs;
  in_alive : forall t, is_Some (code !! t) <-> alive k t;
  in_idle : is_Some (code !! idle_thread k);
  in_blocked : forall t, st k t = Some THREAD_BLOCKED -> t = idle_thread k;
  in_semas : forall s x, semas k !! s = Some x -> waiters x = [] /\ 0 <= value x;
  in_locks : forall l x, semas k !! LockSema l = Some x -> value x = 1;
  in_holders : holders k = ∅;
  in_conds : forall c ws, conds k !! c = Some ws -> ws = [];
}.
Lemma initial_shape k code t c : initial k code -> code !! t = Some c ->
  between c = None /\ ~ retrying c /\ if decide (t = idle_thread k) then idle_code c else coded t c.
Proof.
  intros Hi Hc. pose proof (in_code _ _ Hi t c Hc) as H. case_decide.
  - subst c. split; [done|]. split; [by intros (?&?&?&?)|apply ic_idle].
  - destruct H as (cs & -> & Hcs). split; [by eapply calls_between|]. split; [by eapply calls_not_retrying|by apply cd_calls].
Qed.
Lemma initial_inv k code : initial k code -> mach_inv k code.
Proof.
  intros Hi. pose proof (initial_shape k code) as Hsh.
  assert (Hb : forall t l, (code !! t ≫= between) <> Some l).
  { intros t l. destruct (code !! t) as [c|] eqn:Hc; [|done]. destruct (Hsh t c Hi Hc) as (E & _). cbn. by rewrite E. }
  assert (Hr : forall t s b rest, code !! t <> Some (RETRY s b :: rest)).
  { intros t s b rest Hc. destruct (Hsh t _ Hi Hc) as (_ & Hn & _). apply Hn. by repeat eexists. }
  assert (Ho : forall t l, ~ owns k code t l).
  { intros t l [H|H]; [by rewrite (in_holders _ _ Hi) in H|by eapply Hb]. }
  split; [apply Hi| | | |].
  - split; [|exact (in_alive _ _ Hi)|exact (in_idle _ _ Hi)]. intros t c Hc. by destruct (Hsh t c Hi Hc) as (_ & _ & ?).
  - split; [|by intros t l H%Hb|by intros t l; rewrite (in_holders _ _ Hi)].
    intros l x Hx. left. split; [by eapply (in_locks _ _ Hi)|done].
  - split.
    + intros s x Hx. by apply (in_semas _ _ Hi s x).
    + intros s x Hx. destruct (in_semas _ _ Hi s x Hx) as [-> _]. split; [constructor|].
      intros t Ht. by apply not_elem_of_nil in Ht.
    + intros t Ht. left. by apply (in_blocked _ _ Hi).
    + intros s x Hx Hne. by destruct (in_semas _ _ Hi s x Hx).
    + intros t s b rest H. by apply Hr in H.
  - intros s b rest H. by apply Hr in H.
Qed.
Lemma initial_reachable k code k' code' : initial k code -> reachable (k, code) (k', code') -> mach_inv k' code'.
Proof. intros Hi H. by apply (reachable_inv _ _ (initial_inv k code Hi : mach_inv (k, code).1 (k, code).2)) in H. Qed.

(** C3. Mutual exclusion: whatever the interleaving of steps and preemptions, a
    lock's semaphore is 1 when no thread has the lock and 0 when exactly one has it
    (as its holder, or about to become its holder, or having just given it up). *)
Theorem lock_mutual_exclusion k code k' code' l x : initial k code -> reachable (k, code) (k', code') ->
  semas k' !! LockSema l = Some x ->
  (value x = 1 /\ forall t, ~ owns k' code' t l) \/
  (value x = 0 /\ exists t, owns k' code' t l /\ forall t', owns k' code' t' l -> t' = t).
Proof. intros Hi Hr Hx. by apply (lo_value _ _ (mi_lock _ _ (initial_reachable _ _ _ _ Hi Hr))). Qed.

(** C7. No wake-up is lost: whatever the interleaving, a blocked thread waits on some
    semaphore, and while threads wait on a semaphore of positive value, there are at
    least as many runnable threads about to test it again as its value says. *)
Theorem sema_no_lost_wakeup k code k' code' : initial k code -> reachable (k, code) (k', code') ->
  (forall t, st k' t = Some THREAD_BLOCKED -> t <> idle_thread k' ->
     exists s x, semas k' !! s = Some x /\ t ∈ waiters x) /\
  (forall s x, semas k' !! s = Some x -> waiters x <> [] ->
     exists ws, NoDup ws /\ value x <= zlen ws /\
       forall w, w ∈ ws -> (w ∈ ready_list k' \/ w = running k') /\
         exists b rest, code' !! w = Some (RETRY s b :: rest)).
Proof.
  intros Hi Hr. pose proof (initial_reachable _ _ _ _ Hi Hr) as Hm. split.
  - intros t Ht Hn. destruct (sy_blocked _ _ (mi_sync _ _ Hm) t Ht) as [|]; done.
  - intros s x Hx Hne. destruct (sy_woken _ _ (mi_sync _ _ Hm) s x Hx Hne) as (ws & Hnd & Hl & Hw).
    exists ws. split; [done|]. split; [done|]. intros w Hin. destruct (Hw w Hin) as [(b & rest & Hc) Hb].
    split; [|by exists b, rest].
    destruct (proj1 (co_alive _ _ (mi_code _ _ Hm) w) ltac:(by eexists)) as (sw & Hsw & Hd).
    pose proof (si_ok _ (mi_sched _ _ Hm)) as Hok. destruct sw; try congruence.
    + right. by apply (so_unique _ Hok).
    + left. destruct (so_status _ Hok w Hsw) as [|E]; [done|]. subst w. exfalso.
      by apply (idle_not_retrying _ _ _ _ _ (mi_code _ _ Hm) Hc).
Qed.

Lemma calls_named k t cs : Forall (good_call t) cs -> Forall (named k t) (calls_code cs).
Proof.
  induction 1 as [|c cs Hc _ IH]; [constructor|]. apply list.Forall_app. split; [|exact IH].
  destruct c as [l|l|i]; [by repeat constructor|by repeat constructor|]. constructor; [|constructor].
  destruct i as [s|s b|s|l|l|l|c l|c|c l|c|c ws|c l|b| |]; try done. by destruct s.
Qed.
Lemma initial_cond lock_of k code : initial k code -> (forall t c, code !! t = Some c -> Forall (uses lock_of) c) -> cond_ok lock_of k code.
Proof.
  intros Hi Hu.
  assert (Hat : forall t x, (code !! t ≫= at_list) <> Some x).
  { intros t x. destruct (code !! t) as [c|] eqn:Hc; [|done]. pose proof (in_code _ _ Hi t c Hc) as H. cbn.
    case_decide; [by subst c|]. destruct H as (cs & -> & Hcs). by rewrite (calls_at_list t). }
  split.
  - exact Hu.
  - by intros t x H%Hat.
  - intros t x ws H. destruct (Hat t x). destruct (code !! t); [|done]. by eapply storing_at.
  - intros t c Hc. pose proof (in_code _ _ Hi t c Hc) as H. case_decide; [subst c; by repeat constructor|].
    destruct H as (cs & -> & Hcs). by apply calls_named.
  - intros x ws w Hx Hin. rewrite (in_conds _ _ Hi _ _ Hx) in Hin. by apply not_elem_of_nil in Hin.
Qed.
Lemma cond_step lock_of m m' : mach_inv m.1 m.2 -> cond_ok lock_of m.1 m.2 -> step m m' -> cond_ok lock_of m'.1 m'.2.
Proof.
  intros Hm Hc Hs. destruct Hs as [k code i rest more k' Hcode E|k code c k' Hon Hcode E]; cbn in *; [|by eapply cond_preempt].
  destruct (misuse k i) eqn:Hmis; [by destruct (exec_misuse _ _ _ _ Hm Hcode Hmis (more, k'))|]. by eapply cond_exec.
Qed.
Lemma reachable_cond lock_of k code k' code' : initial k code -> (forall t c, code !! t = Some c -> Forall (uses lock_of) c) ->
  reachable (k, code) (k', code') -> mach_inv k' code' /\ cond_ok lock_of k' code'.
Proof.
  intros Hi Hu Hr. remember (k', code') as m' eqn:E.
  assert (H : mach_inv m'.1 m'.2 /\ cond_ok lock_of m'.1 m'.2); [|by subst m'].
  clear E. induction Hr as [|m1 m2 _ [Hm Hc] Hs]; [split; [by apply initial_inv|by apply initial_cond]|].
  split; [by eapply step_inv|by eapply cond_step].
Qed.


(** *** A concrete run *)
Definition next (m : kst * codes) : option (kst * codes) :=
  match m.2 !! running m.1 with
  | Some (i :: rest) =>
      match exec i m.1 with Ok (more, k') => Some (k', <[running m.1 := more ++ rest]> m.2) | _ => None end
  | _ => None
  end.
Fixpoint nexts (n : nat) (m : kst * codes) : option (kst * codes) :=
  match n with O => Some m | S n' => m' ← nexts n' m; next m' end.
Lemma next_step m m' : next m = Some m' -> step m m'.
Proof.
  destruct m as [k code]. unfold next. cbn. destruct (code !! running k) as [[|i rest]|] eqn:Hc; try done.
  destruct (exec i k) as [[more k']| | |] eqn:E; try done. intros [= <-]. by apply (step_exec k code i rest).
Qed.
Lemma nexts_reachable n m m' : nexts n m = Some m' -> reachable m m'.
Proof.
  revert m'. induction n as [|n IH]; intros m'; cbn; [intros [= <-]; apply reach_here|].
  destruct (nexts n m) as [m1|]; [|done]. cbn. intros H. eapply reach_step; [by apply IH|by apply next_step].
Qed.
Definition ex_code (a b c : list call) : codes :=
  {[4096 := [IDLE]; 8192 := calls_code a; 12288 := calls_code b; 16384 := calls_code c]}.
Ltac lookups H :=
  first [apply lookup_insert_Some in H as [[? ?]|[? H]]; [|lookups H] | apply lookup_singleton_Some in H as [? ?]].
Lemma ex_alive a b c t : is_Some (ex_code a b c !! t) <-> alive ex_kst t.
Proof.
  unfold alive, st, ex_kst, ex_code. cbn [threads].
  destruct (decide (t = 4096)) as [->|]; [split; intros _; [by eexists|by eexists]|].
  destruct (decide (t = 8192)) as [->|]; [split; intros _; [by eexists|by eexists]|].
  destruct (decide (t = 12288)) as [->|]; [split; intros _; [by eexists|by eexists]|].
  destruct (decide (t = 16384)) as [->|]; [split; intros _; [by eexists|by eexists]|].
  rewrite !lookup_insert_ne, !lookup_singleton_ne by done.
  split; [by intros []|by intros (? & ? & _)].
Qed.
Lemma ex_started a b c : Forall (good_call 8192) a -> Forall (good_call 12288) b -> Forall (good_call 16384) c ->
  initial ex_kst (ex_code a b c).
Proof.
  intros Ha Hb Hc. split; [exact ex_kst_inv| |apply ex_alive|by eexists| | | |reflexivity|].
  - intros t x H. unfold ex_code in H.
    apply lookup_insert_Some in H as [[<- <-]|[? H]]; [reflexivity|].
    apply lookup_insert_Some in H as [[<- <-]|[? H]]; [rewrite decide_False by done; by exists a|].
    apply lookup_insert_Some in H as [[<- <-]|[? H]]; [rewrite decide_False by done; by exists b|].
    apply lookup_singleton_Some in H as [<- <-]. rewrite decide_False by done. by exists c.
  - intros t. unfold st, ex_kst. cbn [threads idle_thread]. intros (th & H & Hs)%fmap_Some.
    lookups H; by subst.
  - intros s x H. unfold ex_kst in H. cbn [semas] in H. lookups H; by subst.
  - intros l x H. unfold ex_kst in H. cbn [semas] in H. lookups H; by subst.
  - intros y ws H. unfold ex_kst in H. cbn [conds] in H. by apply lookup_singleton_Some in H as [_ <-].
Qed.
(** Two threads wait on the same semaphore with a lock held by the first; the third
    ups it. *)
Definition ex_codes : codes :=
  ex_code [Acquire 1; Other (DOWN (Sema 100)); Release 1] [Other (DOWN (Sema 100))] [Other (UP (Sema 100)); Release 2].
Lemma ex_initial : initial ex_kst ex_codes.
Proof. apply ex_started; by repeat constructor. Qed.

Definition ex_reached (n : nat) : kst * codes := default (ex_kst, ex_codes) (nexts n (ex_kst, ex_codes)).
Lemma ex_reachable n m : nexts n (ex_kst, ex_codes) = Some m -> reachable (ex_kst, ex_codes) m.
Proof. apply nexts_reachable. Qed.
(** The lock is taken, two threads sleep, the third has upped the semaphore. *)
Lemma ex_run : exists m, nexts 6 (ex_kst, ex_codes) = Some m /\ semas m.1 !! Sema 100 = Some (Semaphore 1 [12288]) /\
  semas m.1 !! LockSema 1 = Some (Semaphore 0 []) /\ m.2 !! running m.1 = Some [CLEAR 2; UP (LockSema 2)].
Proof.
  destruct (nexts 6 (ex_kst, ex_codes)) as [m|] eqn:E; [|exfalso; revert E; vm_compute; discriminate].
  exists m. split; [done|].
  assert (H : match nexts 6 (ex_kst, ex_codes) with Some m => semas m.1 !! Sema 100 = Some (Semaphore 1 [12288]) /\
    semas m.1 !! LockSema 1 = Some (Semaphore 0 []) /\ m.2 !! running m.1 = Some [CLEAR 2; UP (LockSema 2)] | None => False end).
  { vm_compute. split; [reflexivity|]. by split. }
  by rewrite E in H.
Qed.

Lemma lock_mutual_exclusion_witness : exists k' code', reachable (ex_kst, ex_codes) (k', code') /\
  exists t, owns k' code' t 1 /\ forall t', owns k' code' t' 1 -> t' = t.
Proof.
  destruct ex_run as ([k' code'] & Hr & _ & Hl & _). exists k', code'.
  pose proof (ex_reachable 6 _ Hr) as Hreach. split; [exact Hreach|].
  destruct (lock_mutual_exclusion _ _ _ _ 1 _ ex_initial Hreach Hl) as [[Hv _]|[_ H]]; [discriminate Hv|exact H].
Defined.
Lemma sema_no_lost_wakeup_witness : exists k' code' w, reachable (ex_kst, ex_codes) (k', code') /\
  semas k' !! Sema 100 = Some (Semaphore 1 [12288]) /\ (w ∈ ready_list k' \/ w = running k').
Proof.
  destruct ex_run as ([k' code'] & Hr & Hs & _ & _). pose proof (ex_reachable 6 _ Hr) as Hreach.
  destruct (sema_no_lost_wakeup _ _ _ _ ex_initial Hreach) as [_ H].
  destruct (H (Sema 100) _ Hs) as (ws & _ & Hl & Hw); [discriminate|].
  destruct ws as [|w ws]; [cbv in Hl; by destruct Hl|].
  exists k', code', w. split; [exact Hreach|]. split; [exact Hs|]. apply Hw. left.
Defined.
(** One thread waits for a condition that another signals. *)
Definition ex_waiting : codes :=
  ex_code [Acquire 1; Other (WAIT 50 1); Release 1] [Acquire 1; Other (SIGNAL 50 1); Release 1] [].
Lemma ex_waiting_uses t c : ex_waiting !! t = Some c -> Forall (uses (fun _ => 1)) c.
Proof. intros H. unfold ex_waiting, ex_code in H. lookups H; subst; by repeat constructor. Qed.
