(* ===== verification/Thread.v ===== *)
(** * Thread: creation, children, descriptors and sleep (threads/thread.c)

    The rest of thread.c, on the state of Sched.v.  Code that takes a lock is run
    here by a thread that nothing interrupts ([run] of Synch.v): it is a [Hang] if
    the lock is not free.  A marker's and a thread's name are its 16 bytes.  The
    addresses of the static locks and of code are the linker's. *)
From S2P Require Import Prelude.
From S2P Require Import Vaddr.
From S2P Require Import Palloc.
From S2P Require Import Pagedir.
From S2P Require Import KList.
From S2P Require Import Sched.
From S2P Require Import Synch.

Abbreviation NULL := Palloc.NULL.
Definition tid_lock : Z := 0xc0020000.
Definition fs_lock : Z := 0xc0020020.
Definition process_lock : Z := 0xc0020040.
Definition NAME_LEN : Z := 16.

(** ** Strings in a name *)
(** The bytes of a string in a buffer, and [strcspn (s, " ")]. *)
Fixpoint cstring (bs : list Z) : list Z :=
  match bs with [] => [] | b :: bs' => if b =? 0 then [] else b :: cstring bs' end.
Fixpoint word_len (s : list Z) : Z :=
  match s with [] => 0 | b :: s' => if b =? 32 then 0 else 1 + word_len s' end.
(** [strlcpy (buf, s, size)]; no room in [buf] is a write past it. *)
Definition copy_name (buf s : list Z) (size : Z) : res (list Z) :=
  if size =? 0 then mret buf
  else deref (zsplice buf 0 (take (Z.to_nat (size - 1)) s ++ [0])).

(** ** Creation *)
Section Create.
(** The addresses of [kernel_thread] and [switch_entry]. *)
Context (kernel_thread_addr switch_entry_addr : Z).

Definition no_marker : child_thread_marker := Marker 0 0 (replicate 16 0) 0 0 0.
(** [list_init (&t->children)]: the two sentinels of a list fall on the first
    bytes of [children[0]], 40 bytes into the thread. *)
Definition scribbled (t : Z) : child_thread_marker :=
  Marker 0 (t + 48) (le_bytes 4 (t + 40) ++ le_bytes 4 0 ++ replicate 8 0) 0 0 0.
Definition init_thread (t : Z) (nm : list Z) (prio : Z) : TM unit :=
  _ ← assert (negb (t =? NULL)); _ ← assert ((PRI_MIN <=? prio) && (prio <=? PRI_MAX));
  n ← lift (copy_name (replicate 16 0) nm NAME_LEN);
  _ ← modify (fun k => set_threads (<[t := Thread 0 THREAD_BLOCKED n (t + PGSIZE) prio
        (scribbled t :: replicate 15 no_marker) 0 NULL 0 0 NULL (replicate 128 0) NULL NULL]> (threads k)) k);
  modify (fun k => set_all (all_list k ++ [t]) k).
Definition alloc_frame (t size : Z) : TM Z :=
  b ← is_thread t; _ ← assert b; _ ← assert (size mod 4 =? 0);
  th ← get_thread t; _ ← upd_thread t (set_stack (stack th - size)); mret (stack th - size).
Definition allocate_tid : TM Z :=
  _ ← run 5 (lock_acquire tid_lock);
  t ← gets next_tid; _ ← modify (fun k => set_next_tid (s32 (next_tid k + 1)) k);
  _ ← run 5 (lock_release tid_lock); mret t.
(** The frames of [kernel_thread], [switch_entry] and [switch_threads]. *)
Definition first_frames (t function aux : Z) : TM unit :=
  kf ← alloc_frame t 12;
  _ ← in_mem (store_word kf NULL); _ ← in_mem (store_word (kf + 4) function); _ ← in_mem (store_word (kf + 8) aux);
  ef ← alloc_frame t 4; _ ← in_mem (store_word ef kernel_thread_addr);
  sf ← alloc_frame t 28;
  _ ← in_mem (store_word (sf + 16) switch_entry_addr); in_mem (store_word (sf + 8) 0).
Definition thread_create (nm : list Z) (prio function aux : Z) : TM Z :=
  _ ← assert (negb (function =? NULL));
  me ← gets running; t ← in_mem (palloc_get_page me PAL_ZERO);
  if t =? NULL then mret TID_ERROR
  else
    _ ← init_thread t nm prio;
    n ← allocate_tid; _ ← upd_thread t (set_tid n);
    _ ← upd_thread t (set_fd_list (replicate 128 0));
    _ ← atomically (_ ← first_frames t function aux; upd_thread t (set_wd NULL));
    _ ← thread_unblock t; mret n.
Definition thread_create_with_parent (par : Z) (nm : list Z) (prio function aux : Z) : TM Z :=
  _ ← assert (negb (function =? NULL));
  me ← gets running; t ← in_mem (palloc_get_page me PAL_ZERO);
  if t =? NULL then mret TID_ERROR
  else
    _ ← init_thread t nm prio;
    _ ← upd_thread t (set_parent par);
    n ← allocate_tid; _ ← upd_thread t (set_tid n);
    _ ← upd_thread t (set_fd_list (replicate 128 0));
    _ ← atomically (first_frames t function aux);
    _ ← thread_unblock t; mret n.
(** [thread_start]: what is left to run is the [sema_down]. *)
Definition idle_name : list Z := [105; 100; 108; 101].
Definition thread_start (idle_addr idle_started : Z) : TM (list instr) :=
  _ ← sema_init (Sema idle_started) 0;
  _ ← thread_create idle_name PRI_MIN idle_addr idle_started;
  _ ← intr_enable; mret (sema_down (Sema idle_started)).
End Create.
(** [kernel_thread] up to the call of [function]. *)
Definition kernel_thread (function : Z) : TM unit :=
  _ ← assert (negb (function =? NULL)); _ ← intr_enable; mret tt.

Definition main_name : list Z := [109; 97; 105; 110].
Definition thread_init : TM unit :=
  l ← intr_get_level; _ ← assert (negb l);
  _ ← lock_init tid_lock; _ ← lock_init fs_lock;
  _ ← modify (fun k => set_wait [] (set_all [] (set_ready [] k)));
  _ ← lock_init process_lock;
  t ← running_thread; _ ← modify (set_initial t);
  _ ← init_thread t main_name PRI_DEFAULT;
  _ ← upd_thread t (set_status THREAD_RUNNING);
  n ← allocate_tid; _ ← upd_thread t (set_tid n);
  modify (set_fd_table (replicate 128 NULL)).
(** The first part of [idle], before its loop. *)
Definition idle_start (idle_started : Z) : TM unit :=
  t ← thread_current; _ ← modify (set_idle t); sema_up (Sema idle_started).
(** [thread_exit] after [process_exit]. *)
Definition thread_exit_tail : TM unit :=
  _ ← intr_disable;
  t ← thread_current; _ ← modify (fun k => set_all (filter (.≠ t) (all_list k)) k);
  _ ← upd_thread t (set_status THREAD_DYING); schedule.

(** ** Looking threads up *)
Fixpoint find_tid (n : Z) (ts : list Z) : TM Z :=
  match ts with
  | [] => mret NULL
  | t :: ts' => th ← get_thread t; if tid th =? n then mret t else find_tid n ts'
  end.
Definition get_thread_by_tid (n : Z) : TM Z := atomically (ts ← gets all_list; find_tid n ts).
Fixpoint any_tid (n : Z) (ts : list Z) (output : bool) : TM bool :=
  match ts with
  | [] => mret output
  | t :: ts' => th ← get_thread t; any_tid n ts' (if tid th =? n then true else output)
  end.
Definition on_ready_list (n : Z) : TM bool := ts ← gets ready_list; any_tid n ts false.
Fixpoint foreach (func : Z -> TM unit) (ts : list Z) : TM unit :=
  match ts with [] => mret tt | t :: ts' => _ ← func t; foreach func ts' end.
(** The links of an element survive its removal, so a [func] that removes the
    element it is given does not disturb the walk. *)
Definition thread_foreach (func : Z -> TM unit) : TM unit :=
  l ← intr_get_level; _ ← assert (negb l); ts ← gets all_list; foreach func ts.
Definition thread_set_priority (p : Z) : TM unit := t ← thread_current; upd_thread t (set_priority p).
Definition thread_get_priority : TM Z := t ← thread_current; th ← get_thread t; mret (priority th).
Definition thread_set_nice (nice : Z) : TM unit := mret tt.
Definition thread_get_nice : TM Z := mret 0.
Definition thread_get_load_avg : TM Z := mret 0.
Definition thread_get_recent_cpu : TM Z := mret 0.

(** ** Children *)
Definition add_child (n : Z) (nm : list Z) : TM unit :=
  atomically (
    t ← thread_current; th ← get_thread t;
    m ← lift (deref (znth (children th) (child_count th)));
    buf ← lift (copy_name (c_name m) nm (word_len nm + 1));
    cs ← lift (deref (zset (children th) (child_count th)
           (Marker n 0 buf (c_invalid m) 0 (c_exec_lock m))));
    upd_thread t (set_children cs (child_count th + 1))).
(** The loop of [remove_child]: markers kept so far at the front of [cs]. *)
Fixpoint remove_loop (n : Z) (i count : Z) (fuel : nat) (cs : list child_thread_marker)
    : res (Z * list child_thread_marker) :=
  match fuel with
  | O => mret (count, cs)
  | S fuel' =>
      m ← deref (znth cs i);
      if negb (c_tid m =? n) then
        d ← deref (znth cs count);
        buf ← copy_name (c_name d) (cstring (c_name m)) (word_len (cstring (c_name m)) + 1);
        cs ← deref (zset cs count (Marker (c_tid m) (c_retval m) buf (c_invalid d) (c_load_result m) (c_exec_lock m)));
        remove_loop n (i + 1) (count + 1) fuel' cs
      else remove_loop n (i + 1) count fuel' cs
  end.
Definition remove_child (n : Z) : TM unit :=
  atomically (
    t ← thread_current; th ← get_thread t;
    '(count, cs) ← lift (remove_loop n 0 0 (Z.to_nat (child_count th)) (children th));
    upd_thread t (set_children cs count)).
(** The index of the child with a given tid. *)
Fixpoint find_marker (n i : Z) (fuel : nat) (cs : list child_thread_marker) : res (option Z) :=
  match fuel with
  | O => mret None
  | S fuel' => m ← deref (znth cs i); if c_tid m =? n then mret (Some i) else find_marker n (i + 1) fuel' cs
  end.
Fixpoint retval_loop (n v i : Z) (fuel : nat) (cs : list child_thread_marker) : res (list child_thread_marker) :=
  match fuel with
  | O => mret cs
  | S fuel' =>
      m ← deref (znth cs i);
      cs ← (if c_tid m =? n then
              deref (zset cs i (Marker (c_tid m) v (c_name m) (c_invalid m) (c_load_result m) (c_exec_lock m)))
            else mret cs);
      retval_loop n v (i + 1) fuel' cs
  end.
Definition set_child_retval (t n v : Z) : TM unit :=
  atomically (
    th ← get_thread t;
    cs ← lift (retval_loop n v 0 (Z.to_nat (child_count th)) (children th));
    upd_thread t (set_children cs (child_count th))).
Definition mark_valid (t i : Z) : TM child_thread_marker :=
  th ← get_thread t; m ← lift (deref (znth (children th) i));
  let m' := Marker (c_tid m) (c_retval m) (c_name m) 0 (c_load_result m) (c_exec_lock m) in
  cs ← lift (deref (zset (children th) i m'));
  _ ← upd_thread t (set_children cs (child_count th)); mret m'.
(** The child's index in the parent's array, after its marker is made valid.  A
    parent that does not exist is a null dereference. *)
Definition child_index (par child : Z) : TM (Z * option Z) :=
  t ← get_thread_by_tid par; th ← get_thread t;
  i ← lift (find_marker child 0 (Z.to_nat (child_count th)) (children th)); mret (t, i).
(** None: the marker of which only [invalid = 1] is set.  When the child is found
    the function returns with interrupts off. *)
Definition get_child_by_parent (par child : Z) : TM (option child_thread_marker) :=
  old_level ← intr_disable;
  '(t, i) ← child_index par child;
  match i with
  | Some i => m ← mark_valid t i; mret (Some m)
  | None => _ ← intr_set_level old_level; mret None
  end.
Definition get_child (n : Z) : TM (option child_thread_marker) :=
  t ← atomically thread_current; th ← get_thread t; get_child_by_parent (tid th) n.
(** The pointer is the thread and the index of the marker. *)
Definition get_child_pointer_parent (par child : Z) : TM (option (Z * Z)) :=
  atomically (
    '(t, i) ← child_index par child;
    match i with Some i => _ ← mark_valid t i; mret (Some (t, i)) | None => mret None end).

(** ** File descriptors *)
Definition thread_fs_lock : TM unit :=
  h ← lock_held_by_current_thread fs_lock;
  if negb h then run 5 (lock_acquire fs_lock) else mret tt.
Definition thread_fs_unlock : TM unit := run 5 (lock_release fs_lock).
Definition has_fd (fd : Z) (l : list Z) : bool := existsb (Z.eqb fd) l.
Definition thread_get_file (fd : Z) : TM Z :=
  t ← thread_current; th ← get_thread t;
  if (fd <=? 1) || (FD_LIST_LEN <=? fd) then mret NULL
  else if has_fd fd (fd_list th) then k ← get; lift (deref (znth (fd_table k) fd))
  else mret NULL.
(** The entry of [fd_table] is left as it is: the statement that cleared it is
    commented out. *)
Definition thread_close_fd (fd : Z) : TM Z :=
  if (fd <? 2) || (FD_TABLE_LEN <? fd) then mret NULL
  else
    t ← thread_current; th ← get_thread t;
    if negb (has_fd fd (fd_list th)) then mret NULL
    else
      _ ← upd_thread t (set_fd_list (map (fun x => if x =? fd then 0 else x) (fd_list th)));
      k ← get; lift (deref (znth (fd_table k) fd)).
(** The first index from [i] on whose entry satisfies [p]. *)
Fixpoint first_from (p : Z -> bool) (i : Z) (l : list Z) : option Z :=
  match l with [] => None | x :: l' => if p x then Some i else first_from p (i + 1) l' end.
Definition thread_get_new_fd (f : Z) : TM Z :=
  _ ← thread_fs_lock;
  t ← thread_current;
  k ← get;
  fd ← (match first_from (Z.eqb NULL) 2 (drop 2 (fd_table k)) with
        | Some i => tbl ← lift (deref (zset (fd_table k) i f)); _ ← modify (set_fd_table tbl); mret i
        | None => mret (-1)
        end);
  th ← get_thread t;
  _ ← (match first_from (Z.eqb 0) 0 (fd_list th) with
       | Some i => l ← lift (deref (zset (fd_list th) i (u32 fd))); upd_thread t (set_fd_list l)
       | None => mret tt
       end);
  _ ← thread_fs_unlock; mret fd.

(** ** Sleep *)
Definition timer_ticks : TM Z := atomically (k ← get; mret (ticks (the_clock k))).
Definition wake_time_compare (k : kst) (a b : Z) : bool :=
  match threads k !! a, threads k !! b with
  | Some ta, Some tb => wakeup_time ta <? wakeup_time tb
  | _, _ => false
  end.
(** [thread_sleep] up to the second [intr_set_level]; [thread_sleep] after it. *)
Definition thread_sleep_queue (n : Z) : TM unit :=
  cur ← thread_current; now ← timer_ticks;
  _ ← upd_thread cur (set_wakeup (s64 (now + n)));
  atomically (k ← get; put (set_wait (ordered_insert (wake_time_compare k) cur (wait_list k)) k)).
Definition thread_sleep_init : TM unit := cur ← thread_current; sema_init (TimerSema cur) 0.
Definition thread_sleep_down (cur : Z) : list instr := sema_down (TimerSema cur).
(** All of [thread_sleep], when nothing comes in between. *)
Definition thread_sleep (n : Z) : TM (list instr) :=
  _ ← thread_sleep_queue n; _ ← thread_sleep_init; cur ← running_thread; mret (thread_sleep_down cur).
Definition thread_wake_routine_helper (t : Z) : TM unit :=
  now ← timer_ticks; th ← get_thread t;
  if wakeup_time th <? now then
    _ ← atomically (modify (fun k => set_wait (filter (.≠ t) (wait_list k)) k));
    sema_up (TimerSema t)
  else mret tt.
Definition thread_foreach_wait (func : Z -> TM unit) : TM unit :=
  l ← intr_get_level; _ ← assert (negb l); ts ← gets wait_list; foreach func ts.
Definition thread_wake_routine : TM unit := atomically (thread_foreach_wait thread_wake_routine_helper).
