(* ===== verification/ThreadSpec.v ===== *)
(** * ThreadSpec: what thread.c's operations promise

    Locks taken and given back by a thread that nothing interrupts; the file
    descriptor table; the queue of sleeping threads and the timer tick; the
    creation of a thread. *)
From S2P Require Import Prelude.
From S2P Require Import Bitmap.
From S2P Require Import Vaddr.
From S2P Require Import Palloc.
From S2P Require Import Pagedir.
From S2P Require Import KList.
From S2P Require Import Sched.
From S2P Require Import Synch.
From S2P Require Import Thread.

(** ** A free lock *)
Definition free_lock (k : kst) (l : Z) : Prop := semas k !! LockSema l = Some (Semaphore 1 []) /\ holders k !! l = None.
Definition taken_lock (l : Z) (k : kst) : kst :=
  set_holders (<[l := running k]> (holders k)) (put_sema (LockSema l) (Semaphore 0 []) k).
Definition given_lock (l : Z) (k : kst) : kst :=
  set_holders (delete l (holders k)) (put_sema (LockSema l) (Semaphore 1 []) k).

Definition goes_on (more : list instr) : bool := match more with RETRY _ _ :: _ => false | _ => true end.
Lemma run_step n i rest k (Q : unit -> kst -> Prop) :
  mwp (exec i) k (fun more k' => goes_on more = true /\ mwp (run n (more ++ rest)) k' Q) -> mwp (run (S n) (i :: rest)) k Q.
Proof.
  intros H. cbn [run]. wp_step. eapply mwp_mono; [exact H|]. cbn beta. intros more k' [Hg H']. by destruct more as [|[]].
Qed.
Lemma exec_check_spec k l (Q : list instr -> kst -> Prop) : sched_inv k -> holders k !! l = None -> Q [] k ->
  mwp (exec (CHECK l)) k Q.
Proof.
  intros Hk Hh HQ. cbn [exec]. wp_step. apply not_interrupt_spec; [done|]. wp_step. apply lock_held_spec; [done|].
  rewrite Hh, bool_decide_eq_false_2 by done. wp_step. wp_step; [done|]. by wp_step.
Qed.
Lemma intr_disable_spec k (Q : bool -> kst -> Prop) : Q (intr_on (the_cpu k)) (with_intr false k) -> mwp intr_disable k Q.
Proof. intros HQ. exact HQ. Qed.
Lemma exec_down_free k s v (Q : list instr -> kst -> Prop) : sched_inv k -> semas k !! s = Some (Semaphore v []) -> v <> 0 ->
  Q [] (put_sema s (Semaphore (v -u 1) []) k) -> mwp (exec (DOWN s)) k Q.
Proof.
  intros Hk Hs Hv HQ. cbn [exec]. wp_step. apply not_interrupt_spec; [done|]. wp_step. apply intr_disable_spec.
  wp_step. eapply (down_loop_spec (with_intr false k)); [by apply (sched_inv_fields k)|exact Hs|done|cbn|done].
  intros _.
  match goal with |- Q [] ?a => replace a with (put_sema s (Semaphore (v -u 1) []) k); [done|] end.
  unfold put_sema, with_intr. by destruct k as [? ? ? ? ? ? ? ? ? ? ? [? ? ? ?]].
Qed.
Lemma exec_hold_spec k l (Q : list instr -> kst -> Prop) : sched_inv k ->
  Q [] (set_holders (<[l := running k]> (holders k)) k) -> mwp (exec (HOLD l)) k Q.
Proof. intros Hk HQ. cbn [exec]. wp_step. apply thread_current_spec; [apply Hk|]. wp_step. wp_step. by wp_step. Qed.
Lemma run_acquire k l (Q : unit -> kst -> Prop) : sched_inv k -> free_lock k l -> Q tt (taken_lock l k) ->
  mwp (run 5 (lock_acquire l)) k Q.
Proof.
  intros Hk [Hs Hh] HQ. unfold lock_acquire, sema_down. cbn [app].
  apply run_step, exec_check_spec; [done..|]. split; [done|]. cbn [app].
  apply run_step. eapply exec_down_free; [done|exact Hs|done|]. split; [done|]. cbn [app].
  apply run_step, exec_hold_spec; [by apply (sched_inv_fields k)|]. split; [done|]. exact HQ.
Qed.
Lemma run_release k l (Q : unit -> kst -> Prop) : sched_inv k -> semas k !! LockSema l = Some (Semaphore 0 []) ->
  holders k !! l = Some (running k) -> Q tt (given_lock l k) -> mwp (run 5 (lock_release l)) k Q.
Proof.
  intros Hk Hs Hh HQ. unfold lock_release. apply run_step. cbn [exec]. wp_step. apply assert_held_spec; [done..|].
  wp_step. wp_step. wp_step. split; [done|]. cbn [app]. apply run_step. cbn [exec]. wp_step.
  eapply sema_up_spec; [apply (sched_inv_fields k); done|exact Hs| |done].
  intros _. wp_step. split; [done|]. exact HQ.
Qed.

(** Changing a thread's record but for its status and page directory. *)
Lemma sched_upd k t th th' : sched_inv k -> threads k !! t = Some th -> status th' = status th -> pagedir th' = pagedir th ->
  sched_inv (set_threads (<[t := th']> (threads k)) k).
Proof.
  intros [[Hc Hn Hr Hst Hu Hi H0 Hb Hp] Hrun] E Es Ep.
  assert (Hs : forall x, st (set_threads (<[t := th']> (threads k)) k) x = st k x).
  { intros x. unfold st. cbn. destruct (decide (x = t)) as [->|]; [|by rewrite lookup_insert_ne].
    rewrite lookup_insert_eq, E. cbn. by rewrite Es. }
  split; [split|]; try setoid_rewrite Hs; try done; cbn.
  - by apply (idle_upd k t th (fun _ => th')).
  - rewrite lookup_insert_ne; [done|]. intros ->. congruence.
  - intros x thx. destruct (decide (x = t)) as [->|]; [|rewrite lookup_insert_ne by done; apply Hp].
    rewrite lookup_insert_eq. intros [= <-]. rewrite Ep. by apply (Hp t).
Qed.

(** ** File descriptors *)
Lemma first_from_spec p i (l : list Z) :
  match first_from p i l with
  | Some j => i <= j < i + zlen l /\ (exists x, znth l (j - i) = Some x /\ p x = true) /\
      forall m x, i <= m < j -> znth l (m - i) = Some x -> p x = false
  | None => forall m x, znth l m = Some x -> p x = false
  end.
Proof.
  revert i. induction l as [|y l IH]; intros i; cbn [first_from].
  - intros m x. unfold znth. by case_decide.
  - assert (Hz : forall m, 0 < m -> znth (y :: l) m = znth l (m - 1)).
    { intros m Hm. unfold znth. rewrite !decide_True by lia. replace (Z.to_nat m) with (S (Z.to_nat (m - 1))) by lia. done. }
    assert (Hl : zlen (y :: l) = zlen l + 1) by (unfold zlen; simpl; lia). assert (Hl0 : 0 <= zlen l) by (unfold zlen; lia).
    destruct (p y) eqn:E.
    + split; [lia|]. rewrite Z.sub_diag. split; [by exists y|]. intros m x Hm. lia.
    + specialize (IH (i + 1)). destruct (first_from p (i + 1) l) as [j|].
      * destruct IH as (Hj & (x & Hx & Hp) & Hlow). split; [lia|]. split.
        { exists x. rewrite Hz by lia. replace (j - i - 1) with (j - (i + 1)) by lia. done. }
        intros m x' Hm. destruct (decide (m = i)) as [->|]; [rewrite Z.sub_diag; by intros [= <-]|].
        rewrite Hz by lia. replace (m - i - 1) with (m - (i + 1)) by lia. apply Hlow. lia.
      * intros m x. destruct (decide (m = 0)) as [->|]; [by intros [= <-]|].
        destruct (decide (0 < m)); [rewrite Hz by lia; apply IH|]. unfold znth. rewrite decide_False by lia. done.
Qed.
(** The lowest free descriptor. *)
Definition lowest_fd (tbl : list Z) (fd : Z) : Prop :=
  (fd = -1 /\ forall i x, 2 <= i -> znth tbl i = Some x -> x <> NULL) \/
  (2 <= fd < zlen tbl /\ znth tbl fd = Some NULL /\ forall i x, 2 <= i < fd -> znth tbl i = Some x -> x <> NULL).
Lemma znth_drop2 (tbl : list Z) i : 0 <= i -> znth (drop 2 tbl) i = znth tbl (i + 2).
Proof.
  intros Hi. unfold znth. rewrite !decide_True by lia. rewrite lookup_drop. f_equal. lia.
Qed.
Lemma first_free tbl : 2 <= zlen tbl -> lowest_fd tbl (default (-1) (first_from (Z.eqb NULL) 2 (drop 2 tbl))).
Proof.
  intros Hl. pose proof (first_from_spec (Z.eqb NULL) 2 (drop 2 tbl)) as H. unfold lowest_fd.
  assert (Hl' : zlen (drop 2 tbl) = zlen tbl - 2) by (unfold zlen in *; rewrite length_drop; lia).
  destruct (first_from (Z.eqb NULL) 2 (drop 2 tbl)) as [j|]; cbn [from_option id]; unfold id.
  - right. rewrite Hl' in H. destruct H as (Hj & (x & Hx & <-%Z.eqb_eq) & Hlow). split; [lia|].
    rewrite znth_drop2 in Hx by lia. replace (j - 2 + 2) with j in Hx by lia. split; [done|].
    intros i x Hi Hix ->. specialize (Hlow i NULL ltac:(lia)).
    rewrite znth_drop2 in Hlow by lia. replace (i - 2 + 2) with i in Hlow by lia. by specialize (Hlow Hix).
  - left. split; [done|]. intros i x Hi Hix ->. specialize (H (i - 2) NULL). rewrite znth_drop2 in H by lia.
    replace (i - 2 + 2) with i in H by lia. by specialize (H Hix).
Qed.

(** The state in which a thread may use the descriptor table. *)
Record fd_ok (k : kst) : Prop := FdOk {
  fo_sched : sched_inv k;
  fo_lock : free_lock k fs_lock;
  fo_table : zlen (fd_table k) = FD_TABLE_LEN;
  fo_list : forall th, threads k !! running k = Some th -> zlen (fd_list th) = FD_LIST_LEN;
}.
Definition my_fds (k : kst) : list Z := match threads k !! running k with Some th => fd_list th | None => [] end.
(** The running thread's list of descriptors becomes [l]. *)
Definition with_fds (l : list Z) (k : kst) : kst :=
  set_threads (alter (set_fd_list l) (running k) (threads k)) k.
Lemma running_th k : sched_inv k -> exists th, threads k !! running k = Some th /\ status th = THREAD_RUNNING.
Proof. intros Hk. by apply st_thread, Hk. Qed.
Lemma fd_thread k : fd_ok k -> exists th, threads k !! running k = Some th /\ zlen (fd_list th) = FD_LIST_LEN /\ my_fds k = fd_list th.
Proof.
  intros Hf. destruct (running_th k) as (th & E & _); [apply Hf|]. exists th. split; [done|].
  split; [by apply Hf|]. unfold my_fds. by rewrite E.
Qed.
Lemma st_with_fds l k t : st (with_fds l k) t = st k t.
Proof.
  unfold st, with_fds. cbn. destruct (decide (t = running k)) as [->|]; [|by rewrite lookup_alter_ne].
  rewrite lookup_alter_eq. by destruct (threads k !! running k).
Qed.
Lemma sched_with_fds l k : sched_inv k -> sched_inv (with_fds l k).
Proof.
  intros [[Hc Hn Hr Hs Hu Hi H0 Hb Hp] Hrun].
  assert (Hth : forall t, is_Some (threads (with_fds l k) !! t) <-> is_Some (threads k !! t)).
  { intros t. cbn. apply lookup_alter_is_Some. }
  split; [split|]; try setoid_rewrite st_with_fds; try done.
  - by apply Hth.
  - destruct (threads (with_fds l k) !! NULL) eqn:E; [|done]. exfalso.
    destruct (proj1 (Hth NULL) (mk_is_Some _ _ E)) as [x Hx]. rewrite H0 in Hx. done.
  - intros t th. cbn. destruct (decide (t = running k)) as [->|]; [|rewrite lookup_alter_ne by done; apply Hp].
    rewrite lookup_alter_eq. destruct (threads k !! running k) as [th0|] eqn:E; [|done]. intros [= <-]. by apply (Hp (running k) th0).
Qed.
Lemma upd_fds k th l (Q : unit -> kst -> Prop) : threads k !! running k = Some th -> Q tt (with_fds l k) ->
  mwp (upd_thread (running k) (set_fd_list l)) k Q.
Proof.
  intros E HQ. eapply upd_thread_spec; [exact E|].
  replace (<[running k := set_fd_list l th]> (threads k)) with (alter (set_fd_list l) (running k) (threads k)); [exact HQ|].
  apply map_eq. intros t. destruct (decide (t = running k)) as [->|].
  - by rewrite lookup_alter_eq, lookup_insert_eq, E.
  - by rewrite lookup_alter_ne, lookup_insert_ne.
Qed.
Lemma fd_ok_with_fds l k : fd_ok k -> zlen l = FD_LIST_LEN -> fd_ok (with_fds l k).
Proof.
  intros [Hs Hl Ht Hf] Hn. split; [by apply sched_with_fds|done|done|].
  intros th. cbn. rewrite lookup_alter_eq. destruct (threads k !! running k); [|done]. by intros [= <-].
Qed.
Lemma fd_ok_table tbl k : fd_ok k -> zlen tbl = FD_TABLE_LEN -> fd_ok (set_fd_table tbl k).
Proof. intros [Hs Hl Ht Hf] Hn. split; [by apply (sched_inv_fields k)|done|done|done]. Qed.

(** The table and the thread's list after [thread_get_new_fd]. *)
Definition opened_table (tbl : list Z) (fd f : Z) : list Z := if fd =? -1 then tbl else <[Z.to_nat fd := f]> tbl.
Definition listed (l : list Z) (fd : Z) : list Z :=
  match first_from (Z.eqb 0) 0 l with Some i => <[Z.to_nat i := u32 fd]> l | None => l end.
Lemma listed_len l fd : zlen (listed l fd) = zlen l.
Proof. unfold listed. destruct (first_from _ _ _); [apply zlen_insert|done]. Qed.
Lemma opened_len tbl fd f : zlen (opened_table tbl fd f) = zlen tbl.
Proof. unfold opened_table. case_match; [done|apply zlen_insert]. Qed.
Lemma my_fds_with l k : fd_ok k -> my_fds (with_fds l k) = l.
Proof.
  intros Hf. destruct (fd_thread k Hf) as (th & E & _ & _). unfold my_fds, with_fds. cbn. by rewrite lookup_alter_eq, E.
Qed.
Lemma given_back k l g : free_lock k l -> (forall sm h, g (set_holders h (set_semas sm k)) = set_holders h (set_semas sm (g k))) ->
  running (g k) = running k -> semas (g k) = semas k -> holders (g k) = holders k ->
  given_lock l (g (taken_lock l k)) = g k.
Proof.
  intros [Hs Hh] Hg Hr Es Eh. unfold taken_lock, put_sema. cbn. rewrite Hg. unfold given_lock, put_sema. cbn.
  rewrite insert_insert_eq, (insert_id _ _ _ Hs), (delete_insert_id _ _ _ Hh).
  destruct (g k) eqn:E. cbn in *. by subst.
Qed.
Lemma with_fds_same k th : threads k !! running k = Some th -> with_fds (fd_list th) k = k.
Proof.
  intros E. unfold with_fds. replace (alter (set_fd_list (fd_list th)) (running k) (threads k)) with (threads k); [by destruct k|].
  symmetry. apply alter_id. intros x. rewrite E. intros [= <-]. by destruct th.
Qed.
Definition new_fd_state (f : Z) (k : kst) : Z * kst :=
  let fd := default (-1) (first_from (Z.eqb NULL) 2 (drop 2 (fd_table k))) in
  (fd, with_fds (listed (my_fds k) fd) (set_fd_table (opened_table (fd_table k) fd f) k)).
Lemma thread_get_new_fd_run k f (Q : Z -> kst -> Prop) : fd_ok k ->
  Q (new_fd_state f k).1 (new_fd_state f k).2 -> mwp (thread_get_new_fd f) k Q.
Proof.
  intros Hf HQ. destruct (fd_thread k Hf) as (th & Eth & Hlen & Emy). pose proof Hf as [Hk Hl Ht _].
  assert (Hk1 : sched_inv (taken_lock fs_lock k)) by by apply (sched_inv_fields k).
  unfold thread_get_new_fd, thread_fs_lock, thread_fs_unlock.
  wp_step. wp_step. apply lock_held_spec; [done|]. rewrite bool_decide_eq_false_2 by (by rewrite (proj2 Hl)). cbn [negb].
  apply run_acquire; [done..|]. wp_step. apply thread_current_spec; [apply Hk1|]. wp_step. wp_step.
  set (fd := (new_fd_state f k).1).
  apply mwp_bind. apply (mwp_mono _ _ (fun r k' => r = fd /\ k' = set_fd_table (opened_table (fd_table k) fd f) (taken_lock fs_lock k))).
  { pose proof (first_from_spec (Z.eqb NULL) 2 (drop 2 (fd_table k))) as Hlow. unfold fd, new_fd_state. cbn [fst].
    change (fd_table (taken_lock fs_lock k)) with (fd_table k).
    destruct (first_from (Z.eqb NULL) 2 (drop 2 (fd_table k))) as [i|]; cbn [from_option]; unfold id.
    - assert (Hi : 2 <= i < zlen (fd_table k)).
      { destruct Hlow as [Hi _]. unfold zlen in *. rewrite length_drop in Hi. unfold FD_TABLE_LEN in Ht. lia. }
      wp_step. wp_step. rewrite zset_Some by lia. cbn [deref]. wp_step. wp_step. wp_step. split; [done|].
      unfold opened_table. by rewrite (proj2 (Z.eqb_neq i (-1))) by lia.
    - wp_step. split; [done|]. by destruct k. }
  intros r k' [-> ->]. wp_step. eapply get_thread_spec; [exact Eth|].
  set (k2 := set_fd_table (opened_table (fd_table k) fd f) (taken_lock fs_lock k)).
  apply mwp_bind. apply (mwp_mono _ _ (fun _ k' => k' = with_fds (listed (fd_list th) fd) k2)).
  { pose proof (first_from_spec (Z.eqb 0) 0 (fd_list th)) as Hlow. unfold listed.
    destruct (first_from (Z.eqb 0) 0 (fd_list th)) as [i|].
    - destruct Hlow as [Hi _]. wp_step. wp_step. rewrite zset_Some by lia. cbn [deref].
      by apply (upd_fds k2 th).
    - wp_step. symmetry. by apply with_fds_same. }
  intros [] k' ->. wp_step.
  assert (Hk2 : sched_inv k2) by by apply (sched_inv_fields k).
  apply run_release; [by apply sched_with_fds|cbn; by rewrite lookup_insert_eq|cbn; by rewrite lookup_insert_eq|].
  wp_step. unfold new_fd_state in HQ. cbn [fst snd] in HQ. rewrite Emy in HQ.
  set (g := fun k1 => with_fds (listed (fd_list th) fd) (set_fd_table (opened_table (fd_table k) fd f) k1)).
  change (Q fd (given_lock fs_lock (g (taken_lock fs_lock k)))). rewrite given_back; try done.
Qed.
Lemma new_fd_ok k f : fd_ok k -> fd_ok (new_fd_state f k).2.
Proof.
  intros Hf. destruct (fd_thread k Hf) as (th & _ & Hl & Emy). apply fd_ok_with_fds.
  - apply fd_ok_table; [done|]. rewrite opened_len. apply Hf.
  - by rewrite listed_len, Emy.
Qed.
Lemma thread_get_file_run k fd (Q : Z -> kst -> Prop) : fd_ok k ->
  Q (if (2 <=? fd) && (fd <? 128) && has_fd fd (my_fds k) then default NULL (znth (fd_table k) fd) else NULL) k ->
  mwp (thread_get_file fd) k Q.
Proof.
  intros Hf HQ. destruct (fd_thread k Hf) as (th & Eth & _ & Emy). rewrite Emy in HQ. pose proof (fo_table _ Hf) as Ht.
  unfold thread_get_file. wp_step. apply thread_current_spec; [apply Hf|]. wp_step. eapply get_thread_spec; [exact Eth|].
  destruct (Z.leb_spec fd 1), (Z.leb_spec FD_LIST_LEN fd), (Z.leb_spec 2 fd), (Z.ltb_spec fd 128);
    cbn [orb andb] in HQ |- *; unfold FD_LIST_LEN in *; try lia; try by wp_step.
  destruct (has_fd fd (fd_list th)); [|by wp_step]. wp_step. wp_step. wp_step.
  destruct (znth_is_Some (fd_table k) fd) as [x Hx]; [rewrite Ht; unfold FD_TABLE_LEN; lia|]. rewrite Hx in HQ |- *. exact HQ.
Qed.
Definition closed_list (fd : Z) (l : list Z) : list Z := map (fun x => if x =? fd then 0 else x) l.
Definition closes (k : kst) (fd : Z) : bool := (2 <=? fd) && (fd <? 128) && has_fd fd (my_fds k).
Lemma thread_close_fd_run k fd (Q : Z -> kst -> Prop) : fd_ok k -> fd <> 128 ->
  Q (if closes k fd then default NULL (znth (fd_table k) fd) else NULL)
    (if closes k fd then with_fds (closed_list fd (my_fds k)) k else k) ->
  mwp (thread_close_fd fd) k Q.
Proof.
  intros Hf Hne HQ. destruct (fd_thread k Hf) as (th & Eth & _ & Emy). unfold closes in HQ. rewrite Emy in HQ.
  pose proof (fo_table _ Hf) as Ht. unfold thread_close_fd.
  destruct (Z.ltb_spec fd 2), (Z.ltb_spec FD_TABLE_LEN fd), (Z.leb_spec 2 fd), (Z.ltb_spec fd 128);
    cbn [orb andb] in HQ |- *; unfold FD_TABLE_LEN in *; try lia; try by wp_step.
  wp_step. apply thread_current_spec; [apply Hf|]. wp_step. eapply get_thread_spec; [exact Eth|].
  destruct (has_fd fd (fd_list th)); cbn [negb]; [|by wp_step]. wp_step. apply (upd_fds k th); [done|].
  wp_step. wp_step. wp_step.
  destruct (znth_is_Some (fd_table k) fd) as [x Hx]; [rewrite Ht; unfold FD_TABLE_LEN; lia|]. cbn. rewrite Hx in HQ |- *. exact HQ.
Qed.
Lemma closed_fd_ok k fd : fd_ok k -> fd_ok (if closes k fd then with_fds (closed_list fd (my_fds k)) k else k).
Proof.
  intros Hf. destruct (closes k fd); [|done]. destruct (fd_thread k Hf) as (th & _ & Hl & Emy).
  apply fd_ok_with_fds; [done|]. unfold closed_list, zlen in *. rewrite Emy, length_map. done.
Qed.

(** A new descriptor is the lowest free one, from 2 on, and -1 when there is none:
    the file is entered in the table, the descriptor in the thread's list, and
    nothing else of the table changes. *)
Theorem thread_get_new_fd_lowest k f th : fd_ok k -> threads k !! running k = Some th -> 0 ∈ fd_list th ->
  mwp (thread_get_new_fd f) k (fun fd k' => fd_ok k' /\ lowest_fd (fd_table k) fd /\
    (forall i, znth (fd_table k') i = if decide (i = fd /\ fd <> -1) then Some f else znth (fd_table k) i) /\
    mwp (thread_get_file fd) k' (fun g k'' => k'' = k' /\ g = if fd =? -1 then NULL else f)).
Proof.
  intros Hf Eth H0. apply thread_get_new_fd_run; [done|]. pose proof (new_fd_ok k f Hf) as Hf'.
  destruct (fd_thread k Hf) as (th' & Eth' & Hl & Emy). rewrite Eth in Eth'. injection Eth' as <-.
  pose proof (fo_table _ Hf) as Ht. unfold FD_TABLE_LEN in Ht.
  pose proof (first_free (fd_table k) ltac:(lia)) as Hlow. unfold new_fd_state in *. cbn [fst snd] in *.
  set (fd := default (-1) _) in *. split; [done|]. split; [done|].
  assert (Hz : forall i, znth (opened_table (fd_table k) fd f) i = if decide (i = fd /\ fd <> -1) then Some f else znth (fd_table k) i).
  { intros i. unfold opened_table. destruct Hlow as [[-> _]|(Hi & _)].
    - cbn. rewrite decide_False by tauto. done.
    - rewrite (proj2 (Z.eqb_neq fd (-1))) by lia. rewrite znth_insert by lia.
      destruct (decide (fd = i)) as [->|]; [rewrite decide_True by lia; done|]. rewrite decide_False by (intros [? _]; congruence). done. }
  split; [exact Hz|]. apply thread_get_file_run; [exact Hf'|]. split; [done|].
  rewrite my_fds_with by (apply fd_ok_table; [done|]; rewrite opened_len; apply Hf).
  cbn [fd_table with_fds set_threads set_fd_table]. rewrite Hz, Emy. destruct Hlow as [[-> _]|(Hi & _)]; [done|].
  rewrite (proj2 (Z.eqb_neq fd (-1))), decide_True by lia. cbn [from_option]. unfold id.
  assert (Hh : has_fd fd (listed (fd_list th) fd) = true).
  { unfold has_fd. apply existsb_exists. exists fd. split; [|apply Z.eqb_refl]. apply list_elem_of_In. unfold listed.
    pose proof (first_from_spec (Z.eqb 0) 0 (fd_list th)) as Hff. destruct (first_from (Z.eqb 0) 0 (fd_list th)) as [j|].
    - destruct Hff as [Hj _]. assert (u32 fd = fd) as -> by (unfold u32; rewrite Z.mod_small; lia).
      apply list_elem_of_insert. unfold zlen in Hj. lia.
    - exfalso. apply list_elem_of_lookup in H0 as [j Hj]. specialize (Hff (Z.of_nat j) 0). unfold znth in Hff.
      rewrite decide_True, Nat2Z.id in Hff by lia. by specialize (Hff Hj). }
  rewrite Hh. destruct (Z.leb_spec 2 fd), (Z.ltb_spec fd 128); try lia. done.
Qed.

(** *** The table fills up *)
Inductive fd_call : Type := Open (f : Z) | Close (fd : Z).
Fixpoint fd_calls (cs : list fd_call) : TM unit :=
  match cs with
  | [] => mret tt
  | Open f :: cs' => _ ← thread_get_new_fd f; fd_calls cs'
  | Close fd :: cs' => _ ← thread_close_fd fd; fd_calls cs'
  end.
Fixpoint opens (cs : list fd_call) : Z :=
  match cs with [] => 0 | Open _ :: cs' => 1 + opens cs' | Close _ :: cs' => opens cs' end.
Definition legal_call (c : fd_call) : Prop := match c with Open f => f <> NULL | Close fd => fd <> 128 end.
(** The first [n] descriptors are in use. *)
Definition used_up (n : Z) (tbl : list Z) : Prop := forall i x, 2 <= i < 2 + n -> znth tbl i = Some x -> x <> NULL.
Lemma used_up_open n tbl f : 0 <= n -> zlen tbl = FD_TABLE_LEN -> f <> NULL -> used_up n tbl ->
  used_up (n + 1) (opened_table tbl (default (-1) (first_from (Z.eqb NULL) 2 (drop 2 tbl))) f).
Proof.
  intros Hn Hl Hf Hu i x Hi. unfold FD_TABLE_LEN in Hl. pose proof (first_free tbl ltac:(lia)) as Hlow.
  set (fd := default (-1) _) in *. unfold opened_table. destruct Hlow as [[-> Hall]|(Hfd & Hnull & Hlow)].
  - cbn. intros Hx. by apply (Hall i x); [lia|].
  - rewrite (proj2 (Z.eqb_neq fd (-1))) by lia. rewrite znth_insert by lia. case_decide; [by intros [= <-]|].
    intros Hx. destruct (decide (i < fd)); [by apply (Hlow i x); [lia|]|].
    destruct (decide (i < 2 + n)); [by apply (Hu i x); [lia|]|].
    exfalso. by apply (Hu fd NULL); [lia|..].
Qed.
Lemma fd_calls_spec cs k n (Q : unit -> kst -> Prop) : fd_ok k -> 0 <= n -> used_up n (fd_table k) -> Forall legal_call cs ->
  (forall k', fd_ok k' -> used_up (n + opens cs) (fd_table k') -> Q tt k') -> mwp (fd_calls cs) k Q.
Proof.
  revert k n. induction cs as [|c cs IH]; intros k n Hk Hn Hu Hc HQ; cbn [fd_calls].
  - wp_step. apply HQ; [done|]. cbn. by rewrite Z.add_0_r.
  - apply Forall_cons_1 in Hc as [Hc Hcs]. destruct c as [f|fd]; wp_step.
    + apply thread_get_new_fd_run; [done|]. apply (IH _ (n + 1)); [by apply new_fd_ok|lia| |done|].
      * apply used_up_open; [done|apply Hk|done|done].
      * intros k' Hk' Hu'. apply HQ; [done|]. cbn [opens]. by rewrite Z.add_assoc.
    + apply thread_close_fd_run; [done|exact Hc|]. apply (IH _ n); [by apply closed_fd_ok|done| |done|exact HQ].
      by destruct (closes k fd).
Qed.
(** Closing a file never makes its descriptor available again: after 126 opens, in
    any order with any closes, every further open fails with -1. *)
Theorem fd_table_exhausts k cs f : fd_ok k -> Forall legal_call cs -> 126 <= opens cs ->
  mwp (_ ← fd_calls cs; thread_get_new_fd f) k (fun fd k' => fd = -1 /\ fd_ok k').
Proof.
  intros Hk Hcs Hn. wp_step. apply (fd_calls_spec cs k 0); [done|lia| |done|].
  - intros i x Hi. lia.
  - intros k' Hk' Hu. apply thread_get_new_fd_run; [done|]. split; [|by apply new_fd_ok].
    pose proof (fo_table _ Hk') as Hl. unfold FD_TABLE_LEN in Hl.
    pose proof (first_free (fd_table k') ltac:(lia)) as Hlow. unfold new_fd_state. cbn [fst].
    set (fd := default (-1) _) in *. destruct Hlow as [[-> _]|(Hfd & Hnull & _)]; [done|].
    exfalso. by apply (Hu fd NULL); [lia|..].
Qed.

(** *** Witnesses *)
Definition ex_locks : kst :=
  set_semas (<[LockSema tid_lock := Semaphore 1 []]> (<[LockSema fs_lock := Semaphore 1 []]> (semas ex_kst))) ex_kst.
Lemma ex_fd_ok : fd_ok ex_locks.
Proof.
  split; [by apply (sched_inv_fields ex_kst); [exact ex_kst_inv|..]|by split|reflexivity|].
  intros th. cbn. rewrite lookup_insert_ne, lookup_insert_eq by done. by intros [= <-].
Qed.
Lemma thread_get_new_fd_lowest_witness :
  mwp (thread_get_new_fd 77) ex_locks (fun fd k' => lowest_fd (fd_table ex_locks) fd /\ fd_ok k').
Proof.
  eapply mwp_mono.
  - apply (thread_get_new_fd_lowest ex_locks 77 (ex_thread 2 THREAD_RUNNING)); [exact ex_fd_ok|reflexivity|]. left.
  - intros fd k' (H1 & H2 & _). by split.
Defined.
Lemma fd_table_exhausts_witness :
  mwp (_ ← fd_calls (Open 77 :: replicate 3 (Close 2) ++ replicate 125 (Open 88)); thread_get_new_fd 99) ex_locks
    (fun fd k' => fd = -1 /\ fd_ok k').
Proof.
  apply (fd_table_exhausts ex_locks); [exact ex_fd_ok| |vm_compute; discriminate].
  constructor; [done|]. apply Forall_app. split; apply Forall_replicate; done.
Defined.
