(* ===== verification/Timer.v ===== *)
(** * Timer: devices/timer.c and the timer interrupt

    [timer_event] is the interrupt of the 8254 from the moment the processor
    leaves the running thread's code: [intr_handler] of threads/interrupt.c around
    [timer_interrupt].  How long a loop takes is the hardware's affair: the
    calibration gets [too_many_loops] as a parameter. *)
From S2P Require Import Prelude.
From S2P Require Import Bitmap.
From S2P Require Import Vaddr.
From S2P Require Import Palloc.
From S2P Require Import Pagedir.
From S2P Require Import KList.
From S2P Require Import Sched.
From S2P Require Import Synch.
From S2P Require Import Thread.
From S2P Require Import ThreadSpec.

Definition TIMER_FREQ : Z := 100.

(** ** Interrupts *)
Definition set_context (ext yield : bool) : TM unit :=
  modify (fun k => set_cpu (Cpu (intr_on (the_cpu k)) ext yield (esp0 (the_cpu k))) k).
Definition timer_interrupt : TM unit :=
  _ ← modify (fun k => let c := the_clock k in
        set_clock (Clock (s64 (ticks c + 1)) (thread_ticks c) (idle_ticks c) (kernel_ticks c) (user_ticks c)) k);
  _ ← thread_tick; thread_wake_routine.
(** [intr_handler] for an external interrupt. *)
Definition intr_handler (handler : TM unit) : TM unit :=
  l ← intr_get_level; _ ← assert (negb l); c ← intr_context; _ ← assert (negb c);
  _ ← set_context true false;
  _ ← handler;
  l ← intr_get_level; _ ← assert (negb l); c ← intr_context; _ ← assert c;
  y ← gets (fun k => yield_on_return (the_cpu k));
  _ ← set_context false y;
  if (y : bool) then thread_yield_body else mret tt.
(** The processor turns interrupts off on its way to the handler; [iret] restores
    the flag when the interrupted thread goes on. *)
Definition timer_event : TM unit := _ ← set_intr false; intr_handler timer_interrupt.

(** ** Time *)
Definition timer_elapsed (thn : Z) : TM Z := now ← timer_ticks; mret (s64 (now - thn)).
(** What [timer_sleep] hands to [thread_sleep]. *)
Definition timer_sleep (n : Z) : TM unit :=
  _ ← timer_ticks; l ← intr_get_level; _ ← assert l;
  thread_sleep_queue (if n <? 0 then 0 else n).
(** The number of ticks of [real_time_sleep], and how many turns [real_time_delay]
    makes. *)
Definition sleep_ticks (num denom : Z) : Z := s64 (num * TIMER_FREQ) ÷ denom.
Definition delay_loops (loops_per_tick num denom : Z) : Z :=
  s64 (s64 (s64 (loops_per_tick * num) ÷ 1000 * TIMER_FREQ) ÷ (denom ÷ 1000)).
Definition real_time_delay (loops_per_tick num denom : Z) : TM Z :=
  _ ← assert (Z.rem denom 1000 =? 0); mret (delay_loops loops_per_tick num denom).
(** Sleeps, or returns the turns of a busy loop. *)
Definition real_time_sleep (loops_per_tick num denom : Z) : TM Z :=
  l ← intr_get_level; _ ← assert l;
  if 0 <? sleep_ticks num denom then _ ← timer_sleep (sleep_ticks num denom); mret 0
  else real_time_delay loops_per_tick num denom.
Definition timer_msleep (lpt ms : Z) : TM Z := real_time_sleep lpt ms 1000.
Definition timer_usleep (lpt us : Z) : TM Z := real_time_sleep lpt us (1000 * 1000).
Definition timer_nsleep (lpt ns : Z) : TM Z := real_time_sleep lpt ns (1000 * 1000 * 1000).
Definition timer_mdelay (lpt ms : Z) : TM Z := real_time_delay lpt ms 1000.
Definition timer_udelay (lpt us : Z) : TM Z := real_time_delay lpt us (1000 * 1000).
Definition timer_ndelay (lpt ns : Z) : TM Z := real_time_delay lpt ns (1000 * 1000 * 1000).

(** ** Calibration *)
Section Calibrate.
Context (too_many_loops : Z -> bool).
Definition double_body (loops_per_tick : Z) : res (Z + Z) :=
  if negb (too_many_loops (u32 (Z.shiftl loops_per_tick 1))) then
    let l := u32 (Z.shiftl loops_per_tick 1) in
    _ ← ASSERT (negb (l =? 0)); mret (inl l)
  else mret (inr loops_per_tick).
Definition refine_body (high_bit : Z) (s : Z * Z) : res (Z * Z + Z) :=
  let '(test_bit, loops_per_tick) := s in
  if negb (test_bit =? Z.shiftr high_bit 10) then
    let l := if negb (too_many_loops (Z.lor high_bit test_bit)) then Z.lor loops_per_tick test_bit
             else loops_per_tick in
    mret (inl (Z.shiftr test_bit 1, l))
  else mret (inr loops_per_tick).
Definition timer_calibrate : res Z :=
  high_bit ← loop 24 double_body (Z.shiftl 1 10);
  loop 11 (refine_body high_bit) (Z.shiftr high_bit 1, high_bit).
End Calibrate.

(** ** The sleepers *)
Definition in_ctx (ext : bool) (k : kst) : kst :=
  set_cpu (Cpu (intr_on (the_cpu k)) ext (yield_on_return (the_cpu k)) (esp0 (the_cpu k))) k.
(** Every thread in the list of sleepers is blocked on its own semaphore. *)
Record sleepers (k : kst) : Prop := Sleepers {
  sl_nodup : NoDup (wait_list k);
  sl_blocked : forall t, t ∈ wait_list k -> st k t = Some THREAD_BLOCKED /\ t <> idle_thread k /\
    semas k !! TimerSema t = Some (Semaphore 0 [t]);
}.
Definition wakes_at (k : kst) (t : Z) : Z := match threads k !! t with Some th => wakeup_time th | None => 0 end.
(** The state after the sleeper [t] has been woken up. *)
Definition woken_up (t : Z) (k : kst) : kst :=
  set_wait (filter (.≠ t) (wait_list k)) (set_ready (ready_list k ++ [t])
    (set_threads (alter (set_status THREAD_READY) t (threads k)) (put_sema (TimerSema t) (Semaphore 1 []) k))).
Definition woken_all (ts : list Z) (k : kst) : kst := foldl (fun k t => woken_up t k) k ts.

Lemma in_ctx_same k : in_external_intr (the_cpu k) = false -> in_ctx false k = k.
Proof. intros E. destruct k as [? ? ? ? ? ? ? ? ? ? ? [? e ? ?]]. cbn in E. by subst. Qed.
Lemma atomically_off {A} (m : TM A) k (Q : A -> kst -> Prop) : intr_on (the_cpu k) = false ->
  mwp m k (fun r k' => intr_on (the_cpu k') = false -> Q r k') ->
  mwp m k (fun _ k' => intr_on (the_cpu k') = false) -> mwp (atomically m) k Q.
Proof.
  intros Hi H1 H2. unfold atomically. wp_step. apply intr_disable_spec. rewrite Hi.
  replace (with_intr false k) with k by (destruct k as [? ? ? ? ? ? ? ? ? ? ? [? ? ? ?]]; cbn in Hi; by subst).
  unfold mwp, mbind, M_bind in *. destruct (m k) as [[r k']| | |]; try done. cbn [intr_set_level].
  specialize (H1 H2). unfold intr_disable, intr_get_level, set_intr, gets, modify, mbind, M_bind, mret, M_ret. cbn.
  destruct k' as [? ? ? ? ? ? ? ? ? ? ? [b ? ? ?]]. cbn in *. by subst.
Qed.
Lemma st_woken_up t k th x : threads k !! t = Some th ->
  st (woken_up t k) x = if decide (x = t) then Some THREAD_READY else st k x.
Proof.
  intros E. unfold st, woken_up. cbn. destruct (decide (x = t)) as [->|]; [by rewrite lookup_alter_eq, E|].
  by rewrite lookup_alter_ne.
Qed.
Lemma unblock_off k t th (Q : unit -> kst -> Prop) : intr_on (the_cpu k) = false -> threads k !! t = Some th ->
  status th = THREAD_BLOCKED ->
  Q tt (set_threads (alter (set_status THREAD_READY) t (threads k)) (set_ready (ready_list k ++ [t]) k)) ->
  mwp (thread_unblock t) k Q.
Proof.
  intros Hi E Es HQ. unfold thread_unblock. wp_step. apply is_thread_spec; [by exists th|]. wp_step. wp_step; [done|].
  assert (Ea : alter (set_status THREAD_READY) t (threads k) = <[t := set_status THREAD_READY th]> (threads k)).
  { apply map_eq. intros x. destruct (decide (x = t)) as [->|]; [by rewrite lookup_alter_eq, lookup_insert_eq, E|].
    by rewrite lookup_alter_ne, lookup_insert_ne. }
  rewrite Ea in HQ.
  apply atomically_off; [done|..]; wp_step; (eapply get_thread_spec; [exact E|]); wp_step;
    (wp_step; [by apply bool_decide_eq_true_2|]); wp_step; wp_step; by (eapply upd_thread_spec; [exact E|]).
Qed.
Lemma sema_up_sleeper k t th (Q : unit -> kst -> Prop) : intr_on (the_cpu k) = false -> threads k !! t = Some th ->
  status th = THREAD_BLOCKED -> semas k !! TimerSema t = Some (Semaphore 0 [t]) ->
  Q tt (set_ready (ready_list k ++ [t]) (set_threads (alter (set_status THREAD_READY) t (threads k))
        (put_sema (TimerSema t) (Semaphore 1 []) k))) -> mwp (sema_up (TimerSema t)) k Q.
Proof.
  intros Hi E Es Hs HQ. unfold sema_up.
  apply atomically_off; [done|..]; wp_step; (eapply get_sema_spec; [exact Hs|]); cbn [waiters]; wp_step; unfold set_sema;
    wp_step; wp_step; (eapply unblock_off; [exact Hi|exact E|done|]); wp_step;
    (eapply get_sema_spec; [cbn; apply lookup_insert_eq|]); wp_step; [intros _|exact Hi].
  match goal with |- Q tt ?a => replace a with (set_ready (ready_list k ++ [t])
    (set_threads (alter (set_status THREAD_READY) t (threads k)) (put_sema (TimerSema t) (Semaphore 1 []) k))); [done|] end.
  unfold put_sema, set_semas, set_threads, set_ready. cbn. by rewrite insert_insert_eq.
Qed.
Lemma timer_ticks_off k (Q : Z -> kst -> Prop) : intr_on (the_cpu k) = false -> Q (ticks (the_clock k)) k -> mwp timer_ticks k Q.
Proof. intros Hi HQ. unfold timer_ticks. apply atomically_off; [done|..]; wp_step; wp_step; by wp_step. Qed.
Definition due (k : kst) (t : Z) : bool := wakes_at k t <? ticks (the_clock k).
Lemma wake_helper k t (Q : unit -> kst -> Prop) : intr_on (the_cpu k) = false -> sleepers k -> t ∈ wait_list k ->
  Q tt (if due k t then woken_up t k else k) -> mwp (thread_wake_routine_helper t) k Q.
Proof.
  intros Hi Hs Ht HQ. destruct (sl_blocked _ Hs t Ht) as (Hb & _ & Hsm). destruct (st_thread _ _ _ Hb) as (th & E & Es).
  unfold thread_wake_routine_helper. wp_step. apply timer_ticks_off; [done|]. wp_step. eapply get_thread_spec; [exact E|].
  unfold due, wakes_at in HQ. rewrite E in HQ. destruct (wakeup_time th <? ticks (the_clock k)); [|by wp_step].
  wp_step. apply atomically_off; [done| |by wp_step]. wp_step. intros _. eapply sema_up_sleeper; [exact Hi|exact E|done|exact Hsm|].
  exact HQ.
Qed.
(** Waking one sleeper leaves the others asleep. *)
Lemma sleepers_woken_up t k : sleepers k -> t ∈ wait_list k -> sleepers (woken_up t k).
Proof.
  intros [Hnd Hb] Ht. destruct (Hb t Ht) as (Hbt & _ & _). destruct (st_thread _ _ _ Hbt) as (th & E & _). split.
  - cbn. by apply list.NoDup_filter.
  - intros x. cbn. rewrite list_elem_of_filter. intros [Hne Hx]. destruct (Hb x Hx) as (Hbx & Hix & Hsx).
    rewrite (st_woken_up t k th x E), decide_False by done. split; [done|]. split; [done|].
    rewrite lookup_insert_ne; [done|]. congruence.
Qed.
Lemma sched_woken_up t k : sched_inv (in_ctx false k) -> sleepers k -> t ∈ wait_list k -> sched_inv (in_ctx false (woken_up t k)).
Proof.
  intros [[Hc Hn Hr Hst Hu Hi H0 Hbs Hp] Hrun] [Hnd Hb] Ht. destruct (Hb t Ht) as (Hbt & Hit & _).
  destruct (st_thread _ _ _ Hbt) as (th & E & Es).
  assert (Hs : forall x, st (in_ctx false (woken_up t k)) x = if decide (x = t) then Some THREAD_READY else st k x).
  { intros x. exact (st_woken_up t k th x E). }
  assert (Htn : t ∉ ready_list k) by (intros Hin; destruct (Hr t Hin) as [H _]; change (st k t = Some THREAD_READY) in H; congruence).
  assert (Hth : forall x, is_Some (threads (in_ctx false (woken_up t k)) !! x) <-> is_Some (threads k !! x)).
  { intros x. cbn. apply lookup_alter_is_Some. }
  split; [split|].
  - done.
  - cbn. apply list.NoDup_app. split; [exact Hn|]. split; [|apply NoDup_singleton]. by intros x Hx ->%list_elem_of_singleton.
  - intros x Hx. rewrite Hs. cbn in Hx |- *. apply elem_of_app in Hx as [Hx| ->%list_elem_of_singleton].
    + destruct (Hr x Hx) as [H ?]. split; [|done]. case_decide; [done|exact H].
    + by rewrite decide_True.
  - intros x. rewrite Hs. cbn. rewrite elem_of_app, list_elem_of_singleton. case_decide; [tauto|]. intros Hxr. destruct (Hst x Hxr); tauto.
  - intros x. rewrite Hs. case_decide; [done|]. apply Hu.
  - by apply Hth.
  - destruct (threads (in_ctx false (woken_up t k)) !! NULL) eqn:En; [|done]. exfalso.
    destruct (proj1 (Hth NULL) (mk_is_Some _ _ En)) as [y Hy]. cbn in H0. congruence.
  - done.
  - intros x thx. cbn. destruct (decide (x = t)) as [->|]; [|rewrite lookup_alter_ne by done; apply Hp].
    rewrite lookup_alter_eq, E. intros [= <-]. by apply (Hp t th).
  - rewrite Hs. cbn. rewrite decide_False; [exact Hrun|]. intros Er. change (st k (running k) = Some THREAD_RUNNING) in Hrun. congruence.
Qed.
(** What waking the sleepers [ts] does. *)
Record awake (ts : list Z) (k k' : kst) : Prop := Awake {
  aw_sched : sched_inv (in_ctx false k');
  aw_sleepers : sleepers k';
  aw_wait : wait_list k' = filter (fun t => t ∉ ts) (wait_list k);
  aw_ready : ready_list k' = ready_list k ++ ts;
  aw_st : forall t, st k' t = if decide (t ∈ ts) then Some THREAD_READY else st k t;
  aw_wakes : forall t, wakes_at k' t = wakes_at k t;
  aw_semas : forall s, semas k' !! s = match s with
    | TimerSema t => if decide (t ∈ ts) then Some (Semaphore 1 []) else semas k !! s | _ => semas k !! s end;
  aw_cpu : the_cpu k' = the_cpu k; aw_clock : the_clock k' = the_clock k;
  aw_running : running k' = running k; aw_idle : idle_thread k' = idle_thread k;
  aw_holders : holders k' = holders k; aw_conds : conds k' = conds k;
}.
Lemma awake_nil k : sched_inv (in_ctx false k) -> sleepers k -> awake [] k k.
Proof.
  intros Hk Hs. assert (Hn : forall t : Z, t ∉ ([] : list Z)) by (intros t; apply not_elem_of_nil).
  split; try done.
  - induction (wait_list k) as [|t l IH]; [done|]. rewrite filter_cons_True by done. by rewrite <- IH.
  - by rewrite app_nil_r.
  - by intros [].
Qed.
Lemma wakes_woken_up t k x : wakes_at (woken_up t k) x = wakes_at k x.
Proof.
  unfold wakes_at, woken_up. cbn. destruct (decide (x = t)) as [->|]; [|by rewrite lookup_alter_ne].
  rewrite lookup_alter_eq. by destruct (threads k !! t).
Qed.
Lemma awake_cons t ts k k' : sleepers k -> t ∈ wait_list k -> t ∉ ts -> awake ts (woken_up t k) k' -> awake (t :: ts) k k'.
Proof.
  intros Hs Ht Hn [H1 H2 H3 H4 H5 H6 H7 H8 H9 H10 H11 H12 H13]. cbn in *.
  destruct (sl_blocked _ Hs t Ht) as (Hb & _). destruct (st_thread _ _ _ Hb) as (th & E & _).
  split; try done.
  - rewrite H3, list_filter_filter. apply list_filter_iff. intros x. rewrite elem_of_cons. tauto.
  - by rewrite H4, <- app_assoc.
  - intros x. rewrite H5, (st_woken_up t k th x E). destruct (decide (x ∈ ts)), (decide (x = t)), (decide (x ∈ t :: ts)) as [Hx|Hx];
      try done; rewrite elem_of_cons in Hx; tauto.
  - intros x. by rewrite H6, wakes_woken_up.
  - intros s. rewrite H7. destruct s as [a|l|x|x]; try (by rewrite lookup_insert_ne).
    destruct (decide (x ∈ ts)), (decide (x ∈ t :: ts)) as [Hx|Hx]; rewrite elem_of_cons in Hx; try done; [tauto| |].
    + assert (x = t) as -> by tauto. by rewrite lookup_insert_eq.
    + rewrite lookup_insert_ne; [done|]. intros [= ->]. tauto.
Qed.
Lemma foreach_wake ws k (Q : unit -> kst -> Prop) : intr_on (the_cpu k) = false -> sched_inv (in_ctx false k) -> sleepers k ->
  NoDup ws -> (forall t, t ∈ ws -> t ∈ wait_list k) ->
  (forall k', awake (filter (fun t => due k t = true) ws) k k' -> Q tt k') -> mwp (foreach thread_wake_routine_helper ws) k Q.
Proof.
  revert k. induction ws as [|t ws IH]; intros k Hi Hk Hs Hnd Hin HQ; cbn [foreach].
  - wp_step. apply HQ. by apply awake_nil.
  - apply list.NoDup_cons in Hnd as [Htn Hnd]. assert (Ht : t ∈ wait_list k) by (apply Hin; left).
    wp_step. apply wake_helper; [done..|]. destruct (due k t) eqn:Ed.
    + assert (Hdue : forall x, due (woken_up t k) x = due k x) by (intros x; unfold due; by rewrite wakes_woken_up).
      apply IH; [exact Hi|by apply sched_woken_up|by apply sleepers_woken_up|done| |].
      * intros x Hx. cbn. rewrite list_elem_of_filter. split; [intros ->; done|apply Hin; by right].
      * intros k' Ha. apply HQ. rewrite filter_cons_True by done. apply awake_cons; [done|done| |].
        { rewrite list_elem_of_filter. tauto. }
        replace (filter (fun t => due k t = true) ws) with (filter (fun x => due (woken_up t k) x = true) ws); [done|].
        apply list_filter_iff. intros x. by rewrite Hdue.
    + apply IH; [done..| |]; [intros x Hx; apply Hin; by right|]. intros k' Ha. apply HQ.
      rewrite filter_cons_False by (rewrite Ed; done). done.
Qed.
Lemma wake_routine k (Q : unit -> kst -> Prop) : intr_on (the_cpu k) = false -> sched_inv (in_ctx false k) -> sleepers k ->
  (forall k', awake (filter (fun t => due k t = true) (wait_list k)) k k' -> Q tt k') -> mwp thread_wake_routine k Q.
Proof.
  intros Hi Hk Hs HQ. unfold thread_wake_routine, thread_foreach_wait, intr_get_level.
  apply atomically_off; [done|..]; wp_step; wp_step; wp_step; (wp_step; [by rewrite Hi|]); wp_step; wp_step;
    (apply foreach_wake; [done|done|done|apply Hs|done|]); intros k' Ha.
  - intros _. by apply HQ.
  - by rewrite (aw_cpu _ _ _ Ha).
Qed.

(** ** The tick *)
Lemma filter_ext_in {A} (P Q : A -> Prop) `{!forall x, Decision (P x)} `{!forall x, Decision (Q x)} (l : list A) :
  (forall x, x ∈ l -> P x <-> Q x) -> filter P l = filter Q l.
Proof.
  induction l as [|x l IH]; intros Hpq; [done|]. rewrite !filter_cons.
  assert (Hx : P x <-> Q x) by (apply Hpq; left). rewrite IH by (intros y Hy; apply Hpq; by right).
  by destruct (decide (P x)), (decide (Q x)); try tauto.
Qed.
Lemma thread_tick_spec k (Q : unit -> kst -> Prop) : sched_inv (in_ctx false k) -> in_external_intr (the_cpu k) = true ->
  yield_on_return (the_cpu k) = false ->
  (forall c, ticks c = ticks (the_clock k) -> thread_ticks c = thread_ticks (the_clock k) +u 1 ->
     Q tt (set_cpu (Cpu (intr_on (the_cpu k)) true (TIME_SLICE <=? thread_ticks c) (esp0 (the_cpu k))) (set_clock c k))) ->
  mwp thread_tick k Q.
Proof.
  intros Hk Hc Hy HQ. destruct (running_th _ Hk) as (th & Eth & Es). cbn in Eth. unfold thread_tick. wp_step.
  apply thread_current_spec; [apply Hk|]. wp_step. eapply get_thread_spec; [exact Eth|]. wp_step. wp_step. wp_step. wp_step.
  wp_step. wp_step. match goal with |- mwp _ ?a _ => set (k1 := a) end.
  assert (E1 : k1 = set_clock (the_clock k1) k) by done.
  assert (Ht : ticks (the_clock k1) = ticks (the_clock k)) by (cbn; by repeat case_match).
  assert (Htt : thread_ticks (the_clock k1) = thread_ticks (the_clock k) +u 1) by (cbn; by repeat case_match).
  pose proof (HQ (the_clock k1) Ht Htt) as HQ1.
  assert (Ecpu : the_cpu k1 = the_cpu k) by done.
  destruct (TIME_SLICE <=? thread_ticks (the_clock k1)).
  - unfold intr_yield_on_return, intr_context. wp_step. wp_step. wp_step. wp_step; [by rewrite Ecpu|]. wp_step.
    rewrite Ecpu, Hc. exact HQ1.
  - wp_step. replace k1 with (set_cpu (Cpu (intr_on (the_cpu k)) true false (esp0 (the_cpu k))) (set_clock (the_clock k1) k)); [exact HQ1|].
    rewrite E1 at 2. rewrite <- Hc, <- Hy. clearbody k1. by destruct k as [? ? ? ? ? ? ? ? ? ? ? [? ? ? ?]].
Qed.

(** C18. At each timer tick the sleepers whose time has come, and no others, leave the
    list of sleepers and become ready (or run) with their semaphore at one; the
    others keep sleeping on their own semaphores; the running thread is preempted
    only when it has used up its time slice. *)
Theorem timer_event_wakes k : sched_inv k -> sleepers k -> -2 ^ 63 <= ticks (the_clock k) < 2 ^ 63 - 1 ->
  let now := ticks (the_clock k) + 1 in
  mwp timer_event k (fun _ k' => sched_inv k' /\ sleepers k' /\ ticks (the_clock k') = now /\
    wait_list k' = filter (fun t => ~ wakes_at k t < now) (wait_list k) /\
    (forall t, t ∈ wait_list k -> wakes_at k t < now ->
       (st k' t = Some THREAD_READY \/ st k' t = Some THREAD_RUNNING) /\ semas k' !! TimerSema t = Some (Semaphore 1 [])) /\
    (thread_ticks (the_clock k) +u 1 < TIME_SLICE -> running k' = running k)).
Proof.
  intros Hk Hs Ht now. pose proof (so_ctx _ (si_ok _ Hk)) as Hc.
  unfold timer_event, set_intr. wp_step. wp_step. unfold intr_handler, set_context, intr_get_level, intr_context.
  wp_step. wp_step. wp_step. wp_step; [done|]. wp_step. wp_step. wp_step. wp_step; [cbn; by rewrite Hc|].
  wp_step. wp_step. wp_step. unfold timer_interrupt. wp_step. wp_step.
  match goal with |- mwp _ ?a _ => set (k1 := a) end.
  assert (Hk1 : sched_inv (in_ctx false k1)) by (apply (sched_inv_fields k); done).
  assert (Hnow : ticks (the_clock k1) = now).
  { cbn. unfold s64. rewrite Z.mod_small; unfold now; lia. }
  wp_step. apply thread_tick_spec; [done..|]. intros c Hct Hctt.
  match goal with |- mwp _ ?a _ => set (k2 := a) end.
  assert (Hs2 : sleepers k2) by (destruct Hs; by split).
  apply wake_routine; [done|by apply (sched_inv_fields k)|exact Hs2|]. intros k3 Ha.
  set (ts := filter _ (wait_list k2)) in Ha.
  assert (Hdue : forall t, t ∈ ts <-> wakes_at k t < now /\ t ∈ wait_list k).
  { intros t. unfold ts. rewrite list_elem_of_filter. unfold due. rewrite Z.ltb_lt.
    change (ticks (the_clock k2)) with (ticks c). rewrite Hct, Hnow. done. }
  pose proof Ha as [H1 H2 H3 H4 H5 H6 H7 H8 H9 H10 H11 H12 H13].
  wp_step. wp_step. wp_step. wp_step; [by rewrite H8|]. wp_step. wp_step. wp_step. wp_step; [by rewrite H8|].
  wp_step. wp_step. wp_step. wp_step.
  set (k4 := set_cpu _ k3).
  assert (Hk4 : sched_inv k4) by (apply (sched_inv_fields (in_ctx false k3)); done).
  assert (Hs4 : sleepers k4) by (destruct H2; by split).
  assert (Hw4 : wait_list k4 = filter (fun t => ~ wakes_at k t < now) (wait_list k)).
  { change (wait_list k4) with (wait_list k3). rewrite H3. apply filter_ext_in. intros t Htw. rewrite Hdue. tauto. }
  assert (Hup : forall t, t ∈ wait_list k -> wakes_at k t < now -> st k4 t = Some THREAD_READY /\ semas k4 !! TimerSema t = Some (Semaphore 1 [])).
  { intros t Htw Hlt. change (st k4 t) with (st k3 t). change (semas k4) with (semas k3).
    rewrite H5, H7, !decide_True by (by apply Hdue). done. }
  assert (Htk : ticks (the_clock k4) = now) by (change (the_clock k4) with (the_clock k3); rewrite H9; cbn; congruence).
  rewrite H8. change (yield_on_return (the_cpu k2)) with (TIME_SLICE <=? thread_ticks c). rewrite Hctt.
  change (thread_ticks (the_clock k1)) with (thread_ticks (the_clock k)).
  destruct (Z.leb_spec TIME_SLICE (thread_ticks (the_clock k) +u 1)) as [Hsl|Hsl].
  - apply thread_yield_spec; [done|]. intros k5 (Hk5 & Hsr & _ & Hti & Hst) Hru _. split; [done|]. split.
    + destruct Hs4 as [Hnd Hb]. split; [by rewrite (sr_wait _ _ Hsr)|]. intros t. rewrite (sr_wait _ _ Hsr). intros Htw.
      destruct (Hb t Htw) as (Hbt & Hit & Hsm). rewrite Hst, (sr_idle _ _ Hsr), (sr_semas _ _ Hsr). split; [|done].
      rewrite !decide_False; [done|..].
      * intros ->. rewrite (si_running _ Hk4) in Hbt. done.
      * intros ->. rewrite Hru in *. destruct (queue_next k4 Hk4) as [E|[E|E]]; [done| |congruence].
        rewrite E, (si_running _ Hk4) in Hbt. done.
    + split; [congruence|]. rewrite (sr_wait _ _ Hsr). split; [done|]. split; [|lia].
      intros t Htw Hlt. destruct (Hup t Htw Hlt) as [Hr Hsm]. rewrite Hst, (sr_semas _ _ Hsr). split; [|done].
      case_decide; [by right|]. case_decide; by left.
  - wp_step. split; [done|]. split; [done|]. split; [done|]. split; [done|]. split; [|intros _; exact H10].
    intros t Htw Hlt. destruct (Hup t Htw Hlt). split; [by left|done].
Qed.

(** ** The race in thread_sleep *)
(** A tick that comes between the second [intr_set_level] of [thread_sleep] and its
    [sema_init]. *)
Definition sleep_interrupted (n : Z) : TM (list instr) :=
  _ ← thread_sleep_queue n; _ ← timer_event; _ ← set_intr true;
  _ ← thread_sleep_init; t ← running_thread; exec (DOWN (TimerSema t)).
Lemma sema_up_idle k s v (Q : unit -> kst -> Prop) : intr_on (the_cpu k) = false -> semas k !! s = Some (Semaphore v []) ->
  Q tt (put_sema s (Semaphore (v +u 1) []) k) -> mwp (sema_up s) k Q.
Proof.
  intros Hi Hs HQ. unfold sema_up.
  apply atomically_off; [done|..]; wp_step; (eapply get_sema_spec; [exact Hs|]); cbn [waiters]; wp_step; wp_step; wp_step;
    (eapply get_sema_spec; [exact Hs|]); unfold set_sema; by wp_step.
Qed.
Lemma wake_single k r th v (Q : unit -> kst -> Prop) : intr_on (the_cpu k) = false -> wait_list k = [r] ->
  threads k !! r = Some th -> wakeup_time th < ticks (the_clock k) -> semas k !! TimerSema r = Some (Semaphore v []) ->
  Q tt (set_wait [] (put_sema (TimerSema r) (Semaphore (v +u 1) []) k)) -> mwp thread_wake_routine k Q.
Proof.
  intros Hi Hw E Hlt Hs HQ.
  assert (H : mwp (thread_foreach_wait thread_wake_routine_helper) k
    (fun _ k' => k' = set_wait [] (put_sema (TimerSema r) (Semaphore (v +u 1) []) k))).
  { unfold thread_foreach_wait, intr_get_level. wp_step. wp_step. wp_step. wp_step; [by rewrite Hi|]. wp_step. wp_step.
    rewrite Hw. cbn [foreach]. wp_step. unfold thread_wake_routine_helper. wp_step. apply timer_ticks_off; [done|].
    wp_step. eapply get_thread_spec; [exact E|]. rewrite (proj2 (Z.ltb_lt _ _)) by done. wp_step.
    assert (Hf : filter (.≠ r) (wait_list k) = []) by (rewrite Hw; cbn; by rewrite decide_False by tauto).
    apply atomically_off; [done| |by wp_step]. wp_step. intros _. rewrite Hf.
    eapply sema_up_idle; [exact Hi|exact Hs|]. by wp_step. }
  unfold thread_wake_routine. apply atomically_off; [done|..]; (eapply mwp_mono; [exact H|]); intros [] k' ->; [by intros _|exact Hi].
Qed.
(** C27. [thread_sleep] can lose its wake-up: when a tick at which the sleep is over comes
    after the thread has joined the list of sleepers and before it initialises its
    semaphore, the thread goes to sleep although it has left the list, on a semaphore
    nobody will up. *)
Theorem thread_sleep_loses_wakeup k n v : sched_inv k -> intr_on (the_cpu k) = true -> running k <> idle_thread k ->
  wait_list k = [] -> semas k !! TimerSema (running k) = Some (Semaphore v []) ->
  -2 ^ 63 <= ticks (the_clock k) < 2 ^ 63 - 1 -> n <= 0 -> -2 ^ 63 <= ticks (the_clock k) + n ->
  thread_ticks (the_clock k) +u 1 < TIME_SLICE ->
  mwp (sleep_interrupted n) k (fun _ k' => st k' (running k) = Some THREAD_BLOCKED /\ wait_list k' = [] /\
    semas k' !! TimerSema (running k) = Some (Semaphore 0 [running k]) /\ sched_inv k').
Proof.
  intros Hk Hon Hni Hw Hsm Ht Hn Hno Hslice. pose proof (so_ctx _ (si_ok _ Hk)) as Hc.
  destruct (running_th k Hk) as (th & Eth & Eths). set (r := running k) in *.
  unfold sleep_interrupted, thread_sleep_queue. wp_step. wp_step. apply thread_current_spec; [apply Hk|].
  wp_step. unfold timer_ticks. apply atomically_spec; [done|]. wp_step. wp_step. wp_step. split; [done|].
  rewrite with_intr_twice, with_intr_same. cbn [the_clock with_intr set_cpu].
  wp_step. eapply upd_thread_spec; [exact Eth|]. apply atomically_spec; [done|]. wp_step. wp_step. wp_step. split; [done|].
  match goal with |- mwp _ ?a _ => set (k1 := a) end.
  set (th1 := set_wakeup (s64 (ticks (the_clock k) + n)) th).
  assert (Hk1 : k1 = set_wait [r] (set_threads (<[r := th1]> (threads k)) k)).
  { unfold k1. cbn. rewrite Hw. rewrite Hon. destruct k as [? ? ? ? ? ? ? ? ? ? ? [? ? ? ?]]. cbn in Hon. by subst. }
  assert (Hst1 : forall t, st k1 t = st k t).
  { intros t. rewrite Hk1. unfold st. cbn. destruct (decide (t = r)) as [->|]; [by rewrite lookup_insert_eq, Eth|by rewrite lookup_insert_ne]. }
  assert (Hs1 : sched_inv k1) by (rewrite Hk1; apply (sched_inv_fields (set_threads (<[r := th1]> (threads k)) k)); try done; by apply (sched_upd k r th)).
  wp_step. unfold timer_event, set_intr. wp_step. wp_step. unfold intr_handler, set_context, intr_get_level, intr_context.
  wp_step. wp_step. wp_step. wp_step; [done|]. wp_step. wp_step. wp_step. wp_step; [by rewrite Hk1; cbn; rewrite Hc|].
  wp_step. wp_step. wp_step. unfold timer_interrupt. wp_step. wp_step.
  match goal with |- mwp _ ?a _ => set (k2 := a) end.
  assert (Hk2 : sched_inv (in_ctx false k2)) by (apply (sched_inv_fields k1); done).
  assert (Hnow : ticks (the_clock k2) = ticks (the_clock k) + 1).
  { unfold k2. rewrite Hk1. cbn. unfold s64. rewrite Z.mod_small; lia. }
  wp_step. apply thread_tick_spec; [done..|]. intros c Hct Hctt.
  match goal with |- mwp _ ?a _ => set (k3 := a) end.
  assert (Hth3 : threads k3 !! r = Some th1) by (unfold k3, k2; rewrite Hk1; cbn; by rewrite lookup_insert_eq).
  assert (Hsm3 : semas k3 !! TimerSema r = Some (Semaphore v [])) by (unfold k3, k2; rewrite Hk1; exact Hsm).
  eapply (wake_single k3 r th1 v); [done|unfold k3, k2; by rewrite Hk1|exact Hth3| |exact Hsm3|].
  { change (ticks (the_clock k3)) with (ticks c). rewrite Hct, Hnow. cbn. unfold s64. rewrite Z.mod_small; lia. }
  wp_step. wp_step. wp_step. wp_step; [done|]. wp_step. wp_step. wp_step. wp_step; [done|]. wp_step. wp_step. wp_step. wp_step.
  cbn [the_cpu set_wait put_sema set_semas k3 set_cpu yield_on_return].
  rewrite Hctt. replace (thread_ticks (the_clock k2)) with (thread_ticks (the_clock k)) by (unfold k2; by rewrite Hk1).
  rewrite (proj2 (Z.leb_gt _ _)) by done. wp_step. wp_step. wp_step.
  match goal with |- mwp _ ?a _ => set (k4 := a) end.
  assert (Hr4 : running k4 = r) by (unfold k4, k3, k2; by rewrite Hk1).
  assert (Hk4 : sched_inv k4) by (apply (sched_inv_fields k1); done).
  wp_step. unfold thread_sleep_init. wp_step. apply thread_current_spec; [apply Hk4|]. unfold sema_init, set_sema. wp_step.
  unfold running_thread. wp_step. wp_step.
  match goal with |- mwp _ ?a _ => set (k5 := a) end. change (running k5) with (running k4). rewrite Hr4.
  assert (Hk5 : sched_inv k5) by (apply (sched_inv_fields k4); done).
  assert (Hs5 : semas k5 !! TimerSema r = Some (Semaphore 0 [])) by (unfold k5; rewrite Hr4; cbn; apply lookup_insert_eq).
  cbn [exec]. wp_step. apply not_interrupt_spec; [done|]. wp_step. apply intr_disable_spec. wp_step.
  eapply (down_loop_spec (with_intr false k5)); [by apply (sched_inv_fields k5)|exact Hs5|done|done|].
  intros _ k' k6 (Hinv & Hsr & _ & _ & Hst) Hru. wp_step.
  change (running k6) with (running k4) in Hst. rewrite Hr4 in Hst. split; [|split; [|split]].
  - rewrite Hst, Hru. rewrite decide_False; [by rewrite decide_True|].
    unfold next_up. change (ready_list k6) with (ready_list k4). change (idle_thread k6) with (idle_thread k4).
    assert (Hid : idle_thread k4 = idle_thread k) by (unfold k4, k3, k2; by rewrite Hk1).
    destruct (ready_list k4) as [|x xs] eqn:Ex; cbn; [congruence|]. intros <-.
    destruct (so_ready _ (si_ok _ Hk4) r) as [Hx _]; [rewrite Ex; left|]. pose proof (si_running _ Hk4) as Hrn. congruence.
  - rewrite (sr_wait _ _ Hsr). done.
  - rewrite (sr_semas _ _ Hsr). unfold k6, put_sema. cbn [semas set_semas]. rewrite lookup_insert_eq.
    exact (f_equal (fun x => Some (Semaphore 0 [x])) Hr4).
  - done.
Qed.

(** ** Calibration: the refinement tests each bit on its own, not on top of the bits
    found so far, so the result can take longer than a tick (here 2046 loops when
    1536 fit in one). *)
Lemma timer_calibrate_overshoots : timer_calibrate (fun loops => 1536 <? loops) = Ok 2046.
Proof. vm_compute. reflexivity. Qed.

(** ** Witnesses *)
(** Two sleepers, of which the first is due at the next tick. *)
Definition ex_sleeping : kst :=
  set_wait [12288; 16384] (set_ready []
    (set_semas (<[TimerSema 12288 := Semaphore 0 [12288]]> (<[TimerSema 16384 := Semaphore 0 [16384]]> (semas ex_kst)))
    (set_threads (<[12288 := set_wakeup 10 (ex_thread 3 THREAD_BLOCKED)]>
                 (<[16384 := set_wakeup 99 (ex_thread 4 THREAD_BLOCKED)]> (threads ex_kst))) ex_kst))).
Lemma ex_sleepers : sleepers ex_sleeping.
Proof.
  split; [apply (bool_decide_unpack _); vm_compute; reflexivity|].
  intros t. cbn [ex_sleeping wait_list set_wait]. rewrite !elem_of_cons. intros [->|[->|?%not_elem_of_nil]]; [by split|by split|done].
Qed.
Lemma timer_event_wakes_witness :
  mwp timer_event ex_sleeping (fun _ k' => sleepers k' /\ wait_list k' = [16384] /\ semas k' !! TimerSema 12288 = Some (Semaphore 1 [])).
Proof.
  eapply mwp_mono.
  - apply (timer_event_wakes ex_sleeping); [apply sched_check_sound; vm_compute; reflexivity|exact ex_sleepers|cbn; lia].
  - intros [] k' (_ & Hs & _ & Hw & Hup & _). split; [exact Hs|]. split; [rewrite Hw; vm_compute; reflexivity|].
    apply (Hup 12288); [left|vm_compute; reflexivity].
Defined.
Lemma thread_sleep_loses_wakeup_witness :
  let k := set_semas (<[TimerSema 8192 := Semaphore 1 []]> (semas ex_kst)) ex_kst in
  mwp (sleep_interrupted 0) k (fun _ k' => st k' 8192 = Some THREAD_BLOCKED /\ wait_list k' = []).
Proof.
  intros k. eapply mwp_mono.
  - apply (thread_sleep_loses_wakeup k 0 1); first [done | apply sched_check_sound; vm_compute; reflexivity | cbn; lia].
  - intros l k' (H1 & H2 & _). by split.
Defined.
