(* ===== verification/ThreadCreate.v ===== *)
(** * ThreadCreate: what thread_create does

    The new thread's page is a page nobody had, its stack holds the frames from
    which [switch_threads] starts [kernel_thread] with the function and its
    argument, and it is last in the ready list. *)
From S2P Require Import Prelude.
From S2P Require Import Bitmap.
From S2P Require Import Vaddr.
From S2P Require Import Palloc.
From S2P Require Import Pagedir.
From S2P Require Import KList.
From S2P Require Import Sched.
From S2P Require Import Synch.
From S2P Require Import Thread.
From S2P Require Import ThreadSpec.

Lemma in_mem_spec {A} (m : KM A) k (Q : A -> kst -> Prop) :
  mwp m (mem k) (fun a m' => Q a (set_mem m' k)) -> mwp (in_mem m) k Q.
Proof. unfold mwp, in_mem. by destruct (m (mem k)) as [[a m']| | |]. Qed.
Lemma same_pools_trans m1 m2 m3 : same_pools m1 m2 -> same_pools m2 m3 -> same_pools m1 m3.
Proof.
  intros [E1 H1] [E2 H2]. split; [congruence|]. intros u. destruct (H1 u), (H2 u). split; congruence.
Qed.
Lemma own_stored m p i v m' q : stored m p i v m' -> own_page m q -> own_page m' q.
Proof.
  intros [_ [_ Hs] Ht _ _] [Hq Hqt]. split; [|by apply Ht]. unfold in_pool in *.
  destruct (Hs false) as [Hb Hc]. cbn in Hb, Hc. by rewrite Hb, Hc.
Qed.
(** One store on the thread's stack. *)
Lemma store_mem k t i v (Q : unit -> kst -> Prop) : kmem_wf (mem k) -> own_page (mem k) t -> 0 <= i < 1024 -> is_u32 v ->
  (forall m', stored (mem k) t i v m' -> own_page m' t -> Q tt (set_mem m' k)) -> mwp (in_mem (store_word (t + 4 * i) v)) k Q.
Proof.
  intros Hm Ho Hi Hv HQ. apply in_mem_spec, store_word_spec; [done..|]. intros m' Hs. apply HQ; [done|]. by eapply own_stored.
Qed.
Lemma alloc_frame_spec k t th size (Q : Z -> kst -> Prop) : threads k !! t = Some th -> size mod 4 = 0 ->
  Q (stack th - size) (set_threads (<[t := set_stack (stack th - size) th]> (threads k)) k) -> mwp (alloc_frame t size) k Q.
Proof.
  intros E Hs HQ. unfold alloc_frame. wp_step. apply is_thread_spec; [by exists th|]. wp_step. wp_step; [done|].
  wp_step. wp_step; [by apply Z.eqb_eq|]. wp_step. eapply get_thread_spec; [exact E|]. wp_step. eapply upd_thread_spec; [exact E|].
  by wp_step.
Qed.
(** The stack of a thread that has not run yet: where [switch_threads] returns to,
    where [switch_entry] returns to, and the arguments [kernel_thread] finds. *)
Record first_stack (entry start function aux t : Z) (m m' : kmem) : Prop := FirstStack {
  fs_wf : kmem_wf m';
  fs_pools : same_pools m m';
  fs_taken : forall q, taken m' q <-> taken m q;
  fs_switch : word m' (t + 4052 + 16) = Some entry;
  fs_entry : word m' (t + 4080) = Some start;
  fs_return : word m' (t + 4084) = Some NULL;
  fs_function : word m' (t + 4084 + 4) = Some function;
  fs_aux : word m' (t + 4084 + 8) = Some aux;
  fs_frames : forall q, q <> t -> frames m' !! q = frames m !! q;
}.
Lemma set_stack_twice a b th : set_stack a (set_stack b th) = set_stack a th.
Proof. done. Qed.
Lemma thr_of_mem m k : threads (set_mem m k) = threads k.
Proof. done. Qed.
Lemma thr_of_thr a k : threads (set_threads a k) = a.
Proof. done. Qed.
Lemma thr_mem a m k : set_threads a (set_mem m k) = set_mem m (set_threads a k).
Proof. done. Qed.
Lemma mem_mem m m' k : set_mem m (set_mem m' k) = set_mem m k.
Proof. done. Qed.
Lemma thr_thr a b k : set_threads a (set_threads b k) = set_threads a k.
Proof. done. Qed.
Lemma first_frames_spec entry start k t th function aux (Q : unit -> kst -> Prop) :
  kmem_wf (mem k) -> own_page (mem k) t -> threads k !! t = Some th -> stack th = t + 4096 ->
  is_u32 entry -> is_u32 start -> is_u32 function -> is_u32 aux ->
  (forall m', first_stack entry start function aux t (mem k) m' ->
     Q tt (set_mem m' (set_threads (<[t := set_stack (t + 4052) th]> (threads k)) k))) ->
  mwp (first_frames start entry t function aux) k Q.
Proof.
  intros Hm Ho E Est He Hs Hf Ha HQ. pose proof (own_kpage _ _ Hm Ho) as [_ Htm].
  unfold first_frames. wp_step. eapply alloc_frame_spec; [exact E|done|]. rewrite Est. set (t1 := set_stack (t + 4096 - 12) th).
  set (k1 := set_threads _ k).
  replace (t + 4096 - 12) with (t + 4 * 1021) by lia. wp_step.
  apply (store_mem k1 t); [done|done|lia|done|]. intros m1 S1 O1. pose proof (st_wf _ _ _ _ _ S1) as W1.
  replace (t + 4 * 1021 + 4) with (t + 4 * 1022) by lia. wp_step.
  apply store_mem; [done|done|lia|done|]. intros m2 S2 O2. pose proof (st_wf _ _ _ _ _ S2) as W2.
  replace (t + 4 * 1021 + 8) with (t + 4 * 1023) by lia. wp_step.
  apply store_mem; [done|done|lia|done|]. intros m3 S3 O3. pose proof (st_wf _ _ _ _ _ S3) as W3.
  wp_step. eapply (alloc_frame_spec _ t t1); [cbn; apply lookup_insert_eq|done|].
  replace (stack t1 - 4) with (t + 4 * 1020) by (cbn; lia). wp_step.
  apply store_mem; [done|done|lia|done|]. intros m4 S4 O4. pose proof (st_wf _ _ _ _ _ S4) as W4.
  wp_step. eapply alloc_frame_spec; [cbn; apply lookup_insert_eq|done|].
  replace (stack (set_stack (t + 4 * 1020) t1) - 28) with (t + 4 * 1013) by (cbn; lia).
  replace (t + 4 * 1013 + 16) with (t + 4 * 1017) by lia. wp_step.
  apply store_mem; [done|done|lia|done|]. intros m5 S5 O5. pose proof (st_wf _ _ _ _ _ S5) as W5.
  replace (t + 4 * 1013 + 8) with (t + 4 * 1015) by lia.
  apply store_mem; [done|done|lia|done|]. intros m6 S6 O6. cbn in S1, S2, S3, S4, S5, S6.
  match goal with |- Q tt ?a => replace a with (set_mem m6 (set_threads (<[t := set_stack (t + 4052) th]> (threads k)) k)) end.
  2:{ unfold k1. repeat (rewrite thr_of_mem || rewrite thr_of_thr). rewrite !insert_insert_eq.
      rewrite ?thr_mem, ?mem_mem, ?thr_thr. unfold t1. rewrite !set_stack_twice.
      by replace (t + 4 * 1013) with (t + 4052) by lia. }
  apply HQ.
  assert (Hw : forall j, 0 <= j < 1024 -> word m6 (t + 4 * j) =
    if decide (j = 1015) then Some 0 else if decide (j = 1017) then Some entry else if decide (j = 1020) then Some start
    else if decide (j = 1023) then Some aux else if decide (j = 1022) then Some function
    else if decide (j = 1021) then Some NULL else word (mem k) (t + 4 * j)).
  { intros j Hj. rewrite (st_word _ _ _ _ _ S6), (st_word _ _ _ _ _ S5), (st_word _ _ _ _ _ S4), (st_word _ _ _ _ _ S3),
      (st_word _ _ _ _ _ S2), (st_word _ _ _ _ _ S1) by done. repeat case_decide; try tauto; lia. }
  split.
  - exact (st_wf _ _ _ _ _ S6).
  - eapply same_pools_trans; [exact (st_pools _ _ _ _ _ S1)|]. eapply same_pools_trans; [exact (st_pools _ _ _ _ _ S2)|].
    eapply same_pools_trans; [exact (st_pools _ _ _ _ _ S3)|]. eapply same_pools_trans; [exact (st_pools _ _ _ _ _ S4)|].
    eapply same_pools_trans; [exact (st_pools _ _ _ _ _ S5)|]. exact (st_pools _ _ _ _ _ S6).
  - intros q. by rewrite (st_taken _ _ _ _ _ S6), (st_taken _ _ _ _ _ S5), (st_taken _ _ _ _ _ S4), (st_taken _ _ _ _ _ S3),
      (st_taken _ _ _ _ _ S2), (st_taken _ _ _ _ _ S1).
  - replace (t + 4052 + 16) with (t + 4 * 1017) by lia. by rewrite Hw by lia.
  - replace (t + 4080) with (t + 4 * 1020) by lia. by rewrite Hw by lia.
  - replace (t + 4084) with (t + 4 * 1021) by lia. by rewrite Hw by lia.
  - replace (t + 4084 + 4) with (t + 4 * 1022) by lia. by rewrite Hw by lia.
  - replace (t + 4084 + 8) with (t + 4 * 1023) by lia. by rewrite Hw by lia.
  - intros q Hq. by rewrite (st_frames _ _ _ _ _ S6), (st_frames _ _ _ _ _ S5), (st_frames _ _ _ _ _ S4), (st_frames _ _ _ _ _ S3),
      (st_frames _ _ _ _ _ S2), (st_frames _ _ _ _ _ S1).
Qed.

(** ** A new thread in the scheduler's state *)
Lemma sched_new k t th : sched_inv k -> threads k !! t = None -> t <> NULL -> status th = THREAD_BLOCKED -> pagedir th = NULL ->
  sched_inv (set_threads (<[t := th]> (threads k)) k).
Proof.
  intros [[Hc Hn Hr Hst Hu Hi H0 Hb Hp] Hrun] E Ht Es Ep.
  assert (Hs : forall x, st (set_threads (<[t := th]> (threads k)) k) x = if decide (x = t) then Some THREAD_BLOCKED else st k x).
  { intros x. unfold st. cbn. destruct (decide (x = t)) as [->|]; [|by rewrite lookup_insert_ne].
    rewrite lookup_insert_eq. cbn. by rewrite Es. }
  assert (Hno : forall s, st k t <> Some s) by (intros s; unfold st; by rewrite E).
  split; [split|]; try done; cbn.
  - intros x Hx. destruct (Hr x Hx) as [Hs' ?]. split; [|done]. rewrite Hs, decide_False; [done|]. intros ->. by apply (Hno _ Hs').
  - intros x. rewrite Hs. case_decide; [done|]. apply Hst.
  - intros x. rewrite Hs. case_decide; [done|]. apply Hu.
  - destruct (decide (idle_thread k = t)) as [->|]; [rewrite lookup_insert_eq; by eexists|by rewrite lookup_insert_ne].
  - by rewrite lookup_insert_ne.
  - intros x thx. destruct (decide (x = t)) as [->|]; [|rewrite lookup_insert_ne by done; apply Hp].
    rewrite lookup_insert_eq. intros [= <-]. by left.
  - rewrite Hs, decide_False; [done|]. intros E2. rewrite E2 in Hrun. by apply (Hno _ Hrun).
Qed.
Lemma thread_eq a b : set_status THREAD_READY a = set_status THREAD_READY b -> status a = status b -> a = b.
Proof. destruct a, b. unfold set_status. cbn. intros [= ] ?. by subst. Qed.
Definition name16 (nm : list Z) : list Z :=
  let s := take 15 nm ++ [0] in s ++ replicate (16 - length s)%nat 0.
Lemma copy_name_16 nm : copy_name (replicate 16 0) nm NAME_LEN = Ok (name16 nm).
Proof.
  unfold copy_name, NAME_LEN. cbn [Z.eqb]. change (Z.to_nat (16 - 1)) with 15%nat.
  assert (Hl : (length (take 15 nm ++ [0%Z]) <= 16)%nat) by (rewrite length_app, length_take; cbn [length]; lia).
  unfold zsplice. rewrite decide_True by (unfold zlen; rewrite length_replicate; lia).
  cbn [deref]. f_equal. unfold name16. change (take (Z.to_nat 0) (replicate 16 0)) with (@nil Z). cbn [app].
  change (Z.to_nat 0 + length (take 15 nm ++ [0%Z]))%nat with (length (take 15 nm ++ [0%Z])).
  by rewrite drop_replicate.
Qed.
(** The thread as [init_thread] leaves it. *)
Definition blank (t : Z) (nm : list Z) (prio : Z) : thread :=
  Thread 0 THREAD_BLOCKED (name16 nm) (t + PGSIZE) prio (scribbled t :: replicate 15 no_marker) 0 NULL 0 0 NULL (replicate 128 0) NULL NULL.
Lemma init_thread_spec k t nm prio (Q : unit -> kst -> Prop) : t <> NULL -> PRI_MIN <= prio <= PRI_MAX ->
  Q tt (set_all (all_list k ++ [t]) (set_threads (<[t := blank t nm prio]> (threads k)) k)) -> mwp (init_thread t nm prio) k Q.
Proof.
  intros Ht Hp HQ. unfold init_thread. wp_step. wp_step; [by apply negb_true_iff, Z.eqb_neq|].
  wp_step. wp_step; [apply andb_true_iff; split; apply Z.leb_le; lia|]. wp_step. wp_step. rewrite copy_name_16. cbn.
  wp_step. wp_step. wp_step. exact HQ.
Qed.
Lemma allocate_tid_spec k (Q : Z -> kst -> Prop) : sched_inv k -> free_lock k tid_lock ->
  Q (next_tid k) (set_next_tid (s32 (next_tid k + 1)) k) -> mwp allocate_tid k Q.
Proof.
  intros Hk Hl HQ. unfold allocate_tid. wp_step. apply run_acquire; [done..|]. wp_step. wp_step. wp_step. wp_step. wp_step.
  apply run_release; [by apply (sched_inv_fields k)|cbn; by rewrite lookup_insert_eq|cbn; by rewrite lookup_insert_eq|].
  wp_step. change (next_tid (taken_lock tid_lock k)) with (next_tid k).
  set (g := set_next_tid (s32 (next_tid k + 1))).
  change (Q (next_tid k) (given_lock tid_lock (g (taken_lock tid_lock k)))). rewrite given_back; try done.
Qed.

Lemma back_on k m t (th th' : thread) :
  let k1 := set_mem m (set_threads (<[t := th]> (threads (with_intr false k))) (with_intr false k)) in
  with_intr (intr_on (the_cpu k)) (set_threads (<[t := th']> (threads k1)) k1) = set_mem m (set_threads (<[t := th']> (threads k)) k).
Proof.
  cbv zeta. rewrite thr_of_mem, thr_of_thr, insert_insert_eq. by destruct k as [? ? ? ? ? ? ? ? ? ? ? [? ? ? ?]].
Qed.
(** The threads' pages are allocated pages (the first thread's page was never in a pool). *)
Definition pages_taken (k : kst) : Prop :=
  forall t, is_Some (threads k !! t) -> in_pool (kernel_pool (mem k)) t -> taken (mem k) t.
(** The state after the creation of thread [t]. *)
Record created (start entry : Z) (k : kst) (t : Z) (nm : list Z) (prio function aux : Z) (k' : kst) : Prop := Created {
  cr_sched : sched_inv k';
  cr_fresh : threads k !! t = None /\ ~ taken (mem k) t;
  cr_taken : forall q, taken (mem k') q <-> taken (mem k) q \/ q = t;
  cr_ready : ready_list k' = ready_list k ++ [t];
  cr_all : all_list k' = all_list k ++ [t];
  cr_thread : threads k' !! t = Some (set_stack (t + 4052) (set_status THREAD_READY (set_tid (next_tid k) (blank t nm prio))));
  cr_others : forall x, x <> t -> threads k' !! x = threads k !! x;
  cr_next : next_tid k' = s32 (next_tid k + 1);
  cr_stack : word (mem k') (t + 4052 + 16) = Some entry /\ word (mem k') (t + 4080) = Some start /\
    word (mem k') (t + 4084 + 4) = Some function /\ word (mem k') (t + 4084 + 8) = Some aux;
  cr_frames : forall q, q <> t -> frames (mem k') !! q = frames (mem k) !! q;
  cr_rest : running k' = running k /\ the_cpu k' = the_cpu k /\ semas k' = semas k /\ holders k' = holders k /\
    pages_taken k';
}.
(** [thread_create] returns TID_ERROR, and has changed nothing, when there is no free
    page; otherwise the new thread has a page no thread had, the next tid, its name
    cut to 15 characters, an empty list of descriptors, a stack from which
    [kernel_thread] starts with the function and its argument, and is last in the
    ready list; nothing else changes. *)
Theorem thread_create_ready start entry k nm prio function aux :
  sched_inv k -> kmem_wf (mem k) -> free_lock k tid_lock -> pages_taken k ->
  function <> NULL -> PRI_MIN <= prio <= PRI_MAX -> is_u32 entry -> is_u32 start -> is_u32 function -> is_u32 aux ->
  mwp (thread_create start entry nm prio function aux) k (fun n k' =>
    (n = TID_ERROR /\ k' = k /\ forall a, ~ free_run (kernel_pool (mem k)) 1 a) \/
    (n = next_tid k /\ exists t, created start entry k t nm prio function aux k')).
Proof.
  intros Hk Hm Hl Hpt Hf Hp He Hs Hfu Ha. unfold thread_create. wp_step. wp_step; [by apply negb_true_iff, Z.eqb_neq|].
  wp_step. wp_step. wp_step. apply in_mem_spec. apply palloc_get_multiple_spec; [exact Hm|lia| |].
  { intros Hno. split; [done|]. rewrite Z.eqb_refl. wp_step. left. split; [done|]. split; [by destruct k|]. exact Hno. }
  change (flag PAL_ZERO PAL_USER) with false. change (flag PAL_ZERO PAL_ZERO) with true.
  intros t m1 [Hw1 Hs1 Hkp Hfree Htk Hfr]. pose proof Hkp as [_ Htm].
  setoid_rewrite (in_block_1 t _ Htm) in Htk. setoid_rewrite (in_block_1 t _ Htm) in Hfree.
  destruct (Hfree t eq_refl) as [Hin Hnt]. cbn [pool_of] in Hin.
  assert (Hown : own_page m1 t).
  { split; [|apply Htk; by right]. destruct (proj2 Hs1 false) as [Hb Hc]. cbn in Hb, Hc. unfold in_pool. by rewrite Hb, Hc. }
  assert (Htn : t <> NULL) by (intros ->; destruct Hkp as [[H _] _]; revert H; vm_compute; intros H; by apply H).
  assert (Hnone : threads k !! t = None).
  { destruct (threads k !! t) eqn:E; [|done]. exfalso. apply Hnt, Hpt; [by eexists|done]. }
  rewrite (proj2 (Z.eqb_neq t NULL)) by done. wp_step. apply init_thread_spec; [done|done|].
  set (k1 := set_all _ _).
  assert (Hk1 : sched_inv k1).
  { apply (sched_inv_fields (set_threads (<[t := blank t nm prio]> (threads k)) k)); try done. by apply sched_new. }
  wp_step. apply allocate_tid_spec; [done|exact Hl|]. set (k2 := set_next_tid _ k1).
  set (b := blank t nm prio) in *.
  wp_step. eapply (upd_thread_spec k2 t b); [cbn; apply lookup_insert_eq|].
  wp_step. eapply (upd_thread_spec _ t (set_tid (next_tid k1) b)); [cbn; apply lookup_insert_eq|].
  change (set_fd_list (replicate 128 0) (set_tid (next_tid k1) b)) with (set_tid (next_tid k) b).
  set (th := set_tid (next_tid k) b). rewrite thr_thr, thr_of_thr, insert_insert_eq.
  set (k3 := set_threads (<[t := th]> (threads k2)) k2).
  assert (Hk3 : sched_inv k3).
  { apply (sched_inv_fields (set_threads (<[t := th]> (threads k)) k)); try done; [by apply sched_new|].
    unfold k3, k2, k1. cbn [threads set_threads set_next_tid set_all]. by rewrite insert_insert_eq. }
  wp_step. apply atomically_spec; [apply Hk3|]. wp_step.
  apply (first_frames_spec entry start (with_intr false k3) t th); [exact Hw1|exact Hown|cbn; apply lookup_insert_eq|done..|].
  intros m2 HF. change (mem (with_intr false k3)) with m1 in HF.
  eapply upd_thread_spec; [cbn; apply lookup_insert_eq|].
  change (set_wd NULL (set_stack (t + 4052) th)) with (set_stack (t + 4052) th). set (th2 := set_stack (t + 4052) th).
  split; [cbn; apply Hk3|]. rewrite back_on. set (k4 := set_mem m2 _).
  assert (E4 : threads k4 = <[t := th2]> (threads k)).
  { unfold k4, k3, k2, k1. cbn [threads set_mem set_threads set_next_tid set_all]. by rewrite !insert_insert_eq. }
  assert (Hk4 : sched_inv k4).
  { apply (sched_inv_fields (set_threads (<[t := th2]> (threads k)) k)); try done. by apply sched_new. }
  wp_step. apply (thread_unblock_spec k4 t); [apply Hk4|unfold st; by rewrite E4, lookup_insert_eq| |].
  { cbn. intros ->. destruct (so_idle _ (si_ok _ Hk)) as [x Hx]. congruence. }
  intros k5 Hok Hsr Hre Hru Hcpu Hclk Hmem Hst. wp_step. right. split; [done|]. exists t.
  assert (Hthr : forall x, threads k5 !! x = if decide (x = t) then Some (set_status THREAD_READY th2) else threads k !! x).
  { intros x. pose proof (sr_threads _ _ Hsr x) as E1. pose proof (Hst x) as E2. unfold st in E2. rewrite E4 in E1, E2.
    destruct (decide (x = t)) as [->|Hne].
    - rewrite lookup_insert_eq in E1. destruct (threads k5 !! t) as [y|]; [|done]. cbn in E1, E2.
      apply (inj Some) in E2. f_equal. apply thread_eq; [exact (inj Some _ _ E1)|exact E2].
    - rewrite lookup_insert_ne in E1, E2 by done. destruct (threads k5 !! x) as [y|], (threads k !! x) as [z|]; try done.
      cbn in E1, E2. f_equal. apply thread_eq; [exact (inj Some _ _ E1)|exact (inj Some _ _ E2)]. }
  destruct HF as [F1 F2 F3 F4 F5 F6 F7 F8 F9]. change (mem k4) with m2 in Hmem.
  split; try done.
  - split; [done|]. rewrite Hst, Hru, decide_False; [apply Hk4|]. intros E. change (running k = t) in E.
    destruct (running_th k Hk) as (y & Hy & _). congruence.
  - intros q. by rewrite Hmem, F3, Htk.
  - by rewrite (sr_all _ _ Hsr).
  - by rewrite Hthr, decide_True.
  - intros x Hx. by rewrite Hthr, decide_False.
  - by rewrite (sr_tid _ _ Hsr).
  - by rewrite Hmem.
  - intros q Hq. rewrite Hmem, F9, Hfr by done. rewrite decide_False; [done|]. intros [_ ?%in_block_1]; done.
  - split; [done|]. split; [done|]. split; [by rewrite (sr_semas _ _ Hsr)|]. split; [by rewrite (sr_holders _ _ Hsr)|].
    intros x. rewrite Hthr, Hmem, F3, Htk. destruct (decide (x = t)) as [Ex|Ex]; [by intros _ _; right|]. intros Hx Hxp. left. apply Hpt; [done|].
    unfold in_pool in *. destruct (proj2 F2 false) as [Hb Hc]. destruct (proj2 Hs1 false) as [Hb1 Hc1]. cbn in Hb, Hc, Hb1, Hc1.
    by rewrite Hb, Hc, Hb1, Hc1 in Hxp.
Qed.

Lemma ex_pages_taken : pages_taken ex_locks.
Proof.
  intros t [th Ht] [[Hb _] _]. exfalso. change (ex_pd <= t) in Hb. unfold ex_pd in Hb.
  unfold ex_locks, ex_kst in Ht. cbn [threads set_semas] in Ht. lookups Ht; subst; lia.
Qed.
Lemma thread_create_ready_witness :
  mwp (thread_create 0xc0101000 0xc0102000 [119] PRI_DEFAULT 0xc0103000 7) ex_locks (fun n k' =>
    n = TID_ERROR \/ (n = 5 /\ exists t, ready_list k' = [12288; 16384; t] /\ word (mem k') (t + 4084 + 4) = Some 0xc0103000)).
Proof.
  eapply mwp_mono.
  - apply (thread_create_ready 0xc0101000 0xc0102000 ex_locks [119] PRI_DEFAULT 0xc0103000 7);
      [apply ex_fd_ok|exact ex_paged_wf|by split|exact ex_pages_taken|discriminate|by vm_compute|by vm_compute..].
  - intros n k' [(-> & _)|(-> & t & Hc)]; [by left|right].
    split; [reflexivity|]. exists t. destruct (cr_stack _ _ _ _ _ _ _ _ _ Hc) as (_ & _ & Hf & _).
    split; [exact (cr_ready _ _ _ _ _ _ _ _ _ Hc)|exact Hf].
Defined.
