(* ===== verification/Args.v ===== *)
(** * Args: the argument page of setup_stack (userprog/process.c)

    The bytes [setup_stack] writes into the top page of a new process: a copy of the
    command line, cut into words in place, and below it, through the user addresses
    the page has just been mapped at, the pointers to the words, a null pointer,
    argv, argc and a return address.  Memory is the map of CString.v; a user address
    outside the page is not mapped and faults. *)
From S2P Require Import Prelude.
From S2P Require Import Vaddr.
From S2P Require Import CString.

Definition userpage : Z := PHYS_BASE - PGSIZE.
(** The kernel address of a user address in the page at [kpage]. *)
Definition u2k (kpage a : Z) : Z := kpage + (a - userpage).
Definition user_store (kpage a x : Z) : MM unit :=
  if (userpage <=? a) && (a <? PHYS_BASE) then mstore (u2k kpage a) x else fault.
(** [memcpy (a, &v, 4)] *)
Definition poke (kpage a v : Z) : MM unit :=
  _ ← user_store kpage a (v mod 256); _ ← user_store kpage (a + 1) (v / 2 ^ 8 mod 256);
  _ ← user_store kpage (a + 2) (v / 2 ^ 16 mod 256); user_store kpage (a + 3) (v / 2 ^ 24 mod 256).
(** [arg_locations[argc - i]], the null pointer first. *)
Definition push_body (kpage argc : Z) (arg_locations : list Z) (s : Z * Z) : MM (Z * Z + Z) :=
  let '(i, esp) := s in
  if i <=? argc then
    let esp := esp - 4 in
    v ← (if i =? 0 then mret 0 else lift (deref (znth arg_locations (argc - i))));
    _ ← poke kpage esp v; mret (inl (u8 (i + 1), esp))
  else mret (inr esp).
(** The part of [setup_stack] after [install_page] has succeeded: the stack pointer,
    or null when the command line does not fit in a page.  [delim] is the address of
    the string of one space. *)
Definition setup_args (kpage file_name delim : Z) : MM (option Z) :=
  n ← strlen file_name;
  let cmd_len := n + 1 in
  if PGSIZE <? cmd_len then mret None
  else
    let cpy := kpage + PGSIZE - cmd_len in
    _ ← memcpy cpy file_name cmd_len;
    let esp := PHYS_BASE - cmd_len in
    fuel ← scan_fuel;
    tokens ← tokenize fuel cpy delim;
    let argc := zlen tokens in
    if 128 <? argc then fault
    else
      let arg_locations := map (fun token => userpage + (token - kpage)) tokens in
      esp ← mloop 257 (push_body kpage argc arg_locations) (0, esp);
      _ ← poke kpage (esp - 4) esp; let esp := esp - 4 in
      _ ← poke kpage (esp - 4) argc; let esp := esp - 4 in
      _ ← poke kpage (esp - 4) 0; let esp := esp - 4 in
      mret (Some esp).

(** ** Specification *)
(** The little-endian word at a kernel address. *)
Definition peek (m : mem) (p v : Z) : Prop :=
  forall j, 0 <= j < 4 -> m !! (p + j) = Some (v / 2 ^ (8 * j) mod 256).
(** The page can be written below the user address [hi]. *)
Definition page_at (m : mem) (kpage hi : Z) : Prop := hi <= PHYS_BASE /\ mapped m kpage (hi - userpage).
Lemma user_store_spec kpage hi a x m (Q : unit -> mem -> Prop) : page_at m kpage hi -> userpage <= a < hi -> 0 <= x < 256 ->
  Q tt (<[u2k kpage a := x]> m) -> mwp (user_store kpage a x) m Q.
Proof.
  intros [Hh Hm] Ha Hx HQ. unfold user_store. rewrite (proj2 (Z.leb_le _ _)), (proj2 (Z.ltb_lt _ _)) by lia. cbn [andb].
  apply mstore_spec; [|by rewrite u8_small].
  destruct (Hm (u2k kpage a)) as (y & Hy & _); [|by exists y]. unfold u2k, userpage in *. lia.
Qed.
Lemma page_at_store m kpage hi q x : page_at m kpage hi -> 0 <= x < 256 -> page_at (<[q := x]> m) kpage hi.
Proof.
  intros [Hh Hm] Hx. split; [done|]. intros p Hp. destruct (decide (p = q)) as [->|]; [exists x; by rewrite lookup_insert_eq|].
  rewrite lookup_insert_ne by done. by apply Hm.
Qed.
Lemma byte_range v : 0 <= v mod 256 < 256.
Proof. apply Z.mod_pos_bound. lia. Qed.
Lemma poke_spec kpage hi a v m (Q : unit -> mem -> Prop) : page_at m kpage hi -> userpage <= a -> a + 4 <= hi ->
  (forall m', peek m' (u2k kpage a) v -> (forall q, ~ u2k kpage a <= q < u2k kpage a + 4 -> m' !! q = m !! q) ->
     page_at m' kpage hi -> Q tt m') -> mwp (poke kpage a v) m Q.
Proof.
  intros Hm Ha1 Ha2 HQ. unfold poke.
  wp_step. eapply user_store_spec; [eassumption|lia|apply byte_range|]. pose proof (page_at_store _ _ _ (u2k kpage a) _ Hm (byte_range v)) as H1.
  wp_step. eapply user_store_spec; [eassumption|lia|apply byte_range|].
  pose proof (page_at_store _ _ _ (u2k kpage (a + 1)) _ H1 (byte_range (v / 2 ^ 8))) as H2.
  wp_step. eapply user_store_spec; [eassumption|lia|apply byte_range|].
  pose proof (page_at_store _ _ _ (u2k kpage (a + 2)) _ H2 (byte_range (v / 2 ^ 16))) as H3.
  eapply user_store_spec; [eassumption|lia|apply byte_range|].
  pose proof (page_at_store _ _ _ (u2k kpage (a + 3)) _ H3 (byte_range (v / 2 ^ 24))) as H4.
  assert (Hu : forall j, u2k kpage (a + j) = u2k kpage a + j) by (intros j; unfold u2k; lia).
  rewrite !Hu in *. set (p := u2k kpage a) in *. apply HQ; [| |exact H4].
  - intros j Hj. destruct (decide (j = 3)) as [->|]; [by rewrite lookup_insert_eq|]. rewrite lookup_insert_ne by lia.
    destruct (decide (j = 2)) as [->|]; [by rewrite lookup_insert_eq|]. rewrite lookup_insert_ne by lia.
    destruct (decide (j = 1)) as [->|]; [by rewrite lookup_insert_eq|]. rewrite lookup_insert_ne by lia.
    assert (j = 0) as -> by lia. rewrite Z.add_0_r, lookup_insert_eq. cbn [Z.mul Z.pow]. by rewrite Z.div_1_r.
  - intros q Hq. by rewrite !lookup_insert_ne by lia.
Qed.
Lemma peek_ext m m' p v : peek m p v -> (forall q, p <= q < p + 4 -> m' !! q = m !! q) -> peek m' p v.
Proof. intros H Hm j Hj. rewrite Hm by lia. by apply H. Qed.

(** The words pushed, the last of [items] at the lowest address. *)
Fixpoint pushed (m : mem) (kpage top : Z) (items : list Z) : Prop :=
  match items with
  | [] => True
  | v :: items' => peek m (u2k kpage (top - 4)) v /\ pushed m kpage (top - 4) items'
  end.
Lemma pushed_ext m m' kpage top items : pushed m kpage top items ->
  (forall q, u2k kpage (top - 4 * zlen items) <= q < u2k kpage top -> m' !! q = m !! q) -> pushed m' kpage top items.
Proof.
  revert top. induction items as [|v items IH]; intros top; [done|]. intros [Hp H] Hm. cbn.
  assert (Hl : zlen (v :: items) = zlen items + 1) by (unfold zlen; simpl; lia). pose proof (zlen_nonneg items).
  split; [eapply peek_ext; [exact Hp|]|apply IH; [done|]]; intros q Hq; apply Hm; rewrite Hl; unfold u2k in *; lia.
Qed.
(** The loop that pushes the pointers, from turn [i] on. *)
Definition argv_items (locs : list Z) : list Z := 0 :: reverse locs.
Lemma argv_items_len locs : zlen (argv_items locs) = zlen locs + 1.
Proof. unfold argv_items, zlen. simpl. rewrite length_reverse. lia. Qed.
Lemma push_item (locs : list Z) i (m : mem) : 0 <= i <= zlen locs ->
  exists v, argv_items locs !! Z.to_nat i = Some v /\
    mwp (if i =? 0 then mret 0 else lift (deref (znth locs (zlen locs - i)))) m (fun (r : Z) m' => r = v /\ m' = m).
Proof.
  intros Hi. pose proof (argv_items_len locs) as Hl. destruct (lookup_lt_is_Some_2 (argv_items locs) (Z.to_nat i)) as [v Hv].
  { unfold zlen in *. lia. }
  exists v. split; [done|]. destruct (Z.eqb_spec i 0) as [->|Hi0]; [injection Hv as <-; by wp_step|].
  wp_step. replace (Z.to_nat i) with (S (Z.to_nat (i - 1))) in Hv by lia. cbn in Hv.
  apply reverse_lookup_Some in Hv as [Hv _]. unfold znth. rewrite decide_True by lia.
  replace (Z.to_nat (zlen locs - i)) with (length locs - S (Z.to_nat (i - 1)))%nat by (unfold zlen in *; lia).
  by rewrite Hv.
Qed.
Lemma push_loop kpage hi locs m i top (Q : Z -> mem -> Prop) fuel : let n := zlen locs in page_at m kpage hi -> n <= 128 ->
  0 <= i <= n + 1 -> (Z.to_nat (n + 1 - i) < fuel)%nat -> userpage <= top - 4 * (n + 1 - i) -> top <= hi ->
  (forall m', page_at m' kpage hi -> pushed m' kpage top (drop (Z.to_nat i) (argv_items locs)) ->
     (forall q, ~ u2k kpage (top - 4 * (n + 1 - i)) <= q < u2k kpage top -> m' !! q = m !! q) ->
     Q (top - 4 * (n + 1 - i)) m') ->
  mwp (mloop fuel (push_body kpage n locs) (i, top)) m Q.
Proof.
  intros n. revert m i top Q. induction fuel as [|fuel IH]; intros m i top Q Hm Hn Hi Hf Hlo Hhi HQ; [lia|].
  pose proof (argv_items_len locs) as Hitems. fold n in Hitems.
  apply mloop_step. unfold push_body at 1. destruct (Z.leb_spec i n) as [Hin|Hin].
  - destruct (push_item locs i m) as (v & Hv & Hread); [lia|]. wp_step. eapply mwp_mono; [exact Hread|].
    intros r m0 [-> ->]. wp_step. eapply poke_spec; [exact Hm|lia|lia|]. intros m1 Hpk Hsame Hm1. wp_step.
    assert (Hu8 : u8 (i + 1) = i + 1) by (apply u8_small; lia). rewrite Hu8.
    assert (Hlen : zlen (drop (Z.to_nat (i + 1)) (argv_items locs)) = n + 1 - (i + 1)).
    { unfold zlen in *. rewrite length_drop. lia. }
    apply IH; [done|done|lia|lia|lia|lia|]. intros m' Hm' Hp Hs.
    replace (top - 4 - 4 * (n + 1 - (i + 1))) with (top - 4 * (n + 1 - i)) in * by lia. apply HQ; [done| |].
    + rewrite (drop_S _ v _ Hv). cbn [pushed]. replace (S (Z.to_nat i)) with (Z.to_nat (i + 1)) by lia.
      split; [|exact Hp]. eapply peek_ext; [exact Hpk|]. intros q Hq. apply Hs. unfold u2k in *. lia.
    + intros q Hq. rewrite Hs, Hsame; [done|unfold u2k in *; lia|unfold u2k in *; lia].
  - wp_step. assert (i = n + 1) as -> by lia. replace (n + 1 - (n + 1)) with 0 in HQ by lia.
    rewrite Z.mul_0_r, Z.sub_0_r in HQ. apply HQ; [done| |done]. rewrite drop_ge; [done|]. unfold zlen in Hitems. lia.
Qed.
Lemma pushed_lookup m kpage top items j v : pushed m kpage top items -> items !! j = Some v ->
  peek m (u2k kpage (top - 4 * (Z.of_nat j + 1))) v.
Proof.
  revert top j. induction items as [|x items IH]; intros top [|j]; [done..| |].
  - intros [Hp _] [= <-]. by replace (top - 4 * (Z.of_nat 0 + 1)) with (top - 4) by lia.
  - intros [_ Hp] Hj. replace (top - 4 * (Z.of_nat (S j) + 1)) with (top - 4 - 4 * (Z.of_nat j + 1)) by lia. by apply IH.
Qed.
Lemma mapped_cstr m p l : cstr m p l -> mapped m p (zlen l + 1).
Proof.
  intros [_ Hb Hr He] q Hq. destruct (decide (q = p + zlen l)) as [->|Hne]; [by exists 0|].
  destruct (lookup_lt_is_Some_2 l (Z.to_nat (q - p))) as [x Hx]; [unfold zlen in *; lia|].
  exists x. split; [rewrite <- (Hb _ _ Hx); f_equal; lia|]. pose proof (proj1 (Forall_lookup _ _) Hr _ _ Hx) as Hx'. simpl in Hx'. lia.
Qed.
Lemma moved_cstr m dst src l m' : cstr m src l -> 0 < dst -> moved m dst src (zlen l + 1) m' -> cstr m' dst l.
Proof.
  intros [_ Hb Hr He] Hd Hm. pose proof (zlen_nonneg l). split; [done| |done|].
  - intros i x Hi. pose proof (lookup_lt_Some _ _ _ Hi). rewrite Hm, decide_True by (unfold zlen in *; lia).
    rewrite <- (Hb _ _ Hi). f_equal. lia.
  - rewrite Hm, decide_True by lia. rewrite <- He. f_equal. lia.
Qed.
(** The words of a command line. *)
Definition words (l : list Z) : list (list Z) := tokens (S (length l)) [32] l.
(** [esp] points at the stack frame of main: the words [ws] are its arguments. *)
Record args_at (m : mem) (kpage esp : Z) (ws : list (list Z)) : Prop := ArgsAt {
  ar_esp : userpage <= esp;
  ar_return : peek m (u2k kpage esp) 0;
  ar_argc : peek m (u2k kpage (esp + 4)) (zlen ws);
  ar_argv : peek m (u2k kpage (esp + 8)) (esp + 12);
  ar_word : forall i w, ws !! i = Some w -> exists p, peek m (u2k kpage (esp + 12 + 4 * Z.of_nat i)) p /\
    cstr m (u2k kpage p) w /\ esp < p /\ p + zlen w < PHYS_BASE;
  ar_null : peek m (u2k kpage (esp + 12 + 4 * zlen ws)) 0;
}.
(** Bytes the frame needs. *)
Definition args_size (l : list Z) : Z := zlen l + 1 + 4 * (zlen (words l) + 1) + 12.

(** The words in their places after the copy and the cutting. *)
Lemma args_frame m kpage top ps ws : let n := zlen ws in let locs := map (fun t => userpage + (t - kpage)) ps in
  strings_at m (kpage + (top - userpage)) (kpage + PGSIZE) ps ws -> pushed m kpage top (argv_items locs) ->
  forall i w, ws !! i = Some w -> exists p, peek m (u2k kpage (top - 4 * (n + 1) + 4 * Z.of_nat i)) p /\
    cstr m (u2k kpage p) w /\ top <= p /\ p + zlen w < PHYS_BASE.
Proof.
  intros n locs Hs Hp i w Hw. pose proof (Forall2_length Hs) as Hlen.
  destruct (Forall2_lookup_r _ _ _ _ _ Hs Hw) as (t & Ht & Hc & Hlo & Hhi).
  exists (userpage + (t - kpage)). pose proof (lookup_lt_Some _ _ _ Hw) as Hi.
  assert (Hloc : locs !! i = Some (userpage + (t - kpage))).
  { unfold locs. change (map ?f ps) with (f <$> ps). rewrite list_lookup_fmap, Ht. done. }
  assert (Hll : length locs = length ps) by (unfold locs; apply length_map).
  assert (Hit : argv_items locs !! S (length locs - S i)%nat = Some (userpage + (t - kpage))).
  { unfold argv_items. cbn [lookup list_lookup]. apply reverse_lookup_Some. split; [|lia]. rewrite <- Hloc. f_equal. lia. }
  split; [|split; [|unfold u2k, userpage in *; lia]].
  - pose proof (pushed_lookup _ _ _ _ _ _ Hp Hit) as H.
    replace (top - 4 * (n + 1) + 4 * Z.of_nat i) with (top - 4 * (Z.of_nat (S (length locs - S i)) + 1)); [done|].
    unfold n, zlen. lia.
  - unfold u2k. by replace (kpage + (userpage + (t - kpage) - userpage)) with t by lia.
Qed.

(** C14. [setup_stack] passes the arguments: when the command line has at most 128 words
    and the frame fits in the page, [main] finds on its stack a return address,
    argc and argv, argv[i] points to a copy of the i-th word inside the page, and
    argv[argc] is null; nothing outside the page is written. *)
Theorem setup_args_layout kpage file_name delim l m : 0 < kpage -> page_at m kpage PHYS_BASE ->
  cstr m file_name l -> cstr m delim [32] -> file_name + zlen l < kpage \/ kpage + PGSIZE <= file_name ->
  delim + 1 < kpage \/ kpage + PGSIZE <= delim -> zlen (words l) <= 128 -> args_size l <= PGSIZE ->
  mwp (setup_args kpage file_name delim) m (fun r m' => exists esp, r = Some esp /\
    args_at m' kpage esp (words l) /\ esp = PHYS_BASE - args_size l /\
    forall q, ~ kpage <= q < kpage + PGSIZE -> m' !! q = m !! q).
Proof.
  intros Hk [_ Hm] Hf Hd Hof Hod Hn Hsz. unfold args_size in *. pose proof (zlen_nonneg (words l)) as Hn0.
  pose proof (zlen_nonneg l) as Hl0. unfold userpage in Hm. change PGSIZE with 4096 in *.
  unfold setup_args. wp_step. eapply strlen_spec; [exact Hf|]. cbv zeta. change PGSIZE with 4096.
  rewrite (proj2 (Z.ltb_ge _ _)) by lia. set (cpy := kpage + 4096 - (zlen l + 1)).
  wp_step. apply memcpy_spec; [lia|lia|apply (cs_null _ _ _ Hf)| |by apply mapped_cstr|lia|].
  { eapply mapped_le; [exact Hm|lia|lia]. }
  intros m1 Hmv. assert (Hc1 : cstr m1 cpy l) by (eapply moved_cstr; [exact Hf|lia|exact Hmv]).
  assert (Hd1 : cstr m1 delim [32]).
  { eapply cstr_ext; [exact Hd|]. intros q Hq. change (zlen [32]) with 1 in Hq. rewrite Hmv, decide_False by lia. done. }
  pose proof (cstr_size _ _ _ Hc1) as Hsz1. unfold scan_fuel.
  wp_step. wp_step. wp_step. unfold tokenize. eapply (tokenize_spec _ m1 delim [32] cpy NULL cpy l []);
    [exact Hd1|by rewrite (proj2 (Z.eqb_neq cpy NULL)) by (unfold NULL; lia)|exact Hc1|change (zlen [32]) with 1; lia|lia|].
  intros ps m2 Hps Hs2. cbn [app] in *. rewrite (tokens_fuel _ (S (length l))) in Hps by lia. fold (words l) in Hps.
  assert (Elen : zlen ps = zlen (words l)) by (unfold zlen; by rewrite (Forall2_length Hps)).
  rewrite Elen. rewrite (proj2 (Z.ltb_ge _ _)) by lia.
  set (locs := map _ ps). assert (Hll : zlen locs = zlen (words l)) by (unfold locs, zlen in *; by rewrite length_map).
  set (top := PHYS_BASE - (zlen l + 1)).
  assert (Htop : cpy = kpage + (top - userpage)) by (unfold cpy, top, userpage; change PGSIZE with 4096; lia).
  assert (Hm2 : page_at m2 kpage top).
  { split; [unfold top; lia|]. intros q Hq. rewrite Hs2 by lia. rewrite Hmv, decide_False by lia. apply Hm. lia. }
  rewrite <- Hll in *. set (n := zlen locs) in *.
  wp_step. apply (push_loop kpage top locs); [done|done|lia|lia|fold n; unfold userpage; change PGSIZE with 4096; lia|lia|].
  fold n. rewrite Z.sub_0_r. intros m3 Hm3 Hpush Hs3. change (drop (Z.to_nat 0) (argv_items locs)) with (argv_items locs) in Hpush.
  set (av := top - 4 * (n + 1)) in *.
  wp_step. eapply poke_spec; [exact Hm3|unfold av, userpage; change PGSIZE with 4096; lia|lia|]. intros m4 Hp4 Hs4 Hm4.
  wp_step. eapply poke_spec; [exact Hm4|unfold av, userpage; change PGSIZE with 4096; lia|lia|]. intros m5 Hp5 Hs5 Hm5.
  wp_step. eapply poke_spec; [exact Hm5|unfold av, userpage; change PGSIZE with 4096; lia|lia|]. intros m6 Hp6 Hs6 Hm6.
  wp_step. replace (av - 4 - 4 - 4) with (av - 12) in * by lia. replace (av - 4 - 4) with (av - 8) in * by lia.
  assert (Hu : forall a b, u2k kpage a - u2k kpage b = a - b) by (intros; unfold u2k; lia).
  pose proof (Hu (av - 12) (av - 8)). pose proof (Hu (av - 8) (av - 4)). pose proof (Hu (av - 4) top). pose proof (Hu av top).
  assert (Hs36 : forall q, u2k kpage av <= q -> m6 !! q = m3 !! q) by (intros q Hq; rewrite Hs6, Hs5, Hs4; [done|lia..]).
  assert (Hpush6 : pushed m6 kpage top (argv_items locs)).
  { eapply pushed_ext; [exact Hpush|]. intros q Hq. apply Hs36. rewrite argv_items_len in Hq. unfold u2k in *. fold n in Hq. lia. }
  assert (Hut : u2k kpage top = cpy) by (rewrite Htop; unfold u2k; lia).
  assert (Hps6 : strings_at m6 (kpage + (top - userpage)) (kpage + PGSIZE) ps (words l)).
  { rewrite <- Htop. change PGSIZE with 4096. replace (kpage + 4096) with (cpy + zlen l + 1) by (unfold cpy; lia).
    eapply strings_at_ext; [exact Hps|]. intros q Hq. rewrite Hs36 by lia. apply Hs3. lia. }
  exists (av - 12). split; [done|]. split; [|split].
  - split.
    + unfold av, top, userpage. change PGSIZE with 4096. lia.
    + exact Hp6.
    + rewrite <- Hll. fold n. replace (av - 12 + 4) with (av - 8) by lia. eapply peek_ext; [exact Hp5|]. intros q Hq. apply Hs6. lia.
    + replace (av - 12 + 8) with (av - 4) by lia. replace (av - 12 + 12) with av by lia.
      eapply peek_ext; [exact Hp4|]. intros q Hq. rewrite Hs6, Hs5; [done|lia..].
    + intros i w Hw. destruct (args_frame _ _ _ _ _ Hps6 Hpush6 i w Hw) as (p & Hp & Hc & Hlo & Hhi).
      exists p. rewrite <- Hll in Hp. fold n av in Hp. replace (av - 12 + 12) with av by lia.
      split; [exact Hp|]. split; [exact Hc|]. unfold av in *. lia.
    + rewrite <- Hll. fold n. replace (av - 12 + 12 + 4 * n) with (top - 4) by (unfold av; lia). apply Hpush6.
  - unfold av, top. lia.
  - intros q Hq. assert (Hb : kpage <= u2k kpage (av - 12)).
    { unfold u2k, av, top, userpage. change PGSIZE with 4096. lia. }
    destruct (decide (q < u2k kpage (av - 12))).
    + rewrite Hs6, Hs5, Hs4, Hs3 by lia. rewrite Hs2 by lia. rewrite Hmv, decide_False by lia. done.
    + rewrite Hs36 by (unfold cpy in *; lia). rewrite Hs3 by (unfold cpy in *; lia). rewrite Hs2 by (unfold cpy in *; lia).
      rewrite Hmv, decide_False by (unfold cpy in *; lia). done.
Qed.

(** *** Witness *)
(** The command line [ls -l  x] at 100, one space at 50, the page at 8192. *)
Definition ex_line : list Z := [108; 115; 32; 45; 108; 32; 32; 120].
Definition ex_args_mem : mem :=
  bytes_mem 8192 (replicate 4096 0) ∪ bytes_mem 100 (ex_line ++ [0]) ∪ bytes_mem 50 [32; 0].
Lemma setup_args_layout_witness :
  mwp (setup_args 8192 100 50) ex_args_mem (fun r m' => exists esp, r = Some esp /\
    args_at m' 8192 esp [[108; 115]; [45; 108]; [120]]).
Proof.
  eapply mwp_mono.
  - apply (setup_args_layout 8192 100 50 ex_line); [lia| |apply cstr_ok_sound; vm_compute; reflexivity
      |apply cstr_ok_sound; vm_compute; reflexivity|left; vm_compute; reflexivity|left; vm_compute; reflexivity
      |by vm_compute|by vm_compute].
    split; [done|]. apply mapped_ok_sound. vm_compute. reflexivity.
  - intros r m' (esp & Hr & Ha & _). exists esp. split; [exact Hr|exact Ha].
Defined.
