(* ===== verification/Intq.v ===== *)
(** * Intq: interrupt queues (devices/intq.c) and the keyboard's buffer (devices/input.c)

    A queue is a ring of 64 bytes of which 63 hold data.  The functions run with
    interrupts off on the scheduler's state; a thread that waits blocks in the middle
    of the loop of [intq_getc] or [intq_putc], so a turn of the loop is a function of
    its own, whose result is nothing when the thread has gone to sleep. *)
From S2P Require Import Prelude.
From S2P Require Import Vaddr.
From S2P Require Import Palloc.
From S2P Require Import Sched.
From S2P Require Import Synch.

Abbreviation NULL := Palloc.NULL.
Definition INTQ_BUFSIZE : Z := 64.
Record intq := Intq { not_full : Z; not_empty : Z; buf : list Z; head : Z; tail : Z }.
Definition set_not_full (t : Z) (q : intq) : intq := Intq t (not_empty q) (buf q) (head q) (tail q).
Definition set_not_empty (t : Z) (q : intq) : intq := Intq (not_full q) t (buf q) (head q) (tail q).
Record iq := Iq { ik : kst; iqueue : intq }.
Abbreviation QM := (M iq).
Definition q_kst {A} (m : TM A) : QM A := fun s =>
  match m (ik s) with Ok (a, k) => Ok (a, Iq k (iqueue s)) | Panic => Panic | Fault => Fault | Hang => Hang end.
Abbreviation q_get := (gets iqueue).
Abbreviation q_upd f := (modify (fun s => Iq (ik s) (f (iqueue s)))).
(* *)

Definition next (pos : Z) : Z := Z.rem (pos + 1) INTQ_BUFSIZE.
(** [&q->not_full] or [&q->not_empty]. *)
Inductive waiter := NotFull | NotEmpty.
Definition waiter_of (w : waiter) (q : intq) : Z := match w with NotFull => not_full q | NotEmpty => not_empty q end.
Definition set_waiter (w : waiter) (t : Z) : intq -> intq :=
  match w with NotFull => set_not_full t | NotEmpty => set_not_empty t end.

Section intq.
(** The address of the queue's lock. *)
Variable lock : Z.
Definition intr_is_off : QM unit := l ← q_kst intr_get_level; assert (negb l).
Definition no_context : QM unit := c ← q_kst intr_context; assert (negb c).
Definition intq_init : QM unit :=
  _ ← q_kst (lock_init lock); q_upd (fun q => Intq NULL NULL (buf q) 0 0).
Definition intq_empty : QM bool := _ ← intr_is_off; q ← q_get; mret (head q =? tail q).
Definition intq_full : QM bool := _ ← intr_is_off; q ← q_get; mret (next (head q) =? tail q).
(** The condition of [wait] and [signal]: the queue is full, or empty. *)
Definition condition (w : waiter) : QM bool := match w with NotFull => intq_full | NotEmpty => intq_empty end.
Definition wait (w : waiter) : QM unit :=
  _ ← no_context; _ ← intr_is_off;
  c ← condition w; _ ← assert c;
  t ← q_kst thread_current; _ ← q_upd (set_waiter w t);
  q_kst thread_block.
Definition signal (w : waiter) : QM unit :=
  _ ← intr_is_off; c ← condition w; _ ← assert (negb c);
  q ← q_get;
  if negb (waiter_of w q =? NULL) then
    _ ← q_kst (thread_unblock (waiter_of w q)); q_upd (set_waiter w NULL)
  else mret tt.
(** The loop's body up to the sleep; what the thread does first when it wakes up. *)
Definition sleep_on (w : waiter) : QM unit :=
  _ ← no_context; _ ← q_kst (run 5 (lock_acquire lock)); wait w.
Definition awake : QM unit := q_kst (run 5 (lock_release lock)).

Definition intq_getc_turn : QM (option Z) :=
  e ← intq_empty;
  if (e : bool) then _ ← sleep_on NotEmpty; mret None
  else
    q ← q_get; byte ← lift (deref (znth (buf q) (tail q)));
    _ ← q_upd (fun q => Intq (not_full q) (not_empty q) (buf q) (head q) (next (tail q)));
    _ ← signal NotFull; mret (Some byte).
Definition intq_getc : QM (option Z) := _ ← intr_is_off; intq_getc_turn.
Definition intq_putc_turn (byte : Z) : QM (option unit) :=
  f ← intq_full;
  if (f : bool) then _ ← sleep_on NotFull; mret None
  else
    q ← q_get; b ← lift (deref (zset (buf q) (head q) byte));
    _ ← q_upd (fun q => Intq (not_full q) (not_empty q) b (next (head q)) (tail q));
    _ ← signal NotEmpty; mret (Some tt).
Definition intq_putc (byte : Z) : QM (option unit) := _ ← intr_is_off; intq_putc_turn byte.

(** ** devices/input.c *)
(** [serial_notify] only tells the device: it is left out. *)
Definition input_init : QM unit := intq_init.
Definition input_putc (key : Z) : QM (option unit) :=
  _ ← intr_is_off; f ← intq_full; _ ← assert (negb f); intq_putc key.
Definition input_getc : QM (option Z) :=
  old_level ← q_kst intr_disable;
  key ← intq_getc;
  match key with Some k => _ ← q_kst (intr_set_level old_level); mret (Some k) | None => mret None end.
Definition input_full : QM bool := _ ← intr_is_off; intq_full.

(** ** Specification: a bounded queue *)
Inductive op := Put (b : Z) | Get.
(** The queue as a list, oldest byte first; at most 63 bytes.  Nothing when the
    operation would have to wait. *)
Definition queue_op (o : op) (l : list Z) : option (option Z * list Z) :=
  match o with
  | Put b => if zlen l <? INTQ_BUFSIZE - 1 then Some (None, l ++ [b]) else None
  | Get => match l with [] => None | x :: l' => Some (Some x, l') end
  end.
Fixpoint queue_ops (os : list op) (l : list Z) : option (list (option Z) * list Z) :=
  match os with
  | [] => Some ([], l)
  | o :: os' =>
      '(r, l') ← queue_op o l; '(rs, l'') ← queue_ops os' l'; Some (r :: rs, l'')
  end.
Definition do_op (o : op) : QM (option Z) :=
  match o with
  | Put b => r ← intq_putc b; match r with Some _ => mret None | None => hang end
  | Get => r ← intq_getc; match r with Some x => mret (Some x) | None => hang end
  end.
Fixpoint do_ops (os : list op) : QM (list (option Z)) :=
  match os with [] => mret [] | o :: os' => r ← do_op o; rs ← do_ops os'; mret (r :: rs) end.

(** The queue [q] holds the bytes [l]. *)
Record holds (q : intq) (l : list Z) : Prop := Holds {
  ho_len : zlen (buf q) = INTQ_BUFSIZE;
  ho_tail : 0 <= tail q < INTQ_BUFSIZE;
  ho_head : head q = (tail q + zlen l) mod INTQ_BUFSIZE;
  ho_room : zlen l < INTQ_BUFSIZE;
  ho_data : forall i x, l !! i = Some x -> znth (buf q) ((tail q + Z.of_nat i) mod INTQ_BUFSIZE) = Some x;
  ho_idle : not_full q = NULL /\ not_empty q = NULL;
}.
Lemma next_mod p : 0 <= p -> next p = (p + 1) mod INTQ_BUFSIZE.
Proof. intros. unfold next. rewrite Z.rem_mod_nonneg; [done|lia|done]. Qed.
Lemma holds_empty q l : holds q l -> (head q =? tail q) = bool_decide (l = []).
Proof.
  intros H. pose proof (ho_tail _ _ H). pose proof (ho_room _ _ H). rewrite (ho_head _ _ H).
  unfold INTQ_BUFSIZE, zlen in *. destruct l as [|x l]; simpl.
  - rewrite Z.add_0_r, Z.mod_small by lia. apply Z.eqb_refl.
  - apply Z.eqb_neq. simpl length in *. dlia.
Qed.
Lemma holds_full q l : holds q l -> (next (head q) =? tail q) = (zlen l =? INTQ_BUFSIZE - 1).
Proof.
  intros H. pose proof (ho_tail _ _ H). pose proof (ho_room _ _ H). rewrite next_mod, (ho_head _ _ H).
  2:{ rewrite (ho_head _ _ H). unfold INTQ_BUFSIZE in *. dlia. }
  unfold INTQ_BUFSIZE in *. assert (0 <= zlen l) by (unfold zlen; lia).
  rewrite Z.add_mod_idemp_l by done. apply eq_true_iff_eq. rewrite !Z.eqb_eq. dlia.
Qed.

Definition off (s : iq) : Prop := intr_on (the_cpu (ik s)) = false.
Lemma off_spec s (Q : unit -> iq -> Prop) : off s -> Q tt s -> mwp intr_is_off s Q.
Proof. unfold off, mwp. destruct s as [k q]. simpl. intros E HQ. cbv -[intr_on the_cpu]. by rewrite E. Qed.
Lemma empty_spec s l (Q : bool -> iq -> Prop) : off s -> holds (iqueue s) l -> Q (bool_decide (l = [])) s -> mwp intq_empty s Q.
Proof.
  intros Ho Hl HQ. unfold intq_empty. wp_step. apply off_spec; [done|]. repeat wp_step. by erewrite holds_empty.
Qed.
Lemma full_spec s l (Q : bool -> iq -> Prop) : off s -> holds (iqueue s) l -> Q (zlen l =? INTQ_BUFSIZE - 1) s ->
  mwp intq_full s Q.
Proof.
  intros Ho Hl HQ. unfold intq_full. wp_step. apply off_spec; [done|]. repeat wp_step. by erewrite holds_full.
Qed.
(** Nobody waits: [signal] does nothing. *)
Lemma signal_spec w s l (Q : unit -> iq -> Prop) : off s -> holds (iqueue s) l ->
  match w with NotFull => zlen l <> INTQ_BUFSIZE - 1 | NotEmpty => l <> [] end -> Q tt s -> mwp (signal w) s Q.
Proof.
  intros Ho Hl Hw HQ. unfold signal. wp_step. apply off_spec; [done|]. wp_step.
  destruct (ho_idle _ _ Hl) as [E1 E2]. unfold condition.
  destruct w; [eapply full_spec|eapply empty_spec]; [done|done| |done|done|]; wp_step; wp_step;
    [bool_goal; lia| |by rewrite bool_decide_eq_false_2|]; wp_step; wp_step; unfold waiter_of; rewrite ?E1, ?E2; done.
Qed.

Lemma holds_get q x l : holds q (x :: l) -> holds (Intq (not_full q) (not_empty q) (buf q) (head q) (next (tail q))) l.
Proof.
  intros [Hn Ht Hh Hr Hd Hi]. rewrite next_mod by lia. unfold INTQ_BUFSIZE in *. constructor; simpl; unfold INTQ_BUFSIZE in *; try done.
  - dlia.
  - rewrite Hh. unfold zlen. simpl length. dlia.
  - unfold zlen in *. simpl length in *. unfold INTQ_BUFSIZE. lia.
  - intros i y Hy. specialize (Hd (S i) y Hy). rewrite <- Hd. f_equal. unfold INTQ_BUFSIZE. dlia.
Qed.
Lemma holds_put q l b : holds q l -> zlen l < INTQ_BUFSIZE - 1 ->
  holds (Intq (not_full q) (not_empty q) (<[Z.to_nat (head q) := b]> (buf q)) (next (head q)) (tail q)) (l ++ [b]).
Proof.
  intros [Hn Ht Hh Hr Hd Hi] Hroom. assert (0 <= zlen l) by apply zlen_nonneg.
  assert (0 <= head q < INTQ_BUFSIZE) by (rewrite Hh; unfold INTQ_BUFSIZE in *; dlia).
  rewrite next_mod by lia. constructor; simpl; try done.
  - by rewrite zlen_insert.
  - rewrite Hh. unfold zlen. rewrite length_app. simpl length. unfold INTQ_BUFSIZE in *. dlia.
  - unfold zlen in *. rewrite length_app. simpl length. lia.
  - intros i x Hx. rewrite znth_insert by lia. apply lookup_app_Some in Hx as [Hx|[Hge Hx]].
    + rewrite decide_False; [by apply Hd|]. apply lookup_lt_Some in Hx. rewrite Hh. unfold zlen, INTQ_BUFSIZE in *. dlia.
    + assert (i = length l) as ->. { apply lookup_lt_Some in Hx. simpl in Hx. lia. }
      rewrite Nat.sub_diag in Hx. injection Hx as <-. rewrite decide_True; [done|]. exact Hh.
Qed.
Lemma do_op_spec o l r l' k q : intr_on (the_cpu k) = false -> holds q l -> queue_op o l = Some (r, l') ->
  exists q', do_op o (Iq k q) = Ok (r, Iq k q') /\ holds q' l'.
Proof.
  intros Ho Hq Hop. assert (off (Iq k q)) as Hoff by done.
  enough (mwp (do_op o) (Iq k q) (fun r' s' => r' = r /\ ik s' = k /\ holds (iqueue s') l')) as (a & [k' q'] & E & -> & ? & ?)%mwp_ok.
  { simpl in *. subst. by exists q'. }
  destruct o as [b|]; simpl in Hop |- *.
  - destruct (Z.ltb_spec (zlen l) (INTQ_BUFSIZE - 1)) as [Hr|]; [|done]. injection Hop as <- <-.
    wp_step. unfold intq_putc. wp_step. apply off_spec; [done|]. unfold intq_putc_turn. wp_step.
    eapply full_spec; [done..|]. destruct (Z.eqb_spec (zlen l) (INTQ_BUFSIZE - 1)); [lia|].
    wp_step. wp_step. wp_step. wp_step. eapply wp_deref.
    { apply zset_Some. simpl. rewrite (ho_len _ _ Hq), (ho_head _ _ Hq). unfold INTQ_BUFSIZE in *. dlia. }
    wp_step. wp_step. wp_step. pose proof (holds_put _ _ b Hq Hr) as Hq'.
    eapply signal_spec; [done|exact Hq'|by destruct l|]. by repeat wp_step.
  - destruct l as [|x l0]; [done|]. injection Hop as <- <-.
    wp_step. unfold intq_getc. wp_step. apply off_spec; [done|]. unfold intq_getc_turn. wp_step.
    eapply empty_spec; [done..|]. rewrite bool_decide_eq_false_2 by done.
    wp_step. wp_step. wp_step. wp_step. eapply wp_deref.
    { rewrite <- (ho_data _ _ Hq 0 x eq_refl). f_equal. simpl. rewrite Z.add_0_r. pose proof (ho_tail _ _ Hq).
      rewrite Z.mod_small; [done|unfold INTQ_BUFSIZE in *; lia]. }
    wp_step. wp_step. wp_step. pose proof (holds_get _ _ _ Hq) as Hq'.
    eapply signal_spec; [done|exact Hq'| |]. { pose proof (ho_room _ _ Hq). unfold zlen in *. simpl length in *. lia. }
    by repeat wp_step.
Qed.

(** C17. An interrupt queue is a bounded queue of bytes: with interrupts off and no
    thread waiting, any sequence of [intq_putc] and [intq_getc] that never overfills or
    overdraws a queue of 63 bytes returns what that queue returns, from any position
    of the ring, and leaves the rest of the kernel unchanged. *)
Theorem intq_refines_queue os l rs l' k q : intr_on (the_cpu k) = false -> holds q l -> queue_ops os l = Some (rs, l') ->
  exists q', do_ops os (Iq k q) = Ok (rs, Iq k q') /\ holds q' l'.
Proof.
  intros Ho. revert l rs q. induction os as [|o os IH]; simpl; intros l rs q Hq Hops.
  { injection Hops as <- <-. by exists q. }
  destruct (queue_op o l) as [[r l1]|] eqn:E1; [|done]. simpl in Hops.
  destruct (queue_ops os l1) as [[rs1 l2]|] eqn:E2; [|done]. injection Hops as <- <-.
  destruct (do_op_spec _ _ _ _ k q Ho Hq E1) as (q1 & Eop & Hq1).
  destruct (IH _ _ q1 Hq1 E2) as (q2 & Eops & Hq2). exists q2. split; [|done].
  unfold mbind, M_bind. by rewrite Eop, Eops.
Qed.
End intq.

(** A ring that is about to wrap around. *)
Definition ex_intq : intq := Intq NULL NULL (replicate 64 0) 63 63.
Lemma intq_refines_queue_witness :
  exists q', do_ops 77 [Put 97; Put 98; Get; Put 99; Get; Get] (Iq (set_cpu (Cpu false false false 0) ex_kst) ex_intq)
    = Ok ([None; None; Some 97; None; Some 98; Some 99], Iq (set_cpu (Cpu false false false 0) ex_kst) q') /\ holds q' [].
Proof.
  apply (intq_refines_queue 77 _ []); [reflexivity| |reflexivity]. constructor; try done.
Defined.
