(* ===== verification/Process.v ===== *)
(** * Process: userprog/process.c

    The kernel as the user programs see it: the threads and memory of Sched.v beside
    the file system of FsState.v and the keyboard's queue of Intq.v.  Loading an executable, its stack, waiting and
    exit.  The thread that runs is the one that holds the locks of the file system;
    a page of the kernel's memory is read and written as its 4096 bytes. *)
From S2P Require Import Prelude.
From S2P Require Import Lock.
From S2P Require Import Block.
From S2P Require Import Store.
From S2P Require Import Bitmap.
From S2P Require Import FsState.
From S2P Require Import Inode.
From S2P Require Import File.
From S2P Require Import FreeMap.
From S2P Require Import Directory.
From S2P Require Import Filesys.
From S2P Require Import CString.
From S2P Require Import Vaddr.
From S2P Require Import Palloc.
From S2P Require Import Pagedir.
From S2P Require Import Sched.
From S2P Require Import Synch.
From S2P Require Import Thread.
From S2P Require Import Args.
From S2P Require Import Intq.
From S2P Require Import FsExample.

Abbreviation NULL := Palloc.NULL.

(** ** Executables *)
Definition half_at (bs : list Z) (i : nat) : Z := le_val (take 2 (drop i bs)).
Definition word_at (bs : list Z) (i : nat) : Z := le_val (take 4 (drop i bs)).
Record Elf32_Ehdr := Ehdr {
  e_ident : list Z; e_type : Z; e_machine : Z; e_version : Z; e_entry : Z; e_phoff : Z; e_shoff : Z; e_flags : Z;
  e_ehsize : Z; e_phentsize : Z; e_phnum : Z; e_shentsize : Z; e_shnum : Z; e_shstrndx : Z }.
Record Elf32_Phdr := Phdr {
  p_type : Z; p_offset : Z; p_vaddr : Z; p_paddr : Z; p_filesz : Z; p_memsz : Z; p_flags : Z; p_align : Z }.
Definition EHDR_SIZE : Z := 52.
Definition PHDR_SIZE : Z := 32.
Definition ehdr_of (bs : list Z) : Elf32_Ehdr :=
  Ehdr (take 16 bs) (half_at bs 16) (half_at bs 18) (word_at bs 20) (word_at bs 24) (word_at bs 28) (word_at bs 32)
    (word_at bs 36) (half_at bs 40) (half_at bs 42) (half_at bs 44) (half_at bs 46) (half_at bs 48) (half_at bs 50).
Definition phdr_of (bs : list Z) : Elf32_Phdr :=
  Phdr (word_at bs 0) (word_at bs 4) (word_at bs 8) (word_at bs 12) (word_at bs 16) (word_at bs 20) (word_at bs 24)
    (word_at bs 28).
Definition PT_LOAD : Z := 1.
Definition PT_DYNAMIC : Z := 2.
Definition PT_INTERP : Z := 3.
Definition PT_SHLIB : Z := 5.
Definition PF_W : Z := 2.
(** ["\177ELF\1\1\1"] *)
Definition ELF_MAGIC : list Z := [127; 69; 76; 70; 1; 1; 1].
Definition ehdr_ok (bs : list Z) : bool :=
  let h := ehdr_of bs in
  (zlen bs =? EHDR_SIZE) && bool_decide (take 7 (e_ident h) = ELF_MAGIC) && (e_type h =? 2) && (e_machine h =? 3) &&
  (e_version h =? 1) && (e_phentsize h =? PHDR_SIZE) && (e_phnum h <=? 1024).

(** The tests of [validate_segment] after the first. *)
Definition segment_ok (phdr : Elf32_Phdr) (file_length : Z) : bool :=
  if u32 file_length <? p_offset phdr then false
  else if p_memsz phdr <? p_filesz phdr then false
  else if p_memsz phdr =? 0 then false
  else if negb (is_user_vaddr (p_vaddr phdr)) then false
  else if negb (is_user_vaddr (p_vaddr phdr +u p_memsz phdr)) then false
  else if p_vaddr phdr +u p_memsz phdr <? p_vaddr phdr then false
  else if p_vaddr phdr <? PGSIZE then false
  else true.
(** What [load] passes to [load_segment]: file_page, mem_page, read_bytes, zero_bytes. *)
Definition segment_args (phdr : Elf32_Phdr) : Z * Z * Z * Z :=
  let file_page := Z.land (p_offset phdr) (u32 (Z.lnot PGMASK)) in
  let mem_page := Z.land (p_vaddr phdr) (u32 (Z.lnot PGMASK)) in
  let page_offset := Z.land (p_vaddr phdr) PGMASK in
  if 0 <? p_filesz phdr then
    let read_bytes := page_offset +u p_filesz phdr in
    (file_page, mem_page, read_bytes, ROUND_UP (page_offset +u p_memsz phdr) PGSIZE -u read_bytes)
  else (file_page, mem_page, 0, ROUND_UP (page_offset +u p_memsz phdr) PGSIZE).

(** ** The kernel *)
(** The threads and memory, the file system, the keyboard's buffer, what was written to
    the console and the count of page faults. *)
Record kernel (St : Type) := Kernel { kth : kst; kfs : fs St; kin : intq; console : list Z; page_fault_cnt : Z }.
Arguments Kernel {St}. Arguments kth {St}. Arguments kfs {St}. Arguments kin {St}. Arguments console {St}.
Arguments page_fault_cnt {St}.
Definition set_kth {St} (v : kst) (k : kernel St) : kernel St := Kernel v (kfs k) (kin k) (console k) (page_fault_cnt k).
Definition set_kfs {St} (v : fs St) (k : kernel St) : kernel St := Kernel (kth k) v (kin k) (console k) (page_fault_cnt k).

Section process.
Context {St : Type} `{sector_store St}.
Variable malloc_ok : nat -> bool.
Variable depth : nat.
(** The addresses of the string of one space and of code. *)
Variables delim_addr start_process_addr kernel_thread_addr switch_entry_addr : Z.
Abbreviation PM A := (M (kernel St) A).

Definition in_kst {A} (m : TM A) : PM A := fun k =>
  match m (kth k) with Ok (a, t) => Ok (a, set_kth t k) | Panic => Panic | Fault => Fault | Hang => Hang end.
(** File system code run by the running thread. *)
Definition in_fs {A} (m : Z -> M (fs St) A) : PM A := fun k =>
  match m (running (kth k)) (kfs k) with
  | Ok (a, f) => Ok (a, set_kfs f k) | Panic => Panic | Fault => Fault | Hang => Hang end.
Abbreviation alloc me := (free_map_allocate malloc_ok me depth).
Abbreviation release me := (free_map_release malloc_ok me depth).
Definition p_file_read (f size : Z) : PM (list Z) := in_fs (fun _ => file_read malloc_ok f size).
Definition p_file_length (f : Z) : PM Z := in_fs (fun _ => file_length malloc_ok (Some f)).
Definition p_file_seek (f pos : Z) : PM unit := in_fs (fun _ => file_seek (Some f) pos).
Definition p_file_close (f : option Z) : PM unit := in_fs (fun me => file_close malloc_ok me (release me) f).
(** A null pointer is 0 in the fields that hold a [struct file *]. *)
Definition file_ptr (p : Z) : option Z := if p =? 0 then None else Some p.

Definition my_thread : PM (Z * thread) := in_kst (t ← thread_current; th ← get_thread t; mret (t, th)).
Definition set_page (p : Z) (bs : list Z) : PM unit :=
  in_kst (in_mem (modify (fun m => set_frames (<[p := bytes_words 1024 bs]> (frames m)) m))).
Definition with_pd {A} (f : Z -> Z -> Z -> KM A) : PM A :=
  in_kst (me ← gets running; b ← gets base_page_dir; r ← gets init_ram_pages; in_mem (f me b r)).

Definition install_page (upage kpage : Z) (writable : bool) : PM bool :=
  '(_, th) ← my_thread;
  p ← with_pd (fun me _ _ => pagedir_get_page me (pagedir th) upage);
  if p =? NULL then with_pd (fun me b r => pagedir_set_page me b r (pagedir th) upage kpage writable)
  else mret false.
(** The loop of [load_segment]; locals read_bytes, zero_bytes, upage. *)
Definition segment_body (file : Z) (writable : bool) (s : Z * Z * Z) : PM (Z * Z * Z + bool) :=
  let '(read_bytes, zero_bytes, upage) := s in
  if (0 <? read_bytes) || (0 <? zero_bytes) then
    let page_read_bytes := if read_bytes <? PGSIZE then read_bytes else PGSIZE in
    let page_zero_bytes := PGSIZE - page_read_bytes in
    kpage ← with_pd (fun me _ _ => palloc_get_page me PAL_USER);
    if kpage =? NULL then mret (inr false)
    else
      bs ← p_file_read file page_read_bytes;
      if negb (zlen bs =? page_read_bytes) then
        _ ← with_pd (fun _ _ _ => palloc_free_page kpage); mret (inr false)
      else
        _ ← set_page kpage (bs ++ replicate (Z.to_nat page_zero_bytes) 0);
        ok ← install_page upage kpage writable;
        if negb ok then _ ← with_pd (fun _ _ _ => palloc_free_page kpage); mret (inr false)
        else mret (inl (read_bytes -u page_read_bytes, zero_bytes -u page_zero_bytes, upage +u PGSIZE))
  else mret (inr true).
Definition load_segment (file ofs upage read_bytes zero_bytes : Z) (writable : bool) : PM bool :=
  _ ← assert ((read_bytes +u zero_bytes) mod PGSIZE =? 0);
  _ ← assert (pg_ofs upage =? 0); _ ← assert (Z.rem ofs PGSIZE =? 0);
  _ ← p_file_seek file ofs;
  mloop (S (Z.to_nat ((read_bytes + zero_bytes) / PGSIZE))) (segment_body file writable) (read_bytes, zero_bytes, upage).

Definition validate_segment (phdr : Elf32_Phdr) (file : Z) : PM bool :=
  if negb (Z.land (p_offset phdr) PGMASK =? Z.land (p_vaddr phdr) PGMASK) then mret false
  else len ← p_file_length file; mret (segment_ok phdr len).

(** The string at the start of a page, and a string copied there. *)
Definition page_bytes (p : Z) : PM (list Z) :=
  k ← get; ws ← lift (deref (frames (mem (kth k)) !! p)); mret (words_bytes ws).
Definition page_string (p : Z) : PM (list Z) := bs ← page_bytes p; lift (c_string bs).
Definition copy_to_page (p : Z) (s : list Z) (size : Z) : PM unit :=
  bs ← page_bytes p; bs ← lift (copy_name bs s size); set_page p bs.

(** [file_name] is the address of the kernel page that holds the command line. *)
Definition setup_stack (file_name : Z) : PM (option Z) :=
  kpage ← with_pd (fun me _ _ => palloc_get_page me (Z.lor PAL_USER PAL_ZERO));
  if kpage =? NULL then mret None
  else
    success ← install_page userpage kpage true;
    if (success : bool) then
      l ← page_bytes file_name; bs ← page_bytes kpage;
      let m := bytes_mem kpage bs ∪ bytes_mem file_name l ∪ bytes_mem delim_addr [32; 0] in
      '(esp, m') ← lift (setup_args kpage file_name delim_addr m);
      _ ← set_page kpage (map (fun a => default 0 (m' !! a)) (seqZ kpage 4096));
      mret esp
    else _ ← with_pd (fun _ _ _ => palloc_free_page kpage); mret None.

(** The marker a pointer of [get_child_pointer_parent] points to; null faults. *)
Definition marker_of (m : option (Z * Z)) : PM child_thread_marker :=
  '(t, i) ← lift (deref m); in_kst (th ← get_thread t; lift (deref (znth (children th) i))).
Definition upd_marker (m : option (Z * Z)) (f : child_thread_marker -> child_thread_marker) : PM unit :=
  '(t, i) ← lift (deref m);
  in_kst (th ← get_thread t; x ← lift (deref (znth (children th) i)); cs ← lift (deref (zset (children th) i (f x)));
          upd_thread t (set_children cs (child_count th))).
Definition set_exec_lock (v : Z) (m : child_thread_marker) : child_thread_marker :=
  Marker (c_tid m) (c_retval m) (c_name m) (c_invalid m) (c_load_result m) v.
Definition set_load_result (v : Z) (m : child_thread_marker) : child_thread_marker :=
  Marker (c_tid m) (c_retval m) (c_name m) (c_invalid m) v (c_exec_lock m).
(** [file_allow_write (f); file_close (f)] *)
Definition unlock_exec (f : Z) : PM unit :=
  if negb (f =? NULL) then
    _ ← in_fs (fun _ => file_allow_write (file_ptr f)); p_file_close (file_ptr f)
  else mret tt.

(** The loop of [load] over the program headers; locals i, file_ofs.  False: done
    without success. *)
Definition phdr_body (file e_phnum : Z) (s : Z * Z) : PM (Z * Z + bool) :=
  let '(i, file_ofs) := s in
  if i <? e_phnum then
    len ← (if file_ofs <? 0 then mret (-1) else p_file_length file);
    if (file_ofs <? 0) || (len <? file_ofs) then mret (inr false)
    else
      _ ← p_file_seek file file_ofs;
      bs ← p_file_read file PHDR_SIZE;
      if negb (zlen bs =? PHDR_SIZE) then mret (inr false)
      else
        let next := (i + 1, s32 (file_ofs +u PHDR_SIZE)) in
        let phdr := phdr_of bs in
        if (p_type phdr =? PT_DYNAMIC) || (p_type phdr =? PT_INTERP) || (p_type phdr =? PT_SHLIB) then mret (inr false)
        else if p_type phdr =? PT_LOAD then
          valid ← validate_segment phdr file;
          if (valid : bool) then
            let writable := negb (Z.land (p_flags phdr) PF_W =? 0) in
            let '(file_page, mem_page, read_bytes, zero_bytes) := segment_args phdr in
            ok ← load_segment file (s32 file_page) mem_page read_bytes zero_bytes writable;
            if (ok : bool) then mret (inl next) else mret (inr false)
          else mret (inr false)
        else mret (inl next)
  else mret (inr true).
(** [load]: the entry point and the initial stack pointer. *)
Definition load (file_name : Z) : PM (option (Z * Z)) :=
  '(t, _) ← my_thread;
  pd ← with_pd (fun me b _ => pagedir_create me b);
  _ ← in_kst (upd_thread t (set_pagedir pd));
  if pd =? NULL then mret None
  else
    _ ← in_kst process_activate;
    cmd ← page_string file_name;
    name ← lift (copy_name (replicate 16 0) cmd (word_len cmd + 1));
    f ← in_fs (fun me => filesys_open malloc_ok me depth (cstring name));
    match f with
    | None => mret None
    | Some file =>
        th ← in_kst (get_thread t);
        m ← in_kst (get_child_pointer_parent (parent th) (tid th));
        _ ← upd_marker m (set_exec_lock file);
        x ← marker_of m;
        _ ← (if negb (c_exec_lock x =? NULL) then in_fs (fun _ => file_deny_write (file_ptr (c_exec_lock x)))
             else mret tt);
        bs ← p_file_read file EHDR_SIZE;
        if negb (ehdr_ok bs) then mret None
        else
          let ehdr := ehdr_of bs in
          ok ← mloop (S (Z.to_nat (e_phnum ehdr))) (phdr_body file (e_phnum ehdr)) (0, s32 (e_phoff ehdr));
          if negb ok then mret None
          else
            esp ← setup_stack file_name;
            match esp with Some esp => mret (Some (e_entry ehdr, esp)) | None => mret None end
    end.

(** ** Exit *)
Definition process_exit : PM unit :=
  '(t, cur) ← my_thread;
  par ← in_kst (get_thread_by_tid (parent cur));
  _ ← in_kst (set_child_retval par (tid cur) (retval cur));
  _ ← lift (copy_name (replicate 16 0) (cstring (name cur)) (word_len (cstring (name cur)) + 1));
  if negb (pagedir cur =? NULL) then
    _ ← in_kst (upd_thread t (set_pagedir NULL));
    _ ← with_pd (fun _ b _ => pagedir_activate b NULL);
    with_pd (fun _ b _ => pagedir_destroy b (pagedir cur))
  else mret tt.
(** After it another thread runs. *)
Definition thread_exit : PM unit :=
  _ ← in_kst not_interrupt; _ ← process_exit; in_kst thread_exit_tail.

(** ** Starting a process *)
(** The fields of [struct intr_frame] that [start_process] and the handlers set; the
    five data segment registers always hold the same selector. *)
Record intr_frame := Frame { f_eip : Z; f_esp : Z; f_cs : Z; f_ds : Z; f_eflags : Z; f_eax : Z }.
Definition SEL_UCSEG : Z := 0x1B.
Definition SEL_UDSEG : Z := 0x23.
Definition SEL_KCSEG : Z := 0x08.
Definition FLAG_IF : Z := 0x200.
Definition FLAG_MBS : Z := 0x2.
(** [start_process]: the frame user code starts with, or nothing when the thread has
    exited. *)
Definition start_process (file_name : Z) : PM (option intr_frame) :=
  _ ← in_kst (run 5 (Synch.lock_acquire process_lock)); _ ← in_kst (run 5 (Synch.lock_release process_lock));
  '(t, _) ← my_thread;
  success ← load file_name;
  th ← in_kst (get_thread t);
  m ← in_kst (get_child_pointer_parent (parent th) (tid th));
  _ ← (match success with
       | Some _ => upd_marker m (set_load_result 1)
       | None =>
           x ← marker_of m; _ ← unlock_exec (c_exec_lock x);
           _ ← upd_marker m (set_exec_lock NULL); upd_marker m (set_load_result (-1))
       end);
  _ ← with_pd (fun _ _ _ => palloc_free_page file_name);
  match success with
  | Some (eip, esp) => mret (Some (Frame eip esp SEL_UCSEG SEL_UDSEG (Z.lor FLAG_IF FLAG_MBS) 0))
  | None => _ ← in_kst (upd_thread t (set_retval (-1))); _ ← thread_exit; mret None
  end.

(** [process_execute] up to the loop that waits for the child: the value returned
    (then [process_lock] is still held, when a page was left for the name), or the
    child and its marker. *)
Definition process_execute_start (file_name : list Z) : PM (Z + Z * option (Z * Z)) :=
  fn_copy ← with_pd (fun me _ _ => palloc_get_page me 0);
  if fn_copy =? NULL then mret (inl TID_ERROR)
  else
    _ ← copy_to_page fn_copy file_name PGSIZE;
    _ ← in_kst (run 5 (Synch.lock_acquire process_lock));
    '(t, th) ← my_thread;
    n ← in_kst (thread_create_with_parent kernel_thread_addr switch_entry_addr (tid th) file_name PRI_DEFAULT
                  start_process_addr fn_copy);
    if n =? TID_ERROR then
      _ ← with_pd (fun _ _ _ => palloc_free_page fn_copy); mret (inl (-1))
    else
      _ ← in_kst (add_child n file_name);
      child ← in_kst (get_thread_by_tid n);
      _ ← (if negb (child =? NULL) then
             th ← in_kst (get_thread t);
             _ ← in_kst (upd_thread child (set_parent (tid th)));
             d ← (if wd th =? NULL then in_fs (fun me => dir_open_root malloc_ok me depth)
                  else in_fs (fun me => dir_reopen malloc_ok me depth (wd th)));
             in_kst (upd_thread child (set_wd (default NULL d)))
           else mret tt);
      m ← in_kst (get_child_pointer_parent (tid th) n);
      _ ← in_kst (run 5 (Synch.lock_release process_lock)); mret (inr (n, m)).
(** A turn of that loop: nothing yet, after [thread_yield]; otherwise the result. *)
Definition process_execute_turn (n : Z) (m : option (Z * Z)) : PM (option Z) :=
  x ← marker_of m;
  if c_load_result x =? 0 then _ ← in_kst thread_yield_body; mret None
  else
    '(t, th) ← my_thread;
    m ← in_kst (get_child_pointer_parent (tid th) n);
    x ← marker_of m;
    if c_load_result x =? 1 then mret (Some n) else _ ← in_kst (remove_child n); mret (Some (-1)).

(** [process_wait]: its first test, then a turn of its loop. *)
Definition process_wait_start (n : Z) : PM (option Z) :=
  j ← in_kst (get_child n); match j with None => mret (Some (-1)) | Some _ => mret None end.
Definition process_wait_turn (n : Z) : PM (option Z) :=
  b ← in_kst (on_ready_list n);
  if (b : bool) then
    _ ← in_kst (on_ready_list n); _ ← in_kst thread_yield_body; mret None
  else
    x ← in_kst (get_child n);
    m ← lift (deref x);
    _ ← unlock_exec (c_exec_lock m);
    _ ← in_kst (remove_child n); mret (Some (c_retval m)).
End process.

(** ** Specification *)
Record phdr_wf (p : Elf32_Phdr) : Prop := PhdrWf {
  pw_offset : is_u32 (p_offset p); pw_vaddr : is_u32 (p_vaddr p);
  pw_filesz : is_u32 (p_filesz p); pw_memsz : is_u32 (p_memsz p);
}.
Lemma page_part x : is_u32 x -> Z.land x (u32 (Z.lnot PGMASK)) = 4096 * (x / 4096) /\ Z.land x PGMASK = x mod 4096.
Proof. intros Hx. split; [by apply pg_round_down_eq|apply pg_ofs_eq]. Qed.
Lemma ROUND_UP_page x : 0 <= x < 2 ^ 32 - 4096 -> ROUND_UP x PGSIZE = 4096 * ((x + 4095) / 4096).
Proof.
  intros Hx. unfold ROUND_UP. rewrite PGSIZE_eq. unfold u32.
  rewrite (Z.mod_small (x + 4096) (2 ^ 32)) by lia. rewrite (Z.mod_small (x + 4096 - 1) (2 ^ 32)) by lia.
  replace (x + 4096 - 1) with (x + 4095) by lia. rewrite (Z.mod_small _ (2 ^ 32)); dlia.
Qed.
(** What [validate_segment] tests, as arithmetic. *)
Lemma segment_ok_spec phdr len : phdr_wf phdr -> segment_ok phdr len = true ->
  p_offset phdr <= u32 len /\ 0 < p_memsz phdr /\ p_filesz phdr <= p_memsz phdr /\
  4096 <= p_vaddr phdr /\ p_vaddr phdr + p_memsz phdr < PHYS_BASE.
Proof.
  intros [Ho Hv Hf Hm]. unfold segment_ok, is_user_vaddr, u32. rewrite PGSIZE_eq.
  change PHYS_BASE with 0xc0000000. unfold is_u32 in *.
  repeat match goal with |- context [if ?b then _ else _] => let E := fresh in destruct b eqn:E; [done|] end.
  intros _. assert (p_memsz phdr < 2 ^ 32) by lia.
  assert ((p_vaddr phdr + p_memsz phdr) mod 2 ^ 32 = p_vaddr phdr + p_memsz phdr) as E.
  { destruct (Z.lt_ge_cases (p_vaddr phdr + p_memsz phdr) (2 ^ 32)); [by rewrite Z.mod_small by lia|].
    replace (p_vaddr phdr + p_memsz phdr) with (p_vaddr phdr + p_memsz phdr - 2 ^ 32 + 1 * 2 ^ 32) in * by lia.
    rewrite Z.mod_add, Z.mod_small in * by lia. lia. }
  rewrite E in *. lia.
Qed.

(** C28. When [validate_segment] accepts a program header, the arguments [load]
    computes from it satisfy the assertions of [load_segment] and stay below
    [PHYS_BASE]: whole pages, none of them page 0, that cover the segment and no
    arithmetic of which wraps around; the bytes read are those up to the end of the
    segment's file part. *)
Theorem segment_pages_in_user_space {St} `{sector_store St} malloc_ok phdr file (k k' : kernel St) : phdr_wf phdr ->
  validate_segment malloc_ok phdr file k = Ok (true, k') ->
  let '(file_page, mem_page, read_bytes, zero_bytes) := segment_args phdr in
  ((read_bytes +u zero_bytes) mod PGSIZE = 0 /\ pg_ofs mem_page = 0 /\ Z.rem (s32 file_page) PGSIZE = 0) /\
  0 <= read_bytes /\ 0 <= zero_bytes /\
  PGSIZE <= mem_page <= p_vaddr phdr /\ p_vaddr phdr + p_memsz phdr <= mem_page + (read_bytes + zero_bytes) <= PHYS_BASE /\
  (0 < p_filesz phdr -> file_page + read_bytes = p_offset phdr + p_filesz phdr /\
     mem_page + read_bytes = p_vaddr phdr + p_filesz phdr) /\
  (p_filesz phdr = 0 -> read_bytes = 0).
Proof.
  intros Hw Hval. pose proof Hw as [Ho Hv Hf Hm]. unfold validate_segment in Hval.
  destruct (page_part _ Ho) as [Eo Eo']. destruct (page_part _ Hv) as [Ev Ev'].
  destruct (Z.eqb_spec (Z.land (p_offset phdr) PGMASK) (Z.land (p_vaddr phdr) PGMASK)) as [Eofs|]; [|done].
  assert (exists len, segment_ok phdr len = true) as [len Hlen].
  { cbn in Hval. unfold mbind, M_bind in Hval. destruct (p_file_length _ _ _) as [[len k2]| | |]; [|done..].
    injection Hval as E _. by exists len. }
  apply segment_ok_spec in Hlen as (_ & Hm0 & Hfm & Hlo & Hhi); [|done].
  rewrite Eo', Ev' in Eofs. unfold segment_args. rewrite Eo, Ev, Ev'.
  unfold is_u32 in *. change PHYS_BASE with 0xc0000000 in *.
  assert (forall x, 0 <= x <= p_memsz phdr -> p_vaddr phdr mod 4096 +u x = p_vaddr phdr mod 4096 + x) as Eadd.
  { intros x Hx. unfold u32. rewrite Z.mod_small; dlia. }
  rewrite !Eadd, ROUND_UP_page by dlia.
  assert (Z.rem (s32 (4096 * (p_offset phdr / 4096))) 4096 = 0) as Hrem.
  { apply Z.rem_divide; [done|]. unfold s32. exists ((p_offset phdr / 4096 + 2 ^ 19) mod 2 ^ 20 - 2 ^ 19). dlia. }
  set (up := 4096 * ((p_vaddr phdr mod 4096 + p_memsz phdr + 4095) / 4096)).
  assert (p_vaddr phdr mod 4096 + p_memsz phdr <= up < p_vaddr phdr mod 4096 + p_memsz phdr + 4096 /\ up mod 4096 = 0)
    as [Hup Hup0] by (unfold up; dlia).
  destruct (Z.ltb_spec 0 (p_filesz phdr)) as [Hf0|Hf0].
  - assert (up -u (p_vaddr phdr mod 4096 + p_filesz phdr) = up - (p_vaddr phdr mod 4096 + p_filesz phdr)) as ->
      by (unfold u32; rewrite Z.mod_small; dlia).
    rewrite pg_ofs_eq, PGSIZE_eq. unfold u32. split_and!; try done; dlia.
  - rewrite pg_ofs_eq, PGSIZE_eq. unfold u32. split_and!; try done; dlia.
Qed.

Definition ex_kernel : kernel flat_store := Kernel ex_kst ex_fs ex_intq [] 0.
Definition ex_phdr : Elf32_Phdr := Phdr PT_LOAD 84 0x8048054 0x8048054 500 6000 5 4096.
Lemma segment_pages_in_user_space_witness :
  exists k', validate_segment all_ok ex_phdr ex_file ex_kernel = Ok (true, k') /\
  segment_args ex_phdr = (0, 0x8048000, 584, 7608) /\ 0x8048054 + 6000 <= 0x8048000 + (584 + 7608) <= PHYS_BASE.
Proof.
  assert (match validate_segment all_ok ex_phdr ex_file ex_kernel with Ok (b, _) => b | _ => false end = true)
    as E by (vm_compute; reflexivity).
  destruct (validate_segment all_ok ex_phdr ex_file ex_kernel) as [[b k']| | |] eqn:Hval; [|done..].
  subst b. exists k'. split; [done|]. split; [reflexivity|].
  assert (phdr_wf ex_phdr) as Hw by (constructor; unfold is_u32; cbn; lia).
  exact (proj1 (proj2 (proj2 (proj2 (proj2 (segment_pages_in_user_space all_ok ex_phdr ex_file _ _ Hw Hval)))))).
Defined.
