(* ===== verification/Exception.v ===== *)
(** * Exception: leaving a system call, and userprog/exception.c

    Kernel code run for a user program may not come back: its thread exits, the
    machine is switched off, or the code waits in a loop of [thread_yield].  [SM] is
    the kernel's monad with those outcomes.  Also here: the processor's view of memory,
    and the exception handlers, which the loads of [get_user] can end up in.  The
    processor does not set accessed and dirty bits in the model. *)
From S2P Require Import Prelude.
From S2P Require Import Store.
From S2P Require Import FsState.
From S2P Require Import Vaddr.
From S2P Require Import Palloc.
From S2P Require Import Pagedir.
From S2P Require Import Sched.
From S2P Require Import Thread.
From S2P Require Import Process.

Abbreviation NULL := Palloc.NULL.
(** The loops of [process_execute] and [process_wait]. *)
Inductive spin := ExecSpin (n : Z) (m : option (Z * Z)) | WaitSpin (n : Z).
Inductive outcome (A : Type) := Returns (a : A) | Exited | Halted | Spins (w : spin).
Arguments Returns {A}. Arguments Exited {A}. Arguments Halted {A}. Arguments Spins {A}.
Definition SM (St A : Type) : Type := kernel St -> res (outcome A * kernel St).
#[global] Instance SM_ret {St} : MRet (SM St) := fun A a k => Ok (Returns a, k).
#[global] Instance SM_bind {St} : MBind (SM St) := fun A B f m k =>
  match m k with
  | Ok (Returns a, k') => f a k'
  | Ok (Exited, k') => Ok (Exited, k') | Ok (Halted, k') => Ok (Halted, k') | Ok (Spins w, k') => Ok (Spins w, k')
  | Panic => Panic | Fault => Fault | Hang => Hang
  end.
(** Kernel code that comes back. *)
Definition pm {St A} (m : M (kernel St) A) : SM St A := fun k =>
  match m k with Ok (a, k') => Ok (Returns a, k') | Panic => Panic | Fault => Fault | Hang => Hang end.
Definition leave {St A} (o : outcome A) : SM St A := fun k => Ok (o, k).

(** ** Memory *)
(** The kernel address of the byte the processor reads or writes for the user address
    [va] through the page directory in use; nothing: a page fault. *)
Definition mmu (k : kmem) (va : Z) (write : bool) : option Z :=
  match ptov (cr3 k) with
  | Ok pd =>
      match mapped k pd va with
      | Some e =>
          if negb write || flag e PTE_W then
            match pte_get_page e with Ok p => Some (p + pg_ofs va) | _ => None end
          else None
      | None => None
      end
  | _ => None
  end.
(** The same for any address: the kernel's memory is mapped at its own addresses. *)
Definition locate (k : kmem) (va : Z) (write : bool) : res (option Z) :=
  if is_user_vaddr va then mret (mmu k va write)
  else if bool_decide (is_Some (frames k !! pg_round_down va)) then mret (Some va)
  else Fault.

Section exception.
Context {St : Type} `{sector_store St}.
(** What the uninitialised local [user] of [page_fault] holds. *)
Variable user_garbage : bool.
Abbreviation PM A := (M (kernel St) A).
Abbreviation SM A := (SM St A).

Definition p_locate (va : Z) (write : bool) : PM (option Z) := k ← get; lift (locate (mem (kth k)) va write).
Definition kernel_byte (a : Z) : PM Z := bs ← page_bytes (pg_round_down a); lift (deref (znth bs (pg_ofs a))).
Definition set_kernel_byte (a x : Z) : PM unit :=
  bs ← page_bytes (pg_round_down a); bs ← lift (deref (zset bs (pg_ofs a) x)); set_page (pg_round_down a) bs.
(** A load and a store of compiled code: a page fault there is not recovered from. *)
Definition c_load (va : Z) : PM Z := a ← p_locate va false; a ← lift (deref a); kernel_byte a.
Definition c_store (va x : Z) : PM unit := a ← p_locate va true; a ← lift (deref a); set_kernel_byte a x.
Fixpoint c_store_all (va : Z) (xs : list Z) : PM unit :=
  match xs with [] => mret tt | x :: xs' => _ ← c_store va x; c_store_all (va +u 1) xs' end.
(** The string at an address: at most as many bytes as there is memory. *)
Fixpoint c_load_string (fuel : nat) (va : Z) : PM (list Z) :=
  match fuel with
  | O => hang
  | S fuel' => x ← c_load va; if x =? 0 then mret [] else l ← c_load_string fuel' (va +u 1); mret (x :: l)
  end.
Definition string_fuel (k : kernel St) : nat := S (4096 * size (frames (mem (kth k)))).

(** ** Exceptions *)
Definition exit_thread {A} : SM A := _ ← pm thread_exit; leave Exited.
Definition kill (f : intr_frame) : SM unit :=
  if f_cs f =? SEL_UCSEG then exit_thread
  else if f_cs f =? SEL_KCSEG then pm panic
  else exit_thread.
Definition page_fault (f : intr_frame) : SM unit :=
  if negb user_garbage then
    t ← pm (in_kst thread_current); _ ← pm (in_kst (upd_thread t (set_retval (-1)))); exit_thread
  else
    _ ← pm (in_kst intr_enable);
    _ ← pm (modify (fun k => Kernel (kth k) (kfs k) (kin k) (console k) (page_fault_cnt k + 1)));
    kill f.
(** The load of [get_user]; a fault there comes from the kernel's code. *)
Definition get_user (usrc : Z) : SM Z :=
  a ← pm (p_locate usrc false);
  match a with
  | Some a => pm (kernel_byte a)
  | None => _ ← page_fault (Frame 0 0 SEL_KCSEG SEL_UDSEG 0 0); pm hang
  end.
Definition put_user (udst byte : Z) : SM unit :=
  a ← pm (p_locate udst true);
  match a with
  | Some a => pm (set_kernel_byte a byte)
  | None => _ ← page_fault (Frame 0 0 SEL_KCSEG SEL_UDSEG 0 0); pm hang
  end.
Fixpoint put_bytes (udst : Z) (bytes : list Z) : SM bool :=
  match bytes with [] => mret true | x :: bs => _ ← put_user udst x; put_bytes (udst +u 1) bs end.
End exception.
