(* ===== verification/Syscall.v ===== *)
(** * Syscall: userprog/syscall.c

    The system calls, from the interrupt frame of a user program to the frame it goes
    on with, on the whole kernel of Process.v.  A path is cut into the words between
    slashes ([tokens] of CString.v, which is what [strtok_r] computes); the two copies
    of the path, each walked once by the code, are one list here.  A call that falls
    off the end of its function returns no value: a fault. *)
From S2P Require Import Prelude.
From S2P Require Import Lock.
From S2P Require Import Block.
From S2P Require Import Store.
From S2P Require Import Bitmap.
From S2P Require Import FsState.
From S2P Require Import Inode.
From S2P Require Import File.
From S2P Require Import FreeMap.
From S2P Require Import Directory.
From S2P Require Import Filesys.
From S2P Require Import CString.
From S2P Require Import Vaddr.
From S2P Require Import Palloc.
From S2P Require Import Pagedir.
From S2P Require Import Sched.
From S2P Require Import Synch.
From S2P Require Import Thread.
From S2P Require Import Intq.
From S2P Require Import Process.
From S2P Require Import Exception.

Abbreviation NULL := Palloc.NULL.
Definition SYS_HALT : Z := 0.
Definition SYS_EXIT : Z := 1.
Definition SYS_EXEC : Z := 2.
Definition SYS_WAIT : Z := 3.
Definition SYS_CREATE : Z := 4.
Definition SYS_REMOVE : Z := 5.
Definition SYS_OPEN : Z := 6.
Definition SYS_FILESIZE : Z := 7.
Definition SYS_READ : Z := 8.
Definition SYS_WRITE : Z := 9.
Definition SYS_SEEK : Z := 10.
Definition SYS_TELL : Z := 11.
Definition SYS_CLOSE : Z := 12.
Definition SYS_CHDIR : Z := 15.
Definition SYS_MKDIR : Z := 16.
Definition SYS_READDIR : Z := 17.
Definition SYS_ISDIR : Z := 18.
Definition SYS_INUMBER : Z := 19.
Definition b2z (b : bool) : Z := if b then 1 else 0.
(** The test on the pointers a program passes. *)
Definition bad_pointer (p : Z) : bool := (p <=? 0x08048000) || (PHYS_BASE - 4 <=? p).
(** The words of a path. *)
Definition path_words (path : list Z) : list (list Z) := tokens (S (length path)) [47] path.
Definition dot : list Z := [46].
Definition dotdot : list Z := [46; 46].

Section syscall.
Context {St : Type} `{sector_store St}.
Variable malloc_ok : nat -> bool.
Variable depth : nat.
Variable garbage : list Z.
Variable user_garbage : bool.
(** The addresses of the keyboard queue's lock and of code. *)
Variables input_lock start_process_addr kernel_thread_addr switch_entry_addr : Z.
Abbreviation PM A := (M (kernel St) A).
Abbreviation SM A := (SM St A).
Abbreviation get_user := (get_user user_garbage).
Abbreviation alloc me := (free_map_allocate malloc_ok me depth).
Abbreviation release me := (free_map_release malloc_ok me depth).

Definition k_lock : PM unit := in_kst thread_fs_lock.
Definition k_unlock : PM unit := in_kst thread_fs_unlock.
Definition k_get_file (fd : Z) : PM Z := in_kst (thread_get_file fd).
Definition k_dir_close (d : option Z) : PM unit := in_fs (fun me => dir_close malloc_ok me depth d).
Definition k_dir_open (i : option Z) : PM (option Z) := in_fs (fun me => dir_open malloc_ok me depth i).
Definition k_dir_open_root : PM (option Z) := in_fs (fun me => dir_open_root malloc_ok me depth).
Definition k_dir_reopen (d : Z) : PM (option Z) := in_fs (fun me => dir_reopen malloc_ok me depth d).
Definition k_dir_lookup (d : option Z) (name : list Z) : PM (option Z) := in_fs (fun me => dir_lookup malloc_ok me d name).
Definition k_dir_add (d : option Z) (name : list Z) (sector : Z) : PM bool :=
  in_fs (fun me => dir_add malloc_ok me depth garbage d name sector).
Definition k_dir_inode (d : option Z) : PM Z := d ← lift (deref d); in_fs (fun _ => dir_get_inode d).
Definition k_inode_close (i : option Z) : PM unit := in_fs (fun me => inode_close malloc_ok me (release me) i).
Definition k_inode_reopen (i : option Z) : PM (option Z) := in_fs (fun me => inode_reopen me i).
Definition k_file_open (i : option Z) : PM (option Z) := in_fs (fun me => file_open malloc_ok me (release me) i).
Definition k_inode_type (i : Z) : PM Z := in_fs (fun _ => inode_get_type malloc_ok i).
Definition k_inumber (i : Z) : PM Z := in_fs (fun _ => inode_get_inumber i).
Definition k_free (page : Z) : PM unit := with_pd (fun _ _ _ => palloc_free_page page).
Definition k_file_inode (f : Z) : PM Z := in_fs (fun _ => file_get_inode f).

(** ** Arguments *)
Definition sys_exit {A} (status : Z) : SM A :=
  t ← pm (in_kst thread_current);
  _ ← pm (in_kst (atomically (upd_thread t (set_retval status)))); exit_thread.
(** A pointer that fails the test ends the program. *)
Definition check_pointer (p : Z) : SM unit := if bad_pointer p then sys_exit (-1) else mret tt.
Fixpoint copy_in (size : nat) (usrc : Z) : SM (list Z) :=
  match size with
  | O => mret []
  | S n =>
      if PHYS_BASE <=? usrc then exit_thread
      else x ← get_user usrc; xs ← copy_in n (usrc +u 1); mret (x :: xs)
  end.
(** The page for a copy of what is at the user address [us]. *)
Definition copy_page (us : Z) : SM Z :=
  ks ← pm (with_pd (fun me _ _ => palloc_get_page me PAL_ZERO));
  if ks =? NULL then exit_thread else if PHYS_BASE <=? us then exit_thread else mret ks.
Fixpoint data_loop (n : nat) (char_ptr us_ptr : Z) : SM unit :=
  match n with
  | O => mret tt
  | S n' => x ← get_user us_ptr; _ ← pm (set_kernel_byte char_ptr x); data_loop n' (char_ptr + 1) (us_ptr +u 1)
  end.
Definition copy_in_data (us write_size : Z) : SM Z :=
  ks ← copy_page us; _ ← data_loop (Z.to_nat write_size) ks us; mret ks.
(** The loop of [copy_in_string]: [char_ptr] at its end. *)
Fixpoint string_loop (n : nat) (char_ptr us_ptr : Z) : SM Z :=
  match n with
  | O => mret char_ptr
  | S n' =>
      x ← get_user us_ptr; _ ← pm (set_kernel_byte char_ptr x);
      if x =? 0 then mret char_ptr else string_loop n' (char_ptr + 1) (us_ptr +u 1)
  end.
Definition copy_in_string (us : Z) : SM Z :=
  ks ← copy_page us;
  char_ptr ← string_loop (Z.to_nat PGSIZE) ks us;
  x ← pm (c_load char_ptr);
  _ ← (if negb (x =? 0) then pm (c_store char_ptr 0) else mret tt); mret ks.

(** ** Paths *)
Definition my_wd : PM Z := '(_, th) ← my_thread; mret (wd th).
(** The directory a walk starts from. *)
Definition start_dir (path : list Z) : PM (option Z) :=
  w ← my_wd; curr_root ← k_dir_reopen w;
  if bool_decide (hd 0 path = 47) then _ ← k_dir_close curr_root; k_dir_open_root else mret curr_root.
(** One directory down: [curr_root] afterwards, or nothing when there is no such entry. *)
Definition descend (curr_root : option Z) (token : list Z) : PM (option (option Z)) :=
  i ← k_dir_lookup curr_root token;
  match i with
  | Some p => _ ← k_dir_close curr_root; d ← k_dir_open (Some p); mret (Some d)
  | None => mret None
  end.
(** The second loop over the words of a path: [step] on every word but the last,
    [last] on the last one, [none] when there is no word. *)
Fixpoint walk {A} (step : option Z -> list Z -> PM (option Z + A)) (last : option Z -> list Z -> PM A)
    (none : option Z -> PM A) (curr_root : option Z) (ts : list (list Z)) : PM A :=
  match ts with
  | [] => none curr_root
  | [token] => last curr_root token
  | token :: ts' =>
      r ← step curr_root token;
      match r with inl d => walk step last none d ts' | inr a => mret a end
  end.
(** [dir_close (curr_root)], the two copies freed, and a value returned. *)
Definition finish {A} (pages : Z * Z) (curr_root : option Z) (a : A) : PM A :=
  _ ← k_dir_close curr_root; _ ← k_free (fst pages); _ ← k_free (snd pages); mret a.
Definition step_down (pages : Z * Z) (err : Z) (before : PM unit) (curr_root : option Z) (token : list Z)
    : PM (option Z + Z) :=
  r ← descend curr_root token;
  match r with
  | Some d => mret (inl d)
  | None => _ ← before; e ← finish pages curr_root err; mret (inr e)
  end.

(** ** Files by name *)
Definition sys_create (file initial_size : Z) : SM Z :=
  new_filename ← copy_in_string file; filename_cp ← copy_in_string file;
  _ ← pm (assert (negb (new_filename =? NULL))); _ ← pm (assert (negb (filename_cp =? NULL)));
  pm (
    path ← page_string new_filename; curr_root ← start_dir path;
    let pages := (filename_cp, new_filename) in
    walk (step_down pages 0 (mret tt))
      (fun curr_root token =>
         _ ← k_lock;
         retval ← in_fs (fun me => filesys_create_with_dir malloc_ok me depth garbage curr_root token (s32 initial_size) FILE_INODE);
         _ ← k_unlock; finish pages curr_root (b2z retval))
      (fun _ => mret 0) curr_root (path_words path)).

(** A step of [sys_open]: up, stay or down. *)
Definition open_step (pages : Z * Z) (curr_root : option Z) (token : list Z) : PM (option Z + Z) :=
  if bool_decide (token = dotdot) then step_down pages 0 (mret tt) curr_root token
  else if bool_decide (token = dot) then mret (inl curr_root)
  else step_down pages (-1) (mret tt) curr_root token.
Definition open_last (pages : Z * Z) (curr_root : option Z) (token : list Z) : PM Z :=
  if bool_decide (token = dot) then
    _ ← k_lock;
    _ ← assert (bool_decide (curr_root <> None));
    node ← k_dir_inode curr_root; _ ← assert (negb (node =? NULL));
    node2 ← k_inode_reopen (Some node); f ← k_file_open node2;
    _ ← assert (bool_decide (f <> None));
    _ ← k_unlock;
    fd ← in_kst (thread_get_new_fd (default NULL f)); finish pages curr_root fd
  else
    _ ← k_lock;
    f ← in_fs (fun me => filesys_open_with_dir malloc_ok me depth curr_root token);
    _ ← k_unlock;
    match f with
    | None => finish pages curr_root (-1)
    | Some f => fd ← in_kst (thread_get_new_fd f); finish pages curr_root fd
    end.
Definition open_root (pages : Z * Z) (curr_root : option Z) : PM Z :=
  _ ← k_lock;
  d ← k_dir_open_root;
  _ ← k_lock;
  i ← k_dir_inode d; i ← k_inode_reopen (Some i); f ← k_file_open i;
  _ ← k_unlock;
  fd ← in_kst (thread_get_new_fd (default NULL f));
  _ ← k_dir_close d; finish pages curr_root fd.
Definition sys_open (file : Z) : SM Z :=
  _ ← check_pointer file;
  kfile ← copy_in_string file; kfile_cp ← copy_in_string file;
  pm (
    path ← page_string kfile;
    if zlen path <? 1 then _ ← k_free kfile; _ ← k_free kfile_cp; mret (-1)
    else
      curr_root ← start_dir path;
      let pages := (kfile_cp, kfile) in
      if bool_decide (path = [47]) then open_root pages curr_root
      else walk (open_step pages) (open_last pages) (fun _ => fault) curr_root (path_words path)).

(** The entries of what is removed, read as a directory's. *)
Definition remove_last (pages : Z * Z) (curr_root : option Z) (token : list Z) : PM Z :=
  i ← k_dir_lookup curr_root token;
  match i with
  | None => _ ← k_unlock; finish pages curr_root 0
  | Some file_inode =>
      w ← my_wd; cwd ← k_dir_inode (Some w);
      a ← k_inumber cwd; b ← k_inumber file_inode;
      if a =? b then _ ← k_unlock; _ ← k_inode_close i; finish pages curr_root 0
      else
        d ← k_dir_open i; maybe_dir ← lift (deref d);
        let readdir := in_fs (fun _ => dir_readdir malloc_ok maybe_dir) in
        r1 ← readdir;
        cnt ← (match r1 with Some _ => in_fs (fun me => inode_open_cnt me file_inode) | None => mret 0 end);
        if 1 <? cnt then _ ← k_unlock; _ ← k_inode_close i; finish pages curr_root 0
        else
          r2 ← readdir;
          r3 ← (match r2 with Some _ => readdir | None => mret None end);
          match r3 with
          | Some _ => _ ← k_unlock; finish pages curr_root 0
          | None =>
              _ ← k_dir_close d;
              o ← in_fs (fun me => filesys_remove_with_dir malloc_ok me depth curr_root token);
              _ ← in_fs (fun me => dir_remove malloc_ok me depth curr_root token);
              _ ← k_dir_close curr_root; _ ← k_unlock;
              _ ← k_free (fst pages); _ ← k_free (snd pages); mret (b2z o)
          end
  end.
Definition sys_remove (file : Z) : SM Z :=
  _ ← check_pointer file;
  kfile ← copy_in_string file; kfile_cp ← copy_in_string file;
  pm (
    path ← page_string kfile;
    if bool_decide (path = [47]) then _ ← k_free kfile; _ ← k_free kfile_cp; mret 0
    else
      _ ← k_lock; curr_root ← start_dir path;
      walk (step_down (kfile, kfile_cp) 0 k_unlock) (remove_last (kfile_cp, kfile)) (fun _ => fault)
        curr_root (path_words path)).

(** ** Directories *)
(** The loop of [sys_chdir]: the directory reached. *)
Fixpoint chdir_loop (kdir : Z) (curr_root : option Z) (ts : list (list Z)) : PM (option Z + Z) :=
  match ts with
  | [] => mret (inl curr_root)
  | token :: ts' =>
      _ ← assert (bool_decide (curr_root <> None));
      r ← descend curr_root token;
      match r with
      | Some d => chdir_loop kdir d ts'
      | None => _ ← k_dir_close curr_root; _ ← k_free kdir; mret (inr 0)
      end
  end.
Definition sys_chdir (dir : Z) : SM Z :=
  _ ← check_pointer dir;
  kdir ← copy_in_string dir;
  pm (
    path ← page_string kdir; curr_root ← start_dir path;
    r ← chdir_loop kdir curr_root (path_words path);
    match r with
    | inr e => mret e
    | inl d =>
        '(t, th) ← my_thread;
        _ ← k_dir_close (file_ptr (wd th)); _ ← in_kst (upd_thread t (set_wd (default NULL d)));
        _ ← k_free kdir; mret 1
    end).

Definition mkdir_last (pages : Z * Z) (curr_root : option Z) (token : list Z) : PM Z :=
  i ← k_dir_lookup curr_root token;
  match i with
  | Some _ => finish pages curr_root 0
  | None =>
      s ← in_fs (fun me => alloc me);
      match s with
      | None => finish pages curr_root 0
      | Some sector =>
          created ← in_fs (fun me => dir_create malloc_ok me depth sector 32);
          if (created : bool) then
            output ← k_dir_add curr_root token sector;
            if (output : bool) then
              n ← in_fs (fun me => inode_open malloc_ok me sector); d ← k_dir_open n;
              _ ← k_dir_add d dot sector;
              root_inode ← k_dir_inode curr_root; root_sector ← k_inumber root_inode;
              _ ← k_dir_add d dotdot root_sector;
              _ ← k_dir_close d; finish pages curr_root 1
            else finish pages curr_root 0
          else finish pages curr_root 0
      end
  end.
Definition sys_mkdir (dir : Z) : SM Z :=
  _ ← check_pointer dir;
  kdir ← copy_in_string dir; kdircp ← copy_in_string dir;
  pm (
    path ← page_string kdir;
    if zlen path <? 1 then _ ← k_free kdir; _ ← k_free kdircp; mret 0
    else
      curr_root ← start_dir path;
      let pages := (kdir, kdircp) in
      walk (step_down pages 0 (mret tt)) (mkdir_last pages) (fun c => finish pages c 1) curr_root (path_words path)).

(** ** Open files *)
Definition sys_seek (fd position : Z) : SM Z :=
  pm (_ ← k_lock; fp ← k_get_file fd;
      if fp =? NULL then mret 0
      else _ ← in_fs (fun _ => file_seek (Some fp) (s32 position)); _ ← k_unlock; mret 0).
Definition sys_tell (fd : Z) : SM Z :=
  pm (_ ← k_lock; fp ← k_get_file fd;
      if fp =? NULL then mret 0
      else pos ← in_fs (fun _ => file_tell (Some fp)); _ ← k_unlock; mret pos).
Definition sys_filesize (fd : Z) : SM Z :=
  pm (fp ← k_get_file fd; if fp =? NULL then mret (-1) else in_fs (fun _ => file_length malloc_ok (Some fp))).
Definition sys_close (fd : Z) : SM Z :=
  pm (_ ← k_lock;
      target ← k_get_file fd;
      _ ← (if target =? NULL then k_unlock else mret tt);
      check_inode ← k_file_inode target;
      _ ← (if check_inode =? NULL then k_unlock else mret tt);
      type ← k_inode_type check_inode;
      let close := fun f => in_fs (fun me => file_close malloc_ok me (release me) f) in
      fp ← in_kst (thread_close_fd fd);
      _ ← (if type =? DIR_INODE then close (file_ptr fp) else if negb (fp =? NULL) then close (Some fp) else mret tt);
      _ ← k_unlock; mret 0).

(** One key from the keyboard; a thread that waits for one stays here. *)
Definition k_input_getc : PM Z := fun k =>
  match input_getc input_lock (Iq (kth k) (kin k)) with
  | Ok (Some x, s) => Ok (x, Kernel (ik s) (kfs k) (iqueue s) (console k) (page_fault_cnt k))
  | Ok (None, _) => Hang
  | Panic => Panic | Fault => Fault | Hang => Hang
  end.
Fixpoint read_keys (n : nat) (buffer : Z) : PM unit :=
  match n with O => mret tt | S n' => x ← k_input_getc; _ ← c_store buffer x; read_keys n' (buffer +u 1) end.
Definition sys_read (fd buffer size : Z) : SM Z :=
  if fd =? 1 then mret (-1)
  else if fd =? 0 then pm (_ ← read_keys (Z.to_nat size) buffer; mret (s32 size))
  else
    fp ← pm (k_get_file fd);
    if fp =? NULL then mret (-1)
    else
      _ ← check_pointer buffer;
      pm (_ ← k_lock; bs ← p_file_read malloc_ok fp (s32 size); _ ← c_store_all buffer bs; _ ← k_unlock; mret (zlen bs)).

Definition putbuf (bytes : list Z) : PM unit :=
  modify (fun k => Kernel (kth k) (kfs k) (kin k) (console k ++ bytes) (page_fault_cnt k)).
(** The loop of [sys_write]; locals write_count, bytes_written, write_count_last and
    first. *)
Definition write_turn (target user_buf : Z) (l : Z * Z * Z * bool) : SM (Z * Z * Z * bool + Z) :=
  let '(write_count, bytes_written, write_count_last, first) := l in
  if 0 <? write_count then
    let write_size := if PGSIZE <? write_count then PGSIZE else write_count in
    data ← copy_in_data (user_buf +u bytes_written) write_size;
    bs ← pm (page_bytes data);
    bytes_written_temp ← pm (in_fs (fun me => file_write malloc_ok me (alloc me) target bs write_size));
    let bytes_written := s32 (bytes_written + bytes_written_temp) in
    let write_count := write_count -u bytes_written_temp in
    if negb first && (write_count_last =? write_count) then mret (inr bytes_written)
    else _ ← pm (k_free data); mret (inl (write_count, bytes_written, write_count, false))
  else mret (inr bytes_written).
Fixpoint write_loop (fuel : nat) (target user_buf : Z) (l : Z * Z * Z * bool) : SM Z :=
  match fuel with
  | O => pm hang
  | S fuel' => r ← write_turn target user_buf l; match r with inl l' => write_loop fuel' target user_buf l' | inr n => mret n end
  end.
Definition sys_write (fd user_buf size : Z) : SM Z :=
  if fd =? 0 then mret 0
  else if fd =? 1 then
    data ← copy_in_string user_buf;
    bs ← pm (page_bytes data); out ← pm (lift (deref (zslice bs 0 size)));
    _ ← pm (putbuf out); mret (s32 size)
  else
    _ ← check_pointer user_buf;
    _ ← pm k_lock;
    target ← pm (k_get_file fd);
    check_inode ← pm (k_file_inode target);
    type ← pm (k_inode_type check_inode);
    if negb (type =? FILE_INODE) then _ ← pm k_unlock; mret (-1)
    else
      n ← write_loop (S (S (Z.to_nat size))) target user_buf (size, 0, 0, true);
      _ ← pm k_unlock; mret n.

Definition sys_readdir (fd name : Z) : SM Z :=
  _ ← check_pointer name;
  pm (
    _ ← k_lock;
    fp ← k_get_file fd;
    if fp =? NULL then _ ← k_unlock; mret 0
    else
      check_inode ← k_file_inode fp;
      if check_inode =? NULL then _ ← k_unlock; mret 0
      else
        type ← k_inode_type check_inode;
        if negb (type =? DIR_INODE) then _ ← k_unlock; mret 0
        else
          i ← k_inode_reopen (Some check_inode); d ← k_dir_open i;
          p ← in_fs (fun _ => file_tell (Some fp));
          q ← lift (deref d); _ ← in_fs (fun _ => dir_set_pos q p);
          let readdir :=
            r ← in_fs (fun _ => dir_readdir malloc_ok q);
            match r with Some s => _ ← c_store_all name (s ++ [0]); mret (Some s) | None => mret None end in
          let failure := _ ← k_unlock; _ ← k_dir_close d; mret 0 in
          let success :=
            _ ← k_unlock; p ← in_fs (fun _ => dir_get_pos q);
            _ ← in_fs (fun _ => file_seek (Some fp) p); _ ← k_dir_close d; mret 1 in
          s ← readdir;
          match s with
          | None => failure
          | Some s =>
              if bool_decide (s = dot) then
                s ← readdir;
                match s with
                | None => failure
                | Some s =>
                    if bool_decide (s = dotdot) then s ← readdir; match s with Some _ => success | None => failure end
                    else success
                end
              else success
          end).
(** The inode of a descriptor's file, under the lock; [none] when there is none. *)
Definition with_inode (fd none : Z) (f : Z -> PM Z) : SM Z :=
  pm (_ ← k_lock;
      target ← k_get_file fd;
      if target =? NULL then _ ← k_unlock; mret none
      else
        check_inode ← k_file_inode target;
        if check_inode =? NULL then _ ← k_unlock; mret none
        else o ← f check_inode; _ ← k_unlock; mret o).
Definition sys_isdir (fd : Z) : SM Z := with_inode fd 0 (fun i => type ← k_inode_type i; mret (b2z (type =? DIR_INODE))).
Definition sys_inumber (fd : Z) : SM Z := with_inode fd (-1) (fun i => n ← k_inumber i; mret (s32 n)).

(** ** Processes *)
Definition sys_halt : SM Z := _ ← pm (in_fs (fun me => filesys_done malloc_ok me depth)); leave Halted.
(** The command line is read where the program has it. *)
Definition sys_exec (cmd_line : Z) : SM Z :=
  s ← pm (k ← get; c_load_string (string_fuel k) cmd_line);
  r ← pm (process_execute_start malloc_ok depth start_process_addr kernel_thread_addr switch_entry_addr s);
  match r with inl v => mret v | inr (n, m) => leave (Spins (ExecSpin n m)) end.
Definition sys_wait (pid : Z) : SM Z :=
  r ← pm (process_wait_start pid); match r with Some v => mret v | None => leave (Spins (WaitSpin pid)) end.
(** A turn of the loop a call is in, taken when its thread runs again. *)
Definition spin_turn (w : spin) : SM Z :=
  r ← pm (match w with ExecSpin n m => process_execute_turn n m | WaitSpin n => process_wait_turn malloc_ok depth n end);
  match r with Some v => mret v | None => leave (Spins w) end.

(** ** The handler *)
Definition set_eax (v : Z) (f : intr_frame) : intr_frame := Frame (f_eip f) (f_esp f) (f_cs f) (f_ds f) (f_eflags f) (u32 v).
Definition dispatch (call_nr a0 a1 a2 : Z) : SM Z :=
  if call_nr =? SYS_WRITE then sys_write (s32 a0) a1 a2
  else if call_nr =? SYS_HALT then sys_halt
  else if call_nr =? SYS_EXIT then sys_exit (s32 a0)
  else if call_nr =? SYS_CREATE then sys_create a0 a1
  else if call_nr =? SYS_OPEN then sys_open a0
  else if call_nr =? SYS_EXEC then sys_exec a0
  else if call_nr =? SYS_WAIT then sys_wait (s32 a0)
  else if call_nr =? SYS_CLOSE then sys_close (s32 a0)
  else if call_nr =? SYS_READ then sys_read (s32 a0) a1 a2
  else if call_nr =? SYS_FILESIZE then sys_filesize (s32 a0)
  else if call_nr =? SYS_SEEK then sys_seek (s32 a0) a1
  else if call_nr =? SYS_TELL then sys_tell (s32 a0)
  else if call_nr =? SYS_REMOVE then sys_remove a0
  else if call_nr =? SYS_CHDIR then sys_chdir a0
  else if call_nr =? SYS_MKDIR then sys_mkdir a0
  else if call_nr =? SYS_READDIR then sys_readdir (s32 a0) a1
  else if call_nr =? SYS_ISDIR then sys_isdir (s32 a0)
  else if call_nr =? SYS_INUMBER then sys_inumber (s32 a0)
  else mret 0.
Definition syscall_handler (f : intr_frame) : SM intr_frame :=
  if bad_pointer (f_esp f) then sys_exit (-1)
  else
    nr ← copy_in 4 (f_esp f); args ← copy_in 12 (f_esp f +u 4);
    retval ← dispatch (le_val nr) (word_at args 0) (word_at args 4) (word_at args 8);
    mret (set_eax retval f).
End syscall.
