(* ===== verification/SyscallSpec.v ===== *)
(** * SyscallSpec: what the kernel reads of a program's memory

    [user_byte] is the byte a program has at an address of its own, through its page
    tables.  [get_user] reads exactly those bytes, and so do [copy_in] and
    [copy_in_string], which system calls take all their arguments with. *)
From S2P Require Import Prelude.
From S2P Require Import Lock.
From S2P Require Import Block.
From S2P Require Import Bitmap.
From S2P Require Import Store.
From S2P Require Import FsState.
From S2P Require Import Directory.
From S2P Require Import Vaddr.
From S2P Require Import Palloc.
From S2P Require Import Pagedir.
From S2P Require Import Sched.
From S2P Require Import Thread.
From S2P Require Import Intq.
From S2P Require Import Process.
From S2P Require Import Exception.
From S2P Require Import Syscall.
From S2P Require Import FsExample.

Abbreviation NULL := Palloc.NULL.

(** ** Running a system call to its return *)
Definition swp {St A} (m : SM St A) (k : kernel St) (Q : A -> kernel St -> Prop) : Prop :=
  match m k with Ok (Returns a, k') => Q a k' | _ => False end.
Lemma swp_bind {St A B} (m : SM St A) (f : A -> SM St B) k Q : swp m k (fun a k' => swp (f a) k' Q) -> swp (m ≫= f) k Q.
Proof. unfold swp, mbind, SM_bind. by destruct (m k) as [[[] ?]| | |]. Qed.
Lemma swp_ret {St A} (a : A) (k : kernel St) (Q : A -> kernel St -> Prop) : Q a k -> swp (mret a) k Q.
Proof. done. Qed.
Lemma swp_pm {St A} (m : M (kernel St) A) k Q : mwp m k Q -> swp (pm m) k Q.
Proof. unfold swp, mwp, pm. by destruct (m k) as [[]| | |]. Qed.
Lemma swp_ok {St A} (m : SM St A) k Q : swp m k Q -> exists a k', m k = Ok (Returns a, k') /\ Q a k'.
Proof. unfold swp. destruct (m k) as [[[] ?]| | |]; naive_solver. Qed.
Lemma swp_mono {St A} (m : SM St A) k Q Q' : swp m k Q -> (forall a k', Q a k' -> Q' a k') -> swp m k Q'.
Proof. unfold swp. destruct (m k) as [[[] ?]| | |]; naive_solver. Qed.
(** Code that never comes back. *)
Definition gone {St A} (m : SM St A) : Prop := forall k a k', m k <> Ok (Returns a, k').
Lemma gone_bind {St A B} (m : SM St A) (f : A -> SM St B) : gone m -> gone (m ≫= f).
Proof. intros Hm k b k'. unfold mbind, SM_bind. specialize (Hm k). destruct (m k) as [[[] ?]| | |]; try done. by edestruct Hm. Qed.
Lemma gone_then {St A B} (m : SM St A) (f : A -> SM St B) : (forall a, gone (f a)) -> gone (m ≫= f).
Proof. intros Hf k b k'. unfold mbind, SM_bind. destruct (m k) as [[[] ?]| | |]; try done. apply Hf. Qed.
Lemma gone_exit {St A} `{sector_store St} : gone (exit_thread (St := St) (A := A)).
Proof. by apply gone_then. Qed.
Lemma exit_bind {St A B} `{sector_store St} (f : A -> SM St B) k : (exit_thread ≫= f) k = exit_thread k.
Proof. unfold exit_thread, mbind, SM_bind. by destruct (pm thread_exit k) as [[[] ?]| | |]. Qed.
Lemma sm_bind_ok {St A B} (m : SM St A) (f : A -> SM St B) k a k' : m k = Ok (Returns a, k') -> (m ≫= f) k = f a k'.
Proof. unfold mbind, SM_bind. by intros ->. Qed.
Lemma sm_bind_same {St A B} (m m' : SM St A) (f : A -> SM St B) k : m k = m' k -> (m ≫= f) k = (m' ≫= f) k.
Proof. unfold mbind, SM_bind. by intros ->. Qed.
Lemma pm_ok {St A} (m : M (kernel St) A) k a k' : m k = Ok (a, k') -> pm m k = Ok (Returns a, k').
Proof. unfold pm. by intros ->. Qed.
Lemma returns_bind {St A B} (m : SM St A) (f : A -> SM St B) k b k2 : (m ≫= f) k = Ok (Returns b, k2) ->
  exists a k1, m k = Ok (Returns a, k1) /\ f a k1 = Ok (Returns b, k2).
Proof. unfold mbind, SM_bind. destruct (m k) as [[[] ?]| | |]; naive_solver. Qed.

(** The kernel with other memory. *)
Definition with_mem {St} (m : kmem) (k : kernel St) : kernel St := set_kth (set_mem m (kth k)) k.
Abbreviation kmem_of k := (mem (kth k)).
Lemma with_mem_twice {St} m1 m2 (k : kernel St) : with_mem m1 (with_mem m2 k) = with_mem m1 k.
Proof. done. Qed.
Lemma with_mem_same {St} (k : kernel St) : with_mem (kmem_of k) k = k.
Proof. by destruct k as [[] ? ? ? ?]. Qed.

Section memory.
Context {St : Type} `{sector_store St}.
Lemma with_pd_spec {A} (f : Z -> Z -> Z -> KM A) (k : kernel St) Q :
  mwp (f (running (kth k)) (base_page_dir (kth k)) (init_ram_pages (kth k))) (kmem_of k) (fun a m => Q a (with_mem m k)) ->
  mwp (with_pd f) k Q.
Proof.
  unfold mwp, with_pd, in_kst, in_mem, gets, mbind, M_bind. destruct (f _ _ _ (kmem_of k)) as [[]| | |]; done.
Qed.

(** ** Bytes *)
Definition byte_at (m : kmem) (a : Z) : option Z :=
  ws ← frames m !! pg_round_down a; znth (words_bytes ws) (pg_ofs a).
Definition user_byte (m : kmem) (va : Z) : option Z :=
  if bool_decide (0 <= va < PHYS_BASE) then a ← mmu m va false; byte_at m a else None.

Lemma kernel_byte_spec a x (k : kernel St) (Q : Z -> kernel St -> Prop) : byte_at (kmem_of k) a = Some x -> Q x k ->
  mwp (kernel_byte a) k Q.
Proof.
  intros Hb HQ. unfold byte_at in Hb. unfold kernel_byte, page_bytes.
  destruct (frames (kmem_of k) !! pg_round_down a) as [ws|] eqn:E; [|done]. cbn in Hb.
  wp_step. wp_step. wp_step. wp_step.
  apply mwp_lift. rewrite E. cbn. by rewrite Hb.
Qed.
Lemma p_locate_user va w (k : kernel St) : va < PHYS_BASE -> p_locate va w k = Ok (mmu (kmem_of k) va w, k).
Proof. intros Hv. unfold p_locate, locate, is_user_vaddr. cbn. by rewrite (proj2 (Z.ltb_lt va PHYS_BASE)). Qed.
Lemma gone_page_fault ug f : gone (page_fault (St := St) ug f).
Proof.
  unfold page_fault. destruct (negb ug).
  - apply gone_then. intros ?. apply gone_then. intros ?. apply gone_exit.
  - apply gone_then. intros ?. apply gone_then. intros ?. unfold kill.
    destruct (_ =? _); [apply gone_exit|]. destruct (_ =? _); [|apply gone_exit]. by intros ???.
Qed.
Lemma get_user_iff ug va (k k' : kernel St) x : 0 <= va < PHYS_BASE ->
  get_user ug va k = Ok (Returns x, k') <-> k' = k /\ user_byte (kmem_of k) va = Some x.
Proof.
  intros Hv. unfold user_byte, get_user. rewrite bool_decide_eq_true_2 by done.
  unfold mbind at 1, SM_bind, pm at 1. rewrite p_locate_user by lia.
  destruct (mmu _ _ _) as [a|]; cbn [mbind option_bind].
  - unfold pm, kernel_byte, page_bytes, byte_at, mbind, M_bind, get, lift.
    destruct (frames (kmem_of k) !! pg_round_down a) as [ws|]; cbn; [|naive_solver].
    destruct (znth (words_bytes ws) (pg_ofs a)) as [y|]; cbn; naive_solver.
  - split; [|by intros [_ ?]]. intros E. exfalso. revert E. apply gone_bind, gone_page_fault.
Qed.

(** C13. [copy_in] returns exactly when every byte asked for is mapped and belongs to
    the program, with those bytes and nothing changed: it never reads the kernel's
    memory for a program. *)
Theorem copy_in_exact ug n va (k k' : kernel St) bs : 0 <= va -> va + Z.of_nat n < 2 ^ 32 ->
  copy_in ug n va k = Ok (Returns bs, k') <->
  k' = k /\ length bs = n /\ forall i x, bs !! i = Some x -> user_byte (kmem_of k) (va + Z.of_nat i) = Some x.
Proof.
  revert va bs k'. induction n as [|n IH]; intros va bs k' Hv Hn; simpl copy_in.
  { split; [intros [= <- <-]; done|]. intros (-> & Hl & _). by destruct bs. }
  assert (va +u 1 = va + 1) as E1 by (apply u32_small; unfold is_u32; lia).
  destruct (Z.leb_spec PHYS_BASE va) as [Hge|Hlt].
  - split; [by intros E%gone_exit|]. intros (-> & Hl & Hb). destruct bs as [|x bs]; [done|].
    specialize (Hb 0%nat x eq_refl). unfold user_byte in Hb. rewrite bool_decide_eq_false_2 in Hb by lia. done.
  - split.
    + intros (x & k1 & (-> & Hx)%get_user_iff & E)%returns_bind; [|lia].
      apply returns_bind in E as (xs & k1 & E & [= <- <-]). rewrite E1 in E.
      apply IH in E as (-> & Hl & Hb); [|lia..]. split; [done|]. split; [by simpl; f_equal|].
      intros [|i] y; simpl; [intros [= <-]; by rewrite Z.add_0_r|]. intros Hy%Hb. rewrite <- Hy. f_equal. lia.
    + intros (-> & Hl & Hb). destruct bs as [|x bs]; [done|]. injection Hl as Hl.
      unfold mbind, SM_bind.
      rewrite (proj2 (get_user_iff ug va k k x ltac:(lia))).
      2:{ split; [done|]. specialize (Hb 0%nat x eq_refl). by rewrite Z.add_0_r in Hb. }
      rewrite (proj2 (IH (va +u 1) bs k ltac:(lia) ltac:(lia))); [done|]. split; [done|]. split; [done|].
      intros i y Hy. specialize (Hb (S i) y Hy). rewrite <- Hb. f_equal. lia.
Qed.

(** ** A program's memory while the kernel works *)
(** The page directory in use is well formed and the pages it maps are allocated. *)
Record active (m : kmem) (pd : Z) : Prop := Active {
  ac_wf : kmem_wf m;
  ac_cr3 : ptov (cr3 m) = Ok pd;
  ac_pd : pd_wf m pd;
  ac_taken : forall va e p, 0 <= va < PHYS_BASE -> mapped m pd va = Some e -> kpage p -> points e p -> taken m p;
}.
(** The pages allocated in [m] are the same in [m']. *)
Definition keeps (m m' : kmem) : Prop := cr3 m' = cr3 m /\ forall p, taken m p -> frames m' !! p = frames m !! p.
Lemma keeps_trans m1 m2 m3 : (forall p, taken m1 p -> taken m2 p) -> keeps m1 m2 -> keeps m2 m3 -> keeps m1 m3.
Proof. intros Ht [E1 F1] [E2 F2]. split; [congruence|]. intros p Hp. rewrite F2, F1; auto. Qed.
Lemma keeps_word m m' p i : keeps m m' -> taken m p -> p mod 4096 = 0 -> 0 <= i < 1024 ->
  word m' (p + 4 * i) = word m (p + 4 * i).
Proof. intros [_ Hk] Hp Hm Hi. rewrite !Pagedir.word_at by done. by rewrite Hk. Qed.
Lemma keeps_pte m m' pd va : active m pd -> keeps m m' -> 0 <= va < PHYS_BASE -> pte_of m' pd va = pte_of m pd va.
Proof.
  intros Ha Hk Hv. destruct (user_split va Hv) as (Hi & Hj & _). pose proof (pd_own _ _ (ac_pd _ _ Ha)) as Ho.
  assert (forall p, own_page m p -> p mod 4096 = 0) as Hmod by (intros p Hp; apply (own_kpage m p (ac_wf _ _ Ha) Hp)).
  unfold pte_of. rewrite (keeps_word m m') by (try apply Ho; auto with lia).
  destruct (pd_entry _ _ (ac_pd _ _ Ha) (pd_no va) Hi) as [->|(e & pt & -> & Hp & Hpt & _)]; [done|].
  destruct (e =? 0); [done|].
  destruct (points_get e pt) as (-> & _); [by apply (own_kpage m pt (ac_wf _ _ Ha))|done|].
  apply (keeps_word m m'); [done|apply Hpt|by apply Hmod|done].
Qed.
Lemma keeps_user_byte m m' pd va x : active m pd -> keeps m m' -> user_byte m va = Some x -> user_byte m' va = Some x.
Proof.
  intros Ha Hk. unfold user_byte. case_bool_decide as Hv; [|done]. unfold mmu.
  destruct Hk as [Hcr Hfr] eqn:EHk. rewrite Hcr, (ac_cr3 _ _ Ha). unfold mapped. rewrite (keeps_pte _ _ _ _ Ha Hk) by done.
  destruct (pte_of m pd va) as [e|] eqn:He; [|done]. destruct (flag e PTE_P) eqn:Hf; [|done].
  assert (mapped m pd va = Some e) as Hmap by (unfold mapped; by rewrite He, Hf).
  destruct (pd_pte _ _ (ac_pd _ _ Ha) va e Hv Hmap) as (p & Hp & Hpt).
  destruct (points_get e p Hp Hpt) as (_ & -> & _). cbn. unfold byte_at.
  assert (pg_round_down (p + pg_ofs va) = p) as ->.
  { destruct Hp as [? ?]. rewrite pg_ofs_eq. rewrite pg_round_down_eq; [dlia|]. unfold is_u32, PHYS_BASE, LOADER_PHYS_BASE in *. dlia. }
  rewrite Hfr by by eapply ac_taken. done.
Qed.
(** The program has the string [l] at [us]. *)
Definition user_string (m : kmem) (us : Z) (l : list Z) : Prop :=
  zlen l < PGSIZE /\ 0 ∉ l /\ Forall is_u8 l /\
  forall i x, (l ++ [0]) !! i = Some x -> user_byte m (us + Z.of_nat i) = Some x.

#[local] Opaque bytes_words words_bytes.
(** A page that holds the bytes [bs]. *)
Definition page_is (m : kmem) (p : Z) (bs : list Z) : Prop :=
  frames m !! p = Some (bytes_words 1024 bs) /\ length bs = 4096%nat /\ Forall is_u8 bs.
Lemma page_words bs : length bs = 4096%nat -> Forall is_u8 bs -> words_bytes (bytes_words 1024 bs) = bs.
Proof. intros. by apply words_bytes_words. Qed.
Lemma in_page p i : kpage p -> 0 <= i < 4096 -> pg_round_down (p + i) = p /\ pg_ofs (p + i) = i.
Proof.
  intros [Hp Hm] Hi. unfold PHYS_BASE, LOADER_PHYS_BASE in *. rewrite pg_ofs_eq, pg_round_down_eq by (unfold is_u32; dlia).
  split; dlia.
Qed.
Lemma page_byte m p bs i : kpage p -> page_is m p bs -> 0 <= i < 4096 -> byte_at m (p + i) = znth bs i.
Proof.
  intros Hp (Hf & Hl & Hb) Hi. unfold byte_at. destruct (in_page p i Hp Hi) as [-> ->]. rewrite Hf. cbn.
  by rewrite page_words.
Qed.
Definition put_page (p : Z) (bs : list Z) (m : kmem) : kmem := set_frames (<[p := bytes_words 1024 bs]> (frames m)) m.
Lemma put_page_is m p bs : length bs = 4096%nat -> Forall is_u8 bs -> page_is (put_page p bs m) p bs.
Proof. intros. split; [|done]. cbn. by rewrite lookup_insert_eq. Qed.
Lemma put_page_keeps m0 m p bs : ~ taken m0 p -> keeps m0 m -> keeps m0 (put_page p bs m).
Proof. intros Hp [E Hk]. split; [done|]. intros q Hq. cbn. rewrite lookup_insert_ne by congruence. by apply Hk. Qed.
Lemma set_kernel_byte_spec p i x bs (k : kernel St) (Q : unit -> kernel St -> Prop) : kpage p -> page_is (kmem_of k) p bs ->
  0 <= i < 4096 -> Q tt (with_mem (put_page p (<[Z.to_nat i := x]> bs) (kmem_of k)) k) -> mwp (set_kernel_byte (p + i) x) k Q.
Proof.
  intros Hp (Hf & Hl & Hb) Hi HQ. unfold set_kernel_byte, page_bytes. destruct (in_page p i Hp Hi) as [-> ->].
  wp_step. wp_step. wp_step. wp_step. apply mwp_lift. rewrite Hf. cbn [deref wp].
  wp_step. rewrite page_words by done. wp_step. apply mwp_lift.
  rewrite zset_Some by (unfold zlen; lia). cbn [deref wp]. exact HQ.
Qed.
Lemma c_load_page p i x bs (k : kernel St) (Q : Z -> kernel St -> Prop) : kpage p -> page_is (kmem_of k) p bs ->
  0 <= i < 4096 -> znth bs i = Some x -> Q x k -> mwp (c_load (p + i)) k Q.
Proof.
  intros Hp Hpg Hi Hx HQ. unfold c_load, p_locate, locate. destruct (in_page p i Hp Hi) as [Er _].
  pose proof Hp as [Hlo _]. unfold is_user_vaddr. rewrite (proj2 (Z.ltb_ge _ _)) by lia. rewrite Er.
  wp_step. wp_step. wp_step. apply mwp_lift. rewrite bool_decide_eq_true_2 by (by destruct Hpg as [-> _]).
  wp_step. wp_step. wp_step. apply wp_ret. apply (kernel_byte_spec _ x); [|done]. by rewrite (page_byte _ _ bs).
Qed.

(** A page that holds a string and then zeros. *)
Definition padded (l : list Z) : list Z := l ++ replicate (4096 - length l) 0.
Lemma padded_ok l : (length l <= 4096)%nat -> Forall is_u8 l -> length (padded l) = 4096%nat /\ Forall is_u8 (padded l).
Proof.
  intros Hl Hb. split; [unfold padded; rewrite length_app, length_replicate; lia|].
  apply Forall_app. split; [done|]. by apply Forall_replicate.
Qed.
Lemma padded_snoc l x : (length l < 4096)%nat -> <[length l := x]> (padded l) = padded (l ++ [x]).
Proof.
  intros Hl. unfold padded. rewrite length_app. simpl. rewrite <- (Nat.add_0_r (length l)) at 1. rewrite insert_app_r, <- app_assoc.
  f_equal. replace (4096 - length l)%nat with (S (4096 - (length l + 1)))%nat by lia. done.
Qed.
Lemma padded_zero l : (length l < 4096)%nat -> padded (l ++ [0]) = padded l /\ znth (padded l) (zlen l) = Some 0.
Proof.
  intros Hl. unfold padded. rewrite length_app, <- app_assoc. simpl. split.
  - f_equal. change (0 :: replicate (4096 - (length l + 1)) 0) with (replicate (S (4096 - (length l + 1))) 0). f_equal. lia.
  - unfold zlen. rewrite znth_lookup by lia. rewrite Nat2Z.id, lookup_app_r, Nat.sub_diag by lia.
    destruct (4096 - length l)%nat eqn:E; [lia|done].
Qed.
Lemma c_string_padded l n : 0 ∉ l -> c_string (l ++ replicate (S n) 0) = Ok l.
Proof.
  induction l as [|x l IH]; simpl; [done|]. intros [Hx Hl]%not_elem_of_cons.
  rewrite (proj2 (Z.eqb_neq x 0)) by done. simpl in IH. by rewrite IH.
Qed.

Lemma user_byte_range m va x : user_byte m va = Some x -> 0 <= va < PHYS_BASE.
Proof. unfold user_byte. by case_bool_decide. Qed.
Lemma get_user_spec ug va x (k : kernel St) (Q : Z -> kernel St -> Prop) : user_byte (kmem_of k) va = Some x -> Q x k ->
  swp (get_user ug va) k Q.
Proof.
  intros Hx HQ. unfold swp. by rewrite (proj2 (get_user_iff ug va k k x (user_byte_range _ _ _ Hx))).
Qed.

Lemma string_loop_spec ug m0 pd p us l : active m0 pd -> kpage p -> ~ taken m0 p -> 0 ∉ l -> Forall is_u8 l ->
  0 <= us -> (forall i x, (l ++ [0]) !! i = Some x -> user_byte m0 (us + Z.of_nat i) = Some x) ->
  forall pre l', pre ++ l' = l -> forall n (k : kernel St), (length l < 4096)%nat -> (length l' < n)%nat ->
  keeps m0 (kmem_of k) -> page_is (kmem_of k) p (padded pre) ->
  swp (string_loop ug n (p + zlen pre) (us + zlen pre)) k (fun c k' => c = p + zlen l /\
    exists m', k' = with_mem m' k /\ keeps m0 m' /\ page_is m' p (padded l)).
Proof.
  intros Ha Hp Hnt H0 H8 Hus Hub pre l'. revert pre. induction l' as [|x l' IH]; intros pre El n k Hl Hn Hk Hpg;
    (destruct n as [|n]; [simpl in Hn; lia|]); simpl.
  - rewrite app_nil_r in El. subst pre. specialize (Hub (length l) 0). rewrite lookup_app_r, Nat.sub_diag in Hub by lia.
    specialize (Hub eq_refl). pose proof (keeps_user_byte _ _ _ _ _ Ha Hk Hub) as Hx.
    apply swp_bind. eapply get_user_spec; [exact Hx|].
    apply swp_bind, swp_pm. eapply set_kernel_byte_spec; [done..|unfold zlen; lia|].
    apply swp_ret. split; [done|]. eexists. split; [done|]. unfold zlen. rewrite Nat2Z.id, padded_snoc by done.
    destruct (padded_zero l Hl) as [-> _]. split; [by apply put_page_keeps|]. destruct (padded_ok l) as [? ?]; [lia|done|]. by apply put_page_is.
  - assert ((l ++ [0]) !! length pre = Some x) as Hix by by rewrite <- El, <- app_assoc, lookup_app_r, Nat.sub_diag by lia.
    pose proof (keeps_user_byte _ _ _ _ _ Ha Hk (Hub _ _ Hix)) as Hx.
    pose proof (user_byte_range _ _ _ Hx) as Hr.
    apply swp_bind. eapply get_user_spec; [exact Hx|].
    assert (length pre < 4096)%nat as Hpl. { rewrite <- El, length_app in Hl. lia. }
    apply swp_bind, swp_pm. eapply set_kernel_byte_spec; [done..|unfold zlen; lia|].
    assert (x ∈ l) as Hxl by (rewrite <- El; apply elem_of_app; right; left).
    assert (x <> 0) as Hx0 by (intros ->; done).
    rewrite (proj2 (Z.eqb_neq x 0)) by done.
    pose proof (proj1 (Forall_forall _ _) H8 x (proj1 (list_elem_of_In _ _) Hxl)) as Hx8.
    assert (p + zlen pre + 1 = p + zlen (pre ++ [x]) /\ (us + zlen pre) +u 1 = us + zlen (pre ++ [x])) as [-> ->].
    { unfold zlen. rewrite length_app. cbn [length]. split; [lia|]. rewrite u32_small; [lia|].
      unfold is_u32, PHYS_BASE, LOADER_PHYS_BASE in *. lia. }
    replace (Z.to_nat (zlen pre)) with (length pre) by (unfold zlen; lia). rewrite padded_snoc by done.
    assert (Forall is_u8 (pre ++ [x])) as Hp8. { rewrite <- El, Forall_app in H8. apply Forall_app. split; [tauto|by constructor]. }
    eapply swp_mono.
    + apply (IH (pre ++ [x])); [by rewrite <- app_assoc|exact Hl|simpl in Hn; lia|apply put_page_keeps; [exact Hnt|exact Hk]|].
      destruct (padded_ok (pre ++ [x])) as [? ?]; [rewrite length_app; simpl; lia|done|]. by apply put_page_is.
    + intros c k' (-> & m' & -> & Hm'). split; [done|]. exists m'. split; [by rewrite with_mem_twice|exact Hm'].
Qed.

(** A zeroed page for the kernel, or none. *)
Lemma zero_page_spec (k : kernel St) : kmem_wf (kmem_of k) ->
  exists ks m', with_pd (fun me _ _ => palloc_get_page me PAL_ZERO) k = Ok (ks, with_mem m' k) /\
    ((ks = NULL /\ m' = kmem_of k /\ forall a, ~ free_run (kernel_pool (kmem_of k)) 1 a) \/
     (kpage ks /\ ~ taken (kmem_of k) ks /\ keeps (kmem_of k) m' /\ page_is m' ks (padded []))).
Proof.
  intros Hk.
  enough (mwp (with_pd (fun me _ _ => palloc_get_page me PAL_ZERO)) k (fun ks k' => exists m', k' = with_mem m' k /\
    ((ks = NULL /\ m' = kmem_of k /\ forall a, ~ free_run (kernel_pool (kmem_of k)) 1 a) \/
     (kpage ks /\ ~ taken (kmem_of k) ks /\ keeps (kmem_of k) m' /\ page_is m' ks (padded []))))) as Hm.
  { apply mwp_ok in Hm as (ks & k' & E & m' & -> & Hm). by exists ks, m'. }
  apply with_pd_spec. apply (palloc_get_multiple_spec _ PAL_ZERO 1); [done|lia|..].
  - intros Hno. split; [done|]. exists (kmem_of k). split; [done|]. left. done.
  - intros a m' Hg. exists m'. split; [done|]. right. pose proof (got_page _ _ _ _ _ _ Hg) as Ha.
    assert (in_block a 1 a) as Hin by (split; [lia|apply Ha]).
    destruct (got_free _ _ _ _ _ _ Hg a Hin) as [_ Hnt]. split; [done|]. split; [done|]. split; [split|].
    + apply (got_pools _ _ _ _ _ _ Hg).
    + intros p Hp. rewrite (got_frames _ _ _ _ _ _ Hg), decide_False; [done|]. intros [_ Hb].
      by apply (got_free _ _ _ _ _ _ Hg) in Hb as [_ ?].
    + destruct (padded_ok []) as [Hl H8]; [simpl; lia|done|]. split; [|done].
      rewrite (got_frames _ _ _ _ _ _ Hg), decide_True by done. f_equal.
Qed.

(** [copy_in_string] copies a string of less than a page, whichever pages of the
    program it lies in, into a fresh page of the kernel and leaves everything that was
    allocated as it was; it fails only when the kernel has no page, and then the
    program exits. *)
Theorem copy_in_string_copies ug us l pd (k : kernel St) : active (kmem_of k) pd -> 0 <= us -> user_string (kmem_of k) us l ->
  ((forall a, ~ free_run (kernel_pool (kmem_of k)) 1 a) /\ copy_in_string ug us k = exit_thread k) \/
  exists ks m', copy_in_string ug us k = Ok (Returns ks, with_mem m' k) /\
    ~ taken (kmem_of k) ks /\ keeps (kmem_of k) m' /\ page_string ks (with_mem m' k) = Ok (l, with_mem m' k).
Proof.
  intros Ha Hus (Hlen & H0 & H8 & Hub). rewrite PGSIZE_eq in Hlen. assert (length l < 4096)%nat as Hl by (unfold zlen in Hlen; lia).
  assert (us < PHYS_BASE) as Hlt.
  { destruct (l ++ [0]) as [|x r] eqn:E; [by destruct l|]. specialize (Hub 0%nat x eq_refl).
    apply user_byte_range in Hub. lia. }
  destruct (zero_page_spec k (ac_wf _ _ Ha)) as (ks & m1 & E1 & [(-> & -> & Hno)|(Hp & Hnt & Hk & Hpg)]).
  { left. split; [done|]. unfold copy_in_string. rewrite with_mem_same in E1.
    assert (copy_page us k = exit_thread k) as E by (unfold copy_page; by erewrite sm_bind_ok by exact (pm_ok _ _ _ _ E1)).
    erewrite sm_bind_same by exact E. apply exit_bind. }
  right. pose proof (string_loop_spec ug (kmem_of k) pd ks us l Ha Hp Hnt H0 H8 Hus Hub [] l eq_refl (Z.to_nat PGSIZE)
    (with_mem m1 k) Hl) as Hloop.
  rewrite !Z.add_0_r in Hloop. specialize (Hloop ltac:(rewrite PGSIZE_eq; lia) Hk Hpg).
  apply swp_ok in Hloop as (c & k2 & E2 & -> & m' & -> & Hk' & Hpg'). rewrite with_mem_twice in E2.
  exists ks, m'. destruct (padded_zero l Hl) as [_ Hz].
  assert (0 <= zlen l < 4096) as Hzl by (unfold zlen; lia).
  pose proof (c_load_page ks (zlen l) 0 (padded l) (with_mem m' k) (fun x k3 => x = 0 /\ k3 = with_mem m' k)
    Hp Hpg' Hzl Hz (conj eq_refl eq_refl)) as Hc.
  apply mwp_ok in Hc as (x & k3 & E3 & -> & ->). split; [|split; [done|split; [done|]]].
  - unfold copy_in_string. erewrite sm_bind_ok.
    2:{ unfold copy_page. erewrite sm_bind_ok by exact (pm_ok _ _ _ _ E1).
        rewrite (proj2 (Z.eqb_neq ks NULL)) by (destruct Hp; unfold NULL, PHYS_BASE, LOADER_PHYS_BASE in *; lia).
        by rewrite (proj2 (Z.leb_gt PHYS_BASE us)) by lia. }
    erewrite sm_bind_ok by exact E2. by erewrite sm_bind_ok by exact (pm_ok _ _ _ _ E3).
  - destruct Hpg' as (Hf & Hl' & H8'). change (frames (kmem_of (with_mem m' k)) !! ks = Some (bytes_words 1024 (padded l))) in Hf.
    unfold page_string, page_bytes, mbind, M_bind, get, lift. rewrite Hf. cbn [deref]. unfold mret at 1, M_ret.
    rewrite page_words by done. unfold padded. destruct (4096 - length l)%nat eqn:En; [lia|]. by rewrite c_string_padded.
Qed.
End memory.

(** A program with one page, at 0x8048000, that begins with a string. *)
Definition ex_string : list Z := [108; 115; 32; 45; 108].
Definition ex_user_mem : kmem :=
  match pagedir_set_page 1 0xc0103000 0x40000 ex_pd 0x8048000 0xc0105000 true ex_paged with
  | Ok (_, m) => set_cr3 (ex_pd - PHYS_BASE) (set_user_pool (Pool None (Bitmap 4 [2]) 0xc0104000)
      (set_frames (<[0xc0105000 := bytes_words 1024 (ex_string ++ replicate 4091 0)]> (frames m)) m))
  | _ => ex_paged
  end.
Definition ex_user : kernel flat_store := with_mem ex_user_mem ex_kernel.
Lemma copy_in_exact_witness : copy_in false 3 0x8048001 ex_user = Ok (Returns [115; 32; 45], ex_user).
Proof.
  apply (copy_in_exact false 3 0x8048001 ex_user ex_user [115; 32; 45]); [lia|lia|]. split; [done|]. split; [done|].
  intros i x Hi. destruct i as [|[|[|]]]; simplify_eq/=; vm_compute; reflexivity.
Defined.

Definition ex_pt : Z := 0xc0101000.
Lemma seqZ_forall (f : Z -> bool) n i : forallb f (seqZ 0 n) = true -> 0 <= i < n -> f i = true.
Proof. intros Hf Hi. rewrite forallb_forall in Hf. apply Hf, list_elem_of_In, elem_of_seqZ. lia. Qed.
Definition word_is (p i v : Z) : bool := bool_decide (word ex_user_mem (p + 4 * i) = Some v).
Lemma word_is_true p i v : word_is p i v = true -> word ex_user_mem (p + 4 * i) = Some v.
Proof. apply bool_decide_eq_true. Qed.
Lemma ex_pd_words i : 0 <= i < 768 -> word ex_user_mem (ex_pd + 4 * i) = Some (if i =? 32 then 0x101007 else 0).
Proof.
  intros Hi. apply word_is_true. apply (seqZ_forall (fun i => word_is ex_pd i (if i =? 32 then 0x101007 else 0)) 768); [|done].
  vm_compute. reflexivity.
Qed.
Lemma ex_pt_words i : 0 <= i < 1024 -> word ex_user_mem (ex_pt + 4 * i) = Some (if i =? 72 then 0x105007 else 0).
Proof.
  intros Hi. apply word_is_true. apply (seqZ_forall (fun i => word_is ex_pt i (if i =? 72 then 0x105007 else 0)) 1024); [|done].
  vm_compute. reflexivity.
Qed.
Lemma ex_user_wf : kmem_wf ex_user_mem.
Proof.
  assert (Hp : forall user, pool_wf (pool_of user ex_user_mem)).
  { intros [|]; (split; [|reflexivity|split; [vm_compute; split; [discriminate|reflexivity]|reflexivity]|vm_compute; discriminate]);
      (split; [vm_compute; split; [discriminate|reflexivity]|reflexivity|]); repeat constructor; vm_compute; discriminate || reflexivity. }
  split; [exact Hp|vm_compute; discriminate|]. intros user. apply frames_ok_sound; [apply Hp|].
  destruct user; vm_compute; reflexivity.
Qed.
Lemma ex_own p : p = ex_pd \/ p = ex_pt -> own_page ex_user_mem p.
Proof.
  intros [-> | ->]; (split; [split; [vm_compute; split; [discriminate|reflexivity]|reflexivity]|]);
    exists false; (split; [split; [vm_compute; split; [discriminate|reflexivity]|reflexivity]|vm_compute; reflexivity]).
Qed.
Lemma ex_pde_points : points 0x101007 ex_pt.
Proof. exists 7. split; [reflexivity|]. split; [lia|discriminate]. Qed.
Lemma ex_page_points : points 0x105007 0xc0105000.
Proof. exists 7. split; [reflexivity|]. split; [lia|discriminate]. Qed.
Lemma ex_user_page : kpage 0xc0105000.
Proof. split; [unfold PHYS_BASE, LOADER_PHYS_BASE; lia|reflexivity]. Qed.
(** The one address of a page of this program. *)
Lemma ex_mapped va e : 0 <= va < PHYS_BASE -> mapped ex_user_mem ex_pd va = Some e -> e = 0x105007.
Proof.
  intros Hv. destruct (user_split va Hv) as (Hi & Hj & _). unfold mapped, pte_of. rewrite ex_pd_words by done.
  destruct (pd_no va =? 32); [|done]. cbn [Z.eqb Pos.eqb]. change (pde_get_pt 0x101007) with (@Ok Z ex_pt). cbv iota.
  rewrite ex_pt_words by done. destruct (pt_no va =? 72); [|done]. by intros [= <-].
Qed.
Lemma ex_active : active ex_user_mem ex_pd.
Proof.
  pose proof (ex_own ex_pd (or_introl eq_refl)) as Hpd. pose proof (ex_own ex_pt (or_intror eq_refl)) as Hpt.
  split; [exact ex_user_wf|vm_compute; reflexivity|split|].
  - exact Hpd.
  - intros i Hi. rewrite ex_pd_words by done. destruct (i =? 32); [|by left]. right. exists 0x101007, ex_pt.
    split; [done|]. split; [exact ex_pde_points|]. split; [exact Hpt|discriminate].
  - intros i j e e' pt Hi Hj. rewrite !ex_pd_words by done. intros [= <-] [= <-] Ho Hp Hp'.
    pose proof (own_kpage _ _ ex_user_wf Ho) as Hk.
    destruct (points_get _ _ Hk Hp) as (_ & _ & _ & H1 & _). destruct (points_get _ _ Hk Hp') as (_ & _ & _ & H2 & _).
    destruct (Z.eqb_spec i 32), (Z.eqb_spec j 32); congruence.
  - intros va e Hv ->%ex_mapped; [|done]. exists 0xc0105000. split; [exact ex_user_page|exact ex_page_points].
  - intros va e p Hv ->%ex_mapped Hp Hpts; [|done].
    rewrite (points_inj _ _ _ Hp ex_user_page Hpts ex_page_points). exists true.
    split; [split; [vm_compute; split; [discriminate|reflexivity]|reflexivity]|vm_compute; reflexivity].
Qed.
Lemma copy_in_string_copies_witness :
  exists ks m', copy_in_string false 0x8048000 ex_user = Ok (Returns ks, with_mem m' ex_user) /\
    page_string ks (with_mem m' ex_user) = Ok (ex_string, with_mem m' ex_user).
Proof.
  destruct (copy_in_string_copies false 0x8048000 ex_string ex_pd ex_user) as [[Hno _]|(ks & m' & E & _ & _ & Hs)].
  - exact ex_active.
  - lia.
  - split; [reflexivity|]. split; [apply (bool_decide_eq_true_1 (0 ∉ ex_string)); reflexivity|].
    split; [repeat constructor; unfold is_u8; lia|].
    intros i x Hi. destruct i as [|[|[|[|[|[|i]]]]]]; simplify_eq/=; vm_compute; reflexivity.
  - exfalso. apply (Hno 0xc0102000). split; [reflexivity|]. split; [vm_compute; discriminate|]. split; [vm_compute; discriminate|].
    intros q [Hq Hm]. assert (q = 0xc0102000) as -> by dlia. vm_compute. reflexivity.
  - exists ks, m'. split; [exact E|exact Hs].
Defined.
