(* ===== verification/Arith.v ===== *)
(** * Arith: 64-bit division (lib/arithmetic.c)

    The routines the compiler calls for [/] and [%] on 64-bit integers, built on an
    instruction that divides 64 bits by 32.  [udiv64] estimates the quotient from the
    upper 32 bits of the divisor and corrects it by at most one. *)
From S2P Require Import Prelude.

(** The instruction [divl]; a quotient that does not fit, and a division by zero, raise
    the divide error, on which the kernel stops. *)
Definition divl (n d : Z) : res Z := if (d =? 0) || (2 ^ 32 <=? n / d) then Panic else Ok (n / d).
(** [n / d] and [n % d] on 32 bits. *)
Definition div32 (n d : Z) : res Z := if d =? 0 then Panic else Ok (n / d).
Definition mod32 (n d : Z) : res Z := if d =? 0 then Panic else Ok (n mod d).

(** One test of [nlz]. *)
Definition nlz_step (bound k : Z) (s : Z * Z) : Z * Z :=
  let '(n, x) := s in if x <=? bound then (n + k, u32 (Z.shiftl x k)) else (n, x).
Definition nlz (x : Z) : Z :=
  let s := nlz_step 65535 16 (0, x) in
  let s := nlz_step 16777215 8 s in
  let s := nlz_step 268435455 4 s in
  let s := nlz_step 1073741823 2 s in
  let '(n, x) := s in if x <=? 2147483647 then n + 1 else n.

Definition udiv64 (n d : Z) : res Z :=
  if Z.shiftr d 32 =? 0 then
    let b := 2 ^ 32 in
    let n1 := u32 (Z.shiftr n 32) in
    let n0 := u32 n in
    let d0 := u32 d in
    r ← mod32 n1 d0;
    low ← divl (u64 (u64 (b * r) + n0)) d0;
    high ← div32 n1 d0;
    mret (u64 (low + u64 (b * high)))
  else if n <? d then mret 0
  else
    let d1 := u32 (Z.shiftr d 32) in
    let s := nlz d1 in
    q ← divl (Z.shiftr n 1) (u32 (Z.shiftr (u64 (Z.shiftl d s)) 32));
    let q := Z.shiftr q (31 - s) in
    mret (if u64 (n - u64 (u64 (q - 1) * d)) <? d then u64 (q - 1) else q).
(** The result is a [uint32_t]. *)
Definition umod64 (n d : Z) : res Z := q ← udiv64 n d; mret (u32 (u64 (n - u64 (d * q)))).
Definition sdiv64 (n d : Z) : res Z :=
  let n_abs := if 0 <=? n then u64 n else u64 (- n) in
  let d_abs := if 0 <=? d then u64 d else u64 (- d) in
  q_abs ← udiv64 n_abs d_abs;
  mret (if Bool.eqb (n <? 0) (d <? 0) then s64 q_abs else s64 (- s64 q_abs)).
(** The result is an [int32_t]. *)
Definition smod64 (n d : Z) : res Z := q ← sdiv64 n d; mret (s32 (s64 (n - s64 (d * q)))).

Definition __divdi3 (n d : Z) : res Z := sdiv64 n d.
Definition __moddi3 (n d : Z) : res Z := r ← smod64 n d; mret r.
Definition __udivdi3 (n d : Z) : res Z := udiv64 n d.
Definition __umoddi3 (n d : Z) : res Z := r ← umod64 n d; mret r.

(** ** The number of leading zeros *)
Lemma nlz_step_spec bound k n x : 0 <= k <= 16 -> bound = 2 ^ (32 - k) - 1 -> 2 ^ (32 - 2 * k) <= x < 2 ^ 32 ->
  exists n' x', nlz_step bound k (n, x) = (n', x') /\ n <= n' <= n + k /\ 2 ^ (32 - k) <= x' < 2 ^ 32 /\ x' = x * 2 ^ (n' - n).
Proof.
  intros Hk -> Hx. unfold nlz_step. destruct (Z.leb_spec x (2 ^ (32 - k) - 1)).
  - assert (Hp : 2 ^ (32 - 2 * k) * 2 ^ k = 2 ^ (32 - k)) by (rewrite <- Z.pow_add_r by lia; f_equal; lia).
    assert (Hq : 2 ^ (32 - k) * 2 ^ k = 2 ^ 32) by (rewrite <- Z.pow_add_r by lia; f_equal; lia).
    assert (0 < 2 ^ k) by (apply Z.pow_pos_nonneg; lia).
    eexists _, _; split; [done|]. rewrite Z.shiftl_mul_pow2 by lia.
    rewrite u32_small by (unfold is_u32; nia). replace (n + k - n) with k by lia. split; [lia|]. split; [nia|done].
  - eexists _, _; split; [done|]. rewrite Z.sub_diag. lia.
Qed.
Lemma nlz_spec x : 0 < x < 2 ^ 32 -> 0 <= nlz x <= 31 /\ 2 ^ 31 <= x * 2 ^ nlz x < 2 ^ 32.
Proof.
  intros Hx. unfold nlz.
  destruct (nlz_step_spec 65535 16 0 x) as (n1 & x1 & -> & Hn1 & Hb1 & E1); [lia|done|change (32 - 2 * 16) with 0; lia|].
  destruct (nlz_step_spec 16777215 8 n1 x1) as (n2 & x2 & -> & Hn2 & Hb2 & E2); [lia|done|exact Hb1|].
  destruct (nlz_step_spec 268435455 4 n2 x2) as (n3 & x3 & -> & Hn3 & Hb3 & E3); [lia|done|exact Hb2|].
  destruct (nlz_step_spec 1073741823 2 n3 x3) as (n4 & x4 & -> & Hn4 & Hb4 & E4); [lia|done|exact Hb3|].
  assert (E : x4 = x * 2 ^ n4).
  { subst x4 x3 x2 x1. rewrite <- !Z.mul_assoc, <- !Z.pow_add_r by lia. do 2 f_equal. lia. }
  rewrite E in *. change (2 ^ (32 - 2)) with (2 ^ 30) in Hb4. destruct (Z.leb_spec (x * 2 ^ n4) 2147483647).
  - rewrite Z.pow_add_r by lia. change (2 ^ 1) with 2. split; [|lia].
    assert (n4 <= 30); [|lia]. destruct (Z.le_gt_cases n4 30); [done|].
    pose proof (Z.pow_le_mono_r 2 31 n4). nia.
  - split; [|lia]. assert (n4 <= 31); [|lia]. destruct (Z.le_gt_cases n4 31); [done|].
    pose proof (Z.pow_le_mono_r 2 32 n4). nia.
Qed.

(** ** The quotient *)
(** A divisor with its low [e] bits cleared, [D], gives a quotient at most one too
    large, when the divisor fills [32 + e] bits and [n] has 64. *)
Lemma estimate n d D e : 1 <= e <= 32 -> 0 <= n < 2 ^ 64 -> 2 ^ (31 + e) <= D -> D <= d < D + 2 ^ e -> d <= n ->
  n / d <= n / D <= n / d + 1.
Proof.
  intros He Hn HD Hd Hdn. assert (0 < 2 ^ (31 + e)) by (apply Z.pow_pos_nonneg; lia).
  split; [apply Z.div_le_compat_l; lia|].
  pose proof (Z.div_mod n d) as E1. pose proof (Z.mod_pos_bound n d) as B1.
  pose proof (Z.div_mod n D) as E2. pose proof (Z.mod_pos_bound n D) as B2.
  set (Q := n / d) in *. set (q := n / D) in *. destruct (Z.le_gt_cases q (Q + 1)); [done|exfalso].
  assert (H1 : D < (Q + 1) * (d - D)) by nia.
  set (x := 2 ^ e) in *. assert (Ex : 2 ^ (31 + e) = 2 ^ 31 * x) by (apply Z.pow_add_r; lia).
  assert (Ey : 2 ^ (33 - e) * x = 2 ^ 33) by (unfold x; rewrite <- Z.pow_add_r by lia; f_equal; lia).
  set (y := 2 ^ (33 - e)) in *. rewrite Ex in *.
  assert (2 <= x) by (unfold x; change 2 with (2 ^ 1) at 1; apply Z.pow_le_mono_r; lia).
  assert (HQ : Q < y) by (assert (Q * (2 ^ 31 * x) < 2 ^ 64) by nia; nia).
  assert (H4 : 2 ^ 31 * x < y * (x - 1)) by nia. assert (2 ^ 31 * x * x < 2 ^ 33 * (x - 1)) by nia. nia.
Qed.

Lemma divl_spec n d (Q : Z -> Prop) : 0 < d -> n / d < 2 ^ 32 -> Q (n / d) -> wp (divl n d) Q.
Proof.
  intros Hd Hq HQ. unfold divl. rewrite (proj2 (Z.eqb_neq d 0)), (proj2 (Z.leb_gt _ _)) by lia. exact HQ.
Qed.
Lemma correction n d q : 0 < d -> 0 <= n < 2 ^ 64 -> d <= n -> n / d <= q <= n / d + 1 ->
  (if u64 (n - u64 (u64 (q - 1) * d)) <? d then u64 (q - 1) else q) = n / d.
Proof.
  intros Hd Hn Hdn Hq. pose proof (Z.div_mod n d). pose proof (Z.mod_pos_bound n d).
  assert (1 <= n / d) by (apply Z.div_le_lower_bound; lia).
  set (Q := n / d) in *. set (r := n mod d) in *.
  assert (Q <= n) by nia. rewrite (u64_small (q - 1)) by (unfold is_u64; lia).
  rewrite (u64_small ((q - 1) * d)) by (unfold is_u64; nia). rewrite u64_small by (unfold is_u64; nia).
  destruct (Z.ltb_spec (n - (q - 1) * d) d); nia.
Qed.
Lemma shift_down n k : 0 <= k -> Z.shiftr n k = n / 2 ^ k.
Proof. apply Z.shiftr_div_pow2. Qed.

Lemma udiv64_small n d : is_u64 n -> 0 < d < 2 ^ 32 -> udiv64 n d = Ok (n / d).
Proof.
  intros Hn Hd. unfold is_u64 in Hn. apply wp_eq. unfold udiv64. rewrite !shift_down, (Z.div_small d), Z.eqb_refl by lia.
  assert (Hn1 : 0 <= n / 2 ^ 32 < 2 ^ 32) by (split; [apply Z.div_pos|apply Z.div_lt_upper_bound]; lia).
  rewrite (u32_small (n / _)) by done. rewrite (u32_small d) by (unfold is_u32; lia).
  set (n1 := n / 2 ^ 32) in *. set (n0 := u32 n).
  assert (E : n = 2 ^ 32 * n1 + n0) by (apply Z.div_mod; lia). pose proof (u32_range n) as Hn0. fold n0 in Hn0. unfold is_u32 in Hn0.
  pose proof (Z.mod_pos_bound n1 d ltac:(lia)). pose proof (Z.div_mod n1 d ltac:(lia)).
  unfold mod32, div32. rewrite (proj2 (Z.eqb_neq d 0)) by lia. apply wp_bind, wp_ret.
  rewrite (u64_small (_ * _)), (u64_small (_ + n0)) by (unfold is_u64; nia).
  assert (Hlow : 2 ^ 32 * (n1 mod d) + n0 < 2 ^ 32 * d) by nia.
  apply wp_bind, divl_spec; [lia|apply Z.div_lt_upper_bound; lia|]. apply wp_bind, wp_ret, wp_ret.
  assert (E2 : n / d = (2 ^ 32 * (n1 mod d) + n0) / d + 2 ^ 32 * (n1 / d)).
  { rewrite <- Z.div_add by lia. f_equal. nia. }
  assert (n1 / d <= n1) by (apply Z.div_le_upper_bound; nia).
  assert (0 <= n1 / d) by (apply Z.div_pos; lia). rewrite (u64_small (_ * (n1 / d))) by (unfold is_u64; nia).
  rewrite <- E2. apply u64_small. split; [apply Z.div_pos; lia|]. apply Z.le_lt_trans with n; [apply Z.div_le_upper_bound; nia|lia].
Qed.

Lemma udiv64_large n d : is_u64 n -> 2 ^ 32 <= d < 2 ^ 64 -> udiv64 n d = Ok (n / d).
Proof.
  intros Hn Hd. unfold is_u64 in Hn. apply wp_eq. unfold udiv64. rewrite (shift_down d 32) by lia.
  assert (Hd1 : 0 < d / 2 ^ 32 < 2 ^ 32) by (split; [apply Z.div_str_pos; lia|apply Z.div_lt_upper_bound; lia]).
  rewrite (proj2 (Z.eqb_neq _ 0)) by lia.
  destruct (Z.ltb_spec n d) as [Hnd|Hnd]; [apply wp_ret; symmetry; apply Z.div_small; lia|].
  rewrite u32_small by (unfold is_u32; lia). set (d1 := d / 2 ^ 32) in *.
  destruct (nlz_spec d1 Hd1) as [Hs Hds]. set (k := nlz d1) in *. set (e := 32 - k).
  assert (He : 2 ^ e * 2 ^ k = 2 ^ 32) by (unfold e; rewrite <- Z.pow_add_r by lia; f_equal; lia).
  assert (0 < 2 ^ k) by (apply Z.pow_pos_nonneg; lia). assert (0 < 2 ^ e) by (apply Z.pow_pos_nonneg; lia).
  assert (Hdd : 2 ^ 32 * d1 <= d < 2 ^ 32 * d1 + 2 ^ 32).
  { unfold d1. pose proof (Z.div_mod d (2 ^ 32)). pose proof (Z.mod_pos_bound d (2 ^ 32)). lia. }
  assert (Hlt : d * 2 ^ k < 2 ^ 64) by nia.
  rewrite Z.shiftl_mul_pow2, (u64_small (d * _)), (shift_down (d * _) 32) by (unfold is_u64; nia || lia).
  assert (Ev : d * 2 ^ k / 2 ^ 32 = d / 2 ^ e) by (rewrite <- He; apply Z.div_mul_cancel_r; lia). rewrite Ev.
  set (v := d / 2 ^ e) in *.
  assert (Hv : 2 ^ e * v <= d < 2 ^ e * v + 2 ^ e).
  { unfold v. pose proof (Z.div_mod d (2 ^ e)). pose proof (Z.mod_pos_bound d (2 ^ e)). lia. }
  assert (Hv31 : 2 ^ 31 <= v < 2 ^ 32).
  { rewrite <- Ev. split; [apply Z.div_le_lower_bound; nia|apply Z.div_lt_upper_bound; lia]. }
  rewrite (u32_small v) by (unfold is_u32; lia). rewrite (shift_down n 1) by lia.
  assert (n / 2 ^ 1 < 2 ^ 63) by (apply Z.div_lt_upper_bound; lia).
  apply wp_bind, divl_spec; [lia|apply Z.div_lt_upper_bound; nia|]. apply wp_ret.
  rewrite shift_down by lia.
  assert (Ep : 2 ^ 1 * v * 2 ^ (31 - k) = 2 ^ e * v).
  { unfold e. replace (32 - k) with (1 + (31 - k)) by lia. rewrite Z.pow_add_r by lia. lia. }
  assert (0 < 2 ^ (31 - k)) by (apply Z.pow_pos_nonneg; lia).
  assert (Eq : n / 2 ^ 1 / v / 2 ^ (31 - k) = n / (2 ^ e * v)) by (rewrite <- Ep, (Z.div_div n), Z.div_div by lia; done).
  rewrite Eq. apply correction; [lia|lia|lia|].
  apply (estimate _ _ _ e); [lia|lia| |lia|lia].
  rewrite Z.pow_add_r by lia. nia.
Qed.
Lemma udiv64_exact n d : is_u64 n -> is_u64 d -> d <> 0 -> udiv64 n d = Ok (n / d).
Proof.
  intros Hn Hd Hd0. unfold is_u64 in Hd. destruct (Z.lt_ge_cases d (2 ^ 32)); [apply udiv64_small|apply udiv64_large]; lia || done.
Qed.
(** Division by zero raises the divide error. *)
Lemma udiv64_zero n : udiv64 n 0 = Panic.
Proof. reflexivity. Qed.

(** ** The routines the compiler calls *)
Definition is_s64 (z : Z) : Prop := - 2 ^ 63 <= z < 2 ^ 63.
(** [__udivdi3] is unsigned division of 64-bit integers, by any divisor but zero;
    [__umoddi3] yields the remainder only modulo [2 ^ 32]. *)
Theorem udivdi3_divides n d : is_u64 n -> is_u64 d -> d <> 0 ->
  __udivdi3 n d = Ok (n / d) /\ __umoddi3 n d = Ok (u32 (n mod d)).
Proof.
  intros Hn Hd Hd0. unfold __udivdi3, __umoddi3, umod64. rewrite udiv64_exact by done. split; [done|].
  unfold is_u64 in *. assert (0 <= n / d) by (apply Z.div_pos; lia). assert (d * (n / d) <= n) by (apply Z.mul_div_le; lia).
  cbn. rewrite (u64_small (d * _)), <- Z.mod_eq by (unfold is_u64; nia). do 2 f_equal.
  apply u64_small. pose proof (Z.mod_pos_bound n d). unfold is_u64. lia.
Qed.
(** Seventeen divided into [2 ^ 64 - 1], and a remainder that does not fit. *)
Lemma udivdi3_divides_witness :
  __udivdi3 (2 ^ 64 - 1) (2 ^ 40 + 3) = Ok 16777215 /\ __umoddi3 (2 ^ 64 - 1) (2 ^ 40 + 3) = Ok (u32 ((2 ^ 64 - 1) mod (2 ^ 40 + 3))).
Proof. apply (udivdi3_divides (2 ^ 64 - 1) (2 ^ 40 + 3)); unfold is_u64; lia. Defined.

Lemma s64_off z : exists k, s64 z = z + k * 2 ^ 64.
Proof. exists (- ((z + 2 ^ 63) / 2 ^ 64)). unfold s64. dlia. Qed.
Lemma s64_shift z k : s64 (z + k * 2 ^ 64) = s64 z.
Proof. unfold s64. replace (z + k * 2 ^ 64 + 2 ^ 63) with (z + 2 ^ 63 + k * 2 ^ 64) by lia. by rewrite Z.mod_add. Qed.
Lemma s64_small z : is_s64 z -> s64 z = z.
Proof. intros H. unfold is_s64, s64 in *. rewrite Z.mod_small; lia. Qed.
Lemma u64_opp z : is_s64 z -> (if 0 <=? z then u64 z else u64 (- z)) = Z.abs z.
Proof. intros H. unfold is_s64 in H. destruct (Z.leb_spec 0 z); apply eq_trans with (Z.abs z); try lia;
  [rewrite u64_small|rewrite u64_small]; unfold is_u64; lia. Qed.
Lemma quot_by_abs n d : d <> 0 ->
  n ÷ d = if Bool.eqb (n <? 0) (d <? 0) then Z.abs n / Z.abs d else - (Z.abs n / Z.abs d).
Proof.
  intros Hd. rewrite Z.quot_div by done.
  destruct (Z.ltb_spec n 0), (Z.ltb_spec d 0); cbn [Bool.eqb];
    repeat first [rewrite Z.sgn_neg by lia|rewrite (Z.sgn_pos d) by lia]; try lia;
    (destruct (Z.eq_dec n 0) as [->|]; [rewrite Z.sgn_0, Z.div_0_l by lia; lia|rewrite (Z.sgn_pos n) by lia; lia]).
Qed.
(** [__divdi3] is signed division of 64-bit integers rounding to zero (the one
    quotient that does not fit wraps around); [__moddi3] yields the remainder only
    modulo [2 ^ 32]. *)
Theorem divdi3_quot n d : is_s64 n -> is_s64 d -> d <> 0 ->
  __divdi3 n d = Ok (s64 (n ÷ d)) /\ __moddi3 n d = Ok (s32 (s64 (Z.rem n d))).
Proof.
  intros Hn Hd Hd0.
  assert (E : sdiv64 n d = Ok (s64 (n ÷ d))).
  { unfold sdiv64. rewrite !u64_opp by done. unfold is_s64 in *. rewrite udiv64_exact; [|unfold is_u64; lia|unfold is_u64; lia|lia].
    cbn. rewrite quot_by_abs by done. destruct (Bool.eqb _ _); [done|]. apply (f_equal Ok).
    destruct (s64_off (Z.abs n / Z.abs d)) as (k & ->). rewrite <- (s64_shift (- (Z.abs n / Z.abs d + k * 2 ^ 64)) k). f_equal. lia. }
  unfold __divdi3, __moddi3, smod64. rewrite E. split; [done|]. cbn. apply (f_equal (fun x => Ok (s32 x))).
  pose proof (Z.quot_rem n d Hd0) as E2. replace (Z.rem n d) with (n - d * (n ÷ d)) by lia.
  destruct (s64_off (n ÷ d)) as (k & ->). destruct (s64_off (d * (n ÷ d + k * 2 ^ 64))) as (k2 & ->).
  rewrite <- (s64_shift _ (d * k + k2)). f_equal. lia.
Qed.
(** The quotient of the least integer by minus one, which has no value in C. *)
Lemma divdi3_quot_witness :
  __divdi3 (- 2 ^ 63) (-1) = Ok (s64 ((- 2 ^ 63) ÷ (-1))) /\ __moddi3 (- 2 ^ 63) (-1) = Ok (s32 (s64 (Z.rem (- 2 ^ 63) (-1)))).
Proof. apply (divdi3_quot (- 2 ^ 63) (-1)); unfold is_s64; lia. Defined.
