(* ===== verification/Sort.v ===== *)
(** * Sort: arrays (lib/stdlib.c)

    [sort] is a heap sort of [cnt] elements of [size] bytes in place, [binary_search] a
    search of such an array; [qsort] and [bsearch] pass them a comparison without
    auxiliary data.  An array is its bytes; the comparison is a function of the bytes of
    two elements, and its result is of the kind of [strcmp].  Also [atoi]. *)
From stdpp Require Import sorting.
From S2P Require Import Prelude.

(** ** The code *)
Section sort.
(** What the caller's function (with its [aux]) computes from two elements. *)
Variable compare : list Z -> list Z -> Z.

(** [a] and [b] are the offsets of the two elements. *)
Definition swap_byte (a b i : Z) (array : list Z) : res (list Z) :=
  t ← deref (znth array (a +u i));
  x ← deref (znth array (b +u i));
  array ← deref (zset array (a +u i) x);
  deref (zset array (b +u i) t).
Definition do_swap (array : list Z) (a_idx b_idx size : Z) : res (list Z) :=
  let a := (a_idx -u 1) *u size in
  let b := (b_idx -u 1) *u size in
  for_range (Z.to_nat size) 0 (swap_byte a b) array.
Definition do_compare (array : list Z) (a_idx b_idx size : Z) : res Z :=
  a ← deref (zslice array ((a_idx -u 1) *u size) size);
  b ← deref (zslice array ((b_idx -u 1) *u size) size);
  mret (compare a b).
Definition larger (array : list Z) (child max cnt size : Z) : res Z :=
  if child <=? cnt then
    c ← do_compare array child max size; mret (if 0 <? c then child else max)
  else mret max.
Definition heapify_body (cnt size : Z) (s : list Z * Z) : res (list Z * Z + list Z) :=
  let '(array, i) := s in
  let left := 2 *u i in
  let right := 2 *u i +u 1 in
  max ← larger array left i cnt size;
  max ← larger array right max cnt size;
  if max =? i then mret (inr array)
  else array ← do_swap array i max size; mret (inl (array, max)).
(** The index doubles with every turn. *)
Definition heapify (array : list Z) (i cnt size : Z) : res (list Z) :=
  loop (S (Z.to_nat cnt)) (heapify_body cnt size) (array, i).
(** [for (i = n; i > 0; i--)] *)
Fixpoint build_heap (n : nat) (cnt size : Z) (array : list Z) : res (list Z) :=
  match n with
  | O => mret array
  | S n' => array ← heapify array (Z.of_nat n) cnt size; build_heap n' cnt size array
  end.
(** [for (i = n + 1; i > 1; i--)] *)
Fixpoint sort_heap (n : nat) (size : Z) (array : list Z) : res (list Z) :=
  match n with
  | O => mret array
  | S n' =>
      let i := Z.of_nat n + 1 in
      array ← do_swap array 1 i size;
      array ← heapify array 1 (i - 1) size; sort_heap n' size array
  end.
(** A null [array] is [None].  [compare] is not null: it is a function. *)
Definition sort (array : option (list Z)) (cnt size : Z) : res (option (list Z)) :=
  _ ← ASSERT (bool_decide (array <> None) || (cnt =? 0));
  _ ← ASSERT (0 <? size);
  match array with
  | None => mret None
  | Some array =>
      array ← build_heap (Z.to_nat (cnt / 2)) cnt size array;
      array ← sort_heap (Z.to_nat (cnt - 1)) size array;
      mret (Some array)
  end.

(** [first] and [last] are offsets in the array; so is the result. *)
Definition search_body (key array : list Z) (size : Z) (s : Z * Z) : res (Z * Z + option Z) :=
  let '(first, last) := s in
  if first <? last then
    let range := (last - first) / size in
    let middle := first + range / 2 * size in
    m ← deref (zslice array middle size);
    let cmp := compare key m in
    if cmp <? 0 then mret (inl (first, middle))
    else if 0 <? cmp then mret (inl (middle + size, last))
    else mret (inr (Some middle))
  else mret (inr None).
Definition binary_search (key array : list Z) (cnt size : Z) : res (option Z) :=
  loop (S (Z.to_nat cnt)) (search_body key array size) (0, size *u cnt).
End sort.
(** [compare_thunk] drops [aux]. *)
Definition compare_thunk (compare : list Z -> list Z -> Z) (a b : list Z) : Z := compare a b.
Definition qsort (array : option (list Z)) (cnt size : Z) (compare : list Z -> list Z -> Z) : res (option (list Z)) :=
  sort (compare_thunk compare) array cnt size.
Definition bsearch (key array : list Z) (cnt size : Z) (compare : list Z -> list Z -> Z) : res (option Z) :=
  binary_search (compare_thunk compare) key array cnt size.

(** ** The elements of an array *)
(** The bytes of an array of elements [es], numbered from one. *)
Definition at_ (es : list (list Z)) (i : Z) : list Z := nth (Z.to_nat (i - 1)) es [].
Definition exchange (es : list (list Z)) (a b : Z) : list (list Z) :=
  <[Z.to_nat (b - 1) := at_ es a]> (<[Z.to_nat (a - 1) := at_ es b]> es).
Record array_of (size : Z) (es : list (list Z)) (array : list Z) : Prop := ArrayOf {
  ao_bytes : array = concat es;
  ao_size : Forall (fun e : list Z => zlen e = size) es }.

Lemma at_lookup es i : 1 <= i <= zlen es -> es !! Z.to_nat (i - 1) = Some (at_ es i).
Proof. intros H. unfold at_, zlen in *. by rewrite (nth_lookup_Some es (Z.to_nat (i - 1)) [] (es !!! Z.to_nat (i - 1))); apply list_lookup_lookup_total_lt; lia. Qed.
Lemma exchange_len es a b : zlen (exchange es a b) = zlen es.
Proof. unfold exchange. by rewrite !zlen_insert. Qed.
Lemma at_exchange es a b i : 1 <= a <= zlen es -> 1 <= b <= zlen es -> 1 <= i <= zlen es ->
  at_ (exchange es a b) i = if i =? b then at_ es a else if i =? a then at_ es b else at_ es i.
Proof.
  intros Ha Hb Hi. assert (Hi' : 1 <= i <= zlen (exchange es a b)) by (by rewrite exchange_len).
  pose proof (at_lookup _ _ Hi') as E. unfold exchange in E at 1. unfold zlen in *.
  destruct (Z.eqb_spec i b) as [->|]; [rewrite list_lookup_insert_eq in E by (rewrite length_insert; lia); by injection E|].
  rewrite list_lookup_insert_ne in E by lia.
  destruct (Z.eqb_spec i a) as [->|]; [rewrite list_lookup_insert_eq in E by lia; by injection E|].
  rewrite list_lookup_insert_ne in E by lia. rewrite at_lookup in E by (unfold zlen; lia). by injection E.
Qed.
Lemma exchange_perm es a b : 1 <= a <= zlen es -> 1 <= b <= zlen es -> exchange es a b ≡ₚ es.
Proof. intros Ha Hb. apply Permutation_insert_swap; by apply at_lookup. Qed.
Lemma at_ext es es' : zlen es = zlen es' -> (forall i, 1 <= i <= zlen es -> at_ es i = at_ es' i) -> es = es'.
Proof.
  intros Hl H. unfold zlen in *. apply list_eq_same_length with (length es); [lia|lia|]. intros i x y Hi Ex Ey.
  replace i with (Z.to_nat (Z.of_nat i + 1 - 1)) in Ex, Ey by lia.
  rewrite at_lookup in Ex by (unfold zlen; lia). rewrite at_lookup in Ey by (unfold zlen; lia).
  injection Ex as <-. injection Ey as <-. apply H. lia.
Qed.
(** The bytes of an element. *)
Lemma concat_nth size es i j : Forall (fun e : list Z => zlen e = size) es -> 1 <= i <= zlen es -> 0 <= j < size ->
  znth (concat es) ((i - 1) * size + j) = znth (at_ es i) j.
Proof.
  intros Hs Hi Hj. rewrite !znth_lookup by nia. revert i Hi. induction Hs as [|e es He Hs IH]; intros i Hi; [unfold zlen in Hi; cbn in Hi; lia|].
  change (concat (e :: es)) with (e ++ concat es). unfold zlen in He, Hi, IH. cbn [length] in Hi.
  destruct (Z.eq_dec i 1) as [->|Hne].
  - rewrite lookup_app_l by lia. change (at_ (e :: es) 1) with e. f_equal; lia.
  - assert (Hi1 : 1 <= i - 1 <= Z.of_nat (length es)) by lia. specialize (IH (i - 1) Hi1).
    replace (at_ (e :: es) i) with (at_ es (i - 1)) by (unfold at_; replace (Z.to_nat (i - 1)) with (S (Z.to_nat (i - 1 - 1))) by lia; done).
    rewrite <- IH, lookup_app_r by nia. f_equal. nia.
Qed.
Lemma concat_len size es : Forall (fun e : list Z => zlen e = size) es -> zlen (concat es) = size * zlen es.
Proof.
  induction 1 as [|e es He Hs IH]; [unfold zlen; cbn; lia|].
  change (concat (e :: es)) with (e ++ concat es). unfold zlen in *. rewrite length_app. cbn [length]. lia.
Qed.
Lemma at_size size es i : Forall (fun e : list Z => zlen e = size) es -> 1 <= i <= zlen es -> zlen (at_ es i) = size.
Proof. intros Hs Hi. eapply Forall_lookup_1 in Hs; [exact Hs|by apply at_lookup]. Qed.
Lemma concat_slice size es i : Forall (fun e : list Z => zlen e = size) es -> 0 <= size -> 1 <= i <= zlen es ->
  zslice (concat es) ((i - 1) * size) size = Some (at_ es i).
Proof.
  intros Hs H0 Hi. pose proof (concat_len size es Hs) as El. pose proof (at_size _ _ _ Hs Hi) as Ea.
  rewrite zslice_Some by nia. f_equal. apply list_eq_same_length with (Z.to_nat size); unfold zlen in *;
    [lia|rewrite length_take, length_drop; nia|].
  intros j x y Hj. rewrite lookup_take_lt, lookup_drop by lia.
  pose proof (concat_nth size es i (Z.of_nat j) Hs ltac:(unfold zlen; lia) ltac:(lia)) as E.
  rewrite !znth_lookup in E by nia. replace (Z.to_nat (Z.of_nat j)) with j in E by lia.
  replace (Z.to_nat ((i - 1) * size + Z.of_nat j)) with (Z.to_nat ((i - 1) * size) + j)%nat in E by nia.
  rewrite E. congruence.
Qed.

(** What is at offset [p] when the first [k] bytes have been swapped. *)
Definition swapped (old : list Z) (A B k p : Z) : option Z :=
  if (A <=? p) && (p <? A + k) then znth old (p - A + B)
  else if (B <=? p) && (p <? B + k) then znth old (p - B + A) else znth old p.
Definition swapping (old : list Z) (A B k : Z) (arr : list Z) : Prop :=
  zlen arr = zlen old /\ forall p, znth arr p = swapped old A B k p.
Ltac swap_cases := unfold swapped;
  repeat match goal with
    | |- context [?a <=? ?b] => destruct (Z.leb_spec a b); try lia
    | |- context [?a <? ?b] => destruct (Z.ltb_spec a b); try lia
    end; cbn [andb].
Lemma swap_byte_spec old A B size k arr : 0 <= A -> 0 <= B -> A + size <= B \/ B + size <= A -> 0 <= k < size ->
  A + size <= zlen old -> B + size <= zlen old -> zlen old < 2 ^ 31 -> swapping old A B k arr ->
  wp (swap_byte A B k arr) (swapping old A B (k + 1)).
Proof.
  intros HA HB Hd Hk HAo HBo Hlen [El Hi]. unfold swap_byte.
  rewrite !u32_small by (unfold is_u32; lia).
  destruct (znth_is_Some arr (A + k)) as [t Et]; [lia|]. destruct (znth_is_Some arr (B + k)) as [x Ex]; [lia|].
  apply wp_bind, (wp_deref _ t); [exact Et|]. apply wp_bind, (wp_deref _ x); [exact Ex|].
  apply wp_bind. eapply wp_deref; [apply zset_Some; lia|]. eapply wp_deref; [apply zset_Some; rewrite zlen_insert; lia|].
  split; [by rewrite !zlen_insert|]. intros p.
  rewrite !znth_insert by (rewrite ?zlen_insert; lia). rewrite Hi in Et, Ex |- *. revert Et Ex.
  destruct (decide (B + k = p)) as [<-|Hp]; [|destruct (decide (A + k = p)) as [<-|Hp']].
  - swap_cases; intros Et _; rewrite <- Et; f_equal; lia.
  - swap_cases; intros _ Ex; rewrite <- Ex; f_equal; lia.
  - intros _ _. swap_cases; done.
Qed.
Lemma index_u32 i size n : 1 <= i <= n -> 0 < size -> size * n < 2 ^ 31 -> (i -u 1) *u size = (i - 1) * size.
Proof. intros Hi Hs Hb. rewrite (u32_small (i - 1)) by (unfold is_u32; nia). rewrite u32_small by (unfold is_u32; nia). done. Qed.
Lemma apart a b size : 0 < size -> a <> b -> (a - 1) * size + size <= (b - 1) * size \/ (b - 1) * size + size <= (a - 1) * size.
Proof. intros. destruct (Z.lt_ge_cases a b); [left|right]; nia. Qed.
Lemma concat_off size es p : Forall (fun e : list Z => zlen e = size) es -> 0 < size -> 0 <= p < size * zlen es ->
  let i := p / size + 1 in 1 <= i <= zlen es /\ p = (i - 1) * size + p mod size /\ 0 <= p mod size < size.
Proof.
  intros Hs H0 Hp i. pose proof (Z.div_mod p size). pose proof (Z.mod_pos_bound p size). unfold i.
  assert (0 <= p / size) by (apply Z.div_pos; lia). assert (p / size < zlen es) by (apply Z.div_lt_upper_bound; lia). lia.
Qed.
Lemma do_swap_spec size es a b : Forall (fun e : list Z => zlen e = size) es -> 0 < size -> size * zlen es < 2 ^ 31 ->
  1 <= a <= zlen es -> 1 <= b <= zlen es -> a <> b ->
  wp (do_swap (concat es) a b size) (fun x => x = concat (exchange es a b)).
Proof.
  intros Hs H0 Hb Ha Hb' Hne. unfold do_swap. rewrite !(index_u32 _ _ (zlen es)) by lia.
  set (A := (a - 1) * size). set (B := (b - 1) * size). pose proof (concat_len _ _ Hs) as El.
  pose proof (apart a b size H0 Hne) as Hd. fold A B in Hd.
  eapply wp_mono; [apply (for_range_wp (swapping (concat es) A B) (swap_byte A B))|].
  - split; [done|]. intros p. unfold swapped. swap_cases; done.
  - intros k arr Hk HI. eapply swap_byte_spec; [| |exact Hd| | | | |exact HI]; subst A B; nia || lia.
  - replace (0 + Z.of_nat (Z.to_nat size)) with size by lia. intros arr [Hl Hi].
    assert (Hs' : Forall (fun e : list Z => zlen e = size) (exchange es a b)) by (by rewrite exchange_perm).
    pose proof (concat_len _ _ Hs') as El'. rewrite exchange_len in El'.
    apply list_eq. intros q. rewrite <- (Nat2Z.id q), <- !znth_lookup by lia. rewrite Hi. set (p := Z.of_nat q).
    destruct (Z.lt_ge_cases p (size * zlen es)) as [Hp|Hp].
    2:{ rewrite (znth_None (concat (exchange _ _ _))) by lia. subst A B. swap_cases; apply znth_None; nia. }
    destruct (concat_off size es p Hs H0 ltac:(lia)) as (Hj & Ep & Hm). set (j := p / size + 1) in *.
    rewrite Ep. rewrite (concat_nth size (exchange es a b)) by (rewrite ?exchange_len; done).
    rewrite at_exchange by lia. pose proof (apart j a size H0) as Hja. pose proof (apart j b size H0) as Hjb. subst A B.
    destruct (Z.eqb_spec j b) as [->|]; [|destruct (Z.eqb_spec j a) as [->|]].
    + rewrite <- (concat_nth size es a) by done. swap_cases; f_equal; lia.
    + rewrite <- (concat_nth size es b) by done. swap_cases; f_equal; lia.
    + rewrite <- (concat_nth size es j) by done. swap_cases; done.
Qed.
Lemma do_compare_spec compare size es a b : Forall (fun e : list Z => zlen e = size) es -> 0 < size -> size * zlen es < 2 ^ 31 ->
  1 <= a <= zlen es -> 1 <= b <= zlen es ->
  wp (do_compare compare (concat es) a b size) (fun x => x = compare (at_ es a) (at_ es b)).
Proof.
  intros Hs H0 Hb Ha Hb'. unfold do_compare. rewrite !(index_u32 _ _ (zlen es)) by lia.
  apply wp_bind. eapply wp_deref; [apply concat_slice; done || lia|]. apply wp_bind.
  eapply wp_deref; [apply concat_slice; done || lia|]. by apply wp_ret.
Qed.

(** ** Heaps *)
(** What the comparison must be: a total preorder. *)
Class comparison (compare : list Z -> list Z -> Z) := Comparison {
  compare_total x y : compare x y <= 0 \/ compare y x <= 0;
  compare_trans x y z : compare x y <= 0 -> compare y z <= 0 -> compare x z <= 0 }.
Section heap.
Context (compare : list Z -> list Z -> Z) `{!comparison compare} (size : Z) (Hsize : 0 < size).
Abbreviation le x y := (compare x y <= 0).
Abbreviation sized := (Forall (fun e : list Z => zlen e = size)).
(** Every parent in [i..] is at least as large as its children in [..n], but for [m];
    the children of [m] are below its parent. *)
Definition heap_from (i n : Z) (es : list (list Z)) : Prop :=
  forall c, 2 <= c <= n -> i <= c / 2 -> le (at_ es c) (at_ es (c / 2)).
Definition heap_but (i n m : Z) (es : list (list Z)) : Prop :=
  (forall c, 2 <= c <= n -> i <= c / 2 -> c / 2 <> m -> le (at_ es c) (at_ es (c / 2))) /\
  (forall c, 2 <= c <= n -> c / 2 = m -> i <= m / 2 -> le (at_ es c) (at_ es (m / 2))).
(** The first [n] elements in another order. *)
Definition prefix_perm (n : Z) (es es' : list (list Z)) : Prop :=
  take (Z.to_nat n) es' ≡ₚ take (Z.to_nat n) es /\ drop (Z.to_nat n) es' = drop (Z.to_nat n) es.

Lemma prefix_perm_all n es es' : prefix_perm n es es' -> es' ≡ₚ es.
Proof. intros [H1 H2]. rewrite <- (take_drop (Z.to_nat n) es'), <- (take_drop (Z.to_nat n) es). by rewrite H1, H2. Qed.
Lemma prefix_perm_len n es es' : prefix_perm n es es' -> zlen es' = zlen es.
Proof. intros H%prefix_perm_all. unfold zlen. by rewrite H. Qed.
Lemma prefix_perm_trans n es1 es2 es3 : prefix_perm n es1 es2 -> prefix_perm n es2 es3 -> prefix_perm n es1 es3.
Proof. intros [H1 H2] [H3 H4]. split; [by rewrite H3|by rewrite H4]. Qed.
Lemma prefix_perm_refl n es : prefix_perm n es es.
Proof. done. Qed.
Lemma prefix_perm_sized n es es' : prefix_perm n es es' -> sized es -> sized es'.
Proof. intros H%prefix_perm_all. by rewrite H. Qed.
Lemma prefix_perm_at n es es' i : prefix_perm n es es' -> n < i -> 0 <= n -> at_ es' i = at_ es i.
Proof.
  intros [_ H] Hi Hn. unfold at_. replace (Z.to_nat (i - 1)) with (Z.to_nat n + Z.to_nat (i - 1 - n))%nat by lia.
  rewrite <- !nth_skipn. by rewrite H.
Qed.
Lemma exchange_prefix n es a b : 1 <= a <= n -> 1 <= b <= n -> n <= zlen es -> prefix_perm n es (exchange es a b).
Proof.
  intros Ha Hb Hn. unfold prefix_perm, exchange. unfold zlen in Hn. split.
  - rewrite !take_insert_lt by lia. apply Permutation_insert_swap; rewrite lookup_take_lt by lia; apply at_lookup; unfold zlen; lia.
  - by rewrite !drop_insert_lt by lia.
Qed.

Lemma le_refl x : le x x.
Proof. by destruct (compare_total x x). Qed.
Lemma larger_spec es child max cnt : sized es -> size * zlen es < 2 ^ 31 -> 1 <= child -> 1 <= max <= cnt -> cnt <= zlen es ->
  wp (larger compare (concat es) child max cnt size) (fun m => (m = max \/ m = child /\ child <= cnt) /\
    le (at_ es max) (at_ es m) /\ (child <= cnt -> le (at_ es child) (at_ es m))).
Proof.
  intros Hs Hb Hc Hm Hcnt. unfold larger. destruct (Z.leb_spec child cnt).
  - apply wp_bind. eapply wp_mono; [apply do_compare_spec; done || lia|]. intros c ->. apply wp_ret.
    destruct (Z.ltb_spec 0 (compare (at_ es child) (at_ es max))).
    + split; [by right|]. split; [|by intros; apply le_refl]. destruct (compare_total (at_ es max) (at_ es child)); lia.
    + split; [by left|]. split; [apply le_refl|done].
  - apply wp_ret. split; [by left|]. split; [apply le_refl|lia].
Qed.
Lemma children c m : c / 2 = m <-> c = 2 * m \/ c = 2 * m + 1.
Proof. dlia. Qed.
Lemma sift_step i n m max es : 1 <= i <= m -> n <= zlen es -> heap_but i n m es -> max = 2 * m \/ max = 2 * m + 1 -> max <= n ->
  le (at_ es m) (at_ es max) -> (forall c, c / 2 = m -> c <= n -> le (at_ es c) (at_ es max)) ->
  heap_but i n max (exchange es m max).
Proof.
  intros Hi Hn [H1 H2] Hmax Hmn Hle Hch.
  assert (Hat : forall c, 1 <= c <= n -> at_ (exchange es m max) c = if c =? max then at_ es m else if c =? m then at_ es max else at_ es c)
    by (intros; apply at_exchange; lia).
  assert (Hmm : max / 2 = m) by (by apply children).
  split.
  - intros c Hc Hic Hcm. assert (Hc2 : 1 <= c / 2 < c) by dlia. rewrite !Hat by lia. rewrite (proj2 (Z.eqb_neq (c / 2) max)) by done.
    destruct (Z.eqb_spec (c / 2) m) as [E|E].
    + destruct (Z.eqb_spec c max); [done|]. rewrite (proj2 (Z.eqb_neq c m)) by lia. apply Hch; lia.
    + destruct (Z.eqb_spec c max) as [->|]; [lia|]. destruct (Z.eqb_spec c m) as [->|]; [|apply H1; lia].
      apply H2; lia.
  - intros c Hc Ec Him. rewrite Hmm in *. assert (Hc2 : 1 <= c / 2 < c) by dlia. rewrite !Hat by lia.
    rewrite (proj2 (Z.eqb_neq c max)), (proj2 (Z.eqb_neq c m)), (proj2 (Z.eqb_neq m max)), Z.eqb_refl by lia.
    rewrite <- Ec. apply H1; lia.
Qed.
Lemma heapify_spec es i n : sized es -> size * zlen es < 2 ^ 31 -> 1 <= i <= n -> n <= zlen es -> heap_from (i + 1) n es ->
  wp (heapify compare (concat es) i n size) (fun x => exists es', x = concat es' /\ prefix_perm n es es' /\ heap_from i n es').
Proof.
  intros Hs Hb Hi Hn Hh. unfold heapify.
  apply (loop_wp (fun s => exists es', s.1 = concat es' /\ prefix_perm n es es' /\ i <= s.2 <= n /\ heap_but i n s.2 es')
    (fun s => Z.to_nat (n - s.2))).
  2:{ exists es. split; [done|]. split; [done|]. cbn. split; [lia|]. split; [intros c Hc Hic Hne; apply Hh; lia|intros; dlia]. }
  2:{ cbn. lia. }
  intros [arr m] (es' & Ea & Hp & Hm & Hbut). cbn [fst snd] in *. subst arr.
  pose proof (prefix_perm_len _ _ _ Hp) as El. pose proof (prefix_perm_sized _ _ _ Hp Hs) as Hs'.
  assert (n < 2 ^ 31) by nia. unfold heapify_body. rewrite !(u32_small (2 * m)) by (unfold is_u32; lia).
  rewrite u32_small by (unfold is_u32; lia).
  apply wp_bind. eapply wp_mono; [apply larger_spec; done || lia|]. intros m1 (Hm1 & Hle1 & Hl1).
  apply wp_bind. eapply wp_mono; [apply larger_spec; done || lia|]. intros m2 (Hm2 & Hle2 & Hl2).
  assert (Hall : forall c, c / 2 = m -> c <= n -> le (at_ es' c) (at_ es' m2)).
  { intros c [->| ->]%children Hcn; [|by apply Hl2]. eapply compare_trans; [apply Hl1; lia|done]. }
  destruct (Z.eqb_spec m2 m) as [->|Hne].
  - apply wp_ret. exists es'. split; [done|]. split; [done|]. intros c Hc Hic.
    destruct (Z.eq_dec (c / 2) m) as [E|E]; [rewrite E; apply Hall; lia|by apply Hbut].
  - assert (Hmax : m2 = 2 * m \/ m2 = 2 * m + 1) by lia.
    apply wp_bind. eapply wp_mono; [apply do_swap_spec; done || lia|]. intros arr ->. apply wp_ret.
    split; [|cbn; lia]. exists (exchange es' m m2). cbn. split; [done|].
    split; [eapply prefix_perm_trans; [exact Hp|apply exchange_prefix; lia]|]. split; [lia|].
    apply sift_step; try done; try lia. eapply compare_trans; [exact Hle1|exact Hle2].
Qed.

Lemma build_heap_spec n cnt es : sized es -> size * zlen es < 2 ^ 31 -> 0 <= cnt <= zlen es -> Z.of_nat n <= cnt ->
  heap_from (Z.of_nat n + 1) cnt es ->
  wp (build_heap compare n cnt size (concat es)) (fun x => exists es', x = concat es' /\ prefix_perm cnt es es' /\ heap_from 1 cnt es').
Proof.
  revert es. induction n as [|n IH]; intros es Hs Hb Hc Hn Hh; cbn [build_heap]; [apply wp_ret; by exists es|].
  apply wp_bind. eapply wp_mono; [apply heapify_spec; done || lia|]. intros x (es1 & -> & Hp & Hh1).
  pose proof (prefix_perm_len _ _ _ Hp) as El.
  eapply wp_mono; [apply IH; try lia; [by eapply prefix_perm_sized|]; by replace (Z.of_nat n + 1) with (Z.of_nat (S n)) by lia|].
  intros x (es2 & -> & Hp2 & Hh2). exists es2. split; [done|]. split; [by eapply prefix_perm_trans|done].
Qed.
Lemma heap_root n es c : heap_from 1 n es -> 1 <= c <= n -> le (at_ es c) (at_ es 1).
Proof.
  intros Hh. induction c as [c IH] using (well_founded_induction (Z.lt_wf 0)). intros Hc.
  destruct (Z.eq_dec c 1) as [->|]; [apply le_refl|]. assert (1 <= c / 2 < c) by dlia.
  eapply compare_trans; [apply Hh; lia|apply IH; lia].
Qed.
(** All of the first [n] elements are at most [x]. *)
Lemma below_prefix n es x : 0 <= n <= zlen es ->
  Forall (fun y => le y x) (take (Z.to_nat n) es) <-> forall p, 1 <= p <= n -> le (at_ es p) x.
Proof.
  intros Hn. rewrite Forall_lookup. unfold zlen in Hn. split.
  - intros H p Hp. apply (H (Z.to_nat (p - 1))). rewrite lookup_take_lt by lia. apply at_lookup. unfold zlen. lia.
  - intros H i y E. assert (i < Z.to_nat n)%nat by (apply lookup_lt_Some in E; rewrite length_take in E; lia).
    rewrite lookup_take_lt in E by lia. replace i with (Z.to_nat (Z.of_nat i + 1 - 1)) in E by lia.
    rewrite at_lookup in E by (unfold zlen; lia). injection E as <-. apply H. lia.
Qed.
(** The elements after the first [i] are in order and not below any of those. *)
Definition tail_sorted (i : Z) (es : list (list Z)) : Prop :=
  forall p q, 1 <= p <= q -> i < q <= zlen es -> le (at_ es p) (at_ es q).
Lemma drain_step i es es' : 2 <= i <= zlen es -> heap_from 1 i es -> tail_sorted i es ->
  prefix_perm (i - 1) (exchange es 1 i) es' -> tail_sorted (i - 1) es'.
Proof.
  intros Hi Hh Ht Hp. pose proof (prefix_perm_len _ _ _ Hp) as El. rewrite exchange_len in El.
  assert (Hat : forall c, 1 <= c <= zlen es -> at_ (exchange es 1 i) c = if c =? i then at_ es 1 else if c =? 1 then at_ es i else at_ es c)
    by (intros; apply at_exchange; lia).
  assert (Hbelow : forall x, (forall p, 1 <= p <= i -> le (at_ es p) x) -> forall p, 1 <= p <= i - 1 -> le (at_ es' p) x).
  { intros x Hx. apply below_prefix; [lia|]. destruct Hp as [-> _]. apply below_prefix; [rewrite exchange_len; lia|].
    intros p Hpi. rewrite Hat by lia. rewrite (proj2 (Z.eqb_neq p i)) by lia. destruct (p =? 1); apply Hx; lia. }
  assert (Habove : forall q, i <= q <= zlen es -> at_ es' q = if q =? i then at_ es 1 else at_ es q).
  { intros q Hq. rewrite (prefix_perm_at (i - 1) (exchange es 1 i)), Hat by (done || lia).
    destruct (q =? i); [done|]. by rewrite (proj2 (Z.eqb_neq q 1)) by lia. }
  intros p q Hpq Hq. rewrite El in Hq. rewrite (Habove q) by lia.
  destruct (Z.lt_ge_cases p i) as [Hpi|Hpi].
  - apply Hbelow; [|lia]. intros c Hc. destruct (Z.eqb_spec q i); [by eapply heap_root|apply Ht; lia].
  - rewrite (Habove p) by lia. destruct (Z.eqb_spec q i) as [->|]; destruct (Z.eqb_spec p i); try apply le_refl; try lia; apply Ht; lia.
Qed.
Lemma sort_heap_spec n es : sized es -> size * zlen es < 2 ^ 31 -> 1 <= Z.of_nat n + 1 <= zlen es ->
  heap_from 1 (Z.of_nat n + 1) es -> tail_sorted (Z.of_nat n + 1) es ->
  wp (sort_heap compare n size (concat es)) (fun x => exists es', x = concat es' /\ es' ≡ₚ es /\ tail_sorted 1 es').
Proof.
  revert es. induction n as [|n IH]; intros es Hs Hb Hn Hh Ht; cbn [sort_heap]; [apply wp_ret; by exists es|].
  set (i := Z.of_nat (S n) + 1) in *. apply wp_bind. eapply wp_mono; [apply do_swap_spec; done || lia|]. intros x ->.
  assert (Hex : exchange es 1 i ≡ₚ es) by (apply exchange_perm; lia).
  assert (Hs1 : sized (exchange es 1 i)) by (by rewrite Hex).
  apply wp_bind. eapply wp_mono; [apply heapify_spec; rewrite ?exchange_len; try lia; [done|]|].
  { intros c Hc Hc2. assert (2 <= c / 2 < c) by dlia. rewrite !at_exchange by lia.
    rewrite !(proj2 (Z.eqb_neq _ _)) by lia. apply Hh; lia. }
  intros x (es1 & -> & Hp & Hh1). pose proof (prefix_perm_len _ _ _ Hp) as El. rewrite exchange_len in El.
  replace (i - 1) with (Z.of_nat n + 1) in * by lia.
  eapply wp_mono; [apply IH; try lia; [by eapply prefix_perm_sized|done|]|].
  { replace (Z.of_nat n + 1) with (i - 1) in * by lia. eapply drain_step; [|exact Hh|exact Ht|exact Hp]. lia. }
  intros x (es2 & -> & Hp2 & Hts). exists es2. split; [done|]. split; [|done].
  rewrite Hp2, (prefix_perm_all _ _ _ Hp). exact Hex.
Qed.
Lemma sorted_at es : tail_sorted 1 es -> StronglySorted (fun x y => le x y) es.
Proof.
  induction es as [|e es IH]; intros H; constructor.
  - apply IH. intros p q Hpq Hq. specialize (H (p + 1) (q + 1) ltac:(lia)).
    unfold at_ in *. replace (Z.to_nat (p + 1 - 1)) with (S (Z.to_nat (p - 1))) in H by lia.
    replace (Z.to_nat (q + 1 - 1)) with (S (Z.to_nat (q - 1))) in H by lia. apply H. unfold zlen in *. cbn [length]. lia.
  - rewrite Forall_lookup. intros i x Hi. apply lookup_lt_Some in Hi as Hl.
    specialize (H 1 (Z.of_nat i + 2) ltac:(lia)). unfold at_ in H.
    replace (Z.to_nat (Z.of_nat i + 2 - 1)) with (S i) in H by lia. cbn in H.
    rewrite (nth_lookup_Some _ _ _ _ Hi) in H. apply H. unfold zlen. cbn [length]. lia.
Qed.
End heap.

(** C30. [sort] puts an array in order and permutes its elements, for any number of
    elements of any size and any comparison that is a total preorder. *)
Theorem sort_sorts compare `{!comparison compare} size es : 0 < size -> Forall (fun e : list Z => zlen e = size) es ->
  size * zlen es < 2 ^ 31 ->
  exists es', sort compare (Some (concat es)) (zlen es) size = Ok (Some (concat es')) /\ es' ≡ₚ es /\
    StronglySorted (fun x y => compare x y <= 0) es'.
Proof.
  intros H0 Hs Hb. pose proof (zlen_nonneg es) as Hl.
  assert (H : wp (sort compare (Some (concat es)) (zlen es) size) (fun x => exists es', x = Some (concat es') /\ es' ≡ₚ es /\
    StronglySorted (fun x y => compare x y <= 0) es')).
  { unfold sort. apply wp_bind, wp_ASSERT; [done|]. apply wp_bind, wp_ASSERT; [lia|].
    apply wp_bind. eapply wp_mono; [apply build_heap_spec; try done; try dlia; intros c Hc Hc2; dlia|].
    intros x (es1 & -> & Hp & Hh). pose proof (prefix_perm_len _ _ _ Hp) as El. rewrite <- El in Hb.
    pose proof (prefix_perm_sized _ _ _ _ Hp Hs) as Hs1. apply prefix_perm_all in Hp.
    destruct (Z.eq_dec (zlen es) 0) as [E0|E0].
    { rewrite E0. apply wp_bind, wp_ret, wp_ret. exists es1. split; [done|]. split; [done|].
      destruct es1; [constructor|]. unfold zlen in *. cbn in El. lia. }
    apply wp_bind. replace (zlen es) with (Z.of_nat (Z.to_nat (zlen es - 1)) + 1) in Hh by lia.
    eapply wp_mono; [apply sort_heap_spec; try done; try lia; intros p q Hpq Hq; lia|].
    intros x (es2 & -> & Hp2 & Ht). apply wp_ret. exists es2. split; [done|]. split; [by rewrite Hp2|]. by apply sorted_at. }
  apply wp_ok in H. destruct H as (r & E & es' & -> & H). by exists es'.
Qed.
(** Four 16-bit numbers, compared as unsigned. *)
Definition ex_compare (x y : list Z) : Z := le_val x - le_val y.
#[global] Instance ex_comparison : comparison ex_compare.
Proof. constructor; unfold ex_compare; lia. Qed.
Lemma sort_sorts_witness : exists es', sort ex_compare (Some [1; 2; 0; 1; 255; 0; 0; 1]) 4 2 = Ok (Some (concat es')) /\
  es' ≡ₚ [[1; 2]; [0; 1]; [255; 0]; [0; 1]] /\ StronglySorted (fun x y => ex_compare x y <= 0) es'.
Proof. apply (sort_sorts ex_compare 2 [[1; 2]; [0; 1]; [255; 0]; [0; 1]]); [lia|repeat constructor|reflexivity]. Defined.

(** ** Searching *)
Section search.
Context (compare : list Z -> list Z -> Z) (key : list Z) (size : Z) (es : list (list Z)).
(** The elements below the key, those equal to it, those above. *)
Definition in_order_of_key : Prop := forall p q, 1 <= p <= q -> q <= zlen es ->
  (compare key (at_ es p) < 0 -> compare key (at_ es q) < 0) /\ (0 < compare key (at_ es q) -> 0 < compare key (at_ es p)).
Definition search_result (r : option Z) : Prop :=
  match r with
  | Some ofs => exists i, 1 <= i <= zlen es /\ ofs = (i - 1) * size /\ compare key (at_ es i) = 0
  | None => forall i, 1 <= i <= zlen es -> compare key (at_ es i) <> 0
  end.
(** [binary_search] of an array in order finds an element equal to the key, and
    returns null only when there is none. *)
Theorem binary_search_finds : 0 < size -> Forall (fun e : list Z => zlen e = size) es -> size * zlen es < 2 ^ 31 -> in_order_of_key ->
  wp (binary_search compare key (concat es) (zlen es) size) search_result.
Proof.
  intros H0 Hs Hb Ho. pose proof (zlen_nonneg es) as Hl. unfold binary_search. rewrite u32_small by (unfold is_u32; lia).
  apply (loop_wp (fun s => exists f l, s = (f * size, l * size) /\ 0 <= f <= l /\ l <= zlen es /\
      (forall i, 1 <= i <= f -> 0 < compare key (at_ es i)) /\ (forall i, l < i <= zlen es -> compare key (at_ es i) < 0))
    (fun s => Z.to_nat (s.2 / size - s.1 / size))).
  2:{ exists 0, (zlen es). split; [f_equal; lia|]. repeat split; lia. }
  2:{ cbn. rewrite Z.div_0_l, Z.mul_comm, Z.div_mul by lia. lia. }
  intros ? (f & l & -> & Hfl & Hl2 & Hlow & Hhigh). unfold search_body. destruct (Z.ltb_spec (f * size) (l * size)) as [Hlt|Hge].
  2:{ apply wp_ret. intros i Hi E. destruct (Z.le_gt_cases i f); [specialize (Hlow i)|specialize (Hhigh i)]; nia. }
  rewrite <- Z.mul_sub_distr_r, Z.div_mul by lia.
  set (m := f + (l - f) / 2). assert (Hm : f <= m < l) by (unfold m; assert (f < l) by nia; dlia).
  replace (f * size + (l - f) / 2 * size) with ((m + 1 - 1) * size) by (unfold m; lia).
  apply wp_bind. eapply wp_deref; [apply concat_slice; done || lia|].
  destruct (Z.ltb_spec (compare key (at_ es (m + 1))) 0) as [Hc|Hc]; [|destruct (Z.ltb_spec 0 (compare key (at_ es (m + 1)))) as [Hc'|Hc']].
  - apply wp_ret. split; [|cbn; rewrite !Z.div_mul by lia; lia]. exists f, m. split; [f_equal; lia|]. split; [lia|]. split; [lia|].
    split; [done|]. intros i Hi. apply (Ho (m + 1) i); [lia|lia|done].
  - apply wp_ret. split; [|cbn [fst snd]; replace ((m + 1 - 1) * size + size) with ((m + 1) * size) by lia; rewrite !Z.div_mul by lia; lia].
    exists (m + 1), l. split; [f_equal; lia|]. split; [lia|]. split; [lia|].
    split; [|done]. intros i Hi. apply (Ho i (m + 1)); [lia|lia|done].
  - apply wp_ret. exists (m + 1). split; [lia|]. split; [done|lia].
Qed.
End search.
Lemma binary_search_finds_witness :
  wp (binary_search ex_compare [0; 1] (concat [[255; 0]; [0; 1]; [0; 1]; [1; 2]]) 4 2) (search_result ex_compare [0; 1] 2 [[255; 0]; [0; 1]; [0; 1]; [1; 2]]).
Proof.
  apply (binary_search_finds ex_compare [0; 1] 2 [[255; 0]; [0; 1]; [0; 1]; [1; 2]]); [lia|repeat constructor|reflexivity|].
  assert (H : forall i, 1 <= i <= 4 -> i = 1 \/ i = 2 \/ i = 3 \/ i = 4) by lia.
  intros p q Hp Hq. change (zlen _) with 4 in Hq.
  destruct (H p ltac:(lia)) as [->|[->|[->| ->]]], (H q ltac:(lia)) as [->|[->|[->| ->]]]; try lia; split; vm_compute; congruence.
Defined.
