(* ===== verification/ListSort.v ===== *)
(** * ListSort: the merge sort of lib/kernel/list.c

    [list_sort] merges pairs of neighbouring runs in place until a pass ends with one
    run.  It is proved equal to the reference definition that inserts the elements one
    after the other with [ordered_insert], so it sorts, keeps every element and leaves
    equal elements in the order they had; and it stops. *)
From stdpp Require Import sorting.
From S2P Require Import Prelude.
From S2P Require Import KList.

(** ** The elements moved by a splice *)
Lemma same_but_trans h h1 h2 ns ns1 ns2 : same_but h ns1 h1 -> same_but h1 ns2 h2 ->
  (forall n, n ∈ ns1 -> n ∈ ns) -> (forall n, n ∈ ns2 -> n ∈ ns) -> same_but h ns h2.
Proof. intros H1 H2 Hs1 Hs2 q Hq. rewrite H2, H1; naive_solver. Qed.
Lemma nodes_perm l xs ys n : xs ≡ₚ ys -> n ∈ nodes l xs <-> n ∈ nodes l ys.
Proof. intros H. unfold nodes. by rewrite H. Qed.
Lemma assert_back_inv e h (Q : unit -> heap -> Prop) : mwp (assert_or (is_interior e) (is_tail e)) h Q -> Q tt h.
Proof.
  unfold assert_or, is_interior, is_tail. destruct (e =? NULL); [done|].
  unfold mwp, load, mbind, M_bind, mret, M_ret, assert, lift. destruct (h !! e) as [n|] eqn:E; [|done].
  destruct (prev n =? NULL) eqn:E1, (next n =? NULL) eqn:E2; cbn; rewrite ?E; cbn; rewrite ?E1, ?E2; cbn; done.
Qed.
Lemma not_null_inv e h (Q : unit -> heap -> Prop) : mwp (not_null e) h Q -> Q tt h.
Proof. unfold mwp, not_null, assert, lift. by destruct (e =? NULL). Qed.
Lemma list_insert_inv before e h (Q : unit -> heap -> Prop) : mwp (list_insert before e) h Q ->
  mwp (p ← get_prev before; _ ← set_prev e p; _ ← set_next e before;
       p ← get_prev before; _ ← set_next p e; set_prev before e) h Q.
Proof. unfold list_insert. intros H%mwp_bind_inv%assert_back_inv%mwp_bind_inv%not_null_inv. exact H. Qed.
(** A splice of one element does what [list_remove] and [list_insert] do. *)
Lemma splice_one h l xs y w b c a z : rep h l xs -> nodes l xs = a ++ w :: y :: b :: c -> (z =? NULL) = false ->
  (exists n, h !! z = Some n /\ (prev n =? NULL) = false) -> y <> b ->
  forall Q, mwp (list_remove y) h (fun _ h1 => mwp (list_insert z y) h1 Q) -> mwp (list_splice z y b) h Q.
Proof.
  intros Hr En Hz0 (nz & Hz & Hpz) Hyb Q. pose proof (rep_nodup _ _ _ Hr) as Hnd.
  assert (En2 : nodes l xs = (a ++ [w]) ++ y :: b :: c) by by rewrite <- app_assoc.
  destruct (prev_nonnull _ _ _ Hr _ _ _ _ En) as (Hy & Hy0 & Hw0). cbn in Hy.
  destruct (next_nonnull _ _ _ Hr _ _ _ _ En) as (Hw & _).
  destruct (prev_nonnull _ _ _ Hr _ _ _ _ En2) as (Hb & Hb0 & _).
  rewrite En in Hnd.
  assert (Hwy : w <> y) by (eapply not_eq_sym, nodup_mid; [exact Hnd|]; right; by left).
  assert (Hwb : w <> b) by (eapply not_eq_sym, nodup_mid; [exact Hnd|]; right; right; by left).
  set (h1 := <[b := ListElem w (hd NULL c)]> (<[w := ListElem (lastd NULL a) b]> h)).
  assert (E : list_remove y h = Ok (b, h1)).
  { assert (H : mwp (list_remove y) h (fun r h' => r = b /\ h' = h1)).
    { unfold list_remove. wp_step. eapply assert_inner; [done|exact Hy|done|done|].
      wp_step. eapply get_prev_spec; [done|]. wp_step. eapply get_next_spec; [done|]. cbn.
      wp_step. eapply set_next_spec; [done|]. cbn.
      wp_step. eapply get_next_spec; [by heap_lookup|]. wp_step. eapply get_prev_spec; [by heap_lookup|]. cbn.
      wp_step. eapply set_prev_spec; [by heap_lookup|]. cbn. eapply get_next_spec; [by heap_lookup|]. done. }
    apply mwp_ok in H as (? & ? & H & -> & ->). exact H. }
  unfold mwp at 1. rewrite E. intros H%list_insert_inv. unfold list_splice.
  wp_step. eapply assert_back; [done|exact Hz|done|]. rewrite (proj2 (Z.eqb_neq y b)) by done.
  wp_step. eapply list_prev_spec; [exact Hr|exact En2|].
  wp_step. eapply assert_inner; [done|exact Hy|done|done|]. wp_step. eapply assert_inner; [done|exact Hy|done|done|].
  wp_step. eapply get_prev_spec; [done|]. wp_step. eapply get_next_spec; [done|]. cbn.
  wp_step. eapply set_next_spec; [done|]. cbn.
  wp_step. eapply get_next_spec; [by heap_lookup|]. wp_step. eapply get_prev_spec; [by heap_lookup|]. cbn.
  wp_step. eapply set_prev_spec; [by heap_lookup|]. cbn. exact H.
Qed.
Lemma list_splice_spec h l A z zs y B (Q : unit -> heap -> Prop) : rep h l (A ++ z :: zs ++ y :: B) ->
  (forall h', rep h' l (A ++ y :: z :: zs ++ B) -> same_but h (nodes l (A ++ z :: zs ++ y :: B)) h' -> Q tt h') ->
  mwp (list_splice z y (hd (l + 8) B)) h Q.
Proof.
  intros Hr HQ. set (xs := A ++ z :: zs ++ y :: B) in *.
  assert (Exs : xs = (A ++ z :: zs) ++ y :: B) by (unfold xs; by rewrite <- app_assoc).
  destruct (split_last l (A ++ z :: zs)) as (a & w & Ea). destruct (split_first B (l + 8)) as (b & c & Eb & <-).
  assert (En : nodes l xs = a ++ w :: y :: b :: c).
  { rewrite Exs, nodes_split, Ea. cbn. rewrite Eb. by rewrite <- app_assoc. }
  assert (Hyin : y ∈ xs) by (rewrite Exs, elem_of_app, elem_of_cons; tauto).
  pose proof (rep_nodup _ _ _ Hr) as Hnd. pose proof Hr as Hr2. rewrite Exs in Hr2.
  destruct (split_last l A) as (a' & u & Eu).
  assert (Ez : nodes l xs = a' ++ u :: z :: (zs ++ y :: B) ++ [l + 8]) by (unfold xs; rewrite nodes_split, Eu, <- app_assoc; done).
  destruct (prev_nonnull _ _ _ Hr _ _ _ _ Ez) as (Hz & Hz0 & Hu0).
  eapply splice_one; [exact Hr|exact En|exact Hz0|eexists; split; [exact Hz|exact Hu0]| |].
  { rewrite En in Hnd. apply list.NoDup_app in Hnd as (_ & _ & Hdb). rewrite !list.NoDup_cons, !elem_of_cons in Hdb. naive_solver. }
  apply (list_remove_spec h l (A ++ z :: zs) y B); [exact Hr2|]. intros h1 Hr1 Hs1.
  assert (Hxy : y ∉ nodes l ((A ++ z :: zs) ++ B)).
  { rewrite Exs, nodes_split in Hnd. rewrite nodes_split, elem_of_app. intros Hi. by apply (nodup_mid _ _ _ y Hnd). }
  replace z with (hd (l + 8) (z :: zs ++ B)) by done.
  assert (Hsub : forall n, n ∈ nodes l ((A ++ z :: zs) ++ B) -> n ∈ nodes l xs).
  { intros n. rewrite Exs. unfold nodes. rewrite !elem_of_cons, !elem_of_app, !elem_of_cons. tauto. }
  assert (Exs2 : (A ++ z :: zs) ++ B = A ++ z :: zs ++ B) by by rewrite <- app_assoc.
  rewrite Exs2 in *. apply (list_insert_spec h1 l A (z :: zs ++ B) y); [exact Hr1| | |exact Hxy|].
  - rewrite Hs1 by done. eapply chain_mapped; [apply (rep_chain _ _ _ Hr)|]. by apply elem_in_nodes.
  - intros ->. apply (rep_null _ _ _ Hr). by apply elem_in_nodes.
  - intros h2 Hr3 Hs2. apply HQ; [exact Hr3|]. eapply same_but_trans; [exact Hs1|exact Hs2|exact Hsub|].
    intros n [->|Hn]%elem_of_cons; [by apply elem_in_nodes|by apply Hsub].
Qed.

(** ** Reference definition *)
(** The comparison is a strict weak order. *)
Class strict_order (less : Z -> Z -> bool) := StrictOrder {
  less_trans a b c : less a b = false -> less b c = false -> less a c = false;
  less_asym a b : less a b = true -> less b a = false }.
(** The elements inserted one after the other. *)
Definition insertion_sort (less : Z -> Z -> bool) (xs : list Z) : list Z :=
  foldl (fun l e => ordered_insert less e l) [] xs.

Section spec.
Context (less : Z -> Z -> bool) `{!strict_order less}.
Abbreviation in_order := (in_order less).
Abbreviation ins := (ordered_insert less).
Abbreviation isort := (insertion_sort less).
Abbreviation inserted acc xs := (foldl (fun l e => ordered_insert less e l) acc xs).

Lemma less_before a b c : less a b = true -> less c b = false -> less a c = true.
Proof. intros H1 H2. destruct (less a c) eqn:E; [done|]. by rewrite (less_trans a c b) in H1. Qed.
Lemma less_irrefl a : less a a = false.
Proof. destruct (less a a) eqn:E; [|done]. by rewrite (less_asym a a) in E. Qed.
Lemma ins_perm x acc : ins x acc ≡ₚ x :: acc.
Proof. induction acc as [|a acc IH]; cbn; [done|]. destruct (less x a); [done|]. rewrite IH. apply Permutation_swap. Qed.
Lemma inserted_perm acc xs : inserted acc xs ≡ₚ acc ++ xs.
Proof.
  revert acc. induction xs as [|x xs IH]; intros acc; cbn; [by rewrite app_nil_r|].
  rewrite IH, ins_perm. by rewrite <- Permutation_middle.
Qed.
Lemma isort_perm xs : isort xs ≡ₚ xs.
Proof. apply inserted_perm. Qed.
(** A smaller element may be inserted first. *)
Lemma ins_commute y w acc : less y w = true -> ins y (ins w acc) = ins w (ins y acc).
Proof.
  intros Hyw. pose proof (less_asym _ _ Hyw) as Hwy.
  induction acc as [|a acc IH]; cbn; [by rewrite Hyw, Hwy|].
  destruct (less w a) eqn:Ewa.
  - assert (Eya : less y a = true) by (eapply less_before; [exact Hyw|]; by apply less_asym).
    cbn. rewrite Eya, Hyw. cbn. by rewrite Hwy, Ewa.
  - cbn. destruct (less y a) eqn:Eya; cbn; [by rewrite Hwy, Ewa|]. by rewrite Ewa, IH.
Qed.
Lemma inserted_first y zs acc : Forall (fun z => less y z = true) zs -> ins y (inserted acc zs) = inserted (ins y acc) zs.
Proof.
  intros H. revert acc. induction H as [|z zs Hz _ IH]; intros acc; [done|]. cbn. rewrite IH. by rewrite ins_commute.
Qed.
Lemma isort_move P zs y Q : Forall (fun z => less y z = true) zs -> isort (P ++ zs ++ y :: Q) = isort (P ++ y :: zs ++ Q).
Proof. intros H. unfold insertion_sort. rewrite !foldl_app. cbn. rewrite foldl_app. by rewrite inserted_first. Qed.
Lemma ins_last x acc : Forall (fun a => less x a = false) acc -> ins x acc = acc ++ [x].
Proof. induction 1 as [|a acc Ha _ IH]; cbn; [done|]. by rewrite Ha, IH. Qed.
Lemma inserted_sorted acc xs : in_order (acc ++ xs) -> inserted acc xs = acc ++ xs.
Proof.
  revert acc. induction xs as [|x xs IH]; intros acc H; cbn; [by rewrite app_nil_r|].
  rewrite ins_last, IH; rewrite <- ?app_assoc; [done|exact H|].
  apply list.Forall_forall. intros a Ha. apply StronglySorted_app in H as (H & _). apply (H a x Ha). by left.
Qed.
Lemma isort_id xs : in_order xs -> isort xs = xs.
Proof. apply (inserted_sorted []). Qed.

(** The number of runs. *)
Fixpoint runs (xs : list Z) : nat :=
  match xs with
  | [] => 0
  | x :: t => match t with [] => 1 | y :: _ => (if less y x then 1 else 0) + runs t end
  end.
Definition run (xs : list Z) : Prop := Sorted (fun a b => less b a = false) xs.
Lemma run_in_order xs : run xs -> in_order xs.
Proof. apply Sorted_StronglySorted. intros a b c H1 H2. eapply less_trans; [exact H2|exact H1]. Qed.
Lemma runs_run x r : run (x :: r) -> runs (x :: r) = 1%nat.
Proof.
  revert x. induction r as [|y r IH]; intros x H; [done|]. apply Sorted_inv in H as [H Hx].
  apply HdRel_inv in Hx. change (runs (x :: y :: r)) with ((if less y x then 1 else 0) + runs (y :: r))%nat. by rewrite Hx, IH.
Qed.
Lemma runs_run_app x r y t : run (x :: r) -> less y (lastd x r) = true -> runs (x :: r ++ y :: t) = S (runs (y :: t)).
Proof.
  revert x. induction r as [|z r IH]; intros x H Hy.
  - change (runs (x :: [] ++ y :: t)) with ((if less y x then 1 else 0) + runs (y :: t))%nat. by replace (less y x) with true.
  - apply Sorted_inv in H as [H Hx]. apply HdRel_inv in Hx. rewrite lastd_cons in Hy.
    change (runs (x :: (z :: r) ++ y :: t)) with ((if less z x then 1 else 0) + runs (z :: r ++ y :: t))%nat. by rewrite Hx, IH.
Qed.
Lemma runs_app a b : (runs (a ++ b) <= runs a + runs b)%nat.
Proof.
  induction a as [|x a IH]; [done|]. destruct a as [|y a].
  - destruct b as [|z b]; [done|]. change (runs ([x] ++ z :: b)) with ((if less z x then 1 else 0) + runs (z :: b))%nat.
    change (runs [x]) with 1%nat. destruct (less z x); lia.
  - change (runs ((x :: y :: a) ++ b)) with ((if less y x then 1 else 0) + runs ((y :: a) ++ b))%nat.
    change (runs (x :: y :: a)) with ((if less y x then 1 else 0) + runs (y :: a))%nat. lia.
Qed.
Lemma runs_pos x r : (1 <= runs (x :: r))%nat.
Proof.
  revert x. induction r as [|y r IH]; intros x; [cbn; lia|].
  change (runs (x :: y :: r)) with ((if less y x then 1 else 0) + runs (y :: r))%nat. specialize (IH y). lia.
Qed.
Lemma runs_one xs : (runs xs <= 1)%nat -> run xs.
Proof.
  induction xs as [|x xs IH]; intros H; [constructor|]. destruct xs as [|y r]; [repeat constructor|].
  change (runs (x :: y :: r)) with ((if less y x then 1 else 0) + runs (y :: r))%nat in H. pose proof (runs_pos y r).
  destruct (less y x) eqn:E; [lia|]. constructor; [apply IH; lia|]. by constructor.
Qed.
Lemma runs_length xs : (runs xs <= length xs)%nat.
Proof.
  induction xs as [|x xs IH]; [done|]. destruct xs as [|y r]; [done|].
  change (runs (x :: y :: r)) with ((if less y x then 1 else 0) + runs (y :: r))%nat. cbn [length] in *. destruct (less y x); lia.
Qed.

(** ** Walks along a run *)
Section walk.
Context (h : heap) (l : Z) (xs : list Z) (Hr : rep h l xs).
Lemma next_is A x r (Q : Z -> heap -> Prop) : xs = A ++ x :: r -> Q (hd (l + 8) r) h -> mwp (list_next x) h Q.
Proof. intros E. by eapply list_next_walk. Qed.
Lemma prev_is A x r (Q : Z -> heap -> Prop) : xs = A ++ x :: r -> Q x h -> mwp (list_prev (hd (l + 8) r)) h Q.
Proof.
  intros E HQ. destruct (split_first r (l + 8)) as (b & c & Eb & <-).
  eapply list_prev_spec with (a := l :: A); [exact Hr| |exact HQ]. rewrite E. unfold nodes. by rewrite <- Eb, <- app_assoc.
Qed.
(** An element of a run is not the one after the run. *)
Lemma not_end A y r B : xs = A ++ y :: r ++ B -> (y =? hd (l + 8) B) = false.
Proof.
  intros E. apply Z.eqb_neq. pose proof (rep_nodup _ _ _ Hr) as Hnd. rewrite E in Hnd. unfold nodes in Hnd.
  rewrite <- app_assoc in Hnd. cbn in Hnd. rewrite <- app_assoc in Hnd. change (l :: A ++ y :: r ++ B ++ [l + 8]) with ((l :: A) ++ y :: r ++ B ++ [l + 8]) in Hnd.
  intros E2. apply (nodup_mid _ _ _ y Hnd); [right|done]. rewrite E2, elem_of_app. right. destruct B; by left.
Qed.
Lemma xs_nonnull A x B : xs = A ++ x :: B -> (x =? NULL) = false.
Proof. intros ->. eapply rep_ne; [exact Hr|]. apply elem_in_nodes. rewrite elem_of_app, elem_of_cons. tauto. Qed.
Lemma hd_nonnull A B : xs = A ++ B -> (hd (l + 8) B =? NULL) = false.
Proof.
  intros E. destruct B as [|b B]; [eapply rep_ne; [exact Hr|]; unfold nodes; rewrite elem_of_cons, elem_of_app; right; right; by left|].
  by eapply xs_nonnull.
Qed.
Lemma is_sorted_loop A x r B fuel (Q : bool -> heap -> Prop) : xs = A ++ x :: r ++ B -> run (x :: r) -> (length r < fuel)%nat ->
  Q true h -> mwp (mloop fuel (sorted_body less (hd (l + 8) B)) x) h Q.
Proof.
  revert A x fuel. induction r as [|y r IH]; intros A x fuel E Hrun Hf HQ; (destruct fuel as [|fuel]; [cbn in Hf; lia|]);
    apply mloop_step; unfold sorted_body at 1.
  - wp_step. eapply next_is; [exact E|]. rewrite Z.eqb_refl. by wp_step.
  - wp_step. eapply next_is; [exact E|]. cbn [hd app].
    assert (E2 : xs = (A ++ [x]) ++ y :: r ++ B) by (rewrite <- app_assoc; exact E).
    rewrite (not_end _ _ _ _ E2). wp_step. eapply (prev_is A x (y :: r ++ B)); [exact E|].
    apply Sorted_inv in Hrun as [Hrun Hx]. apply HdRel_inv in Hx. rewrite Hx. wp_step.
    eapply IH; [exact E2|exact Hrun|cbn in Hf; lia|exact HQ].
Qed.
Lemma is_sorted_spec A r B (Q : bool -> heap -> Prop) : xs = A ++ r ++ B -> run r -> Q true h ->
  mwp (is_sorted less (hd (hd (l + 8) B) r) (hd (l + 8) B)) h Q.
Proof.
  intros E Hrun HQ. unfold is_sorted. destruct r as [|x r]; cbn [hd]; [rewrite Z.eqb_refl; by wp_step|].
  rewrite (not_end _ _ _ _ E). unfold walk_fuel. wp_step. wp_step. eapply is_sorted_loop; [exact E|exact Hrun| |exact HQ].
  pose proof (rep_size _ _ _ Hr) as Hs. rewrite E, !length_app in Hs. cbn in Hs. rewrite ?length_app in Hs. lia.
Qed.
(** A longest run from an element on. *)
Definition run_split (x : Z) (r r1 r2 : list Z) : Prop :=
  r = r1 ++ r2 /\ run (x :: r1) /\ match r2 with [] => True | y :: _ => less y (lastd x r1) = true end.
Lemma run_loop A x r fuel (Q : Z -> heap -> Prop) : xs = A ++ x :: r -> (length r < fuel)%nat ->
  (forall r1 r2, run_split x r r1 r2 -> Q (hd (l + 8) r2) h) ->
  mwp (mloop fuel (run_body less (l + 8)) x) h Q.
Proof.
  revert A x fuel Q. induction r as [|y r IH]; intros A x fuel Q E Hf HQ; (destruct fuel as [|fuel]; [cbn in Hf; lia|]);
    apply mloop_step; unfold run_body at 1.
  - wp_step. eapply next_is; [exact E|]. cbn [hd]. rewrite Z.eqb_refl. wp_step. apply (HQ [] []). split; [done|]. split; [repeat constructor|done].
  - wp_step. eapply next_is; [exact E|]. cbn [hd].
    assert (E2 : xs = (A ++ [x]) ++ y :: r) by (rewrite <- app_assoc; exact E).
    assert (E3 : xs = (A ++ [x]) ++ y :: r ++ []) by (by rewrite app_nil_r).
    pose proof (not_end _ _ _ [] E3) as Hne. cbn [hd] in Hne. rewrite Hne. wp_step. eapply (prev_is A x (y :: r)); [exact E|].
    destruct (less y x) eqn:Ey; wp_step.
    + apply (HQ [] (y :: r)). split; [done|]. split; [repeat constructor|exact Ey].
    + eapply IH; [exact E2|cbn in Hf; lia|]. intros r1 r2 (-> & Hrun & Hend). apply (HQ (y :: r1) r2).
      split; [done|]. split; [constructor; [done|by constructor]|]. by rewrite lastd_cons.
Qed.
Lemma find_end_of_run_spec A x r (Q : Z -> heap -> Prop) : xs = A ++ x :: r ->
  (forall r1 r2, run_split x r r1 r2 -> Q (hd (l + 8) r2) h) -> mwp (find_end_of_run less x (l + 8)) h Q.
Proof.
  intros E HQ. unfold find_end_of_run, walk_fuel. wp_step. apply not_null_spec; [by eapply xs_nonnull|].
  wp_step. apply not_null_spec; [eapply (hd_nonnull xs []); by rewrite app_nil_r|].
  assert (E3 : xs = A ++ x :: r ++ []) by (by rewrite app_nil_r).
  pose proof (not_end _ _ _ [] E3) as Hne. cbn [hd] in Hne.
  wp_step. wp_step; [by rewrite Hne|]. wp_step. wp_step. eapply run_loop; [exact E| |exact HQ].
  pose proof (rep_size _ _ _ Hr) as Hs. rewrite E, !length_app in Hs. cbn in Hs. lia.
Qed.
End walk.

(** ** Merging *)
(** The list at [l] holds [xs]: what is left to do for the sort of [xs0]. *)
Record sorting (h0 : heap) (l : Z) (xs0 : list Z) (h : heap) (xs : list Z) : Prop := Sorting {
  so_rep : rep h l xs;
  so_but : same_but h0 (nodes l xs0) h;
  so_sort : isort xs = isort xs0 }.
Lemma sorting_perm h0 l xs0 h xs : sorting h0 l xs0 h xs -> xs ≡ₚ xs0.
Proof. intros H. rewrite <- (isort_perm xs), <- (isort_perm xs0). by rewrite (so_sort _ _ _ _ _ H). Qed.
Lemma hd_app (d : Z) r B : hd d (r ++ B) = hd (hd d B) r.
Proof. by destruct r. Qed.
Definition between (d r : list Z) : Prop := forall a b, a ∈ d -> b ∈ r -> less b a = false.
Lemma between_cons d x r : between d (x :: r) -> between d [x] /\ between d r.
Proof. intros H. split; intros a b Ha Hb; apply H; set_solver. Qed.
Lemma in_order_cons x r : in_order (x :: r) -> in_order r /\ between [x] r.
Proof.
  intros [H1 H2]%StronglySorted_cons. split; [done|]. intros a b ->%list_elem_of_singleton Hb.
  by eapply list.Forall_forall in H1.
Qed.
(** What the loop of [inplace_merge] keeps: [d] is merged, [r1] and [r2] are not. *)
Definition merging (d r1 r2 : list Z) : Prop :=
  in_order d /\ in_order r1 /\ in_order r2 /\ between d r1 /\ between d r2.
Lemma in_order_snoc d x : in_order d -> between d [x] -> in_order (d ++ [x]).
Proof. intros Hd Hx. apply StronglySorted_app. split; [|split; [done|repeat constructor]]. exact Hx. Qed.
Lemma between_snoc d x r : between d r -> between [x] r -> between (d ++ [x]) r.
Proof. intros H1 H2 a b [Ha|Ha]%elem_of_app Hb; [by apply H1|by apply H2]. Qed.
Lemma between_head x y r : less y x = false -> in_order (y :: r) -> between [x] (y :: r).
Proof.
  intros Hx [_ Hb]%in_order_cons a b ->%list_elem_of_singleton [->|Hb']%elem_of_cons; [done|].
  eapply less_trans; [|exact Hx]. apply Hb; [by left|done].
Qed.
Lemma merging_left d z r1 y r2 : less y z = false -> merging d (z :: r1) (y :: r2) -> merging (d ++ [z]) r1 (y :: r2).
Proof.
  intros Hyz (Hd & H1 & H2 & Hd1 & Hd2). apply between_cons in Hd1 as [Hz Hd1].
  destruct (in_order_cons _ _ H1) as [H1' Hzr]. split; [by apply in_order_snoc|]. split; [done|]. split; [done|].
  split; apply between_snoc; try done. by apply between_head.
Qed.
Lemma merging_right d z r1 y r2 : less y z = true -> merging d (z :: r1) (y :: r2) -> merging (d ++ [y]) (z :: r1) r2.
Proof.
  intros Hyz (Hd & H1 & H2 & Hd1 & Hd2). apply between_cons in Hd2 as [Hy Hd2].
  destruct (in_order_cons _ _ H2) as [H2' Hyr]. split; [by apply in_order_snoc|]. split; [done|]. split; [done|].
  split; apply between_snoc; try done. apply between_head; [by apply less_asym|done].
Qed.
Lemma merging_end d r1 r2 : merging d r1 r2 -> r1 = [] \/ r2 = [] -> in_order (d ++ r1 ++ r2).
Proof.
  intros (Hd & H1 & H2 & Hd1 & Hd2) [->| ->]; rewrite ?app_nil_r; cbn [app]; apply StronglySorted_app; by split.
Qed.

Section merge.
Context (h0 : heap) (l : Z) (xs0 : list Z).
Abbreviation sorting := (sorting h0 l xs0).
Lemma sorting_splice h A z zs y B (Q : unit -> heap -> Prop) : sorting h (A ++ z :: zs ++ y :: B) ->
  Forall (fun w => less y w = true) (z :: zs) ->
  (forall h', sorting h' (A ++ y :: z :: zs ++ B) -> Q tt h') -> mwp (list_splice z y (hd (l + 8) B)) h Q.
Proof.
  intros Hso Hall HQ. pose proof (sorting_perm _ _ _ _ _ Hso) as Hp. destruct Hso as [Hr Hb Hi].
  apply (list_splice_spec h l A z zs y B); [done|]. intros h' Hr' Hb'. apply HQ. split; [done| |].
  - eapply same_but_trans; [exact Hb|exact Hb'|done|]. intros n. by apply nodes_perm.
  - rewrite <- Hi. symmetry. apply (isort_move A (z :: zs) y B Hall).
Qed.
Lemma merge_loop A B n : forall d r1 r2 h fuel (Q : unit -> heap -> Prop),
  sorting h (A ++ d ++ r1 ++ r2 ++ B) -> merging d r1 r2 -> (length r1 + length r2 <= n)%nat -> (n < fuel)%nat ->
  (forall h' m, sorting h' (A ++ m ++ B) -> run m -> Q tt h') ->
  mwp (mloop fuel (merge_body less (hd (l + 8) B)) (hd (hd (hd (l + 8) B) r2) r1, hd (hd (l + 8) B) r2)) h Q.
Proof.
  induction n as [|n IH]; intros d r1 r2 h fuel Q Hso Hm Hn Hf HQ; (destruct fuel as [|fuel]; [lia|]);
    apply mloop_step; unfold merge_body at 1.
  { destruct r1, r2; cbn in Hn; try lia. cbn [hd]. rewrite Z.eqb_refl. cbn [orb]. wp_step. eapply (HQ _ d); [exact Hso|].
    apply StronglySorted_Sorted. apply (merging_end d [] []) in Hm; [|by left]. by rewrite !app_nil_r in Hm. }
  assert (Hdone : r1 = [] \/ r2 = [] -> Q tt h).
  { intros He. apply (HQ h (d ++ r1 ++ r2)); [by rewrite <- !app_assoc|]. apply StronglySorted_Sorted. by apply merging_end. }
  destruct r1 as [|z r1]; cbn [hd]; [rewrite Z.eqb_refl; cbn [orb]; wp_step; apply Hdone; by left|].
  assert (E : A ++ d ++ (z :: r1) ++ r2 ++ B = (A ++ d) ++ z :: r1 ++ (r2 ++ B)) by by rewrite <- !app_assoc.
  rewrite E in Hso. pose proof (so_rep _ _ _ _ _ Hso) as Hr.
  rewrite <- hd_app, (not_end _ _ _ Hr _ _ _ _ eq_refl). cbn [orb].
  destruct r2 as [|y r2]; cbn [app hd]; [rewrite Z.eqb_refl; wp_step; apply Hdone; by right|].
  assert (E2 : (A ++ d) ++ z :: r1 ++ y :: r2 ++ B = (A ++ d ++ z :: r1) ++ y :: r2 ++ B) by by rewrite <- !app_assoc.
  rewrite (not_end _ _ _ Hr _ _ _ _ E2). destruct (less y z) eqn:Eyz; cbn [negb].
  - wp_step. eapply (next_is _ _ _ Hr); [exact E2|]. wp_step. eapply (prev_is _ _ _ Hr); [exact E2|].
    wp_step. eapply sorting_splice; [exact Hso| |].
    { destruct Hm as (_ & H1 & _). destruct (in_order_cons _ _ H1) as [_ Hz]. constructor; [done|].
      apply list.Forall_forall. intros w Hw. eapply less_before; [exact Eyz|]. apply Hz; [by left|done]. }
    intros h1 Hso1. wp_step. rewrite hd_app. eapply (IH (d ++ [y]) (z :: r1) r2); [| |cbn in *; lia|lia|exact HQ].
    + replace (A ++ (d ++ [y]) ++ (z :: r1) ++ r2 ++ B) with ((A ++ d) ++ y :: z :: r1 ++ r2 ++ B) by (by rewrite <- !app_assoc). done.
    + by apply merging_right.
  - wp_step. eapply (next_is _ _ _ Hr); [done|]. wp_step. rewrite hd_app. cbn [hd].
    eapply (IH (d ++ [z]) r1 (y :: r2)); [| |cbn in *; lia|lia|exact HQ].
    + replace (A ++ (d ++ [z]) ++ r1 ++ (y :: r2) ++ B) with ((A ++ d) ++ z :: r1 ++ (y :: r2) ++ B) by (by rewrite <- !app_assoc). done.
    + by apply merging_left.
Qed.
Lemma inplace_merge_spec A r1 r2 B h (Q : unit -> heap -> Prop) : sorting h (A ++ r1 ++ r2 ++ B) -> run r1 -> run r2 ->
  (forall h' m, sorting h' (A ++ m ++ B) -> run m -> Q tt h') ->
  mwp (inplace_merge less (hd (hd (hd (l + 8) B) r2) r1) (hd (hd (l + 8) B) r2) (hd (l + 8) B)) h Q.
Proof.
  intros Hso H1 H2 HQ. pose proof (so_rep _ _ _ _ _ Hso) as Hr.
  assert (E2 : A ++ r1 ++ r2 ++ B = (A ++ r1) ++ r2 ++ B) by by rewrite <- !app_assoc.
  assert (E3 : A ++ r1 ++ r2 ++ B = (A ++ r1 ++ r2) ++ B) by by rewrite <- !app_assoc.
  unfold inplace_merge. rewrite <- !(hd_app _ r2).
  wp_step. apply not_null_spec. { rewrite <- hd_app. by eapply (hd_nonnull _ _ _ Hr). }
  wp_step. apply not_null_spec; [by eapply (hd_nonnull _ _ _ Hr)|]. wp_step. apply not_null_spec; [by eapply (hd_nonnull _ _ _ Hr)|].
  wp_step. unfold assert_b. wp_step. eapply (is_sorted_spec _ _ _ Hr A r1 (r2 ++ B)); [done|done|]. wp_step; [done|].
  wp_step. wp_step. rewrite hd_app. eapply (is_sorted_spec _ _ _ Hr _ r2 B); [exact E2|done|]. wp_step; [done|].
  unfold walk_fuel. wp_step. wp_step. eapply (merge_loop A B (length r1 + length r2) [] r1 r2); [exact Hso| |lia| |exact HQ].
  - split; [constructor|]. split; [by apply run_in_order|]. split; [by apply run_in_order|]. split; intros a b Ha%not_elem_of_nil; done.
  - pose proof (rep_size _ _ _ Hr) as Hs. rewrite !length_app in Hs. lia.
Qed.

Lemma run_runs m : run m -> (runs m <= 1)%nat.
Proof. intros H. destruct m as [|x m]; [cbn; lia|]. by rewrite runs_run. Qed.
Lemma run_split_runs x r r1 r2 : run_split x r r1 r2 -> runs (x :: r) = S (runs r2).
Proof.
  intros (-> & Hrun & Hend). destruct r2 as [|y r2]; [rewrite app_nil_r; by apply runs_run|by apply runs_run_app].
Qed.
(** ** The passes *)
Definition pass_done (K : nat) (h : heap) (cnt : Z) : Prop :=
  exists xs, sorting h xs /\ Z.of_nat (runs xs) <= cnt /\ 2 * cnt <= Z.of_nat K + 1.
Lemma pass_loop K n : forall O rest h cnt fuel (Q : Z -> heap -> Prop), sorting h (O ++ rest) -> Z.of_nat (runs O) <= cnt ->
  2 * cnt + Z.of_nat (runs rest) = Z.of_nat K -> (length rest <= n)%nat -> (n < fuel)%nat ->
  (forall h' out, pass_done K h' out -> Q out h') ->
  mwp (mloop fuel (pass_body less l) (hd (l + 8) rest, cnt)) h Q.
Proof.
  induction n as [|n IH]; intros O rest h cnt fuel Q Hso Hc HK Hn Hf HQ; (destruct fuel as [|fuel]; [lia|]);
    apply mloop_step; unfold pass_body at 1; pose proof (so_rep _ _ _ _ _ Hso) as Hr; wp_step; (eapply list_end_spec; [done|]).
  { destruct rest; [|cbn in Hn; lia]. cbn [hd]. rewrite Z.eqb_refl. wp_step. apply HQ. eexists. split; [exact Hso|].
    cbn in HK. rewrite app_nil_r. lia. }
  rewrite (at_end _ _ _ Hr O rest eq_refl). destruct rest as [|x r].
  { rewrite bool_decide_eq_true_2 by done. wp_step. apply HQ. eexists. split; [exact Hso|]. cbn in HK. rewrite app_nil_r. lia. }
  rewrite bool_decide_eq_false_2 by done. wp_step. eapply list_end_spec; [done|]. wp_step. cbn [hd].
  eapply (find_end_of_run_spec _ _ _ Hr); [done|]. intros r1 r2 Hs1. rewrite (run_split_runs _ _ _ _ Hs1) in HK.
  destruct Hs1 as (-> & Hrun1 & _). wp_step. eapply list_end_spec; [done|].
  assert (E : O ++ x :: r1 ++ r2 = (O ++ x :: r1) ++ r2) by by rewrite <- app_assoc.
  rewrite (at_end _ _ _ Hr _ r2 E). pose proof (runs_app O (x :: r1)) as Hra. rewrite (runs_run _ _ Hrun1) in Hra.
  destruct r2 as [|y r2].
  { rewrite bool_decide_eq_true_2 by done. wp_step. apply HQ. eexists. split; [exact Hso|]. cbn in HK. rewrite app_nil_r. lia. }
  rewrite bool_decide_eq_false_2 by done. wp_step. eapply list_end_spec; [done|]. wp_step. cbn [hd].
  eapply (find_end_of_run_spec _ _ _ Hr); [exact E|]. intros s1 s2 Hs2. rewrite (run_split_runs _ _ _ _ Hs2) in HK.
  destruct Hs2 as (-> & Hrun2 & _). wp_step.
  eapply (inplace_merge_spec O (x :: r1) (y :: s1) s2); [exact Hso|done|done|]. intros h1 m Hso1 Hm. wp_step.
  eapply (IH (O ++ m) s2); [by rewrite <- app_assoc| | | |lia|exact HQ].
  - pose proof (runs_app O m). pose proof (run_runs m Hm). lia.
  - lia.
  - cbn in Hn. rewrite !length_app in Hn. cbn in Hn. rewrite length_app in Hn. lia.
Qed.
Lemma sort_loop n : forall xs h fuel (Q : unit -> heap -> Prop), sorting h xs -> (runs xs <= n)%nat -> (n < fuel)%nat ->
  (forall h' xs', sorting h' xs' -> run xs' -> Q tt h') -> mwp (mloop fuel (sort_body less l) tt) h Q.
Proof.
  induction n as [|n IH]; intros xs h fuel Q Hso Hn Hf HQ; (destruct fuel as [|fuel]; [lia|]);
    apply mloop_step; unfold sort_body at 1, walk_fuel; pose proof (so_rep _ _ _ _ _ Hso) as Hr;
    (wp_step; eapply list_begin_spec; [done|]; wp_step; wp_step; wp_step);
    (eapply (pass_loop (runs xs) (length xs) [] xs); [exact Hso|cbn; lia|lia|lia|pose proof (rep_size _ _ _ Hr); lia|]);
    intros h1 out (xs1 & Hso1 & Hr1 & Hout); destruct (Z.ltb_spec 1 out); wp_step.
  - lia.
  - eapply HQ; [exact Hso1|]. apply runs_one. lia.
  - eapply IH; [exact Hso1|lia|lia|exact HQ].
  - eapply HQ; [exact Hso1|]. apply runs_one. lia.
Qed.
End merge.

(** [list_sort] stops and sorts: the list then holds what inserting its elements
    one after the other gives, which is in order, a permutation of the elements, and
    keeps equal elements in the order they had; only the list's own links change. *)
Theorem list_sort_sorts h l xs : rep h l xs ->
  mwp (list_sort less l) h (fun _ h' => rep h' l (insertion_sort less xs) /\ same_but h (nodes l xs) h' /\
    KList.in_order less (insertion_sort less xs) /\ insertion_sort less xs ≡ₚ xs).
Proof.
  intros Hr. unfold list_sort, walk_fuel. wp_step. eapply not_null_list; [done|]. wp_step. wp_step. wp_step.
  eapply (sort_loop h l xs (runs xs) xs); [by split|done| |].
  { pose proof (rep_size _ _ _ Hr). pose proof (runs_length xs). lia. }
  intros h' xs' [Hr' Hb Hi] Hrun. pose proof (run_in_order _ Hrun) as Ho. rewrite (isort_id _ Ho) in Hi. subst xs'.
  wp_step. eapply list_begin_spec; [done|]. wp_step. eapply list_end_spec; [done|]. unfold assert_b.
  wp_step. eapply (is_sorted_spec _ _ _ Hr' [] (isort xs) []); [by rewrite app_nil_r|done|]. wp_step; [done|].
  split; [done|]. split; [done|]. split; [done|apply isort_perm].
Qed.
End spec.

(** Four elements, compared by their address modulo 16: two of them are equal. *)
Definition ex_less (a b : Z) : bool := (a mod 16 <? b mod 16).
#[global] Instance ex_strict_order : strict_order ex_less.
Proof. constructor; unfold ex_less; intros *; rewrite ?Z.ltb_ge, ?Z.ltb_lt; lia. Qed.
Definition ex_unsorted : heap :=
  list_to_map [(8, ListElem 0 120); (120, ListElem 8 104); (104, ListElem 120 98); (98, ListElem 104 49);
               (49, ListElem 98 16); (16, ListElem 49 0)].
Lemma ex_unsorted_rep : rep ex_unsorted 8 [120; 104; 98; 49].
Proof.
  split.
  - apply (bool_decide_eq_true_1 (NoDup (nodes 8 [120; 104; 98; 49]))). vm_compute. reflexivity.
  - apply (bool_decide_eq_true_1 (NULL ∉ nodes 8 [120; 104; 98; 49])). vm_compute. reflexivity.
  - cbn. repeat split.
Qed.
Lemma list_sort_sorts_witness : mwp (list_sort ex_less 8) ex_unsorted (fun _ h' => rep h' 8 [49; 98; 120; 104]).
Proof.
  eapply mwp_mono; [exact (list_sort_sorts ex_less ex_unsorted 8 [120; 104; 98; 49] ex_unsorted_rep)|].
  intros x h' (H & _). exact H.
Defined.
