(* ===== verification/Stdio.v ===== *)
(** * Stdio: formatted output (lib/stdio.c, lib/user/console.c) and [atoi]

    [__vprintf] hands every character to a function of its caller.  The model takes
    that function as an argument, with the state it works on, so that [vsnprintf], the
    console of user programs and the reference that only collects characters are the
    same code with three callbacks.  Characters are bytes; the format is the string
    before its terminator; [args] is what is left of the argument area, 32-bit words
    of the stack; strings to print are read from [memory]. *)
From Stdlib Require Import Ascii String.
From stdpp Require Import strings.
From S2P Require Import Prelude.
From S2P Require Import CString.

(** ** Characters *)
Definition chr (c : Ascii.ascii) : Z := Z.of_N (Ascii.N_of_ascii c).
Fixpoint lit (s : string) : list Z :=
  match s with EmptyString => [] | String c s => chr c :: lit s end.
Notation "x =c c" := (x =? chr c%char) (at level 70) : cint_scope.
Definition isdigit (c : Z) : bool := (chr "0" <=? c) && (c <=? chr "9").
Definition isprint (c : Z) : bool := (32 <=? c) && (c <? 127).
(** Space, form feed, new line, carriage return, tabulators. *)
Definition isspace (c : Z) : bool :=
  (c =c " ") || (c =? 12) || (c =? 10) || (c =? 13) || (c =? 9) || (c =? 11).

(** ** Conversions *)
Definition MINUS : Z := 1.
Definition PLUS : Z := 2.
Definition SPACE : Z := 4.
Definition POUND : Z := 8.
Definition ZERO : Z := 16.
Definition GROUP : Z := 32.
Inductive arg_type := CHAR | SHORT | INT | INTMAX | LONG | LONGLONG | PTRDIFFT | SIZET.
Record printf_conversion := Conversion { flags : Z; width : Z; precision : Z; type : arg_type }.
Record integer_base := Base { base : Z; digits : list Z; x_char : Z; group : Z }.
Definition base_d : integer_base := Base 10 (lit "0123456789") 0 3.
Definition base_o : integer_base := Base 8 (lit "01234567") 0 3.
Definition base_x : integer_base := Base 16 (lit "0123456789abcdef") (chr "x") 4.
Definition base_X : integer_base := Base 16 (lit "0123456789ABCDEF") (chr "X") 4.
Definition has (fl f : Z) : bool := negb (Z.land fl f =? 0).

(** *** [va_arg] *)
Definition va_word (args : list Z) : res (Z * list Z) :=
  match args with w :: args => Ok (w, args) | [] => Fault end.
Definition va_long_long (args : list Z) : res (Z * list Z) :=
  '(lo, args) ← va_word args; '(hi, args) ← va_word args; mret (u64 (hi * 2 ^ 32 + lo), args).

(** *** [parse_conversion] *)
Definition flag_of (c : Z) : Z :=
  if c =c "-" then MINUS else if c =c "+" then PLUS else if c =c " " then SPACE
  else if c =c "#" then POUND else if c =c "0" then ZERO else if c =c "'" then GROUP else 0.
Fixpoint parse_flags (fl : Z) (format : list Z) : Z * list Z :=
  match format with
  | [] => (fl, [])
  | c :: format' => if flag_of c =? 0 then (fl, format) else parse_flags (Z.lor fl (flag_of c)) format'
  end.
(** The loops over the digits of a width or precision. *)
Fixpoint parse_number (n : Z) (format : list Z) : Z * list Z :=
  match format with
  | [] => (n, [])
  | c :: format' => if isdigit c then parse_number (s32 (s32 (s32 (n * 10) + c) - chr "0")) format' else (n, format)
  end.
Definition next_is (c : Ascii.ascii) (format : list Z) : bool :=
  match format with x :: _ => x =c c | [] => false end.
Definition parse_width (format args : list Z) : res (Z * list Z * list Z) :=
  if next_is "*" format then '(w, args) ← va_word args; mret (s32 w, tail format, args)
  else let '(n, format) := parse_number 0 format in mret (n, format, args).
Definition parse_precision (format args : list Z) : res (Z * list Z * list Z) :=
  if next_is "." format then
    let format := tail format in
    '(p, format, args) ← parse_width format args;
    mret (if p <? 0 then -1 else p, format, args)
  else mret (-1, format, args).
Definition parse_type (format : list Z) : arg_type * list Z :=
  if next_is "h" format then
    let format := tail format in
    if next_is "h" format then (CHAR, tail format) else (SHORT, format)
  else if next_is "j" format then (INTMAX, tail format)
  else if next_is "l" format then
    let format := tail format in
    if next_is "l" format then (LONGLONG, tail format) else (LONG, format)
  else if next_is "t" format then (PTRDIFFT, tail format)
  else if next_is "z" format then (SIZET, tail format)
  else (INT, format).
Definition clear (fl f : Z) : Z := Z.land fl (Z.lnot f).
Definition parse_conversion (format args : list Z) : res (list Z * printf_conversion * list Z) :=
  let '(fl, format) := parse_flags 0 format in
  let fl := if has fl MINUS then clear fl ZERO else fl in
  let fl := if has fl PLUS then clear fl SPACE else fl in
  '(w, format, args) ← parse_width format args;
  let '(w, fl) := if w <? 0 then (s32 (- w), Z.lor fl MINUS) else (w, fl) in
  '(p, format, args) ← parse_precision format args;
  let fl := if 0 <=? p then clear fl ZERO else fl in
  let '(t, format) := parse_type format in
  mret (format, Conversion fl w p t, args).

(** *** Integers *)
(** The characters in [buf], the newest first: [cp - buf] is their number. *)
Definition push (ch : Z) (buf : list Z) : res (list Z) := if zlen buf <? 64 then Ok (ch :: buf) else Fault.
Definition digit_body (b : integer_base) (fl : Z) (s : Z * list Z * Z) : res (Z * list Z * Z + list Z) :=
  let '(value, buf, digit_cnt) := s in
  if 0 <? value then
    buf ← (if has fl GROUP && (0 <? digit_cnt) && (digit_cnt mod group b =? 0) then push (chr ",") buf else mret buf);
    d ← deref (znth (digits b) (value mod base b));
    buf ← push d buf;
    mret (inl (value / base b, buf, digit_cnt + 1))
  else mret (inr buf).
Definition zero_body (precision : Z) (buf : list Z) : res (list Z + list Z) :=
  if (zlen buf <? precision) && (zlen buf <? 63) then buf ← push (chr "0") buf; mret (inl buf) else mret (inr buf).
Definition sign_char (fl : Z) (is_signed negative : bool) : Z :=
  if is_signed then
    if has fl PLUS then (if negative then chr "-" else chr "+")
    else if has fl SPACE then (if negative then chr "-" else chr " ")
    else if negative then chr "-" else 0
  else 0.
(** What [va_arg] yields for [%d] and [%i], and for [%o], [%u], [%x] and [%X]. *)
Definition signed_arg (t : arg_type) (args : list Z) : res (Z * list Z) :=
  match t with
  | INTMAX | LONGLONG => '(v, args) ← va_long_long args; mret (s64 v, args)
  | _ =>
      '(w, args) ← va_word args;
      mret (match t with
            | CHAR => (w + 128) mod 256 - 128
            | SHORT => (w + 32768) mod 65536 - 32768
            | SIZET => let value := u32 w in if (2 ^ 32 - 1) / 2 <? value then value - (2 ^ 32 - 1) - 1 else value
            | _ => s32 w
            end, args)
  end.
Definition unsigned_arg (t : arg_type) (args : list Z) : res (Z * list Z) :=
  match t with
  | INTMAX | LONGLONG => va_long_long args
  | _ =>
      '(w, args) ← va_word args;
      mret (match t with
            | CHAR => u8 w
            | SHORT => w mod 65536
            | PTRDIFFT => Z.land (u64 (s32 w)) (2 ^ 32 - 1)
            | _ => u32 w
            end, args)
  end.

(** ** Output *)
Section printf.
Context {A : Type} (output : Z -> M A unit).
(** The memory the strings to print are in. *)
Variable memory : gmap Z Z.

(** The characters of [l], one after the other. *)
Fixpoint outputs (l : list Z) : M A unit :=
  match l with [] => mret tt | ch :: l => _ ← output ch; outputs l end.
Fixpoint dup (n : nat) (ch : Z) : M A unit :=
  match n with O => mret tt | S n => _ ← output ch; dup n ch end.
Definition output_dup (ch cnt : Z) : M A unit := dup (Z.to_nat cnt) ch.
Definition output_if (c : bool) (m : M A unit) : M A unit := if c then m else mret tt.

Definition format_integer (value : Z) (is_signed negative : bool) (b : integer_base) (c : printf_conversion) : M A unit :=
  let fl := flags c in
  let sign := sign_char fl is_signed negative in
  let x := if has fl POUND && negb (value =? 0) then x_char b else 0 in
  buf ← lift (loop 65 (digit_body b fl) (value, [], 0));
  let precision := if precision c <? 0 then 1 else precision c in
  buf ← lift (loop 65 (zero_body precision) buf);
  buf ← (if has fl POUND && (base b =? 8) && negb (next_is "0" buf) then lift (push (chr "0") buf) else mret buf);
  let pad_cnt := width c - zlen buf - (if x =? 0 then 0 else 2) - (if sign =? 0 then 0 else 1) in
  let pad_cnt := if pad_cnt <? 0 then 0 else pad_cnt in
  _ ← output_if (Z.land fl (Z.lor MINUS ZERO) =? 0) (output_dup (chr " ") pad_cnt);
  _ ← output_if (negb (sign =? 0)) (output sign);
  _ ← output_if (negb (x =? 0)) (_ ← output (chr "0"); output x);
  _ ← output_if (has fl ZERO) (output_dup (chr "0") pad_cnt);
  _ ← outputs buf;
  output_if (has fl MINUS) (output_dup (chr " ") pad_cnt).

(** The [length] characters at [string]. *)
Fixpoint string_chars (string : Z) (length : nat) : M A unit :=
  match length with
  | O => mret tt
  | S n => ch ← lift (deref (memory !! string)); _ ← output ch; string_chars (string + 1) n
  end.
(** [chars] prints the characters of the string. *)
Definition format_string (chars : M A unit) (length : Z) (c : printf_conversion) : M A unit :=
  _ ← output_if ((length <? width c) && negb (has (flags c) MINUS)) (output_dup (chr " ") (width c - length));
  _ ← chars;
  output_if ((length <? width c) && has (flags c) MINUS) (output_dup (chr " ") (width c - length)).

(** The switch of [__vprintf]; [print] is [__vprintf] itself. *)
Definition convert (print : list Z -> list Z -> M A unit) (ch : Z) (c : printf_conversion) (args : list Z) : M A (list Z) :=
  if (ch =c "d") || (ch =c "i") then
    '(value, args) ← lift (signed_arg (type c) args);
    _ ← format_integer (u64 (if value <? 0 then s64 (- value) else value)) true (value <? 0) base_d c; mret args
  else if (ch =c "o") || (ch =c "u") || (ch =c "x") || (ch =c "X") then
    '(value, args) ← lift (unsigned_arg (type c) args);
    let b := if ch =c "o" then base_o else if ch =c "u" then base_d else if ch =c "x" then base_x else base_X in
    _ ← format_integer value false false b c; mret args
  else if ch =c "c" then
    '(w, args) ← lift (va_word args); _ ← format_string (output (u8 w)) 1 c; mret args
  else if ch =c "s" then
    '(s, args) ← lift (va_word args);
    if s =? NULL then
      let n := Z.min 6 (u32 (precision c)) in
      _ ← format_string (outputs (take (Z.to_nat n) (lit "(null)"))) n c; mret args
    else
      r ← lift (strnlen s (u32 (precision c)) memory);
      let length := s32 (fst r) in
      _ ← format_string (string_chars s (Z.to_nat length)) length c; mret args
  else if ch =c "p" then
    '(p, args) ← lift (va_word args);
    _ ← format_integer (u32 p) false false base_x (Conversion POUND (width c) (precision c) (type c)); mret args
  else if (ch =c "f") || (ch =c "e") || (ch =c "E") || (ch =c "g") || (ch =c "G") || (ch =c "n") then
    _ ← print (lit "<<no %%%c in kernel>>") [ch]; mret args
  else _ ← print (lit "<<no %%%c conversion>>") [ch]; mret args.
(** A character of the format per turn; the call of itself on a constant format
    needs the 24 characters of that. *)
Fixpoint vprintf_loop (fuel : nat) (format args : list Z) : M A unit :=
  match fuel with
  | O => hang
  | S fuel =>
      match format with
      | [] => mret tt
      | ch :: format =>
          if negb (ch =c "%") then _ ← output ch; vprintf_loop fuel format args
          else if next_is "%" format then _ ← output (chr "%"); vprintf_loop fuel (tail format) args
          else
            '(format, c, args) ← lift (parse_conversion format args);
            args ← convert (vprintf_loop fuel) (hd 0 format) c args;
            match format with
            | [] => fault
            | _ :: format => vprintf_loop fuel format args
            end
      end
  end.
Definition __vprintf (format args : list Z) : M A unit := vprintf_loop (length format + 25) format args.
End printf.

(** ** [vsnprintf] *)
(** [buffer] is the caller's, [p] an offset in it. *)
Record vsnprintf_aux := Aux { p : Z; length : Z; max_length : Z; buffer : list Z }.
Definition vsnprintf_helper (ch : Z) : M vsnprintf_aux unit :=
  aux ← get;
  if length aux <? max_length aux then
    b ← lift (deref (zset (buffer aux) (p aux) ch));
    put (Aux (p aux + 1) (s32 (length aux + 1)) (max_length aux) b)
  else put (Aux (p aux) (s32 (length aux + 1)) (max_length aux) (buffer aux)).
(** The return value and the buffer. *)
Definition vsnprintf (memory : gmap Z Z) (buf : list Z) (buf_size : Z) (format args : list Z) : res (Z * list Z) :=
  r ← __vprintf vsnprintf_helper memory format args (Aux 0 0 (if 0 <? buf_size then s32 (buf_size - 1) else 0) buf);
  let aux := snd r in
  b ← (if 0 <? buf_size then deref (zset (buffer aux) (p aux) 0) else mret (buffer aux));
  mret (length aux, b).
Definition snprintf := vsnprintf.

(** ** The console of user programs *)
(** [written] are the calls of [write] made so far: the handle and the bytes. *)
Record vhprintf_aux := HAux { buf : list Z; pos : Z; char_cnt : Z; handle : Z; written : list (Z * list Z) }.
Definition flush : M vhprintf_aux unit :=
  aux ← get;
  put (HAux (buf aux) 0 (char_cnt aux) (handle aux)
    (if 0 <? pos aux then written aux ++ [(handle aux, take (Z.to_nat (pos aux)) (buf aux))] else written aux)).
Definition add_char (c : Z) : M vhprintf_aux unit :=
  aux ← get;
  b ← lift (deref (zset (buf aux) (pos aux) c));
  _ ← put (HAux b (pos aux + 1) (char_cnt aux) (handle aux) (written aux));
  _ ← (if 64 <=? pos aux + 1 then flush else mret tt);
  modify (fun aux => HAux (buf aux) (pos aux) (s32 (char_cnt aux + 1)) (handle aux) (written aux)).
(** [garbage] is what the buffer holds before. *)
Definition vhprintf (garbage : list Z) (memory : gmap Z Z) (h : Z) (format args : list Z) : res (Z * list (Z * list Z)) :=
  r ← (_ ← __vprintf add_char memory format args; flush) (HAux garbage 0 0 h []);
  mret (char_cnt (snd r), written (snd r)).
Definition hprintf := vhprintf.
Definition STDOUT_FILENO : Z := 1.
Definition vprintf (garbage : list Z) (memory : gmap Z Z) (format args : list Z) : res (Z * list (Z * list Z)) :=
  vhprintf garbage memory STDOUT_FILENO format args.

(** ** Reference: the characters printed *)
Definition collect (ch : Z) : M (list Z) unit := modify (fun out => out ++ [ch]).
Definition printed (memory : gmap Z Z) (format args : list Z) : res (list Z) :=
  r ← __vprintf collect memory format args []; mret (snd r).

(** ** Dumps and sizes *)
Section dump.
Context {A : Type} (output : Z -> M A unit).
(** [printf] of a literal; no string arguments. *)
Definition print (format : string) (args : list Z) : M A unit := __vprintf output ∅ (lit format) args.
(** [for (; i < end; i++)] *)
Fixpoint repeat_from (n : nat) (i : Z) (body : Z -> M A unit) : M A unit :=
  match n with O => mret tt | S n => _ ← body i; repeat_from n (i + 1) body end.
Definition up_to (i end_ : Z) (body : Z -> M A unit) : M A unit := repeat_from (Z.to_nat (end_ - i)) i body.
Definition per_line : Z := 16.
Definition hex_dump_line (ofs : Z) (buf : list Z) (start end_ : Z) (ascii : bool) : M A unit :=
  _ ← print "%08jx  " [u32 (ofs / per_line * per_line); 0];
  _ ← up_to 0 start (fun _ => print "   " []);
  _ ← up_to start end_ (fun i =>
        x ← lift (deref (znth buf (i - start)));
        print "%02hhx%c" [x; if i =? per_line / 2 - 1 then chr "-" else chr " "]);
  _ ← output_if ascii (
    _ ← up_to end_ per_line (fun _ => print "   " []);
    _ ← print "|" [];
    _ ← up_to 0 start (fun _ => print " " []);
    _ ← up_to start end_ (fun i =>
          x ← lift (deref (znth buf (i - start))); print "%c" [if isprint x then x else chr "."]);
    _ ← up_to end_ per_line (fun _ => print " " []);
    print "|" []);
  output (10).
Fixpoint hex_dump_loop (fuel : nat) (ofs : Z) (buf : list Z) (size : Z) (ascii : bool) : M A unit :=
  match fuel with
  | O => hang
  | S fuel =>
      if 0 <? size then
        let start := ofs mod per_line in
        let end_ := if size <? per_line - start then start + size else per_line in
        let n := end_ - start in
        _ ← hex_dump_line ofs buf start end_ ascii;
        hex_dump_loop fuel (ofs +u n) (drop (Z.to_nat n) buf) (size - n) ascii
      else mret tt
  end.
Definition hex_dump (ofs : Z) (buf : list Z) (size : Z) (ascii : bool) : M A unit :=
  hex_dump_loop (S (Z.to_nat size)) ofs buf size ascii.
Fixpoint human_loop (size : Z) (fp : string) (factors : list string) : Z * string :=
  match factors with
  | [] => (size, fp)
  | f :: factors => if 1024 <=? size then human_loop (size / 1024) f factors else (size, fp)
  end.
(** [%s] of a literal: its characters. *)
Definition print_human_readable_size (size : Z) : M A unit :=
  if size =? 1 then print "1 byte" []
  else
    let '(size, fp) := human_loop size "bytes" ["kB"; "MB"; "GB"; "TB"] in
    _ ← print "%llu " [u32 size; size / 2 ^ 32]; outputs output (lit fp).
End dump.
(** "0123" is dumped at offset 6. *)
Example hex_dump_ex : snd <$> hex_dump collect 6 [48; 49; 50; 51] 4 true [] =
  Ok (lit "00000000  " ++ lit "                  30 31-32 33                   |      0123      |" ++ [10]).
Proof. vm_compute. reflexivity. Qed.

(** ** [atoi] *)
(** [s] is the memory from the string on. *)
Fixpoint skip_space (s : list Z) : res (list Z) :=
  match s with [] => Fault | c :: s' => if isspace c then skip_space s' else Ok s end.
Fixpoint atoi_digits (value : Z) (s : list Z) : res Z :=
  match s with
  | [] => Fault
  | c :: s' => if isdigit c then atoi_digits (s32 (s32 (value * 10) - (c - chr "0"))) s' else Ok value
  end.
Definition atoi (s : list Z) : res Z :=
  s ← skip_space s;
  let negative := next_is "-" s in
  let s := if next_is "+" s || next_is "-" s then tail s else s in
  value ← atoi_digits 0 s;
  mret (if negative then value else s32 (- value)).

(** [m'] does with its own state what [m] does, as long as an [int] can count the
    characters; [m] only adds characters. *)
Section sim.
Context {B : Type} (R : list Z -> B -> Prop).
Definition sim {X} (m : M (list Z) X) (m' : M B X) : Prop :=
  (forall out x out', m out = Ok (x, out') -> zlen out <= zlen out') /\
  (forall out b x out', R out b -> m out = Ok (x, out') -> zlen out' < 2 ^ 31 -> exists b', m' b = Ok (x, b') /\ R out' b').
Lemma sim_ret {X} (x : X) : sim (mret x) (mret x).
Proof. split; [by intros out y out' [= <- <-]|]. intros out b y out' HR [= <- <-] _. by exists b. Qed.
Lemma sim_lift {X} (r : res X) : sim (lift r) (lift r).
Proof.
  split; intros out; unfold lift; destruct r; try done; [by intros y out' [= <- <-]|].
  intros b y out' HR [= <- <-] _. by exists b.
Qed.
Lemma sim_fail {X} (r : M (list Z) X) r' : (forall out, match r out with Ok _ => False | _ => True end) -> sim r r'.
Proof. intros H. split; intros out; specialize (H out); intros * ; [intros E|intros ? E]; by rewrite E in H. Qed.
Lemma sim_bind {X Y} (m : M (list Z) X) m' (f : X -> M (list Z) Y) f' :
  sim m m' -> (forall x, sim (f x) (f' x)) -> sim (m ≫= f) (m' ≫= f').
Proof.
  intros [Hg Hm] Hf. split.
  - intros out y out' E. unfold mbind, M_bind in E. destruct (m out) as [[x out1]| | |] eqn:Em; try done.
    apply Hg in Em. apply (proj1 (Hf x)) in E. lia.
  - intros out b y out' HR E Hl. unfold mbind, M_bind in *. destruct (m out) as [[x out1]| | |] eqn:Em; try done.
    pose proof (proj1 (Hf x) _ _ _ E). destruct (Hm _ _ _ _ HR Em ltac:(lia)) as (b1 & -> & HR1).
    by eapply (Hf x).
Qed.
Lemma sim_if {X} (c : bool) (m1 m2 : M (list Z) X) m1' m2' : sim m1 m1' -> sim m2 m2' -> sim (if c then m1 else m2) (if c then m1' else m2').
Proof. by destruct c. Qed.

Context (output' : Z -> M B unit) (Hout : forall ch, sim (collect ch) (output' ch)) (memory : gmap Z Z).
Ltac sim_one := first [apply sim_ret | apply sim_lift | apply Hout | apply sim_bind; [|intros ?] | apply sim_if].
Ltac sim_step := repeat sim_one.
Lemma sim_outputs l : sim (outputs collect l) (outputs output' l).
Proof. induction l; cbn [outputs]; sim_step. done. Qed.
Lemma sim_dup n ch : sim (dup collect n ch) (dup output' n ch).
Proof. induction n; cbn [dup]; sim_step. done. Qed.
Lemma sim_string_chars n s : sim (string_chars collect memory s n) (string_chars output' memory s n).
Proof. revert s. induction n; intros s; cbn [string_chars]; sim_step. done. Qed.
Lemma sim_format_integer value is_signed negative b c :
  sim (format_integer collect value is_signed negative b c) (format_integer output' value is_signed negative b c).
Proof.
  unfold format_integer, output_if, output_dup. cbv zeta.
  repeat first [apply sim_dup | apply sim_outputs | sim_one].
Qed.
Lemma sim_format_string chars chars' length c : sim chars chars' -> sim (format_string collect chars length c) (format_string output' chars' length c).
Proof. intros H. unfold format_string, output_if, output_dup. repeat first [exact H | apply sim_dup | sim_one]. Qed.
Lemma sim_convert print print' ch c args : (forall f a, sim (print f a) (print' f a)) ->
  sim (convert collect memory print ch c args) (convert output' memory print' ch c args).
Proof.
  intros Hp. unfold convert. cbv zeta.
  repeat first [apply sim_format_integer | apply Hp | apply sim_format_string | apply sim_outputs | apply sim_string_chars
    | sim_one | match goal with x : _ * _ |- _ => destruct x end].
Qed.
Lemma sim_vprintf fuel format args : sim (vprintf_loop collect memory fuel format args) (vprintf_loop output' memory fuel format args).
Proof.
  revert format args. induction fuel as [|fuel IH]; intros format args; cbn [vprintf_loop]; [by apply sim_fail|].
  destruct format as [|ch format]; [apply sim_ret|].
  repeat first [apply IH | apply sim_convert | sim_one | match goal with x : _ * _ |- _ => destruct x end].
  match goal with |- sim (match ?f with [] => _ | _ :: _ => _ end) _ => destruct f end; [by apply sim_fail|apply IH].
Qed.
Lemma sim_printed format args b L : R [] b -> printed memory format args = Ok L -> zlen L < 2 ^ 31 ->
  exists b', __vprintf output' memory format args b = Ok (tt, b') /\ R L b'.
Proof.
  intros HR E Hl. unfold printed in E. destruct (__vprintf collect memory format args []) as [[[] out']| | |] eqn:E2; try done.
  injection E as <-. eapply sim_vprintf; [exact HR|exact E2|done].
Qed.
End sim.

(** ** What [vsnprintf] leaves in its buffer *)
Definition filled (mx : Z) (buf0 : list Z) (out : list Z) (aux : vsnprintf_aux) : Prop :=
  aux = Aux (Z.min (zlen out) mx) (zlen out) mx (take (Z.to_nat mx) out ++ drop (Z.to_nat (Z.min (zlen out) mx)) buf0).
Lemma zlen_snoc {X} (l : list X) x : zlen (l ++ [x]) = zlen l + 1.
Proof. unfold zlen. rewrite length_app. cbn. lia. Qed.
Lemma zset_after {X} (l r : list X) x : r <> [] -> zset (l ++ r) (zlen l) x = Some (l ++ x :: tail r).
Proof.
  intros Hr. destruct r as [|y r]; [done|]. rewrite zset_Some by (unfold zlen; rewrite length_app; cbn; lia).
  f_equal. unfold zlen. rewrite Nat2Z.id. by rewrite insert_app_r_alt, Nat.sub_diag by lia.
Qed.
Lemma tail_drop {X} (l : list X) n : tail (drop n l) = drop (S n) l.
Proof. revert l. induction n as [|n IH]; intros [|x l]; try done. apply IH. Qed.
Lemma drop_ne {X} (l : list X) n : (n < List.length l)%nat -> drop n l <> [].
Proof. intros H E. apply (f_equal List.length) in E. rewrite length_drop in E. cbn in E. lia. Qed.
Lemma filled_step mx buf0 ch : 0 <= mx < zlen buf0 -> sim (filled mx buf0) (collect ch) (vsnprintf_helper ch).
Proof.
  intros Hmx. split; [intros out x out' [= <- <-]; rewrite zlen_snoc; lia|].
  intros out b x out' -> [= <- <-] Hl. rewrite zlen_snoc in Hl. pose proof (zlen_nonneg out).
  unfold vsnprintf_helper, mbind, M_bind, get, put, lift. cbn [length max_length p buffer].
  rewrite s32_small by (unfold is_s32; lia). unfold filled. rewrite zlen_snoc. destruct (Z.ltb_spec (zlen out) mx) as [Hlt|Hge].
  - rewrite !Z.min_l by lia. rewrite (take_ge out) by (unfold zlen in Hlt; lia). rewrite zset_after by (apply drop_ne; unfold zlen in *; lia).
    eexists. split; [reflexivity|]. f_equal. rewrite (take_ge (out ++ [ch])) by (rewrite length_app; unfold zlen in Hlt; cbn; lia).
    rewrite tail_drop, <- app_assoc. cbn. do 3 f_equal. lia.
  - rewrite !Z.min_r by lia. eexists. split; [reflexivity|]. f_equal.
    rewrite take_app_le by (unfold zlen in *; lia). done.
Qed.
Lemma vsnprintf_fills memory format args buf buf_size L :
  printed memory format args = Ok L -> zlen L < 2 ^ 31 -> 0 < buf_size <= zlen buf -> buf_size <= 2 ^ 31 ->
  vsnprintf memory buf buf_size format args =
    let kept := take (Z.to_nat (buf_size - 1)) L in
    Ok (zlen L, kept ++ [0] ++ drop (S (List.length kept)) buf).
Proof.
  intros E Hl Hs Hb. unfold vsnprintf. rewrite (proj2 (Z.ltb_lt 0 buf_size)), s32_small by (unfold is_s32; lia).
  assert (Hm : 0 <= buf_size - 1 < zlen buf) by lia.
  destruct (sim_printed (filled (buf_size - 1) buf) vsnprintf_helper (fun ch => filled_step _ buf ch Hm) memory format args
    (Aux 0 0 (buf_size - 1) buf) L) as (b & -> & ->); [|exact E|exact Hl|].
  { unfold filled. rewrite take_nil. change (zlen (@nil Z)) with 0. rewrite Z.min_l by lia. done. }
  cbn -[take drop zset]. pose proof (zlen_nonneg L). set (kept := take (Z.to_nat (buf_size - 1)) L).
  assert (Hk : zlen kept = Z.min (zlen L) (buf_size - 1)) by (unfold kept, zlen in *; rewrite length_take; lia).
  rewrite <- Hk, zset_after by (apply drop_ne; unfold zlen in *; lia). cbn. rewrite tail_drop. unfold zlen at 2. by rewrite Nat2Z.id.
Qed.
(** C31. [vsnprintf] prints what the format asks for, cut to the size of the buffer: it
    writes [buf_size] bytes at most and a terminator always, leaves the rest of the
    buffer alone, and returns the length of the whole output. *)
Theorem vsnprintf_truncates memory format args buf buf_size L :
  printed memory format args = Ok L -> zlen L < 2 ^ 31 -> 0 < buf_size <= zlen buf -> buf_size <= 2 ^ 31 ->
  vsnprintf memory buf buf_size format args =
    let kept := take (Z.to_nat (buf_size - 1)) L in
    Ok (zlen L, kept ++ [0] ++ drop (S (List.length kept)) buf).
Proof. apply vsnprintf_fills. Qed.
Lemma vsnprintf_truncates_witness :
  vsnprintf (bytes_mem 10 [97; 98; 0]) (replicate 9 255) 8 (lit "%-4s|%+05d") [10; 42] =
    Ok (10, lit "ab  |+0" ++ [0; 255]).
Proof.
  apply (vsnprintf_truncates (bytes_mem 10 [97; 98; 0]) (lit "%-4s|%+05d") [10; 42] (replicate 9 255) 8 (lit "ab  |+0042"));
    [vm_compute; reflexivity|reflexivity|split; [reflexivity|discriminate]|discriminate].
Defined.

(** ** What a program writes to the console *)
Definition buffered (h : Z) (out : list Z) (aux : vhprintf_aux) : Prop :=
  zlen (buf aux) = 64 /\ 0 <= pos aux < 64 /\ char_cnt aux = zlen out /\ handle aux = h /\
  Forall (fun w => w.1 = h /\ 0 < zlen w.2 <= 64) (written aux) /\
  concat (written aux).*2 ++ take (Z.to_nat (pos aux)) (buf aux) = out.
Lemma flush_spec h out aux : zlen (buf aux) = 64 -> 0 <= pos aux <= 64 -> handle aux = h ->
  Forall (fun w => w.1 = h /\ 0 < zlen w.2 <= 64) (written aux) -> concat (written aux).*2 ++ take (Z.to_nat (pos aux)) (buf aux) = out ->
  exists aux', flush aux = Ok (tt, aux') /\ zlen (buf aux') = 64 /\ pos aux' = 0 /\ char_cnt aux' = char_cnt aux /\ handle aux' = h /\
    Forall (fun w => w.1 = h /\ 0 < zlen w.2 <= 64) (written aux') /\ concat (written aux').*2 = out.
Proof.
  intros Hb Hp Hh Hw Ho. eexists. split; [reflexivity|]. cbn. split; [done|]. split; [done|]. split; [done|]. split; [done|].
  destruct (Z.ltb_spec 0 (pos aux)).
  - split.
    + apply Forall_app. split; [done|]. constructor; [|constructor]. cbn. unfold zlen in *. rewrite length_take. split; [done|lia].
    + by rewrite fmap_app, concat_app, <- Ho; cbn; rewrite app_nil_r.
  - split; [done|]. replace (Z.to_nat (pos aux)) with 0%nat in Ho by lia. by rewrite app_nil_r in Ho.
Qed.
Lemma buffered_step h ch : sim (buffered h) (collect ch) (add_char ch).
Proof.
  split; [intros out x out' [= <- <-]; rewrite zlen_snoc; lia|].
  intros out aux x out' (Hb & Hp & Hc & Hh & Hw & Ho) [= <- <-] Hl. rewrite zlen_snoc in Hl. pose proof (zlen_nonneg out).
  unfold add_char. assert (Ez : zset (buf aux) (pos aux) ch = Some (<[Z.to_nat (pos aux) := ch]> (buf aux))) by (apply zset_Some; lia).
  set (aux1 := HAux (<[Z.to_nat (pos aux) := ch]> (buf aux)) (pos aux + 1) (char_cnt aux) (handle aux) (written aux)).
  assert (Ho1 : concat (written aux1).*2 ++ take (Z.to_nat (pos aux1)) (buf aux1) = out ++ [ch]).
  { cbn. rewrite <- Ho, <- app_assoc. f_equal. replace (Z.to_nat (pos aux + 1)) with (S (Z.to_nat (pos aux))) by lia.
    rewrite (take_S_r _ _ ch) by (apply list_lookup_insert_eq; unfold zlen in Hb; lia). by rewrite take_insert_ge by lia. }
  assert (Hb1 : zlen (buf aux1) = 64) by (cbn; by rewrite zlen_insert).
  assert (Hfin : forall aux2, zlen (buf aux2) = 64 -> 0 <= pos aux2 < 64 -> char_cnt aux2 = char_cnt aux -> handle aux2 = h ->
      Forall (fun w => w.1 = h /\ 0 < zlen w.2 <= 64) (written aux2) -> concat (written aux2).*2 ++ take (Z.to_nat (pos aux2)) (buf aux2) = out ++ [ch] ->
      buffered h (out ++ [ch]) (HAux (buf aux2) (pos aux2) (s32 (char_cnt aux2 + 1)) (handle aux2) (written aux2))).
  { intros aux2 H1 H2 H3 H4 H5 H6. unfold buffered. cbn. rewrite H3, Hc, s32_small by (unfold is_s32; lia).
    rewrite zlen_snoc. done. }
  unfold mbind, M_bind, get, put, lift, modify. rewrite Ez. cbn [deref]. fold aux1.
  destruct (Z.leb_spec 64 (pos aux + 1)).
  - destruct (flush_spec h (out ++ [ch]) aux1) as (aux2 & -> & H1 & H2 & H3 & H4 & H5 & H6); [done|cbn; lia|done|done|done|].
    eexists. split; [reflexivity|]. apply Hfin; try done; [lia|]. rewrite H2. cbn. by rewrite app_nil_r.
  - eexists. split; [reflexivity|]. apply (Hfin aux1); try done. cbn. lia.
Qed.
(** A program's [printf] writes exactly the characters of the format, in order, in
    pieces of 64 at most and none empty, and returns how many there are. *)
Theorem vhprintf_writes garbage memory h format args L :
  printed memory format args = Ok L -> zlen L < 2 ^ 31 -> zlen garbage = 64 ->
  exists ws, vhprintf garbage memory h format args = Ok (zlen L, ws) /\ concat ws.*2 = L /\
    Forall (fun w => w.1 = h /\ 0 < zlen w.2 <= 64) ws.
Proof.
  intros E Hl Hg. unfold vhprintf.
  destruct (sim_printed (buffered h) add_char (buffered_step h) memory format args (HAux garbage 0 0 h []) L) as (aux & E2 & HR);
    [|exact E|exact Hl|].
  { repeat split; done || constructor. }
  destruct HR as (H1 & H2 & H3 & H4 & H5 & H6). unfold mbind at 2, M_bind. rewrite E2.
  destruct (flush_spec h L aux) as (aux2 & -> & _ & _ & Hc & _ & Hw & Ho); [done|lia|done..|].
  exists (written aux2). cbn. by rewrite Hc, H3.
Qed.
Lemma vhprintf_writes_witness : exists ws, vhprintf (replicate 64 0) ∅ 1 (lit "%70c%%%#x") [33; 255] = Ok (75, ws) /\
  concat ws.*2 = replicate 69 32 ++ lit "!%0xff" /\ Forall (fun w => w.1 = 1 /\ 0 < zlen w.2 <= 64) ws.
Proof.
  apply (vhprintf_writes (replicate 64 0) ∅ 1 (lit "%70c%%%#x") [33; 255] (replicate 69 32 ++ lit "!%0xff"));
    [vm_compute; reflexivity|reflexivity|reflexivity].
Defined.

(** ** Numbers *)
Definition value_from (B a : Z) (l : list Z) : Z := foldl (fun a ch => a * B + (ch - chr "0")) a l.
(** The digits of a base up to ten. *)
Definition is_digit (B ch : Z) : Prop := chr "0" <= ch < chr "0" + B.
Definition plain_base (b : integer_base) : Prop :=
  2 <= base b <= 10 /\ forall d, 0 <= d < base b -> znth (digits b) d = Some (chr "0" + d).
Lemma plain_bases : plain_base base_d /\ plain_base base_o.
Proof.
  assert (H : forall n (P : Z -> Prop), (forall k, (k < n)%nat -> P (Z.of_nat k)) -> forall d, 0 <= d < Z.of_nat n -> P d).
  { intros n P HP d Hd. rewrite <- (Z2Nat.id d) by lia. apply HP. lia. }
  split; (split; [cbn; lia|]).
  - apply (H 10%nat). intros k Hk. do 10 (destruct k as [|k]; [reflexivity|]). lia.
  - apply (H 8%nat). intros k Hk. do 8 (destruct k as [|k]; [reflexivity|]). lia.
Qed.
Lemma digits_spec b fl v K (Q : list Z -> Prop) : plain_base b -> has fl GROUP = false -> 0 <= v < base b ^ K -> 0 <= K <= 63 ->
  (forall ds, Forall (is_digit (base b)) ds -> value_from (base b) 0 ds = v -> zlen ds <= K -> (0 < v -> ds <> []) -> Q ds) ->
  wp (loop 65 (digit_body b fl) (v, [], 0)) Q.
Proof.
  intros [HB Hd] Hfl Hv HK HQ. set (B := base b) in *.
  apply (loop_wp (fun s => let '(x, ds, cnt) := s in Forall (is_digit B) ds /\ value_from B x ds = v /\ 0 <= x < B ^ (K - zlen ds) /\
      zlen ds <= K /\ (ds = [] -> x = v)) (fun s => let '(x, ds, cnt) := s in Z.to_nat (K - zlen ds))).
  2:{ split; [constructor|]. split; [done|]. change (zlen (@nil Z)) with 0. rewrite Z.sub_0_r. split; [lia|]. split; [lia|done]. }
  2:{ change (zlen (@nil Z)) with 0. lia. }
  intros [[x ds] cnt] (Hds & Hval & Hx & Hlen & Hnil). pose proof (zlen_nonneg ds) as Hl0. unfold digit_body. destruct (Z.ltb_spec 0 x) as [Hpos|Hz].
  - rewrite Hfl. cbn [andb]. fold B. assert (Hm : 0 <= x mod B < B) by (apply Z.mod_pos_bound; lia).
    assert (HlK : zlen ds < K).
    { destruct (Z.eq_dec (zlen ds) K) as [E|]; [|lia]. rewrite E, Z.sub_diag in Hx. cbn in Hx. lia. }
    apply wp_bind, wp_ret. apply wp_bind. eapply wp_deref; [by apply Hd|].
    apply wp_bind. unfold push. rewrite (proj2 (Z.ltb_lt _ _)) by lia. apply wp_ret, wp_ret.
    unfold zlen in *. cbn [List.length]. rewrite Nat2Z.inj_succ. split; [|lia].
    split; [constructor; [|done]; unfold is_digit; lia|]. split.
    + cbn. rewrite <- Hval. f_equal. pose proof (Z.div_mod x B). lia.
    + split; [|split; [lia|done]]. split; [apply Z.div_pos; lia|]. apply Z.div_lt_upper_bound; [lia|].
      rewrite <- Z.pow_succ_r by lia. replace (Z.succ (K - Z.succ (Z.of_nat (List.length ds)))) with (K - Z.of_nat (List.length ds)) by lia. lia.
  - apply wp_ret. assert (x = 0) by lia. subst x. apply HQ; [done|done|done|]. intros Hv0 ->. specialize (Hnil eq_refl). lia.
Qed.

(** [m] prints [L]. *)
Definition emits (m : M (list Z) unit) (L : list Z) : Prop := forall out, m out = Ok (tt, out ++ L).
Lemma emits_bind m m' L L' : emits m L -> emits m' L' -> emits (_ ← m; m') (L ++ L').
Proof. intros H H' out. unfold mbind, M_bind. by rewrite H, H', app_assoc. Qed.
Lemma emits_eq m L L' : emits m L -> L = L' -> emits m L'.
Proof. by intros ? <-. Qed.
Lemma emits_nil : emits (mret tt) [].
Proof. intros out. by rewrite app_nil_r. Qed.
Lemma emits_one ch : emits (collect ch) [ch].
Proof. done. Qed.
Lemma emits_outputs l : emits (outputs collect l) l.
Proof. induction l as [|ch l IH]; [exact emits_nil|]. exact (emits_bind _ _ [ch] l (emits_one ch) IH). Qed.
Lemma emits_dup n ch : emits (dup collect n ch) (replicate n ch).
Proof. induction n as [|n IH]; [exact emits_nil|]. exact (emits_bind _ _ [ch] _ (emits_one ch) IH). Qed.
Lemma emits_if (c : bool) m L : emits m L -> emits (output_if c m) (if c then L else []).
Proof. destruct c; [done|]. intros _. exact emits_nil. Qed.
(** An integer without flags but [0]: blanks or zeros, the sign, the digits. *)
Lemma format_plain b (zero is_signed negative : bool) w v K t : plain_base b -> 0 <= v < base b ^ K -> 1 <= K <= 63 ->
  exists ds, Forall (is_digit (base b)) ds /\ value_from (base b) 0 ds = v /\ 1 <= zlen ds <= K /\
    let sign := if is_signed && negative then [chr "-"] else [] in
    let pad := Z.to_nat (w - zlen ds - zlen sign) in
    emits (format_integer collect v is_signed negative b (Conversion (if zero then ZERO else 0) w (-1) t))
      (if zero then sign ++ replicate pad (chr "0") ++ ds else replicate pad (chr " ") ++ sign ++ ds).
Proof.
  intros Hb Hv HK. set (fl := if zero then ZERO else 0).
  assert (Hfl : has fl GROUP = false /\ has fl PLUS = false /\ has fl SPACE = false /\ has fl POUND = false /\ has fl MINUS = false /\
     has fl ZERO = zero /\ (Z.land fl (Z.lor MINUS ZERO) =? 0) = negb zero) by (unfold fl; destruct zero; done).
  destruct Hfl as (F1 & F2 & F3 & F4 & F5 & F6 & F7).
  assert (H : wp (loop 65 (digit_body b fl) (v, [], 0)) (fun buf => exists ds, Forall (is_digit (base b)) ds /\ value_from (base b) 0 ds = v /\
     1 <= zlen ds <= K /\ wp (loop 65 (zero_body 1) buf) (fun buf' => buf' = ds))).
  { apply digits_spec with K; [done|done|done|lia|]. intros ds Hds Hval Hlen Hne. destruct ds as [|d ds].
    - exists [chr "0"]. split; [constructor; [|constructor]; unfold is_digit; destruct Hb; lia|]. split; [|split; [unfold zlen; cbn; lia|reflexivity]].
      cbn in Hval. subst v. cbn. lia.
    - exists (d :: ds). split; [done|]. split; [done|]. assert (1 <= zlen (d :: ds)) by (unfold zlen; cbn [List.length]; lia). split; [lia|].
      change 65%nat with (S 64). unfold loop, zero_body. rewrite (proj2 (Z.ltb_ge (zlen (d :: ds)) 1)) by lia. done. }
  apply wp_ok in H. destruct H as (buf & Eb & ds & Hds & Hval & Hlen & Hz). apply wp_eq in Hz.
  exists ds. split; [done|]. split; [done|]. split; [lia|]. cbv zeta. unfold format_integer. cbn [flags width precision].
  rewrite F4, F5, F6, F7. cbn [andb]. change (-1 <? 0) with true. cbv iota.
  unfold sign_char. rewrite F2, F3. intros out. unfold mbind at 1, M_bind at 1, lift at 1. rewrite Eb.
  unfold mbind at 1, M_bind at 1, lift at 1. rewrite Hz. unfold mbind at 1, M_bind at 1, mret at 1, M_ret at 1.
  revert out. eapply emits_eq.
  - apply emits_bind; [apply emits_if, emits_dup|]. apply emits_bind; [apply emits_if, emits_one|].
    apply emits_bind; [apply emits_if; apply (emits_bind _ _ _ _ (emits_one (chr "0")) (emits_one _))|].
    apply emits_bind; [apply emits_if, emits_dup|]. apply emits_bind; [apply emits_outputs|]. apply emits_if, emits_dup.
  - rewrite app_nil_r. change (0 =? 0) with true. cbn [negb].
    assert (Hpad : forall x, Z.to_nat (if x <? 0 then 0 else x) = Z.to_nat x) by (intros x; destruct (Z.ltb_spec x 0); lia).
    rewrite Hpad. destruct is_signed, negative, zero; cbn [andb negb app];
      change (zlen [chr "-"]) with 1; change (zlen (@nil Z)) with 0; change (chr "-" =? 0) with false; change (0 =? 0) with true; cbn [negb];
      rewrite ?app_nil_r, ?Z.sub_0_r; cbn [app]; done.
Qed.
(** A format of one conversion. *)
Lemma printed_one memory fmt (args : list Z) f c (args1 args2 L : list Z) : next_is "%" fmt = false -> parse_conversion fmt args = Ok ([f], c, args1) ->
  (forall print out, convert collect memory print f c args1 out = Ok (args2, out ++ L)) -> printed memory (chr "%" :: fmt) args = Ok L.
Proof.
  intros Hn Hp Hc. unfold printed, __vprintf. cbn [List.length Nat.add]. cbn [vprintf_loop]. rewrite Z.eqb_refl. cbn [negb].
  rewrite Hn. unfold mbind at 2, M_bind at 1, lift at 1. rewrite Hp. unfold mbind at 2, M_bind at 1. cbn [hd]. rewrite Hc.
  destruct (List.length fmt + 25)%nat eqn:E; [lia|]. reflexivity.
Qed.
Lemma printed_signed memory fmt (zero : bool) w t v (args : list Z) : next_is "%" fmt = false ->
  parse_conversion fmt args = Ok ([chr "d"], Conversion (if zero then ZERO else 0) w (-1) t, args) -> signed_arg t args = Ok (v, []) ->
  is_s32 v ->
  exists ds, Forall (is_digit 10) ds /\ value_from 10 0 ds = Z.abs v /\ 1 <= zlen ds <= 10 /\
    let sign := if v <? 0 then [chr "-"] else [] in
    let pad := Z.to_nat (w - zlen ds - zlen sign) in
    printed memory (chr "%" :: fmt) args = Ok (if zero then sign ++ replicate pad (chr "0") ++ ds else replicate pad (chr " ") ++ sign ++ ds).
Proof.
  intros Hn Hp Ha Hv. unfold is_s32 in Hv.
  assert (Eabs : u64 (if v <? 0 then s64 (- v) else v) = Z.abs v).
  { destruct (Z.ltb_spec v 0); [unfold s64; rewrite Z.mod_small by lia|]; rewrite u64_small by (unfold is_u64; lia); lia. }
  destruct (format_plain base_d zero true (v <? 0) w (Z.abs v) 10 t) as (ds & H1 & H2 & H3 & H4); [apply plain_bases|cbn; lia|lia|].
  exists ds. split; [done|]. split; [done|]. split; [lia|]. cbn [andb] in H4.
  eapply printed_one; [exact Hn|exact Hp|]. intros print out. unfold convert. change (chr "d" =c "d") with true. cbn [orb type].
  unfold mbind at 1, M_bind at 1, lift at 1. rewrite Ha, Eabs. unfold mbind, M_bind. by rewrite H4.
Qed.

(** ** [atoi] reads what [printf] prints *)
Lemma value_from_le B a l : 2 <= B -> 0 <= a -> Forall (is_digit B) l -> a <= value_from B a l.
Proof.
  intros HB Ha H. revert a Ha. induction H as [|ch l Hch _ IH]; intros a Ha; [done|]. unfold is_digit in Hch. cbn.
  etransitivity; [|apply IH; nia]. nia.
Qed.
Lemma atoi_digits_spec a l rest : 0 <= a -> Forall (is_digit 10) l -> value_from 10 a l <= 2 ^ 31 ->
  (exists c r, rest = c :: r /\ isdigit c = false) -> atoi_digits (- a) (l ++ rest) = Ok (- value_from 10 a l).
Proof.
  intros Ha H Hb (c & r & -> & Hc). revert a Ha Hb. induction H as [|ch l Hch Hl IH]; intros a Ha Hb; cbn -[Z.mul isdigit].
  - by rewrite Hc.
  - unfold is_digit in Hch. change (chr "0") with 48 in Hch.
    assert (Hd : isdigit ch = true).
    { unfold isdigit. change (chr "0") with 48. change (chr "9") with 57.
      bool_goal; lia. }
    rewrite Hd.
    change (value_from 10 (a * 10 + (ch - 48)) l <= 2 ^ 31) in Hb. change (chr "0") with 48.
    pose proof (value_from_le 10 (a * 10 + (ch - 48)) l ltac:(lia) ltac:(lia) Hl).
    rewrite (s32_small (- a * 10)), s32_small by (unfold is_s32; lia).
    replace (- a * 10 - (ch - 48)) with (- (a * 10 + (ch - 48))) by lia. apply IH; [lia|done].
Qed.
(** Reading back what [printf] printed: for every [int], [atoi] of the output of
    ["%d"] is that number, and the output has at most eleven characters. *)
Theorem atoi_prints_back memory n rest : is_s32 n ->
  exists L, printed memory (lit "%d") [u32 n] = Ok L /\ zlen L <= 11 /\ atoi (L ++ 0 :: rest) = Ok n.
Proof.
  intros Hn. destruct (printed_signed memory (lit "d") false 0 INT n [u32 n]) as (ds & Hds & Hval & Hlen & E); [done|done| |done|].
  { cbn. do 2 f_equal. unfold is_s32 in Hn. unfold s32, u32. dlia. }
  set (sign := if n <? 0 then [chr "-"] else []) in *. exists (sign ++ ds). cbv zeta in E.
  replace (Z.to_nat (0 - zlen ds - zlen sign)) with 0%nat in E by (pose proof (zlen_nonneg sign); lia). split; [exact E|].
  assert (Hs : zlen sign <= 1) by (unfold sign; destruct (n <? 0); unfold zlen; cbn; lia).
  split; [unfold zlen in *; rewrite length_app; lia|]. unfold is_s32 in Hn.
  assert (Hd : atoi_digits 0 (ds ++ 0 :: rest) = Ok (- Z.abs n)).
  { rewrite <- Hval. apply (atoi_digits_spec 0); [lia|done|lia|]. by exists 0, rest. }
  destruct ds as [|d ds]; [unfold zlen in Hlen; cbn in Hlen; lia|]. pose proof (Forall_inv Hds) as Hd0. unfold is_digit in Hd0. change (chr "0") with 48 in Hd0.
  unfold atoi, sign. destruct (Z.ltb_spec n 0).
  - cbn [app skip_space]. change (isspace (chr "-")) with false. unfold mbind, res_bind, next_is. change (chr "-" =c "-") with true. rewrite orb_true_r. cbn [tail app]. cbn [app] in Hd. rewrite Hd. cbn. f_equal. lia.
  - cbn [app skip_space]. assert (Hsp : isspace d = false).
    { unfold isspace. change (chr " ") with 32. rewrite !(proj2 (Z.eqb_neq d _)) by lia. done. }
    rewrite Hsp. unfold mbind, res_bind, next_is. change (chr "-") with 45. change (chr "+") with 43.
    rewrite !(proj2 (Z.eqb_neq d _)) by lia. cbn [orb]. cbn [app] in Hd. rewrite Hd. unfold mret, res_ret. f_equal.
    rewrite Z.abs_eq, Z.opp_involutive, s32_small by (unfold is_s32; lia). done.
Qed.
Lemma atoi_prints_back_witness : exists L, printed ∅ (lit "%d") [2 ^ 31] = Ok L /\ zlen L <= 11 /\ atoi (L ++ [0]) = Ok (- 2 ^ 31).
Proof. apply (atoi_prints_back ∅ (- 2 ^ 31) []). unfold is_s32. lia. Defined.
