(* ===== verification/Ustar.v ===== *)
(** * Ustar: headers of archives (lib/ustar.c)

    [struct ustar_header] is a record of its fields, each the list of its bytes;
    [encode] and [decode] are the cast between the record and its 512 bytes.  A file
    name is its characters before the terminator.  The round trip: a header that
    [ustar_make_header] composes is one that [ustar_parse_header] accepts and reads
    back. *)
From Stdlib Require Import Ascii String.
From stdpp Require Import strings.
From S2P Require Import Prelude.
From S2P Require Import CString.
From S2P Require Import Stdio.

Record ustar_header := Header {
  name : list Z; mode : list Z; uid : list Z; gid : list Z; size : list Z; mtime : list Z; chksum : list Z;
  typeflag : Z; linkname : list Z; magic : list Z; version : list Z; uname : list Z; gname : list Z;
  devmajor : list Z; devminor : list Z; prefix : list Z; padding : list Z }.
Definition USTAR_HEADER_SIZE : Z := 512.
Definition USTAR_REGULAR : Z := chr "0".
Definition USTAR_DIRECTORY : Z := chr "5".
Definition USTAR_EOF : Z := -1.
Definition encode (h : ustar_header) : list Z :=
  name h ++ mode h ++ uid h ++ gid h ++ size h ++ mtime h ++ chksum h ++ [typeflag h] ++ linkname h ++ magic h ++ version h ++
  uname h ++ gname h ++ devmajor h ++ devminor h ++ prefix h ++ padding h.
Definition field (ofs n : nat) (header : list Z) : list Z := take n (drop ofs header).
Definition decode (header : list Z) : ustar_header :=
  let f ofs n := field (Z.to_nat ofs) (Z.to_nat n) header in
  Header (f 0 100) (f 100 8) (f 108 8) (f 116 8) (f 124 12) (f 136 12) (f 148 8) (nth 156%nat header 0)
    (f 157 100) (f 257 6) (f 263 2) (f 265 32) (f 297 32) (f 329 8) (f 337 8) (f 345 155) (f 500 12).

(** [chksum] starts at 148 and has 8 bytes. *)
Definition chksum_byte (i : nat) (x : Z) : Z := if (148 <=? Z.of_nat i) && (Z.of_nat i <? 156) then chr " " else x.
Definition calculate_chksum (header : list Z) : Z := foldl (fun sum x => sum +u x) 0 (imap chksum_byte header).

(** [memcmp (file_name, s, strlen (s)) == 0] *)
Fixpoint starts_with (s file_name : list Z) : bool :=
  match s, file_name with
  | [], _ => true
  | c :: s, x :: file_name => (x =? c) && starts_with s file_name
  | _, [] => false
  end.
(** [strchr (file_name, '/') + 1] *)
Fixpoint after_slash (file_name : list Z) : list Z :=
  match file_name with [] => [] | x :: file_name => if x =c "/" then file_name else after_slash file_name end.
Definition antisocial (file_name : list Z) : bool :=
  starts_with (lit "/") file_name || starts_with (lit "./") file_name || starts_with (lit "../") file_name.
Fixpoint strip_loop (fuel : nat) (file_name : list Z) : list Z :=
  match fuel with
  | O => file_name
  | S fuel => if antisocial file_name then strip_loop fuel (after_slash file_name) else file_name
  end.
(** Every turn drops a character. *)
Definition strip_antisocial_prefixes (file_name : list Z) : list Z :=
  let file_name := strip_loop (List.length file_name) file_name in
  if bool_decide (file_name = []) || bool_decide (file_name = lit "..") then lit "." else file_name.

(** [strlcpy (field, src, sizeof field)] *)
Definition set_string (fld src : list Z) : list Z :=
  let kept := take (List.length fld - 1) src in kept ++ [0] ++ drop (S (List.length kept)) fld.
(** [snprintf (field, sizeof field, format, x)] *)
Definition set_octal (fld : list Z) (format : string) (x : Z) : res (list Z) :=
  r ← snprintf ∅ fld (zlen fld) (lit format) [u32 x]; mret (snd r).
Definition zeros (n : nat) : list Z := replicate n 0.
(** The return value and the header; a name that is too long leaves it as it was. *)
Definition ustar_make_header (file_name : list Z) (type sz : Z) (header : list Z) : res (bool * list Z) :=
  _ ← ASSERT ((type =? USTAR_REGULAR) || (type =? USTAR_DIRECTORY));
  let file_name := strip_antisocial_prefixes file_name in
  if 99 <? zlen file_name then mret (false, header)
  else
    mode ← set_octal (zeros 8) "%07o" (if type =? USTAR_REGULAR then 420 else 493);
    size ← set_octal (zeros 12) "%011o" sz;
    mtime ← set_octal (zeros 12) "%011o" 1136102400;
    let h c := Header (set_string (zeros 100) file_name) mode (set_string (zeros 8) (lit "0000000")) (set_string (zeros 8) (lit "0000000"))
                 size mtime c type (zeros 100) (set_string (zeros 6) (lit "ustar")) (lit "00")
                 (set_string (zeros 32) (lit "root")) (set_string (zeros 32) (lit "root")) (zeros 8) (zeros 8) (zeros 155) (zeros 12) in
    chksum ← set_octal (zeros 8) "%07o" (calculate_chksum (encode (h (zeros 8))));
    mret (true, encode (h chksum)).

(** The value of the field, or nothing.  [first] is [ofs == 0]. *)
Fixpoint parse_octal (first : bool) (value : Z) (s : list Z) : option Z :=
  match s with
  | [] => None
  | c :: s =>
      if (chr "0" <=? c) && (c <=? chr "7") then
        if (2 ^ 32 - 1) / 8 <? value then None else parse_octal false (u32 (c - chr "0" + u32 (value * 8))) s
      else if (c =c " ") || (c =? 0) then if first then None else Some value
      else None
  end.
Definition parse_octal_field (s : list Z) : option Z := parse_octal true 0 s.
Definition is_all_zeros (block : list Z) : bool := forallb (fun x => x =? 0) block.
(** The string that starts a field. *)
Fixpoint c_str (fld : list Z) : list Z :=
  match fld with [] => [] | x :: fld => if x =? 0 then [] else x :: c_str fld end.
Definition INT_MAX : Z := 2 ^ 31 - 1.
(** An error message, or the name, the type and the size. *)
Definition ustar_parse_header (header : list Z) : string + option (list Z) * Z * Z :=
  let h := decode header in
  if is_all_zeros header then inr (None, USTAR_EOF, 0)
  else if negb (bool_decide (magic h = lit "ustar" ++ [0])) then inl "not a ustar archive"%string
  else if negb (bool_decide (version h = lit "00")) then inl "invalid ustar version"%string
  else
    match parse_octal_field (chksum h) with
    | None => inl "corrupt chksum field"%string
    | Some sum =>
        if negb (sum =? calculate_chksum header) then inl "checksum mismatch"%string
        else if negb (nth 99%nat (name h) 0 =? 0) || negb (nth 0%nat (prefix h) 0 =? 0) then inl "file name too long"%string
        else if negb (typeflag h =? USTAR_REGULAR) && negb (typeflag h =? USTAR_DIRECTORY) then inl "unimplemented file type"%string
        else if typeflag h =? USTAR_REGULAR then
          match parse_octal_field (size h) with
          | None => inl "corrupt file size field"%string
          | Some size_ul =>
              if INT_MAX <? size_ul then inl "file too large"%string
              else inr (Some (strip_antisocial_prefixes (c_str (name h))), typeflag h, size_ul)
          end
        else inr (Some (strip_antisocial_prefixes (c_str (name h))), typeflag h, 0)
    end.

(** ** The round trip *)
(** The fields have the sizes the structure gives them. *)
Definition well_sized (h : ustar_header) : Prop :=
  List.length (name h) = 100%nat /\ List.length (mode h) = 8%nat /\ List.length (uid h) = 8%nat /\ List.length (gid h) = 8%nat /\
  List.length (size h) = 12%nat /\ List.length (mtime h) = 12%nat /\ List.length (chksum h) = 8%nat /\
  List.length (linkname h) = 100%nat /\ List.length (magic h) = 6%nat /\ List.length (version h) = 2%nat /\
  List.length (uname h) = 32%nat /\ List.length (gname h) = 32%nat /\ List.length (devmajor h) = 8%nat /\
  List.length (devminor h) = 8%nat /\ List.length (prefix h) = 155%nat /\ List.length (padding h) = 12%nat.
Lemma field_skip o' k o n (a b : list Z) : List.length a = k -> o = (k + o')%nat -> field o n (a ++ b) = field o' n b.
Proof. intros <- ->. unfold field. rewrite drop_app_ge by lia. do 2 f_equal. lia. Qed.
Lemma field_here k n (a b : list Z) : List.length a = k -> n = k -> field 0 n (a ++ b) = a.
Proof. intros <- ->. unfold field. rewrite drop_0. by rewrite take_app_length. Qed.
Lemma nth_skip o' k o (a b : list Z) : List.length a = k -> o = (k + o')%nat -> nth o (a ++ b) 0 = nth o' b 0.
Proof. intros <- ->. rewrite app_nth2 by lia. f_equal. lia. Qed.
(** Skip the fields before the one at hand. *)
Ltac skip_field :=
  match goal with
  | H : List.length ?a = ?k |- field ?o ?n (?a ++ ?b) = _ =>
      let o' := eval vm_compute in (o - k)%nat in rewrite (field_skip o' k o n a b H) by (vm_compute; reflexivity)
  | H : List.length ?a = ?k |- nth ?o (?a ++ ?b) 0 = _ =>
      let o' := eval vm_compute in (o - k)%nat in rewrite (nth_skip o' k o a b H) by (vm_compute; reflexivity)
  end.
Ltac field_tac := repeat skip_field;
  lazymatch goal with
  | |- nth 0 _ _ = _ => reflexivity
  | |- field _ _ (_ ++ _) = _ => eapply field_here; [eassumption|vm_compute; reflexivity]
  | |- field _ _ ?a = _ => rewrite <- (app_nil_r a) at 1; eapply field_here; [eassumption|vm_compute; reflexivity]
  end.
Lemma header_decode_encode h : well_sized h -> decode (encode h) = h.
Proof.
  intros (H1 & H2 & H3 & H4 & H5 & H6 & H7 & H8 & H9 & H10 & H11 & H12 & H13 & H14 & H15 & H16).
  destruct h as [f1 f2 f3 f4 f5 f6 f7 t f8 f9 f10 f11 f12 f13 f14 f15 f16]. cbn [name mode uid gid size mtime chksum linkname magic version uname gname devmajor devminor prefix padding] in *.
  unfold decode, encode. cbn [name mode uid gid size mtime chksum typeflag linkname magic version uname gname devmajor devminor prefix padding].
  assert (Ht : List.length [t] = 1%nat) by done. cbv beta zeta. f_equal.
  all: field_tac.
Qed.

(** *** Names *)
Lemma after_slash_shorter file_name : antisocial file_name = true -> (List.length (after_slash file_name) < List.length file_name)%nat.
Proof.
  assert (Hle : forall l, (List.length (after_slash l) <= List.length l)%nat).
  { induction l as [|x l IH]; [done|]. cbn [after_slash List.length]. destruct (x =c "/"); lia. }
  destruct file_name as [|x l]; [done|]. intros H. cbn [after_slash List.length]. specialize (Hle l). destruct (x =c "/"); lia.
Qed.
Lemma strip_loop_done fuel file_name : (List.length file_name <= fuel)%nat -> antisocial (strip_loop fuel file_name) = false.
Proof.
  revert file_name. induction fuel as [|fuel IH]; intros l Hl.
  - destruct l; [done|cbn in Hl; lia].
  - cbn [strip_loop]. destruct (antisocial l) eqn:E; [|done]. apply IH. pose proof (after_slash_shorter _ E). lia.
Qed.
Lemma strip_loop_stays fuel file_name : antisocial file_name = false -> strip_loop fuel file_name = file_name.
Proof. intros H. destruct fuel; cbn; by rewrite ?H. Qed.
Lemma strip_idempotent file_name : strip_antisocial_prefixes (strip_antisocial_prefixes file_name) = strip_antisocial_prefixes file_name.
Proof.
  unfold strip_antisocial_prefixes at 2 3. pose proof (strip_loop_done _ file_name (le_n _)) as H.
  set (r := strip_loop _ file_name) in *. destruct (bool_decide (r = []) || bool_decide (r = lit "..")) eqn:E; [reflexivity|].
  unfold strip_antisocial_prefixes. by rewrite strip_loop_stays, E.
Qed.
Lemma strip_forall (P : Z -> Prop) file_name : P (chr ".") -> Forall P file_name -> Forall P (strip_antisocial_prefixes file_name).
Proof.
  intros Hp H. unfold strip_antisocial_prefixes. destruct (_ || _); [by repeat constructor|].
  generalize (List.length file_name). intros fuel. revert file_name H. induction fuel as [|fuel IH]; intros l H; [done|]. cbn [strip_loop].
  destruct (antisocial l); [|done]. apply IH. clear IH. induction H as [|x l Hx H IH]; [constructor|]. cbn [after_slash]. by destruct (x =c "/").
Qed.

(** *** Fields *)
Lemma set_string_zeros n src : (List.length src < n)%nat -> set_string (zeros n) src = src ++ zeros (n - List.length src).
Proof.
  intros H. unfold set_string, zeros. rewrite length_replicate, (take_ge src) by lia. f_equal.
  rewrite drop_replicate. replace (n - List.length src)%nat with (S (n - S (List.length src))) by lia. done.
Qed.
Lemma c_str_zeros src n : Forall (fun c => c <> 0) src -> (0 < n)%nat -> c_str (src ++ zeros n) = src.
Proof.
  intros H Hn. induction H as [|x l Hx H IH]; [destruct n; [lia|done]|]. cbn [app c_str].
  by rewrite (proj2 (Z.eqb_neq x 0) Hx), IH.
Qed.
(** What [set_octal] leaves: the digits and a terminator. *)
Definition octal_field (n : nat) (v : Z) (fld : list Z) : Prop :=
  exists ds, fld = ds ++ [0] /\ List.length ds = n /\ Forall (is_digit 8) ds /\ value_from 8 0 ds = v.
Lemma value_from_app B a l l' : value_from B a (l ++ l') = value_from B (value_from B a l) l'.
Proof. apply foldl_app. Qed.
Lemma value_from_zeros B n : value_from B 0 (replicate n (chr "0")) = 0.
Proof. induction n as [|n IH]; [done|]. change (value_from B (0 * B + (chr "0" - chr "0")) (replicate n (chr "0")) = 0). by rewrite Z.sub_diag. Qed.
Lemma set_octal_spec fmt w v : 1 <= w <= 11 -> parse_conversion fmt [u32 v] = Ok ([chr "o"], Conversion ZERO w (-1) INT, [u32 v]) ->
  next_is "%" fmt = false -> is_u32 v -> v < 8 ^ w ->
  exists fld, snprintf ∅ (zeros (S (Z.to_nat w))) (w + 1) (chr "%" :: fmt) [u32 v] = Ok (w, fld) /\ octal_field (Z.to_nat w) v fld.
Proof.
  intros Hw Hp Hn Hv Hb. rewrite u32_small in * by done. unfold is_u32 in Hv.
  destruct (format_plain base_o true false false w v w INT) as (ds & H1 & H2 & H3 & H4); [apply plain_bases|cbn; lia|lia|].
  cbn [andb app] in H4. change (zlen (@nil Z)) with 0 in H4. rewrite Z.sub_0_r in H4.
  set (L := replicate (Z.to_nat (w - zlen ds)) (chr "0") ++ ds) in *.
  assert (HL : zlen L = w) by (unfold L, zlen in *; rewrite length_app, length_replicate; lia).
  assert (E : printed ∅ (chr "%" :: fmt) [v] = Ok L).
  { eapply printed_one; [exact Hn|exact Hp|]. intros print out. unfold convert.
    change (chr "o" =c "d") with false. change (chr "o" =c "i") with false. change (chr "o" =c "o") with true. cbn [orb type].
    assert (Ea : unsigned_arg INT [v] = Ok (v, [])) by (cbn; rewrite u32_small by (unfold is_u32; lia); done).
    unfold mbind at 1, M_bind at 1, lift at 1. rewrite Ea. unfold mbind, M_bind. by rewrite H4. }
  exists (L ++ [0]). split.
  - unfold snprintf. rewrite (vsnprintf_fills _ _ _ _ _ L E) by (rewrite ?HL; unfold zeros, zlen; rewrite ?length_replicate; lia).
    cbv zeta. rewrite HL, (take_ge L) by (unfold zlen in HL; lia). f_equal. f_equal.
    unfold zeros. rewrite drop_replicate. replace (S (Z.to_nat w) - S (List.length L))%nat with 0%nat by (unfold zlen in HL; lia). done.
  - exists L. split; [done|]. split; [unfold zlen in HL; lia|]. split.
    + apply Forall_app. split; [|done]. apply Forall_replicate. unfold is_digit. cbn. lia.
    + unfold L. rewrite value_from_app, value_from_zeros. exact H2.
Qed.
Lemma set_octal_7 v : 0 <= v < 8 ^ 7 -> exists fld, set_octal (zeros 8) "%07o" v = Ok fld /\ octal_field 7 v fld.
Proof.
  intros Hv. destruct (set_octal_spec (lit "07o") 7 v) as (fld & E & H); [lia|reflexivity|reflexivity|unfold is_u32; lia|lia|].
  exists fld. split; [|exact H]. unfold set_octal. change (zlen (zeros 8)) with (7 + 1). change (Z.to_nat 7) with 7%nat in E.
  change (lit "%07o") with (chr "%" :: lit "07o"). by rewrite E.
Qed.
Lemma set_octal_11 v : is_u32 v -> exists fld, set_octal (zeros 12) "%011o" v = Ok fld /\ octal_field 11 v fld.
Proof.
  intros Hv. unfold is_u32 in Hv. destruct (set_octal_spec (lit "011o") 11 v) as (fld & E & H); [lia|reflexivity|reflexivity|done|lia|].
  exists fld. split; [|exact H]. unfold set_octal. change (zlen (zeros 12)) with (11 + 1). change (Z.to_nat 11) with 11%nat in E.
  change (lit "%011o") with (chr "%" :: lit "011o"). by rewrite E.
Qed.
Lemma parse_octal_spec first a ds : 0 <= a -> Forall (is_digit 8) ds -> value_from 8 a ds < 2 ^ 32 -> first = false \/ ds <> [] ->
  parse_octal first a (ds ++ [0]) = Some (value_from 8 a ds).
Proof.
  intros Ha H. revert first a Ha. induction H as [|ch l Hch Hl IH]; intros first a Ha Hb Hf.
  - destruct Hf as [->|]; done.
  - cbn [app parse_octal]. unfold is_digit in Hch. change (chr "0") with 48 in *. change (chr "7") with 55.
    rewrite (proj2 (Z.leb_le 48 ch)), (proj2 (Z.leb_le ch 55)) by lia. cbn [andb].
    change (value_from 8 (a * 8 + (ch - 48)) l < 2 ^ 32) in Hb. change (Some (value_from 8 a (ch :: l))) with (Some (value_from 8 (a * 8 + (ch - 48)) l)).
    pose proof (value_from_le 8 (a * 8 + (ch - 48)) l ltac:(lia) ltac:(lia) Hl).
    change ((2 ^ 32 - 1) / 8) with 536870911. rewrite (proj2 (Z.ltb_ge 536870911 a)) by lia.
    rewrite (u32_small (a * 8)), u32_small by (unfold is_u32; lia). replace (ch - 48 + a * 8) with (a * 8 + (ch - 48)) by lia.
    apply IH; [lia|done|by left].
Qed.
Lemma parse_field n v fld : octal_field (S n) v fld -> v < 2 ^ 32 -> parse_octal_field fld = Some v.
Proof.
  intros (ds & -> & Hl & Hd & <-) Hv. apply parse_octal_spec; [lia|done|done|right]. by destruct ds.
Qed.

(** *** The checksum *)
Lemma chksum_ignored pre c c' post : List.length pre = 148%nat -> List.length c = 8%nat -> List.length c' = 8%nat ->
  calculate_chksum (pre ++ c ++ post) = calculate_chksum (pre ++ c' ++ post).
Proof.
  intros Hp Hc Hc'. unfold calculate_chksum. f_equal. rewrite !imap_app, Hp, Hc, Hc'. f_equal. f_equal.
  assert (H : forall d, List.length d = 8%nat -> imap (chksum_byte ∘ Nat.add 148) d = replicate 8 (chr " ")).
  { intros d Hd. do 9 (destruct d as [|? d]; [done || (cbn in Hd; lia)|]). cbn in Hd. lia. }
  by rewrite !H.
Qed.
Lemma chksum_small header : Forall is_u8 header -> List.length header = 512%nat -> 0 <= calculate_chksum header < 8 ^ 7.
Proof.
  intros Hb Hl. assert (H : forall l a k, 0 <= a <= 255 * Z.of_nat k -> (k + List.length l <= 512)%nat -> Forall is_u8 l ->
    0 <= foldl (fun sum x => sum +u x) a l <= 255 * 512).
  { intros l. induction l as [|x l IH]; intros a k Ha Hk Hf; cbn [foldl]; [lia|]. apply Forall_cons_1 in Hf as [Hx Hf]. unfold is_u8 in Hx.
    cbn [List.length] in Hk. rewrite u32_small by (unfold is_u32; lia). apply (IH _ (S k)); [lia|lia|done]. }
  unfold calculate_chksum. assert (Hi : Forall is_u8 (imap chksum_byte header)).
  { rewrite Forall_lookup in Hb |- *. intros i x Hx. rewrite list_lookup_imap in Hx. destruct (header !! i) eqn:E; [|done].
    injection Hx as <-. unfold chksum_byte. destruct (_ && _); [done|by eapply Hb]. }
  assert (Hlen : (0 + List.length (imap chksum_byte header) <= 512)%nat) by (rewrite length_imap; lia).
  pose proof (H _ 0 0%nat ltac:(lia) Hlen Hi) as Hx. cbv beta in Hx. change (8 ^ 7) with 2097152.
  lia.
Qed.
Lemma octal_field_ok n v fld : octal_field n v fld -> List.length fld = S n /\ Forall is_u8 fld.
Proof.
  intros (ds & -> & Hl & Hd & _). rewrite length_app, Hl. split; [cbn; lia|]. apply Forall_app. split.
  - eapply list.Forall_impl; [exact Hd|]. intros c. unfold is_digit, is_u8. change (chr "0") with 48. lia.
  - constructor; [done|constructor].
Qed.
Lemma zeros_u8 n : Forall is_u8 (zeros n).
Proof. apply Forall_replicate. done. Qed.
(** The header composed, for a name that fits. *)
Definition composed (nm md sz mt ck : list Z) (type : Z) : ustar_header :=
  Header (nm ++ zeros (100 - List.length nm)) md (lit "0000000" ++ [0]) (lit "0000000" ++ [0]) sz mt ck type (zeros 100)
    (lit "ustar" ++ [0]) (lit "00") (lit "root" ++ zeros 28) (lit "root" ++ zeros 28) (zeros 8) (zeros 8) (zeros 155) (zeros 12).
Section composed.
Context (nm md sz mt ck : list Z) (type : Z) (Hnm : (List.length nm <= 99)%nat) (Hmd : List.length md = 8%nat)
  (Hsz : List.length sz = 12%nat) (Hmt : List.length mt = 12%nat) (Hck : List.length ck = 8%nat).
Lemma composed_sized : well_sized (composed nm md sz mt ck type).
Proof. unfold well_sized, composed, zeros. cbn [name mode uid gid size mtime chksum linkname magic version uname gname devmajor devminor prefix padding].
  rewrite !length_app, !length_replicate, Hmd, Hsz, Hmt, Hck. cbn. repeat split; try done. lia. Qed.
Lemma composed_split : exists pre post, encode (composed nm md sz mt ck type) = pre ++ ck ++ post /\ List.length pre = 148%nat /\
  forall ck', encode (composed nm md sz mt ck' type) = pre ++ ck' ++ post.
Proof.
  unfold encode, composed. cbn [name mode uid gid size mtime chksum typeflag linkname magic version uname gname devmajor devminor prefix padding].
  eexists ((nm ++ zeros (100 - List.length nm)) ++ md ++ (lit "0000000" ++ [0]) ++ (lit "0000000" ++ [0]) ++ sz ++ mt), _.
  split; [by rewrite <- !app_assoc|]. split; [|intros; by rewrite <- !app_assoc].
  unfold zeros. rewrite !length_app, length_replicate, Hmd, Hsz, Hmt. cbn. lia.
Qed.
Lemma composed_u8 : Forall is_u8 nm -> Forall is_u8 md -> Forall is_u8 sz -> Forall is_u8 mt -> Forall is_u8 ck -> is_u8 type ->
  Forall is_u8 (encode (composed nm md sz mt ck type)).
Proof.
  intros. unfold encode, composed. cbn [name mode uid gid size mtime chksum typeflag linkname magic version uname gname devmajor devminor prefix padding].
  rewrite !Forall_app, !Forall_singleton. pose proof zeros_u8.
  assert (H6 : Forall is_u8 (lit "0000000") /\ Forall is_u8 (lit "ustar") /\ Forall is_u8 (lit "00") /\ Forall is_u8 (lit "root")).
  { repeat split; repeat (constructor; [done|]); constructor. }
  destruct H6 as (? & ? & ? & ?). repeat match goal with |- _ /\ _ => split end; done.
Qed.
Lemma composed_length : List.length (encode (composed nm md sz mt ck type)) = 512%nat.
Proof.
  destruct composed_sized as (H1 & H2 & H3 & H4 & H5 & H6 & H7 & H8 & H9 & H10 & H11 & H12 & H13 & H14 & H15 & H16).
  unfold encode. rewrite !length_app, H1, H2, H3, H4, H5, H6, H7, H8, H9, H10, H11, H12, H13, H14, H15, H16. reflexivity.
Qed.
End composed.

(** What parsing yields for the size of a directory. *)
Definition size_read (type sz : Z) : Z := if type =? USTAR_REGULAR then sz else 0.
Lemma not_all_zeros nm md fs mt ck type : is_all_zeros (encode (composed nm md fs mt ck type)) = false.
Proof.
  unfold encode, composed, is_all_zeros. cbn [name mode uid gid size mtime chksum typeflag linkname magic version uname gname devmajor devminor prefix padding].
  rewrite !forallb_app. change (forallb (fun x => x =? 0) (lit "00")) with false. by rewrite !andb_false_r.
Qed.
Lemma composed_name nm md fs mt ck type : Forall (fun c => is_u8 c /\ c <> 0) nm -> (List.length nm <= 99)%nat ->
  c_str (name (composed nm md fs mt ck type)) = nm /\ nth 99 (name (composed nm md fs mt ck type)) 0 = 0.
Proof.
  intros H Hl. cbn [name composed]. split.
  - apply c_str_zeros; [|lia]. eapply list.Forall_impl; [exact H|]. by intros c [].
  - rewrite app_nth2 by lia. unfold zeros. generalize (100 - List.length nm)%nat (99 - List.length nm)%nat.
    intros n k. revert k. induction n as [|n IH]; intros [|k]; try done. apply IH.
Qed.
Lemma parse_composed nm md fs mt ck type sz : (List.length nm <= 99)%nat -> List.length md = 8%nat -> List.length mt = 12%nat ->
  Forall (fun c => is_u8 c /\ c <> 0) nm -> strip_antisocial_prefixes nm = nm -> octal_field 11 sz fs -> sz < 2 ^ 31 ->
  octal_field 7 (calculate_chksum (encode (composed nm md fs mt (zeros 8) type))) ck ->
  0 <= calculate_chksum (encode (composed nm md fs mt (zeros 8) type)) < 8 ^ 7 ->
  type = USTAR_REGULAR \/ type = USTAR_DIRECTORY ->
  ustar_parse_header (encode (composed nm md fs mt ck type)) = inr (Some nm, type, size_read type sz).
Proof.
  intros Hl Lmd Lmt Hnm Hs Ffs Hsz Fck Hsum Ht. destruct (octal_field_ok _ _ _ Ffs) as [Lfs _]. destruct (octal_field_ok _ _ _ Fck) as [Lck _].
  assert (E : calculate_chksum (encode (composed nm md fs mt ck type)) = calculate_chksum (encode (composed nm md fs mt (zeros 8) type))).
  { destruct (composed_split nm md fs mt ck type Hl Lmd Lfs Lmt Lck) as (pre & post & -> & Hpre & Hall). rewrite Hall.
    apply chksum_ignored; [exact Hpre|exact Lck|reflexivity]. }
  unfold ustar_parse_header. rewrite not_all_zeros, header_decode_encode by (apply composed_sized; assumption). rewrite E.
  destruct (composed_name nm md fs mt ck type Hnm Hl) as [Ename Elast]. cbv zeta. rewrite Ename, Elast, Hs.
  change (magic (composed nm md fs mt ck type)) with (lit "ustar" ++ [0]). change (version (composed nm md fs mt ck type)) with (lit "00").
  change (chksum (composed nm md fs mt ck type)) with ck. change (prefix (composed nm md fs mt ck type)) with (zeros 155).
  change (typeflag (composed nm md fs mt ck type)) with type. change (size (composed nm md fs mt ck type)) with fs.
  rewrite !bool_decide_eq_true_2 by reflexivity. rewrite (parse_field 6 _ _ Fck) by lia. rewrite Z.eqb_refl.
  rewrite (parse_field 10 _ _ Ffs) by lia. unfold size_read, INT_MAX. rewrite (proj2 (Z.ltb_ge (2 ^ 31 - 1) sz)) by lia.
  destruct Ht as [->| ->]; reflexivity.
Qed.
(** A header that [ustar_make_header] composes is 512 bytes that
    [ustar_parse_header] accepts: it reads back the name (less the prefixes that are
    stripped), the type and, of a regular file, the size. *)
Theorem ustar_roundtrip file_name type sz header : type = USTAR_REGULAR \/ type = USTAR_DIRECTORY -> 0 <= sz < 2 ^ 31 ->
  Forall (fun c => is_u8 c /\ c <> 0) file_name -> zlen (strip_antisocial_prefixes file_name) <= 99 ->
  exists h, ustar_make_header file_name type sz header = Ok (true, h) /\ zlen h = USTAR_HEADER_SIZE /\
    ustar_parse_header h = inr (Some (strip_antisocial_prefixes file_name), type, size_read type sz).
Proof.
  intros Ht Hsz Hname Hlen. set (nm := strip_antisocial_prefixes file_name) in *.
  assert (Hnm : Forall (fun c => is_u8 c /\ c <> 0) nm) by (apply strip_forall; [done|done]).
  assert (Hl : (List.length nm <= 99)%nat) by (unfold zlen in Hlen; lia).
  destruct (set_octal_7 (if type =? USTAR_REGULAR then 420 else 493)) as (md & Emd & Fmd); [destruct (type =? _); lia|].
  destruct (set_octal_11 sz) as (fs & Efs & Ffs); [unfold is_u32; lia|].
  destruct (set_octal_11 1136102400) as (mt & Emt & Fmt); [unfold is_u32; lia|].
  apply octal_field_ok in Fmd as [Lmd Umd], Fmt as [Lmt Umt]. destruct (octal_field_ok _ _ _ Ffs) as [Lfs Ufs].
  assert (Hnm8 : Forall is_u8 nm) by (eapply list.Forall_impl; [exact Hnm|]; by intros c []).
  assert (Ht8 : is_u8 type) by (clear - Ht; destruct Ht as [->| ->]; (split; [discriminate|reflexivity])).
  set (sum := calculate_chksum (encode (composed nm md fs mt (zeros 8) type))).
  assert (Hsum : 0 <= sum < 8 ^ 7) by (apply chksum_small; [apply composed_u8|apply composed_length]; first [assumption|apply zeros_u8|reflexivity]).
  destruct (set_octal_7 sum Hsum) as (ck & Eck & Fck). destruct (octal_field_ok _ _ _ Fck) as [Lck Uck].
  exists (encode (composed nm md fs mt ck type)). split.
  { unfold ustar_make_header. rewrite (proj2 (orb_true_iff _ _)) by (rewrite !Z.eqb_eq; exact Ht). fold nm.
    cbn [ASSERT]. unfold mbind at 1, res_bind at 1. rewrite (proj2 (Z.ltb_ge 99 _)) by lia. rewrite !set_string_zeros by (cbn; lia || lia).
    rewrite Emd, Efs, Emt. unfold mbind at 1 2 3, res_bind at 1 2 3. unfold sum in Eck.
    replace (set_octal (zeros 8) "%07o" _) with (Ok ck) by (symmetry; exact Eck). reflexivity. }
  split; [unfold zlen; rewrite composed_length by assumption; reflexivity|]. fold nm.
  apply (parse_composed nm md fs mt ck); try assumption; [apply strip_idempotent|lia].
Qed.
(** A file "../a/b" of 513 bytes. *)
Lemma ustar_roundtrip_witness : exists h, ustar_make_header (lit "../a/b") USTAR_REGULAR 513 [] = Ok (true, h) /\ zlen h = USTAR_HEADER_SIZE /\
  ustar_parse_header h = inr (Some (lit "a/b"), USTAR_REGULAR, 513).
Proof.
  apply (ustar_roundtrip (lit "../a/b") USTAR_REGULAR 513 []); [by left|lia| |discriminate].
  repeat (constructor; [split; [split; [discriminate|reflexivity]|discriminate]|]). constructor.
Defined.
