(* ===== verification/Random.v ===== *)
(** * Random: the generator of lib/random.c

    RC4: the state is an array of bytes and two indices.  It always holds each byte
    once, so no index is out of range and the generator never runs into a fault. *)
From S2P Require Import Prelude.

Record rng := Rng { s : list Z; s_i : Z; s_j : Z; inited : bool }.
Abbreviation RM := (M rng).

(** [swap_byte (s + a, s + b)] *)
Definition swap_byte (l : list Z) (a b : Z) : res (list Z) :=
  t ← deref (znth l a); x ← deref (znth l b); l ← deref (zset l a x); deref (zset l b t).
Definition identity_body (i : Z) (l : list Z) : res (list Z) := deref (zset l i (u8 i)).
Definition init_body (seedp : list Z) (i : Z) (st : list Z * Z) : res (list Z * Z) :=
  let '(l, j) := st in
  x ← deref (znth l i); y ← deref (znth seedp (i mod 4));
  let j := u8 (j + u8 (x + y)) in
  l ← swap_byte l i j; mret (l, j).
Definition random_init (seed : Z) : RM unit :=
  r ← get;
  l ← lift (for_range 256 0 identity_body (s r));
  '(l, _) ← lift (for_range 256 0 (init_body (le_bytes 4 seed)) (l, 0));
  put (Rng l 0 0 true).
Definition random_byte : RM Z :=
  r ← get;
  let i := u8 (s_i r + 1) in
  x ← lift (deref (znth (s r) i));
  let j := u8 (s_j r + x) in
  l ← lift (swap_byte (s r) i j);
  a ← lift (deref (znth l i)); b ← lift (deref (znth l j));
  let s_k := u8 (a + b) in
  _ ← put (Rng l i j (inited r));
  lift (deref (znth l s_k)).
Fixpoint random_fill (size : nat) : RM (list Z) :=
  match size with O => mret [] | S n => x ← random_byte; xs ← random_fill n; mret (x :: xs) end.
(** The bytes stored in the buffer. *)
Definition random_bytes (size : Z) : RM (list Z) :=
  r ← get; _ ← (if inited r then mret tt else random_init 0); random_fill (Z.to_nat size).
Definition random_ulong : RM Z := bs ← random_bytes 4; mret (le_val bs).
(** The program's data at its start. *)
Definition rng0 : rng := Rng (replicate 256 0) 0 0 false.

(** ** Invariant *)
Definition bytes : list Z := Z.of_nat <$> seq 0 256.
(** Every byte once. *)
Definition shuffled (l : list Z) : Prop := l ≡ₚ bytes.
Record rng_ok (r : rng) : Prop := RngOk {
  ro_len : zlen (s r) = 256; ro_i : is_u8 (s_i r); ro_j : is_u8 (s_j r); ro_perm : inited r = true -> shuffled (s r) }.
Lemma shuffled_len l : shuffled l -> zlen l = 256.
Proof. unfold shuffled. intros H. unfold zlen. by rewrite H. Qed.
Lemma shuffled_u8 l i x : shuffled l -> znth l i = Some x -> is_u8 x.
Proof.
  intros H E. assert (Hx : x ∈ l) by (unfold znth in E; case_decide; [|done]; by eapply list_elem_of_lookup_2).
  unfold shuffled in H. rewrite H in Hx. unfold bytes in Hx. apply list_elem_of_fmap in Hx as (n & -> & Hn). apply elem_of_seq in Hn. unfold is_u8. lia.
Qed.
Lemma u8_range z : is_u8 (u8 z).
Proof. unfold is_u8, u8. apply Z.mod_pos_bound. lia. Qed.
Lemma shuffled_at l i : shuffled l -> is_u8 i -> exists x, znth l i = Some x /\ is_u8 x.
Proof.
  intros H Hi. unfold is_u8 in Hi. destruct (znth_is_Some l i) as [x E]; [rewrite shuffled_len by done; lia|].
  exists x. split; [done|]. by eapply shuffled_u8.
Qed.
Lemma swap_byte_shuffled l a b : shuffled l -> is_u8 a -> is_u8 b -> wp (swap_byte l a b) shuffled.
Proof.
  intros H Ha Hb. destruct (shuffled_at l a H Ha) as (t & Et & _). destruct (shuffled_at l b H Hb) as (x & Ex & _).
  pose proof (shuffled_len _ H) as Hl. unfold is_u8 in *. unfold swap_byte.
  apply wp_bind, (wp_deref _ t); [done|]. apply wp_bind, (wp_deref _ x); [done|].
  apply wp_bind. eapply wp_deref; [apply zset_Some; lia|]. eapply wp_deref; [apply zset_Some; rewrite zlen_insert; lia|].
  unfold shuffled. rewrite Permutation_insert_swap; [done|by rewrite <- znth_lookup by lia..].
Qed.
Lemma random_init_spec seed r : is_u32 seed -> zlen (s r) = 256 ->
  mwp (random_init seed) r (fun _ r' => rng_ok r' /\ inited r' = true).
Proof.
  intros Hs Hl. unfold random_init. wp_step. wp_step. wp_step. wp_step.
  eapply wp_mono.
  { apply (for_range_wp (fun k l => zlen l = 256 /\ forall i, 0 <= i < k -> znth l i = Some i)); [split; [done|lia]|].
    intros k l Hk [Hlen Hi]. unfold identity_body. eapply wp_deref; [apply zset_Some; lia|]. split; [by rewrite zlen_insert|].
    intros i Hik. rewrite znth_insert by lia. destruct (decide (k = i)) as [<-|]; [|apply Hi; lia]. f_equal. unfold u8. apply Z.mod_small. lia. }
  intros l [Hlen Hi]. assert (Hperm : shuffled l).
  { unfold shuffled. replace l with bytes; [done|]. apply list_eq_same_length with 256%nat; [unfold zlen in Hlen; lia|done|].
    intros i x y Hik Ex Ey. unfold bytes in Ex. rewrite list_lookup_fmap, lookup_seq_lt in Ex by done. injection Ex as <-.
    specialize (Hi (Z.of_nat i) ltac:(lia)). rewrite znth_lookup, Nat2Z.id, Ey in Hi by lia. by injection Hi. }
  wp_step. wp_step. eapply wp_mono.
  { apply (for_range_wp (fun _ st => shuffled st.1)); [done|]. intros k [l1 j] Hk H1. cbn [fst] in *. unfold init_body.
    destruct (shuffled_at l1 k H1 ltac:(unfold is_u8; lia)) as (x & Ex & _). apply wp_bind, (wp_deref _ x); [done|].
    destruct (znth_is_Some (le_bytes 4 seed) (k mod 4)) as [y Ey].
    { unfold zlen. rewrite le_bytes_length. pose proof (Z.mod_pos_bound k 4). lia. }
    apply wp_bind, (wp_deref _ y); [done|]. apply wp_bind. eapply wp_mono; [apply swap_byte_shuffled; [done|unfold is_u8; lia|apply u8_range]|].
    intros l2 H2. by apply wp_ret. }
  intros [l2 j] H2. cbn [fst] in H2. wp_step. split; [|done]. split; [by apply shuffled_len|done|done|done].
Qed.
Lemma random_byte_spec r : rng_ok r -> inited r = true -> mwp random_byte r (fun x r' => is_u8 x /\ rng_ok r' /\ inited r' = true).
Proof.
  intros [Hl Hi Hj Hp] Hin. specialize (Hp Hin). unfold random_byte. wp_step. wp_step.
  destruct (shuffled_at _ _ Hp (u8_range (s_i r + 1))) as (x & Ex & _). wp_step. wp_step. eapply wp_deref; [exact Ex|].
  wp_step. wp_step. eapply wp_mono; [apply swap_byte_shuffled; [done|apply u8_range|apply u8_range]|]. intros l H2.
  destruct (shuffled_at _ _ H2 (u8_range (s_i r + 1))) as (a & Ea & _). destruct (shuffled_at _ _ H2 (u8_range (s_j r + x))) as (b & Eb & _).
  destruct (shuffled_at _ _ H2 (u8_range (a + b))) as (c & Ec & Hc).
  wp_step. wp_step. eapply wp_deref; [exact Ea|]. wp_step. wp_step. eapply wp_deref; [exact Eb|]. wp_step. wp_step.
  wp_step. eapply wp_deref; [exact Ec|]. split; [done|]. split; [|done].
  split; [by apply shuffled_len|apply u8_range|apply u8_range|done].
Qed.
(** From the start of the program on, [random_bytes] fills the buffer with bytes and
    leaves the state a permutation of all bytes: it never indexes outside its array,
    whatever was drawn before. *)
Theorem random_bytes_ok r size : rng_ok r -> 0 <= size ->
  mwp (random_bytes size) r (fun bs r' => zlen bs = size /\ Forall is_u8 bs /\ rng_ok r' /\ shuffled (s r')).
Proof.
  intros Hr Hs. unfold random_bytes. wp_step. wp_step. wp_step.
  apply mwp_mono with (Q := fun _ r' => rng_ok r' /\ inited r' = true).
  { destruct (inited r) eqn:E; [by wp_step|]. apply random_init_spec; [done|apply Hr]. }
  intros _ r1 [H1 E1]. assert (En : size = Z.of_nat (Z.to_nat size)) by lia. revert En. generalize (Z.to_nat size).
  intros n ->. clear r Hr Hs. revert r1 H1 E1. induction n as [|n IH]; intros r H1 E1; cbn [random_fill]; [wp_step; repeat split; try done; by apply H1|].
  wp_step. eapply mwp_mono; [by apply random_byte_spec|]. intros x r1 (Hx & H2 & E2).
  wp_step. eapply mwp_mono; [by apply IH|]. intros xs r2 (Hl & Hxs & H3). wp_step. split; [|split; [by constructor|done]].
  unfold zlen in *. cbn [length]. lia.
Qed.
Lemma random_bytes_ok_witness : mwp (random_bytes 3) rng0 (fun bs r' => zlen bs = 3 /\ Forall is_u8 bs /\ rng_ok r' /\ shuffled (s r')).
Proof. apply (random_bytes_ok rng0 3); [split; done|lia]. Defined.
