(* ===== verification/Malloc.v ===== *)
(** * Malloc: threads/malloc.c

    The kernel's allocator, on the pages of Palloc and the lists of KList.  The memory
    it manages is seen three ways, which the code never mixes for the same bytes: the
    header of an arena by the address of its page ([headers]), the list element at the
    start of a free block ([links]), and the bytes of the blocks handed out ([bytes]).
    So the bytes of free memory keep what they were, where in C the list elements and the
    0xcc of [palloc_free_page] overwrite them: they say nothing, and no theorem is about
    the bytes of memory that is not handed out.
    [me] is the running thread; the locks are used by one thread at a time here. *)
From S2P Require Import Prelude.
From S2P Require Import Bitmap.
From S2P Require Import Lock.
From S2P Require Import Vaddr.
From S2P Require Import CString.
From S2P Require Import KList.
From S2P Require Import Palloc.

Record desc := Desc { block_size_of : Z; blocks_per_arena : Z; dlock : lock }.
(** [adesc] is the index of the descriptor, none for a null pointer. *)
Record arena := Arena { magic : Z; adesc : option nat; free_cnt : Z }.
Record mstate := MState { km : kmem; headers : gmap Z arena; links : gmap Z list_elem; bytes : gmap Z Z; descs : list desc }.
Abbreviation AM := (M mstate).
Definition set_km (k : kmem) (m : mstate) : mstate := MState k (headers m) (links m) (bytes m) (descs m).
Definition set_headers (h : gmap Z arena) (m : mstate) : mstate := MState (km m) h (links m) (bytes m) (descs m).
Definition set_links (l : gmap Z list_elem) (m : mstate) : mstate := MState (km m) (headers m) l (bytes m) (descs m).
Definition set_bytes (b : gmap Z Z) (m : mstate) : mstate := MState (km m) (headers m) (links m) b (descs m).
Definition set_descs (d : list desc) (m : mstate) : mstate := MState (km m) (headers m) (links m) (bytes m) d.
Definition in_km {A} (f : M kmem A) : AM A := m ← get; '(a, k) ← lift (f (km m)); _ ← put (set_km k m); mret a.
Definition in_links {A} (f : M (gmap Z list_elem) A) : AM A := m ← get; '(a, l) ← lift (f (links m)); _ ← put (set_links l m); mret a.
Definition in_bytes {A} (f : M (gmap Z Z) A) : AM A := m ← get; '(a, b) ← lift (f (bytes m)); _ ← put (set_bytes b m); mret a.

Definition ARENA_MAGIC : Z := 0x9a548eed.
Definition sizeof_arena : Z := 12.
Definition sizeof_desc : Z := 48.

Section malloc.
(** [DESCS] is the address of the array [descs]. *)
Context (me DESCS : Z).
Definition free_list (i : nat) : Z := DESCS + sizeof_desc * Z.of_nat i + 8.

Fixpoint init_loop (fuel : nat) (block_size : Z) : AM unit :=
  match fuel with
  | O => hang
  | S fuel =>
      if block_size <? PGSIZE / 2 then
        ds ← gets descs;
        _ ← assert (zlen ds + 1 <=? 10);
        _ ← in_links (list_init (free_list (length ds)));
        _ ← modify (set_descs (ds ++ [Desc block_size ((PGSIZE - sizeof_arena) / block_size) None]));
        init_loop fuel (block_size * 2)
      else mret tt
  end.
(** The block size doubles 7 times. *)
Definition malloc_init : AM unit := init_loop 8 16.

Definition get_desc (i : nat) : AM desc := ds ← gets descs; lift (deref (ds !! i)).
Definition set_desc_lock (i : nat) (l : lock) : AM unit :=
  modify (fun m => set_descs (alter (fun d => Desc (block_size_of d) (blocks_per_arena d) l) i (descs m)) m).
Definition desc_acquire (i : nat) : AM unit := d ← get_desc i; l ← lift (lock_acquire me (dlock d)); set_desc_lock i l.
Definition desc_release (i : nat) : AM unit := d ← get_desc i; l ← lift (lock_release me (dlock d)); set_desc_lock i l.
Definition get_header (a : Z) : AM arena := hs ← gets headers; lift (deref (hs !! a)).
Definition set_header (a : Z) (h : arena) : AM unit := modify (fun m => set_headers (<[a := h]> (headers m)) m).

Definition block_to_arena (b : Z) : AM Z :=
  let a := pg_round_down b in
  _ ← assert (negb (a =? NULL));
  h ← get_header a;
  _ ← assert (magic h =? ARENA_MAGIC);
  match adesc h with
  | Some i => d ← get_desc i; _ ← assert ((pg_ofs b -u sizeof_arena) mod block_size_of d =? 0); mret a
  | None => _ ← assert (pg_ofs b =? sizeof_arena); mret a
  end.
Definition arena_to_block (a idx : Z) : AM Z :=
  _ ← assert (negb (a =? NULL));
  h ← get_header a;
  _ ← assert (magic h =? ARENA_MAGIC);
  i ← lift (deref (adesc h)); d ← get_desc i;
  _ ← assert (idx <? blocks_per_arena d);
  mret (a + sizeof_arena + idx * block_size_of d).

(** The memory of a new block becomes a list element; [garbage] is what it holds. *)
Definition new_elem (garbage : list_elem) (b : Z) : AM unit := modify (fun m => set_links (<[b := garbage]> (links m)) m).
(** The loops over the blocks of an arena, from block [i] on. *)
Fixpoint add_blocks (garbage : list_elem) (di : nat) (a : Z) (n : nat) (i : Z) : AM unit :=
  match n with
  | O => mret tt
  | S n => b ← arena_to_block a i; _ ← new_elem garbage b; _ ← in_links (list_push_back (free_list di) b); add_blocks garbage di a n (i + 1)
  end.
Fixpoint remove_blocks (a : Z) (n : nat) (i : Z) : AM unit :=
  match n with
  | O => mret tt
  | S n => b ← arena_to_block a i; _ ← in_links (list_remove b); remove_blocks a n (i + 1)
  end.
Definition find_desc (ds : list desc) (size : Z) : option nat :=
  fst <$> list_find (fun d => size <= block_size_of d) ds.

Definition big_block (size : Z) : AM Z :=
  let page_cnt := DIV_ROUND_UP (size +u sizeof_arena) PGSIZE in
  a ← in_km (palloc_get_multiple me 0 page_cnt);
  if a =? NULL then mret NULL
  else _ ← set_header a (Arena ARENA_MAGIC None page_cnt); mret (a + sizeof_arena).
(** A new arena for an empty free list; false when there is no page. *)
Definition new_arena (garbage : list_elem) (i : nat) : AM bool :=
  a ← in_km (palloc_get_page me 0);
  if a =? NULL then mret false
  else
    d ← get_desc i;
    _ ← set_header a (Arena ARENA_MAGIC (Some i) (blocks_per_arena d));
    _ ← add_blocks garbage i a (Z.to_nat (blocks_per_arena d)) 0; mret true.
Definition take_block (i : nat) : AM Z :=
  b ← in_links (list_pop_front (free_list i));
  a ← block_to_arena b;
  h ← get_header a;
  _ ← set_header a (Arena (magic h) (adesc h) (free_cnt h -u 1));
  mret b.
Definition malloc (garbage : list_elem) (size : Z) : AM Z :=
  if size =? 0 then mret NULL
  else
    ds ← gets descs;
    match find_desc ds size with
    | None => big_block size
    | Some i =>
        _ ← desc_acquire i;
        e ← in_links (list_empty (free_list i));
        ok ← (if (e : bool) then new_arena garbage i else mret true);
        b ← (if (ok : bool) then take_block i else mret NULL);
        _ ← desc_release i; mret b
    end.
Definition calloc (garbage : list_elem) (a b : Z) : AM Z :=
  let size := a *u b in
  if (size <? a) || (size <? b) then mret NULL
  else
    p ← malloc garbage size;
    if negb (p =? NULL) then _ ← in_bytes (memset p 0 size); mret p else mret p.
Definition block_size (block : Z) : AM Z :=
  a ← block_to_arena block;
  h ← get_header a;
  match adesc h with
  | Some i => d ← get_desc i; mret (block_size_of d)
  | None => mret (PGSIZE *u free_cnt h -u pg_ofs block)
  end.
Definition free (p : Z) : AM unit :=
  if p =? NULL then mret tt
  else
    a ← block_to_arena p;
    h ← get_header a;
    match adesc h with
    | Some i =>
        d ← get_desc i;
        _ ← in_bytes (memset p 0xcc (block_size_of d));
        _ ← desc_acquire i;
        _ ← in_links (list_push_front (free_list i) p);
        let cnt := free_cnt h +u 1 in
        _ ← set_header a (Arena (magic h) (adesc h) cnt);
        _ ← (if blocks_per_arena d <=? cnt then
               _ ← assert (cnt =? blocks_per_arena d);
               _ ← remove_blocks a (Z.to_nat (blocks_per_arena d)) 0;
               _ ← modify (fun m => set_headers (delete a (headers m)) m);
               in_km (palloc_free_page a)
             else mret tt);
        desc_release i
    | None =>
        _ ← modify (fun m => set_headers (delete a (headers m)) m);
        in_km (palloc_free_multiple a (free_cnt h))
    end.
Definition realloc (garbage : list_elem) (old_block new_size : Z) : AM Z :=
  if new_size =? 0 then _ ← free old_block; mret NULL
  else
    new_block ← malloc garbage new_size;
    if negb (old_block =? NULL) && negb (new_block =? NULL) then
      old_size ← block_size old_block;
      let min_size := if new_size <? old_size then new_size else old_size in
      _ ← in_bytes (memcpy new_block old_block min_size);
      _ ← free old_block; mret new_block
    else mret new_block.
End malloc.
