(* ===== verification/MallocInv.v ===== *)
(** * MallocInv: the invariant of threads/malloc.c

    The invariant of the allocator, what it hands out, and how both change when a
    free list changes and when an arena comes or goes. *)
From stdpp Require Import functions.
From S2P Require Import Prelude.
From S2P Require Import Bitmap.
From S2P Require Import Lock.
From S2P Require Import Vaddr.
From S2P Require Import CString.
From S2P Require Import KList.
From S2P Require Import Palloc.
From S2P Require Import Malloc.

(** ** The blocks of an arena *)
(** Block size and number of blocks of a descriptor; its lock does not matter. *)
Definition geo (ds : list desc) (i : nat) : option (Z * Z) :=
  (fun d => (block_size_of d, blocks_per_arena d)) <$> ds !! i.
Definition geo_ok (g : Z * Z) : Prop := 16 <= g.1 /\ 1 <= g.2 /\ 12 + g.1 * g.2 <= 4096.
Lemma geo_small g : geo_ok g -> 1 <= g.2 <= 255.
Proof. intros (? & ? & ?). nia. Qed.
Definition block_at (a : Z) (g : Z * Z) (j : Z) : Z := a + 12 + j * g.1.
Definition is_block (a : Z) (g : Z * Z) (b : Z) : Prop := exists j, 0 <= j < g.2 /\ b = block_at a g j.
Definition span (h : arena) : Z := match adesc h with Some _ => 1 | None => free_cnt h end.
Definition page_of (b : Z) : Z := 4096 * (b / 4096).

Lemma block_page a g b : geo_ok g -> a mod 4096 = 0 -> is_block a g b -> page_of b = a /\ a + 12 <= b /\ b + g.1 <= a + 4096.
Proof.
  intros (Hs & Hc & Hf) Ha (j & Hj & ->). unfold block_at, page_of. assert (0 <= j * g.1) by nia. assert (j * g.1 + g.1 <= g.1 * g.2) by nia.
  split; [dlia|lia].
Qed.
Lemma is_block_dec a g b : geo_ok g -> Decision (is_block a g b).
Proof.
  intros (Hs & _). destruct (decide ((b - a - 12) mod g.1 = 0 /\ 0 <= (b - a - 12) / g.1 < g.2)) as [[H1 H2]|H].
  - left. exists ((b - a - 12) / g.1). split; [done|]. unfold block_at. pose proof (Z.div_mod (b - a - 12) g.1). lia.
  - right. intros (j & Hj & ->). apply H. unfold block_at. replace (a + 12 + j * g.1 - a - 12) with (j * g.1) by lia.
    rewrite Z.mod_mul, Z.div_mul by lia. done.
Qed.
(** The blocks, as a list. *)
Definition blocks (a : Z) (g : Z * Z) : list Z := block_at a g <$> seqZ 0 g.2.
Lemma elem_blocks a g b : b ∈ blocks a g <-> is_block a g b.
Proof.
  unfold blocks, is_block. rewrite list_elem_of_fmap. setoid_rewrite elem_of_seqZ. split; intros (j & ?); exists j; intuition lia.
Qed.
Lemma blocks_nodup a g : geo_ok g -> NoDup (blocks a g).
Proof.
  intros (Hs & _). apply NoDup_fmap_2_strong; [|apply NoDup_seqZ]. intros x y _ _. unfold block_at. nia.
Qed.
(** How many of the blocks of the arena at [a] are in [xs]. *)
Definition count_in (a : Z) (g : Z * Z) (xs : list Z) : Z := zlen (filter (fun b => b ∈ blocks a g) xs).
Lemma count_cons a g x xs : count_in a g (x :: xs) = count_in a g xs + (if decide (x ∈ blocks a g) then 1 else 0).
Proof. unfold count_in, zlen. rewrite filter_cons. destruct (decide (x ∈ blocks a g)); cbn [length]; lia. Qed.
Lemma blocks_length a g : length (blocks a g) = Z.to_nat g.2.
Proof. unfold blocks. by rewrite length_fmap, length_seqZ. Qed.
Lemma count_all a g xs : geo_ok g -> NoDup xs -> (forall b, b ∈ blocks a g -> b ∈ xs) -> count_in a g xs = g.2.
Proof.
  intros Hg Hn H. unfold count_in, zlen. assert (Hp : filter (fun b => b ∈ blocks a g) xs ≡ₚ blocks a g).
  { apply NoDup_Permutation; [by apply list.NoDup_filter|by apply blocks_nodup|]. intros b. rewrite list_elem_of_filter. naive_solver. }
  rewrite Hp, blocks_length. destruct Hg as (_ & Hc & _). lia.
Qed.
Lemma count_le a g xs : geo_ok g -> NoDup xs -> 0 <= count_in a g xs <= g.2.
Proof.
  intros Hg Hn. unfold count_in, zlen. split; [lia|].
  assert (H : (length (filter (fun b => b ∈ blocks a g) xs) <= length (blocks a g))%nat).
  { apply submseteq_length, NoDup_submseteq; [by apply list.NoDup_filter|]. intros b. rewrite list_elem_of_filter. naive_solver. }
  rewrite blocks_length in H. destruct Hg as (_ & Hc & _). lia.
Qed.
(** All of them, when the count says so. *)
Lemma count_full a g xs b : geo_ok g -> NoDup xs -> count_in a g xs = g.2 -> b ∈ blocks a g -> b ∈ xs.
Proof.
  intros Hg Hn Hc Hb. destruct (decide (b ∈ xs)) as [|Hnb]; [done|exfalso].
  assert (Hle : 0 <= count_in a g (b :: xs) <= g.2) by (apply count_le; [done|by apply list.NoDup_cons]).
  rewrite count_cons, decide_True in Hle by done. lia.
Qed.

(** ** The invariant *)
Section invariant.
Context (me DESCS : Z).
Abbreviation free_list := (free_list DESCS).
Definition page_taken (k : kmem) (q : Z) : Prop := in_pool (kernel_pool k) q /\ taken k q.
(** The free lists hold [fls]. *)
Record minv (fls : nat -> list Z) (m : mstate) : Prop := Minv {
  mi_km : kmem_wf (km m);
  mi_geo i g : geo (descs m) i = Some g -> geo_ok g;
  mi_low : 0 < DESCS /\ DESCS + 48 * zlen (descs m) <= base (kernel_pool (km m));
  mi_rep i g : geo (descs m) i = Some g -> rep (links m) (free_list i) (fls i);
  mi_out i : geo (descs m) i = None -> fls i = [];
  mi_magic a h : headers m !! a = Some h -> magic h = ARENA_MAGIC /\ a mod 4096 = 0 /\ 0 < span h /\
    forall q, in_block a (span h) q -> page_taken (km m) q;
  mi_small a h i : headers m !! a = Some h -> adesc h = Some i -> exists g, geo (descs m) i = Some g /\
    free_cnt h = count_in a g (fls i) /\ (forall b, is_block a g b -> is_Some (links m !! b));
  mi_fl i b : b ∈ fls i -> exists a h g, headers m !! a = Some h /\ adesc h = Some i /\ geo (descs m) i = Some g /\ is_block a g b;
  mi_apart a h a' h' q : headers m !! a = Some h -> headers m !! a' = Some h' -> in_block a (span h) q -> in_block a' (span h') q -> a = a';
  mi_bytes : mapped (bytes m) (base (kernel_pool (km m))) (4096 * bit_cnt (used_map (kernel_pool (km m)))) }.
(** The block at [b] of [n] bytes is handed out. *)
Definition allocated (fls : nat -> list Z) (m : mstate) (b n : Z) : Prop :=
  exists a h, headers m !! a = Some h /\
    match adesc h with
    | Some i => exists g, geo (descs m) i = Some g /\ is_block a g b /\ b ∉ fls i /\ n = g.1
    | None => b = a + 12 /\ n = 4096 * free_cnt h - 12
    end.
Definition unlocked (m : mstate) : Prop := forall i d, descs m !! i = Some d -> dlock d = None.

Section facts.
Context (fls : nat -> list Z) (m : mstate) (Hm : minv fls m).
Lemma header_pages a h q : headers m !! a = Some h -> in_block a (span h) q -> page_taken (km m) q.
Proof. intros E. destruct (mi_magic _ _ Hm _ _ E) as (_ & _ & _ & H). apply H. Qed.
Lemma header_self a h : headers m !! a = Some h -> in_block a (span h) a /\ kpage a /\ base (kernel_pool (km m)) <= a.
Proof.
  intros E. destruct (mi_magic _ _ Hm _ _ E) as (_ & Ha & Hs & Hq). assert (Hin : in_block a (span h) a) by (split; [lia|done]).
  destruct (Hq a Hin) as [Hp _]. split; [done|]. pose proof (kw_pool _ (mi_km _ _ Hm) false) as Hw.
  split; [exact (in_pool_kpage _ _ Hw Hp)|]. destruct Hp as [[? _] _]. done.
Qed.
(** A block of a small arena says which arena it is of. *)
Lemma block_arena a h i g b : headers m !! a = Some h -> adesc h = Some i -> geo (descs m) i = Some g -> is_block a g b ->
  page_of b = a /\ a + 12 <= b /\ b + g.1 <= a + 4096 /\ geo_ok g.
Proof.
  intros E Ei Eg Hb. pose proof (mi_geo _ _ Hm _ _ Eg) as Hg. destruct (mi_magic _ _ Hm _ _ E) as (_ & Ha & _).
  destruct (block_page a g b Hg Ha Hb) as (? & ? & ?). done.
Qed.
Lemma free_block_above i b : b ∈ fls i -> base (kernel_pool (km m)) < b.
Proof.
  intros Hb. destruct (mi_fl _ _ Hm _ _ Hb) as (a & h & g & E & Ei & Eg & Hbl). destruct (header_self _ _ E) as (_ & _ & H).
  destruct (block_arena _ _ _ _ _ E Ei Eg Hbl) as (_ & ? & _). lia.
Qed.
Lemma fls_apart i j b : b ∈ fls i -> b ∈ fls j -> i = j.
Proof.
  intros (a & h & g & E & Ei & Eg & Hb)%(mi_fl _ _ Hm) (a' & h' & g' & E' & Ei' & Eg' & Hb')%(mi_fl _ _ Hm).
  destruct (block_arena _ _ _ _ _ E Ei Eg Hb) as [<- _]. destruct (block_arena _ _ _ _ _ E' Ei' Eg' Hb') as [<- _]. congruence.
Qed.
Lemma geo_index i g : geo (descs m) i = Some g -> Z.of_nat i < zlen (descs m).
Proof. unfold geo. intros (d & E & _)%fmap_Some. apply lookup_lt_Some in E. unfold zlen. lia. Qed.
Lemma head_below i g n : geo (descs m) i = Some g -> n = free_list i \/ n = free_list i + 8 -> 0 < n < base (kernel_pool (km m)).
Proof.
  intros E%geo_index. destruct (mi_low _ _ Hm). unfold Malloc.free_list, sizeof_desc. lia.
Qed.
Lemma lists_apart i j gi gj n : geo (descs m) i = Some gi -> geo (descs m) j = Some gj -> i <> j ->
  n ∈ nodes (free_list i) (fls i) -> n ∉ nodes (free_list j) (fls j).
Proof.
  intros Ei Ej Hne Hi Hj. unfold nodes in *. rewrite elem_of_cons, elem_of_app, list_elem_of_singleton in Hi, Hj.
  assert (Hh : n = free_list i \/ n = free_list i + 8 -> n = free_list j \/ n = free_list j + 8 -> False).
  { unfold Malloc.free_list, sizeof_desc. lia. }
  destruct (decide (n ∈ fls i)) as [Hni|Hni], (decide (n ∈ fls j)) as [Hnj|Hnj].
  - apply Hne. by eapply fls_apart.
  - pose proof (free_block_above _ _ Hni). pose proof (head_below j gj n Ej). intuition lia.
  - pose proof (free_block_above _ _ Hnj). pose proof (head_below i gi n Ei). intuition lia.
  - apply Hh; tauto.
Qed.
(** The block at [b] is in the arena its page says. *)
Lemma allocated_arena a1 h1 a h i g b : headers m !! a1 = Some h1 ->
  match adesc h1 with Some j => exists g1, geo (descs m) j = Some g1 /\ is_block a1 g1 b | None => b = a1 + 12 end ->
  headers m !! a = Some h -> adesc h = Some i -> geo (descs m) i = Some g -> is_block a g b -> a1 = a.
Proof.
  intros E1 H1 E Ei Eg Hb. destruct (block_arena _ _ _ _ _ E Ei Eg Hb) as (<- & _).
  destruct (adesc h1) as [j|] eqn:Ej.
  - destruct H1 as (g1 & Eg1 & Hb1). by destruct (block_arena _ _ _ _ _ E1 Ej Eg1 Hb1) as (<- & _).
  - destruct (mi_magic _ _ Hm _ _ E1) as (_ & Ha & _). subst b. unfold page_of. dlia.
Qed.
End facts.

(** ** A free list changes *)
(** The list [i] becomes [xs']: only blocks of the arena at [a] come or go. *)
Section change.
Context (fls : nat -> list Z) (m : mstate) (Hm : minv fls m) (i : nat) (g : Z * Z) (a : Z) (h : arena) (xs' : list Z) (links' : gmap Z list_elem).
Context (Eg : geo (descs m) i = Some g) (Ea : headers m !! a = Some h) (Eh : adesc h = Some i).
Context (Hr : rep links' (free_list i) xs') 
  (Hs : forall q, q <> free_list i -> q <> free_list i + 8 -> ~ is_block a g q -> q ∉ fls i -> links' !! q = links m !! q)
  (Hmap : forall q, is_Some (links m !! q) -> is_Some (links' !! q)).
Context (Hin : forall b, b ∈ xs' -> b ∈ fls i \/ is_block a g b) (Hout : forall b, b ∈ fls i -> b ∈ xs' \/ is_block a g b).
Context (Hcnt : forall a', a' <> a -> is_Some (headers m !! a') -> count_in a' g xs' = count_in a' g (fls i)).
Definition changed : mstate :=
  set_headers (<[a := Arena (magic h) (Some i) (count_in a g xs')]> (headers m)) (set_links links' m).
Definition changed_fls : nat -> list Z := <[i := xs']> fls.
Lemma changed_header a' h' : headers changed !! a' = Some h' ->
  exists h0, headers m !! a' = Some h0 /\ magic h' = magic h0 /\ adesc h' = adesc h0 /\ span h' = span h0 /\
    (a' <> a -> h' = h0) /\ (a' = a -> free_cnt h' = count_in a g xs').
Proof.
  unfold changed. cbn [headers set_headers set_links]. intros E. destruct (decide (a' = a)) as [->|Hne].
  - rewrite lookup_insert_eq in E. injection E as <-. exists h. unfold span. cbn. rewrite Eh. done.
  - rewrite lookup_insert_ne in E by done. by exists h'.
Qed.
Lemma header_changed a' h' : headers m !! a' = Some h' -> exists h1, headers changed !! a' = Some h1 /\ adesc h1 = adesc h'.
Proof.
  intros E. unfold changed. cbn [headers set_headers set_links]. destruct (decide (a' = a)) as [->|Hne].
  - rewrite lookup_insert_eq. eexists. split; [done|]. cbn. congruence.
  - rewrite lookup_insert_ne by done. by exists h'.
Qed.
Lemma new_elem_arena b : b ∈ xs' -> exists a' h' , headers m !! a' = Some h' /\ adesc h' = Some i /\ is_block a' g b.
Proof.
  intros [Hb|Hb]%Hin; [|by exists a, h]. destruct (mi_fl _ _ Hm _ _ Hb) as (a' & h' & g' & E & Ei & Eg' & Hbl).
  rewrite Eg in Eg'. injection Eg' as <-. by exists a', h'.
Qed.
Lemma changed_minv : minv changed_fls changed.
Proof.
  assert (Hne : forall j, j <> i -> changed_fls j = fls j) by (intros j Hj; by apply fn_lookup_insert_ne).
  assert (Hi : changed_fls i = xs') by apply fn_lookup_insert.
  split; cbn [km descs links bytes changed set_headers set_links].
  - apply (mi_km _ _ Hm).
  - apply (mi_geo _ _ Hm).
  - apply (mi_low _ _ Hm).
  - intros j gj Ej. destruct (decide (j = i)) as [->|Hj]; [by rewrite Hi|]. rewrite Hne by done.
    eapply rep_frame; [|by apply (mi_rep _ _ Hm j gj)]. intros n Hn.
    assert (Hn' := lists_apart _ _ Hm j i gj g n Ej Eg Hj Hn). unfold nodes in Hn'. rewrite elem_of_cons, elem_of_app, list_elem_of_singleton in Hn'.
    apply Hs; [tauto|tauto| |tauto]. intros Hb. destruct (block_arena _ _ Hm _ _ _ _ _ Ea Eh Eg Hb) as (Hp1 & ? & _).
    pose proof (header_self _ _ Hm _ _ Ea) as (_ & _ & Hlow).
    unfold nodes in Hn. rewrite elem_of_cons, elem_of_app, list_elem_of_singleton in Hn. destruct (decide (n ∈ fls j)) as [Hf|Hf].
    + apply (mi_fl _ _ Hm) in Hf as (a2 & h2 & g2 & E2 & Ei2 & Eg2 & Hb2). pose proof (block_arena _ _ Hm _ _ _ _ _ E2 Ei2 Eg2 Hb2) as (Hp2 & _).
      assert (a = a2) by congruence. subst a2. congruence.
    + pose proof (head_below _ _ Hm j gj n Ej). intuition lia.
  - intros j Ej. destruct (decide (j = i)) as [->|Hj]; [congruence|]. rewrite Hne by done. by apply (mi_out _ _ Hm).
  - intros a' h' (h0 & E0 & Em & _ & Es & _)%changed_header. rewrite Em, Es. by apply (mi_magic _ _ Hm).
  - intros a' h' j E' Ej. destruct (changed_header _ _ E') as (h0 & E0 & _ & Ed & _ & Hh1 & Hh2). rewrite Ed in Ej.
    destruct (mi_small _ _ Hm _ _ _ E0 Ej) as (gj & Egj & Hc & Hb). exists gj. split; [done|]. split; [|intros b Hbl; by apply Hmap, Hb].
    destruct (decide (a' = a)) as [->|Ha].
    + rewrite Ea in E0. injection E0 as <-. rewrite Eh in Ej. injection Ej as <-. rewrite Hi, Hh2 by done. congruence.
    + rewrite Hh1 by done. destruct (decide (j = i)) as [->|Hj]; [|by rewrite Hne]. rewrite Hi, Hc.
      assert (gj = g) by congruence. subst gj. symmetry. apply Hcnt; [done|by eexists].
  - intros j b Hb. destruct (decide (j = i)) as [->|Hj].
    + rewrite Hi in Hb. destruct (new_elem_arena b Hb) as (a1 & h1 & E1 & Ei1 & Hb1).
      destruct (header_changed _ _ E1) as (h2 & E2 & Ed). exists a1, h2, g. rewrite Ed. done.
    + rewrite Hne in Hb by done. apply (mi_fl _ _ Hm) in Hb as (a1 & h1 & g1 & E1 & Ei1 & Eg1 & Hb1).
      destruct (header_changed _ _ E1) as (h2 & E2 & Ed). exists a1, h2, g1. rewrite Ed. done.
  - intros a1 h1 a2 h2 q (h1' & E1 & _ & _ & Es1 & _)%changed_header (h2' & E2 & _ & _ & Es2 & _)%changed_header.
    rewrite Es1, Es2. by apply (mi_apart _ _ Hm).
  - apply (mi_bytes _ _ Hm).
Qed.
(** What is handed out elsewhere stays; of the arena at [a], the blocks that are not free. *)
Lemma changed_allocated b n : allocated changed_fls changed b n <->
  (allocated fls m b n /\ ~ is_block a g b) \/ (is_block a g b /\ b ∉ xs' /\ n = g.1).
Proof.
  assert (Hfree : forall j, ~ is_block a g b -> b ∈ changed_fls j <-> b ∈ fls j).
  { intros j Hnb. unfold changed_fls. destruct (decide (j = i)) as [->|Hj]; [rewrite fn_lookup_insert|by rewrite fn_lookup_insert_ne].
    split; intros H; [apply Hin in H|apply Hout in H]; tauto. }
  split.
  - intros (a1 & h1 & E1 & H). destruct (changed_header _ _ E1) as (h0 & E0 & _ & Ed & Es & Hh1 & _).
    destruct (decide (a1 = a)) as [->|Hne].
    + right. assert (h0 = h) as -> by congruence. rewrite Ed, Eh in H. destruct H as (g1 & Eg1 & Hb & Hf & ->).
      assert (g1 = g) as -> by (cbn in Eg1; congruence). unfold changed_fls in Hf. rewrite fn_lookup_insert in Hf. done.
    + left. rewrite (Hh1 Hne) in H. assert (Hnb : ~ is_block a g b).
      { intros Hb. apply Hne. eapply (allocated_arena _ _ Hm); [exact E0| |exact Ea|exact Eh|exact Eg|exact Hb].
        destruct (adesc h0); [destruct H as (g1 & ? & ? & _); by exists g1|by destruct H]. }
      split; [|done]. exists a1, h0. split; [done|]. destruct (adesc h0) as [j|]; [|done].
      destruct H as (g1 & ? & ? & Hf & ?). rewrite Hfree in Hf by done. by exists g1.
  - intros [[(a1 & h1 & E1 & H) Hnb]|(Hb & Hf & ->)].
    + destruct (header_changed _ _ E1) as (h2 & E2 & Ed). exists a1, h2. split; [done|].
      destruct (changed_header _ _ E2) as (h0 & E0 & _ & _ & _ & Hh & _). assert (h0 = h1) as -> by congruence.
      destruct (decide (a1 = a)) as [->|Hne].
      * assert (h1 = h) as -> by congruence. rewrite Eh in H. destruct H as (g1 & ? & ? & _). exfalso. apply Hnb. congruence.
      * rewrite (Hh Hne). destruct (adesc h1) as [j|]; [|done]. destruct H as (g1 & ? & ? & Hf & ?). exists g1. by rewrite Hfree.
    + exists a, (Arena (magic h) (Some i) (count_in a g xs')). split; [by apply lookup_insert_eq|]. exists g.
      split; [done|]. split; [done|]. split; [|done]. unfold changed_fls. by rewrite fn_lookup_insert.
Qed.
End change.

(** ** Arenas come and go *)
(** The facts a block at [b] gives of the arena [h1] at [a1] it is in. *)
Definition block_in (m : mstate) (a1 : Z) (h1 : arena) (b : Z) : Prop :=
  match adesc h1 with Some j => exists g1, geo (descs m) j = Some g1 /\ is_block a1 g1 b | None => b = a1 + 12 end.
Lemma block_in_page fls m a1 h1 b : minv fls m -> headers m !! a1 = Some h1 -> block_in m a1 h1 b -> page_of b = a1.
Proof.
  intros Hm E. unfold block_in. destruct (adesc h1) as [j|] eqn:Ej.
  - intros (g1 & Eg & Hb). by destruct (block_arena _ _ Hm _ _ _ _ _ E Ej Eg Hb) as (<- & _).
  - intros ->. destruct (mi_magic _ _ Hm _ _ E) as (_ & Ha & _). unfold page_of. dlia.
Qed.
Lemma fl_page fls m i b : minv fls m -> b ∈ fls i -> is_Some (headers m !! page_of b) /\ page_of b <= b.
Proof.
  intros Hm Hb. destruct (mi_fl _ _ Hm _ _ Hb) as (a & h & g & E & Ei & Eg & Hbl).
  destruct (block_arena _ _ Hm _ _ _ _ _ E Ei Eg Hbl) as (-> & ? & _). split; [by eexists|lia].
Qed.
Lemma count_none a g xs : (forall b, b ∈ xs -> ~ is_block a g b) -> count_in a g xs = 0.
Proof.
  induction xs as [|x xs IH]; intros H; [done|]. rewrite count_cons, IH by (intros b Hb; apply H; by right).
  rewrite decide_False; [done|]. rewrite elem_blocks. apply H. by left.
Qed.

Section fresh.
Context (fls : nat -> list Z) (m : mstate) (Hm : minv fls m) (a n : Z) (k' : kmem) (h0 : arena) (links1 : gmap Z list_elem).
Context (Hg : got (km m) false false n a k') (Hn : 0 < n) (Hsp : span h0 = n) (Hmg : magic h0 = ARENA_MAGIC).
Context (Hsm : forall i, adesc h0 = Some i -> exists g, geo (descs m) i = Some g /\ free_cnt h0 = 0 /\ forall b, is_block a g b -> is_Some (links1 !! b)).
Context (Hl : forall q, is_Some (links m !! q) -> is_Some (links1 !! q)) (Hl' : forall q, ~ (a <= q < a + 4096 * n) -> links1 !! q = links m !! q).
Definition fresh : mstate := MState k' (<[a := h0]> (headers m)) links1 (bytes m) (descs m).
Lemma fresh_page q : in_block a n q -> ~ taken (km m) q /\ in_pool (kernel_pool (km m)) q.
Proof. intros Hq. by destruct (got_free _ _ _ _ _ _ Hg q Hq). Qed.
Lemma fresh_self : in_block a n a.
Proof. destruct (got_page _ _ _ _ _ _ Hg). split; [lia|done]. Qed.
Lemma fresh_not a1 h1 : headers m !! a1 = Some h1 -> ~ in_block a n a1.
Proof.
  intros E Ha. destruct (header_self _ _ Hm _ _ E) as (Hs & _). destruct (header_pages _ _ Hm _ _ _ E Hs) as [_ Ht].
  by apply (proj1 (fresh_page _ Ha)).
Qed.
Lemma fresh_new : headers m !! a = None.
Proof. destruct (headers m !! a) as [h|] eqn:E; [|done]. by destruct (fresh_not _ _ E fresh_self). Qed.
Lemma fresh_pool : base (kernel_pool k') = base (kernel_pool (km m)) /\
  bit_cnt (used_map (kernel_pool k')) = bit_cnt (used_map (kernel_pool (km m))).
Proof. destruct (got_pools _ _ _ _ _ _ Hg) as [_ H]. exact (H false). Qed.
Lemma fresh_free_block i b : b ∈ fls i -> ~ (a <= b < a + 4096 * n).
Proof.
  intros Hb Hr. destruct (fl_page _ _ _ _ Hm Hb) as [[h E] Hle]. apply (fresh_not _ _ E).
  destruct (got_page _ _ _ _ _ _ Hg) as [_ Ha]. unfold page_of in *. split; dlia.
Qed.
Lemma fresh_no_block g b i : geo_ok g -> is_block a g b -> b ∉ fls i.
Proof.
  intros Hgo Hb Hf. apply (fresh_free_block _ _ Hf). destruct (got_page _ _ _ _ _ _ Hg) as [_ Ha].
  destruct (block_page a g b Hgo Ha Hb) as (_ & ? & ?). destruct Hgo. lia.
Qed.
Lemma fresh_taken q : page_taken (km m) q -> page_taken k' q.
Proof.
  intros [Hp Ht]. destruct fresh_pool as [E1 E2]. split; [unfold in_pool in *; by rewrite E1, E2|].
  apply (got_taken _ _ _ _ _ _ Hg). by left.
Qed.
Lemma fresh_minv : minv fls fresh.
Proof.
  destruct fresh_pool as [E1 E2].
  split; cbn [fresh km headers links bytes descs]; rewrite ?E1, ?E2; try apply Hm.
  - apply (got_wf _ _ _ _ _ _ Hg).
  - intros i g Eg. apply (rep_frame (links m)); [|by eapply mi_rep]. intros q Hq. apply Hl'. intros Hr.
    unfold nodes in Hq. rewrite elem_of_cons, elem_of_app, list_elem_of_singleton in Hq. destruct (decide (q ∈ fls i)) as [Hf|Hf].
    + by apply (fresh_free_block _ _ Hf).
    + pose proof (head_below _ _ Hm i g q Eg). destruct (fresh_page a fresh_self) as (_ & [? _] & _). intuition lia.
  - intros a1 h1. destruct (decide (a1 = a)) as [->|Hne].
    + rewrite lookup_insert_eq. intros [= <-]. rewrite Hsp. split; [done|]. split; [apply (got_page _ _ _ _ _ _ Hg)|]. split; [done|].
      intros q Hq. destruct (fresh_page q Hq) as [_ Hp]. split; [unfold in_pool in *; by rewrite E1, E2|].
      apply (got_taken _ _ _ _ _ _ Hg). by right.
    + rewrite lookup_insert_ne by done. intros E. destruct (mi_magic _ _ Hm _ _ E) as (? & ? & ? & Hq).
      do 3 (split; [done|]). intros q Hb. by apply fresh_taken, Hq.
  - intros a1 h1 i. destruct (decide (a1 = a)) as [->|Hne].
    + rewrite lookup_insert_eq. intros [= <-] Ei. destruct (Hsm _ Ei) as (g & Eg & Hc & Hb). exists g. split; [done|]. split; [|done].
      rewrite Hc, count_none; [done|]. intros b Hf Hbl. by eapply fresh_no_block, Hf; [eapply mi_geo|].
    + rewrite lookup_insert_ne by done. intros E Ei. destruct (mi_small _ _ Hm _ _ _ E Ei) as (g & Eg & Hc & Hb).
      exists g. split; [done|]. split; [done|]. intros b Hbl. by apply Hl, Hb.
  - intros i b (a1 & h1 & g & E & H)%(mi_fl _ _ Hm). exists a1, h1, g. split; [|done].
    rewrite lookup_insert_ne; [done|]. intros <-. rewrite fresh_new in E. done.
  - assert (Hx : forall a1 h1 q, headers m !! a1 = Some h1 -> in_block a1 (span h1) q -> in_block a (span h0) q -> False).
    { intros a1 h1 q E Hq Ha. rewrite Hsp in Ha. destruct (header_pages _ _ Hm _ _ _ E Hq) as [_ Ht]. by apply (proj1 (fresh_page _ Ha)). }
    intros a1 h1 a2 h2 q. destruct (decide (a1 = a)) as [->|H1], (decide (a2 = a)) as [->|H2];
      rewrite ?lookup_insert_eq, ?lookup_insert_ne by done; [done|intros [= <-]|intros ? [= <-]|by apply (mi_apart _ _ Hm)].
    + intros E Ha Hq. exfalso. by eapply Hx.
    + intros Hq Ha. exfalso. by eapply Hx.
Qed.
Lemma fresh_allocated b k : allocated fls fresh b k <-> allocated fls m b k \/
  match adesc h0 with Some i => exists g, geo (descs m) i = Some g /\ is_block a g b /\ k = g.1 | None => b = a + 12 /\ k = 4096 * free_cnt h0 - 12 end.
Proof.
  unfold allocated, fresh. cbn [headers descs]. split.
  - intros (a1 & h1 & E & H). destruct (decide (a1 = a)) as [->|Hne].
    + right. rewrite lookup_insert_eq in E. injection E as <-. destruct (adesc h0); [|done]. destruct H as (g & ? & ? & _ & ?). by exists g.
    + left. rewrite lookup_insert_ne in E by done. by exists a1, h1.
  - intros [(a1 & h1 & E & H)|H].
    + exists a1, h1. rewrite lookup_insert_ne; [done|]. intros <-. rewrite fresh_new in E. done.
    + exists a, h0. rewrite lookup_insert_eq. split; [done|]. destruct (adesc h0) as [i|]; [|done]. destruct H as (g & Eg & Hb & ->).
      exists g. split; [done|]. split; [done|]. split; [|done]. eapply fresh_no_block; [by eapply mi_geo|done].
Qed.
End fresh.

(** What is handed out of a small arena: the blocks that are not free. *)
Lemma allocated_small fls m a h i g b n : minv fls m -> headers m !! a = Some h -> adesc h = Some i -> geo (descs m) i = Some g ->
  is_block a g b -> allocated fls m b n <-> b ∉ fls i /\ n = g.1.
Proof.
  intros Hm Ea Ei Eg Hb. split.
  - intros (a1 & h1 & E1 & H1). assert (a1 = a) as ->.
    { eapply (allocated_arena _ _ Hm); [exact E1| |exact Ea|exact Ei|exact Eg|exact Hb].
      destruct (adesc h1); [destruct H1 as (g1 & ? & ? & _); by exists g1|tauto]. }
    assert (h1 = h) as -> by congruence. rewrite Ei in H1. destruct H1 as (g1 & ? & _ & Hf & ->).
    assert (g1 = g) as -> by congruence. done.
  - intros [Hf ->]. exists a, h. rewrite Ei. split; [done|]. by exists g.
Qed.

Section drop.
Context (fls : nat -> list Z) (m : mstate) (Hm : minv fls m) (a : Z) (h : arena) (k' : kmem).
Context (Ea : headers m !! a = Some h) (Hf : freed (km m) (span h) a k').
Context (Hno : forall i g b, adesc h = Some i -> geo (descs m) i = Some g -> is_block a g b -> b ∉ fls i).
Definition dropped : mstate := MState k' (delete a (headers m)) (links m) (bytes m) (descs m).
Lemma dropped_header a1 h1 : headers dropped !! a1 = Some h1 <-> a1 <> a /\ headers m !! a1 = Some h1.
Proof. unfold dropped. cbn [headers]. rewrite lookup_delete_Some. naive_solver. Qed.
Lemma dropped_minv : minv fls dropped.
Proof.
  destruct (freed_pools _ _ _ _ Hf) as [_ Hp]. destruct (Hp false) as [E1 E2]. cbn [pool_of] in E1, E2.
  split; cbn [dropped km links bytes descs]; rewrite ?E1, ?E2; try apply Hm.
  - apply (freed_wf _ _ _ _ Hf).
  - intros a1 h1 [Hne E]%dropped_header. destruct (mi_magic _ _ Hm _ _ E) as (? & ? & ? & Hq).
    do 3 (split; [done|]). intros q Hb. destruct (Hq q Hb) as [Hpl Ht]. split; [unfold in_pool in *; by rewrite E1, E2|].
    apply (freed_taken _ _ _ _ Hf). split; [done|]. intros Ha. apply Hne. by eapply (mi_apart _ _ Hm).
  - intros a1 h1 i [Hne E]%dropped_header. by apply (mi_small _ _ Hm).
  - intros i b Hb. destruct (mi_fl _ _ Hm _ _ Hb) as (a1 & h1 & g & E & Ei & Eg & Hbl). exists a1, h1, g. split; [|done].
    apply dropped_header. split; [|done]. intros ->. assert (h1 = h) as -> by congruence. by eapply Hno.
  - intros a1 h1 a2 h2 q [_ Ha1]%dropped_header [_ Ha2]%dropped_header. by apply (mi_apart _ _ Hm).
Qed.
Lemma dropped_allocated b n : allocated fls dropped b n <-> allocated fls m b n /\ page_of b <> a.
Proof.
  assert (Hpg : forall a1 h1, headers m !! a1 = Some h1 ->
    match adesc h1 with
    | Some i => exists g, geo (descs m) i = Some g /\ is_block a1 g b /\ b ∉ fls i /\ n = g.1
    | None => b = a1 + 12 /\ n = 4096 * free_cnt h1 - 12 end -> page_of b = a1).
  { intros a1 h1 E H. apply (block_in_page _ _ _ _ _ Hm E). unfold block_in. destruct (adesc h1); [|tauto].
    destruct H as (g & ? & ? & _). by exists g. }
  unfold allocated. setoid_rewrite dropped_header. split.
  - intros (a1 & h1 & [Hne E] & H). split; [by exists a1, h1|]. by rewrite (Hpg _ _ E H).
  - intros [(a1 & h1 & E & H) Hp]. exists a1, h1. by rewrite (Hpg _ _ E H) in Hp.
Qed.
End drop.

(** The locks of the descriptors are no part of the invariant. *)
Lemma minv_descs fls m ds : minv fls m -> (forall i, geo ds i = geo (descs m) i) -> length ds = length (descs m) -> minv fls (set_descs ds m).
Proof.
  intros Hm Hg Hl. split; cbn [set_descs km headers links bytes descs]; unfold zlen; rewrite ?Hl; try apply Hm.
  - intros i g. rewrite Hg. apply (mi_geo _ _ Hm).
  - intros i g. rewrite Hg. apply (mi_rep _ _ Hm).
  - intros i. rewrite Hg. apply (mi_out _ _ Hm).
  - intros a h i. rewrite Hg. apply (mi_small _ _ Hm).
  - intros i b. setoid_rewrite Hg. apply (mi_fl _ _ Hm).
Qed.
Lemma allocated_descs fls m ds b n : (forall i, geo ds i = geo (descs m) i) ->
  allocated fls (set_descs ds m) b n <-> allocated fls m b n.
Proof.
  intros Hg. unfold allocated. cbn [set_descs headers descs].
  split; intros (a & h & E & H); exists a, h; (split; [done|]); destruct (adesc h); rewrite ?Hg in *; done.
Qed.
Lemma minv_bytes fls m bs : minv fls m -> (forall p n, mapped (bytes m) p n -> mapped bs p n) -> minv fls (set_bytes bs m).
Proof.
  intros Hm Hb. split; cbn [set_bytes km headers links bytes descs]; try apply Hm.
  exact (Hb _ _ (mi_bytes _ _ Hm)).
Qed.

(** ** Blocks do not overlap *)
Lemma allocated_where fls m b n : minv fls m -> allocated fls m b n -> exists a h, headers m !! a = Some h /\
  a + 12 <= b /\ b + n <= a + 4096 * span h /\ page_of b = a /\ 0 < n /\
  match adesc h with Some i => exists g, geo (descs m) i = Some g /\ is_block a g b /\ b ∉ fls i /\ n = g.1 | None => b = a + 12 /\ n = 4096 * free_cnt h - 12 end.
Proof.
  intros Hm (a & h & E & H). exists a, h. split; [done|]. destruct (mi_magic _ _ Hm _ _ E) as (_ & Ha & Hs & _). unfold span in *.
  destruct (adesc h) as [i|] eqn:Ei.
  - destruct H as (g & Eg & Hb & Hf & ->). destruct (block_arena _ _ Hm _ _ _ _ _ E Ei Eg Hb) as (Hp & ? & ? & Hgo & _).
    split; [lia|]. split; [lia|]. split; [done|]. split; [lia|]. by exists g.
  - destruct H as [-> ->]. unfold page_of. split; [lia|]. split; [lia|]. split; [dlia|]. split; [lia|done].
Qed.
Lemma allocated_apart fls m b n c k : minv fls m -> allocated fls m b n -> allocated fls m c k ->
  (b = c /\ n = k) \/ b + n <= c \/ c + k <= b.
Proof.
  intros Hm (a & h & E & H1 & H2 & Hp & Hn & H)%(allocated_where _ _ _ _ Hm) (a' & h' & E' & H1' & H2' & Hp' & Hk & H')%(allocated_where _ _ _ _ Hm).
  destruct (mi_magic _ _ Hm _ _ E) as (_ & Ha & _ & _). destruct (mi_magic _ _ Hm _ _ E') as (_ & Ha' & _ & _).
  destruct (decide (a = a')) as [<-|Hne].
  - assert (h' = h) as -> by congruence. destruct (adesc h) as [i|].
    + destruct H as (g & Eg & (j & Hj & ->) & _ & ->), H' as (g' & Eg' & (j' & Hj' & ->) & _ & ->).
      assert (g' = g) as -> by congruence. unfold block_at in *.
      destruct (Z.lt_trichotomy j j') as [?|[->|?]]; [right; left; nia|by left|right; right; nia].
    + destruct H as [-> ->], H' as [-> ->]. by left.
  - right. destruct (decide (a < a')).
    + left. destruct (decide (a + 4096 * span h <= a')) as [?|Hov]; [lia|]. exfalso. apply Hne.
      apply (mi_apart _ _ Hm _ _ _ _ a' E E'); [split; [lia|done]|apply (header_self _ _ Hm _ _ E')].
    + right. destruct (decide (a' + 4096 * span h' <= a)) as [?|Hov]; [lia|]. exfalso. apply Hne.
      apply (mi_apart _ _ Hm _ _ _ _ a E E'); [apply (header_self _ _ Hm _ _ E)|split; [lia|done]].
Qed.
End invariant.
