(* ===== verification/MallocSpec.v ===== *)
(** * MallocSpec: what threads/malloc.c promises

    [malloc] hands out memory that no other block uses and [free] takes it back. *)
From stdpp Require Import functions.
From S2P Require Import Prelude.
From S2P Require Import Bitmap.
From S2P Require Import Lock.
From S2P Require Import Vaddr.
From S2P Require Import CString.
From S2P Require Import KList.
From S2P Require Import Palloc.
From S2P Require Import Malloc.
From S2P Require Import MallocInv.

(** ** The parts of the memory *)
Lemma in_links_spec {A} (f : M (gmap Z list_elem) A) m (Q : A -> mstate -> Prop) :
  mwp f (links m) (fun a l => Q a (set_links l m)) -> mwp (in_links f) m Q.
Proof. intros H. unfold in_links. wp_step. wp_step. wp_step. unfold mwp, lift in *. destruct (f (links m)) as [[a l]| | |]; done. Qed.
Lemma in_km_spec {A} (f : M kmem A) m (Q : A -> mstate -> Prop) :
  mwp f (km m) (fun a k => Q a (set_km k m)) -> mwp (in_km f) m Q.
Proof. intros H. unfold in_km. wp_step. wp_step. wp_step. unfold mwp, lift in *. destruct (f (km m)) as [[a l]| | |]; done. Qed.
Lemma in_bytes_spec {A} (f : M (gmap Z Z) A) m (Q : A -> mstate -> Prop) :
  mwp f (bytes m) (fun a b => Q a (set_bytes b m)) -> mwp (in_bytes f) m Q.
Proof. intros H. unfold in_bytes. wp_step. wp_step. wp_step. unfold mwp, lift in *. destruct (f (bytes m)) as [[a l]| | |]; done. Qed.
Lemma get_desc_spec m i g (Q : desc -> mstate -> Prop) : geo (descs m) i = Some g ->
  (forall d, descs m !! i = Some d -> block_size_of d = g.1 -> blocks_per_arena d = g.2 -> Q d m) -> mwp (get_desc i) m Q.
Proof.
  unfold geo. intros (d & E & ->)%fmap_Some HQ. unfold get_desc. wp_step. wp_step. wp_step. rewrite E. by apply HQ.
Qed.
Lemma get_header_spec m a h (Q : arena -> mstate -> Prop) : headers m !! a = Some h -> Q h m -> mwp (get_header a) m Q.
Proof. intros E HQ. unfold get_header. wp_step. wp_step. wp_step. by rewrite E. Qed.
Lemma set_header_spec m a h (Q : unit -> mstate -> Prop) : Q tt (set_headers (<[a := h]> (headers m)) m) -> mwp (set_header a h) m Q.
Proof. intros HQ. unfold set_header. by wp_step. Qed.
Ltac m_step :=
  lazymatch goal with
  | |- mwp (in_links _) _ _ => apply in_links_spec
  | |- mwp (in_km _) _ _ => apply in_km_spec
  | |- mwp (in_bytes _) _ _ => apply in_bytes_spec
  | |- mwp (set_header _ _) _ _ => apply set_header_spec
  | |- mwp (get_header _) _ _ => eapply get_header_spec
  | |- mwp (get_desc _) _ _ => eapply get_desc_spec
  | _ => wp_step
  end.

(** ** From blocks to arenas and back *)
Lemma round_down_page a b : kpage a -> a <= b < a + 4096 -> pg_round_down b = a /\ pg_ofs b = b - a.
Proof.
  intros [Ha Hm] Hb. rewrite pg_ofs_eq, pg_round_down_eq by (unfold is_u32, PHYS_BASE, LOADER_PHYS_BASE in *; dlia).
  clear Ha. split; dlia.
Qed.
Lemma block_to_arena_spec m a h b (Q : Z -> mstate -> Prop) : kpage a -> headers m !! a = Some h -> magic h = ARENA_MAGIC ->
  block_in m a h b -> (forall i g, geo (descs m) i = Some g -> geo_ok g) -> Q a m -> mwp (block_to_arena b) m Q.
Proof.
  intros Ha E Hmg Hb Hgo HQ. unfold block_to_arena, block_in in *.
  assert (Hr : a <= b < a + 4096 /\ 12 <= b - a).
  { destruct (adesc h) as [i|]; [|lia]. destruct Hb as (g & Eg & Hb). pose proof (Hgo _ _ Eg) as Hg.
    destruct (block_page a g b Hg (proj2 Ha) Hb) as (_ & ? & ?). destruct Hg. lia. }
  destruct Hr as [Hr H12]. destruct (round_down_page a b Ha Hr) as [-> Ho]. cbv zeta.
  m_step. m_step. { apply negb_true_iff, Z.eqb_neq. destruct Ha as [Ha _]. unfold NULL, PHYS_BASE, LOADER_PHYS_BASE in *. lia. }
  m_step. m_step; [exact E|]. m_step. m_step; [by bool_goal|]. destruct (adesc h) as [i|].
  - destruct Hb as (g & Eg & j & Hj & Hb). m_step. m_step; [exact Eg|]. intros d _ Es Ec. m_step. m_step; [|by m_step].
    apply Z.eqb_eq. rewrite Ho, Es, u32_small by (unfold is_u32, sizeof_arena; lia). destruct (Hgo _ _ Eg).
    replace (b - a - sizeof_arena) with (j * g.1) by (unfold sizeof_arena, block_at in *; lia). apply Z.mod_mul. lia.
  - m_step. m_step; [|by m_step]. apply Z.eqb_eq. rewrite Ho. unfold sizeof_arena. lia.
Qed.
Lemma arena_to_block_spec m a h i g j (Q : Z -> mstate -> Prop) : kpage a -> headers m !! a = Some h -> magic h = ARENA_MAGIC ->
  adesc h = Some i -> geo (descs m) i = Some g -> j < g.2 -> Q (block_at a g j) m -> mwp (arena_to_block a j) m Q.
Proof.
  intros Ha E Hmg Ei Eg Hj HQ. unfold arena_to_block.
  m_step. m_step. { apply negb_true_iff, Z.eqb_neq. destruct Ha as [Ha _]. unfold NULL, PHYS_BASE, LOADER_PHYS_BASE in *. lia. }
  m_step. m_step; [exact E|]. m_step. m_step; [by bool_goal|]. m_step. m_step. rewrite Ei. apply wp_ret. m_step. m_step; [exact Eg|].
  intros d _ Es Ec. m_step. m_step; [apply Z.ltb_lt; lia|]. m_step. by rewrite Es.
Qed.

Section operations.
Context (me DESCS : Z).
Abbreviation free_list := (free_list DESCS).

Lemma rep_list_nodup l x xs : rep l x xs -> NoDup xs.
Proof. intros H%rep_nodup. unfold nodes in H. apply list.NoDup_cons in H as [_ H]. by apply list.NoDup_app in H as (? & _). Qed.

(** ** The loops over the blocks of an arena *)
Section loops.
Context (a : Z) (h : arena) (di : nat) (g : Z * Z) (Ha : kpage a) (Hmg : magic h = ARENA_MAGIC) (Ei : adesc h = Some di) (Hgo : geo_ok g).
Lemma block_at_pos j : 0 <= j -> block_at a g j <> NULL.
Proof. destruct Ha as [H _], Hgo. unfold block_at, NULL, PHYS_BASE, LOADER_PHYS_BASE in *. nia. Qed.
Lemma add_blocks_spec garbage n i m ys (Q : unit -> mstate -> Prop) :
  headers m !! a = Some h -> geo (descs m) di = Some g -> 0 <= i -> i + Z.of_nat n <= g.2 -> rep (links m) (free_list di) ys ->
  (forall j, i <= j < i + Z.of_nat n -> block_at a g j ∉ nodes (free_list di) ys) ->
  (forall l', rep l' (free_list di) (ys ++ (block_at a g <$> seqZ i (Z.of_nat n))) ->
    (forall q, q ∉ nodes (free_list di) ys -> ~ is_block a g q -> l' !! q = links m !! q) ->
    (forall q, is_Some (links m !! q) -> is_Some (l' !! q)) -> Q tt (set_links l' m)) ->
  mwp (add_blocks DESCS garbage di a n i) m Q.
Proof.
  revert i m ys Q. induction n as [|n IH]; intros i m ys Q E Eg Hi Hn Hr Hno HQ; cbn [add_blocks].
  { m_step. destruct m as [k hs l bs ds]. cbn in *. apply (HQ l); [by rewrite app_nil_r|done|done]. }
  m_step. eapply arena_to_block_spec; [done..|lia|]. unfold new_elem. m_step. m_step. m_step. m_step. cbn [links set_links].
  set (b := block_at a g i). assert (Hb : b ∉ nodes (free_list di) ys) by (apply Hno; lia).
  eapply (list_push_back_spec _ _ ys).
  - apply (rep_frame (links m)); [|done]. intros q Hq. apply lookup_insert_ne. congruence.
  - rewrite lookup_insert_eq. by eexists.
  - by apply block_at_pos.
  - done.
  - intros l1 Hr1 Hs1. apply (IH (i + 1) _ (ys ++ [b])); [done|done|lia|lia|done| |].
    + intros j Hj. specialize (Hno j ltac:(lia)). unfold nodes in *. rewrite elem_of_cons, !elem_of_app, !list_elem_of_singleton in *.
      assert (block_at a g j <> b) by (unfold b, block_at; destruct Hgo; nia). tauto.
    + intros l' Hr' Hs' Hm'. apply HQ.
      * cbn in Hr'. rewrite <- app_assoc in Hr'. rewrite seqZ_cons by lia. replace (Z.pred (Z.of_nat (S n))) with (Z.of_nat n) by lia. exact Hr'.
      * intros q Hq Hnb. assert (q <> b) by (intros ->; apply Hnb; exists i; split; [lia|done]).
        rewrite Hs'; [|unfold nodes in *; rewrite elem_of_cons, !elem_of_app, !list_elem_of_singleton in *; tauto|done].
        cbn. rewrite Hs1 by (rewrite elem_of_cons; tauto). by apply lookup_insert_ne.
      * intros q Hq. apply Hm'. cbn. eapply same_but_mapped; [exact Hs1|exact Hr1| |].
        { intros x. unfold nodes. rewrite !elem_of_cons, !elem_of_app, !list_elem_of_singleton. tauto. }
        destruct (decide (q = b)) as [->|]; [rewrite lookup_insert_eq; by eexists|by rewrite lookup_insert_ne].
Qed.
Lemma remove_blocks_spec n i m ys (Q : unit -> mstate -> Prop) :
  headers m !! a = Some h -> geo (descs m) di = Some g -> 0 <= i -> i + Z.of_nat n <= g.2 -> rep (links m) (free_list di) ys ->
  (forall j, i <= j < i + Z.of_nat n -> block_at a g j ∈ ys) ->
  (forall l' ys', rep l' (free_list di) ys' ->
    (forall b, b ∈ ys' <-> b ∈ ys /\ forall j, i <= j < i + Z.of_nat n -> b <> block_at a g j) ->
    (forall q, q ∉ nodes (free_list di) ys -> l' !! q = links m !! q) ->
    (forall q, is_Some (links m !! q) -> is_Some (l' !! q)) -> Q tt (set_links l' m)) ->
  mwp (remove_blocks a n i) m Q.
Proof.
  revert i m ys Q. induction n as [|n IH]; intros i m ys Q E Eg Hi Hn Hr Hin HQ; cbn [remove_blocks].
  { m_step. destruct m as [k hs l bs ds]. cbn in *. apply (HQ l ys); [done| |done|done]. intros b. split; [intros; split; [done|lia]|tauto]. }
  m_step. eapply arena_to_block_spec; [done..|lia|]. m_step. m_step.
  set (b := block_at a g i). assert (Hb : b ∈ ys) by (apply Hin; lia). apply list_elem_of_split in Hb as (xs & zs & ->).
  eapply list_remove_spec; [exact Hr|]. intros l1 Hr1 Hs1.
  pose proof (rep_nodup _ _ _ Hr) as Hnd. unfold nodes in Hnd. apply list.NoDup_cons in Hnd as [_ Hnd]. apply list.NoDup_app in Hnd as (Hnd & _ & _).
  assert (Hmem : forall c, c ∈ xs ++ zs <-> c ∈ xs ++ b :: zs /\ c <> b).
  { intros c. apply list.NoDup_app in Hnd as (_ & H1 & H2). apply list.NoDup_cons in H2 as [H2 _]. specialize (H1 b). rewrite !elem_of_app, elem_of_cons in *.
    split; [intros H; split; [tauto|]; intros ->; tauto|tauto]. }
  apply (IH (i + 1) _ (xs ++ zs)); [done|done|lia|lia|done| |].
  - intros j Hj. apply Hmem. split; [apply Hin; lia|]. unfold b, block_at. destruct Hgo. nia.
  - intros l' ys' Hr' He Hs' Hm'. apply (HQ l' ys').
    + done.
    + intros c. rewrite He, Hmem. split.
      * intros [[? ?] Hj]. split; [done|]. intros j Hj'. destruct (decide (j = i)) as [->|]; [done|]. apply Hj. lia.
      * intros [? Hj]. split; [split; [done|]|]; [apply Hj; lia|]. intros j Hj'. apply Hj. lia.
    + assert (Hsub : forall q, q ∉ nodes (free_list di) (xs ++ b :: zs) -> q ∉ nodes (free_list di) (xs ++ zs)).
      { intros q. unfold nodes. rewrite !elem_of_cons, !elem_of_app, !elem_of_cons. tauto. }
      intros q Hq. rewrite Hs' by auto. cbn. by rewrite Hs1 by auto.
    + intros q Hq. apply Hm'. cbn. eapply same_but_mapped; [exact Hs1|exact Hr1|done|done].
Qed.
End loops.

(** The count of another arena, when only blocks of [a] come and go. *)
Lemma count_same fls m a h i g a' xs ys : minv DESCS fls m -> headers m !! a = Some h -> adesc h = Some i -> geo (descs m) i = Some g ->
  NoDup xs -> NoDup ys -> (forall b, ~ is_block a g b -> b ∈ xs <-> b ∈ ys) ->
  a' <> a -> is_Some (headers m !! a') -> count_in a' g xs = count_in a' g ys.
Proof.
  intros Hm Ea Ei Eg Hx Hy Hxy Hne [h' Ea']. unfold count_in, zlen. f_equal. apply Permutation_length, NoDup_Permutation; [by apply list.NoDup_filter..|].
  intros b. rewrite !list_elem_of_filter, !elem_blocks. split; intros [Hb ?]; (split; [done|]); apply Hxy; try done; intros Hba;
    apply Hne; destruct (mi_magic _ _ _ Hm _ _ Ea') as (_ & Hz' & _); destruct (mi_magic _ _ _ Hm _ _ Ea) as (_ & Hz & _);
    pose proof (mi_geo _ _ _ Hm _ _ Eg) as Hgo; destruct (block_page a g b Hgo Hz Hba) as (<- & _); by destruct (block_page a' g b Hgo Hz' Hb) as (<- & _).
Qed.

(** The descriptors and the contents of the blocks stay. *)
Definition kept (m m' : mstate) : Prop := descs m' = descs m /\ bytes m' = bytes m.

(** ** Taking a block from a free list *)
Lemma take_block_spec fls m i g x xs (Q : Z -> mstate -> Prop) : minv DESCS fls m -> geo (descs m) i = Some g -> fls i = x :: xs ->
  (forall m', minv DESCS (<[i := xs]> fls) m' -> kept m m' ->
    (forall b n, allocated (<[i := xs]> fls) m' b n <-> allocated fls m b n \/ (b = x /\ n = g.1)) -> (forall k, ~ allocated fls m x k) -> Q x m') ->
  mwp (take_block DESCS i) m Q.
Proof.
  intros Hm Eg Ex HQ. pose proof (mi_rep _ _ _ Hm _ _ Eg) as Hr. rewrite Ex in Hr.
  assert (Hx : x ∈ fls i) by (rewrite Ex; by left). destruct (mi_fl _ _ _ Hm _ _ Hx) as (a & h & g' & Ea & Ei & Eg' & Hb).
  assert (g' = g) as -> by congruence. destruct (header_self _ _ _ Hm _ _ Ea) as (_ & Hka & _). destruct (mi_magic _ _ _ Hm _ _ Ea) as (Hmg & Ham & _).
  pose proof (mi_geo _ _ _ Hm _ _ Eg) as Hgo. destruct (mi_small _ _ _ Hm _ _ _ Ea Ei) as (g' & Eg2 & Hc & _). assert (g' = g) as -> by congruence.
  pose proof (rep_list_nodup _ _ _ Hr) as Hnd. pose proof Hnd as Hnd1. apply list.NoDup_cons in Hnd1 as [Hx' Hnd'].
  unfold take_block. m_step. m_step. eapply list_pop_front_spec; [exact Hr|]. intros l' Hr' Hs'.
  m_step. eapply (block_to_arena_spec _ a h); [done|done|done| |apply (mi_geo _ _ _ Hm)|].
  { unfold block_in. rewrite Ei. by exists g. }
  m_step. m_step; [done|]. m_step. m_step. m_step.
  assert (Hcx : count_in a g (x :: xs) = count_in a g xs + 1) by (rewrite count_cons, decide_True; [done|by apply elem_blocks]).
  pose proof (count_le a g _ Hgo Hnd). pose proof (count_le a g xs Hgo Hnd'). rewrite Ex in Hc.
  assert (Em : set_headers (<[a := Arena (magic h) (adesc h) (free_cnt h -u 1)]> (headers (set_links l' m))) (set_links l' m) = changed m i g a h xs l').
  { unfold changed. pose proof (geo_small _ Hgo). rewrite Ei, u32_small by (unfold is_u32; lia). by replace (free_cnt h - 1) with (count_in a g xs) by lia. }
  rewrite Em. assert (Hin : forall b, b ∈ xs -> b ∈ fls i \/ is_block a g b) by (intros b ?; left; rewrite Ex; by right).
  apply HQ; [|done| |].
  3:{ intros k Hk. by apply (allocated_small _ _ _ _ _ _ _ _ _ Hm Ea Ei Eg Hb) in Hk as [? _]. }
  - apply (changed_minv _ _ _ Hm); try done.
    + intros q ? ? _ Hq. apply Hs'. rewrite Ex in Hq. unfold nodes. rewrite elem_of_cons, elem_of_app, list_elem_of_singleton in *. tauto.
    + intros q. eapply same_but_mapped; done.
    + intros a' Hne Ha'. eapply count_same; [exact Hm|exact Ea|exact Ei|exact Eg|done|by rewrite Ex| |done|done].
      intros b Hnb. rewrite Ex, elem_of_cons. split; [tauto|]. intros [->|?]; done.
  - intros b n. change (<[i:=xs]> fls) with (changed_fls fls i xs). rewrite (changed_allocated _ _ _ Hm); try done.
    + split.
      * intros [[? _]|(Hbb & Hf & ->)]; [by left|]. destruct (decide (b = x)) as [->|Hne]; [by right|]. left.
        apply (allocated_small _ _ _ _ _ _ _ _ _ Hm Ea Ei Eg Hbb). rewrite Ex, elem_of_cons. tauto.
      * intros [H1|[-> ->]]; [|right; done]. destruct (is_block_dec a g b Hgo) as [Hbb|]; [right|by left].
        split; [done|]. apply (allocated_small _ _ _ _ _ _ _ _ _ Hm Ea Ei Eg Hbb) in H1. rewrite Ex, elem_of_cons in H1. tauto.
    + rewrite Ex. intros b' [->|?]%elem_of_cons; [by right|by left].
Qed.

(** ** A new arena *)
Definition give_links (garbage : list_elem) (bs : list Z) (l : heap) : heap := foldr (fun b l => <[b := garbage]> l) l bs.
Lemma give_links_in garbage bs l b : b ∈ bs -> give_links garbage bs l !! b = Some garbage.
Proof.
  induction bs as [|c bs IH]; [by intros ?%not_elem_of_nil|]. intros [->|Hb]%elem_of_cons; cbn; [by rewrite lookup_insert_eq|].
  destruct (decide (b = c)) as [->|]; [by rewrite lookup_insert_eq|]. rewrite lookup_insert_ne by done. by apply IH.
Qed.
Lemma give_links_out garbage bs l b : b ∉ bs -> give_links garbage bs l !! b = l !! b.
Proof.
  induction bs as [|c bs IH]; [done|]. rewrite elem_of_cons. intros Hb. cbn. rewrite lookup_insert_ne by naive_solver. apply IH. tauto.
Qed.
Lemma kpage_not_null a : kpage a -> a <> NULL.
Proof. intros [H _]. unfold NULL, PHYS_BASE, LOADER_PHYS_BASE in *. lia. Qed.

Section born.
Context (fls : nat -> list Z) (m : mstate) (i : nat) (g : Z * Z) (a : Z) (k' : kmem) (l' : heap).
Context (Hm : minv DESCS fls m) (Eg : geo (descs m) i = Some g) (Ef : fls i = []) (Hg : got (km m) false false 1 a k').
Lemma born_block b : is_block a g b -> a <= b < a + 4096 * 1 /\ base (kernel_pool (km m)) <= b.
Proof.
  intros Hb. destruct (got_page _ _ _ _ _ _ Hg) as [_ Ha]. pose proof (mi_geo _ _ _ Hm _ _ Eg) as Hgo.
  destruct (block_page a g b Hgo Ha Hb) as (_ & ? & ?). destruct Hgo.
  assert (base (kernel_pool (km m)) <= a) by (apply (got_free _ _ _ _ _ _ Hg); split; [lia|done]). lia.
Qed.
Lemma born_not_head j : 0 <= j < g.2 -> block_at a g j ∉ nodes (free_list i) [].
Proof.
  intros Hj. intros Hc. unfold nodes in Hc. rewrite elem_of_cons, elem_of_app, list_elem_of_singleton, elem_of_nil in Hc. assert (Hc2 : block_at a g j = free_list i \/ block_at a g j = free_list i + 8) by tauto. clear Hc. rename Hc2 into Hc.
  pose proof (head_below _ _ _ Hm i g _ Eg Hc). pose proof (born_block (block_at a g j) ltac:(by exists j)). lia.
Qed.
Context (Hr' : rep l' (free_list i) (blocks a g)).
Context (Hs' : forall q, q ∉ nodes (free_list i) [] -> ~ is_block a g q -> l' !! q = links m !! q).
Context (Hm' : forall q, is_Some (links m !! q) -> is_Some (l' !! q)).
Definition born : mstate := MState k' (<[a := Arena ARENA_MAGIC (Some i) g.2]> (headers m)) l' (bytes m) (descs m).
(** The arena with nothing in the list yet, and the memory of its blocks made list elements. *)
Let h0 := Arena ARENA_MAGIC (Some i) 0.
Let l1 := give_links (ListElem 0 0) (blocks a g) (links m).
Let mf := fresh m a k' h0 l1.
Lemma born_links q : is_Some (links m !! q) -> is_Some (l1 !! q).
Proof. intros Hq. unfold l1. destruct (decide (q ∈ blocks a g)); [rewrite give_links_in by done; by eexists|by rewrite give_links_out]. Qed.
Lemma born_links_out q : ~ (a <= q < a + 4096 * 1) -> l1 !! q = links m !! q.
Proof. intros Hq. apply give_links_out. rewrite elem_blocks. intros Hb%born_block. lia. Qed.
Lemma born_small i' : adesc h0 = Some i' -> exists g, geo (descs m) i' = Some g /\ free_cnt h0 = 0 /\ forall b, is_block a g b -> is_Some (l1 !! b).
Proof.
  intros [= <-]. exists g. split; [done|]. split; [done|]. intros b Hb. unfold l1. rewrite give_links_in by (by apply elem_blocks). by eexists.
Qed.
Lemma born_fresh : minv DESCS fls mf.
Proof. exact (fresh_minv _ _ _ Hm a 1 k' h0 l1 Hg ltac:(lia) eq_refl eq_refl born_small born_links born_links_out). Qed.
Lemma born_changed : born = changed mf i g a h0 (blocks a g) l'.
Proof.
  pose proof (mi_geo _ _ _ Hm _ _ Eg) as Hgo. unfold born, changed, mf, fresh, set_headers, set_links. cbn.
  rewrite insert_insert_eq, count_all; [done|done|by apply blocks_nodup|done].
Qed.
Lemma born_header : headers mf !! a = Some h0.
Proof. apply lookup_insert_eq. Qed.
Lemma born_minv : minv DESCS (<[i := blocks a g]> fls) born.
Proof.
  pose proof (mi_geo _ _ _ Hm _ _ Eg) as Hgo. rewrite born_changed.
  apply (changed_minv _ _ _ born_fresh); [exact Eg|exact born_header|done|exact Hr'| | | |].
  - intros q H1 H2 Hnb _. rewrite Hs'; [|unfold nodes; rewrite elem_of_cons, elem_of_app, list_elem_of_singleton, elem_of_nil; tauto|done].
    cbn. unfold l1. by rewrite give_links_out by (by rewrite elem_blocks).
  - intros q Hq. destruct (decide (q ∈ blocks a g)) as [Hb|Hb].
    + eapply chain_mapped; [apply (rep_chain _ _ _ Hr')|]. unfold nodes. rewrite elem_of_cons, elem_of_app. tauto.
    + apply Hm'. cbn in Hq. unfold l1 in Hq. by rewrite give_links_out in Hq.
  - intros b Hb%elem_blocks. by right.
  - intros a' Hne Ha'. eapply (count_same _ _ a); [exact born_fresh|exact born_header|done|exact Eg|by apply blocks_nodup|rewrite Ef; by apply list.NoDup_nil| |done|done].
    intros b Hnb. rewrite Ef, elem_blocks, elem_of_nil. tauto.
Qed.
Lemma born_allocated b n : allocated (<[i := blocks a g]> fls) born b n <-> allocated fls m b n.
Proof.
  rewrite born_changed. change (<[i:=blocks a g]> fls) with (changed_fls fls i (blocks a g)).
  rewrite (changed_allocated _ _ _ born_fresh i g a h0); [|done|exact born_header|done|intros ? ?%elem_blocks; by right|rewrite Ef; by intros ? ?%not_elem_of_nil].
  unfold mf. rewrite (fresh_allocated _ _ _ Hm a 1 k' h0 l1 Hg ltac:(lia) eq_refl born_small). cbn [adesc h0]. rewrite elem_blocks. split.
  - intros [[[?|(g1 & ? & ? & _)] Hn]|(? & ? & _)]; [done|exfalso; apply Hn; congruence|done].
  - intros H1. left. split; [by left|]. intros Hb. destruct (allocated_where _ _ _ _ _ Hm H1) as (a1 & h1 & E1 & ? & ? & Hp & ? & _).
    destruct (block_page a g b (mi_geo _ _ _ Hm _ _ Eg) (proj2 (got_page _ _ _ _ _ _ Hg)) Hb) as (Hp' & _).
    apply (fresh_not _ _ _ Hm a 1 k' Hg a1 h1 E1). split; [lia|]. destruct (mi_magic _ _ _ Hm _ _ E1) as (_ & ? & _). done.
Qed.
End born.
Lemma new_arena_spec garbage fls m i g (Q : bool -> mstate -> Prop) : minv DESCS fls m -> geo (descs m) i = Some g -> fls i = [] ->
  ((forall a, ~ free_run (kernel_pool (km m)) 1 a) -> Q false m) ->
  (forall a m', minv DESCS (<[i := blocks a g]> fls) m' -> kept m m' ->
    (forall b n, allocated (<[i := blocks a g]> fls) m' b n <-> allocated fls m b n) -> Q true m') ->
  mwp (new_arena me DESCS garbage i) m Q.
Proof.
  intros Hm Eg Ef HQ0 HQ. pose proof (mi_geo _ _ _ Hm _ _ Eg) as Hgo. pose proof (geo_small _ Hgo) as Hsm. unfold new_arena, palloc_get_page. m_step. m_step.
  apply palloc_get_multiple_spec; [apply (mi_km _ _ _ Hm)|lia| |].
  { intros Hno. split; [done|]. change (Palloc.NULL =? Palloc.NULL) with true. apply mwp_ret. destruct m. by apply HQ0. }
  intros a k' Hg. change (flag 0 PAL_USER) with false in Hg. change (flag 0 PAL_ZERO) with false in Hg.
  pose proof (got_page _ _ _ _ _ _ Hg) as Hka. rewrite (proj2 (Z.eqb_neq a Palloc.NULL) (kpage_not_null a Hka)).
  m_step. m_step; [exact Eg|]. intros d _ _ Ec. m_step. m_step. m_step. rewrite Ec.
  eapply (add_blocks_spec a (Arena ARENA_MAGIC (Some i) g.2) i g Hka eq_refl eq_refl Hgo _ _ _ _ []); [by apply lookup_insert_eq|done|lia|lia| | |].
  { cbn. rewrite <- Ef. by eapply (mi_rep _ _ _ Hm). }
  { intros j Hj. eapply born_not_head; [exact Hm|exact Eg|exact Hg|lia]. }
  rewrite Z2Nat.id by lia. fold (blocks a g). cbn [app]. intros l' Hr' Hs' Hm'. m_step.
  apply (HQ a); [|done|]; change (set_links l' _) with (born m i g a k' l').
  - by apply born_minv.
  - by apply born_allocated.
Qed.

(** ** Blocks of whole pages *)
Lemma big_pages size : 0 < size -> size < 2 ^ 32 - 4108 ->
  DIV_ROUND_UP (size +u sizeof_arena) PGSIZE = (size + 4107) / 4096 /\ size <= 4096 * ((size + 4107) / 4096) - 12.
Proof.
  intros Hs Ht. unfold DIV_ROUND_UP, sizeof_arena. change PGSIZE with 4096. rewrite (u32_small (size + 12)) by (unfold is_u32; lia).
  rewrite (u32_small (size + 12 + 4096)) by (unfold is_u32; lia). rewrite u32_small by (unfold is_u32; lia).
  replace (size + 12 + 4096 - 1) with (size + 4107) by lia. split; [done|]. clear Ht. dlia.
Qed.
Lemma big_block_spec fls m size (Q : Z -> mstate -> Prop) : minv DESCS fls m -> 0 < size -> size < 2 ^ 32 - 4108 ->
  ((forall a, ~ free_run (kernel_pool (km m)) ((size + 4107) / 4096) a) -> Q NULL m) ->
  (forall b n m', b <> NULL -> size <= n -> minv DESCS fls m' -> kept m m' ->
    (forall c k, allocated fls m' c k <-> allocated fls m c k \/ (c = b /\ k = n)) -> (forall k, ~ allocated fls m b k) -> Q b m') ->
  mwp (big_block me size) m Q.
Proof.
  intros Hm Hs Ht HQ0 HQ. destruct (big_pages size Hs Ht) as [En Hn]. unfold big_block. rewrite En. set (n := (size + 4107) / 4096) in *.
  cbv zeta. m_step. m_step. apply palloc_get_multiple_spec; [apply (mi_km _ _ _ Hm)|lia| |].
  { intros Hno. split; [done|]. change (Palloc.NULL =? NULL) with true. apply mwp_ret. destruct m. by apply HQ0. }
  intros a k' Hg. change (flag 0 PAL_USER) with false in Hg. change (flag 0 PAL_ZERO) with false in Hg.
  pose proof (got_page _ _ _ _ _ _ Hg) as Hka. rewrite (proj2 (Z.eqb_neq a NULL) (kpage_not_null a Hka)).
  m_step. m_step. m_step. change (set_headers _ _) with (fresh m a k' (Arena ARENA_MAGIC None n) (links m)).
  apply (HQ _ (4096 * n - 12)); [|lia| |done| |].
  - destruct Hka as [? _]. unfold NULL, sizeof_arena, PHYS_BASE, LOADER_PHYS_BASE in *. lia.
  - by apply (fresh_minv _ _ _ Hm a n); try done; lia.
  - intros c k. by rewrite (fresh_allocated _ _ _ Hm a n k' _ _ Hg); try done; lia.
  - intros k Hk. destruct (allocated_where _ _ _ _ _ Hm Hk) as (a1 & h1 & E1 & ? & ? & Hp & _).
    destruct (mi_magic _ _ _ Hm _ _ E1) as (_ & Hz & _). apply (fresh_not _ _ _ Hm a n k' Hg a1 h1 E1).
    unfold page_of, sizeof_arena in *. destruct Hka as [_ Ham]. split; [dlia|done].
Qed.

(** ** The locks *)
Definition locked (ds : list desc) (i : nat) : list desc := alter (fun d => Desc (block_size_of d) (blocks_per_arena d) (Some me)) i ds.
Lemma geo_locked ds i j : geo (locked ds i) j = geo ds j.
Proof.
  unfold geo, locked. destruct (decide (i = j)) as [->|Hne]; [|by rewrite list_lookup_alter_ne].
  rewrite list_lookup_alter_eq. by destruct (ds !! j).
Qed.
Lemma desc_acquire_spec m i g (Q : unit -> mstate -> Prop) : unlocked m -> geo (descs m) i = Some g ->
  Q tt (set_descs (locked (descs m) i) m) -> mwp (desc_acquire me i) m Q.
Proof.
  intros Hu Eg HQ. unfold desc_acquire. m_step. m_step; [exact Eg|]. intros d Ed _ _. m_step. m_step.
  apply wp_lock_acquire; [by eapply Hu|]. unfold set_desc_lock. by m_step.
Qed.
Lemma desc_release_spec m m0 i g (Q : unit -> mstate -> Prop) : unlocked m0 -> geo (descs m0) i = Some g -> descs m = locked (descs m0) i ->
  Q tt (set_descs (descs m0) m) -> mwp (desc_release me i) m Q.
Proof.
  intros Hu Eg Ed HQ. unfold desc_release. m_step. m_step; [by rewrite Ed, geo_locked|]. intros d Ed' _ _. m_step. m_step.
  unfold geo in Eg. apply fmap_Some in Eg as (d0 & E0 & _). pose proof (Hu _ _ E0) as Hu0.
  rewrite Ed in Ed'. unfold locked in Ed'. rewrite list_lookup_alter_eq, E0 in Ed'. injection Ed' as <-.
  apply wp_lock_release; [done|]. unfold set_desc_lock. m_step. rewrite Ed. unfold locked.
  replace (alter _ _ (alter _ _ _)) with (descs m0); [done|]. apply list_eq. intros j. destruct (decide (i = j)) as [<-|Hne].
  - rewrite !list_lookup_alter_eq, E0. cbn. destruct d0; cbn in *. by subst.
  - by rewrite !list_lookup_alter_ne.
Qed.

(** ** malloc *)
Lemma malloc_spec garbage fls m size (Q : Z -> mstate -> Prop) : minv DESCS fls m -> unlocked m -> 0 < size -> size < 2 ^ 32 - 4108 ->
  ((forall a, ~ free_run (kernel_pool (km m)) ((size + 4107) / 4096) a) -> Q NULL m) ->
  (forall b n fls' m', b <> NULL -> size <= n -> minv DESCS fls' m' -> kept m m' ->
    (forall c k, allocated fls' m' c k <-> allocated fls m c k \/ (c = b /\ k = n)) -> (forall k, ~ allocated fls m b k) -> Q b m') ->
  mwp (malloc me DESCS garbage size) m Q.
Proof.
  intros Hm Hu Hs Ht HQ0 HQ. unfold malloc. rewrite (proj2 (Z.eqb_neq size 0)) by lia. m_step. m_step. unfold find_desc.
  destruct (list_find _ (descs m)) as [[i d]|] eqn:Ef; cbn [fmap option_fmap option_map fst].
  2:{ apply (big_block_spec fls); [done|done|done|done|]. intros b n m' ??????. by eapply HQ. }
  apply list_find_Some in Ef as (Ed & Hd & _). set (g := (block_size_of d, blocks_per_arena d)).
  assert (Eg : geo (descs m) i = Some g) by (unfold geo; by rewrite Ed).
  m_step. eapply desc_acquire_spec; [done|exact Eg|]. set (m1 := set_descs (locked (descs m) i) m).
  assert (Hm1 : minv DESCS fls m1) by (apply minv_descs; [done|apply geo_locked|apply length_alter]).
  assert (Eg1 : geo (descs m1) i = Some g) by (unfold m1; cbn; by rewrite geo_locked).
  m_step. m_step. eapply list_empty_spec; [by eapply (mi_rep _ _ _ Hm1)|]. m_step.
  assert (Htake : forall fls2 m2 x xs, minv DESCS fls2 m2 -> kept m1 m2 -> fls2 i = x :: xs ->
    (forall c k, allocated fls2 m2 c k <-> allocated fls m c k) ->
    mwp (take_block DESCS i) m2 (fun b m' => mwp (_ ← desc_release me i; mret b) m' Q)).
  { intros fls2 m2 x xs Hm2 [Ed2 Eb2] Ex Hall. eapply take_block_spec; [exact Hm2|by rewrite Ed2|exact Ex|]. intros m3 Hm3 [Ed3 Eb3] Hall3 Hnot.
    m_step. eapply (desc_release_spec _ m); [done|exact Eg|by rewrite Ed3, Ed2|]. m_step.
    assert (Hg3 : forall j, geo (descs m) j = geo (descs m3) j) by (intros j; rewrite Ed3, Ed2; symmetry; apply geo_locked).
    eapply (HQ _ g.1 (<[i:=xs]> fls2)); [|done| | | |].
    - intros ->. assert (H0 : NULL ∈ fls2 i) by (rewrite Ex; by left). apply (free_block_above _ _ _ Hm2) in H0.
      pose proof (pw_base _ (kw_pool _ (mi_km _ _ _ Hm2) false)) as [H _]. unfold NULL, PHYS_BASE, LOADER_PHYS_BASE in *. cbn in H. lia.
    - apply minv_descs; [done|done|]. rewrite Ed3, Ed2. symmetry. apply length_alter.
    - split; [done|]. cbn. by rewrite Eb3, Eb2.
    - intros c k. rewrite allocated_descs, Hall3, Hall by done. done.
    - intros k Hk. apply (Hnot k). by apply Hall. }
  assert (Hall1 : forall c k, allocated fls m1 c k <-> allocated fls m c k) by (intros; apply allocated_descs, geo_locked).
  destruct (fls i) as [|x xs] eqn:Ex.
  - rewrite bool_decide_eq_true_2 by done. eapply (new_arena_spec _ fls); [done|exact Eg1|done| |].
    + intros Hno. m_step. m_step. m_step. eapply (desc_release_spec _ m); [done|exact Eg|done|]. m_step. unfold m1.
      assert (g.1 <= 4084) by (destruct (mi_geo _ _ _ Hm _ _ Eg) as (? & ? & ?); nia). assert (Hd' : size <= g.1) by done.
      assert (Epg : (size + 4107) / 4096 = 1) by (clear Ht; dlia).
      rewrite Epg in HQ0. destruct m. by apply HQ0.
    + intros a m2 Hm2 Ed2 Hall2. m_step. destruct (blocks a g) as [|b bs] eqn:Eb.
      { assert (Hl : Z.to_nat g.2 = 0%nat) by (by rewrite <- (blocks_length a g), Eb). pose proof (mi_geo _ _ _ Hm _ _ Eg) as [_ [? _]]. lia. }
      eapply Htake; [exact Hm2|done|by rewrite fn_lookup_insert|]. intros c k. by rewrite Hall2.
  - rewrite bool_decide_eq_false_2 by done. m_step. m_step. eapply Htake; [exact Hm1|done|exact Ex|done].
Qed.

(** ** free *)
Definition filled (m : gmap Z Z) (dst n v : Z) (m' : gmap Z Z) : Prop :=
  forall q, m' !! q = if decide (dst <= q < dst + n) then Some (u8 v) else m !! q.
Lemma filled_mapped m dst n v m' p k : filled m dst n v m' -> mapped m p k -> mapped m' p k.
Proof.
  intros Hf H q Hq. rewrite Hf. case_decide; [|by apply H]. eexists. split; [done|]. apply Z.mod_pos_bound. lia.
Qed.
Lemma set_loop_spec n dst v m (Q : unit -> gmap Z Z -> Prop) : mapped m dst (Z.of_nat n) ->
  (forall m', filled m dst (Z.of_nat n) v m' -> Q tt m') -> mwp (set_loop n dst v) m Q.
Proof.
  revert dst m. induction n as [|n IH]; intros dst m Hmp HQ; cbn [set_loop].
  { m_step. apply HQ. intros q. by rewrite decide_False by lia. }
  destruct (Hmp dst ltac:(lia)) as (x & E & _). m_step. eapply mstore_spec; [by eexists|].
  apply IH.
  - apply mapped_insert; [|apply Z.mod_pos_bound; lia]. eapply mapped_le; [exact Hmp|lia..].
  - intros m' Hf. apply HQ. intros q. rewrite Hf. destruct (decide (q = dst)) as [->|Hne].
    + rewrite decide_False by lia. rewrite lookup_insert_eq, decide_True; [done|lia].
    + rewrite lookup_insert_ne by done. apply decide_ext. lia.
Qed.
Lemma memset_spec dst v n m (Q : Z -> gmap Z Z -> Prop) : dst <> CString.NULL -> 0 <= n -> mapped m dst n ->
  (forall m', filled m dst n v m' -> Q dst m') -> mwp (memset dst v n) m Q.
Proof.
  intros Hd Hn Hmp HQ. unfold memset. m_step. unfold non_null. m_step; [by rewrite (proj2 (Z.eqb_neq _ _) Hd)|].
  m_step. apply set_loop_spec; rewrite Z2Nat.id by lia; [done|]. intros m' Hf. m_step. by apply HQ.
Qed.

(** A block goes back to its list. *)
Section given_back.
Context (fls : nat -> list Z) (m : mstate) (a : Z) (h : arena) (i : nat) (g : Z * Z) (b : Z) (l' : heap).
Context (Hm : minv DESCS fls m) (Ea : headers m !! a = Some h) (Ei : adesc h = Some i) (Eg : geo (descs m) i = Some g).
Context (Hb : is_block a g b) (Hf : b ∉ fls i) (Hr' : rep l' (free_list i) (b :: fls i)).
Context (Hs' : same_but (links m) (b :: nodes (free_list i) (fls i)) l').
Lemma back_nodup : NoDup (fls i) /\ NoDup (b :: fls i).
Proof. split; [by eapply rep_list_nodup, (mi_rep _ _ _ Hm _ _ Eg)|by eapply rep_list_nodup]. Qed.
Lemma back_count : free_cnt h +u 1 = count_in a g (b :: fls i) /\ count_in a g (b :: fls i) <= g.2.
Proof.
  destruct (mi_small _ _ _ Hm _ _ _ Ea Ei) as (g' & Eg' & Hc & _). assert (g' = g) as -> by congruence.
  pose proof (mi_geo _ _ _ Hm _ _ Eg) as Hgo. destruct back_nodup as [Hn Hn']. pose proof (geo_small _ Hgo).
  pose proof (count_le a g _ Hgo Hn'). pose proof (count_le a g _ Hgo Hn). split; [|lia].
  rewrite count_cons, decide_True in * by (by apply elem_blocks). rewrite Hc. apply u32_small. unfold is_u32. lia.
Qed.
Let m' := changed m i g a h (b :: fls i) l'.
Lemma back_minv : minv DESCS (<[i := b :: fls i]> fls) m'.
Proof.
  destruct back_nodup as [Hn Hn']. apply (changed_minv _ _ _ Hm); try done.
  - intros q H1 H2 Hnb Hq. apply Hs'. unfold nodes. rewrite !elem_of_cons, elem_of_app, list_elem_of_singleton.
    intros [->|[?|[?|?]]]; done.
  - intros q. eapply same_but_mapped; [exact Hs'|exact Hr'|]. intros x. unfold nodes.
    rewrite !elem_of_cons, !elem_of_app, !elem_of_cons. tauto.
  - intros c [->|?]%elem_of_cons; [by right|by left].
  - intros a' Hne Ha'. eapply count_same; [exact Hm|exact Ea|exact Ei|exact Eg|done|done| |done|done].
    intros c Hnc. rewrite elem_of_cons. split; [|tauto]. intros [->|?]; done.
Qed.
Lemma back_allocated c k : allocated (<[i := b :: fls i]> fls) m' c k <-> allocated fls m c k /\ c <> b.
Proof.
  change (<[i := b :: fls i]> fls) with (changed_fls fls i (b :: fls i)). unfold m'.
  rewrite (changed_allocated _ _ _ Hm); [|done|done|done|intros ? [->|?]%elem_of_cons; [by right|by left]|intros ? ?; left; by right].
  rewrite elem_of_cons. split.
  - intros [[H Hn]|(Hc & Hn & ->)]; [split; [done|congruence]|]. split; [|tauto].
    apply (allocated_small _ _ _ _ _ _ _ _ _ Hm Ea Ei Eg Hc). tauto.
  - intros [H Hn]. destruct (is_block_dec a g c (mi_geo _ _ _ Hm _ _ Eg)) as [Hc|]; [right|by left].
    apply (allocated_small _ _ _ _ _ _ _ _ _ Hm Ea Ei Eg Hc) in H. tauto.
Qed.
End given_back.

(** An arena all of whose blocks are free goes back to the page allocator. *)
Section emptied.
Context (fls : nat -> list Z) (m : mstate) (a : Z) (h : arena) (i : nat) (g : Z * Z) (l' : heap) (ys' : list Z) (k' : kmem).
Context (Hm : minv DESCS fls m) (Ea : headers m !! a = Some h) (Ei : adesc h = Some i) (Eg : geo (descs m) i = Some g).
Context (Hfull : free_cnt h = g.2) (Hr' : rep l' (free_list i) ys').
Context (Hys : forall b, b ∈ ys' <-> b ∈ fls i /\ forall j, 0 <= j < g.2 -> b <> block_at a g j).
Context (Hs' : forall q, q ∉ nodes (free_list i) (fls i) -> l' !! q = links m !! q).
Context (Hm' : forall q, is_Some (links m !! q) -> is_Some (l' !! q)) (Hk' : freed (km m) 1 a k').
Lemma all_free b : is_block a g b -> b ∈ fls i.
Proof.
  intros Hb. destruct (mi_small _ _ _ Hm _ _ _ Ea Ei) as (g' & Eg' & Hc & _). assert (g' = g) as -> by congruence.
  apply (count_full a g); [by eapply mi_geo|by eapply rep_list_nodup, (mi_rep _ _ _ Hm _ _ Eg)|congruence|by apply elem_blocks].
Qed.
Lemma emptied_list b : b ∈ ys' <-> b ∈ fls i /\ ~ is_block a g b.
Proof. rewrite Hys. split; intros [? H]; (split; [done|]); [intros (j & ? & ->); by apply (H j)|intros j ? ->; apply H; by exists j]. Qed.
Let mc := changed m i g a h ys' l'.
Definition emptied : mstate := MState k' (delete a (headers m)) l' (bytes m) (descs m).
Lemma emptied_dropped : emptied = dropped mc a k'.
Proof. unfold emptied, dropped, mc, changed. cbn. by rewrite delete_insert_eq. Qed.
Lemma emptied_changed : minv DESCS (<[i := ys']> fls) mc.
Proof.
  apply (changed_minv _ _ _ Hm); try done.
  - intros q H1 H2 _ Hq. apply Hs'. unfold nodes. rewrite elem_of_cons, elem_of_app, list_elem_of_singleton. tauto.
  - intros c Hc. left. by apply Hys.
  - intros a' Hne Ha'. eapply count_same; [exact Hm|exact Ea|exact Ei|exact Eg|by eapply rep_list_nodup|by eapply rep_list_nodup, (mi_rep _ _ _ Hm _ _ Eg)| |done|done].
    intros c Hnc. rewrite emptied_list. tauto.
Qed.
Lemma emptied_header : headers mc !! a = Some (Arena (magic h) (Some i) (count_in a g ys')).
Proof. apply lookup_insert_eq. Qed.
Lemma emptied_minv : minv DESCS (<[i := ys']> fls) emptied.
Proof.
  rewrite emptied_dropped. eapply (dropped_minv _ _ _ emptied_changed); [exact emptied_header|exact Hk'|].
  intros i' g' b [= <-] Eg' Hb. assert (g' = g) as -> by (cbn in Eg'; congruence). rewrite fn_lookup_insert. by intros [_ ?]%emptied_list.
Qed.
Lemma emptied_allocated c k : allocated (<[i := ys']> fls) emptied c k <-> allocated fls m c k.
Proof.
  rewrite emptied_dropped. rewrite (dropped_allocated _ _ _ emptied_changed). change (<[i := ys']> fls) with (changed_fls fls i ys'). unfold mc.
  rewrite (changed_allocated _ _ _ Hm); [|done|done|done|intros ? [? _]%emptied_list; by left|].
  2:{ intros c' Hc'. destruct (is_block_dec a g c' (mi_geo _ _ _ Hm _ _ Eg)); [by right|left]. by apply emptied_list. }
  pose proof (mi_geo _ _ _ Hm _ _ Eg) as Hgo. destruct (mi_magic _ _ _ Hm _ _ Ea) as (_ & Ham & _). split.
  - intros [[[? _]|(Hc & _ & _)] Hp]; [done|]. by destruct (block_page a g c Hgo Ham Hc).
  - intros H. assert (Hno : page_of c <> a).
    { intros Hp. destruct (allocated_where _ _ _ _ _ Hm H) as (a1 & h1 & E1 & _ & _ & Hp1 & _ & H1). assert (a1 = a) as -> by congruence.
      assert (h1 = h) as -> by congruence. rewrite Ei in H1. destruct H1 as (g1 & Eg1 & Hc & Hf & _). assert (g1 = g) as -> by congruence.
      by apply Hf, all_free. }
    split; [|done]. left. split; [done|]. intros Hc. by destruct (block_page a g c Hgo Ham Hc).
Qed.
End emptied.

Lemma arena_top fls m a h : minv DESCS fls m -> headers m !! a = Some h ->
  a + 4096 * span h <= base (kernel_pool (km m)) + 4096 * bit_cnt (used_map (kernel_pool (km m))) <= 2 ^ 32.
Proof.
  intros Hm Ea. destruct (mi_magic _ _ _ Hm _ _ Ea) as (_ & Ham & Hsp & Hq).
  split; [|apply (pw_top _ (kw_pool _ (mi_km _ _ _ Hm) false))].
  destruct (Hq (a + 4096 * (span h - 1))) as [[[_ Htop] _] _]; [split; [lia|dlia]|].
  pose proof (pw_base _ (kw_pool _ (mi_km _ _ _ Hm) false)) as [_ Hbm]. cbn [pool_of] in Hbm. dlia.
Qed.
Lemma block_kernel fls m b n : minv DESCS fls m -> allocated fls m b n -> 0 < b /\ mapped (bytes m) b n.
Proof.
  intros Hm H. destruct (allocated_where _ _ _ _ _ Hm H) as (a & h & Ea & Ha & Hb & _). destruct (header_self _ _ _ Hm _ _ Ea) as (_ & [Hk _] & Hlow).
  pose proof (arena_top _ _ _ _ Hm Ea) as [Ht _]. unfold PHYS_BASE, LOADER_PHYS_BASE in *. split; [lia|].
  intros q Hqr. apply (mi_bytes _ _ _ Hm). lia.
Qed.
(** The block in its list, and the arena given back when it was the last one in use. *)
Lemma give_back_spec fls m a h i g d b (rest : AM unit) (Q : unit -> mstate -> Prop) : minv DESCS fls m -> headers m !! a = Some h -> adesc h = Some i ->
  geo (descs m) i = Some g -> blocks_per_arena d = g.2 -> is_block a g b -> b ∉ fls i ->
  (forall fls' m', minv DESCS fls' m' -> kept m m' -> (forall c k, allocated fls' m' c k <-> allocated fls m c k /\ c <> b) -> mwp rest m' Q) ->
  mwp (_ ← in_links (list_push_front (free_list i) b);
       let cnt := free_cnt h +u 1 in
       _ ← set_header a (Arena (magic h) (Some i) cnt);
       _ ← (if blocks_per_arena d <=? cnt then
              _ ← assert (cnt =? blocks_per_arena d);
              _ ← remove_blocks a (Z.to_nat (blocks_per_arena d)) 0;
              _ ← modify (fun m => set_headers (delete a (headers m)) m);
              in_km (palloc_free_page a)
            else mret tt);
       rest) m Q.
Proof.
  intros Hm Ea Ei Eg Ec Hb Hf HQ. pose proof (mi_geo _ _ _ Hm _ _ Eg) as Hgo. pose proof (geo_small _ Hgo) as Hsm.
  destruct (header_self _ _ _ Hm _ _ Ea) as (_ & Hka & Hlow). destruct (mi_magic _ _ _ Hm _ _ Ea) as (Hmg & Ham & _ & Hpg).
  destruct (block_arena _ _ _ Hm _ _ _ _ _ Ea Ei Eg Hb) as (_ & Hab & _).
  m_step. m_step. eapply (list_push_front_spec _ _ (fls i)); [by eapply (mi_rep _ _ _ Hm)| | | |].
  { destruct (mi_small _ _ _ Hm _ _ _ Ea Ei) as (g' & Eg' & _ & Hl). apply Hl. congruence. }
  { destruct Hka as [? _]. unfold KList.NULL, PHYS_BASE, LOADER_PHYS_BASE in *. lia. }
  { unfold nodes. rewrite elem_of_cons, elem_of_app, list_elem_of_singleton. pose proof (head_below _ _ _ Hm i g b Eg). intuition lia. }
  intros l' Hr' Hs'. cbv zeta. m_step. m_step. destruct (back_count fls m a h i g b l' Hm Ea Ei Eg Hb Hr') as [Hcnt Hle].
  rewrite Hcnt, Ec. pose proof (back_minv fls m a h i g b l' Hm Ea Ei Eg Hb Hr' Hs') as Hm2.
  pose proof (back_allocated fls m a h i g b l' Hm Ea Ei Eg Hb) as Hall2.
  change (set_headers _ (set_links l' m)) with (changed m i g a h (b :: fls i) l'). set (m2 := changed _ _ _ _ _ _ _) in *.
  m_step. destruct (Z.leb_spec g.2 (count_in a g (b :: fls i))) as [Hge|_].
  2:{ m_step. by apply (HQ _ m2 Hm2). }
  assert (Ef2 : (<[i := b :: fls i]> fls) i = b :: fls i) by apply fn_lookup_insert.
  assert (Ea2 : headers m2 !! a = Some (Arena (magic h) (Some i) (count_in a g (b :: fls i)))) by apply lookup_insert_eq.
  m_step. m_step; [apply Z.eqb_eq; lia|]. m_step.
  eapply (remove_blocks_spec a (Arena (magic h) (Some i) (count_in a g (b :: fls i))) i g); [done|exact Hmg|done|done|exact Ea2|done|lia|lia|exact Hr'| |].
  { intros j Hj. rewrite <- Ef2. eapply (all_free _ m2 a); [exact Hm2|exact Ea2|done|exact Eg|cbn; lia|exists j; split; [lia|done]]. }
  rewrite Z2Nat.id by lia. intros l2 ys' Hr2 Hys Hs2 Hm2'. m_step. m_step. m_step.
  apply (palloc_free_multiple_spec false); [apply (mi_km _ _ _ Hm)|lia| |done|].
  { intros q Hq. apply (mi_magic _ _ _ Hm2 _ _ Ea2). exact Hq. }
  intros k' Hk'. change (set_km k' _) with (MState k' (delete a (headers m2)) l2 (bytes m2) (descs m2)).
  assert (Hfull : free_cnt (Arena (magic h) (Some i) (count_in a g (b :: fls i))) = g.2) by (cbn; lia). rewrite <- Ef2 in Hys, Hs2.
  eapply HQ.
  - by eapply (emptied_minv _ m2 a _ i g l2 ys' k' Hm2 Ea2 eq_refl Eg).
  - done.
  - intros c k. rewrite (emptied_allocated _ m2 a _ i g l2 ys' k' Hm2 Ea2 eq_refl Eg Hfull) by done. by apply Hall2.
Qed.
Lemma free_small_spec fls m a h i g b (Q : unit -> mstate -> Prop) : minv DESCS fls m -> unlocked m -> headers m !! a = Some h -> adesc h = Some i ->
  geo (descs m) i = Some g -> is_block a g b -> b ∉ fls i ->
  (forall fls' m', minv DESCS fls' m' -> descs m' = descs m -> filled (bytes m) b g.1 0xcc (bytes m') ->
    (forall c k, allocated fls' m' c k <-> allocated fls m c k /\ c <> b) -> Q tt m') ->
  mwp (free me DESCS b) m Q.
Proof.
  intros Hm Hu Ea Ei Eg Hb Hf HQ. pose proof (mi_geo _ _ _ Hm _ _ Eg) as Hgo. destruct (header_self _ _ _ Hm _ _ Ea) as (_ & Hka & _).
  destruct (mi_magic _ _ _ Hm _ _ Ea) as (Hmg & Ham & _ & Hpg).
  assert (Hal : allocated fls m b g.1) by (by apply (allocated_small _ _ _ _ _ _ _ _ _ Hm Ea Ei Eg Hb)).
  destruct (block_kernel _ _ _ _ Hm Hal) as [Hnn Hmp]. unfold free. rewrite (proj2 (Z.eqb_neq b NULL)) by (unfold NULL; lia).
  m_step. eapply (block_to_arena_spec _ a h); [done|done|done|unfold block_in; rewrite Ei; by exists g|apply (mi_geo _ _ _ Hm)|].
  m_step. m_step; [exact Ea|]. rewrite Ei. m_step. m_step; [exact Eg|]. intros d _ Es Ec. rewrite Es. m_step. m_step.
  apply memset_spec; [unfold CString.NULL; lia|destruct Hgo; lia|done|]. intros bs Hbs. m_step.
  set (m1 := set_descs (locked (descs m) i) (set_bytes bs m)).
  assert (Hm1 : minv DESCS fls m1).
  { apply minv_descs; [|apply geo_locked|apply length_alter]. apply minv_bytes; [done|]. intros p k. by apply (filled_mapped _ b g.1 0xcc). }
  assert (Hall1 : forall c k, allocated fls m1 c k <-> allocated fls m c k).
  { intros c k. unfold m1. rewrite allocated_descs by apply geo_locked. done. }
  assert (Eg1 : geo (descs m1) i = Some g) by (unfold m1; cbn; by rewrite geo_locked).
  eapply (desc_acquire_spec _ i g); [done|done|]. change (set_descs _ _) with m1.
  eapply give_back_spec; [exact Hm1|exact Ea|exact Ei|exact Eg1|exact Ec|exact Hb|exact Hf|].
  intros fls' m3 Hm3 [Ed3 Eb3] Hall3. eapply (desc_release_spec _ m); [done|exact Eg|done|].
  assert (Hg3 : forall j, geo (descs m) j = geo (descs m3) j) by (intros j; rewrite Ed3; symmetry; apply geo_locked).
  apply (HQ fls'); [apply minv_descs; [done|done|rewrite Ed3; symmetry; apply length_alter]|done|cbn; by rewrite Eb3|].
  intros c k. by rewrite allocated_descs, Hall3, Hall1.
Qed.
Lemma free_big_spec fls m a h (Q : unit -> mstate -> Prop) : minv DESCS fls m -> headers m !! a = Some h -> adesc h = None ->
  (forall m', minv DESCS fls m' -> kept m m' -> (forall c k, allocated fls m' c k <-> allocated fls m c k /\ c <> a + 12) -> Q tt m') ->
  mwp (free me DESCS (a + 12)) m Q.
Proof.
  intros Hm Ea Ei HQ. destruct (header_self _ _ _ Hm _ _ Ea) as (_ & Hka & _). destruct (mi_magic _ _ _ Hm _ _ Ea) as (Hmg & Ham & Hsp & Hpg).
  assert (Es : span h = free_cnt h) by (unfold span; by rewrite Ei). unfold free.
  assert (Hnn : a + 12 <> NULL) by (destruct Hka; unfold NULL, PHYS_BASE, LOADER_PHYS_BASE in *; lia).
  rewrite (proj2 (Z.eqb_neq _ NULL) Hnn).
  m_step. eapply (block_to_arena_spec _ a h); [done|done|done|unfold block_in; by rewrite Ei|apply (mi_geo _ _ _ Hm)|].
  m_step. m_step; [exact Ea|]. rewrite Ei. m_step. m_step. m_step. rewrite <- Es.
  apply (palloc_free_multiple_spec false); [apply (mi_km _ _ _ Hm)|lia|exact Hpg|done|].
  intros k' Hk'. change (set_km k' _) with (dropped m a k'). apply HQ; [|done|].
  - eapply (dropped_minv _ _ _ Hm); [exact Ea|exact Hk'|]. intros i g b Ei'. congruence.
  - intros c k. rewrite (dropped_allocated _ _ _ Hm). split; intros [H Hn]; (split; [done|]).
    + intros ->. apply Hn. unfold page_of. dlia.
    + intros Hp. destruct (allocated_where _ _ _ _ _ Hm H) as (a1 & h1 & E1 & _ & _ & Hp1 & _ & H1). assert (a1 = a) as -> by congruence.
      assert (h1 = h) as -> by congruence. rewrite Ei in H1. by destruct H1.
Qed.
(** What [free] does: the block is no longer handed out, nothing else changes. *)
Lemma free_spec fls m b n (Q : unit -> mstate -> Prop) : minv DESCS fls m -> unlocked m -> allocated fls m b n ->
  (forall fls' m', minv DESCS fls' m' -> descs m' = descs m -> (forall q, ~ (b <= q < b + n) -> bytes m' !! q = bytes m !! q) ->
    (forall c k, allocated fls' m' c k <-> allocated fls m c k /\ c <> b) -> Q tt m') ->
  mwp (free me DESCS b) m Q.
Proof.
  intros Hm Hu (a & h & Ea & H) HQ. destruct (adesc h) as [i|] eqn:Ei.
  - destruct H as (g & Eg & Hb & Hf & ->). eapply free_small_spec; [done..|]. intros fls' m' Hm' Hd Hbs Hall.
    eapply HQ; [done|done| |done]. intros q Hq. by rewrite Hbs, decide_False.
  - destruct H as [-> ->]. eapply free_big_spec; [done..|]. intros m' Hm' [Hd Hbs] Hall. eapply HQ; [done|done| |done]. intros q _. by rewrite Hbs.
Qed.
(** ** The size of a block *)
Lemma block_size_spec fls m b n (Q : Z -> mstate -> Prop) : minv DESCS fls m -> allocated fls m b n -> Q n m -> mwp (block_size b) m Q.
Proof.
  intros Hm (a & h & Ea & H) HQ. destruct (header_self _ _ _ Hm _ _ Ea) as (_ & Hka & _).
  destruct (mi_magic _ _ _ Hm _ _ Ea) as (Hmg & Ham & Hsp & _). pose proof (arena_top _ _ _ _ Hm Ea) as Htop. unfold block_size.
  m_step. eapply (block_to_arena_spec _ a h); [done|done|done| |apply (mi_geo _ _ _ Hm)|].
  { unfold block_in. destruct (adesc h); [destruct H as (g & ? & ? & _); by exists g|tauto]. }
  m_step. m_step; [exact Ea|]. unfold span in *. destruct (adesc h) as [i|] eqn:Ei.
  - destruct H as (g & Eg & Hb & Hf & ->). m_step. m_step; [exact Eg|]. intros d _ Es _. m_step. by rewrite Es.
  - destruct H as [-> ->]. m_step. destruct (round_down_page a (a + 12) Hka ltac:(lia)) as [_ ->]. change PGSIZE with 4096.
    destruct Hka as [Hk _]. unfold PHYS_BASE, LOADER_PHYS_BASE in *.
    rewrite (u32_small (4096 * _)) by (unfold is_u32; lia). rewrite u32_small by (unfold is_u32; lia). by replace (a + 12 - a) with 12 by lia.
Qed.

(** ** The allocator as a finite map from blocks to their sizes *)
Definition heap_is (m : mstate) (A : gmap Z Z) : Prop :=
  exists fls, minv DESCS fls m /\ unlocked m /\ forall b n, A !! b = Some n <-> allocated fls m b n.
(** The [n] bytes at [b] are no part of the blocks [A]. *)
Definition apart (A : gmap Z Z) (b n : Z) : Prop := forall c k, A !! c = Some k -> c + k <= b \/ b + n <= c.
Lemma heap_apart m A b n : heap_is m A -> A !! b = Some n -> apart (delete b A) b n /\ 0 < b /\ 0 < n /\ mapped (bytes m) b n.
Proof.
  intros (fls & Hm & _ & HA) Hb%HA. destruct (block_kernel _ _ _ _ Hm Hb). split; [|split; [done|]; split; [|done]].
  - intros c k [Hne Hc]%lookup_delete_Some. apply HA in Hc. destruct (allocated_apart _ _ _ _ _ _ _ Hm Hb Hc) as [[-> _]|?]; [done|lia].
  - destruct (allocated_where _ _ _ _ _ Hm Hb) as (? & ? & _ & _ & _ & _ & ? & _). done.
Qed.
Lemma heap_bytes m A bs : heap_is m A -> (forall p n, mapped (bytes m) p n -> mapped bs p n) -> heap_is (set_bytes bs m) A.
Proof. intros (fls & Hm & Hu & HA) Hb. exists fls. split; [by apply minv_bytes|done]. Qed.
Lemma malloc_heap garbage m A size (Q : Z -> mstate -> Prop) : heap_is m A -> 0 < size < 2 ^ 32 - 4108 ->
  ((forall a, ~ free_run (kernel_pool (km m)) ((size + 4107) / 4096) a) -> Q NULL m) ->
  (forall b n m', b <> NULL -> size <= n -> A !! b = None -> heap_is m' (<[b := n]> A) -> bytes m' = bytes m -> Q b m') ->
  mwp (malloc me DESCS garbage size) m Q.
Proof.
  intros (fls & Hm & Hu & HA) [Hs Ht] HQ0 HQ. apply (malloc_spec _ fls); [done..|].
  intros b n fls' m' Hb Hn Hm' [Hd Hbs] Hall Hnot. assert (HAb : A !! b = None).
  { destruct (A !! b) as [k|] eqn:E; [|done]. apply HA in E. by destruct (Hnot k). }
  apply (HQ b n); [done|done|done| |done]. exists fls'. split; [done|]. split; [by intros i d; rewrite Hd; apply Hu|].
  intros c k. rewrite Hall, <- HA, lookup_insert_Some. split; [intros [[<- <-]|[? ?]]; tauto|].
  intros [H|[-> ->]]; [|by left]. right. split; [congruence|done].
Qed.
Lemma free_heap m A b n (Q : unit -> mstate -> Prop) : heap_is m A -> A !! b = Some n ->
  (forall m', heap_is m' (delete b A) -> (forall q, ~ (b <= q < b + n) -> bytes m' !! q = bytes m !! q) -> Q tt m') ->
  mwp (free me DESCS b) m Q.
Proof.
  intros (fls & Hm & Hu & HA) Hb%HA HQ. eapply free_spec; [done|done|exact Hb|]. intros fls' m' Hm' Hd Hbs Hall. apply HQ; [|done].
  exists fls'. split; [done|]. split; [by intros i d; rewrite Hd; apply Hu|]. intros c k. rewrite lookup_delete_Some, Hall, HA. naive_solver.
Qed.
End operations.
