(* ===== verification/MallocProps.v ===== *)
(** * MallocProps: the allocator from boot on, and the operations built on it

    [malloc_init] makes an allocator with nothing handed out; [malloc], [free],
    [calloc] and [realloc] are operations on the finite map of the blocks handed out. *)
From S2P Require Import Prelude.
From S2P Require Import Bitmap.
From S2P Require Import Lock.
From S2P Require Import Vaddr.
From S2P Require Import CString.
From S2P Require Import KList.
From S2P Require Import Palloc.
From S2P Require Import Malloc.
From S2P Require Import MallocInv.
From S2P Require Import MallocSpec.

(** ** malloc_init *)
Section init.
Context (DESCS : Z).
Abbreviation free_list := (free_list DESCS).
(** The [n] descriptors made so far, with empty lists. *)
Definition made (n : nat) : list desc :=
  (fun i => Desc (16 * 2 ^ Z.of_nat i) ((PGSIZE - sizeof_arena) / (16 * 2 ^ Z.of_nat i)) None) <$> seq 0 n.
Lemma made_S n : made (S n) = made n ++ [Desc (16 * 2 ^ Z.of_nat n) ((PGSIZE - sizeof_arena) / (16 * 2 ^ Z.of_nat n)) None].
Proof. unfold made. by rewrite seq_S, fmap_app. Qed.
Lemma made_length n : length (made n) = n.
Proof. unfold made. by rewrite length_fmap, length_seq. Qed.
Definition heads_mapped (l : heap) : Prop := forall i, (i < 10)%nat -> is_Some (l !! free_list i) /\ is_Some (l !! (free_list i + 8)).
Definition initialized (m : mstate) (n : nat) (m' : mstate) : Prop :=
  exists l', m' = set_descs (made n) (set_links l' m) /\ heads_mapped l' /\ forall i, (i < n)%nat -> rep l' (free_list i) [].
Lemma init_loop_spec m k n m' (Q : unit -> mstate -> Prop) : 0 < DESCS -> (n + k = 7)%nat -> initialized m n m' ->
  (forall m', initialized m 7 m' -> Q tt m') -> mwp (init_loop DESCS (S k) (16 * 2 ^ Z.of_nat n)) m' Q.
Proof.
  revert n m'. induction k as [|k IH]; intros n m' HD Hn (l' & -> & Hh & Hr) HQ; cbn [init_loop].
  - assert (n = 7%nat) as -> by lia. change (16 * 2 ^ Z.of_nat 7 <? PGSIZE / 2) with false. apply mwp_ret, HQ. by exists l'.
  - assert (Hlt : (16 * 2 ^ Z.of_nat n <? PGSIZE / 2) = true).
    { do 7 (destruct n as [|n]; [reflexivity|]). lia. }
    rewrite Hlt. apply mwp_bind. wp_step. cbn [descs set_descs]. wp_step.
    wp_step; [apply Z.leb_le; unfold zlen; rewrite made_length; lia|].
    wp_step. apply in_links_spec. cbn [links set_descs set_links]. rewrite made_length. destruct (Hh n ltac:(lia)) as [H1 H2].
    assert (0 < free_list n) by (unfold Malloc.free_list, sizeof_desc; lia).
    apply list_init_spec; [done|done|unfold KList.NULL; lia|unfold KList.NULL; lia|]. intros l2 Hr2 Hs2. wp_step. wp_step.
    replace (16 * 2 ^ Z.of_nat n * 2) with (16 * 2 ^ Z.of_nat (S n)) by (rewrite Nat2Z.inj_succ, Z.pow_succ_r; lia).
    apply IH; [done|lia| |done]. exists l2. split; [|split].
    + by rewrite made_S.
    + intros i Hi. destruct (Hh i Hi). split; (eapply same_but_mapped; [exact Hs2|exact Hr2|done|done]).
    + intros i Hi. destruct (decide (i = n)) as [->|Hne]; [done|]. apply (rep_frame l'); [|apply Hr; lia].
      intros q Hq. apply Hs2. unfold nodes in Hq. cbn [app] in Hq. rewrite !elem_of_cons in *. unfold Malloc.free_list, sizeof_desc in *.
      intros Hq2. assert (Z.of_nat i <> Z.of_nat n) by lia. rewrite elem_of_nil in Hq, Hq2. intuition lia.
Qed.
Lemma initialized_start m : descs m = [] -> heads_mapped (links m) -> initialized m 0 m.
Proof. intros Hd Hh. exists (links m). split; [|split; [done|lia]]. destruct m. cbn in *. by subst. Qed.
Lemma made_geo i g : geo (made 7) i = Some g -> geo_ok g /\ (i < 7)%nat.
Proof.
  intros H. do 7 (destruct i as [|i]; [injection H as <-; split; [unfold geo_ok; vm_compute; intuition congruence|lia]|]). done.
Qed.
(** The memory before the allocator's first call. *)
Record at_boot (m : mstate) : Prop := AtBoot {
  ab_km : kmem_wf (km m);
  ab_low : 0 < DESCS /\ DESCS + 480 <= base (kernel_pool (km m));
  ab_heads : heads_mapped (links m);
  ab_headers : headers m = ∅;
  ab_descs : descs m = [];
  ab_bytes : mapped (bytes m) (base (kernel_pool (km m))) (4096 * bit_cnt (used_map (kernel_pool (km m)))) }.
Lemma initialized_heap m m' : at_boot m -> initialized m 7 m' -> heap_is DESCS m' ∅.
Proof.
  intros [Hk [HD1 HD2] Hh Hs Hd Hb] (l' & -> & Hh' & Hr). exists (fun _ => []). split; [|split].
  - split; cbn [km headers links bytes descs set_descs set_links]; rewrite ?Hs; try done.
    + intros i g [? _]%made_geo. done.
    + unfold zlen. rewrite made_length. lia.
    + intros i g [_ Hi]%made_geo. by apply Hr.
    + by intros i b ?%not_elem_of_nil.
  - intros i d Hi. change (made 7 !! i = Some d) in Hi. unfold made in Hi. rewrite list_lookup_fmap in Hi. apply fmap_Some in Hi as (j & _ & ->). done.
  - intros b n. rewrite lookup_empty. split; [done|]. intros (a & h & E & _). cbn in E. by rewrite Hs, lookup_empty in E.
Qed.
End init.

(** At boot [malloc_init] makes an allocator that has handed out nothing. *)
Theorem malloc_init_empty (DESCS : Z) m : at_boot DESCS m -> mwp (malloc_init DESCS) m (fun _ m' => heap_is DESCS m' ∅).
Proof.
  intros Hb. pose proof Hb as [_ [HD _] Hh _ Hd _]. unfold malloc_init. apply (init_loop_spec DESCS m 7 0); [done|lia| |].
  - by apply initialized_start.
  - intros m' Hi. by apply (initialized_heap DESCS m).
Qed.

Lemma moved_mapped m dst src n m' p k : moved m dst src n m' -> mapped m src n -> mapped m p k -> mapped m' p k.
Proof. intros Hm Hs Hp q Hq. rewrite Hm. case_decide; [|by apply Hp]. apply Hs. lia. Qed.

Section properties.
Context (me DESCS : Z) (garbage : list_elem).

(** C9. [malloc] answers a null pointer only when the kernel pool has no run of pages
    long enough, and then nothing changed; otherwise it hands out a block of at least
    [size] bytes that was not handed out, overlaps no block handed out and can be
    written; the contents of all blocks stay. *)
Theorem malloc_hands_out m A size : heap_is DESCS m A -> 0 < size < 2 ^ 32 - 4108 ->
  mwp (malloc me DESCS garbage size) m (fun b m' =>
    (b = NULL /\ m' = m /\ forall a, ~ free_run (kernel_pool (km m)) ((size + 4107) / 4096) a) \/
    (b <> NULL /\ exists n, size <= n /\ A !! b = None /\ apart A b n /\ mapped (bytes m') b n /\
       heap_is DESCS m' (<[b := n]> A) /\ bytes m' = bytes m)).
Proof.
  intros HA Hs. eapply (malloc_heap _ _ _ _ A); [done|done|by left|]. intros b n m' Hb Hn HAb HA' Hbs. right. split; [done|]. exists n.
  destruct (heap_apart _ _ _ _ _ HA' (lookup_insert_eq _ _ _)) as (Hap & _ & _ & Hmp). rewrite delete_insert_id in Hap by done. done.
Qed.
(** C10. [free] of a block handed out makes it no longer handed out and leaves every
    other block, its size and its contents; a null pointer is accepted and does nothing. *)
Theorem free_takes_back m A b n : heap_is DESCS m A -> A !! b = Some n ->
  free me DESCS NULL m = Ok (tt, m) /\
  mwp (free me DESCS b) m (fun _ m' => heap_is DESCS m' (delete b A) /\
    forall q, ~ (b <= q < b + n) -> bytes m' !! q = bytes m !! q).
Proof. intros HA Hb. split; [done|]. eapply free_heap; [done|done|]. done. Qed.
(** [calloc] is [malloc] of the product, with the bytes asked for set to zero, when the product fits. *)
Theorem calloc_zeroes m A a b : heap_is DESCS m A -> 0 < a -> 0 < b -> a * b < 2 ^ 32 - 4108 ->
  mwp (calloc me DESCS garbage a b) m (fun p m' =>
    (p = NULL /\ m' = m /\ forall c, ~ free_run (kernel_pool (km m)) ((a * b + 4107) / 4096) c) \/
    (p <> NULL /\ exists n, a * b <= n /\ A !! p = None /\ apart A p n /\ heap_is DESCS m' (<[p := n]> A) /\
       filled (bytes m) p (a * b) 0 (bytes m'))).
Proof.
  intros HA Ha Hb Hab. unfold calloc. rewrite u32_small by (unfold is_u32; lia).
  rewrite (proj2 (Z.ltb_ge (a * b) a)), (proj2 (Z.ltb_ge (a * b) b)) by nia. cbn [orb]. m_step.
  eapply (malloc_heap _ _ _ _ A); [done|nia| |].
  { intros Hno. change (negb (NULL =? NULL)) with false. apply mwp_ret. by left. }
  intros p n m' Hp Hn HAp HA' Hbs. rewrite (proj2 (Z.eqb_neq p NULL) Hp). cbn [negb].
  destruct (heap_apart _ _ _ _ _ HA' (lookup_insert_eq _ _ _)) as (Hap & _ & _ & Hmp). rewrite delete_insert_id in Hap by done.
  m_step. m_step. apply memset_spec; [exact Hp|nia|eapply mapped_le; [exact Hmp|lia|lia]|]. intros bs Hf. m_step. right. split; [done|]. exists n.
  rewrite <- Hbs. split; [done|]. split; [done|]. split; [done|]. split; [|done].
  by apply heap_bytes; [|intros ??; eapply filled_mapped].
Qed.
(** C15. [realloc] to a non-zero size moves a block: it fails, and changes nothing, only
    when the kernel pool has no run of pages long enough for the new size; otherwise the
    old block is no longer handed out, and the new one holds the old one's bytes up to
    the smaller of the two sizes; no other block's contents change. *)
Theorem realloc_moves m A b n size : heap_is DESCS m A -> A !! b = Some n -> 0 < size < 2 ^ 32 - 4108 ->
  mwp (realloc me DESCS garbage b size) m (fun p m' =>
    (p = NULL /\ m' = m /\ forall a, ~ free_run (kernel_pool (km m)) ((size + 4107) / 4096) a) \/
    (p <> NULL /\ exists k, size <= k /\ A !! p = None /\ apart A p k /\ heap_is DESCS m' (<[p := k]> (delete b A)) /\
       (forall j, 0 <= j < Z.min n size -> bytes m' !! (p + j) = bytes m !! (b + j)) /\
       (forall q, ~ (b <= q < b + n) -> ~ (p <= q < p + k) -> bytes m' !! q = bytes m !! q))).
Proof.
  intros HA Hb Hs. unfold realloc. rewrite (proj2 (Z.eqb_neq size 0)) by lia. m_step.
  eapply (malloc_heap _ _ _ _ A); [done|done| |].
  { intros Hno. rewrite andb_false_r. apply mwp_ret. by left. }
  intros p k m' Hp Hk HAp HA' Hbs. destruct (heap_apart _ _ _ _ _ HA Hb) as (_ & Hb0 & Hn & _).
  rewrite (proj2 (Z.eqb_neq p NULL) Hp), (proj2 (Z.eqb_neq b NULL)) by (unfold NULL; lia). cbn [negb andb].
  assert (HAb' : (<[p := k]> A) !! b = Some n) by (rewrite lookup_insert_ne; [done|congruence]).
  destruct (heap_apart _ _ _ _ _ HA' (lookup_insert_eq _ _ _)) as (Hap & Hp0 & _ & Hmp). rewrite delete_insert_id in Hap by done.
  destruct (heap_apart _ _ _ _ _ HA' HAb') as (_ & _ & _ & Hmb). pose proof (Hap _ _ Hb) as Hdis.
  m_step. destruct HA' as (fls & Hm' & Hu' & HA'). eapply (block_size_spec _ fls); [exact Hm'|by apply HA'|]. cbv zeta.
  replace (if size <? n then size else n) with (Z.min n size) by (destruct (Z.ltb_spec size n); lia).
  m_step. m_step. apply memcpy_spec; [lia|done|done|eapply mapped_le; [exact Hmp|lia|lia]|eapply mapped_le; [exact Hmb|lia|lia]| |].
  { destruct Hdis; lia. }
  intros bs Hmv. m_step. assert (HA2 : heap_is DESCS (set_bytes bs m') (<[p := k]> A)).
  { apply heap_bytes; [by exists fls|]. intros c i Hc. eapply moved_mapped; [exact Hmv| |exact Hc]. eapply mapped_le; [exact Hmb|lia|lia]. }
  eapply free_heap; [exact HA2|exact HAb'|]. intros m2 HA3 Hout. m_step. right. split; [done|]. exists k.
  cbn [bytes set_bytes] in Hout. rewrite delete_insert_ne in HA3 by congruence.
  split; [done|]. split; [done|]. split; [done|]. split; [done|]. split.
  - intros j Hj. rewrite Hout, Hmv, decide_True by lia. rewrite Hbs. f_equal. lia.
  - intros q Hq1 Hq2. rewrite Hout, Hmv, decide_False by lia. by rewrite Hbs.
Qed.
End properties.

(** ** Two sizes that wrap *)
Lemma malloc_big me DESCS garbage m size : size <> 0 -> find_desc (descs m) size = None ->
  malloc me DESCS garbage size m = big_block me size m.
Proof. intros H Hf. unfold malloc. rewrite (proj2 (Z.eqb_neq size 0)) by done. unfold mbind, M_bind, gets at 1. by rewrite Hf. Qed.
(** [size + sizeof *a] wraps: the largest sizes get one page. *)
Example malloc_wraps me DESCS garbage m : descs m = made 7 ->
  malloc me DESCS garbage 0xfffffff8 m = malloc me DESCS garbage 4000 m.
Proof.
  intros Hd. rewrite !malloc_big; [|done|rewrite Hd; vm_compute; reflexivity|done|rewrite Hd; vm_compute; reflexivity].
  unfold big_block. by replace (DIV_ROUND_UP (0xfffffff8 +u sizeof_arena) PGSIZE) with (DIV_ROUND_UP (4000 +u sizeof_arena) PGSIZE) by (vm_compute; reflexivity).
Qed.
(** The test of the product misses a product that wraps to something large. *)
Example calloc_wraps me DESCS garbage m : calloc me DESCS garbage 0x10001 0x10001 m = calloc me DESCS garbage 0x20001 1 m.
Proof.
  unfold calloc. by replace (0x10001 *u 0x10001) with (0x20001 *u 1) by (vm_compute; reflexivity).
Qed.

(** ** Witnesses *)
Definition ex_descs : Z := 0xc0001000.
Definition ex_garbage : list_elem := ListElem 0 0.
(** A kernel pool of two pages and a user pool of one. *)
Definition ex_pages : kmem :=
  Kmem (Pool None (Bitmap 2 [0]) 0xc0100000) (Pool None (Bitmap 1 [0]) 0xc0102000)
    (list_to_map ((fun i => (0xc0100000 + 4096 * i, replicate 1024 7)) <$> seqZ 0 3)) 0.
Lemma ex_pages_wf : kmem_wf ex_pages.
Proof.
  assert (Hp : forall user, pool_wf (pool_of user ex_pages)).
  { intros [|]; (split; [split; cbn; [lia|done|by repeat constructor]|done|split; [done|reflexivity]|cbn; lia]). }
  split; [exact Hp|cbn; lia|]. intros user. apply frames_ok_sound; [apply Hp|]. destruct user; vm_compute; reflexivity.
Qed.
Definition zero_bytes (p n : Z) : gmap Z Z := list_to_map ((fun q => (q, 0)) <$> seqZ p n).
Lemma zero_bytes_mapped p n : mapped (zero_bytes p n) p n.
Proof.
  intros q Hq. exists 0. split; [|lia]. apply elem_of_list_to_map.
  - rewrite <- list_fmap_compose. apply NoDup_fmap_2; [by intros x y|apply NoDup_seqZ].
  - apply list_elem_of_fmap. exists q. split; [done|]. apply elem_of_seqZ. lia.
Qed.
Definition ex_boot : mstate :=
  MState ex_pages ∅ (list_to_map ((fun i => (ex_descs + 8 * i, ex_garbage)) <$> seqZ 0 62))
    (zero_bytes 0xc0100000 8192) [].
Definition heads_ok (l : heap) : bool :=
  forallb (fun i => bool_decide (is_Some (l !! free_list ex_descs i)) && bool_decide (is_Some (l !! (free_list ex_descs i + 8)))) (seq 0 10).
Lemma heads_ok_sound l : heads_ok l = true -> heads_mapped ex_descs l.
Proof.
  unfold heads_ok. rewrite forallb_forall. intros H i Hi. specialize (H i ltac:(apply in_seq; lia)).
  apply andb_true_iff in H as [H1%bool_decide_eq_true H2%bool_decide_eq_true]. done.
Qed.
Lemma ex_boot_at : at_boot ex_descs ex_boot.
Proof.
  split; [exact ex_pages_wf|split; vm_compute; congruence| |reflexivity|reflexivity|].
  - apply heads_ok_sound. vm_compute. reflexivity.
  - apply zero_bytes_mapped.
Qed.
Lemma malloc_init_empty_witness : mwp (malloc_init ex_descs) ex_boot (fun _ m' => heap_is ex_descs m' ∅).
Proof. apply (malloc_init_empty ex_descs ex_boot), ex_boot_at. Defined.
Definition ex_ready : mstate := state_of (malloc_init ex_descs ex_boot) ex_boot.
Lemma ex_ready_heap : heap_is ex_descs ex_ready ∅.
Proof.
  assert (H : mwp (malloc_init ex_descs) ex_boot (fun _ m' => initialized ex_descs ex_boot 7 m')).
  { apply (init_loop_spec ex_descs ex_boot 7 0); [done|lia| |done]. by apply initialized_start, ex_boot_at. }
  apply (mwp_state_of _ _ _ ex_boot) in H as [_ H]. exact (initialized_heap ex_descs ex_boot ex_ready ex_boot_at H).
Qed.
Lemma malloc_hands_out_witness :
  mwp (malloc 1 ex_descs ex_garbage 100) ex_ready (fun b m' =>
    (b = NULL /\ m' = ex_ready /\ forall a, ~ free_run (kernel_pool (km ex_ready)) ((100 + 4107) / 4096) a) \/
    (b <> NULL /\ exists n, 100 <= n /\ (∅ : gmap Z Z) !! b = None /\ apart ∅ b n /\ mapped (bytes m') b n /\
       heap_is ex_descs m' (<[b := n]> ∅) /\ bytes m' = bytes ex_ready)).
Proof. apply (malloc_hands_out 1 ex_descs ex_garbage ex_ready ∅ 100); [exact ex_ready_heap|lia]. Defined.
Lemma calloc_zeroes_witness :
  mwp (calloc 1 ex_descs ex_garbage 10 30) ex_ready (fun p m' =>
    (p = NULL /\ m' = ex_ready /\ forall c, ~ free_run (kernel_pool (km ex_ready)) ((10 * 30 + 4107) / 4096) c) \/
    (p <> NULL /\ exists n, 10 * 30 <= n /\ (∅ : gmap Z Z) !! p = None /\ apart ∅ p n /\ heap_is ex_descs m' (<[p := n]> ∅) /\
       filled (bytes ex_ready) p (10 * 30) 0 (bytes m'))).
Proof. apply (calloc_zeroes 1 ex_descs ex_garbage ex_ready ∅ 10 30); [exact ex_ready_heap|lia..]. Defined.
(** One block handed out. *)
Definition ex_one : mstate := state_of (malloc 1 ex_descs ex_garbage 100 ex_ready) ex_ready.
Definition addr_of (r : res (Z * mstate)) : Z := match r with Ok (b, _) => b | _ => NULL end.
Lemma run_addr (f : AM Z) m (Q : Z -> mstate -> Prop) b :
  mwp f m (fun b m' => b <> NULL -> Q b m') -> addr_of (f m) = b -> b <> NULL -> Q b (state_of (f m) m).
Proof. unfold mwp. destruct (f m) as [[c m']| | |]; cbn; intros H E Hb; [subst c; by apply H|done..]. Qed.
Lemma ex_one_heap : exists n, heap_is ex_descs ex_one (<[0xc010000c := n]> ∅).
Proof.
  refine (run_addr (malloc 1 ex_descs ex_garbage 100) ex_ready (fun b m' => exists n, heap_is ex_descs m' (<[b := n]> ∅)) _ _ _ _).
  - eapply (malloc_heap _ _ _ _ ∅); [exact ex_ready_heap|lia|intros _ H; by destruct H|]. intros b n m' _ _ _ H _ _. exists n. exact H.
  - vm_compute. reflexivity.
  - discriminate.
Qed.
Lemma free_takes_back_witness : exists A n, heap_is ex_descs ex_one A /\ A !! 0xc010000c = Some n /\
  free 1 ex_descs NULL ex_one = Ok (tt, ex_one) /\
  mwp (free 1 ex_descs 0xc010000c) ex_one (fun _ m' => heap_is ex_descs m' (delete 0xc010000c A) /\
    forall q, ~ (0xc010000c <= q < 0xc010000c + n) -> bytes m' !! q = bytes ex_one !! q).
Proof.
  destruct ex_one_heap as [n H]. exists (<[0xc010000c := n]> ∅), n. split; [exact H|]. split; [apply lookup_insert_eq|].
  apply (free_takes_back 1 ex_descs ex_one (<[0xc010000c := n]> ∅) 0xc010000c n); [exact H|apply lookup_insert_eq].
Defined.
(** A page of the pool is still free. *)
Lemma ex_one_free : free_run (kernel_pool (km ex_one)) 1 0xc0101000.
Proof. apply one_free_page; vm_compute; congruence. Qed.
Lemma realloc_moves_witness : exists A n, heap_is ex_descs ex_one A /\ A !! 0xc010000c = Some n /\
  mwp (realloc 1 ex_descs ex_garbage 0xc010000c 2000) ex_one (fun p m' =>
    p <> NULL /\ exists k, 2000 <= k /\ A !! p = None /\ apart A p k /\ heap_is ex_descs m' (<[p := k]> (delete 0xc010000c A)) /\
       (forall j, 0 <= j < Z.min n 2000 -> bytes m' !! (p + j) = bytes ex_one !! (0xc010000c + j)) /\
       (forall q, ~ (0xc010000c <= q < 0xc010000c + n) -> ~ (p <= q < p + k) -> bytes m' !! q = bytes ex_one !! q)).
Proof.
  destruct ex_one_heap as [n H]. exists (<[0xc010000c := n]> ∅), n. split; [exact H|]. split; [apply lookup_insert_eq|].
  eapply mwp_mono.
  - apply (realloc_moves 1 ex_descs ex_garbage ex_one (<[0xc010000c := n]> ∅) 0xc010000c n 2000); [exact H|apply lookup_insert_eq|lia].
  - cbv beta. intros p m' [(_ & _ & Hno)|Hp]; [destruct (Hno _ ex_one_free)|exact Hp].
Defined.
