(* ===== verification/Hash.v ===== *)
(** * Hash: lib/kernel/hash.c

    A hash table: an array of lists of KList and two counts.  [hash] and [less] are the
    caller's functions, [answer] is what [malloc] returns for a size in the current
    memory: a null pointer, or the address of memory that is not in use.  The memory of
    the bucket array becomes list heads when it is handed out and is gone when it is
    freed.  An action is a function on a state [U] of the caller. *)
From S2P Require Import Prelude.
From S2P Require Import CString.
From S2P Require Import KList.

Record hash_table := Hash { elem_cnt : Z; bucket_cnt : Z; buckets : Z }.
Record hstate := HState { tab : hash_table; links : gmap Z list_elem }.
Abbreviation TM := (M hstate).
Definition set_tab (t : hash_table) (s : hstate) : hstate := HState t (links s).
Definition in_list {A} (f : M (gmap Z list_elem) A) : TM A := fun s =>
  match f (links s) with Ok (a, l) => Ok (a, HState (tab s) l) | Panic => Panic | Fault => Fault | Hang => Hang end.

Definition sizeof_list : Z := 16.
(** The list heads of [n] buckets at [p]: two elements each. *)
Definition region (p n : Z) : list Z := (fun i => p + 8 * i) <$> seqZ 0 (2 * n).
Definition map_region (p n : Z) (h : gmap Z list_elem) : gmap Z list_elem :=
  foldr (fun q h => <[q := ListElem 0 0]> h) h (region p n).
Definition unmap_region (p n : Z) (h : gmap Z list_elem) : gmap Z list_elem := foldr (fun q h => delete q h) h (region p n).

Definition turn_off_least_1bit (x : Z) : Z := Z.land x (x -u 1).
Definition is_power_of_2 (x : Z) : bool := negb (x =? 0) && (turn_off_least_1bit x =? 0).
(** A 32-bit number has at most 32 bits to turn off. *)
Definition round_loop (n : Z) : res Z :=
  loop 33 (fun n => if is_power_of_2 n then mret (inr n) else mret (inl (turn_off_least_1bit n))) n.
Definition MIN_ELEMS_PER_BUCKET : Z := 1.
Definition BEST_ELEMS_PER_BUCKET : Z := 2.
Definition MAX_ELEMS_PER_BUCKET : Z := 4.

Section hash.
Context (hash : Z -> Z) (less : Z -> Z -> bool) (answer : gmap Z list_elem -> Z -> Z).

Definition malloc_buckets (n : Z) : TM Z := fun s =>
  let p := answer (links s) (sizeof_list *u n) in
  Ok (p, if p =? NULL then s else HState (tab s) (map_region p n (links s))).
Definition free_buckets (p n : Z) : TM unit := modify (fun s => HState (tab s) (unmap_region p n (links s))).

Definition find_bucket (e : Z) : TM Z :=
  t ← gets tab; let bucket_idx := Z.land (hash e) (bucket_cnt t -u 1) in mret (buckets t + sizeof_list * bucket_idx).
Definition find_body (bucket e i : Z) : M (gmap Z list_elem) (Z + Z) :=
  z ← list_end bucket;
  if i =? z then mret (inr NULL)
  else if negb (less i e) && negb (less e i) then mret (inr i)
  else n ← list_next i; mret (inl n).
Definition find_elem (bucket e : Z) : TM Z :=
  in_list (i ← list_begin bucket; fuel ← walk_fuel; mloop fuel (find_body bucket e) i).
Definition insert_elem (bucket e : Z) : TM unit :=
  _ ← modify (fun s => set_tab (Hash (elem_cnt (tab s) +u 1) (bucket_cnt (tab s)) (buckets (tab s))) s);
  in_list (list_push_front bucket e).
Definition remove_elem (e : Z) : TM unit :=
  _ ← modify (fun s => set_tab (Hash (elem_cnt (tab s) -u 1) (bucket_cnt (tab s)) (buckets (tab s))) s);
  _ ← in_list (list_remove e); mret tt.

(** [for (i = 0; i < cnt; i++) list_init (&p[i])], from [i] on. *)
Fixpoint init_buckets (p : Z) (n : nat) (i : Z) : TM unit :=
  match n with
  | O => mret tt
  | S n => _ ← in_list (list_init (p + sizeof_list * i)); init_buckets p n (i + 1)
  end.
(** Moving the elements of an old bucket to their new buckets. *)
Definition move_body (old_bucket elem : Z) : TM (Z + unit) :=
  z ← in_list (list_end old_bucket);
  if elem =? z then mret (inr tt)
  else
    new_bucket ← find_bucket elem;
    next ← in_list (list_next elem);
    _ ← in_list (list_remove elem);
    _ ← in_list (list_push_front new_bucket elem);
    mret (inl next).
Fixpoint move_buckets (old_buckets : Z) (n : nat) (i : Z) : TM unit :=
  match n with
  | O => mret tt
  | S n =>
      let old_bucket := old_buckets + sizeof_list * i in
      elem ← in_list (list_begin old_bucket);
      fuel ← in_list walk_fuel;
      _ ← mloop fuel (move_body old_bucket) elem;
      move_buckets old_buckets n (i + 1)
  end.
Definition rehash : TM unit :=
  t ← gets tab;
  let old_buckets := buckets t in
  let old_bucket_cnt := bucket_cnt t in
  let new_bucket_cnt := elem_cnt t / BEST_ELEMS_PER_BUCKET in
  let new_bucket_cnt := if new_bucket_cnt <? 4 then 4 else new_bucket_cnt in
  new_bucket_cnt ← lift (round_loop new_bucket_cnt);
  if new_bucket_cnt =? old_bucket_cnt then mret tt
  else
    new_buckets ← malloc_buckets new_bucket_cnt;
    if new_buckets =? NULL then mret tt
    else
      _ ← init_buckets new_buckets (Z.to_nat new_bucket_cnt) 0;
      _ ← modify (fun s => set_tab (Hash (elem_cnt (tab s)) new_bucket_cnt new_buckets) s);
      _ ← move_buckets old_buckets (Z.to_nat old_bucket_cnt) 0;
      free_buckets old_buckets old_bucket_cnt.

Definition hash_insert (new : Z) : TM Z :=
  bucket ← find_bucket new;
  old ← find_elem bucket new;
  _ ← (if old =? NULL then insert_elem bucket new else mret tt);
  _ ← rehash; mret old.
Definition hash_replace (new : Z) : TM Z :=
  bucket ← find_bucket new;
  old ← find_elem bucket new;
  _ ← (if negb (old =? NULL) then remove_elem old else mret tt);
  _ ← insert_elem bucket new;
  _ ← rehash; mret old.
Definition hash_find (e : Z) : TM Z := bucket ← find_bucket e; find_elem bucket e.
Definition hash_delete (e : Z) : TM Z :=
  bucket ← find_bucket e;
  found ← find_elem bucket e;
  _ ← (if negb (found =? NULL) then _ ← remove_elem found; rehash else mret tt);
  mret found.
Definition hash_size : TM Z := gets (fun s => elem_cnt (tab s)).
Definition hash_empty : TM bool := gets (fun s => elem_cnt (tab s) =? 0).

Section actions.
Context {U : Type}.
Definition pop_body (destructor : Z -> U -> U) (bucket : Z) (u : U) : M (gmap Z list_elem) (U + U) :=
  e ← list_empty bucket;
  if (e : bool) then mret (inr u) else elem ← list_pop_front bucket; mret (inl (destructor elem u)).
Fixpoint clear_buckets (destructor : option (Z -> U -> U)) (p : Z) (n : nat) (i : Z) (u : U) : TM U :=
  match n with
  | O => mret u
  | S n =>
      let bucket := p + sizeof_list * i in
      u ← match destructor with
          | Some d => in_list (fuel ← walk_fuel; mloop fuel (pop_body d bucket) u)
          | None => mret u end;
      _ ← in_list (list_init bucket);
      clear_buckets destructor p n (i + 1) u
  end.
Definition hash_clear (destructor : option (Z -> U -> U)) (u : U) : TM U :=
  t ← gets tab;
  u ← clear_buckets destructor (buckets t) (Z.to_nat (bucket_cnt t)) 0 u;
  _ ← modify (fun s => set_tab (Hash 0 (bucket_cnt (tab s)) (buckets (tab s))) s); mret u.
Definition hash_destroy (destructor : option (Z -> U -> U)) (u : U) : TM U :=
  u ← match destructor with Some _ => hash_clear destructor u | None => mret u end;
  t ← gets tab; _ ← free_buckets (buckets t) (bucket_cnt t); mret u.
Definition apply_body (action : Z -> U -> U) (bucket : Z) (s : Z * U) : M (gmap Z list_elem) (Z * U + U) :=
  let '(elem, u) := s in
  z ← list_end bucket;
  if elem =? z then mret (inr u) else next ← list_next elem; mret (inl (next, action elem u)).
Fixpoint apply_buckets (action : Z -> U -> U) (p : Z) (n : nat) (i : Z) (u : U) : TM U :=
  match n with
  | O => mret u
  | S n =>
      let bucket := p + sizeof_list * i in
      u ← in_list (elem ← list_begin bucket; fuel ← walk_fuel; mloop fuel (apply_body action bucket) (elem, u));
      apply_buckets action p n (i + 1) u
  end.
Definition hash_apply (action : Z -> U -> U) (u : U) : TM U :=
  t ← gets tab; apply_buckets action (buckets t) (Z.to_nat (bucket_cnt t)) 0 u.
End actions.

(** [h->buckets] holds what [malloc] returned, also when that is a null pointer. *)
Definition hash_init : TM bool :=
  _ ← modify (fun s => set_tab (Hash 0 4 (buckets (tab s))) s);
  p ← malloc_buckets 4;
  _ ← modify (fun s => set_tab (Hash 0 4 p) s);
  if negb (p =? NULL) then _ ← hash_clear (U:=unit) None tt; mret true else mret false.

(** ** Iteration: the bucket and the element of an iterator *)
Definition iterator : Type := Z * Z.
Definition hash_first : TM iterator :=
  t ← gets tab; e ← in_list (list_head (buckets t)); mret (buckets t, e).
Definition next_body (i : iterator) : TM (iterator + iterator) :=
  let '(bucket, elem) := i in
  z ← in_list (list_end bucket);
  if elem =? z then
    t ← gets tab;
    let bucket := bucket + sizeof_list in
    if buckets t + sizeof_list * bucket_cnt t <=? bucket then mret (inr (bucket, NULL))
    else e ← in_list (list_begin bucket); mret (inl (bucket, e))
  else mret (inr (bucket, elem)).
(** The new iterator and its element; the loop goes to a further bucket every turn. *)
Definition hash_next (i : iterator) : TM (iterator * Z) :=
  e ← in_list (list_next i.2);
  t ← gets tab;
  i ← mloop (S (Z.to_nat (bucket_cnt t))) next_body (i.1, e);
  mret (i, i.2).
Definition hash_cur (i : iterator) : Z := i.2.
End hash.

(** ** Hash functions *)
Definition FNV_32_PRIME : Z := 16777619.
Definition FNV_32_BASIS : Z := 2166136261.
Fixpoint fnv (n : nat) (buf h : Z) : M (gmap Z Z) Z :=
  match n with
  | O => mret h
  | S n => x ← mload buf; fnv n (buf + 1) (Z.lxor (h *u FNV_32_PRIME) x)
  end.
Definition hash_bytes (buf size : Z) : M (gmap Z Z) Z :=
  _ ← assert (negb (buf =? CString.NULL)); fnv (Z.to_nat size) buf FNV_32_BASIS.
Definition string_body (s : Z * Z) : M (gmap Z Z) (Z * Z + Z) :=
  let '(p, h) := s in
  x ← mload p;
  if x =? 0 then mret (inr h) else mret (inl (p + 1, Z.lxor (h *u FNV_32_PRIME) x)).
Definition hash_string (s : Z) : M (gmap Z Z) Z :=
  _ ← assert (negb (s =? CString.NULL));
  fuel ← scan_fuel; mloop fuel string_body (s, FNV_32_BASIS).
(** The four bytes of [i] in memory at [p]. *)
Definition hash_int (p i : Z) : M (gmap Z Z) Z := fun m =>
  match hash_bytes p 4 (list_to_map (zip (seqZ p 4) (le_bytes 4 (u32 i))) : gmap Z Z) with Ok (h, _) => Ok (h, m) | Panic => Panic | Fault => Fault | Hang => Hang end.
