(* ===== verification/HashSpec.v ===== *)
(** * HashSpec: what lib/kernel/hash.c promises

    A table of lists implements a finite map from keys to elements. *)
From S2P Require Import Prelude.
From S2P Require Import CString.
From S2P Require Import KList.
From S2P Require Import Hash.

#[export] Instance zlen_perm {A} : Proper ((≡ₚ) ==> eq) (@zlen A).
Proof. intros xs ys E. unfold zlen. by rewrite E. Qed.

(** ** Lists of lists *)
Lemma concat_delete {A} (ls : list (list A)) i xs : ls !! i = Some xs -> concat ls ≡ₚ xs ++ concat (delete i ls).
Proof.
  revert i. induction ls as [|l ls IH]; intros [|i] E; try done; cbn in *; [by injection E as ->|].
  rewrite (IH _ E), !app_assoc. by rewrite (Permutation_app_comm l xs).
Qed.
Lemma concat_insert {A} (ls : list (list A)) i xs ys : ls !! i = Some xs -> concat (<[i := ys]> ls) ≡ₚ ys ++ concat (delete i ls).
Proof.
  revert i. induction ls as [|l ls IH]; intros [|i] E; try done; cbn in *.
  rewrite (IH _ E), !app_assoc. by rewrite (Permutation_app_comm l ys).
Qed.
Lemma elem_concat {A} (ls : list (list A)) x : x ∈ concat ls <-> exists i xs, ls !! i = Some xs /\ x ∈ xs.
Proof.
  induction ls as [|l ls IH]; cbn; [split; [by intros ?%not_elem_of_nil|by intros (i & xs & ? & _)]|].
  rewrite elem_of_app, IH. split.
  - intros [?|(i & xs & ? & ?)]; [by exists 0%nat, l|by exists (S i), xs].
  - intros ([|i] & xs & E & ?); [left; by injection E as ->|right; by exists i, xs].
Qed.
Lemma elem_concat_delete {A} (ls : list (list A)) i j ys x : ls !! j = Some ys -> i <> j -> x ∈ ys -> x ∈ concat (delete i ls).
Proof.
  intros E Hne Hx. apply elem_concat. destruct (decide (j < i)%nat).
  - exists j, ys. by rewrite list_lookup_delete_lt.
  - exists (pred j), ys. rewrite list_lookup_delete_ge by lia. by replace (S (pred j)) with j by lia.
Qed.
Lemma concat_replicate_nil {A} n : concat (replicate n (@nil A)) = [].
Proof. by induction n. Qed.

(** ** Bucket arrays *)
Definition head_of (b : Z) (i : nat) : Z := b + 16 * Z.of_nat i.
Lemma elem_region p n q : q ∈ region p n <-> exists j, 0 <= j < 2 * n /\ q = p + 8 * j.
Proof. unfold region. rewrite list_elem_of_fmap. setoid_rewrite elem_of_seqZ. split; intros (j & ?); exists j; intuition lia. Qed.
Lemma head_region b i n : Z.of_nat i < n -> head_of b i ∈ region b n /\ head_of b i + 8 ∈ region b n.
Proof. intros H. rewrite !elem_region. unfold head_of. split; [exists (2 * Z.of_nat i)|exists (2 * Z.of_nat i + 1)]; lia. Qed.
Lemma elem_nodes l xs n : n ∈ nodes l xs <-> n = l \/ n = l + 8 \/ n ∈ xs.
Proof. unfold nodes. rewrite elem_of_cons, elem_of_app, list_elem_of_singleton. tauto. Qed.
Record buckets_hold (h : heap) (b : Z) (ls : list (list Z)) : Prop := BucketsHold {
  bh_nodup : NoDup (concat ls);
  bh_rep i xs : ls !! i = Some xs -> rep h (head_of b i) xs;
  bh_out x : x ∈ concat ls -> x ∉ region b (zlen ls) }.

Section hold.
Context (h : heap) (b : Z) (ls : list (list Z)) (Hb : buckets_hold h b ls).
Lemma bh_index i xs : ls !! i = Some xs -> Z.of_nat i < zlen ls.
Proof. intros E%lookup_lt_Some. unfold zlen. lia. Qed.
Lemma bh_nodes i xs q : ls !! i = Some xs -> q ∈ nodes (head_of b i) xs -> q ∈ region b (zlen ls) \/ q ∈ concat ls.
Proof.
  intros E Hq%elem_nodes. destruct (head_region b i (zlen ls) (bh_index _ _ E)). destruct Hq as [->|[->|?]]; [by left..|].
  right. apply elem_concat. by exists i, xs.
Qed.
Lemma bh_apart i j xs ys q : ls !! i = Some xs -> ls !! j = Some ys -> i <> j -> q ∈ nodes (head_of b i) xs -> q ∉ nodes (head_of b j) ys.
Proof.
  intros Ei Ej Hne Hi Hj. pose proof (head_region b i (zlen ls) (bh_index _ _ Ei)) as [Ri1 Ri2]. pose proof (head_region b j (zlen ls) (bh_index _ _ Ej)) as [Rj1 Rj2].
  rewrite elem_nodes in Hi, Hj.
  assert (Hx : forall k zs x, ls !! k = Some zs -> x ∈ zs -> x ∉ region b (zlen ls)) by (intros k zs x Ek Hx; apply (bh_out _ _ _ Hb), elem_concat; by exists k, zs).
  destruct (decide (q ∈ xs)) as [Hqx|Hqx], (decide (q ∈ ys)) as [Hqy|Hqy].
  - pose proof (bh_nodup _ _ _ Hb) as Hn. rewrite (concat_delete ls i xs Ei) in Hn. apply list.NoDup_app in Hn as (_ & Hn & _).
    apply (Hn q Hqx). by eapply elem_concat_delete.
  - apply (Hx i xs q Ei Hqx). destruct Hj as [->|[->|?]]; done.
  - apply (Hx j ys q Ej Hqy). destruct Hi as [->|[->|?]]; done.
  - unfold head_of in *. destruct Hi as [Hi|[Hi|?]], Hj as [Hj|[Hj|?]]; try done; lia.
Qed.
Lemma bh_frame h' : (forall q, q ∈ region b (zlen ls) \/ q ∈ concat ls -> h' !! q = h !! q) -> buckets_hold h' b ls.
Proof.
  intros Hf. split; [apply Hb| |apply Hb]. intros i xs E. eapply rep_frame; [|by apply (bh_rep _ _ _ Hb)].
  intros q Hq. apply Hf. by eapply bh_nodes.
Qed.
Lemma bh_update h' i xs ys : ls !! i = Some xs -> rep h' (head_of b i) ys -> NoDup (ys ++ concat (delete i ls)) ->
  (forall y, y ∈ ys -> y ∉ region b (zlen ls)) -> (forall q, q ∉ nodes (head_of b i) xs -> q ∉ ys -> h' !! q = h !! q) ->
  buckets_hold h' b (<[i := ys]> ls).
Proof.
  intros Ei Hr Hn Hout Hs. pose proof (lookup_lt_Some _ _ _ Ei) as Hlt. split.
  - by rewrite (concat_insert ls i xs ys Ei).
  - intros j zs Ej. destruct (decide (i = j)) as [<-|Hne].
    + rewrite list_lookup_insert_eq in Ej by done. by injection Ej as <-.
    + rewrite list_lookup_insert_ne in Ej by done. eapply rep_frame; [|by apply (bh_rep _ _ _ Hb)].
      intros q Hq. apply Hs; [by eapply bh_apart; [exact Ej|exact Ei|done|]|]. intros Hy.
      pose proof (bh_nodes _ _ _ Ej Hq) as [?|_]; [by eapply Hout|]. apply elem_nodes in Hq.
      destruct (head_region b j (zlen ls) (bh_index _ _ Ej)). destruct Hq as [->|[->|Hq]]; [by eapply Hout..|].
      apply list.NoDup_app in Hn as (_ & Hd & _). apply (Hd q Hy). by eapply elem_concat_delete.
  - intros x. rewrite zlen_insert, (concat_insert ls i xs ys Ei), elem_of_app. intros [?|Hx]; [by apply Hout|].
    apply (bh_out _ _ _ Hb). rewrite (concat_delete ls i xs Ei), elem_of_app. by right.
Qed.
End hold.

(** ** Rounding down to a power of two *)
Lemma land_le_r a b : 0 <= a -> 0 <= b -> 0 <= Z.land a b <= b.
Proof.
  intros Ha Hb. split; [apply Z.land_nonneg; lia|]. rewrite <- (Z2N.id a), <- (Z2N.id b), <- N2Z.inj_land by done.
  apply N2Z.inj_le, N.land_le_r.
Qed.
Lemma land_pred_even m : 0 < m -> Z.land (2 * m) (2 * m - 1) = 2 * Z.land m (m - 1).
Proof.
  intros Hm. apply Z.bits_inj'. intros k Hk. rewrite Z.land_spec. replace (2 * m - 1) with (2 * (m - 1) + 1) by lia.
  destruct (Z.eq_dec k 0) as [->|Hk0].
  - by rewrite !Z.testbit_even_0.
  - replace k with (Z.succ (k - 1)) by lia. rewrite Z.testbit_odd_succ, !Z.testbit_even_succ, Z.land_spec by lia. done.
Qed.
Lemma land_pred_odd m : 0 <= m -> Z.land (2 * m + 1) (2 * m + 1 - 1) = 2 * m.
Proof.
  intros Hm. replace (2 * m + 1 - 1) with (2 * m) by lia. apply Z.bits_inj'. intros k Hk. rewrite Z.land_spec.
  destruct (Z.eq_dec k 0) as [->|Hk0].
  - rewrite !Z.testbit_even_0. by rewrite andb_false_r.
  - replace k with (Z.succ (k - 1)) by lia. rewrite Z.testbit_odd_succ, !Z.testbit_even_succ by lia. apply andb_diag.
Qed.
Definition turn_body (n : Z) : res (Z + Z) := if is_power_of_2 n then mret (inr n) else mret (inl (turn_off_least_1bit n)).
Lemma turn_off_eq n : 0 < n < 2 ^ 32 -> turn_off_least_1bit n = Z.land n (n - 1).
Proof. intros Hn. unfold turn_off_least_1bit. rewrite u32_small; [done|unfold is_u32; lia]. Qed.
Lemma turn_body_even m : 0 < m < 2 ^ 31 -> turn_body (2 * m) =
  match turn_body m with Ok (inl x) => Ok (inl (2 * x)) | Ok (inr x) => Ok (inr (2 * x)) | r => r end.
Proof.
  intros Hm. unfold turn_body, is_power_of_2. rewrite !turn_off_eq, land_pred_even by lia.
  rewrite (proj2 (Z.eqb_neq (2 * m) 0)), (proj2 (Z.eqb_neq m 0)) by lia. cbn [negb andb].
  destruct (Z.eqb_spec (Z.land m (m - 1)) 0) as [->|Hne]; [done|]. by rewrite (proj2 (Z.eqb_neq _ 0)) by lia.
Qed.
Lemma turn_next m x : 0 < m < 2 ^ 32 -> turn_body m = Ok (inl x) -> 0 < x < m.
Proof.
  intros Hm. unfold turn_body. destruct (is_power_of_2 m) eqn:E; [done|]. intros [= <-]. rewrite turn_off_eq by done.
  unfold is_power_of_2 in E. rewrite turn_off_eq, (proj2 (Z.eqb_neq m 0)) in E by lia. cbn in E. apply Z.eqb_neq in E.
  assert (0 <= Z.land m (m - 1)) by (apply Z.land_nonneg; lia). split; [lia|].
  pose proof (land_le_r m (m - 1)). lia.
Qed.
Lemma round_even fuel m : 0 < m < 2 ^ 31 -> loop fuel turn_body (2 * m) = (fun x => 2 * x) <$> loop fuel turn_body m.
Proof.
  revert m. induction fuel as [|fuel IH]; intros m Hm; [done|]. unfold loop; fold (@loop Z Z). rewrite turn_body_even by done.
  destruct (turn_body m) as [[x|x]| | |] eqn:E; try done. apply IH. apply turn_next in E; lia.
Qed.
Lemma round_log2 k : forall n, (k <= 32)%nat -> 0 < n < 2 ^ Z.of_nat k -> forall fuel, (k <= fuel)%nat -> loop fuel turn_body n = Ok (2 ^ Z.log2 n).
Proof.
  induction k as [|k IH]; intros n Hk Hn fuel Hf; [cbn in Hn; lia|].
  assert (Hp : 2 ^ Z.of_nat (S k) = 2 * 2 ^ Z.of_nat k) by (rewrite Nat2Z.inj_succ, Z.pow_succ_r; lia).
  assert (Hp2 : 2 ^ Z.of_nat k <= 2 ^ 31) by (apply Z.pow_le_mono_r; lia).
  pose proof (Z.div_mod n 2 ltac:(lia)) as Hdm. pose proof (Z.mod_pos_bound n 2 ltac:(lia)). set (m := n / 2) in *.
  assert (Heven : forall fuel, (k <= fuel)%nat -> 0 < m -> loop fuel turn_body (2 * m) = Ok (2 ^ Z.log2 (2 * m))).
  { intros f Hf' Hm. rewrite round_even, IH by lia. cbn. rewrite Z.log2_double by lia. f_equal. rewrite Z.pow_succ_r; [lia|apply Z.log2_nonneg]. }
  assert (Hn01 : n mod 2 = 0 \/ n mod 2 = 1) by lia. destruct Hn01 as [E|E].
  - replace n with (2 * m) by lia. apply Heven; lia.
  - destruct (Z.eq_dec m 0) as [Em|Em].
    + replace n with 1 by lia. destruct fuel; [lia|]. reflexivity.
    + destruct fuel as [|fuel]; [lia|]. unfold loop; fold (@loop Z Z). unfold turn_body at 1, is_power_of_2. rewrite turn_off_eq by lia.
      replace n with (2 * m + 1) by lia. rewrite land_pred_odd, (proj2 (Z.eqb_neq (2 * m + 1) 0)), (proj2 (Z.eqb_neq (2 * m) 0)) by lia. cbn [negb andb mret res_ret].
      rewrite Heven by lia. f_equal. f_equal. rewrite Z.log2_double, Z.log2_succ_double by lia. done.
Qed.
(** The rounding stops and gives the largest power of two that fits. *)
Lemma round_loop_spec n : 0 < n < 2 ^ 32 -> round_loop n = Ok (2 ^ Z.log2 n).
Proof. intros Hn. apply (round_log2 32); lia. Qed.
Lemma round_bound n : 0 < n -> 0 < 2 ^ Z.log2 n <= n.
Proof. intros Hn. pose proof (Z.log2_spec n Hn). split; [apply Z.pow_pos_nonneg; [lia|apply Z.log2_nonneg]|lia]. Qed.

(** ** The map a table implements *)
(** What [malloc] promises the table: memory that is not in use. *)
Class fresh_answers (answer : gmap Z list_elem -> Z -> Z) : Prop :=
  answer_fresh h n : 0 < n < 2 ^ 28 -> answer h (16 * n) <> NULL ->
    0 < answer h (16 * n) /\ forall q, q ∈ region (answer h (16 * n)) n -> h !! q = None.
(** What the table relies on in its caller's functions: elements are the same to [less]
    exactly when they have the same key, and the hash is one of the key. *)
Class keyed {K : Type} `{EqDecision K} (key : Z -> K) (hash : Z -> Z) (less : Z -> Z -> bool) : Prop := Keyed {
  keyed_less a b : negb (less a b) && negb (less b a) = bool_decide (key a = key b);
  keyed_hash a b : key a = key b -> hash a = hash b;
  keyed_pos a : 0 <= hash a }.

Section spec.
Context {K : Type} `{Countable K} (key : Z -> K) (hash : Z -> Z) (less : Z -> Z -> bool) (answer : gmap Z list_elem -> Z -> Z).
Context `{!fresh_answers answer} `{!keyed key hash less}.

Definition bucket_of (n e : Z) : nat := Z.to_nat (Z.land (hash e) (n - 1)).
(** The elements [ls] are in the buckets their hash says. *)
Definition placed (ls : list (list Z)) : Prop := forall i xs x, ls !! i = Some xs -> x ∈ xs -> bucket_of (zlen ls) x = i.
Definition holds_map (A : gmap K Z) (xs : list Z) : Prop := forall k x, A !! k = Some x <-> x ∈ xs /\ key x = k.
(** [U] are the elements the client may put in: list elements outside the bucket array. *)
Definition usable (U : gset Z) (h : heap) (b n : Z) : Prop :=
  forall u, u ∈ U -> u <> NULL /\ is_Some (h !! u) /\ u ∉ region b n.
Record table_is (U : gset Z) (A : gmap K Z) (s : hstate) : Prop := TableIs {
  ti_ls : exists ls, buckets_hold (links s) (buckets (tab s)) ls /\ placed ls /\ bucket_cnt (tab s) = zlen ls /\
    0 < zlen ls < 2 ^ 28 /\ holds_map A (concat ls) /\ elem_cnt (tab s) = zlen (concat ls) /\ forall x, x ∈ concat ls -> x ∈ U;
  ti_use : usable U (links s) (buckets (tab s)) (bucket_cnt (tab s));
  ti_size : Z.of_nat (size U) < 2 ^ 28 }.

Lemma in_list_spec {A} (f : HM A) s (Q : A -> hstate -> Prop) :
  mwp f (links s) (fun a l => Q a (HState (tab s) l)) -> mwp (in_list f) s Q.
Proof. unfold mwp, in_list. by destruct (f (links s)) as [[a l]| | |]. Qed.
Lemma bucket_lt n e : 0 < n -> (Z.of_nat (bucket_of n e) < n).
Proof. intros Hn. unfold bucket_of. pose proof (land_le_r (hash e) (n - 1) (keyed_pos e)). lia. Qed.
Lemma find_bucket_spec s e (Q : Z -> hstate -> Prop) : 0 < bucket_cnt (tab s) < 2 ^ 28 ->
  Q (head_of (buckets (tab s)) (bucket_of (bucket_cnt (tab s)) e)) s -> mwp (find_bucket hash e) s Q.
Proof.
  intros Hn HQ. unfold find_bucket. wp_step. wp_step. cbv zeta. wp_step. rewrite u32_small by (unfold is_u32; lia).
  unfold head_of, bucket_of in HQ. rewrite Z2Nat.id in HQ by (apply (land_le_r (hash e)); [apply keyed_pos|lia]). exact HQ.
Qed.
(** The first element of a bucket with the key wanted. *)
Definition first_of (e : Z) (xs : list Z) : option Z := find (fun x => bool_decide (key x = key e)) xs.
Lemma find_elem_spec s l xs e (Q : Z -> hstate -> Prop) : rep (links s) l xs -> Q (default NULL (first_of e xs)) s -> mwp (find_elem less l e) s Q.
Proof.
  intros Hr HQ. unfold find_elem. apply in_list_spec. wp_step. eapply list_begin_spec; [exact Hr|]. wp_step. unfold walk_fuel. wp_step.
  eapply (walk_loop (links s) xs (fun i ys zs => i = hd (l + 8) zs /\ first_of e xs = first_of e zs)) with (ys := []) (zs := xs); [|done|done|pose proof (rep_size _ _ _ Hr); lia].
  intros i ys zs E [-> Ef]. unfold find_body. wp_step. eapply list_end_spec; [exact Hr|].
  rewrite (at_end _ _ _ Hr ys zs E). destruct zs as [|z zs]; cbn [hd].
  - rewrite bool_decide_eq_true_2 by done. wp_step. rewrite Ef in HQ. cbn in HQ. by destruct s.
  - rewrite bool_decide_eq_false_2, keyed_less by done. unfold first_of in Ef at 2. cbn [find] in Ef.
      case_bool_decide as Ek.
    + wp_step. rewrite Ef in HQ. by destruct s.
    + wp_step. eapply list_next_walk; [exact Hr|exact E|]. wp_step. split; [done|]. by exists z, zs.
Qed.

Lemma contents_size (U : gset Z) (xs : list Z) : NoDup xs -> (forall x, x ∈ xs -> x ∈ U) -> zlen xs <= Z.of_nat (size U).
Proof.
  intros Hn Hx. unfold zlen. rewrite <- (size_list_to_set (C:=gset Z)) by done. apply Nat2Z.inj_le, subseteq_size.
  intros x Hi. apply Hx. by apply elem_of_list_to_set in Hi.
Qed.
Section one_bucket.
Context (U : gset Z) (A : gmap K Z) (s : hstate) (ls : list (list Z)).
Let b := buckets (tab s).
Let n := bucket_cnt (tab s).
Context (Hb : buckets_hold (links s) b ls) (Hp : placed ls) (Hn : n = zlen ls) (Hn0 : 0 < zlen ls < 2 ^ 28).
Context (HA : holds_map A (concat ls)) (Hc : elem_cnt (tab s) = zlen (concat ls)) (HU : forall x, x ∈ concat ls -> x ∈ U).
Context (Huse : usable U (links s) b n) (Hsz : Z.of_nat (size U) < 2 ^ 28).
Lemma own_bucket e : exists xs, ls !! bucket_of n e = Some xs.
Proof. apply lookup_lt_is_Some. pose proof (bucket_lt n e ltac:(lia)). unfold zlen in *. lia. Qed.
Lemma first_lookup e xs : ls !! bucket_of n e = Some xs -> first_of e xs = A !! key e.
Proof.
  intros E. unfold first_of. destruct (find _ xs) as [x|] eqn:Ef.
  - apply find_some in Ef as [Hx Hk%bool_decide_eq_true]. symmetry. apply HA. split; [|done]. apply elem_concat.
    exists (bucket_of n e), xs. split; [done|]. by apply list_elem_of_In.
  - destruct (A !! key e) as [x|] eqn:Ea; [|done]. apply HA in Ea as [(j & ys & Ej & Hx)%elem_concat Hk]. exfalso.
    assert (j = bucket_of n e) as ->.
    { rewrite <- (Hp j ys x Ej Hx), <- Hn. unfold bucket_of. by rewrite (keyed_hash x e Hk). }
    assert (ys = xs) as -> by congruence. apply list_elem_of_In, (find_none _ _ Ef) in Hx.
    by apply bool_decide_eq_false in Hx.
Qed.
Lemma present_key x : x ∈ concat ls -> A !! key x = Some x.
Proof. intros Hx. by apply HA. Qed.
(** One bucket changes from [xs] to [ys]; [x] comes or goes. *)
Lemma bucket_change A' i xs ys links' cnt : ls !! i = Some xs -> rep links' (head_of b i) ys ->
  NoDup (ys ++ concat (delete i ls)) -> (forall y, y ∈ ys -> y ∈ U /\ bucket_of n y = i) ->
  (forall q, q ∉ nodes (head_of b i) xs -> q ∉ ys -> links' !! q = links s !! q) -> (forall q, is_Some (links s !! q) -> is_Some (links' !! q)) ->
  holds_map A' (ys ++ concat (delete i ls)) -> cnt = zlen (ys ++ concat (delete i ls)) ->
  table_is U A' (HState (Hash cnt n b) links').
Proof.
  intros Ei Hr Hnd Hys Hs Hm HA' Hcnt. split; [exists (<[i := ys]> ls)|unfold usable; cbn|done]; cbn [links tab buckets bucket_cnt elem_cnt].
  - split; [|split; [|split; [|split; [|split; [|split]]]]].
    + eapply bh_update; [exact Hb|exact Ei|done|done| |done]. intros y Hy. rewrite <- Hn. by apply Huse, Hys.
    + intros j zs x. rewrite zlen_insert, <- Hn. intros Ej Hx. destruct (decide (i = j)) as [<-|Hne].
      * rewrite list_lookup_insert_eq in Ej by (by eapply lookup_lt_Some). injection Ej as <-. by apply Hys.
      * rewrite list_lookup_insert_ne in Ej by done. rewrite Hn. by eapply Hp.
    + by rewrite zlen_insert.
    + by rewrite zlen_insert.
    + intros k x. rewrite (concat_insert ls i xs ys Ei). apply HA'.
    + rewrite Hcnt. unfold zlen. by rewrite (concat_insert ls i xs ys Ei).
    + intros x. rewrite (concat_insert ls i xs ys Ei), elem_of_app. intros [?|Hx]; [by apply Hys|]. apply HU.
      rewrite (concat_delete ls i xs Ei), elem_of_app. by right.
  - intros u Hu. destruct (Huse u Hu) as (? & ? & ?). split; [done|]. split; [by apply Hm|done].
Qed.
Lemma insert_elem_spec e (Q : unit -> hstate -> Prop) : e ∈ U -> A !! key e = None ->
  (forall s', table_is U (<[key e := e]> A) s' -> Q tt s') -> mwp (insert_elem (head_of b (bucket_of n e)) e) s Q.
Proof.
  intros He Hnone HQ. destruct (own_bucket e) as [xs E]. destruct (Huse e He) as (He0 & Hem & Her). unfold insert_elem. wp_step. wp_step. apply in_list_spec.
  cbn [links set_tab tab elem_cnt bucket_cnt buckets]. pose proof (concat_delete ls _ xs E) as Hperm.
  assert (Hnc : e ∉ concat ls) by (intros ?%present_key; congruence).
  eapply (list_push_front_spec _ _ xs); [by apply (bh_rep _ _ _ Hb)|done|done| |].
  { intros Hin. destruct (bh_nodes _ _ _ _ _ E Hin) as [H1|H1]; [by rewrite <- Hn in H1|done]. }
  intros l' Hr' Hs'. apply HQ. pose proof (bh_nodup _ _ _ Hb) as Hnd. rewrite Hperm in Hnd, Hnc.
  pose proof (contents_size U (concat ls) (bh_nodup _ _ _ Hb) HU) as Hsize.
  eapply (bucket_change _ (bucket_of n e) xs (e :: xs)); [exact E|exact Hr'| | | | | |].
  - cbn. by apply list.NoDup_cons.
  - intros y [->|Hy]%elem_of_cons; [done|]. split; [apply HU, elem_concat; by exists (bucket_of n e), xs|]. pose proof (Hp _ xs y E Hy) as Hq. by rewrite <- Hn in Hq.
  - intros q Hq1 Hq2. apply Hs'. rewrite elem_of_cons in *. tauto.
  - intros q. eapply same_but_mapped; [exact Hs'|exact Hr'|]. intros x. rewrite elem_of_cons, !elem_nodes, elem_of_cons. tauto.
  - intros k x. cbn. rewrite elem_of_cons, lookup_insert_Some, <- Hperm, (HA k x). split.
    + intros [[<- <-]|[? [? ?]]]; [split; [by left|done]|split; [by right|done]].
    + intros [[->|?] <-]; [by left|]. right. split; [|done]. intros Hk. rewrite Hk in Hnone. by rewrite present_key in Hnone.
  - cbn [app]. rewrite Hc. rewrite Hperm in *. unfold zlen in *. cbn [length]. rewrite u32_small; [lia|]. unfold is_u32. lia.
Qed.
Lemma remove_elem_spec x (Q : unit -> hstate -> Prop) : A !! key x = Some x ->
  (forall s', table_is U (delete (key x) A) s' -> buckets (tab s') = b -> bucket_cnt (tab s') = n -> Q tt s') -> mwp (remove_elem x) s Q.
Proof.
  intros Hx HQ. pose proof Hx as [(i & xs & E & Hin)%elem_concat _]%HA. apply list_elem_of_split in Hin as (ys & zs & ->).
  unfold remove_elem. wp_step. wp_step. wp_step. apply in_list_spec. cbn [links set_tab tab elem_cnt bucket_cnt buckets].
  pose proof (concat_delete ls _ _ E) as Hperm. pose proof (bh_nodup _ _ _ Hb) as Hnd. rewrite Hperm in Hnd.
  eapply list_remove_spec; [by apply (bh_rep _ _ _ Hb)|]. intros l' Hr' Hs'. wp_step.
  assert (Hmid : (ys ++ x :: zs) ++ concat (delete i ls) ≡ₚ x :: (ys ++ zs) ++ concat (delete i ls)) by (by rewrite <- Permutation_middle).
  rewrite Hmid in Hnd, Hperm. pose proof (contents_size U (concat ls) (bh_nodup _ _ _ Hb) HU) as Hsize.
  apply list.NoDup_cons in Hnd as [Hnx Hnd]. apply HQ; [|done|done].
  eapply (bucket_change _ i (ys ++ x :: zs) (ys ++ zs)); [exact E|exact Hr'|done| | | | |].
  - intros y Hy. assert (Hy' : y ∈ ys ++ x :: zs) by (rewrite elem_of_app, elem_of_cons in *; tauto).
    split; [apply HU, elem_concat; by exists i, (ys ++ x :: zs)|]. pose proof (Hp _ _ y E Hy') as Hq. by rewrite <- Hn in Hq.
  - intros q Hq1 Hq2. apply Hs'. rewrite elem_nodes in *. rewrite elem_of_app, elem_of_cons in *. tauto.
  - intros q. eapply same_but_mapped; [exact Hs'|exact Hr'|done].
  - intros k y. rewrite lookup_delete_Some, (HA k y), Hperm, elem_of_cons. split.
    + intros (Hk & [->|?] & ?); done.
    + intros [Hy Hk]. split; [|split; [by right|done]]. intros Hkk. assert (A !! key x = Some y) as Hxy.
      { rewrite Hkk, <- Hk. apply present_key. rewrite Hperm. by right. }
      assert (x = y) by congruence. by subst y.
  - rewrite Hc. rewrite Hperm in *. unfold zlen in *. cbn [length] in *. rewrite u32_small; [lia|]. unfold is_u32. lia.
Qed.
End one_bucket.

(** ** Memory for buckets *)
Lemma map_region_in p n h q : q ∈ region p n -> is_Some (map_region p n h !! q).
Proof.
  unfold map_region. induction (region p n) as [|r rs IH]; [by intros ?%not_elem_of_nil|]. cbn. intros Hq.
  destruct (decide (q = r)) as [->|Hne]; [rewrite lookup_insert_eq; by eexists|]. rewrite lookup_insert_ne by done.
  apply IH. apply elem_of_cons in Hq as [?|?]; done.
Qed.
Lemma map_region_out p n h q : q ∉ region p n -> map_region p n h !! q = h !! q.
Proof.
  unfold map_region. induction (region p n) as [|r rs IH]; [done|]. cbn. rewrite elem_of_cons. intros Hq.
  rewrite lookup_insert_ne by naive_solver. apply IH. tauto.
Qed.
Lemma unmap_region_out p n h q : q ∉ region p n -> unmap_region p n h !! q = h !! q.
Proof.
  unfold unmap_region. induction (region p n) as [|r rs IH]; [done|]. cbn. rewrite elem_of_cons. intros Hq.
  rewrite lookup_delete_ne by naive_solver. apply IH. tauto.
Qed.
Lemma malloc_buckets_spec n s (Q : Z -> hstate -> Prop) : 0 < n < 2 ^ 28 ->
  (answer (links s) (16 * n) = NULL -> Q NULL s) ->
  (forall p, 0 < p -> (forall q, q ∈ region p n -> links s !! q = None) -> Q p (HState (tab s) (map_region p n (links s)))) ->
  mwp (malloc_buckets answer n) s Q.
Proof.
  intros Hn HQ0 HQ. unfold mwp, malloc_buckets. rewrite u32_small by (unfold is_u32, sizeof_list; lia). unfold sizeof_list.
  destruct (Z.eqb_spec (answer (links s) (16 * n)) NULL) as [E|Hne]; [rewrite E in *; by apply HQ0|].
  destruct (answer_fresh (links s) n Hn Hne). by apply HQ.
Qed.
(** The heads from the [i]th on are initialised. *)
Lemma init_buckets_spec p n i s (Q : unit -> hstate -> Prop) : 0 < p -> (forall q, q ∈ region p (Z.of_nat (i + n)) -> is_Some (links s !! q)) ->
  (forall j, (j < i)%nat -> rep (links s) (head_of p j) []) ->
  (forall l', (forall j, (j < i + n)%nat -> rep l' (head_of p j) []) -> (forall q, q ∉ region p (Z.of_nat (i + n)) -> l' !! q = links s !! q) ->
    Q tt (HState (tab s) l')) -> mwp (init_buckets p n (Z.of_nat i)) s Q.
Proof.
  revert i s. induction n as [|n IH]; intros i s Hp Hm Hr HQ; cbn [init_buckets].
  { wp_step. destruct s as [t l]. apply (HQ l); [|done]. intros j Hj. apply Hr. lia. }
  destruct (head_region p i (Z.of_nat (i + S n)) ltac:(lia)) as [H1 H2]. wp_step. apply in_list_spec.
  change (p + sizeof_list * Z.of_nat i) with (head_of p i).
  apply list_init_spec; [by apply Hm|by apply Hm|unfold head_of, NULL; lia|unfold head_of, NULL; lia|]. intros l1 Hr1 Hs1.
  replace (Z.of_nat i + 1) with (Z.of_nat (S i)) by lia. replace (i + S n)%nat with (S i + n)%nat in * by lia. apply IH; [done| | |].
  - intros q Hq. cbn. eapply same_but_mapped; [exact Hs1|exact Hr1|done|by apply Hm].
  - intros j Hj. cbn. destruct (decide (j = i)) as [->|Hne]; [done|]. eapply rep_frame; [|apply Hr; lia].
    intros q Hq%elem_nodes. apply Hs1. rewrite !elem_of_cons, elem_of_nil. unfold head_of in *. rewrite elem_of_nil in Hq. lia.
  - intros l' Hr' Hs'. apply HQ; [done|]. intros q Hq. rewrite Hs' by done. cbn. apply Hs1.
    rewrite !elem_of_cons, elem_of_nil. intros [->|[->|?]]; done.
Qed.
Lemma empty_hold h p n : (forall j, (j < n)%nat -> rep h (head_of p j) []) -> buckets_hold h p (replicate n []).
Proof.
  intros Hr. split; rewrite ?concat_replicate_nil.
  - by apply list.NoDup_nil.
  - intros i xs [-> Hi]%lookup_replicate. by apply Hr.
  - by intros x ?%not_elem_of_nil.
Qed.

(** ** Moving elements to new buckets *)
Section moving.
Context (U : gset Z) (b b' : Z) (m m' : Z) (X : list Z).
(** The old buckets [ls] and the new ones [ls'] hold the elements [X]. *)
Record moving (h : heap) (ls ls' : list (list Z)) : Prop := Moving {
  mv_len : zlen ls = m /\ zlen ls' = m';
  mv_old : buckets_hold h b ls;
  mv_new : buckets_hold h b' ls';
  mv_all : concat ls ++ concat ls' ≡ₚ X;
  mv_regions q : q ∈ region b m -> q ∉ region b' m';
  mv_use : usable U h b m /\ usable U h b' m';
  mv_placed : placed ls' }.
Context (Hm' : 0 < m' < 2 ^ 28) (HX : NoDup X) (HXU : forall x, x ∈ X -> x ∈ U).
Lemma mv_elem h ls ls' x : moving h ls ls' -> x ∈ concat ls \/ x ∈ concat ls' -> x ∈ U /\ x ∉ region b m /\ x ∉ region b' m' /\ x <> NULL /\ is_Some (h !! x).
Proof.
  intros Hmv Hx. assert (HxU : x ∈ U) by (apply HXU; rewrite <- (mv_all _ _ _ Hmv), elem_of_app; tauto).
  destruct (mv_use _ _ _ Hmv) as [H1 H2]. destruct (H1 x HxU) as (? & ? & ?), (H2 x HxU) as (_ & _ & ?). done.
Qed.
Lemma mv_disjoint h ls ls' x : moving h ls ls' -> x ∈ concat ls -> x ∉ concat ls'.
Proof. intros Hmv. pose proof HX as Hn. rewrite <- (mv_all _ _ _ Hmv) in Hn. apply list.NoDup_app in Hn as (_ & Hn & _). apply Hn. Qed.
Lemma usable_mono h h' c k : usable U h c k -> (forall q, is_Some (h !! q) -> is_Some (h' !! q)) -> usable U h' c k.
Proof. intros Hu Hh u Hin. destruct (Hu u Hin) as (? & ? & ?). split; [done|]. split; [by apply Hh|done]. Qed.
Lemma mv_step h ls ls' i x rest j ys h1 h2 : moving h ls ls' -> ls !! i = Some (x :: rest) -> ls' !! j = Some ys -> bucket_of m' x = j ->
  rep h1 (head_of b i) rest -> same_but h (nodes (head_of b i) rest) h1 ->
  rep h2 (head_of b' j) (x :: ys) -> same_but h1 (x :: nodes (head_of b' j) ys) h2 ->
  moving h2 (<[i := rest]> ls) (<[j := x :: ys]> ls').
Proof.
  intros Hmv Ei Ej Hj Hr1 Hs1 Hr2 Hs2. destruct (mv_len _ _ _ Hmv) as [Hl Hl'].
  pose proof (concat_delete ls i _ Ei) as Hperm. pose proof (concat_delete ls' j _ Ej) as Hperm'. cbn [app] in Hperm.
  assert (Hx : x ∈ concat ls) by (rewrite Hperm; by left). pose proof (mv_disjoint _ _ _ _ Hmv Hx) as Hx'.
  destruct (mv_elem _ _ _ _ Hmv (or_introl Hx)) as (HxU & Hxb & Hxb' & Hx0 & Hxm).
  pose proof (bh_nodup _ _ _ (mv_old _ _ _ Hmv)) as Hnd. rewrite Hperm in Hnd. apply list.NoDup_cons in Hnd as [Hxr Hnd].
  assert (Hold1 : buckets_hold h1 b (<[i := rest]> ls)).
  { eapply bh_update; [apply (mv_old _ _ _ Hmv)|exact Ei|done|exact Hnd| |].
    - intros y Hy. rewrite Hl. apply (mv_elem _ _ _ y Hmv). left. rewrite Hperm. right. rewrite elem_of_app. by left.
    - intros q Hq1 _. apply Hs1. rewrite elem_nodes in *. rewrite elem_of_cons in Hq1. tauto. }
  assert (Hnew1 : buckets_hold h1 b' ls').
  { eapply bh_frame; [apply (mv_new _ _ _ Hmv)|]. rewrite Hl'. intros q Hq. apply Hs1. intros Hq1.
    assert (Hq2 : q ∈ nodes (head_of b i) (x :: rest)) by (rewrite elem_nodes in *; rewrite elem_of_cons; tauto).
    apply (bh_nodes _ _ _ _ _ Ei) in Hq2. rewrite Hl in Hq2. destruct Hq2 as [Hq2|Hq2], Hq as [Hq|Hq].
    - by apply (mv_regions _ _ _ Hmv q Hq2).
    - by destruct (mv_elem _ _ _ q Hmv (or_intror Hq)) as (_ & ? & _).
    - by destruct (mv_elem _ _ _ q Hmv (or_introl Hq2)) as (_ & _ & ? & _).
    - by apply (mv_disjoint _ _ _ q Hmv Hq2). }
  assert (Hold2 : concat (<[i := rest]> ls) ≡ₚ rest ++ concat (delete i ls)) by (by eapply concat_insert).
  assert (Hmap : forall q, is_Some (h !! q) -> is_Some (h2 !! q)).
  { intros q Hq. eapply same_but_mapped; [exact Hs2|exact Hr2| |].
    - intros z. rewrite elem_of_cons, !elem_nodes, elem_of_cons. tauto.
    - eapply same_but_mapped; [exact Hs1|exact Hr1|done|done]. }
  split; rewrite ?zlen_insert.
  - done.
  - eapply bh_frame; [exact Hold1|]. rewrite zlen_insert, Hl. intros q Hq. apply Hs2. rewrite elem_of_cons. intros [->|Hq2].
    + destruct Hq as [?|Hq]; [done|]. by rewrite Hold2 in Hq.
    + apply (bh_nodes _ _ _ _ _ Ej) in Hq2. rewrite Hl' in Hq2.
      assert (Hq' : q ∈ region b m \/ q ∈ concat ls) by (rewrite Hperm; rewrite Hold2 in Hq; destruct Hq; [by left|right; by right]).
      destruct Hq2 as [Hq2|Hq2], Hq' as [Hq'|Hq'].
      * by apply (mv_regions _ _ _ Hmv q Hq').
      * by destruct (mv_elem _ _ _ q Hmv (or_introl Hq')) as (_ & _ & ? & _).
      * by destruct (mv_elem _ _ _ q Hmv (or_intror Hq2)) as (_ & ? & _).
      * by apply (mv_disjoint _ _ _ q Hmv Hq').
  - pose proof (bh_nodup _ _ _ (mv_new _ _ _ Hmv)) as Hnd'. rewrite Hperm' in Hnd', Hx'.
    eapply bh_update; [exact Hnew1|exact Ej|done|cbn; by apply list.NoDup_cons| |].
    + rewrite Hl'. intros y [->|Hy]%elem_of_cons; [done|]. apply (mv_elem _ _ _ y Hmv). right. rewrite Hperm', elem_of_app. by left.
    + intros q Hq1 Hq2. apply Hs2. rewrite elem_of_cons in *. tauto.
  - rewrite Hold2, (concat_insert ls' j _ (x :: ys) Ej), <- (mv_all _ _ _ Hmv), Hperm, Hperm'. cbn. by rewrite <- Permutation_middle.
  - apply (mv_regions _ _ _ Hmv).
  - destruct (mv_use _ _ _ Hmv). split; by eapply usable_mono.
  - intros k zs z. rewrite zlen_insert, Hl'. intros Ek Hz. destruct (decide (j = k)) as [<-|Hne].
    + rewrite list_lookup_insert_eq in Ek by (by eapply lookup_lt_Some). injection Ek as <-. apply elem_of_cons in Hz as [->|Hz]; [done|].
      rewrite <- Hl'. by apply (mv_placed _ _ _ Hmv _ ys).
    + rewrite list_lookup_insert_ne in Ek by done. rewrite <- Hl'. by eapply (mv_placed _ _ _ Hmv).
Qed.
Definition moving_tab (s : hstate) : Prop := bucket_cnt (tab s) = m' /\ buckets (tab s) = b'.
Lemma move_loop i rest : forall fuel ls ls' s (Q : unit -> hstate -> Prop), moving_tab s -> moving (links s) ls ls' -> ls !! i = Some rest ->
  (length rest < fuel)%nat ->
  (forall ls'' s', tab s' = tab s -> moving (links s') (<[i := []]> ls) ls'' -> Q tt s') ->
  mwp (mloop fuel (move_body hash (head_of b i)) (hd (head_of b i + 8) rest)) s Q.
Proof.
  induction rest as [|x rest IH]; intros fuel ls ls' s Q Ht Hmv Ei Hf HQ; (destruct fuel as [|fuel]; [cbn in Hf; lia|]); apply mloop_step;
    pose proof (bh_rep _ _ _ (mv_old _ _ _ Hmv) _ _ Ei) as Hr; unfold move_body; wp_step; apply in_list_spec;
    (eapply list_end_spec; [exact Hr|]); rewrite (at_end _ _ _ Hr [] _ eq_refl).
  - rewrite bool_decide_eq_true_2 by done. wp_step. destruct s as [t l]. apply (HQ ls'); [done|]. cbn in *. by rewrite list_insert_id.
  - rewrite bool_decide_eq_false_2 by done. destruct Ht as [Ht1 Ht2]. destruct (mv_len _ _ _ Hmv) as [Hl Hl'].
    wp_step. apply find_bucket_spec; [cbn; lia|]. cbn [tab]. rewrite Ht1, Ht2. set (j := bucket_of m' x).
    assert (Hj : exists ys, ls' !! j = Some ys).
    { apply lookup_lt_is_Some. pose proof (bucket_lt m' x ltac:(lia)). unfold zlen, j in *. lia. }
    destruct Hj as [ys Ej]. cbn [hd].
    wp_step. apply in_list_spec. eapply (list_next_walk _ _ _ Hr [] x rest); [done|].
    wp_step. apply in_list_spec. cbn [links]. eapply (list_remove_spec _ _ []); [exact Hr|]. cbn [app tab]. intros h1 Hr1 Hs1.
    wp_step. apply in_list_spec. cbn [links]. pose proof (bh_rep _ _ _ (mv_new _ _ _ Hmv) _ _ Ej) as Hry.
    assert (Hx : x ∈ concat ls) by (apply elem_concat; exists i, (x :: rest); split; [done|by left]).
    destruct (mv_elem _ _ _ _ Hmv (or_introl Hx)) as (_ & Hxb & Hxb' & Hx0 & Hxm).
    assert (Hry1 : rep h1 (head_of b' j) ys).
    { eapply rep_frame; [|exact Hry]. intros q Hq. apply Hs1. intros Hq1.
      assert (Hq2 : q ∈ nodes (head_of b i) (x :: rest)) by (rewrite elem_nodes in *; rewrite elem_of_cons; tauto).
      apply (bh_nodes _ _ _ _ _ Ei) in Hq2. apply (bh_nodes _ _ _ _ _ Ej) in Hq. rewrite Hl in Hq2. rewrite Hl' in Hq. destruct Hq2 as [Hq2|Hq2], Hq as [Hq|Hq].
      - by apply (mv_regions _ _ _ Hmv q Hq2).
      - by destruct (mv_elem _ _ _ q Hmv (or_intror Hq)) as (_ & ? & _).
      - by destruct (mv_elem _ _ _ q Hmv (or_introl Hq2)) as (_ & _ & ? & _).
      - by apply (mv_disjoint _ _ _ q Hmv Hq2). }
    eapply (list_push_front_spec _ _ ys); [exact Hry1|eapply same_but_mapped; [exact Hs1|exact Hr1|done|done]|done| |].
    { intros Hq%(bh_nodes _ _ _ _ _ Ej). rewrite Hl' in Hq. destruct Hq as [?|Hq]; [done|]. by apply (mv_disjoint _ _ _ x Hmv Hx). }
    intros h2 Hr2 Hs2. wp_step.
    eapply (IH fuel (<[i := rest]> ls)); [done| | |cbn in Hf; lia|].
    + eapply mv_step; [exact Hmv|exact Ei|exact Ej|done|exact Hr1|exact Hs1|exact Hr2|exact Hs2].
    + rewrite list_lookup_insert_eq; [done|by eapply lookup_lt_Some].
    + intros ls2 s' Et Hmv'. rewrite list_insert_insert_eq in Hmv'. by eapply HQ.
Qed.
Lemma move_buckets_spec n : forall i ls ls' s (Q : unit -> hstate -> Prop), moving_tab s -> moving (links s) ls ls' ->
  (i + n = length ls)%nat -> (forall k, (k < i)%nat -> ls !! k = Some []) ->
  (forall ls'' s', tab s' = tab s -> moving (links s') (replicate (length ls) []) ls'' -> Q tt s') ->
  mwp (move_buckets hash b n (Z.of_nat i)) s Q.
Proof.
  induction n as [|n IH]; intros i ls ls' s Q Ht Hmv Hn Hdone HQ; cbn [move_buckets].
  - wp_step. eapply HQ; [done|]. replace (replicate (length ls) []) with ls; [exact Hmv|]. symmetry. apply replicate_as_elem_of.
    split; [done|]. intros xs Hxs. apply list_elem_of_lookup in Hxs as [k Hk]. pose proof (lookup_lt_Some _ _ _ Hk).
    rewrite Hdone in Hk by lia. by injection Hk.
  - change (b + sizeof_list * Z.of_nat i) with (head_of b i). cbv zeta.
    destruct (lookup_lt_is_Some_2 ls i) as [xs Ei]; [lia|]. pose proof (bh_rep _ _ _ (mv_old _ _ _ Hmv) _ _ Ei) as Hr.
    wp_step. apply in_list_spec. eapply list_begin_spec; [exact Hr|]. wp_step. apply in_list_spec. unfold walk_fuel. cbn [links]. wp_step.
    wp_step. eapply (move_loop i xs); [exact Ht|exact Hmv|exact Ei|pose proof (rep_size _ _ _ Hr); lia|].
    intros ls2 s2 Et Hmv2. replace (Z.of_nat i + 1) with (Z.of_nat (S i)) by lia.
    eapply (IH (S i) (<[i := []]> ls)); [by unfold moving_tab; rewrite Et|exact Hmv2|rewrite length_insert; lia| |].
    + intros k Hk. destruct (decide (i = k)) as [->|Hne]; [by rewrite list_lookup_insert_eq by lia|]. rewrite list_lookup_insert_ne by done. apply Hdone. lia.
    + intros ls3 s3 Et3. rewrite length_insert. intros Hmv3. eapply HQ; [|exact Hmv3]. by rewrite Et3.
Qed.
End moving.

Lemma region_mapped h b ls q : buckets_hold h b ls -> q ∈ region b (zlen ls) -> is_Some (h !! q).
Proof.
  intros Hb (j & Hj & ->)%elem_region. destruct (lookup_lt_is_Some_2 ls (Z.to_nat (j / 2))) as [xs E]; [unfold zlen in *; dlia|].
  pose proof (bh_rep _ _ _ Hb _ _ E) as Hr. eapply chain_mapped; [apply (rep_chain _ _ _ Hr)|]. apply elem_nodes. unfold head_of.
  rewrite Z2Nat.id by dlia. assert (j mod 2 = 0 \/ j mod 2 = 1) as [?|?] by dlia; [left|right; left]; dlia.
Qed.
(** The arrays before the first element is moved. *)
Lemma moving_start U h b ls p n l1 : buckets_hold h b ls -> (forall x, x ∈ concat ls -> x ∈ U) -> usable U h b (zlen ls) -> 0 <= n ->
  (forall q, q ∈ region p n -> h !! q = None) -> (forall q, q ∉ region p n -> l1 !! q = h !! q) ->
  (forall j, (j < Z.to_nat n)%nat -> rep l1 (head_of p j) []) -> moving U b p (zlen ls) n (concat ls) l1 ls (replicate (Z.to_nat n) []).
Proof.
  intros Hb HU Huse Hn Hfresh Hout Hr.
  assert (Hmap : forall q, is_Some (h !! q) -> q ∉ region p n) by (intros q [x Hx] Hq; rewrite Hfresh in Hx; done).
  assert (Hreg : forall q, q ∈ region b (zlen ls) -> q ∉ region p n) by (intros q Hq; by eapply Hmap, region_mapped).
  split.
  - split; [done|]. unfold zlen. rewrite length_replicate. lia.
  - eapply bh_frame; [exact Hb|]. intros q [Hq|Hq]; apply Hout; [by apply Hreg|]. by apply Hmap, Huse, HU.
  - by apply empty_hold.
  - rewrite concat_replicate_nil. by rewrite app_nil_r.
  - done.
  - split; intros u Hu; destruct (Huse u Hu) as (? & ? & ?); (split; [done|]); (split; [rewrite Hout; [done|by apply Hmap]|]); [done|by apply Hmap].
  - intros i xs x [-> _]%lookup_replicate. by intros ?%not_elem_of_nil.
Qed.
Lemma rehash_spec U A s (Q : unit -> hstate -> Prop) : table_is U A s -> (forall s', table_is U A s' -> Q tt s') -> mwp (rehash hash answer) s Q.
Proof.
  intros HT HQ. pose proof HT as [(ls & Hb & Hp & Hn & Hn0 & HA & Hc & HU) Huse Hsz]. unfold rehash. wp_step. wp_step. cbv zeta. wp_step. wp_step.
  pose proof (contents_size U (concat ls) (bh_nodup _ _ _ Hb) HU) as Hsize. pose proof (zlen_nonneg (concat ls)).
  set (c := elem_cnt (tab s) / BEST_ELEMS_PER_BUCKET). set (n0 := if c <? 4 then 4 else c).
  assert (Hn0' : 0 < n0 < 2 ^ 28).
  { unfold n0, c, BEST_ELEMS_PER_BUCKET. rewrite Hc. destruct (Z.ltb_spec (zlen (concat ls) / 2) 4); [done|]. clear Hn0. dlia. }
  rewrite round_loop_spec by lia. pose proof (round_bound n0 ltac:(lia)) as Hr. set (n := 2 ^ Z.log2 n0) in *. apply wp_ret.
  destruct (Z.eqb_spec n (bucket_cnt (tab s))) as [_|Hne]; [wp_step; by apply HQ|].
  wp_step. apply malloc_buckets_spec; [lia|intros _; rewrite Z.eqb_refl; wp_step; by apply HQ|].
  intros p Hpp Hfresh. rewrite (proj2 (Z.eqb_neq p NULL)) by (unfold NULL; lia). wp_step.
  apply (init_buckets_spec p (Z.to_nat n) 0); [done| |lia|].
  { intros q Hq. apply map_region_in. by rewrite Nat.add_0_l, Z2Nat.id in Hq by lia. }
  rewrite Nat.add_0_l, Z2Nat.id by lia. cbn [links tab]. intros l1 Hr1 Hs1. wp_step. wp_step. wp_step.
  assert (Hmv : moving U (buckets (tab s)) p (bucket_cnt (tab s)) n (concat ls) l1 ls (replicate (Z.to_nat n) [])).
  { rewrite Hn. apply (moving_start U (links s)); [done|done|by rewrite <- Hn|lia|done| |done].
    intros q Hq. rewrite Hs1 by done. by apply map_region_out. }
  eapply (move_buckets_spec U (buckets (tab s)) p (bucket_cnt (tab s)) n (concat ls) ltac:(lia) (bh_nodup _ _ _ Hb) HU _ 0 ls);
    [done|exact Hmv|rewrite Hn; unfold zlen; lia|lia|].
  intros ls2 s2 Et Hmv2. cbn [set_tab tab elem_cnt] in Et. unfold free_buckets. wp_step. apply HQ.
  destruct (mv_len _ _ _ _ _ _ _ _ _ Hmv2) as [_ Hl2]. pose proof (mv_all _ _ _ _ _ _ _ _ _ Hmv2) as Hall. rewrite concat_replicate_nil in Hall. cbn [app] in Hall.
  destruct (mv_use _ _ _ _ _ _ _ _ _ Hmv2) as [Hu1 Hu2].
  split; cbn [tab links]; rewrite ?Et; cbn [buckets bucket_cnt elem_cnt].
  - exists ls2. split; [|split; [apply (mv_placed _ _ _ _ _ _ _ _ _ Hmv2)|split; [done|split; [lia|split; [|split]]]]].
    + eapply bh_frame; [apply (mv_new _ _ _ _ _ _ _ _ _ Hmv2)|]. intros q Hq. apply unmap_region_out. rewrite Hl2 in Hq.
      destruct Hq as [Hq|Hq]; [intros Hq2; by apply (mv_regions _ _ _ _ _ _ _ _ _ Hmv2 q Hq2)|]. rewrite Hall in Hq. by apply Hu1, HU.
    + intros k x. rewrite Hall. apply HA.
    + by rewrite Hall.
    + intros x. rewrite Hall. apply HU.
  - intros u Hu. destruct (Hu1 u Hu) as (? & ? & ?), (Hu2 u Hu) as (_ & _ & ?). split; [done|]. split; [|done]. by rewrite unmap_region_out.
  - done.
Qed.
End spec.
