(* ===== verification/HashProps.v ===== *)
(** * HashProps: the operations of a hash table as operations on a finite map *)
From S2P Require Import Prelude.
From S2P Require Import CString.
From S2P Require Import KList.
From S2P Require Import Hash.
From S2P Require Import HashSpec.

Section props.
Context {K : Type} `{Countable K} (key : Z -> K) (hash : Z -> Z) (less : Z -> Z -> bool) (answer : gmap Z list_elem -> Z -> Z).
Context `{!fresh_answers answer} `{!keyed key hash less}.
Abbreviation table_is := (table_is key hash).

(** ** The operations *)
Section ops.
Context (U : gset Z) (A : gmap K Z) (s : hstate) (HT : table_is U A s).
Lemma table_cnt : 0 < bucket_cnt (tab s) < 2 ^ 28.
Proof. destruct HT as [(ls & _ & _ & -> & ? & _) _ _]. done. Qed.
Lemma table_find e (Q : Z -> hstate -> Prop) : Q (default NULL (A !! key e)) s ->
  mwp (find_elem less (head_of (buckets (tab s)) (bucket_of hash (bucket_cnt (tab s)) e)) e) s Q.
Proof.
  intros HQ. destruct HT as [(ls & Hb & Hp & Hn & Hn0 & HA & Hc & HU) Huse Hsz].
  destruct (own_bucket key hash less U s ls Hn Hn0 e) as [xs E].
  eapply (find_elem_spec key hash less); [by apply (bh_rep _ _ _ Hb)|].
  by rewrite (first_lookup key hash less A s ls Hp Hn HA e xs E).
Qed.
Lemma table_insert e (Q : unit -> hstate -> Prop) : e ∈ U -> A !! key e = None -> (forall s', table_is U (<[key e := e]> A) s' -> Q tt s') ->
  mwp (insert_elem (head_of (buckets (tab s)) (bucket_of hash (bucket_cnt (tab s)) e)) e) s Q.
Proof.
  intros He Hnone HQ. destruct HT as [(ls & Hb & Hp & Hn & Hn0 & HA & Hc & HU) Huse Hsz].
  by apply (insert_elem_spec key hash less U A s ls).
Qed.
Lemma table_remove x (Q : unit -> hstate -> Prop) : A !! key x = Some x ->
  (forall s', table_is U (delete (key x) A) s' -> buckets (tab s') = buckets (tab s) -> bucket_cnt (tab s') = bucket_cnt (tab s) -> Q tt s') ->
  mwp (remove_elem x) s Q.
Proof.
  intros Hx HQ. destruct HT as [(ls & Hb & Hp & Hn & Hn0 & HA & Hc & HU) Huse Hsz].
  by apply (remove_elem_spec key hash U A s ls).
Qed.
Lemma table_elem k x : A !! k = Some x -> key x = k /\ x ∈ U /\ x <> NULL.
Proof.
  destruct HT as [(ls & Hb & Hp & Hn & Hn0 & HA & Hc & HU) Huse Hsz]. intros [Hx Hk]%HA. split; [done|]. split; [by apply HU|]. by apply Huse, HU.
Qed.
End ops.

Inductive hash_op := Insert (e : Z) | Replace (e : Z) | Find (e : Z) | Delete (e : Z) | Size.
Definition run_op (o : hash_op) : TM Z :=
  match o with
  | Insert e => hash_insert hash less answer e
  | Replace e => hash_replace hash less answer e
  | Find e => hash_find hash less e
  | Delete e => hash_delete hash less answer e
  | Size => hash_size
  end.
Definition op_elem (o : hash_op) : option Z := match o with Insert e | Replace e | Find e | Delete e => Some e | Size => None end.
(** The operations on a map: the element found, or null, and the new map. *)
Definition apply_op (o : hash_op) (A : gmap K Z) : Z * gmap K Z :=
  match o with
  | Insert e => (default NULL (A !! key e), match A !! key e with Some _ => A | None => <[key e := e]> A end)
  | Replace e => (default NULL (A !! key e), <[key e := e]> A)
  | Find e => (default NULL (A !! key e), A)
  | Delete e => (default NULL (A !! key e), delete (key e) A)
  | Size => (Z.of_nat (size A), A)
  end.
Lemma table_size U A s : table_is U A s -> elem_cnt (tab s) = Z.of_nat (size A).
Proof.
  intros [(ls & Hb & Hp & Hn & Hn0 & HA & -> & HU) Huse Hsz]. unfold zlen. f_equal.
  rewrite <- length_map_to_list, <- (length_fmap snd). apply Permutation_length, NoDup_Permutation; [apply Hb| |].
  - apply NoDup_fmap_2_strong; [|apply NoDup_map_to_list]. intros [k x] [k' x'] Hx%elem_of_map_to_list Hx'%elem_of_map_to_list.
    apply HA in Hx as [_ <-], Hx' as [_ <-]. cbn. by intros <-.
  - intros x. rewrite list_elem_of_fmap. split.
    + intros Hx. exists (key x, x). split; [done|]. apply elem_of_map_to_list. by apply HA.
    + intros ([k y] & -> & Hy%elem_of_map_to_list). by apply HA in Hy as [? _].
Qed.
Lemma run_op_spec U A s o (Q : Z -> hstate -> Prop) : table_is U A s -> (forall e, op_elem o = Some e -> e ∈ U) ->
  (forall s', table_is U (apply_op o A).2 s' -> Q (apply_op o A).1 s') -> mwp (run_op o) s Q.
Proof.
  intros HT Ho HQ. pose proof (table_cnt U A s HT) as Hcnt.
  destruct o as [e|e|e|e|]; cbn [run_op apply_op fst snd op_elem] in *; try specialize (Ho e eq_refl).
  - unfold hash_insert. wp_step. apply (find_bucket_spec key hash less); [done|]. wp_step. eapply table_find; [exact HT|]. destruct (A !! key e) as [x|] eqn:E; cbn [from_option id] in *.
    + rewrite (proj2 (Z.eqb_neq x NULL)) by (by eapply table_elem). wp_step. wp_step. wp_step.
      eapply (rehash_spec key hash less answer); [exact HT|]. intros s' HT'. wp_step. by apply HQ.
    + change (NULL =? NULL) with true. wp_step. eapply (table_insert U A s); [done..|]. intros s' HT'.
      wp_step. eapply (rehash_spec key hash less answer); [exact HT'|]. intros s2 HT2. wp_step. by apply HQ.
  - unfold hash_replace. wp_step. apply (find_bucket_spec key hash less); [done|]. wp_step. eapply table_find; [exact HT|]. destruct (A !! key e) as [x|] eqn:E; cbn [from_option id] in *.
    + destruct (table_elem U A s HT _ _ E) as (Hk & HxU & Hx0). rewrite (proj2 (Z.eqb_neq x NULL)) by done. cbn [negb].
      wp_step. eapply (table_remove U A s HT x); [by rewrite Hk|]. intros s' HT' Eb En. rewrite Hk in HT'. wp_step. rewrite <- Eb, <- En.
      eapply (table_insert U _ s' HT'); [done|by rewrite lookup_delete_eq|]. intros s2 HT2. rewrite insert_delete_eq in HT2. wp_step.
      eapply (rehash_spec key hash less answer); [exact HT2|]. intros s3 HT3. wp_step. by apply HQ.
    + change (negb (NULL =? NULL)) with false. wp_step. wp_step. wp_step. eapply (table_insert U A s); [done..|]. intros s' HT'.
      wp_step. eapply (rehash_spec key hash less answer); [exact HT'|]. intros s2 HT2. wp_step. by apply HQ.
  - unfold hash_find. wp_step. apply (find_bucket_spec key hash less); [done|]. eapply table_find; [exact HT|]. by apply HQ.
  - unfold hash_delete. wp_step. apply (find_bucket_spec key hash less); [done|]. wp_step. eapply table_find; [exact HT|]. destruct (A !! key e) as [x|] eqn:E; cbn [from_option id] in *.
    + destruct (table_elem U A s HT _ _ E) as (Hk & HxU & Hx0). rewrite (proj2 (Z.eqb_neq x NULL)) by done. cbn [negb].
      wp_step. wp_step. eapply (table_remove U A s HT x); [by rewrite Hk|]. intros s' HT' _ _. rewrite Hk in HT'.
      eapply (rehash_spec key hash less answer); [exact HT'|]. intros s3 HT3. wp_step. by apply HQ.
    + change (negb (NULL =? NULL)) with false. wp_step. wp_step. wp_step. apply HQ. by rewrite delete_id.
  - unfold hash_size. wp_step. rewrite (table_size U A s HT). by apply HQ.
Qed.
Fixpoint run_ops (os : list hash_op) : TM (list Z) :=
  match os with [] => mret [] | o :: os => r ← run_op o; rs ← run_ops os; mret (r :: rs) end.
Fixpoint apply_ops (os : list hash_op) (A : gmap K Z) : list Z * gmap K Z :=
  match os with [] => ([], A) | o :: os => let '(r, A) := apply_op o A in let '(rs, A) := apply_ops os A in (r :: rs, A) end.
Lemma hash_run_spec U os : forall A s, table_is U A s -> Forall (fun o => forall e, op_elem o = Some e -> e ∈ U) os ->
  mwp (run_ops os) s (fun rs s' => rs = (apply_ops os A).1 /\ table_is U (apply_ops os A).2 s').
Proof.
  induction os as [|o os IH]; intros A s HT Ho; cbn [run_ops apply_ops]; [by wp_step|]. apply list.Forall_cons in Ho as [Ho Hos].
  wp_step. eapply run_op_spec; [exact HT|exact Ho|]. intros s' HT'. destruct (apply_op o A) as [r A']. cbn [fst snd] in *.
  wp_step. eapply mwp_mono; [by apply IH|]. intros rs s2 [-> HT2]. wp_step. destruct (apply_ops os A') as [rs2 A2]. done.
Qed.

(** ** Initialisation *)
Lemma clear_none p n : forall i u s, clear_buckets (U:=unit) None p n i u s = (_ ← init_buckets p n i; mret u : TM unit) s.
Proof.
  induction n as [|n IH]; intros i u s; [done|]. cbn [clear_buckets init_buckets]. unfold mbind, M_bind, mret, M_ret at 1.
  destruct (in_list (list_init (p + sizeof_list * i)) s) as [[[] s1]| | |]; done || apply IH.
Qed.
Lemma hash_init_spec U s (Q : bool -> hstate -> Prop) : (forall u, u ∈ U -> u <> NULL /\ is_Some (links s !! u)) -> Z.of_nat (size U) < 2 ^ 28 ->
  (answer (links s) 64 = NULL -> forall s', Q false s') -> (forall s', table_is U ∅ s' -> Q true s') -> mwp (hash_init answer) s Q.
Proof.
  intros HU Hsz HQ0 HQ. unfold hash_init. wp_step. wp_step. wp_step. apply (malloc_buckets_spec answer); [done| |]; cbn [links set_tab tab].
  { intros E. wp_step. wp_step. change (negb (NULL =? NULL)) with false. apply mwp_ret. by apply HQ0. }
  intros p Hp Hfresh. assert (Hne : p <> NULL) by (unfold NULL; lia).
  wp_step. wp_step. rewrite (proj2 (Z.eqb_neq p NULL) Hne). cbn [negb]. wp_step. unfold hash_clear. wp_step. wp_step. wp_step. cbn [tab set_tab buckets bucket_cnt].
  eapply mwp_same; [apply clear_none|]. wp_step. apply (init_buckets_spec p 4 0); [done| |lia|]; cbn [links set_tab].
  { intros q Hq. by apply map_region_in. }
  intros l' Hr Hs. wp_step. wp_step. wp_step. wp_step. apply HQ. cbn [tab set_tab].
  assert (Hu : forall u, u ∈ U -> u ∉ region p 4).
  { intros u Hu Hin. destruct (HU u Hu) as [_ [x Hx]]. rewrite Hfresh in Hx by done. done. }
  split; cbn [links tab set_tab buckets bucket_cnt elem_cnt]; [exists (replicate 4 [])| |done].
  - split; [by apply empty_hold|]. split; [intros i xs x [-> _]%lookup_replicate; by intros ?%not_elem_of_nil|].
    split; [done|]. split; [done|]. split; [|split; [done|by intros x ?%not_elem_of_nil]].
    intros k x. rewrite lookup_empty. cbn. split; [done|]. by intros [?%not_elem_of_nil _].
  - intros u Hin. destruct (HU u Hin) as [H0 Hm]. split; [done|]. split; [|by apply Hu].
    rewrite Hs by (by apply Hu). by rewrite map_region_out by (by apply Hu).
Qed.
(** A new table and a sequence of operations on it. *)
Definition run_table (os : list hash_op) : TM (list Z) :=
  ok ← hash_init answer; if (ok : bool) then run_ops os else mret [].

(** C16. A hash table implements a finite map from keys to elements: whatever sequence of
    insertions, replacements, searches and deletions of a client's elements follows
    [hash_init], each returns the element with its key that the map holds, or null, and
    [hash_size] the size of the map, through every change of the number of buckets and
    whether or not memory for it is found; or [hash_init] found no memory. *)
Theorem hash_refines (U : gset Z) s os : (forall u, u ∈ U -> u <> NULL /\ is_Some (links s !! u)) -> Z.of_nat (size U) < 2 ^ 28 ->
  Forall (fun o => forall e, op_elem o = Some e -> e ∈ U) os ->
  mwp (run_table os) s (fun rs _ => (answer (links s) 64 = NULL /\ rs = []) \/ rs = (apply_ops os ∅).1).
Proof.
  intros HU Hsz Hos. unfold run_table. wp_step. apply (hash_init_spec U); [done|done| |].
  - intros E s'. wp_step. by left.
  - intros s' HT. eapply mwp_mono; [by eapply hash_run_spec|]. intros rs s2 [-> _]. by right.
Qed.

(** ** Visiting the elements *)
(** The elements in the order of the buckets. *)
Definition in_table (A : gmap K Z) (xs : list Z) : Prop := xs ≡ₚ (map_to_list A).*2.
Lemma holds_in_table A xs : NoDup xs -> holds_map key A xs -> in_table A xs.
Proof.
  intros Hn HA. apply NoDup_Permutation; [done| |].
  - apply NoDup_fmap_2_strong; [|apply NoDup_map_to_list]. intros [k x] [k' x'] Hx%elem_of_map_to_list Hx'%elem_of_map_to_list.
    apply HA in Hx as [_ <-], Hx' as [_ <-]. cbn. by intros <-.
  - intros x. rewrite list_elem_of_fmap. split.
    + intros Hx. exists (key x, x). split; [done|]. apply elem_of_map_to_list. by apply HA.
    + intros ([k y] & -> & Hy%elem_of_map_to_list). by apply HA in Hy as [? _].
Qed.
Section apply.
Context {St : Type} (action : Z -> St -> St).
Definition visit (u : St) (xs : list Z) : St := foldl (fun u x => action x u) u xs.
Lemma apply_list_spec l xs u s (Q : St -> hstate -> Prop) : rep (links s) l xs -> Q (visit u xs) s ->
  mwp (in_list (elem ← list_begin l; fuel ← walk_fuel; mloop fuel (apply_body action l) (elem, u))) s Q.
Proof.
  intros Hr HQ. apply in_list_spec. wp_step. eapply list_begin_spec; [exact Hr|]. wp_step. unfold walk_fuel. wp_step.
  eapply (walk_loop (links s) xs (fun i ys zs => i = (hd (l + 8) zs, visit u ys))) with (ys := []) (zs := xs); [|done|done|pose proof (rep_size _ _ _ Hr); lia].
  intros i ys zs E ->. unfold apply_body. wp_step. eapply list_end_spec; [exact Hr|].
  rewrite (at_end _ _ _ Hr ys zs E). destruct zs as [|z zs]; cbn [hd].
  - rewrite bool_decide_eq_true_2 by done. wp_step. rewrite app_nil_r in E. subst ys. by destruct s.
  - rewrite bool_decide_eq_false_2 by done. wp_step. eapply list_next_walk; [exact Hr|exact E|]. wp_step. split; [done|]. exists z, zs.
    split; [done|]. unfold visit. by rewrite foldl_app.
Qed.
Lemma apply_buckets_spec b ls n : forall i u s (Q : St -> hstate -> Prop), buckets_hold (links s) b ls -> (i + n = length ls)%nat ->
  Q (visit u (concat (drop i ls))) s -> mwp (apply_buckets action b n (Z.of_nat i) u) s Q.
Proof.
  induction n as [|n IH]; intros i u s Q Hb Hn HQ; cbn [apply_buckets].
  - wp_step. by rewrite drop_ge in HQ by lia.
  - destruct (lookup_lt_is_Some_2 ls i) as [xs Ei]; [lia|]. cbv zeta. change (b + sizeof_list * Z.of_nat i) with (head_of b i).
    wp_step. eapply apply_list_spec; [by apply (bh_rep _ _ _ Hb)|]. replace (Z.of_nat i + 1) with (Z.of_nat (S i)) by lia.
    apply IH; [done|lia|]. rewrite (drop_S _ _ _ Ei) in HQ. cbn [concat] in HQ. unfold visit in *. by rewrite foldl_app in HQ.
Qed.
End apply.
(** [hash_apply] calls its action once for each element of the map and leaves the table alone. *)
Theorem hash_apply_visits {St} (action : Z -> St -> St) u U A s : table_is U A s ->
  exists xs, in_table A xs /\ hash_apply action u s = Ok (visit action u xs, s).
Proof.
  intros [(ls & Hb & Hp & Hn & Hn0 & HA & Hc & HU) Huse Hsz]. exists (concat ls). split; [apply holds_in_table; [apply Hb|done]|].
  assert (H1 : mwp (hash_apply action u) s (fun u' s' => u' = visit action u (concat ls) /\ s' = s)).
  { unfold hash_apply. wp_step. wp_step. eapply (apply_buckets_spec action (buckets (tab s)) ls _ 0); [done|rewrite Hn; unfold zlen; lia|done]. }
  apply mwp_ok in H1 as (? & ? & E & -> & ->). done.
Qed.

(** Calling [hash_next] until it returns null. *)
Fixpoint collect (fuel : nat) (i : iterator) : TM (list Z) :=
  match fuel with
  | O => hang
  | S fuel => '(i, e) ← hash_next i; if e =? NULL then mret [] else rs ← collect fuel i; mret (e :: rs)
  end.
Definition iterate (fuel : nat) : TM (list Z) := i ← hash_first; collect fuel i.
Section iteration.
Context (s : hstate) (ls : list (list Z)) (Hb : buckets_hold (links s) (buckets (tab s)) ls) (Hn : bucket_cnt (tab s) = zlen ls).
Abbreviation b := (buckets (tab s)).
(** [i] is at a node of the [k]th list with [zs] after it. *)
Definition at_node (k : nat) (e : Z) (zs : list Z) : Prop :=
  exists xs a, ls !! k = Some xs /\ nodes (head_of b k) xs = a ++ e :: zs ++ [head_of b k + 8].
Lemma next_loop k ys zs : forall fuel (Q : iterator -> hstate -> Prop), ls !! k = Some (ys ++ zs) -> (length ls - k <= fuel)%nat ->
  (zs ++ concat (drop (S k) ls) = [] -> forall c, Q (c, NULL) s) ->
  (forall k' x xs' , at_node k' x xs' -> x <> NULL -> zs ++ concat (drop (S k) ls) = x :: xs' ++ concat (drop (S k') ls) -> Q (head_of b k', x) s) ->
  mwp (mloop fuel next_body (head_of b k, hd (head_of b k + 8) zs)) s Q.
Proof.
  remember (length ls - k)%nat as d eqn:Ed. revert k ys zs Ed. induction d as [|d IH]; intros k ys zs Ed fuel Q Ek Hf HQ0 HQ.
  { apply lookup_lt_Some in Ek. lia. }
  destruct fuel as [|fuel]; [lia|]. pose proof (bh_rep _ _ _ Hb _ _ Ek) as Hr. apply mloop_step. unfold next_body. wp_step. apply in_list_spec.
  eapply list_end_spec; [exact Hr|]. rewrite (at_end _ _ _ Hr ys zs eq_refl). destruct s as [t l] eqn:Es. rewrite <- Es in *.
  replace (HState (tab s) (links s)) with s by (by rewrite Es). destruct zs as [|z zs]; cbn [hd].
  - rewrite bool_decide_eq_true_2 by done. wp_step. wp_step. cbv zeta. rewrite Hn.
    replace (head_of b k + sizeof_list) with (head_of b (S k)) by (unfold head_of, sizeof_list; lia).
    destruct (Z.leb_spec (b + sizeof_list * zlen ls) (head_of b (S k))) as [Hle|Hlt].
    + wp_step. apply HQ0. unfold head_of, sizeof_list, zlen in Hle. by rewrite drop_ge by lia.
    + destruct (lookup_lt_is_Some_2 ls (S k)) as [xs E2]; [unfold head_of, sizeof_list, zlen in Hlt; lia|].
      wp_step. apply in_list_spec. eapply list_begin_spec; [by apply (bh_rep _ _ _ Hb)|].
      replace (HState (tab s) (links s)) with s by (by rewrite Es). wp_step.
      rewrite (drop_S _ _ _ E2) in HQ0, HQ. cbn [concat app] in HQ0, HQ. apply (IH (S k) []); [lia|done|lia|done|done].
  - rewrite bool_decide_eq_false_2 by done. wp_step. apply (HQ k z zs); [|by eapply Z.eqb_neq, rep_ne; [exact Hr|]; rewrite elem_nodes, elem_of_app, elem_of_cons; tauto|done].
    exists (ys ++ z :: zs), (head_of b k :: ys). split; [done|]. unfold nodes. by rewrite <- app_assoc.
Qed.
Lemma hash_next_spec k e zs (Q : iterator * Z -> hstate -> Prop) : at_node k e zs ->
  (zs ++ concat (drop (S k) ls) = [] -> forall c, Q ((c, NULL), NULL) s) ->
  (forall k' x xs', at_node k' x xs' -> x <> NULL -> zs ++ concat (drop (S k) ls) = x :: xs' ++ concat (drop (S k') ls) -> Q ((head_of b k', x), x) s) ->
  mwp (hash_next (head_of b k, e)) s Q.
Proof.
  intros (xs & a & Ek & Ea) HQ0 HQ. pose proof (bh_rep _ _ _ Hb _ _ Ek) as Hr. unfold hash_next. cbn [fst snd].
  destruct (split_first zs (head_of b k + 8)) as (n & c & En & Eh). wp_step. apply in_list_spec.
  eapply (list_next_spec _ _ _ Hr a e n c); [by rewrite Ea, En|]. rewrite Eh. replace (HState (tab s) (links s)) with s by (by destruct s).
  wp_step. wp_step. wp_step.
  assert (Hys : exists ys, xs = ys ++ zs).
  { unfold nodes in Ea. destruct a as [|h a]; injection Ea as <- Ea; [|exists (a ++ [e])].
    - exists []. by apply app_inj_tail in Ea as [-> _].
    - assert (E2 : xs ++ [head_of b k + 8] = ((a ++ [e]) ++ zs) ++ [head_of b k + 8]) by (rewrite Ea; by rewrite <- !app_assoc).
      by apply app_inj_tail in E2 as [-> _]. }
  destruct Hys as [ys ->]. eapply next_loop; [exact Ek|rewrite Hn; unfold zlen; lia| |].
  - intros E c'. wp_step. by apply HQ0.
  - intros k' x xs' Hat Hx E. wp_step. by eapply HQ.
Qed.
Lemma collect_spec n : forall k e zs, at_node k e zs -> (length (zs ++ concat (drop (S k) ls)) = n)%nat ->
  mwp (collect (S n) (head_of b k, e)) s (fun rs s' => rs = zs ++ concat (drop (S k) ls) /\ s' = s).
Proof.
  induction n as [|n IH]; intros k e zs Hat Hlen; cbn [collect]; wp_step; (eapply hash_next_spec; [exact Hat| |]).
  - intros E c. apply mwp_ret. by rewrite E.
  - intros k' x xs' _ _ E. by rewrite E in Hlen.
  - intros E. by rewrite E in Hlen.
  - intros k' x xs' Hat' Hx E. rewrite (proj2 (Z.eqb_neq x NULL) Hx). wp_step. rewrite E in Hlen. cbn [length] in Hlen.
    eapply mwp_mono; [apply (IH k' x xs' Hat'); lia|]. intros rs s' [-> ->]. wp_step. by rewrite E.
Qed.
End iteration.
(** C20. Iteration with [hash_first] and [hash_next] visits every element of the map exactly once,
    ends with null after as many calls as there are elements and one, and changes nothing. *)
Theorem hash_iterates U A s : table_is U A s -> exists xs, in_table A xs /\ iterate (S (size A)) s = Ok (xs, s).
Proof.
  intros HT. pose proof (table_size U A s HT) as Hsize. destruct HT as [(ls & Hb & Hp & Hn & Hn0 & HA & Hc & HU) Huse Hsz].
  exists (concat ls). split; [apply holds_in_table; [apply Hb|done]|].
  assert (H1 : mwp (iterate (S (size A))) s (fun rs s' => rs = concat ls /\ s' = s)).
  { destruct (lookup_lt_is_Some_2 ls 0) as [xs E0]; [unfold zlen in Hn0; lia|]. pose proof (bh_rep _ _ _ Hb _ _ E0) as Hr.
    assert (Eh : head_of (buckets (tab s)) 0 = buckets (tab s)) by (unfold head_of; lia). rewrite <- (drop_0 ls), (drop_S _ _ _ E0). cbn [concat].
    unfold iterate, hash_first. wp_step. wp_step. wp_step. wp_step. apply in_list_spec. unfold list_head. wp_step. rewrite <- Eh.
    eapply not_null_list; [exact Hr|]. wp_step. wp_step. replace (HState (tab s) (links s)) with s by (by destruct s).
    apply (collect_spec s ls Hb Hn (size A) 0 _ xs).
    - exists xs, []. split; [done|]. done.
    - apply Nat2Z.inj. rewrite <- Hsize, Hc. unfold zlen. rewrite <- (drop_0 ls) at 2. by rewrite (drop_S _ _ _ E0). }
  apply mwp_ok in H1 as (? & ? & E & -> & ->). done.
Qed.

(** ** Clearing *)
Lemma pop_loop {St} (d : Z -> St -> St) l xs : forall fuel u h (Q : St -> heap -> Prop), rep h l xs -> (length xs < fuel)%nat ->
  (forall h', rep h' l [] -> same_but h (nodes l xs) h' -> (forall q, is_Some (h !! q) -> is_Some (h' !! q)) -> Q (visit d u xs) h') ->
  mwp (mloop fuel (pop_body d l) u) h Q.
Proof.
  induction xs as [|x xs IH]; intros fuel u h Q Hr Hf HQ; (destruct fuel as [|fuel]; [cbn in Hf; lia|]); apply mloop_step; unfold pop_body; wp_step;
    (eapply list_empty_spec; [exact Hr|]).
  - rewrite bool_decide_eq_true_2 by done. wp_step. by apply HQ.
  - rewrite bool_decide_eq_false_2 by done. wp_step. eapply list_pop_front_spec; [exact Hr|]. intros h1 Hr1 Hs1. wp_step.
    apply IH; [done|cbn in Hf; lia|]. intros h2 Hr2 Hs2 Hm2. apply HQ; [done| |].
    + intros q Hq. rewrite elem_nodes, elem_of_cons in Hq. rewrite Hs2, Hs1 by (rewrite elem_nodes; tauto). done.
    + intros q Hq. apply Hm2. by eapply same_but_mapped.
Qed.
Lemma clear_bucket {St} (d : option (Z -> St -> St)) l xs u s (k : St -> TM St) (Q : St -> hstate -> Prop) : rep (links s) l xs ->
  (forall h', rep h' l [] -> same_but (links s) (nodes l xs) h' -> (forall q, is_Some (links s !! q) -> is_Some (h' !! q)) ->
    mwp (k (match d with Some d => visit d u xs | None => u end)) (HState (tab s) h') Q) ->
  mwp (u ← match d with Some d => in_list (fuel ← walk_fuel; mloop fuel (pop_body d l) u) | None => mret u end;
       _ ← in_list (list_init l); k u) s Q.
Proof.
  intros Hr HQ. pose proof (rep_ne _ _ _ l Hr ltac:(apply elem_nodes; by left)) as H0%Z.eqb_neq.
  pose proof (rep_ne _ _ _ (l + 8) Hr ltac:(apply elem_nodes; tauto)) as H8%Z.eqb_neq.
  assert (Hin : forall h n, rep h l n -> is_Some (h !! l) /\ is_Some (h !! (l + 8))).
  { intros h n Hn. split; (eapply chain_mapped; [apply (rep_chain _ _ _ Hn)|apply elem_nodes; tauto]). }
  assert (Hsub : forall q, q ∈ [l; l + 8] -> q ∈ nodes l xs).
  { intros q. rewrite !elem_of_cons, elem_nodes, elem_of_nil. tauto. }
  wp_step. destruct d as [d|].
  - apply in_list_spec. wp_step. unfold walk_fuel. wp_step. apply (pop_loop d l xs); [done|pose proof (rep_size _ _ _ Hr); lia|].
    intros h1 Hr1 Hs1 Hm1. wp_step. apply in_list_spec. cbn [links tab]. destruct (Hin _ _ Hr1). apply list_init_spec; [done..|].
    intros h2 Hr2 Hs2. apply HQ; [done| |].
    + intros q Hq. rewrite Hs2 by auto. by apply Hs1.
    + intros q Hq. eapply same_but_mapped; [exact Hs2|exact Hr2|done|by apply Hm1].
  - wp_step. wp_step. apply in_list_spec. destruct (Hin _ _ Hr). apply list_init_spec; [done..|].
    intros h2 Hr2 Hs2. apply HQ; [done| |].
    + intros q Hq. apply Hs2. auto.
    + intros q Hq. eapply same_but_mapped; [exact Hs2|exact Hr2|done|done].
Qed.
Lemma concat_cleared (ls : list (list Z)) : forall i xs, ls !! i = Some xs -> (forall k, (k < i)%nat -> ls !! k = Some []) ->
  concat ls = xs ++ concat (<[i := []]> ls).
Proof.
  induction ls as [|l ls IH]; intros [|i] xs Ei Hd; try done; cbn in *; [by injection Ei as ->|].
  specialize (Hd 0%nat ltac:(lia)) as Hl. injection Hl as ->. apply (IH i xs Ei). intros k Hk. apply (Hd (S k)). lia.
Qed.
Lemma clear_buckets_spec {St} (d : option (Z -> St -> St)) b n : forall i ls u s (Q : St -> hstate -> Prop),
  buckets_hold (links s) b ls -> (i + n = length ls)%nat -> (forall k, (k < i)%nat -> ls !! k = Some []) ->
  (forall l', buckets_hold l' b (replicate (length ls) []) -> (forall q, is_Some (links s !! q) -> is_Some (l' !! q)) ->
    Q (match d with Some d => visit d u (concat ls) | None => u end) (HState (tab s) l')) ->
  mwp (clear_buckets d b n (Z.of_nat i) u) s Q.
Proof.
  induction n as [|n IH]; intros i ls u s Q Hb Hn Hdone HQ; cbn [clear_buckets].
  - assert (E : replicate (length ls) [] = ls).
    { apply replicate_as_elem_of. split; [done|]. intros xs [k Hk]%list_elem_of_lookup. pose proof (lookup_lt_Some _ _ _ Hk).
      rewrite Hdone in Hk by lia. by injection Hk. }
    wp_step. rewrite <- E, concat_replicate_nil in HQ. rewrite length_replicate in HQ. destruct s as [t l].
    assert (Hv : match d with Some d => visit d u [] | None => u end = u) by (by destruct d). rewrite Hv in HQ. apply (HQ l); [|done]. by rewrite E.
  - destruct (lookup_lt_is_Some_2 ls i) as [xs Ei]; [lia|]. cbv zeta. change (b + sizeof_list * Z.of_nat i) with (head_of b i).
    eapply clear_bucket; [by apply (bh_rep _ _ _ Hb)|]. intros h' Hr' Hs' Hm'. replace (Z.of_nat i + 1) with (Z.of_nat (S i)) by lia.
    pose proof (bh_nodup _ _ _ Hb) as Hnd. rewrite (concat_delete ls i _ Ei) in Hnd. apply list.NoDup_app in Hnd as (_ & _ & Hnd).
    apply (IH (S i) (<[i := []]> ls)); cbn [links tab]; rewrite ?length_insert; [|lia| |].
    + eapply bh_update; [exact Hb|exact Ei|exact Hr'|done|by intros y ?%not_elem_of_nil|]. intros q Hq _. by apply Hs'.
    + intros k Hk. destruct (decide (i = k)) as [<-|Hne]; [by rewrite list_lookup_insert_eq by lia|]. rewrite list_lookup_insert_ne by done. apply Hdone. lia.
    + intros l' Hl' Hm2. assert (Hv : match d with Some d => visit d (visit d u xs) (concat (<[i := []]> ls)) | None => u end =
        match d with Some d => visit d u (concat ls) | None => u end).
      { destruct d as [d|]; [|done]. rewrite (concat_cleared ls i xs) by done. unfold visit. by rewrite foldl_app. }
      destruct d as [d|]; [rewrite Hv|]; (apply HQ; [done|]); intros q Hq; by apply Hm2, Hm'.
Qed.
(** [hash_clear] empties the map, after calling the destructor once for each of its elements. *)
Theorem hash_clear_empties {St} (d : option (Z -> St -> St)) u U A s : table_is U A s ->
  mwp (hash_clear d u) s (fun u' s' => table_is U ∅ s' /\
    match d with Some d => exists xs, in_table A xs /\ u' = visit d u xs | None => u' = u end).
Proof.
  intros [(ls & Hb & Hp & Hn & Hn0 & HA & Hc & HU) Huse Hsz]. unfold hash_clear. wp_step. wp_step. wp_step.
  apply (clear_buckets_spec d (buckets (tab s)) _ 0 ls); [done|rewrite Hn; unfold zlen; lia|lia|]. intros l' Hl' Hm'.
  wp_step. wp_step. wp_step. split.
  - split; cbn [links tab set_tab buckets bucket_cnt elem_cnt]; [exists (replicate (length ls) [])| |done].
    + assert (Hz : zlen (replicate (length ls) ([] : list Z)) = zlen ls) by (unfold zlen; by rewrite length_replicate).
      split; [done|]. split; [intros i xs x [-> _]%lookup_replicate; by intros ?%not_elem_of_nil|]. rewrite Hz, concat_replicate_nil.
      split; [done|]. split; [done|]. split; [|split; [done|by intros x ?%not_elem_of_nil]].
      intros k x. rewrite lookup_empty. split; [done|]. by intros [?%not_elem_of_nil _].
    + intros v Hv. destruct (Huse v Hv) as (? & ? & ?). split; [done|]. split; [by apply Hm'|done].
  - destruct d as [d|]; [|done]. exists (concat ls). split; [|done]. apply holds_in_table; [apply Hb|done].
Qed.
End props.

(** ** Hash functions *)
Definition fnv_list (l : list Z) : Z := foldl (fun h x => Z.lxor (h *u FNV_32_PRIME) x) FNV_32_BASIS l.
Lemma fnv_spec m l : forall p h, (forall i x, l !! i = Some x -> m !! (p + Z.of_nat i) = Some x) ->
  fnv (length l) p h m = Ok (foldl (fun h x => Z.lxor (h *u FNV_32_PRIME) x) h l, m).
Proof.
  induction l as [|x l IH]; intros p h Hl; [done|]. cbn [fnv length foldl]. unfold mbind, M_bind, mload at 1.
  pose proof (Hl 0%nat x eq_refl) as H0. rewrite Z.add_0_r in H0. rewrite H0. apply IH. intros i y Hi. rewrite <- (Hl (S i) y Hi). f_equal. lia.
Qed.
Lemma string_loop m l : forall p h fuel, cstr m p l -> (length l < fuel)%nat ->
  mloop fuel string_body (p, h) m = Ok (foldl (fun h x => Z.lxor (h *u FNV_32_PRIME) x) h l, m).
Proof.
  induction l as [|x l IH]; intros p h fuel Hl Hf; (destruct fuel as [|fuel]; [cbn in Hf; lia|]); pose proof (cstr_head _ _ _ Hl) as Hh;
    pose proof (cs_range _ _ _ Hl) as Hr; unfold mloop; fold (@mloop (gmap Z Z) (Z * Z) Z); unfold string_body at 1, mbind, M_bind, mload; rewrite Hh.
  - done.
  - apply Forall_cons_1 in Hr as [Hx _]. rewrite (proj2 (Z.eqb_neq x 0)) by lia. cbn. apply IH; [by eapply cstr_tail|cbn in Hf; lia].
Qed.
(** The hash of a string is the hash of its bytes, and does not depend on where it is. *)
Lemma hash_string_bytes m s l : cstr m s l -> hash_string s m = Ok (fnv_list l, m) /\ hash_bytes s (zlen l) m = Ok (fnv_list l, m).
Proof.
  intros Hl. pose proof (cstr_ne _ _ _ Hl) as Hs. change (CString.NULL) with 0 in Hs. split.
  - unfold hash_string, scan_fuel, assert, lift, ASSERT, gets, mbind, M_bind. change CString.NULL with 0. rewrite Hs.
    apply string_loop; [done|]. pose proof (cstr_size _ _ _ Hl). lia.
  - unfold hash_bytes, assert, lift, ASSERT, mbind, M_bind. change CString.NULL with 0. rewrite Hs. unfold zlen. rewrite Nat2Z.id.
    apply fnv_spec. by destruct Hl.
Qed.

(** ** Witnesses *)
(** An allocator that hands out memory above all that is in use. *)
Definition above (h : heap) (_ : Z) : Z := 16 + foldr Z.max 0 (fst <$> map_to_list h).
Lemma above_max (l : list Z) x : x ∈ l -> x <= foldr Z.max 0 l.
Proof. induction l as [|y l IH]; [by intros ?%not_elem_of_nil|]. intros [->|Hx]%elem_of_cons; cbn; [lia|]. specialize (IH Hx). lia. Qed.
Lemma above_pos (l : list Z) : 0 <= foldr Z.max 0 l.
Proof. induction l; cbn; lia. Qed.
#[export] Instance above_fresh : fresh_answers above.
Proof.
  intros h n _ _. unfold above. pose proof (above_pos (fst <$> map_to_list h)). split; [lia|]. intros q (j & Hj & ->)%elem_region.
  apply eq_None_not_Some. intros [x Hx]. apply elem_of_map_to_list in Hx. assert (Hq := list_elem_of_fmap_2 fst _ _ Hx). cbn in Hq.
  apply above_max in Hq. lia.
Qed.
(** Elements whose key is their address modulo 400. *)
Definition ex_key (x : Z) : Z := x mod 400.
Definition ex_less (a b : Z) : bool := ex_key a <? ex_key b.
#[export] Instance ex_keyed : keyed ex_key ex_key ex_less.
Proof.
  split; [|done|intros a; apply Z.mod_pos_bound; lia]. intros a b. unfold ex_less.
  destruct (Z.ltb_spec (ex_key a) (ex_key b)), (Z.ltb_spec (ex_key b) (ex_key a)); cbn; symmetry; (apply bool_decide_eq_true_2 || apply bool_decide_eq_false_2); lia.
Qed.
Definition ex_elems : list Z := (fun i => 1000 + 20 * i) <$> seqZ 0 24.
Definition ex_links : heap := list_to_map ((fun x => (x, ListElem 0 0)) <$> ex_elems).
(** Twenty-four insertions of elements with twenty keys, then searches, a replacement, deletions. *)
Definition ex_hash_ops : list hash_op :=
  (Insert <$> ex_elems) ++ [Size; Find 1420; Replace 1400; Find 1000; Delete 1020; Delete 1420; Size] ++ (Delete <$> take 12 ex_elems) ++ [Size].
Definition ex_hash_state : hstate := HState (Hash 0 0 0) ex_links.
Example ex_hash_answers :
  match run_table ex_key ex_less above ex_hash_ops ex_hash_state with
  | Ok (rs, s) => bool_decide (rs = (apply_ops ex_key ex_hash_ops ∅).1) && (elem_cnt (tab s) =? 8) && (bucket_cnt (tab s) =? 4) | _ => false end = true.
Proof. vm_compute. reflexivity. Qed.
Lemma ex_usable u : u ∈ (list_to_set ex_elems : gset Z) -> u <> NULL /\ is_Some (links ex_hash_state !! u).
Proof.
  intros Hu%elem_of_list_to_set. pose proof Hu as (i & -> & Hi%elem_of_seqZ)%list_elem_of_fmap. split; [unfold NULL; lia|]. exists (ListElem 0 0).
  apply elem_of_list_to_map.
  - rewrite <- list_fmap_compose. cbn. rewrite list_fmap_id. apply NoDup_fmap_2; [intros x y; lia|apply NoDup_seqZ].
  - apply list_elem_of_fmap. by exists (1000 + 20 * i).
Qed.
Definition elems_ok (os : list hash_op) : bool :=
  forallb (fun o => match op_elem o with Some e => bool_decide (e ∈ ex_elems) | None => true end) os.
Lemma elems_ok_sound os : elems_ok os = true -> Forall (fun o => forall e, op_elem o = Some e -> e ∈ (list_to_set ex_elems : gset Z)) os.
Proof.
  unfold elems_ok. rewrite forallb_forall. intros H. apply Forall_forall. intros o Ho e He. apply elem_of_list_to_set.
  specialize (H o Ho). rewrite He in H. by apply bool_decide_eq_true in H.
Qed.
Lemma hash_refines_witness :
  mwp (run_table ex_key ex_less above ex_hash_ops) ex_hash_state (fun rs _ =>
    (above ex_links 64 = NULL /\ rs = []) \/ rs = (apply_ops ex_key ex_hash_ops ∅).1).
Proof.
  apply (hash_refines ex_key ex_key ex_less above (list_to_set ex_elems) ex_hash_state ex_hash_ops); [exact ex_usable|vm_compute; reflexivity|].
  apply elems_ok_sound. vm_compute. reflexivity.
Defined.
(** The table after the operations. *)
Definition ex_map : gmap Z Z := (apply_ops ex_key ex_hash_ops ∅).2.
Lemma ex_table : exists s, HashSpec.table_is ex_key ex_key (list_to_set ex_elems) ex_map s.
Proof.
  assert (H : mwp (run_table ex_key ex_less above ex_hash_ops) ex_hash_state (fun _ s => HashSpec.table_is ex_key ex_key (list_to_set ex_elems) ex_map s)).
  { unfold run_table. wp_step. apply (hash_init_spec ex_key ex_key above (list_to_set ex_elems)); [exact ex_usable|vm_compute; reflexivity| |].
    - unfold above, NULL. pose proof (above_pos (fst <$> map_to_list (links ex_hash_state))). lia.
    - intros s HT. eapply mwp_mono; [apply (hash_run_spec ex_key ex_key ex_less above _ ex_hash_ops _ _ HT), elems_ok_sound; vm_compute; reflexivity|].
      by intros rs s' [_ HT']. }
  apply (mwp_state_of _ _ _ ex_hash_state) in H as [_ H]. by eexists.
Qed.
Lemma hash_iterates_witness : exists s, HashSpec.table_is ex_key ex_key (list_to_set ex_elems) ex_map s /\
  exists xs, in_table ex_map xs /\ iterate (S (size ex_map)) s = Ok (xs, s).
Proof. destruct ex_table as [s H]. exists s. split; [exact H|]. exact (hash_iterates ex_key ex_key _ _ s H). Defined.
