(* ===== verification/Partition.v ===== *)
(** * Partition: partition tables (devices/partition.c)

    A partition is a block device whose driver reads and writes a window of another
    block device.  The registry of Block holds devices that are disks, with a driver of
    their own, or partitions; a partition names its underlying block by its place in the
    registry, so the blocks share the disk.  Scanning a disk works on the registry, the
    count of the partitions found, the number of calls of [malloc] made and the
    descriptions handed to [block_register], which prints them.  Whether the n-th call
    of [malloc] succeeds is an argument. *)
From stdpp Require Import strings pretty.
From S2P Require Import Prelude.
From S2P Require Import Block.

(** [struct partition] *)
Record partition := Partition { p_block : nat; p_start : Z }.
Inductive device (D : Type) := Disk (d : D) | Part (p : partition).
Arguments Disk {D}.
Arguments Part {D}.

Record partition_table_entry := Entry {
  bootable : Z; start_chs : list Z; e_type : Z; end_chs : list Z; e_offset : Z; e_size : Z }.
Record partition_table := Table { loader : list Z; partitions : list partition_table_entry; signature : Z }.

(** The packed structures at their byte offsets: 446 bytes of loader, four entries of
    16 bytes, the signature. *)
Definition entry_of (bytes : list Z) : res partition_table_entry :=
  boot ← deref (znth bytes 0); s ← deref (zslice bytes 1 3); t ← deref (znth bytes 4);
  e ← deref (zslice bytes 5 3); o ← deref (zslice bytes 8 4); n ← deref (zslice bytes 12 4);
  mret (Entry boot s t e (le_val o) (le_val n)).
Fixpoint entries_of (n : nat) (bytes : list Z) (off : Z) : res (list partition_table_entry) :=
  match n with
  | O => mret []
  | S n' => bs ← deref (zslice bytes off 16); e ← entry_of bs; es ← entries_of n' bytes (off + 16); mret (e :: es)
  end.
Definition table_of (bytes : list Z) : res partition_table :=
  l ← deref (zslice bytes 0 446); es ← entries_of 4 bytes 446; s ← deref (zslice bytes 510 2);
  mret (Table l es (le_val s)).

Definition type_names : list (Z * string) :=
  [(0x00, "Empty"); (0x01, "FAT12"); (0x02, "XENIX root"); (0x03, "XENIX usr"); (0x04, "FAT16 <32M");
   (0x05, "Extended"); (0x06, "FAT16"); (0x07, "HPFS/NTFS"); (0x08, "AIX"); (0x09, "AIX bootable");
   (0x0a, "OS/2 Boot Manager"); (0x0b, "W95 FAT32"); (0x0c, "W95 FAT32 (LBA)");
   (0x0e, "W95 FAT16 (LBA)"); (0x0f, "W95 Ext'd (LBA)"); (0x10, "OPUS"); (0x11, "Hidden FAT12");
   (0x12, "Compaq diagnostics"); (0x14, "Hidden FAT16 <32M"); (0x16, "Hidden FAT16");
   (0x17, "Hidden HPFS/NTFS"); (0x18, "AST SmartSleep"); (0x1b, "Hidden W95 FAT32");
   (0x1c, "Hidden W95 FAT32 (LBA)"); (0x1e, "Hidden W95 FAT16 (LBA)"); (0x20, "Pintos OS kernel");
   (0x21, "Pintos file system"); (0x22, "Pintos scratch"); (0x23, "Pintos swap"); (0x24, "NEC DOS");
   (0x39, "Plan 9"); (0x3c, "PartitionMagic recovery"); (0x40, "Venix 80286");
   (0x41, "PPC PReP Boot"); (0x42, "SFS"); (0x4d, "QNX4.x"); (0x4e, "QNX4.x 2nd part");
   (0x4f, "QNX4.x 3rd part"); (0x50, "OnTrack DM"); (0x51, "OnTrack DM6 Aux1"); (0x52, "CP/M");
   (0x53, "OnTrack DM6 Aux3"); (0x54, "OnTrackDM6"); (0x55, "EZ-Drive"); (0x56, "Golden Bow");
   (0x5c, "Priam Edisk"); (0x61, "SpeedStor"); (0x63, "GNU HURD or SysV");
   (0x64, "Novell Netware 286"); (0x65, "Novell Netware 386"); (0x70, "DiskSecure Multi-Boot");
   (0x75, "PC/IX"); (0x80, "Old Minix"); (0x81, "Minix / old Linux"); (0x82, "Linux swap / Solaris");
   (0x83, "Linux"); (0x84, "OS/2 hidden C: drive"); (0x85, "Linux extended");
   (0x86, "NTFS volume set"); (0x87, "NTFS volume set"); (0x88, "Linux plaintext");
   (0x8e, "Linux LVM"); (0x93, "Amoeba"); (0x94, "Amoeba BBT"); (0x9f, "BSD/OS");
   (0xa0, "IBM Thinkpad hibernation"); (0xa5, "FreeBSD"); (0xa6, "OpenBSD"); (0xa7, "NeXTSTEP");
   (0xa8, "Darwin UFS"); (0xa9, "NetBSD"); (0xab, "Darwin boot"); (0xb7, "BSDI fs");
   (0xb8, "BSDI swap"); (0xbb, "Boot Wizard hidden"); (0xbe, "Solaris boot"); (0xbf, "Solaris");
   (0xc1, "DRDOS/sec (FAT-12)"); (0xc4, "DRDOS/sec (FAT-16 < 32M)"); (0xc6, "DRDOS/sec (FAT-16)");
   (0xc7, "Syrinx"); (0xda, "Non-FS data"); (0xdb, "CP/M / CTOS / ..."); (0xde, "Dell Utility");
   (0xdf, "BootIt"); (0xe1, "DOS access"); (0xe3, "DOS R/O"); (0xe4, "SpeedStor"); (0xeb, "BeOS fs");
   (0xee, "EFI GPT"); (0xef, "EFI (FAT-12/16/32)"); (0xf0, "Linux/PA-RISC boot");
   (0xf1, "SpeedStor"); (0xf4, "SpeedStor"); (0xf2, "DOS secondary");
   (0xfd, "Linux raid autodetect"); (0xfe, "LANstep"); (0xff, "BBT")].
Fixpoint find_type (type : Z) (l : list (Z * string)) : option string :=
  match l with [] => None | (t, n) :: l' => if t =? type then Some n else find_type type l' end.
Definition partition_type_name (type : Z) : string := default "Unknown" (find_type type type_names).

(** [snprintf] of "%02x" for a byte, and what fits the arrays of 16 and 128 bytes. *)
Definition hex_digit (z : Z) : string := default "" (["0"; "1"; "2"; "3"; "4"; "5"; "6"; "7"; "8"; "9"; "a"; "b"; "c"; "d"; "e"; "f"] !! Z.to_nat z).
Definition part_name (block_name : string) (part_nr : Z) : string := String.substring 0 15 (block_name +:+ pretty part_nr).
Definition extra_info (part_type : Z) : string :=
  String.substring 0 127
    (partition_type_name part_type +:+ " (" +:+ hex_digit (part_type / 16) +:+ hex_digit (part_type mod 16) +:+ ")").
Definition part_block_type (part_type : Z) : block_type_t :=
  if part_type =? 0x20 then BLOCK_KERNEL else if part_type =? 0x21 then BLOCK_FILESYS
  else if part_type =? 0x22 then BLOCK_SCRATCH else if part_type =? 0x23 then BLOCK_SWAP else BLOCK_FOREIGN.
Definition is_extended (type : Z) : bool := (type =? 0x05) || (type =? 0x0f) || (type =? 0x85) || (type =? 0xc5).

(** The scan in progress. *)
Record pscan (D : Type) := PScan {
  reg : registry (device D); part_nr : Z; mallocs : nat; infos : list string }.
Arguments PScan {D}.
Arguments reg {D}. Arguments part_nr {D}. Arguments mallocs {D}. Arguments infos {D}.

Section partition.
Context {D : Type} `{driver D}.
Abbreviation RM := (M (registry (device D))).
Abbreviation SM := (M (pscan D)).

(** ** Blocks of the registry *)
Definition the_block (i : nat) : RM (block (device D)) :=
  r ← get; lift (deref (all_blocks r !! i)).
Definition set_block (i : nat) (b : block (device D)) : RM unit :=
  modify (fun r => Registry (<[i := b]> (all_blocks r)) (block_by_role r)).
Definition reg_block_size (i : nat) : RM Z := b ← the_block i; mret (blk_size b).

(** [block->ops->read (block->aux, sector, buffer)] for a disk. *)
Definition disk_read (i : nat) (d : D) (sector : Z) : RM (list Z) :=
  let '(d', data) := op_read d sector in
  b ← the_block i;
  _ ← set_block i (Block (blk_name b) (blk_type b) (blk_size b) (Disk d') (read_cnt b) (write_cnt b));
  mret data.
Definition disk_write (i : nat) (d : D) (sector : Z) (data : list Z) : RM unit :=
  b ← the_block i;
  set_block i (Block (blk_name b) (blk_type b) (blk_size b) (Disk (op_write d sector data)) (read_cnt b) (write_cnt b)).
Definition count_read (i : nat) : RM unit :=
  b ← the_block i;
  set_block i (Block (blk_name b) (blk_type b) (blk_size b) (blk_aux b) (u64 (read_cnt b + 1)) (write_cnt b)).
Definition count_write (i : nat) : RM unit :=
  b ← the_block i;
  set_block i (Block (blk_name b) (blk_type b) (blk_size b) (blk_aux b) (read_cnt b) (u64 (write_cnt b + 1))).

Definition partition_read (read : nat -> Z -> RM (list Z)) (p : partition) (sector : Z) : RM (list Z) :=
  read (p_block p) (p_start p +u sector).
Definition partition_write (write : nat -> Z -> list Z -> RM unit) (p : partition) (sector : Z) (data : list Z) : RM unit :=
  write (p_block p) (p_start p +u sector) data.

(** [block_read] and [block_write] through the registry; [n] bounds the partitions that
    lie in one another (one, since only disks are scanned). *)
Fixpoint reg_block_read (n : nat) (i : nat) (sector : Z) : RM (list Z) :=
  match n with
  | O => hang
  | S n' =>
      b ← the_block i;
      _ ← lift (check_sector b sector);
      data ← match blk_aux b with
             | Disk d => disk_read i d sector
             | Part p => partition_read (reg_block_read n') p sector
             end;
      _ ← count_read i; mret data
  end.
Fixpoint reg_block_write (n : nat) (i : nat) (sector : Z) (data : list Z) : RM unit :=
  match n with
  | O => hang
  | S n' =>
      b ← the_block i;
      _ ← lift (check_sector b sector);
      _ ← assert (negb (bool_decide (blk_type b = BLOCK_FOREIGN)));
      _ ← match blk_aux b with
          | Disk d => disk_write i d sector data
          | Part p => partition_write (reg_block_write n') p sector data
          end;
      count_write i
  end.

(** ** Scanning *)
Definition in_reg {A} (m : RM A) : SM A := fun s =>
  match m (reg s) with
  | Ok (a, r) => Ok (a, PScan r (part_nr s) (mallocs s) (infos s))
  | Panic => Panic | Fault => Fault | Hang => Hang
  end.
Context (malloc_answers : nat -> bool).

(** [p = malloc (size); if (p == NULL) PANIC (...);] *)
Definition malloc_or_panic : SM unit :=
  n ← gets mallocs;
  _ ← modify (fun s => PScan (reg s) (part_nr s) (S n) (infos s));
  if malloc_answers n then mret tt else panic.

Definition found_partition (block : nat) (part_type start size nr : Z) : SM unit :=
  bs ← in_reg (reg_block_size block);
  if bs <=? start then mret tt
  else if (start +u size <? start) || (bs <? start +u size) then mret tt
  else
    _ ← malloc_or_panic;
    b ← in_reg (the_block block);
    let name := part_name (blk_name b) nr in
    _ ← in_reg (modify (fun r => block_register r name (part_block_type part_type) size (Part (Partition block start))));
    modify (fun s => PScan (reg s) (part_nr s) (mallocs s) (infos s ++ [extra_info part_type])).

(** One turn of the loop over the entries; [rec] reads a nested table. *)
Definition scan_entry (rec : Z -> Z -> SM unit) (block : nat) (sector primary_extended_sector : Z)
    (e : partition_table_entry) : SM unit :=
  if (e_size e =? 0) || (e_type e =? 0) then mret tt
  else if is_extended (e_type e) then
    if sector =? 0 then rec (e_offset e) (e_offset e)
    else rec (e_offset e +u primary_extended_sector) primary_extended_sector
  else
    _ ← modify (fun s => PScan (reg s) (s32 (part_nr s + 1)) (mallocs s) (infos s));
    nr ← gets part_nr;
    found_partition block (e_type e) (e_offset e +u sector) (e_size e) nr.
Fixpoint scan_entries (rec : Z -> Z -> SM unit) (block : nat) (sector primary_extended_sector : Z)
    (es : list partition_table_entry) : SM unit :=
  match es with
  | [] => mret tt
  | e :: es' =>
      _ ← scan_entry rec block sector primary_extended_sector e;
      scan_entries rec block sector primary_extended_sector es'
  end.
(** The read is of sector 0 at every depth, as in the code. *)
Fixpoint read_partition_table (fuel : nat) (block : nat) (sector primary_extended_sector : Z) : SM unit :=
  match fuel with
  | O => hang
  | S fuel' =>
      bs ← in_reg (reg_block_size block);
      if bs <=? sector then mret tt
      else
        _ ← malloc_or_panic;
        bytes ← in_reg (reg_block_read 2 block 0);
        pt ← lift (table_of bytes);
        if negb (signature pt =? 0xaa55) then mret tt
        else scan_entries (read_partition_table fuel' block) block sector primary_extended_sector (partitions pt)
  end.
Definition partition_scan (fuel : nat) (block : nat) : SM unit :=
  _ ← modify (fun s => PScan (reg s) 0 (mallocs s) (infos s));
  read_partition_table fuel block 0 0.
End partition.

(** ** What a registry promises *)
Section laws.
Context {D : Type} `{driver_ok D}.
Implicit Types (r : registry (device D)) (b : block (device D)).

(** What reading and writing never change in a block. *)
Definition geometry (b : block (device D)) : string * block_type_t * Z * option partition :=
  (blk_name b, blk_type b, blk_size b, match blk_aux b with Disk _ => None | Part p => Some p end).
Lemma geometry_inv b b' : geometry b = geometry b' -> blk_type b = blk_type b' /\ blk_size b = blk_size b'.
Proof. unfold geometry. by intros [= _ -> -> _]. Qed.
Definition same_geometry (r r' : registry (device D)) : Prop :=
  forall i, geometry <$> all_blocks r' !! i = geometry <$> all_blocks r !! i.
(** Every partition lies inside a disk. *)
Definition placed (r : registry (device D)) : Prop :=
  forall i n t z op, geometry <$> all_blocks r !! i = Some (n, t, z, op) -> 0 <= z < 2 ^ 32 /\
    match op with
    | None => True
    | Some p => 0 <= p_start p /\ exists n' t' z',
        geometry <$> all_blocks r !! p_block p = Some (n', t', z', None) /\ p_start p + z <= z'
    end.
(** Sector [s] of the disk [j]; where sector [s] of block [i] is. *)
Definition sector_at (r : registry (device D)) (j : nat) (s : Z) : list Z :=
  match all_blocks r !! j with
  | Some b => match blk_aux b with Disk d => drv_sector d s | Part _ => [] end
  | None => []
  end.
Definition place (r : registry (device D)) (i : nat) (s : Z) : nat * Z :=
  match all_blocks r !! i with
  | Some b => match blk_aux b with Disk _ => (i, s) | Part p => (p_block p, p_start p + s) end
  | None => (i, s)
  end.

#[export] Instance same_geometry_preorder : PreOrder same_geometry.
Proof. split; [by intros r i|intros r1 r2 r3 E1 E2 i; by rewrite E2, E1]. Qed.
Lemma same_placed r r' : same_geometry r r' -> placed r -> placed r'.
Proof.
  intros E Hp i n t z op Hi. rewrite E in Hi. destruct (Hp _ _ _ _ _ Hi) as [Hz Ho]. split; [done|].
  destruct op as [p|]; [|done]. destruct Ho as (Hs & n' & t' & z' & Hd & Hle).
  split; [done|]. exists n', t', z'. by rewrite E.
Qed.
Lemma place_geometry r i s n t z op : geometry <$> all_blocks r !! i = Some (n, t, z, op) ->
  place r i s = match op with None => (i, s) | Some p => (p_block p, p_start p + s) end.
Proof.
  unfold place, geometry. destruct (all_blocks r !! i) as [b|]; [|done]. simpl.
  intros [= <- <- <- <-]. by destruct (blk_aux b).
Qed.
Lemma same_place r r' i s : same_geometry r r' -> place r' i s = place r i s.
Proof.
  intros E. destruct (geometry <$> all_blocks r !! i) as [[[[n t] z] op]|] eqn:Hi.
  - rewrite (place_geometry _ _ _ _ _ _ _ Hi). pose proof (E i) as E'. rewrite Hi in E'.
    by rewrite (place_geometry _ _ _ _ _ _ _ E').
  - pose proof (E i) as E'. rewrite Hi in E'. unfold place.
    destruct (all_blocks r !! i), (all_blocks r' !! i); done.
Qed.

Definition with_blocks (r : registry (device D)) (i : nat) (b : block (device D)) : registry (device D) :=
  Registry (<[i := b]> (all_blocks r)) (block_by_role r).
Lemma with_geometry r i b b' : all_blocks r !! i = Some b -> geometry b' = geometry b -> same_geometry r (with_blocks r i b').
Proof.
  intros Hi E j. simpl. destruct (decide (i = j)) as [->|Hj].
  - rewrite list_lookup_insert_eq by (by eapply lookup_lt_Some). by rewrite Hi; simpl; rewrite E.
  - by rewrite list_lookup_insert_ne.
Qed.
Lemma with_block_eq r i b b' : all_blocks r !! i = Some b -> all_blocks (with_blocks r i b') !! i = Some b'.
Proof. intros Hi. simpl. apply list_lookup_insert_eq. by eapply lookup_lt_Some. Qed.
(** A block that keeps its device keeps every sector. *)
Lemma with_sector_aux r i b b' j s : all_blocks r !! i = Some b -> blk_aux b' = blk_aux b ->
  sector_at (with_blocks r i b') j s = sector_at r j s.
Proof.
  intros Hi E. unfold sector_at. destruct (decide (i = j)) as [->|Hj].
  - by rewrite (with_block_eq _ _ _ _ Hi), Hi, E.
  - simpl. by rewrite list_lookup_insert_ne.
Qed.
Lemma with_sector_disk r i b b' d' j s : all_blocks r !! i = Some b -> blk_aux b' = Disk d' ->
  sector_at (with_blocks r i b') j s = if decide (j = i) then drv_sector d' s else sector_at r j s.
Proof.
  intros Hi E. unfold sector_at. case_decide as Hj.
  - subst j. by rewrite (with_block_eq _ _ _ _ Hi), E.
  - simpl. by rewrite list_lookup_insert_ne by done.
Qed.

Lemma the_block_spec r i b (Q : block (device D) -> registry (device D) -> Prop) :
  all_blocks r !! i = Some b -> Q b r -> mwp (the_block i) r Q.
Proof. intros Hi HQ. unfold the_block. repeat wp_step. by rewrite Hi. Qed.
Lemma set_block_spec r i b (Q : unit -> registry (device D) -> Prop) : Q tt (with_blocks r i b) -> mwp (set_block i b) r Q.
Proof. done. Qed.
Lemma count_read_spec r i b (Q : unit -> registry (device D) -> Prop) : all_blocks r !! i = Some b ->
  (forall r', same_geometry r r' -> (forall j t, sector_at r' j t = sector_at r j t) -> Q tt r') -> mwp (count_read i) r Q.
Proof.
  intros Hi HQ. unfold count_read. wp_step. apply (the_block_spec _ _ _ _ Hi). apply set_block_spec.
  apply HQ; [by eapply with_geometry|intros; by eapply with_sector_aux].
Qed.
Lemma count_write_spec r i b (Q : unit -> registry (device D) -> Prop) : all_blocks r !! i = Some b ->
  (forall r', same_geometry r r' -> (forall j t, sector_at r' j t = sector_at r j t) -> Q tt r') -> mwp (count_write i) r Q.
Proof.
  intros Hi HQ. unfold count_write. wp_step. apply (the_block_spec _ _ _ _ Hi). apply set_block_spec.
  apply HQ; [by eapply with_geometry|intros; by eapply with_sector_aux].
Qed.
Lemma same_block r r' i b : same_geometry r r' -> all_blocks r !! i = Some b -> exists b', all_blocks r' !! i = Some b' /\ geometry b' = geometry b.
Proof.
  intros E Hi. specialize (E i). rewrite Hi in E. destruct (all_blocks r' !! i) as [b'|]; [|done].
  simpl in E. exists b'. split; [done|congruence].
Qed.

(** Reading and writing the disk [i]. *)
Lemma disk_block_read n r i b d s (Q : list Z -> registry (device D) -> Prop) : all_blocks r !! i = Some b -> blk_aux b = Disk d -> s < blk_size b ->
  (forall r', same_geometry r r' -> (forall j t, sector_at r' j t = sector_at r j t) -> Q (sector_at r i s) r') ->
  mwp (reg_block_read (S n) i s) r Q.
Proof.
  intros Hi Hd Hs HQ. cbn [reg_block_read]. wp_step. apply (the_block_spec _ _ _ _ Hi).
  wp_step. wp_step. unfold check_sector. rewrite (proj2 (Z.leb_gt _ _) Hs). apply wp_ret. rewrite Hd. wp_step.
  unfold disk_read. pose proof (drv_read_val d s) as Hv. pose proof (drv_read_frame d s) as Hf.
  destruct (op_read d s) as [d' x]; simpl in Hv, Hf. subst x.
  wp_step. apply (the_block_spec _ _ _ _ Hi). wp_step. apply set_block_spec. wp_step. wp_step.
  eapply count_read_spec; [by apply (with_block_eq _ _ _ _ Hi)|]. intros r' Hg Hsec. wp_step.
  assert (sector_at r i s = drv_sector d s) as <- by (unfold sector_at; by rewrite Hi, Hd).
  apply HQ.
  - etrans; [|done]. eapply with_geometry; [done|]. unfold geometry; simpl. by rewrite Hd.
  - intros j t. rewrite Hsec. erewrite with_sector_disk by done. case_decide; [subst|done].
    unfold sector_at. by rewrite Hi, Hd.
Qed.
Definition write_sector (f : nat -> Z -> list Z) (j : nat) (s : Z) (x : list Z) : nat -> Z -> list Z :=
  fun j' s' => if decide (j' = j /\ s' = s) then x else f j' s'.
Lemma disk_block_write n r i b d s x (Q : unit -> registry (device D) -> Prop) : all_blocks r !! i = Some b -> blk_aux b = Disk d -> s < blk_size b ->
  blk_type b <> BLOCK_FOREIGN ->
  (forall r', same_geometry r r' -> (forall j t, sector_at r' j t = write_sector (sector_at r) i s x j t) -> Q tt r') ->
  mwp (reg_block_write (S n) i s x) r Q.
Proof.
  intros Hi Hd Hs Ht HQ. cbn [reg_block_write]. wp_step. apply (the_block_spec _ _ _ _ Hi).
  wp_step. wp_step. unfold check_sector. rewrite (proj2 (Z.leb_gt _ _) Hs). apply wp_ret.
  wp_step. wp_step; [by rewrite bool_decide_eq_false_2|]. rewrite Hd. wp_step.
  unfold disk_write. wp_step. apply (the_block_spec _ _ _ _ Hi). apply set_block_spec.
  eapply count_write_spec; [by apply (with_block_eq _ _ _ _ Hi)|]. intros r' Hg Hsec.
  apply HQ.
  - etrans; [|done]. eapply with_geometry; [done|]. unfold geometry; simpl. by rewrite Hd.
  - intros j t. rewrite Hsec. erewrite with_sector_disk by done. unfold write_sector, sector_at.
    case_decide; [subst|by rewrite decide_False by tauto]. rewrite Hi, Hd, drv_write_val.
    destruct (decide (t = s)); [by rewrite decide_True|by rewrite decide_False by tauto].
Qed.

(** Reading and writing any block of a registry whose partitions lie inside disks. *)
Definition inside (r : registry (device D)) (i : nat) (s : Z) : Prop :=
  exists b, all_blocks r !! i = Some b /\ 0 <= s < blk_size b.
Definition foreign (r : registry (device D)) (i : nat) : Prop :=
  exists b, all_blocks r !! i = Some b /\ blk_type b = BLOCK_FOREIGN.
Definition writable (r : registry (device D)) (i : nat) : Prop := ~ foreign r i /\ ~ foreign r (place r i 0).1.

Lemma same_inside r r' i s : same_geometry r r' -> inside r i s -> inside r' i s.
Proof.
  intros E (b & Hi & Hs). destruct (same_block _ _ _ _ E Hi) as (b' & Hi' & Hg). exists b'. split; [done|].
  apply geometry_inv in Hg as [_ ->]. done.
Qed.
Lemma same_foreign r r' i : same_geometry r r' -> foreign r' i -> foreign r i.
Proof.
  intros E (b' & Hi & Ht). pose proof (E i) as E'. rewrite Hi in E'. destruct (all_blocks r !! i) as [b|] eqn:Hb; [|done].
  exists b. split; [done|]. simpl in E'.
  assert (geometry b' = geometry b) as [<- _]%geometry_inv by congruence. done.
Qed.
Lemma same_writable r r' i : same_geometry r r' -> writable r i -> writable r' i.
Proof. intros E [Hf Hp]. split; rewrite ?(same_place _ _ _ _ E); by intros ?%(same_foreign _ _ _ E). Qed.

(** The two cases: a disk, or a partition with its disk. *)
Lemma placed_cases r i b s : placed r -> all_blocks r !! i = Some b -> 0 <= s < blk_size b ->
  (exists d, blk_aux b = Disk d) \/
  (exists p bd d, blk_aux b = Part p /\ all_blocks r !! p_block p = Some bd /\ blk_aux bd = Disk d /\
     p_start p +u s = p_start p + s /\ p_start p + s < blk_size bd).
Proof.
  intros Hp Hi Hs. destruct (blk_aux b) as [d|p] eqn:Ha; [left; by exists d|right].
  destruct (Hp i (blk_name b) (blk_type b) (blk_size b) (Some p)) as (Hz & Hst & n' & t' & z' & Hd & Hle).
  { rewrite Hi. unfold geometry. simpl. by rewrite Ha. }
  destruct (all_blocks r !! p_block p) as [bd|] eqn:Hbd; [|done].
  destruct (blk_aux bd) as [d|] eqn:Had; unfold geometry in Hd; simpl in Hd; rewrite Had in Hd; [|done].
  injection Hd as <- <- <-.
  destruct (Hp (p_block p) (blk_name bd) (blk_type bd) (blk_size bd) None) as [Hbz _].
  { rewrite Hbd. unfold geometry. simpl. by rewrite Had. }
  exists p, bd, d. split_and!; [done..| |lia]. apply u32_small. unfold is_u32. lia.
Qed.

Lemma reg_read_spec r i s (Q : list Z -> registry (device D) -> Prop) : placed r -> inside r i s ->
  (forall r', same_geometry r r' -> (forall j t, sector_at r' j t = sector_at r j t) ->
     Q (sector_at r (place r i s).1 (place r i s).2) r') ->
  mwp (reg_block_read 2 i s) r Q.
Proof.
  intros Hp (b & Hi & Hs) HQ. destruct (placed_cases _ _ _ _ Hp Hi Hs) as [(d & Ha)|(p & bd & d & Ha & Hbd & Had & Hu & Hlt)];
    unfold place in HQ; rewrite Hi, Ha in HQ; simpl in HQ.
  - eapply disk_block_read; [done..|lia|done].
  - cbn [reg_block_read]. wp_step. apply (the_block_spec _ _ _ _ Hi). wp_step. wp_step.
    unfold check_sector at 1. rewrite (proj2 (Z.leb_gt _ _)) by lia. apply wp_ret. rewrite Ha. wp_step.
    unfold partition_read. rewrite Hu. eapply (disk_block_read 0); [done..|]. intros r1 Hg Hsec.
    destruct (same_block _ _ _ _ Hg Hi) as (b1 & Hi1 & _).
    wp_step. eapply count_read_spec; [done|]. intros r2 Hg2 Hsec2. wp_step. apply HQ.
    + by etrans.
    + intros. by rewrite Hsec2.
Qed.
Lemma reg_write_spec r i s x (Q : unit -> registry (device D) -> Prop) : placed r -> inside r i s -> writable r i ->
  (forall r', same_geometry r r' ->
     (forall j t, sector_at r' j t = write_sector (sector_at r) (place r i s).1 (place r i s).2 x j t) -> Q tt r') ->
  mwp (reg_block_write 2 i s x) r Q.
Proof.
  intros Hp (b & Hi & Hs) [Hf Hf'] HQ.
  assert (Hb : blk_type b <> BLOCK_FOREIGN) by (intros ?; apply Hf; by exists b).
  destruct (placed_cases _ _ _ _ Hp Hi Hs) as [(d & Ha)|(p & bd & d & Ha & Hbd & Had & Hu & Hlt)];
    unfold place in HQ, Hf'; rewrite Hi, Ha in HQ, Hf'; simpl in HQ, Hf'.
  - eapply disk_block_write; [done..|lia|done|done].
  - cbn [reg_block_write]. wp_step. apply (the_block_spec _ _ _ _ Hi). wp_step. wp_step.
    unfold check_sector at 1. rewrite (proj2 (Z.leb_gt _ _)) by lia. apply wp_ret.
    wp_step. wp_step; [by rewrite bool_decide_eq_false_2|]. rewrite Ha. wp_step.
    unfold partition_write. rewrite Hu. eapply (disk_block_write 0); [done..| |].
    { intros ?. apply Hf'. by exists bd. }
    intros r1 Hg Hsec. destruct (same_block _ _ _ _ Hg Hi) as (b1 & Hi1 & _).
    eapply count_write_spec; [done|]. intros r2 Hg2 Hsec2. apply HQ.
    + by etrans.
    + intros. by rewrite Hsec2.
Qed.

(** *** Operations on several blocks in any order *)
Inductive dev_op := DRead (i : nat) (s : Z) | DWrite (i : nat) (s : Z) (x : list Z).
Definition op_ok (r : registry (device D)) (o : dev_op) : Prop :=
  match o with DRead i s => inside r i s | DWrite i s x => inside r i s /\ writable r i end.
Definition do_dev_op (o : dev_op) : M (registry (device D)) (option (list Z)) :=
  match o with
  | DRead i s => x ← reg_block_read 2 i s; mret (Some x)
  | DWrite i s x => _ ← reg_block_write 2 i s x; mret None
  end.
Fixpoint do_dev_ops (os : list dev_op) : M (registry (device D)) (list (option (list Z))) :=
  match os with [] => mret [] | o :: os' => x ← do_dev_op o; xs ← do_dev_ops os'; mret (x :: xs) end.
(** The same on the sectors of the disks, with the places the blocks of [r] have. *)
Definition spec_dev_op (r : registry (device D)) (o : dev_op) (f : nat -> Z -> list Z) : option (list Z) * (nat -> Z -> list Z) :=
  match o with
  | DRead i s => let p := place r i s in (Some (f p.1 p.2), f)
  | DWrite i s x => let p := place r i s in (None, write_sector f p.1 p.2 x)
  end.
Fixpoint spec_dev_ops (r : registry (device D)) (os : list dev_op) (f : nat -> Z -> list Z) : list (option (list Z)) * (nat -> Z -> list Z) :=
  match os with
  | [] => ([], f)
  | o :: os' => let '(x, f1) := spec_dev_op r o f in let '(xs, f2) := spec_dev_ops r os' f1 in (x :: xs, f2)
  end.

Lemma do_dev_op_spec r0 r o f (Q : option (list Z) -> registry (device D) -> Prop) : placed r0 -> same_geometry r0 r -> op_ok r0 o ->
  (forall j t, sector_at r j t = f j t) ->
  (forall r', same_geometry r0 r' -> (forall j t, sector_at r' j t = (spec_dev_op r0 o f).2 j t) -> Q (spec_dev_op r0 o f).1 r') ->
  mwp (do_dev_op o) r Q.
Proof.
  intros Hp Hg Ho Hf HQ. pose proof (same_placed _ _ Hg Hp) as Hp'. destruct o as [i s|i s x]; unfold do_dev_op; wp_step.
  - apply reg_read_spec; [done|by eapply same_inside|]. intros r' Hg' Hs. wp_step.
    rewrite (same_place _ _ _ _ Hg), Hf. apply HQ; [by etrans|]. intros. by rewrite Hs.
  - destruct Ho as [Hin Hw]. apply reg_write_spec; [done|by eapply same_inside|by eapply same_writable|].
    intros r' Hg' Hs. wp_step. apply HQ; [by etrans|]. intros j t. rewrite Hs, (same_place _ _ _ _ Hg). simpl.
    unfold write_sector. by rewrite Hf.
Qed.
Lemma do_dev_ops_spec r0 os r f : placed r0 -> same_geometry r0 r -> Forall (op_ok r0) os ->
  (forall j t, sector_at r j t = f j t) ->
  mwp (do_dev_ops os) r (fun xs r' => xs = (spec_dev_ops r0 os f).1 /\ same_geometry r0 r' /\
    forall j t, sector_at r' j t = (spec_dev_ops r0 os f).2 j t).
Proof.
  intros Hp Hg Ho. revert r f Hg. induction Ho as [|o os Ho _ IH]; intros r f Hg Hf; [done|].
  simpl. wp_step. eapply do_dev_op_spec; [done..|]. intros r1 Hg1 Hf1. wp_step.
  eapply mwp_mono; [by apply IH|]. intros xs r2 (-> & Hg2 & Hf2). wp_step.
  destruct (spec_dev_op r0 o f) as [x f1]; simpl in *. by destruct (spec_dev_ops r0 os f1) as [xs f2]; simpl in *.
Qed.
End laws.

(** ** What a scan registers *)
Definition used (e : partition_table_entry) : bool := negb ((e_size e =? 0) || (e_type e =? 0)).
Definition fits (disk_size : Z) (e : partition_table_entry) : bool := e_offset e + e_size e <=? disk_size.
Record entry_ok (e : partition_table_entry) : Prop := EntryOk { eo_offset : is_u32 (e_offset e); eo_size : is_u32 (e_size e) }.
(** The blocks for the entries [es], of which the first that is used gets the number
    [n + 1]; the descriptions of those blocks; the number of entries used. *)
Fixpoint found {D} (name : string) (size : Z) (disk : nat) (n : Z) (es : list partition_table_entry) : list (block (device D)) :=
  match es with
  | [] => []
  | e :: es' =>
      if used e then
        (if fits size e then [Block (part_name name (n + 1)) (part_block_type (e_type e)) (e_size e) (Part (Partition disk (e_offset e))) 0 0] else [])
          ++ found name size disk (n + 1) es'
      else found name size disk n es'
  end.
Fixpoint used_count (es : list partition_table_entry) : Z :=
  match es with [] => 0 | e :: es' => (if used e then 1 else 0) + used_count es' end.

Lemma substring_idem n s : String.substring 0 n (String.substring 0 n s) = String.substring 0 n s.
Proof. revert n. induction s as [|c s IH]; intros [|n]; simpl; [done..|]. by rewrite IH. Qed.
(** A sector of 512 bytes holds a table of four entries. *)
Lemma slice_bytes bytes off n : Forall is_u8 bytes -> 0 <= off -> 0 <= n -> off + n <= zlen bytes ->
  exists x, zslice bytes off n = Some x /\ Forall is_u8 x /\ zlen x = n.
Proof.
  intros Hb Ho Hn Hl. rewrite zslice_Some by done. eexists. split; [done|]. split.
  - by apply Forall_take, Forall_drop.
  - unfold zlen in *. rewrite length_take, length_drop. lia.
Qed.
Lemma entry_of_spec bytes : Forall is_u8 bytes -> zlen bytes = 16 -> wp (entry_of bytes) entry_ok.
Proof.
  intros Hb Hl. unfold entry_of.
  assert (Hn : forall i, 0 <= i < 16 -> exists x, znth bytes i = Some x).
  { intros i Hi. unfold znth. rewrite decide_True by lia. apply lookup_lt_is_Some. unfold zlen in Hl. lia. }
  destruct (Hn 0) as [x0 ->]; [lia|]. destruct (Hn 4) as [x4 ->]; [lia|].
  destruct (slice_bytes bytes 1 3) as (s & -> & _); [done|lia..|]. destruct (slice_bytes bytes 5 3) as (e & -> & _); [done|lia..|].
  destruct (slice_bytes bytes 8 4) as (o & -> & Ho & Hol); [done|lia..|].
  destruct (slice_bytes bytes 12 4) as (n & -> & Hnb & Hnl); [done|lia..|]. simpl.
  pose proof (le_val_bound o Ho) as Bo. pose proof (le_val_bound n Hnb) as Bn. rewrite Hol in Bo. rewrite Hnl in Bn.
  split; unfold is_u32; simpl; lia.
Qed.
Lemma entries_of_spec n bytes off : Forall is_u8 bytes -> 0 <= off -> off + 16 * Z.of_nat n <= zlen bytes ->
  wp (entries_of n bytes off) (fun es => Forall entry_ok es /\ length es = n).
Proof.
  intros Hb. revert off. induction n as [|n IH]; intros off Ho Hl; [done|]. cbn [entries_of].
  destruct (slice_bytes bytes off 16) as (x & -> & Hx & Hxl); [done|lia..|]. wp_step. apply wp_ret.
  wp_step. eapply wp_mono; [by apply entry_of_spec|]. intros e He. wp_step.
  eapply wp_mono; [apply IH; lia|]. intros es [Hes Hlen]. wp_step. split; [by constructor|simpl; by rewrite Hlen].
Qed.
Lemma table_of_spec bytes : Forall is_u8 bytes -> zlen bytes = 512 ->
  wp (table_of bytes) (fun pt => Forall entry_ok (partitions pt) /\ length (partitions pt) = 4%nat).
Proof.
  intros Hb Hl. unfold table_of. destruct (slice_bytes bytes 0 446) as (l & -> & _); [done|lia..|].
  wp_step. apply wp_ret. wp_step. eapply wp_mono; [apply entries_of_spec; [done|lia|rewrite Hl; lia]|]. intros es Hes.
  destruct (slice_bytes bytes 510 2) as (sg & -> & _); [done|lia..|]. wp_step. apply wp_ret. by wp_step.
Qed.

Section scan.
Context {D : Type} `{driver_ok D}.
Context (malloc_answers : nat -> bool) (no_failure : forall n, malloc_answers n = true).
Implicit Types (s : pscan D) (b : block (device D)).

Lemma malloc_or_panic_spec s (Q : unit -> pscan D -> Prop) :
  Q tt (PScan (reg s) (part_nr s) (S (mallocs s)) (infos s)) -> mwp (malloc_or_panic malloc_answers) s Q.
Proof. intros HQ. unfold malloc_or_panic. wp_step. wp_step. wp_step. wp_step. by rewrite no_failure. Qed.
Lemma in_reg_spec {A} (m : M (registry (device D)) A) s (Q : A -> pscan D -> Prop) :
  mwp m (reg s) (fun a r => Q a (PScan r (part_nr s) (mallocs s) (infos s))) -> mwp (in_reg m) s Q.
Proof. unfold mwp, in_reg. by destruct (m (reg s)) as [[a r]| | |]. Qed.
Lemma reg_block_size_spec r i b (Q : Z -> registry (device D) -> Prop) : all_blocks r !! i = Some b -> Q (blk_size b) r ->
  mwp (reg_block_size i) r Q.
Proof. intros Hi HQ. unfold reg_block_size. wp_step. by apply (the_block_spec _ _ _ _ Hi). Qed.

(** The state after the partitions [l] have been added. *)
Definition added (l : list (block (device D))) (s s' : pscan D) : Prop :=
  all_blocks (reg s') = all_blocks (reg s) ++ l /\ block_by_role (reg s') = block_by_role (reg s).
Lemma added_nil s s' : reg s' = reg s -> added [] s s'.
Proof. intros E. unfold added. by rewrite app_nil_r, E. Qed.
Lemma added_app l1 l2 s1 s2 s3 : added l1 s1 s2 -> added l2 s2 s3 -> added (l1 ++ l2) s1 s3.
Proof. unfold added. intros [E1 F1] [E2 F2]. by rewrite E2, E1, F2, F1, app_assoc. Qed.
Lemma added_lookup l s s' i b : added l s s' -> all_blocks (reg s) !! i = Some b -> all_blocks (reg s') !! i = Some b.
Proof. intros [-> _] Hi. by apply lookup_app_l_Some. Qed.

Lemma found_partition_spec s i b e n (Q : unit -> pscan D -> Prop) : all_blocks (reg s) !! i = Some b -> blk_size b < 2 ^ 32 ->
  entry_ok e -> used e = true ->
  (forall s', added (if fits (blk_size b) e then
       [Block (part_name (blk_name b) n) (part_block_type (e_type e)) (e_size e) (Part (Partition i (e_offset e))) 0 0] else []) s s' ->
     part_nr s' = part_nr s -> Q tt s') ->
  mwp (found_partition malloc_answers i (e_type e) (e_offset e) (e_size e) n) s Q.
Proof.
  intros Hi Hb [Ho Hz] Hu HQ. unfold found_partition. wp_step. apply in_reg_spec. apply (reg_block_size_spec _ _ _ _ Hi).
  apply negb_true_iff, orb_false_iff in Hu as [Hu%Z.eqb_neq _]. unfold is_u32 in Ho, Hz. unfold fits in HQ.
  assert (Hn : PScan (reg s) (part_nr s) (mallocs s) (infos s) = s) by (by destruct s). rewrite Hn.
  destruct (Z.leb_spec (blk_size b) (e_offset e)) as [Hs|Hs].
  { apply mwp_ret. apply HQ; [|done]. rewrite (proj2 (Z.leb_gt _ _)) by lia. by apply added_nil. }
  assert (Hw : (e_offset e +u e_size e <? e_offset e) || (blk_size b <? e_offset e +u e_size e) = negb (e_offset e + e_size e <=? blk_size b)).
  { destruct (Z.leb_spec (e_offset e + e_size e) (blk_size b)) as [Hle|Hle]; simpl.
    - rewrite u32_small by (unfold is_u32; lia). rewrite orb_false_iff, !Z.ltb_ge. lia.
    - rewrite orb_true_iff, !Z.ltb_lt. unfold u32.
      destruct (Z.lt_ge_cases (e_offset e + e_size e) (2 ^ 32)); [right; rewrite Z.mod_small; lia|left].
      rewrite <- (Z_mod_plus_full _ (-1)), Z.mod_small; lia. }
  rewrite Hw. destruct (e_offset e + e_size e <=? blk_size b); simpl negb.
  - cbv iota. wp_step. apply malloc_or_panic_spec. wp_step. apply in_reg_spec. apply (the_block_spec _ _ _ _ Hi).
    wp_step. apply in_reg_spec. wp_step. wp_step. apply HQ; [|done]. split; [|done]. simpl.
    unfold part_name. by rewrite substring_idem.
  - apply mwp_ret. apply HQ; [|done]. by apply added_nil.
Qed.

Lemma scan_entries_spec rec i b es s (Q : unit -> pscan D -> Prop) : all_blocks (reg s) !! i = Some b -> blk_size b < 2 ^ 32 ->
  Forall entry_ok es -> Forall (fun e => is_extended (e_type e) = false) es -> 0 <= part_nr s -> part_nr s + zlen es < 2 ^ 31 ->
  (forall s', added (found (blk_name b) (blk_size b) i (part_nr s) es) s s' -> part_nr s' = part_nr s + used_count es -> Q tt s') ->
  mwp (scan_entries malloc_answers rec i 0 0 es) s Q.
Proof.
  intros Hi Hb. revert s Hi. induction es as [|e es IH]; intros s Hi Hok Hx Hn Hl HQ.
  { apply mwp_ret. apply HQ; [|unfold used_count; simpl; unfold zlen; simpl; lia]. by apply added_nil. }
  apply list.Forall_cons in Hok as [He Hok]. apply list.Forall_cons in Hx as [Hex Hx].
  unfold zlen in *. simpl length in Hl. cbn [scan_entries]. wp_step. unfold scan_entry.
  simpl in HQ. assert (Hu : ((e_size e =? 0) || (e_type e =? 0)) = negb (used e)) by (unfold used; by rewrite negb_involutive).
  rewrite Hu. destruct (used e) eqn:Hue; simpl negb; cbv iota; cycle 1.
  { apply mwp_ret. apply IH; [done..|lia|]. intros s' Ha Hp. apply HQ; [done|lia]. }
  rewrite Hex. wp_step. wp_step. wp_step. wp_step. simpl part_nr.
  rewrite s32_small by (unfold is_s32; lia). rewrite Z.add_0_r, u32_small by apply He.
  eapply (found_partition_spec (PScan _ _ _ _)); [done..|]. simpl. intros s1 Ha1 Hp1.
  pose proof (added_lookup _ _ _ _ _ Ha1 Hi) as Hi1.
  apply IH; [done..|lia|lia|]. intros s2 Ha2 Hp2. apply HQ; [|lia].
  eapply added_app; [exact Ha1|]. by rewrite Hp1 in Ha2.
Qed.

(** New partitions inside a disk keep the registry in order and touch no sector. *)
Definition inside_disk (r : registry (device D)) (nb : block (device D)) : Prop :=
  exists p n t z, blk_aux nb = Part p /\ 0 <= blk_size nb < 2 ^ 32 /\ 0 <= p_start p /\
    geometry <$> all_blocks r !! p_block p = Some (n, t, z, None) /\ p_start p + blk_size nb <= z.
Lemma lookup_geometry_app (r r' : registry (device D)) l j g : all_blocks r' = all_blocks r ++ l ->
  geometry <$> all_blocks r !! j = Some g -> geometry <$> all_blocks r' !! j = Some g.
Proof. intros -> (x & Hx & ->)%fmap_Some. by rewrite (lookup_app_l_Some _ _ _ _ Hx). Qed.
Lemma placed_app (r r' : registry (device D)) l : placed r -> all_blocks r' = all_blocks r ++ l -> Forall (inside_disk r) l -> placed r'.
Proof.
  intros Hp E Hl j n t z op Hj. rewrite E in Hj. destruct (decide (j < length (all_blocks r))%nat) as [Hlt|Hge].
  - rewrite lookup_app_l in Hj by done. destruct (Hp _ _ _ _ _ Hj) as [Hz Ho]. split; [done|].
    destruct op as [p|]; [|done]. destruct Ho as (Hs & n' & t' & z' & Hd & Hle). split; [done|].
    exists n', t', z'. split; [by eapply lookup_geometry_app|done].
  - rewrite lookup_app_r in Hj by lia. apply fmap_Some in Hj as (nb & Hnb & Hg).
    destruct (list.Forall_lookup_1 _ _ _ _ Hl Hnb) as (p & n' & t' & z' & Ha & Hz & Hs & Hd & Hle).
    unfold geometry in Hg. rewrite Ha in Hg. injection Hg as -> -> -> ->. split; [done|]. split; [done|].
    exists n', t', z'. split; [by eapply lookup_geometry_app|done].
Qed.
Lemma sector_app (r r' : registry (device D)) l j t : all_blocks r' = all_blocks r ++ l -> Forall (inside_disk r) l ->
  sector_at r' j t = sector_at r j t.
Proof.
  intros E Hl. unfold sector_at. rewrite E. destruct (decide (j < length (all_blocks r))%nat) as [Hlt|Hge].
  - by rewrite lookup_app_l.
  - rewrite lookup_app_r, (lookup_ge_None_2 (all_blocks r)) by lia. destruct (l !! _) as [nb|] eqn:Hnb; [|done].
    destruct (list.Forall_lookup_1 _ _ _ _ Hl Hnb) as (p & ? & ? & ? & -> & _). done.
Qed.
Lemma found_inside r name size i n es t : geometry <$> all_blocks r !! i = Some (name, t, size, None) -> Forall entry_ok es ->
  Forall (inside_disk r) (found name size i n es).
Proof.
  intros Hi Hes. revert n. induction Hes as [|e es [Ho Hz] _ IH]; intros n; simpl; [constructor|].
  destruct (used e); [|done]. apply list.Forall_app. split; [|done]. unfold fits.
  destruct (Z.leb_spec (e_offset e + e_size e) size); constructor; [|constructor].
  exists (Partition i (e_offset e)), name, t, size. unfold is_u32 in *. simpl. by split_and!; try lia.
Qed.

(** Reading the sector of the table: what is left to do, and where. *)
Definition parse_table fuel i sector pes (bytes : list Z) : M (pscan D) unit :=
  pt ← lift (table_of bytes);
  if negb (signature pt =? 0xaa55) then mret tt
  else scan_entries malloc_answers (read_partition_table malloc_answers fuel i) i sector pes (partitions pt).
Lemma read_table_eq fuel i b d s sector pes :
  all_blocks (reg s) !! i = Some b -> blk_aux b = Disk d -> 0 <= sector < blk_size b ->
  exists r1 b1 d1, same_geometry (reg s) r1 /\ (forall j t, sector_at r1 j t = sector_at (reg s) j t) /\
    all_blocks r1 !! i = Some b1 /\ blk_aux b1 = Disk d1 /\ geometry b1 = geometry b /\
    (forall t, drv_sector d1 t = drv_sector d t) /\
    read_partition_table malloc_answers (S fuel) i sector pes s =
      parse_table fuel i sector pes (drv_sector d 0) (PScan r1 (part_nr s) (S (mallocs s)) (infos s)).
Proof.
  intros Hi Hd Hs. assert (mwp (reg_block_read 2 i 0) (reg s) (fun x r1 =>
    x = drv_sector d 0 /\ same_geometry (reg s) r1 /\ forall j t, sector_at r1 j t = sector_at (reg s) j t)) as (x & r1 & E & -> & Hg & Hsec)%mwp_ok.
  { eapply disk_block_read; [done..|lia|]. intros r1 Hg Hsec. split; [|done]. unfold sector_at. by rewrite Hi, Hd. }
  destruct (same_block _ _ _ _ Hg Hi) as (b1 & Hi1 & Hb1).
  destruct (blk_aux b1) as [d1|p] eqn:Hd1.
  2:{ unfold geometry in Hb1. rewrite Hd, Hd1 in Hb1. done. }
  exists r1, b1, d1. split_and!; try done.
  - intros t. pose proof (Hsec i t) as Ht. unfold sector_at in Ht. by rewrite Hi1, Hd1, Hi, Hd in Ht.
  - assert (Hsz : in_reg (reg_block_size i) s = Ok (blk_size b, s)).
    { unfold in_reg, reg_block_size, the_block, get, mbind, M_bind, lift, deref, mret, M_ret. rewrite Hi. by destruct s. }
    cbn [read_partition_table]. unfold mbind at 1, M_bind at 1. rewrite Hsz, (proj2 (Z.leb_gt _ _)) by lia.
    unfold mbind at 1, M_bind at 1. unfold malloc_or_panic. unfold mbind at 1, M_bind at 1, gets.
    unfold mbind at 1, M_bind at 1, modify. rewrite no_failure. unfold mret at 1, M_ret at 1.
    unfold mbind at 1, M_bind at 1. unfold in_reg at 1. simpl reg. by rewrite E.
Qed.

(** Before an extended entry, the others register partitions or are passed over. *)
Lemma scan_entries_hang rec i b d sector pes es1 e es2 s : blk_size b < 2 ^ 32 ->
  (forall s1, (exists b1 d1, all_blocks (reg s1) !! i = Some b1 /\ blk_aux b1 = Disk d1 /\ geometry b1 = geometry b /\
     forall t, drv_sector d1 t = drv_sector d t) -> scan_entry malloc_answers rec i sector pes e s1 = Hang) ->
  Forall entry_ok es1 -> Forall (fun e => is_extended (e_type e) = false) es1 ->
  (exists b1 d1, all_blocks (reg s) !! i = Some b1 /\ blk_aux b1 = Disk d1 /\ geometry b1 = geometry b /\
     forall t, drv_sector d1 t = drv_sector d t) ->
  scan_entries malloc_answers rec i sector pes (es1 ++ e :: es2) s = Hang.
Proof.
  intros Hb He Hok Hx. revert s. induction es1 as [|e1 es1 IH]; intros s Hs; simpl app; cbn [scan_entries].
  { unfold mbind, M_bind. by rewrite (He s Hs). }
  apply list.Forall_cons in Hok as [Ho Hok]. apply list.Forall_cons in Hx as [Hex Hx].
  assert (mwp (scan_entry malloc_answers rec i sector pes e1) s (fun _ s' => exists l, added l s s')) as (u & s1 & E & l & Hl)%mwp_ok.
  { unfold scan_entry. assert (Hu : ((e_size e1 =? 0) || (e_type e1 =? 0)) = negb (used e1)) by (unfold used; by rewrite negb_involutive).
    rewrite Hu. destruct (used e1) eqn:Hue; simpl negb; cbv iota; [|apply mwp_ret; exists []; by apply added_nil].
    rewrite Hex. wp_step. wp_step. wp_step. wp_step. destruct Hs as (b1 & d1 & Hi1 & _ & Hb1 & _).
    apply geometry_inv in Hb1 as [_ Hb1].
    apply (found_partition_spec (PScan _ _ _ _) _ b1
             (Entry (bootable e1) (start_chs e1) (e_type e1) (end_chs e1) (e_offset e1 +u sector) (e_size e1)));
      [done|lia|split; [apply u32_range|apply Ho]|done|].
    simpl. intros s1 Ha _. eexists. exact Ha. }
  unfold mbind, M_bind. rewrite E. apply IH; [done..|].
  destruct Hs as (b1 & d1 & Hi1 & Hrest). exists b1, d1. split; [by eapply added_lookup|done].
Qed.
End scan.

(** C32. Scanning a disk whose table has no extended partition registers, in the order of the
    table, exactly the entries that are used and lie inside the disk, with the type of
    their code and the name of the disk and their number; every sector of every disk
    stays as it was and the partitions of the registry lie inside their disks. *)
Theorem partition_scan_registers {D} `{driver_ok D} (malloc_answers : nat -> bool) fuel i (s : pscan D) b d pt :
  (forall n, malloc_answers n = true) -> placed (reg s) -> all_blocks (reg s) !! i = Some b -> blk_aux b = Disk d ->
  0 < blk_size b -> zlen (drv_sector d 0) = 512 -> Forall is_u8 (drv_sector d 0) ->
  table_of (drv_sector d 0) = Ok pt -> signature pt = 0xaa55 -> Forall (fun e => is_extended (e_type e) = false) (partitions pt) ->
  mwp (partition_scan malloc_answers (S fuel) i) s (fun _ s' =>
    (exists r1, same_geometry (reg s) r1 /\
       all_blocks (reg s') = all_blocks r1 ++ found (blk_name b) (blk_size b) i 0 (partitions pt)) /\
    part_nr s' = used_count (partitions pt) /\ placed (reg s') /\
    forall j t, sector_at (reg s') j t = sector_at (reg s) j t).
Proof.
  intros Hm Hp Hi Hd Hpos Hlen Hu8 Hpt Hsig Hx. unfold partition_scan. wp_step. wp_step.
  pose proof (table_of_spec _ Hu8 Hlen) as Ht. rewrite Hpt in Ht. destruct Ht as [Hes Hn].
  assert (Hsz : 0 <= blk_size b < 2 ^ 32).
  { apply (Hp i (blk_name b) (blk_type b) (blk_size b) None). rewrite Hi. unfold geometry. simpl. by rewrite Hd. }
  destruct (read_table_eq malloc_answers Hm fuel i b d (PScan (reg s) 0 (mallocs s) (infos s)) 0 0)
    as (r1 & b1 & d1 & Hg & Hsec & Hi1 & Hd1 & Hb1 & _ & E); [done..|lia|].
  eapply mwp_same; [exact E|]. unfold parse_table. rewrite Hpt. wp_step. apply mwp_lift, wp_ret. rewrite Hsig. simpl.
  pose proof Hb1 as Hgeo. apply geometry_inv in Hgeo as [_ Hz1].
  assert (Hname : blk_name b1 = blk_name b) by (unfold geometry in Hb1; congruence).
  eapply (scan_entries_spec _ Hm _ _ b1 _ (PScan _ _ _ _)); [done|lia|done..|simpl; lia|simpl; unfold zlen; rewrite Hn; lia|].
  simpl. intros s' [Ha Hr] Hnr. rewrite Hname, Hz1 in Ha.
  assert (Hf : Forall (inside_disk r1) (found (blk_name b) (blk_size b) i 0 (partitions pt))).
  { eapply (found_inside _ _ _ _ _ _ (blk_type b)); [|done]. rewrite Hi1. simpl. rewrite Hb1. unfold geometry. by rewrite Hd. }
  simpl in Ha. split_and!; [by exists r1|by rewrite Hnr| |].
  - eapply placed_app; [by eapply same_placed|done..].
  - intros j t. erewrite sector_app by done. by rewrite Hsec.
Qed.

(** When the table has an extended partition in the first half of the disk the scan does
    not end: the nested table is read from sector 0 again, so the same entry leads to
    the same sector for ever. *)
Theorem extended_scan_never_ends {D} `{driver_ok D} (malloc_answers : nat -> bool) fuel i (s : pscan D) b d pt es1 e es2 :
  (forall n, malloc_answers n = true) -> all_blocks (reg s) !! i = Some b -> blk_aux b = Disk d -> blk_size b < 2 ^ 32 ->
  zlen (drv_sector d 0) = 512 -> Forall is_u8 (drv_sector d 0) -> table_of (drv_sector d 0) = Ok pt -> signature pt = 0xaa55 ->
  partitions pt = es1 ++ e :: es2 -> Forall (fun e => is_extended (e_type e) = false) es1 ->
  is_extended (e_type e) = true -> e_size e <> 0 -> 2 * e_offset e < blk_size b ->
  partition_scan malloc_answers fuel i s = Hang.
Proof.
  intros Hm Hi Hd Hsz Hlen Hu8 Hpt Hsig Hes Hx Hext Hnz Hhalf.
  pose proof (table_of_spec _ Hu8 Hlen) as Ht. rewrite Hpt in Ht. destruct Ht as [Hok _]. rewrite Hes in Hok.
  apply list.Forall_app in Hok as [Hok1 [[Ho _] _]%list.Forall_cons]. unfold is_u32 in Ho.
  assert (Hty : e_type e <> 0) by (intros Hz; by rewrite Hz in Hext).
  unfold partition_scan, mbind, M_bind, modify.
  assert (Hgen : forall fuel s sector pes, (exists b1 d1, all_blocks (reg s) !! i = Some b1 /\ blk_aux b1 = Disk d1 /\ geometry b1 = geometry b /\
     forall t, drv_sector d1 t = drv_sector d t) -> (sector = 0 \/ sector = e_offset e \/ sector = 2 * e_offset e) ->
     (sector <> 0 -> pes = e_offset e) -> read_partition_table malloc_answers fuel i sector pes s = Hang).
  2:{ apply Hgen; [by exists b, d|by left|done]. }
  clear s Hi Hd fuel. intros fuel. induction fuel as [|fuel' IH]; intros s sector pes (b1 & d1 & Hi & Hd & Hb & Hdd) Hsec Hpes; [done|].
  pose proof (geometry_inv _ _ Hb) as [_ Hbz].
  destruct (read_table_eq malloc_answers Hm fuel' i b1 d1 s sector pes) as (r2 & b2 & d2 & _ & _ & Hi2 & Hd2 & Hb2 & Hdd2 & ->); [done|done|lia|].
  unfold parse_table. rewrite Hdd, Hpt. unfold mbind, M_bind, lift. rewrite Hsig, Hes. simpl.
  apply (scan_entries_hang malloc_answers Hm _ _ b d); [done| |done|done|].
  - intros s1 Hs1. unfold scan_entry. rewrite (proj2 (Z.eqb_neq _ _) Hnz), (proj2 (Z.eqb_neq _ _) Hty), Hext. simpl.
    destruct (Z.eqb_spec sector 0) as [|Hne]; apply IH; try done.
    + tauto.
    + rewrite (Hpes Hne). rewrite u32_small by (unfold is_u32; lia). lia.
    + intros _. by apply Hpes.
  - exists b2, d2. split_and!; [done..|by rewrite Hb2|]. intros t. by rewrite Hdd2.
Qed.

(** C33. Through the blocks of a registry whose partitions lie inside disks, any sequence of
    reads and writes inside the blocks gives exactly what plain sectors of the disks
    give, where sector [s] of a partition is sector [start + s] of its disk. *)
Theorem partitions_are_windows {D} `{driver_ok D} (r : registry (device D)) os : placed r -> Forall (op_ok r) os ->
  mwp (do_dev_ops os) r (fun xs r' => xs = (spec_dev_ops r os (sector_at r)).1 /\ same_geometry r r' /\
    forall j t, sector_at r' j t = (spec_dev_ops r os (sector_at r)).2 j t).
Proof. intros Hp Ho. by apply do_dev_ops_spec. Qed.

(** ** A small disk *)
Definition ex_entry (type off size : Z) : list Z := [0; 0; 0; 0; type; 0; 0; 0] ++ le_bytes 4 off ++ le_bytes 4 size.
Definition ex_table (es : list (list Z)) : list Z := replicate 446 0 ++ concat es ++ [0x55; 0xaa].
Definition ex_disk (es : list (list Z)) : registry (device ram_disk) :=
  Registry [Block "hda" BLOCK_RAW 100 (Disk {[ 0 := ex_table es ]}) 0 0] [None; None; None; None].
(** A file system, an entry not in use, one past the end and a swap area. *)
Definition ex_plain : list (list Z) := [ex_entry 0x21 8 40; ex_entry 0 0 0; ex_entry 0x20 90 11; ex_entry 0x23 60 40].
Definition ex_extended : list (list Z) := [ex_entry 0x21 8 12; ex_entry 0x05 20 80; ex_entry 0 0 0; ex_entry 0 0 0].

Example scan_plain : match partition_scan (fun _ => true) 1 0 (PScan (ex_disk ex_plain) 0 0 []) with
  | Ok (_, s) => (fun b => (blk_name b, blk_type b, blk_size b)) <$> all_blocks (reg s) =
      [("hda", BLOCK_RAW, 100); ("hda1", BLOCK_FILESYS, 40); ("hda3", BLOCK_SWAP, 40)] /\
      infos s = ["Pintos file system (21)"; "Pintos swap (23)"] /\ part_nr s = 3
  | _ => False end.
Proof. vm_compute. done. Qed.

Lemma bytes_ok l : forallb (fun b => (0 <=? b) && (b <? 256)) l = true -> Forall is_u8 l.
Proof.
  intros E. apply list.Forall_forall. intros x Hx. unfold is_u8.
  apply list_elem_of_In in Hx. pose proof (proj1 (forallb_forall _ _) E x Hx) as [?%Z.leb_le ?%Z.ltb_lt]%andb_prop. lia.
Qed.
Lemma ex_placed es : placed (ex_disk es).
Proof. intros [|[|i]] n t z op Hi; cbn in Hi; [|done..]. injection Hi as <- <- <- <-. split; [lia|done]. Qed.

Lemma partition_scan_registers_witness : mwp (partition_scan (fun _ => true) 1 0) (PScan (ex_disk ex_plain) 0 0 [])
  (fun _ s' => length (all_blocks (reg s')) = 3%nat /\ placed (reg s')).
Proof.
  eapply mwp_mono.
  - eapply (partition_scan_registers (fun _ => true) 0 0 (PScan (ex_disk ex_plain) 0 0 []));
      [done|apply ex_placed|reflexivity|reflexivity|reflexivity|reflexivity|apply bytes_ok; reflexivity|reflexivity|reflexivity|].
    repeat constructor.
  - intros u s' ((r1 & Hg & E) & _ & Hp & _). split; [|done]. rewrite E.
    pose proof (Hg 0%nat) as H0. pose proof (Hg 1%nat) as H1.
    destruct (all_blocks r1) as [|b [|b' l]]; [done| |done]. vm_compute. done.
Defined.
Lemma extended_scan_never_ends_witness fuel : partition_scan (fun _ => true) fuel 0 (PScan (ex_disk ex_extended) 0 0 []) = Hang.
Proof.
  eapply (extended_scan_never_ends (fun _ => true) fuel 0 (PScan (ex_disk ex_extended) 0 0 []) _ _ _ [_] _ _);
    [done|reflexivity|reflexivity|reflexivity|reflexivity|apply bytes_ok; reflexivity|reflexivity|reflexivity|reflexivity|repeat constructor|reflexivity|done|reflexivity].
Defined.

(** A disk and two windows of it. *)
Definition ex_windows : registry (device ram_disk) :=
  Registry [Block "hda" BLOCK_RAW 100 (Disk (∅ : ram_disk)) 0 0;
            Block "hda1" BLOCK_FILESYS 40 (Part (Partition 0 8)) 0 0; Block "hda2" BLOCK_SWAP 40 (Part (Partition 0 60)) 0 0]
           [None; None; None; None].
Lemma partitions_are_windows_witness : mwp (do_dev_ops [DWrite 1 3 [7]; DWrite 2 3 [9]; DRead 0 11; DRead 1 3]) ex_windows
  (fun xs r' => xs = [None; None; Some [7]; Some [7]] /\ sector_at r' 0 63 = [9]).
Proof.
  eapply mwp_mono; [apply (partitions_are_windows ex_windows)|].
  - intros [|[|[|i]]] n t z op Hi; cbn in Hi; [| | |done]; injection Hi as <- <- <- <-; (split; [lia|]); [done|..];
      (split; [done|]); exists "hda", BLOCK_RAW, 100; done.
  - assert (Hw : forall i, (i < 3)%nat -> writable ex_windows i).
    { intros [|[|[|i]]] Hi; [..|lia]; split; intros (b & E & Ht); injection E as <-; done. }
    repeat constructor; try (apply Hw; lia); eexists; (split; [reflexivity|simpl; lia]).
  - intros xs r' (-> & _ & Hs). split; [reflexivity|]. rewrite Hs. reflexivity.
Defined.
