(* ===== verification/Io.v ===== *)
(** * Io: the ports, the timer chip (devices/pit.c) and the speaker (devices/speaker.c)

    What the devices behind the ports do is not in the sources: the class [ports] has the
    functions of threads/io.h that the drivers use, on a state of the hardware.  A driver
    works on that state and the threads' ([hw]); the laws a theorem needs of a device are
    a class of their own beside the driver. *)
From S2P Require Import Prelude.
From S2P Require Import Sched.
From S2P Require Import Timer.

(** The last argument is the hardware; a value written is cut to its width. *)
Class ports (P : Type) := {
  port_in : Z -> P -> Z * P;
  port_out : Z -> Z -> P -> P;
  port_out_word : Z -> Z -> P -> P;
}.
Record hw (P : Type) := Hw { hk : kst; hp : P }.
Arguments Hw {P}.
Arguments hk {P}.
Arguments hp {P}.

Section io.
Context {P : Type} `{ports P}.
Abbreviation HM := (M (hw P)).

Definition h_kst {A} (m : TM A) : HM A := fun s =>
  match m (hk s) with Ok (a, k) => Ok (a, Hw k (hp s)) | Panic => Panic | Fault => Fault | Hang => Hang end.
Definition inb (port : Z) : HM Z := fun s => let '(v, p) := port_in port (hp s) in Ok (v, Hw (hk s) p).
Definition outb (port data : Z) : HM unit := modify (fun s => Hw (hk s) (port_out port (u8 data) (hp s))).
Definition outw (port data : Z) : HM unit := modify (fun s => Hw (hk s) (port_out_word port (data mod 2 ^ 16) (hp s))).

(** ** devices/pit.c *)
Definition PIT_PORT_CONTROL : Z := 0x43.
Definition PIT_PORT_COUNTER (channel : Z) : Z := 0x40 + channel.
Definition PIT_HZ : Z := 1193180.
Definition pit_count (frequency : Z) : Z :=
  if frequency <? 19 then 0
  else if PIT_HZ <? frequency then 2
  else ((PIT_HZ + frequency ÷ 2) ÷ frequency) mod 2 ^ 16.
Definition pit_configure_channel (channel mode frequency : Z) : HM unit :=
  _ ← assert ((channel =? 0) || (channel =? 2));
  _ ← assert ((mode =? 2) || (mode =? 3));
  let count := pit_count frequency in
  old_level ← h_kst intr_disable;
  _ ← outb PIT_PORT_CONTROL (Z.lor (Z.lor (Z.shiftl channel 6) 0x30) (Z.shiftl mode 1));
  _ ← outb (PIT_PORT_COUNTER channel) count;
  _ ← outb (PIT_PORT_COUNTER channel) (Z.shiftr count 8);
  _ ← h_kst (intr_set_level old_level); mret tt.

(** ** devices/speaker.c *)
Definition SPEAKER_PORT_GATE : Z := 0x61.
Definition SPEAKER_GATE_ENABLE : Z := 0x03.
Definition speaker_off : HM unit :=
  old_level ← h_kst intr_disable;
  g ← inb SPEAKER_PORT_GATE;
  _ ← outb SPEAKER_PORT_GATE (Z.land g (Z.lnot SPEAKER_GATE_ENABLE));
  _ ← h_kst (intr_set_level old_level); mret tt.
Definition speaker_on (frequency : Z) : HM unit :=
  if (20 <=? frequency) && (frequency <=? 20000) then
    old_level ← h_kst intr_disable;
    _ ← pit_configure_channel 2 3 frequency;
    g ← inb SPEAKER_PORT_GATE;
    _ ← outb SPEAKER_PORT_GATE (Z.lor g SPEAKER_GATE_ENABLE);
    _ ← h_kst (intr_set_level old_level); mret tt
  else speaker_off.
(** [lpt] is the calibration of the timer. *)
Definition speaker_beep (lpt : Z) : HM unit :=
  l ← h_kst intr_get_level;
  if (l : bool) then
    _ ← speaker_on 440; _ ← h_kst (timer_msleep lpt 250); speaker_off
  else mret tt.

(** ** Lemmas *)
Definition with_k (k : kst) (s : hw P) : hw P := Hw k (hp s).
Lemma h_kst_spec {A} (m : TM A) (s : hw P) (Q : A -> hw P -> Prop) : mwp m (hk s) (fun a k => Q a (Hw k (hp s))) -> mwp (h_kst m) s Q.
Proof. unfold mwp, h_kst. by destruct (m (hk s)) as [[a k]| | |]. Qed.
Lemma disable_spec (s : hw P) (Q : bool -> hw P -> Prop) : Q (intr_on (the_cpu (hk s))) (Hw (with_intr false (hk s)) (hp s)) ->
  mwp (h_kst intr_disable) s Q.
Proof. intros HQ. apply h_kst_spec. unfold intr_disable, intr_get_level, set_intr. repeat wp_step. exact HQ. Qed.
(** Interrupts may be on only outside handlers. *)
Definition level_ok (k : kst) : Prop := intr_on (the_cpu k) = true -> in_external_intr (the_cpu k) = false.
Lemma set_level_spec l (s : hw P) (Q : bool -> hw P -> Prop) : (l = true -> in_external_intr (the_cpu (hk s)) = false) ->
  (forall b, Q b (Hw (with_intr l (hk s)) (hp s))) -> mwp (h_kst (intr_set_level l)) s Q.
Proof.
  intros Hl HQ. apply h_kst_spec. destruct l; cbn [intr_set_level].
  - unfold intr_enable, intr_get_level, intr_context, set_intr. wp_step. wp_step. wp_step. wp_step. wp_step.
    wp_step; [by rewrite Hl|]. repeat wp_step. apply HQ.
  - unfold intr_disable, intr_get_level, set_intr. repeat wp_step. apply HQ.
Qed.
Lemma level_ok_off k : level_ok (with_intr false k).
Proof. done. Qed.
(** Interrupts off, something on the ports alone, interrupts as they were. *)
Lemma restore_spec (s : hw P) p (Q : bool -> hw P -> Prop) : level_ok (hk s) -> (forall b, Q b (Hw (hk s) p)) ->
  mwp (h_kst (intr_set_level (intr_on (the_cpu (hk s))))) (Hw (with_intr false (hk s)) p) Q.
Proof.
  intros Hl HQ. apply set_level_spec; [exact Hl|]. intros b. simpl. rewrite with_intr_twice, with_intr_same. apply HQ.
Qed.
Lemma inb_spec port (s : hw P) (Q : Z -> hw P -> Prop) : (forall v p, port_in port (hp s) = (v, p) -> Q v (Hw (hk s) p)) -> mwp (inb port) s Q.
Proof. unfold mwp, inb. intros HQ. destruct (port_in port (hp s)) as [v p]. by apply HQ. Qed.

(** The ports after the timer chip has been told [count]. *)
Definition pit_written (channel mode count : Z) (p : P) : P :=
  port_out (PIT_PORT_COUNTER channel) (count / 256)
    (port_out (PIT_PORT_COUNTER channel) (count mod 256)
       (port_out PIT_PORT_CONTROL (channel * 64 + 48 + mode * 2) p)).
Lemma pit_count_range f : 0 <= pit_count f < 2 ^ 16.
Proof. unfold pit_count, PIT_HZ. destruct (f <? 19), (1193180 <? f); try lia; apply Z.mod_pos_bound; lia. Qed.
Lemma pit_configure_spec c m f (s : hw P) (Q : unit -> hw P -> Prop) : (c = 0 \/ c = 2) -> (m = 2 \/ m = 3) -> level_ok (hk s) ->
  Q tt (Hw (hk s) (pit_written c m (pit_count f) (hp s))) -> mwp (pit_configure_channel c m f) s Q.
Proof.
  intros Hc Hm Hl HQ. unfold pit_configure_channel. wp_step. wp_step; [by destruct Hc; subst|].
  wp_step. wp_step; [by destruct Hm; subst|]. wp_step. apply disable_spec.
  wp_step. unfold outb. wp_step. wp_step. wp_step. wp_step. wp_step. wp_step. simpl.
  apply restore_spec; [done|]. intros b. wp_step.
  pose proof (pit_count_range f). unfold pit_written in HQ.
  assert (u8 (Z.lor (Z.lor (Z.shiftl c 6) 48) (Z.shiftl m 1)) = c * 64 + 48 + m * 2) as ->.
  { destruct Hc as [-> | ->], Hm as [-> | ->]; reflexivity. }
  rewrite Z.shiftr_div_pow2 by lia. change (2 ^ 8) with 256. unfold u8. change (2 ^ 8) with 256.
  rewrite (Z.mod_small (pit_count f / 256)); [exact HQ|]. split; [apply Z.div_pos; lia|]. apply Z.div_lt_upper_bound; lia.
Qed.
End io.

(** The count is the rounded quotient of the chip's frequency; it fits 16 bits. *)
Lemma pit_count_rounds f : 19 <= f <= PIT_HZ -> 1 <= pit_count f < 2 ^ 16 /\ 2 * Z.abs (PIT_HZ - pit_count f * f) <= f.
Proof.
  intros Hf. unfold pit_count. rewrite (proj2 (Z.ltb_ge _ _)), (proj2 (Z.ltb_ge _ _)) by lia.
  unfold PIT_HZ in *. rewrite (Z.quot_div_nonneg f) by lia.
  assert (0 <= f / 2) by (apply Z.div_pos; lia). rewrite Z.quot_div_nonneg by lia. pose proof (Z_div_mod_eq_full f 2). pose proof (Z.mod_pos_bound f 2).
  set (h := f / 2) in *. set (q := (1193180 + h) / f).
  pose proof (Z_div_mod_eq_full (1193180 + h) f) as E. pose proof (Z.mod_pos_bound (1193180 + h) f). fold q in E.
  assert (1 <= q) by (apply Z.div_le_lower_bound; lia).
  assert (q < 65536) by (apply Z.div_lt_upper_bound; lia).
  rewrite Z.mod_small by lia. split; [lia|]. lia.
Qed.
(** Above two thirds of the chip's frequency the count is 1, which its mode 2 excludes. *)
Example pit_count_illegal : pit_count 800000 = 1.
Proof. reflexivity. Qed.
