(* ===== verification/Vga.v ===== *)
(** * Vga: the text screen (devices/vga.c)

    The frame buffer is 25 rows of 80 cells, a character and an attribute each; the
    cursor is kept in the driver and told to the hardware, whose cursor registers are the
    class [crtc].  The reference is a tape: the rows of everything written, of which the
    screen shows the last 25. *)
From S2P Require Import Prelude.
From S2P Require Import Vaddr.
From S2P Require Import Sched.
From S2P Require Import Timer.
From S2P Require Import Io.

Definition COL_CNT : Z := 80.
Definition ROW_CNT : Z := 25.
Definition GRAY_ON_BLACK : Z := 0x07.
Abbreviation cell := (Z * Z)%type.
Record vga := Vga { cx : Z; cy : Z; fb : list (list cell); inited : bool }.
Record screen (P : Type) := Screen { sh : hw P; sv : vga }.
Arguments Screen {P}.
Arguments sh {P}.
Arguments sv {P}.

Section vga.
Context {P : Type} `{ports P}.
Abbreviation VM := (M (screen P)).
Definition v_hw {A} (m : M (hw P) A) : VM A := fun s =>
  match m (sh s) with Ok (a, h) => Ok (a, Screen h (sv s)) | Panic => Panic | Fault => Fault | Hang => Hang end.
Definition v_upd (f : vga -> vga) : VM unit := modify (fun s => Screen (sh s) (f (sv s))).
Definition set_cx (x : Z) : VM unit := v_upd (fun v => Vga x (cy v) (fb v) (inited v)).
Definition set_cy (y : Z) : VM unit := v_upd (fun v => Vga (cx v) y (fb v) (inited v)).
Definition set_fb (f : list (list cell)) : VM unit := v_upd (fun v => Vga (cx v) (cy v) f (inited v)).
(** [fb[y][x][0] = c; fb[y][x][1] = GRAY_ON_BLACK;] *)
Definition set_cell (y x c : Z) : VM unit :=
  f ← gets (fun s => fb (sv s)); row ← lift (deref (znth f y)); row' ← lift (deref (zset row x (c, GRAY_ON_BLACK)));
  f' ← lift (deref (zset f y row')); set_fb f'.

Fixpoint clear_cells (n : nat) (y x : Z) : VM unit :=
  match n with O => mret tt | S n' => _ ← set_cell y x 32; clear_cells n' y (x + 1) end.
Definition clear_row (y : Z) : VM unit := clear_cells 80 y 0.
Fixpoint clear_rows (n : nat) (y : Z) : VM unit :=
  match n with O => mret tt | S n' => _ ← clear_row y; clear_rows n' (y + 1) end.
Definition move_cursor : VM unit :=
  v ← gets sv;
  let cp := (cx v +u COL_CNT *u cy v) mod 2 ^ 16 in
  _ ← v_hw (outw 0x3d4 (Z.lor 0x0e (Z.land cp 0xff00)));
  v_hw (outw 0x3d4 (Z.lor 0x0f (Z.shiftl cp 8))).
Definition find_cursor : VM (Z * Z) :=
  _ ← v_hw (outb 0x3d4 0x0e); h ← v_hw (inb 0x3d5);
  _ ← v_hw (outb 0x3d4 0x0f); l ← v_hw (inb 0x3d5);
  let cp := Z.lor (Z.shiftl h 8 mod 2 ^ 16) l in mret (cp mod COL_CNT, cp / COL_CNT).
Definition init : VM unit :=
  v ← gets sv;
  if negb (inited v) then
    '(x, y) ← find_cursor; v_upd (fun v => Vga x y (fb v) true)
  else mret tt.
Definition cls : VM unit := _ ← clear_rows 25 0; _ ← set_cx 0; _ ← set_cy 0; move_cursor.
(** [memmove (&fb[0], &fb[1], sizeof fb[0] * (ROW_CNT - 1))] *)
Definition scroll : VM unit :=
  f ← gets (fun s => fb (sv s)); up ← lift (deref (zslice f 1 (ROW_CNT - 1))); f' ← lift (deref (zsplice f 0 up)); set_fb f'.
Definition newline : VM unit :=
  _ ← set_cx 0; v ← gets sv; _ ← set_cy (cy v +u 1);
  if ROW_CNT <=? cy v +u 1 then _ ← set_cy (ROW_CNT - 1); _ ← scroll; clear_row (ROW_CNT - 1) else mret tt.

(** The switch of [vga_putc]; [lpt] is the timer's calibration, for the beep. *)
Definition put_char (lpt : Z) (old_level : bool) (c : Z) : VM unit :=
  v ← gets sv;
  if c =? 10 then newline
  else if c =? 12 then cls
  else if c =? 8 then (if 0 <? cx v then set_cx (cx v -u 1) else mret tt)
  else if c =? 13 then set_cx 0
  else if c =? 9 then
    _ ← set_cx (ROUND_UP (cx v +u 1) 8);
    if COL_CNT <=? ROUND_UP (cx v +u 1) 8 then newline else mret tt
  else if c =? 7 then
    _ ← v_hw (h_kst (intr_set_level old_level)); _ ← v_hw (speaker_beep lpt); _ ← v_hw (h_kst intr_disable); mret tt
  else
    _ ← set_cell (cy v) (cx v) (u8 c);
    _ ← set_cx (cx v +u 1);
    if COL_CNT <=? cx v +u 1 then newline else mret tt.
Definition vga_putc (lpt : Z) (c : Z) : VM unit :=
  old_level ← v_hw (h_kst intr_disable);
  _ ← init;
  _ ← put_char lpt old_level c;
  _ ← move_cursor;
  _ ← v_hw (h_kst (intr_set_level old_level)); mret tt.
Fixpoint vga_puts (lpt : Z) (cs : list Z) : VM unit :=
  match cs with [] => mret tt | c :: cs' => _ ← vga_putc lpt c; vga_puts lpt cs' end.
End vga.

(** ** The cursor registers of the hardware *)
Class crtc (P : Type) `{ports P} := {
  crtc_index : P -> Z;
  crtc_reg : P -> Z -> Z;
  crtc_select : forall v p, 0 <= v < 256 -> crtc_index (port_out 0x3d4 v p) = v;
  crtc_select_reg : forall v p i, crtc_reg (port_out 0x3d4 v p) i = crtc_reg p i;
  crtc_read : forall p, let '(v, p') := port_in 0x3d5 p in
    v = crtc_reg p (crtc_index p) /\ crtc_index p' = crtc_index p /\ forall i, crtc_reg p' i = crtc_reg p i;
  crtc_write : forall i v p j, 0 <= i < 256 -> 0 <= v < 256 ->
    crtc_reg (port_out_word 0x3d4 (i + 256 * v) p) j = if decide (j = i) then v else crtc_reg p j;
}.

(** ** The reference: a tape of rows without end *)
Record tape := Tape { rows : list (list cell); tx : nat; ty : nat }.
Definition blank_row : list cell := replicate 80 (32, GRAY_ON_BLACK).
Definition blank_tape : tape := Tape (replicate 25 blank_row) 0 0.
Definition tape_newline (t : tape) : tape :=
  Tape (if (S (ty t) =? length (rows t))%nat then rows t ++ [blank_row] else rows t) 0 (S (ty t)).
Definition tape_wrap (t : tape) : tape := if (80 <=? tx t)%nat then tape_newline t else t.
Definition tape_putc (c : Z) (t : tape) : tape :=
  if c =? 10 then tape_newline t
  else if c =? 12 then blank_tape
  else if c =? 8 then Tape (rows t) (tx t - 1) (ty t)
  else if c =? 13 then Tape (rows t) 0 (ty t)
  else if c =? 9 then tape_wrap (Tape (rows t) (8 * (tx t / 8 + 1)) (ty t))
  else if c =? 7 then t
  else tape_wrap (Tape (alter (fun row => <[tx t := (u8 c, GRAY_ON_BLACK)]> row) (ty t) (rows t)) (S (tx t)) (ty t)).
Definition tape_puts (cs : list Z) (t : tape) : tape := foldl (fun t c => tape_putc c t) t cs.
(** The screen [v] shows the last 25 rows of [t], and the cursor in them. *)
Record shows (t : tape) (v : vga) : Prop := Shows {
  sh_rows : (25 <= length (rows t))%nat;
  sh_width : Forall (fun row => length row = 80%nat) (rows t);
  sh_x : (tx t < 80)%nat;
  sh_y : (length (rows t) - 25 <= ty t < length (rows t))%nat;
  sh_fb : fb v = drop (length (rows t) - 25) (rows t);
  sh_cx : cx v = Z.of_nat (tx t);
  sh_cy : cy v = Z.of_nat (ty t - (length (rows t) - 25));
}.

Definition with_fb (f : list (list cell)) (v : vga) : vga := Vga (cx v) (cy v) f (inited v).
Section spec.
Context {P : Type} `{crtc P}.
Implicit Types (s : screen P) (F : list (list cell)).

Lemma v_hw_spec {A} (m : M (hw P) A) s (Q : A -> screen P -> Prop) : mwp m (sh s) (fun a h => Q a (Screen h (sv s))) -> mwp (v_hw m) s Q.
Proof. unfold mwp, v_hw. by destruct (m (sh s)) as [[a h]| | |]. Qed.
Lemma v_upd_spec f s (Q : unit -> screen P -> Prop) : Q tt (Screen (sh s) (f (sv s))) -> mwp (v_upd f) s Q.
Proof. done. Qed.

(** *** The frame buffer *)
Lemma set_cell_spec s (y x : nat) c row (Q : unit -> screen P -> Prop) : fb (sv s) !! y = Some row -> (x < length row)%nat ->
  Q tt (Screen (sh s) (with_fb (<[y := <[x := (c, GRAY_ON_BLACK)]> row]> (fb (sv s))) (sv s))) ->
  mwp (set_cell (Z.of_nat y) (Z.of_nat x) c) s Q.
Proof.
  intros Hy Hx HQ. pose proof (lookup_lt_Some _ _ _ Hy). unfold set_cell. wp_step. wp_step. wp_step. wp_step.
  unfold znth. rewrite decide_True, Nat2Z.id by lia. eapply wp_deref; [done|].
  wp_step. wp_step. unfold zset at 1. rewrite decide_True, Nat2Z.id by lia. apply wp_ret.
  wp_step. wp_step. unfold zset. rewrite decide_True, Nat2Z.id by lia. apply wp_ret. exact HQ.
Qed.
Lemma with_fb_twice F F' v : with_fb F (with_fb F' v) = with_fb F v.
Proof. done. Qed.
Lemma clear_cells_spec n : forall s (y x : nat) row (Q : unit -> screen P -> Prop), fb (sv s) !! y = Some row -> (x + n = length row)%nat ->
  Q tt (Screen (sh s) (with_fb (<[y := take x row ++ replicate n (32, GRAY_ON_BLACK)]> (fb (sv s))) (sv s))) ->
  mwp (clear_cells n (Z.of_nat y) (Z.of_nat x)) s Q.
Proof.
  induction n as [|n IH]; intros s y x row Q Hy Hx HQ; cbn [clear_cells].
  - apply mwp_ret. rewrite app_nil_r, firstn_all2, list_insert_id in HQ by (done || lia). by destruct s as [? [? ? ? ?]].
  - wp_step. eapply set_cell_spec; [done|lia|]. replace (Z.of_nat x + 1) with (Z.of_nat (S x)) by lia.
    pose proof (lookup_lt_Some _ _ _ Hy).
    eapply IH; simpl; [by rewrite list_lookup_insert_eq|rewrite length_insert; lia|].
    rewrite with_fb_twice, list_insert_insert_eq. erewrite take_S_r by (apply list_lookup_insert_eq; lia).
    rewrite take_insert_ge by lia. rewrite <- app_assoc. exact HQ.
Qed.
Lemma clear_row_spec s (y : nat) row (Q : unit -> screen P -> Prop) : fb (sv s) !! y = Some row -> length row = 80%nat ->
  Q tt (Screen (sh s) (with_fb (<[y := blank_row]> (fb (sv s))) (sv s))) -> mwp (clear_row (Z.of_nat y)) s Q.
Proof. intros Hy Hr HQ. apply (clear_cells_spec 80 s y 0 row); [done|lia|exact HQ]. Qed.
Lemma clear_rows_spec n : forall s (y : nat) (Q : unit -> screen P -> Prop), (y + n = length (fb (sv s)))%nat ->
  Forall (fun row => length row = 80%nat) (fb (sv s)) ->
  Q tt (Screen (sh s) (with_fb (take y (fb (sv s)) ++ replicate n blank_row) (sv s))) -> mwp (clear_rows n (Z.of_nat y)) s Q.
Proof.
  induction n as [|n IH]; intros s y Q Hy Hr HQ; cbn [clear_rows].
  - apply mwp_ret. rewrite app_nil_r, firstn_all2 in HQ by lia. by destruct s as [? [? ? ? ?]].
  - wp_step. destruct (lookup_lt_is_Some_2 (fb (sv s)) y) as [row Hrow]; [lia|].
    eapply clear_row_spec; [done|exact (list.Forall_lookup_1 _ _ _ _ Hr Hrow)|]. replace (Z.of_nat y + 1) with (Z.of_nat (S y)) by lia.
    apply IH; simpl; [rewrite length_insert; lia|by apply list.Forall_insert|].
    rewrite with_fb_twice. erewrite take_S_r by (apply list_lookup_insert_eq; lia).
    rewrite take_insert_ge by lia. rewrite <- app_assoc. exact HQ.
Qed.
Lemma scroll_spec s (Q : unit -> screen P -> Prop) F row last : fb (sv s) = row :: F ++ [last] -> length F = 23%nat ->
  Q tt (Screen (sh s) (with_fb (F ++ [last; last]) (sv s))) -> mwp scroll s Q.
Proof.
  intros E HF HQ. unfold scroll. wp_step. wp_step. wp_step. wp_step. rewrite E.
  assert (Hl : zlen (row :: F ++ [last]) = 25) by (unfold zlen; simpl; rewrite length_app; simpl; lia).
  rewrite zslice_Some by (rewrite ?Hl; unfold ROW_CNT; lia). apply wp_ret.
  change (Z.to_nat (ROW_CNT - 1)) with 24%nat. change (drop (Z.to_nat 1) (row :: F ++ [last])) with (F ++ [last]).
  rewrite firstn_all2 by (rewrite length_app; simpl; lia).
  wp_step. wp_step. unfold zsplice. rewrite decide_True by (rewrite Hl; unfold zlen; rewrite length_app; simpl; lia).
  apply wp_ret. change (Z.to_nat 0) with 0%nat. simpl take. rewrite length_app, HF. simpl length.
  change (drop (0 + (23 + 1)) (row :: F ++ [last])) with (drop 23 (F ++ [last])).
  rewrite drop_app_ge, HF, <- app_assoc by lia. exact HQ.
Qed.

(** *** One character *)
Lemma set_cx_spec s x (Q : unit -> screen P -> Prop) : (forall v, v = Vga x (cy (sv s)) (fb (sv s)) (inited (sv s)) -> Q tt (Screen (sh s) v)) -> mwp (set_cx x) s Q.
Proof. intros HQ. by apply (HQ _ eq_refl). Qed.
Lemma newline_spec s t (Q : unit -> screen P -> Prop) : shows (Tape (rows t) 0 (ty t)) (Vga 0 (cy (sv s)) (fb (sv s)) (inited (sv s))) ->
  (forall v', shows (tape_newline t) v' -> inited v' = inited (sv s) -> Q tt (Screen (sh s) v')) -> mwp newline s Q.
Proof.
  intros [Hr Hw Hx Hy Hf Hcx Hcy] HQ. simpl in *. unfold newline. wp_step. apply v_upd_spec. wp_step. wp_step. wp_step.
  apply v_upd_spec. simpl. unfold ROW_CNT.
  rewrite u32_small by (unfold is_u32; lia). unfold tape_newline in HQ.
  destruct (Nat.eqb_spec (S (ty t)) (length (rows t))) as [E|E].
  - rewrite (proj2 (Z.leb_le _ _)) by lia. wp_step. apply v_upd_spec. simpl.
    assert (Hl : length (fb (sv s)) = 25%nat) by (rewrite Hf, length_drop; lia).
    destruct (fb (sv s)) as [|row F0] eqn:HF; [done|].
    destruct (exists_last (l := F0)) as (F & last & ->); [by intros ->|].
    simpl in Hl. rewrite length_app in Hl. simpl in Hl.
    wp_step. eapply scroll_spec; [done|lia|].
    assert (Hlast : length last = 80%nat).
    { apply (list.Forall_forall (fun row => length row = 80%nat) (rows t)); [done|]. rewrite <- (take_drop (length (rows t) - 25) (rows t)), <- Hf.
      apply list_elem_of_In, in_or_app. right. right. apply in_or_app. right. by left. }
    change (25 - 1) with (Z.of_nat 24). eapply clear_row_spec; simpl; [|exact Hlast|].
    { rewrite lookup_app_r, (ltac:(lia) : (24 - length F = 1)%nat) by lia. done. }
    apply HQ; [|done]. split; simpl.
    + rewrite length_app. simpl. lia.
    + apply list.Forall_app. split; [done|]. by constructor.
    + lia.
    + rewrite length_app. simpl. lia.
    + rewrite insert_app_r_alt, (ltac:(lia) : (24 - length F = 1)%nat) by lia. simpl.
      rewrite length_app. simpl. replace (length (rows t) + 1 - 25)%nat with (length (rows t) - 25 + 1)%nat by lia.
      rewrite <- drop_drop, drop_app_le, <- Hf by lia. simpl. by rewrite <- app_assoc.
    + done.
    + rewrite length_app. simpl. lia.
  - rewrite (proj2 (Z.leb_gt _ _)) by lia. wp_step. apply HQ; [|done].
    split; simpl; try done; lia.
Qed.
Lemma shows_row t v : shows t v -> exists row, fb v !! (ty t - (length (rows t) - 25))%nat = Some row /\
  rows t !! ty t = Some row /\ length row = 80%nat.
Proof.
  intros [Hr Hw Hx Hy Hf Hcx Hcy]. destruct (lookup_lt_is_Some_2 (rows t) (ty t)) as [row Hrow]; [lia|].
  exists row. split_and!; [|done|exact (list.Forall_lookup_1 _ _ _ _ Hw Hrow)].
  rewrite Hf, lookup_drop. by rewrite (ltac:(lia) : (length (rows t) - 25 + (ty t - (length (rows t) - 25)) = ty t)%nat).
Qed.
Lemma wrap_spec s t (Q : unit -> screen P -> Prop) : (tx t <= 80)%nat ->
  shows (Tape (rows t) 0 (ty t)) (Vga 0 (cy (sv s)) (fb (sv s)) (inited (sv s))) -> cx (sv s) = Z.of_nat (tx t) ->
  (forall v', shows (tape_wrap t) v' -> inited v' = inited (sv s) -> Q tt (Screen (sh s) v')) ->
  mwp (if COL_CNT <=? Z.of_nat (tx t) then newline else mret tt) s Q.
Proof.
  intros Hx Hs Hcx HQ. unfold tape_wrap in HQ. unfold COL_CNT. destruct (Nat.leb_spec 80 (tx t)) as [Hle|Hgt].
  - rewrite (proj2 (Z.leb_le _ _)) by lia. by eapply newline_spec.
  - rewrite (proj2 (Z.leb_gt _ _)) by lia. apply mwp_ret. destruct Hs as [Hr Hw _ Hy Hf _ Hcy]. simpl in *.
    destruct s as [h v]. apply HQ; [|done]. by split.
Qed.
Lemma put_char_spec lpt l c s t (Q : unit -> screen P -> Prop) : shows t (sv s) -> c <> 7 -> c <> 12 ->
  (forall v', shows (tape_putc c t) v' -> inited v' = inited (sv s) -> Q tt (Screen (sh s) v')) -> mwp (put_char lpt l c) s Q.
Proof.
  intros Hs Hc7 Hc12 HQ. pose proof Hs as [Hr Hw Hx Hy Hf Hcx Hcy]. unfold put_char, tape_putc in *. wp_step. wp_step.
  assert (Hs0 : shows (Tape (rows t) 0 (ty t)) (Vga 0 (cy (sv s)) (fb (sv s)) (inited (sv s)))) by (split; simpl; try done; lia).
  destruct (c =? 10); [by eapply newline_spec|].
  rewrite (proj2 (Z.eqb_neq _ _) Hc12) in *.
  destruct (c =? 8).
  { destruct (Z.ltb_spec 0 (cx (sv s))) as [Hp|Hp].
    - apply v_upd_spec. apply HQ; [|done]. rewrite u32_small by (unfold is_u32; lia). split; simpl; try done; lia.
    - apply mwp_ret. rewrite (ltac:(lia) : (tx t - 1 = 0)%nat) in HQ. destruct s as [h v]. apply HQ; [|done].
      split; simpl in *; try done; lia. }
  destruct (c =? 13); [apply v_upd_spec; by apply HQ|].
  destruct (c =? 9).
  { assert (Hru : ROUND_UP (cx (sv s) +u 1) 8 = Z.of_nat (8 * (tx t / 8 + 1))).
    { unfold ROUND_UP. rewrite Hcx. pose proof (Nat.div_mod_eq (tx t) 8). pose proof (Nat.mod_upper_bound (tx t) 8).
      set (x := Z.of_nat (tx t)). assert (0 <= x < 80) by lia.
      rewrite (u32_small (x + 1)), (u32_small (x + 1 + 8)), (u32_small (x + 1 + 8 - 1)) by (unfold is_u32; lia).
      rewrite u32_small by (unfold is_u32; dlia). unfold x in *. dlia. }
    rewrite Hru. wp_step. apply v_upd_spec.
    apply (wrap_spec _ (Tape (rows t) (8 * (tx t / 8 + 1)) (ty t))); [|done|done|by intros; apply HQ]. cbn [tx].
    pose proof (Nat.div_mod_eq (tx t) 8). lia. }
  rewrite (proj2 (Z.eqb_neq _ _) Hc7) in *.
  destruct (shows_row _ _ Hs) as (row & Hfr & Hrr & Hrl).
  wp_step. rewrite Hcy, Hcx. eapply set_cell_spec; [exact Hfr|lia|]. wp_step. apply v_upd_spec. simpl.
  rewrite u32_small by (unfold is_u32; lia). replace (Z.of_nat (tx t) + 1) with (Z.of_nat (S (tx t))) by lia.
  pose proof (lookup_lt_Some _ _ _ Hrr).
  set (t1 := Tape (alter (fun row => <[tx t := (u8 c, GRAY_ON_BLACK)]> row) (ty t) (rows t)) (S (tx t)) (ty t)) in *.
  apply (wrap_spec _ t1); simpl; [lia| |done|by intros; apply HQ].
  split; simpl; rewrite ?length_alter; try done; try lia.
  - apply list.Forall_alter; [done|]. intros x Hx' Hlx. by rewrite length_insert.
  - rewrite Hf. apply list_eq. intros i. rewrite lookup_drop.
    destruct (decide (i = ty t - (length (rows t) - 25))%nat) as [->|Hi].
    + rewrite list_lookup_insert_eq by (rewrite length_drop; lia).
      rewrite (ltac:(lia) : (length (rows t) - 25 + (ty t - (length (rows t) - 25)) = ty t)%nat), list_lookup_alter_eq, Hrr. done.
    + rewrite list_lookup_insert_ne by done. rewrite list_lookup_alter_ne by lia. by rewrite lookup_drop.
Qed.

(** *** The cursor of the hardware *)
Definition cursor (p : P) : Z := crtc_reg p 14 * 256 + crtc_reg p 15.
Definition cursor_bytes (p : P) : Prop := 0 <= crtc_reg p 14 < 256 /\ 0 <= crtc_reg p 15 < 256.
Lemma cursor_words x : 0 <= x < 2000 ->
  Z.lor 0x0e (Z.land x 0xff00) mod 2 ^ 16 = 14 + 256 * (x / 256) /\ Z.lor 0x0f (Z.shiftl x 8) mod 2 ^ 16 = 15 + 256 * (x mod 256).
Proof.
  intros Hx.
  assert (E : forallb (fun n => let x := Z.of_nat n in (Z.lor 0x0e (Z.land x 0xff00) mod 2 ^ 16 =? 14 + 256 * (x / 256)) &&
    (Z.lor 0x0f (Z.shiftl x 8) mod 2 ^ 16 =? 15 + 256 * (x mod 256))) (seq 0 2000) = true) by (vm_compute; reflexivity).
  rewrite forallb_forall in E. specialize (E (Z.to_nat x)). rewrite in_seq in E. specialize (E ltac:(lia)).
  cbv zeta in E. rewrite Z2Nat.id in E by lia. apply andb_prop in E as [E1%Z.eqb_eq E2%Z.eqb_eq]. done.
Qed.
Lemma move_cursor_spec s (Q : unit -> screen P -> Prop) : 0 <= cx (sv s) < 80 -> 0 <= cy (sv s) < 25 ->
  (forall p, cursor_bytes p -> cursor p = cx (sv s) + 80 * cy (sv s) -> Q tt (Screen (Hw (hk (sh s)) p) (sv s))) -> mwp move_cursor s Q.
Proof.
  intros Hx Hy HQ. unfold move_cursor. wp_step. wp_step. wp_step. apply v_hw_spec. unfold outw. wp_step. apply v_hw_spec. wp_step. simpl.
  unfold COL_CNT. rewrite (u32_small (80 * cy (sv s))), u32_small by (unfold is_u32; lia).
  set (cp := cx (sv s) + 80 * cy (sv s)) in *. rewrite (Z.mod_small cp) by lia.
  destruct (cursor_words cp) as [-> ->]; [lia|].
  assert (0 <= cp / 256 < 256) by (split; [apply Z.div_pos; lia|apply Z.div_lt_upper_bound; lia]).
  assert (0 <= cp mod 256 < 256) by (apply Z.mod_pos_bound; lia).
  assert (E : forall p0, let p := port_out_word 0x3d4 (15 + 256 * (cp mod 256)) (port_out_word 0x3d4 (14 + 256 * (cp / 256)) p0) in
    crtc_reg p 14 = cp / 256 /\ crtc_reg p 15 = cp mod 256).
  { intros p0. simpl. by rewrite !crtc_write by lia. }
  destruct (E (hp (sh s))) as [E14 E15]. apply HQ; unfold cursor_bytes, cursor; rewrite E14, E15; [done|].
  rewrite (Z.mul_comm (cp / 256)). symmetry. apply Z_div_mod_eq_full.
Qed.
Lemma read_reg_spec i s (Q : Z -> screen P -> Prop) : 0 <= i < 256 ->
  (forall p, (forall j, crtc_reg p j = crtc_reg (hp (sh s)) j) -> Q (crtc_reg p i) (Screen (Hw (hk (sh s)) p) (sv s))) ->
  mwp (v_hw (outb 0x3d4 i)) s (fun _ s1 => mwp (v_hw (inb 0x3d5)) s1 Q).
Proof.
  intros Hi HQ. apply v_hw_spec. unfold outb. wp_step. simpl. apply v_hw_spec, inb_spec. simpl. intros v p E.
  unfold u8 in E. rewrite Z.mod_small in E by lia.
  pose proof (crtc_read (port_out 0x3d4 i (hp (sh s)))) as Hr. rewrite E in Hr. destruct Hr as (-> & _ & Hj).
  rewrite crtc_select by done. rewrite <- Hj. apply HQ. intros j. by rewrite Hj, crtc_select_reg.
Qed.
Lemma find_cursor_spec s (Q : Z * Z -> screen P -> Prop) : cursor_bytes (hp (sh s)) ->
  (forall p, (forall j, crtc_reg p j = crtc_reg (hp (sh s)) j) ->
     Q (cursor (hp (sh s)) mod 80, cursor (hp (sh s)) / 80) (Screen (Hw (hk (sh s)) p) (sv s))) -> mwp find_cursor s Q.
Proof.
  intros [H14 H15] HQ. unfold find_cursor. wp_step. eapply mwp_mono.
  { apply (read_reg_spec 14 s (fun h s1 => h = crtc_reg (hp (sh s)) 14 /\ exists p, (forall j, crtc_reg p j = crtc_reg (hp (sh s)) j) /\ s1 = Screen (Hw (hk (sh s)) p) (sv s))); [lia|].
    intros p Hp. split; [by rewrite Hp|]. by exists p. }
  intros u s0 Hm. wp_step. eapply mwp_mono; [exact Hm|]. intros h s1 (-> & p1 & Hp1 & ->). wp_step. eapply mwp_mono.
  { apply (read_reg_spec 15 _ (fun l s2 => l = crtc_reg (hp (sh s)) 15 /\ exists p, (forall j, crtc_reg p j = crtc_reg (hp (sh s)) j) /\ s2 = Screen (Hw (hk (sh s)) p) (sv s))); [lia|].
    simpl. intros p Hp. split; [by rewrite Hp|]. exists p. split; [|done]. intros j. by rewrite Hp. }
  intros u' s2 Hm2. wp_step. eapply mwp_mono; [exact Hm2|]. intros l s3 (-> & p2 & Hp2 & ->). wp_step.
  rewrite Z.shiftl_mul_pow2 by lia. rewrite (Z.mod_small (_ * 2 ^ 8)) by lia. change (2 ^ 8) with 256.
  assert (Z.lor (crtc_reg (hp (sh s)) 14 * 256) (crtc_reg (hp (sh s)) 15) = cursor (hp (sh s))) as ->.
  { unfold cursor. apply (lor_low _ _ 8); [lia| |lia]. change (2 ^ 8) with 256. apply Z_mod_mult. }
  by apply HQ.
Qed.

(** *** Text *)
Lemma cls_spec s t (Q : unit -> screen P -> Prop) : shows t (sv s) ->
  (forall p v', cursor_bytes p -> shows blank_tape v' -> inited v' = inited (sv s) -> Q tt (Screen (Hw (hk (sh s)) p) v')) -> mwp cls s Q.
Proof.
  intros [Hr Hw Hx Hy Hf Hcx Hcy] HQ. unfold cls. wp_step. apply (clear_rows_spec 25 s 0).
  { rewrite Hf, length_drop. lia. }
  { rewrite Hf. by apply list.Forall_drop. }
  wp_step. apply v_upd_spec. wp_step. apply v_upd_spec. apply move_cursor_spec; [done|done|]. intros p Hb _. apply HQ; [done| |done].
  split; simpl; try done; try lia. repeat constructor.
Qed.
(** The driver and, before it is used first, the hardware's cursor agree with [t]. *)
Definition located (s : screen P) (t : tape) : Prop :=
  level_ok (hk (sh s)) /\
  if inited (sv s) then shows t (sv s)
  else cursor_bytes (hp (sh s)) /\
    shows t (Vga (cursor (hp (sh s)) mod 80) (cursor (hp (sh s)) / 80) (fb (sv s)) true).
(** The hardware's cursor is the driver's. *)
Definition cursor_shown (s : screen P) : Prop := cursor_bytes (hp (sh s)) /\ cursor (hp (sh s)) = cx (sv s) + 80 * cy (sv s).
Lemma init_spec s t (Q : unit -> screen P -> Prop) :
  (if inited (sv s) then shows t (sv s) else cursor_bytes (hp (sh s)) /\
    shows t (Vga (cursor (hp (sh s)) mod 80) (cursor (hp (sh s)) / 80) (fb (sv s)) true)) ->
  (forall p v', shows t v' -> inited v' = true -> Q tt (Screen (Hw (hk (sh s)) p) v')) -> mwp init s Q.
Proof.
  intros Hs HQ. unfold init. wp_step. wp_step. destruct (inited (sv s)) eqn:Hi; simpl negb.
  - apply mwp_ret. destruct s as [[k p] v]. by apply HQ.
  - destruct Hs as [Hb Hs]. wp_step. apply find_cursor_spec; [done|]. intros p _. apply v_upd_spec. simpl. by apply HQ.
Qed.
Lemma shows_bounds t v : shows t v -> 0 <= cx v < 80 /\ 0 <= cy v < 25.
Proof. intros []. lia. Qed.
Lemma vga_putc_spec lpt c s t (Q : unit -> screen P -> Prop) : located s t -> c <> 7 ->
  (forall s', located s' (tape_putc c t) -> inited (sv s') = true -> cursor_shown s' -> hk (sh s') = hk (sh s) -> Q tt s') ->
  mwp (vga_putc lpt c) s Q.
Proof.
  intros [Hl Hs] Hc HQ. unfold vga_putc. wp_step. apply v_hw_spec, disable_spec. wp_step.
  apply (init_spec _ t); [exact Hs|]. intros p1 v1 Hs1 Hi1. simpl.
  assert (Hend : forall p v', shows (tape_putc c t) v' -> inited v' = true ->
    mwp (_ ← move_cursor; _ ← v_hw (h_kst (intr_set_level (intr_on (the_cpu (hk (sh s)))))); mret tt)
      (Screen (Hw (with_intr false (hk (sh s))) p) v') Q).
  { intros p v' Hv Hi. pose proof (shows_bounds _ _ Hv) as [Hbx Hby]. wp_step. apply move_cursor_spec; [done..|].
    intros p' Hb Hcur. simpl. wp_step. apply v_hw_spec, restore_spec; [exact Hl|]. intros b. wp_step.
    apply HQ; [|done|done|done]. split; [done|]. simpl. by rewrite Hi. }
  wp_step. destruct (Z.eq_dec c 12) as [->|Hc12].
  - unfold put_char. wp_step. wp_step. change (12 =? 10) with false. change (12 =? 12) with true. cbv iota.
    apply (cls_spec _ t); [done|]. intros p v' _ Hv Hi. apply Hend; [done|by rewrite Hi].
  - eapply put_char_spec; [done..|]. intros v' Hv Hi. apply Hend; [done|by rewrite Hi].
Qed.
End spec.

(** C34. Any text without the bell leaves on the screen the last 25 rows of the tape on which
    the text is written, wrapped at 80 columns, with both cursors at its end; interrupts
    are as they were. *)
Theorem vga_shows_the_tape {P} `{crtc P} lpt cs (s : screen P) t : located s t -> Forall (fun c => c <> 7) cs ->
  mwp (vga_puts lpt cs) s (fun _ s' => located s' (tape_puts cs t) /\ hk (sh s') = hk (sh s) /\
    (cs <> [] -> shows (tape_puts cs t) (sv s') /\ cursor_shown s')).
Proof.
  intros Hs Hcs. revert s t Hs. induction Hcs as [|c cs Hc _ IH]; intros s t Hs; [done|].
  cbn [vga_puts]. wp_step. eapply vga_putc_spec; [done..|]. intros s1 Hs1 Hi1 Hcur Hk.
  destruct cs as [|c' cs'].
  { apply mwp_ret. split_and!; [done..|]. intros _. destruct Hs1 as [_ Hs1]. by rewrite Hi1 in Hs1. }
  eapply mwp_mono; [by apply IH|]. intros [] s2 (Hs2 & Hk2 & Hrest). split_and!; [done|by rewrite Hk2|].
  intros _. by apply Hrest.
Qed.

(** ** A display that has just been switched on *)
Record display := Display { d_index : Z; d_regs : gmap Z Z }.
#[export] Instance display_ports : ports display := {|
  port_in q d := if q =? 0x3d5 then (default 0 (d_regs d !! d_index d), d) else (0, d);
  port_out q v d := if q =? 0x3d4 then Display v (d_regs d) else d;
  port_out_word q w d := if q =? 0x3d4 then Display (w mod 256) (<[w mod 256 := w / 256]> (d_regs d)) else d;
|}.
#[export, refine] Instance display_crtc : crtc display := {|
  crtc_index := d_index; crtc_reg d i := default 0 (d_regs d !! i) |}.
Proof.
  - done.
  - done.
  - done.
  - intros i v p j Hi Hv. simpl.
    assert ((i + 256 * v) mod 256 = i) as -> by (rewrite Z.mul_comm, Z_mod_plus_full; by apply Z.mod_small).
    assert ((i + 256 * v) / 256 = v) as -> by (rewrite Z.mul_comm, Z.div_add, Z.div_small by lia; lia).
    case_decide; subst; [by rewrite lookup_insert_eq|by rewrite lookup_insert_ne].
Defined.
Definition ex_screen : screen display := Screen (Hw ex_kst (Display 0 {[ 14 := 0; 15 := 85 ]})) (Vga 0 0 (replicate 25 blank_row) false).
Definition ex_screen_tape : tape := Tape (replicate 25 blank_row) 5 1.
Lemma ex_screen_located : located ex_screen ex_screen_tape.
Proof. split; [done|]. split; [split; vm_compute; split; congruence|]. split; try (vm_compute; lia || reflexivity). repeat constructor. Qed.
Lemma vga_shows_the_tape_witness : mwp (vga_puts 0 [72; 105; 9; 33; 10]) ex_screen (fun _ s' =>
  cx (sv s') = 0 /\ cy (sv s') = 2 /\ exists row, fb (sv s') !! 1%nat = Some row /\ take 9 row = take 5 blank_row ++ [(72, 7); (105, 7); (32, 7); (33, 7)]).
Proof.
  eapply mwp_mono; [apply (vga_shows_the_tape 0 [72; 105; 9; 33; 10] ex_screen ex_screen_tape ex_screen_located); repeat constructor; done|].
  intros u s' (_ & _ & Hs). destruct Hs as [Hs _]; [done|]. destruct Hs as [_ _ _ _ Hf Hx Hy].
  rewrite Hf, Hx, Hy. split; [reflexivity|]. split; [reflexivity|]. eexists. split; reflexivity.
Defined.
