(* ===== verification/Gdt.v ===== *)
(** * Gdt: segment descriptors and the task state segment (userprog/gdt.c, userprog/tss.c)

    The processor's reading of a descriptor ([segment_of]) is that of the IA-32 manual;
    the theorem reads back what [make_seg_desc] packs. *)
From S2P Require Import Prelude.
From S2P Require Import Vaddr.

(** ** Selectors (threads/loader.h, userprog/gdt.h) *)
Definition SEL_NULL : Z := 0x00.
Definition SEL_KCSEG : Z := 0x08.
Definition SEL_KDSEG : Z := 0x10.
Definition SEL_UCSEG : Z := 0x1B.
Definition SEL_UDSEG : Z := 0x23.
Definition SEL_TSS : Z := 0x28.
Definition SEL_CNT : Z := 6.

Definition CLS_SYSTEM : Z := 0.
Definition CLS_CODE_DATA : Z := 1.
Definition GRAN_BYTE : Z := 0.
Definition GRAN_PAGE : Z := 1.

Definition make_seg_desc (base limit class type dpl granularity : Z) : res Z :=
  _ ← ASSERT (limit <=? 0xfffff);
  _ ← ASSERT ((class =? CLS_SYSTEM) || (class =? CLS_CODE_DATA));
  _ ← ASSERT ((0 <=? type) && (type <=? 15));
  _ ← ASSERT ((0 <=? dpl) && (dpl <=? 3));
  _ ← ASSERT ((granularity =? GRAN_BYTE) || (granularity =? GRAN_PAGE));
  let e0 := Z.lor (Z.land limit 0xffff) (u32 (Z.shiftl base 16)) in
  let e1 := Z.lor (Z.lor (Z.lor (Z.lor (Z.lor (Z.lor (Z.lor (Z.lor
              (Z.land (Z.shiftr base 16) 0xff)
              (Z.shiftl type 8)) (Z.shiftl class 12)) (Z.shiftl dpl 13)) (Z.shiftl 1 15))
              (Z.land limit 0xf0000)) (Z.shiftl 1 22)) (Z.shiftl granularity 23)) (Z.land base 0xff000000) in
  mret (Z.lor e0 (Z.shiftl e1 32)).
Definition make_code_desc (dpl : Z) : res Z := make_seg_desc 0 0xfffff CLS_CODE_DATA 10 dpl GRAN_PAGE.
Definition make_data_desc (dpl : Z) : res Z := make_seg_desc 0 0xfffff CLS_CODE_DATA 2 dpl GRAN_PAGE.
Definition make_tss_desc (laddr : Z) : res Z := make_seg_desc laddr 0x67 CLS_SYSTEM 9 0 GRAN_BYTE.
Definition make_gdtr_operand (limit base : Z) : Z := Z.lor limit (Z.shiftl base 16).

(** The fields of [struct tss] that are ever set. *)
Record tss_seg := Tss { esp0 : Z; ss0 : Z; bitmap : Z }.
(** [palloc_get_page (PAL_ASSERT | PAL_ZERO)] is the caller's: a page [running + PGSIZE]
    is the end of the current thread's stack. *)
Definition tss_update (current : Z) (t : tss_seg) : tss_seg := Tss (current +u PGSIZE) (ss0 t) (bitmap t).
Definition tss_init (current : Z) : tss_seg := tss_update current (Tss 0 SEL_KDSEG 0xdfff).
Definition tss_get (tss : Z) : res Z := _ ← ASSERT (negb (tss =? 0)); mret tss.

(** The table, and the operand for the register that points to it. *)
Definition gdt_set (gdt : list Z) (sel d : Z) : res (list Z) := deref (zset gdt (sel / 8) d).
Definition gdt_init (gdt : list Z) (gdt_addr tss : Z) : res (list Z * Z) :=
  g ← gdt_set gdt SEL_NULL 0;
  d ← make_code_desc 0; g ← gdt_set g SEL_KCSEG d;
  d ← make_data_desc 0; g ← gdt_set g SEL_KDSEG d;
  d ← make_code_desc 3; g ← gdt_set g SEL_UCSEG d;
  d ← make_data_desc 3; g ← gdt_set g SEL_UDSEG d;
  t ← tss_get tss; d ← make_tss_desc t; g ← gdt_set g SEL_TSS d;
  mret (g, make_gdtr_operand (8 * SEL_CNT - 1) gdt_addr).

(** ** How the processor reads a descriptor *)
Definition field (d a n : Z) : Z := d / 2 ^ a mod 2 ^ n.
Record segment := Segment {
  s_base : Z; s_limit : Z; s_type : Z; s_class : Z; s_dpl : Z; s_present : Z; s_32bit : Z; s_granularity : Z }.
Definition segment_of (d : Z) : segment :=
  Segment (field d 16 24 + 2 ^ 24 * field d 56 8) (field d 0 16 + 2 ^ 16 * field d 48 4)
          (field d 40 4) (field d 44 1) (field d 45 2) (field d 47 1) (field d 54 1) (field d 55 1).
(** The highest byte a segment gives access to, from its base. *)
Definition segment_end (s : segment) : Z :=
  if s_granularity s =? 1 then s_limit s * 4096 + 4095 else s_limit s.

(** ** Lemmas on fields *)
Lemma lor_high x f a : 0 <= a -> 0 <= f < 2 ^ a -> x mod 2 ^ a = 0 -> Z.lor f x = f + x.
Proof. intros. rewrite Z.lor_comm, (lor_low _ _ a) by done. lia. Qed.
Lemma land_field x a n : 0 <= a -> 0 <= n -> Z.land x (Z.shiftl (Z.ones n) a) = field x a n * 2 ^ a.
Proof.
  intros Ha Hn. unfold field. rewrite <- Z.shiftr_div_pow2, <- Z.land_ones, <- Z.shiftl_mul_pow2 by lia.
  apply Z.bits_inj'. intros k Hk. rewrite Z.land_spec, !Z.shiftl_spec by lia.
  destruct (Z.lt_ge_cases k a); [rewrite !(Z.testbit_neg_r _ (k - a)) by lia; apply andb_false_r|].
  rewrite Z.land_spec, Z.shiftr_spec by lia. by replace (k - a + a) with k by lia.
Qed.
Lemma shiftl_mod x a b : 0 <= b <= a -> Z.shiftl x a mod 2 ^ b = 0.
Proof.
  intros. rewrite Z.shiftl_mul_pow2 by lia. replace (2 ^ a) with (2 ^ (a - b) * 2 ^ b) by (rewrite <- Z.pow_add_r; f_equal; lia).
  rewrite Z.mul_assoc. apply Z_mod_mult.
Qed.
(** The two words of a segment descriptor as sums of their fields. *)
Lemma seg_words base limit class type dpl g : is_u32 base -> 0 <= limit <= 0xfffff -> 0 <= class <= 1 -> 0 <= type <= 15 ->
  0 <= dpl <= 3 -> 0 <= g <= 1 ->
  make_seg_desc base limit class type dpl g = Ok (
    limit mod 65536 + base mod 65536 * 65536 + 4294967296 *
    (base / 65536 mod 256 + type * 256 + class * 4096 + dpl * 8192 + 32768 + limit / 65536 * 65536 + 4194304 + g * 8388608 + base / 16777216 * 16777216)).
Proof.
  unfold is_u32. intros Hb Hl Hc Ht Hd Hg. unfold make_seg_desc.
  assert (limit <=? 0xfffff = true) as -> by (apply Z.leb_le; lia).
  assert ((class =? CLS_SYSTEM) || (class =? CLS_CODE_DATA) = true) as -> by (assert (class = 0 \/ class = 1) as [-> | ->] by lia; done).
  assert ((0 <=? type) && (type <=? 15) = true) as -> by (bool_goal; lia).
  assert ((0 <=? dpl) && (dpl <=? 3) = true) as -> by (bool_goal; lia).
  assert ((g =? GRAN_BYTE) || (g =? GRAN_PAGE) = true) as -> by (assert (g = 0 \/ g = 1) as [-> | ->] by lia; done).
  cbn [ASSERT mbind res_bind]. unfold mret, res_ret. f_equal.
  change 0xffff with (Z.shiftl (Z.ones 16) 0). change 0xff with (Z.shiftl (Z.ones 8) 0).
  change 0xf0000 with (Z.shiftl (Z.ones 4) 16). change 0xff000000 with (Z.shiftl (Z.ones 8) 24).
  rewrite !land_field by lia. unfold field. rewrite !Z.shiftl_mul_pow2, Z.shiftr_div_pow2 by lia. unfold u32.
  change (2 ^ 0) with 1. change (2 ^ 4) with 16. change (2 ^ 8) with 256. change (2 ^ 12) with 4096. change (2 ^ 13) with 8192.
  change (2 ^ 15) with 32768. change (2 ^ 16) with 65536. change (2 ^ 22) with 4194304. change (2 ^ 23) with 8388608.
  change (2 ^ 24) with 16777216. change (2 ^ 32) with 4294967296. rewrite !Z.mul_1_r, !Z.div_1_r. change (2 ^ 32) with 4294967296 in Hb.
  rewrite (lor_high (_ mod 4294967296) _ 16); [|lia|change (2 ^ 16) with 65536; dlia|change (2 ^ 16) with 65536; dlia].
  rewrite (lor_high (type * 256) _ 8); [|lia|change (2 ^ 8) with 256; dlia|change (2 ^ 8) with 256; dlia].
  rewrite (lor_high (class * 4096) _ 12); [|lia|change (2 ^ 12) with 4096; dlia|change (2 ^ 12) with 4096; dlia].
  rewrite (lor_high (dpl * 8192) _ 13); [|lia|change (2 ^ 13) with 8192; dlia|change (2 ^ 13) with 8192; dlia].
  rewrite (lor_high (1 * 32768) _ 15); [|lia|change (2 ^ 15) with 32768; dlia|change (2 ^ 15) with 32768; dlia].
  rewrite (lor_high (limit / 65536 mod 16 * 65536) _ 16); [|lia|change (2 ^ 16) with 65536; dlia|change (2 ^ 16) with 65536; dlia].
  rewrite (lor_high (1 * 4194304) _ 22); [|lia|change (2 ^ 22) with 4194304; dlia|change (2 ^ 22) with 4194304; dlia].
  rewrite (lor_high (g * 8388608) _ 23); [|lia|change (2 ^ 23) with 8388608; dlia|change (2 ^ 23) with 8388608; dlia].
  rewrite (lor_high (base / 16777216 mod 256 * 16777216) _ 24); [|lia|change (2 ^ 24) with 16777216; dlia|change (2 ^ 24) with 16777216; dlia].
  rewrite (lor_high _ _ 32); [|lia|change (2 ^ 32) with 4294967296; dlia|change (2 ^ 32) with 4294967296; apply Z_mod_mult].
  dlia.
Qed.

(** The fields of a sum of two words whose fields do not overlap. *)
Lemma field_mod d a n m : 0 <= a -> 0 <= n -> a + n <= m -> field (d mod 2 ^ m) a n = field d a n.
Proof.
  intros. unfold field. rewrite <- !Z.shiftr_div_pow2, <- !Z.land_ones by lia. apply Z.bits_inj'. intros k Hk.
  rewrite !Z.land_spec, !Z.shiftr_spec, Z.land_spec by lia.
  destruct (Z.lt_ge_cases k n); [|by rewrite (Z.ones_spec_high n) by lia; rewrite !andb_false_r].
  by rewrite (Z.ones_spec_low m), andb_true_r by lia.
Qed.
Lemma field_low w0 w1 a n : 0 <= a -> 0 <= n -> a + n <= 32 -> field (w0 + 4294967296 * w1) a n = field w0 a n.
Proof.
  intros. rewrite <- (field_mod (_ + _) a n 32), <- (field_mod w0 a n 32) by lia. change (2 ^ 32) with 4294967296.
  by rewrite Z.mul_comm, Z_mod_plus_full.
Qed.
Lemma field_high w0 w1 a n : 0 <= w0 < 4294967296 -> 32 <= a -> field (w0 + 4294967296 * w1) a n = field w1 (a - 32) n.
Proof.
  intros. unfold field. replace (2 ^ a) with (4294967296 * 2 ^ (a - 32)).
  2:{ change 4294967296 with (2 ^ 32). rewrite <- Z.pow_add_r by lia. f_equal. lia. }
  rewrite <- Z.div_div by lia. rewrite (Z.mul_comm 4294967296 w1), Z.div_add, (Z.div_small w0), Z.add_0_l by lia. done.
Qed.
(** A part of 24 bits and the 8 bits above it. *)
Lemma split_u32 x : is_u32 x -> x mod 65536 + 65536 * (x / 65536 mod 256) + 16777216 * (x / 16777216) = x.
Proof. unfold is_u32. intros. dlia. Qed.

Lemma seg_desc_reads base limit class type dpl g : is_u32 base -> 0 <= limit <= 0xfffff -> 0 <= class <= 1 ->
  0 <= type <= 15 -> 0 <= dpl <= 3 -> 0 <= g <= 1 ->
  wp (make_seg_desc base limit class type dpl g) (fun d => is_u64 d /\
    segment_of d = Segment base limit type class dpl 1 1 g).
Proof.
  intros Hb Hl Hc Ht Hd Hg. rewrite seg_words by done. apply wp_ret.
  set (w0 := limit mod 65536 + base mod 65536 * 65536).
  set (w1 := base / 65536 mod 256 + type * 256 + class * 4096 + dpl * 8192 + 32768 + limit / 65536 * 65536 + 4194304 + g * 8388608 + base / 16777216 * 16777216).
  unfold is_u32 in Hb. change (2 ^ 32) with 4294967296 in Hb.
  assert (H0 : 0 <= w0 < 4294967296) by (unfold w0; dlia).
  assert (H1 : 0 <= w1 < 4294967296) by (unfold w1; dlia).
  split; [unfold is_u64; lia|]. unfold segment_of.
  rewrite (field_high w0 w1 56), (field_high w0 w1 48), (field_high w0 w1 40), (field_high w0 w1 44), (field_high w0 w1 45),
    (field_high w0 w1 47), (field_high w0 w1 54), (field_high w0 w1 55) by lia.
  rewrite (field_low w0 w1 0 16) by lia.
  replace (field (w0 + 4294967296 * w1) 16 24) with (w0 / 65536 + 65536 * (w1 mod 256)).
  2:{ unfold field. change (2 ^ 16) with 65536. change (2 ^ 24) with 16777216. dlia. }
  unfold field. simpl Z.sub. change (2 ^ 0) with 1. change (2 ^ 1) with 2. change (2 ^ 2) with 4. change (2 ^ 4) with 16.
  change (2 ^ 8) with 256. change (2 ^ 12) with 4096. change (2 ^ 13) with 8192. change (2 ^ 15) with 32768.
  change (2 ^ 16) with 65536. change (2 ^ 22) with 4194304. change (2 ^ 23) with 8388608. change (2 ^ 24) with 16777216.
  unfold w0, w1 in *. f_equal; dlia.
Qed.

(** C35. What [make_seg_desc] packs into the 64 bits of a descriptor the processor reads back:
    base, limit, type, class, privilege level and granularity, present and 32-bit. *)
Theorem seg_desc_roundtrip base limit class type dpl g : is_u32 base -> 0 <= limit <= 0xfffff -> 0 <= class <= 1 ->
  0 <= type <= 15 -> 0 <= dpl <= 3 -> 0 <= g <= 1 ->
  wp (make_seg_desc base limit class type dpl g) (fun d => is_u64 d /\
    segment_of d = Segment base limit type class dpl 1 1 g).
Proof. apply seg_desc_reads. Qed.
Lemma seg_desc_roundtrip_witness : wp (make_seg_desc 0xc0123456 0x67 CLS_SYSTEM 9 0 GRAN_BYTE) (fun d => segment_of d = Segment 0xc0123456 0x67 9 0 0 1 1 0).
Proof.
  eapply wp_mono; [apply (seg_desc_roundtrip 0xc0123456 0x67 CLS_SYSTEM 9 0 GRAN_BYTE); unfold is_u32, CLS_SYSTEM, GRAN_BYTE; lia|].
  intros d [_ Hd]. exact Hd.
Defined.

(** The segments the selectors name after [gdt_init]: code and data of the kernel and of
    user programs, each the whole address space, and the task state segment. *)
Definition selects (gdt : list Z) (sel : Z) (s : segment) : Prop := exists d, znth gdt (sel / 8) = Some d /\ segment_of d = s.
Theorem gdt_init_segments gdt gdt_addr tss : zlen gdt = SEL_CNT -> is_u32 tss -> tss <> 0 ->
  wp (gdt_init gdt gdt_addr tss) (fun '(g, _) =>
    (forall sel type dpl, (sel, type, dpl) ∈ [(SEL_KCSEG, 10, 0); (SEL_KDSEG, 2, 0); (SEL_UCSEG, 10, 3); (SEL_UDSEG, 2, 3)] ->
       exists s, selects g sel s /\ s_base s = 0 /\ segment_end s = 2 ^ 32 - 1 /\ s_type s = type /\ s_dpl s = dpl /\ s_class s = 1 /\ s_present s = 1) /\
    selects g SEL_TSS (Segment tss 0x67 9 0 0 1 1 0)).
Proof.
  intros Hl Ht Hn. unfold zlen, SEL_CNT in Hl. do 7 (destruct gdt as [|? gdt]; try (simpl in Hl; lia)).
  assert (wp (make_seg_desc tss 0x67 CLS_SYSTEM 9 0 GRAN_BYTE) (fun d => is_u64 d /\ segment_of d = Segment tss 0x67 9 0 0 1 1 0))
    as (d & Ed & _ & Hd)%wp_ok by (apply seg_desc_reads; [done|..]; unfold CLS_SYSTEM, GRAN_BYTE; lia).
  unfold gdt_init, make_tss_desc, tss_get. rewrite (proj2 (Z.eqb_neq _ _) Hn).
  set (code := fun dpl => default 0 (match make_code_desc dpl with Ok d => Some d | _ => None end)).
  set (data := fun dpl => default 0 (match make_data_desc dpl with Ok d => Some d | _ => None end)).
  change (make_code_desc 0) with (Ok (code 0)). change (make_code_desc 3) with (Ok (code 3)).
  change (make_data_desc 0) with (Ok (data 0)). change (make_data_desc 3) with (Ok (data 3)).
  cbn -[make_seg_desc segment_of code data]. rewrite Ed. cbn -[segment_of code data]. split; [|by exists d].
  intros sel type dpl Hin. apply list_elem_of_In in Hin.
  destruct Hin as [[= <- <- <-]|[[= <- <- <-]|[[= <- <- <-]|[[= <- <- <-]|[]]]]];
    (eexists; split; [by eexists; split; [reflexivity|reflexivity]|]; by vm_compute).
Qed.
