(* ===== verification/Interrupt.v ===== *)
(** * Interrupt: the descriptor table and the interrupt controller (threads/interrupt.c)

    The table of gates, the table of handlers and the masks of the two controllers.
    Functions are addresses: [intr_stubs] is the table of the assembly stubs, [call] runs
    the handler at an address.  The processor's reading of a gate is that of the IA-32
    manual.  Interrupt names are kept, messages are not. *)
From stdpp Require Import strings.
From S2P Require Import Prelude.
From S2P Require Import Vaddr.
From S2P Require Import Sched.
From S2P Require Import Timer.
From S2P Require Import Io.
From S2P Require Import Gdt.

Definition INTR_CNT : Z := 256.
Definition PIC0_CTRL : Z := 0x20.
Definition PIC0_DATA : Z := 0x21.
Definition PIC1_CTRL : Z := 0xa0.
Definition PIC1_DATA : Z := 0xa1.
Definition IRQ_CASCADE0 : Z := 2.
Definition IRQ_CASCADE1 : Z := 9.

(** ** Gates *)
Definition make_gate (function dpl type : Z) : res Z :=
  _ ← ASSERT (negb (function =? 0));
  _ ← ASSERT ((0 <=? dpl) && (dpl <=? 3));
  _ ← ASSERT ((0 <=? type) && (type <=? 15));
  let e0 := Z.lor (Z.land function 0xffff) (Z.shiftl SEL_KCSEG 16) in
  let e1 := Z.lor (Z.lor (Z.lor (Z.lor (Z.land function 0xffff0000) (Z.shiftl 1 15)) (Z.shiftl dpl 13)) (Z.shiftl 0 12)) (Z.shiftl type 8) in
  mret (Z.lor e0 (Z.shiftl e1 32)).
Definition make_intr_gate (function dpl : Z) : res Z := make_gate function dpl 14.
Definition make_trap_gate (function dpl : Z) : res Z := make_gate function dpl 15.
Definition make_idtr_operand (limit base : Z) : Z := Z.lor limit (Z.shiftl base 16).

(** How the processor reads a gate. *)
Record gate := Gate { g_offset : Z; g_selector : Z; g_type : Z; g_system : Z; g_dpl : Z; g_present : Z }.
Definition gate_of (d : Z) : gate :=
  Gate (field d 0 16 + 2 ^ 16 * field d 48 16) (field d 16 16) (field d 40 4) (field d 44 1) (field d 45 2) (field d 47 1).

Lemma make_gate_reads f dpl type : is_u32 f -> f <> 0 -> 0 <= dpl <= 3 -> 0 <= type <= 15 ->
  wp (make_gate f dpl type) (fun d => gate_of d = Gate f SEL_KCSEG type 0 dpl 1).
Proof.
  unfold is_u32. intros Hf Hn Hd Ht. change (2 ^ 32) with 4294967296 in Hf. unfold make_gate.
  assert (negb (f =? 0) = true) as -> by (bool_goal; by apply Z.eqb_neq).
  assert ((0 <=? dpl) && (dpl <=? 3) = true) as -> by (bool_goal; lia).
  assert ((0 <=? type) && (type <=? 15) = true) as -> by (bool_goal; lia).
  cbn [ASSERT mbind res_bind]. apply wp_ret.
  change 0xffff0000 with (Z.shiftl (Z.ones 16) 16). change 0xffff with (Z.shiftl (Z.ones 16) 0).
  rewrite !land_field by lia. unfold field at 1 2. rewrite Z.lor_0_r. rewrite !Z.shiftl_mul_pow2 by lia.
  change (2 ^ 0) with 1. change (2 ^ 8) with 256. change (2 ^ 13) with 8192. change (2 ^ 15) with 32768.
  change (2 ^ 16) with 65536. change (2 ^ 32) with 4294967296. rewrite !Z.mul_1_r, !Z.div_1_r.
  rewrite (lor_high (SEL_KCSEG * 65536) _ 16); [|lia|change (2 ^ 16) with 65536; dlia|reflexivity].
  rewrite (lor_low (f / 65536 mod 65536 * 65536) _ 16); [|lia|change (2 ^ 16) with 65536; dlia|change (2 ^ 16) with 65536; lia].
  rewrite (lor_low _ (dpl * 8192) 15); [|lia|change (2 ^ 15) with 32768; dlia|change (2 ^ 15) with 32768; lia].
  rewrite (lor_low _ (type * 256) 13); [|lia|change (2 ^ 13) with 8192; dlia|change (2 ^ 13) with 8192; lia].
  set (w0 := f mod 65536 + SEL_KCSEG * 65536).
  set (w1 := f / 65536 mod 65536 * 65536 + 1 * 32768 + dpl * 8192 + type * 256).
  assert (H0 : 0 <= w0 < 4294967296) by (unfold w0, SEL_KCSEG; dlia).
  rewrite (lor_high (w1 * 4294967296) _ 32); [|lia|done|change (2 ^ 32) with 4294967296; apply Z_mod_mult].
  rewrite (Z.mul_comm w1). unfold gate_of.
  rewrite (field_high w0 w1 48), (field_high w0 w1 40), (field_high w0 w1 44), (field_high w0 w1 45), (field_high w0 w1 47) by lia.
  rewrite (field_low w0 w1 0 16), (field_low w0 w1 16 16) by lia.
  unfold field. simpl Z.sub. change (2 ^ 0) with 1. change (2 ^ 1) with 2. change (2 ^ 2) with 4. change (2 ^ 4) with 16.
  change (2 ^ 8) with 256. change (2 ^ 12) with 4096. change (2 ^ 13) with 8192. change (2 ^ 15) with 32768. change (2 ^ 16) with 65536.
  unfold w0, w1, SEL_KCSEG in *. f_equal; dlia.
Qed.

(** ** The interrupt system *)
Record istate (P : Type) := Istate {
  ihw : hw P; idt : list Z; intr_handlers : list Z; intr_names : list string; unexpected_cnt : list Z;
  pic_mask : list Z; idtr : Z }.
Arguments Istate {P}.
Arguments ihw {P}. Arguments idt {P}. Arguments intr_handlers {P}. Arguments intr_names {P}.
Arguments unexpected_cnt {P}. Arguments pic_mask {P}. Arguments idtr {P}.

Definition exception_names : list string :=
  ["#DE Divide Error"; "#DB Debug Exception"; "NMI Interrupt"; "#BP Breakpoint Exception"; "#OF Overflow Exception";
   "#BR BOUND Range Exceeded Exception"; "#UD Invalid Opcode Exception"; "#NM Device Not Available Exception";
   "#DF Double Fault Exception"; "Coprocessor Segment Overrun"; "#TS Invalid TSS Exception"; "#NP Segment Not Present";
   "#SS Stack Fault Exception"; "#GP General Protection Exception"; "#PF Page-Fault Exception"; "unknown";
   "#MF x87 FPU Floating-Point Error"; "#AC Alignment Check Exception"; "#MC Machine-Check Exception"; "#XF SIMD Floating-Point Exception"].

Section interrupt.
Context {P : Type} `{ports P} (intr_stubs : Z -> Z) (idt_addr : Z).
Abbreviation IM := (M (istate P)).
Definition i_hw {A} (m : M (hw P) A) : IM A := fun s =>
  match m (ihw s) with
  | Ok (a, h) => Ok (a, Istate h (idt s) (intr_handlers s) (intr_names s) (unexpected_cnt s) (pic_mask s) (idtr s))
  | Panic => Panic | Fault => Fault | Hang => Hang end.
Definition i_kst {A} (m : TM A) : IM A := i_hw (h_kst m).
Definition set_idt (l : list Z) : IM unit :=
  modify (fun s => Istate (ihw s) l (intr_handlers s) (intr_names s) (unexpected_cnt s) (pic_mask s) (idtr s)).
Definition set_handlers (l : list Z) : IM unit :=
  modify (fun s => Istate (ihw s) (idt s) l (intr_names s) (unexpected_cnt s) (pic_mask s) (idtr s)).
Definition set_names (l : list string) : IM unit :=
  modify (fun s => Istate (ihw s) (idt s) (intr_handlers s) l (unexpected_cnt s) (pic_mask s) (idtr s)).
Definition set_unexpected (l : list Z) : IM unit :=
  modify (fun s => Istate (ihw s) (idt s) (intr_handlers s) (intr_names s) l (pic_mask s) (idtr s)).
Definition set_pic_mask (i v : Z) : IM unit :=
  m ← gets pic_mask; l ← lift (deref (zset m i (u8 v)));
  modify (fun s => Istate (ihw s) (idt s) (intr_handlers s) (intr_names s) (unexpected_cnt s) l (idtr s)).
Definition get_mask (i : Z) : IM Z := m ← gets pic_mask; lift (deref (znth m i)).
Definition lidt (v : Z) : IM unit :=
  modify (fun s => Istate (ihw s) (idt s) (intr_handlers s) (intr_names s) (unexpected_cnt s) (pic_mask s) v).

(** *** The controllers *)
Definition pic_init : IM unit :=
  _ ← i_hw (outb PIC0_DATA 0xff); _ ← i_hw (outb PIC1_DATA 0xff);
  _ ← i_hw (outb PIC0_CTRL 0x11); _ ← i_hw (outb PIC0_DATA 0x20);
  _ ← i_hw (outb PIC0_DATA 0x04); _ ← i_hw (outb PIC0_DATA 0x01);
  _ ← i_hw (outb PIC1_CTRL 0x11); _ ← i_hw (outb PIC1_DATA 0x28);
  _ ← i_hw (outb PIC1_DATA 0x02); _ ← i_hw (outb PIC1_DATA 0x01);
  _ ← i_hw (outb PIC0_DATA 0x00); _ ← i_hw (outb PIC1_DATA 0x00);
  _ ← set_pic_mask 0 0; set_pic_mask 1 0.
Definition pic_end_of_interrupt (irq : Z) : IM unit :=
  _ ← assert ((0x20 <=? irq) && (irq <? 0x30));
  _ ← i_hw (outb 0x20 0x20);
  if 0x28 <=? irq then i_hw (outb 0xa0 0x20) else mret tt.
Definition intr_irq_mask (irq : Z) : IM unit :=
  if irq <? 8 then
    m ← get_mask 0; _ ← set_pic_mask 0 (Z.lor m (Z.shiftl 1 irq));
    m ← get_mask 0; i_hw (outb PIC0_DATA m)
  else
    m ← get_mask 1; _ ← set_pic_mask 1 (Z.lor m (Z.shiftl 1 (irq - 8)));
    m ← get_mask 1; i_hw (outb PIC1_DATA m).
(** The first half of [intr_irq_unmask]: the slave; the interrupt of the master to go
    on with. *)
Definition unmask_slave (irq : Z) : IM Z :=
  m ← get_mask 1;
  _ ← (if negb (Z.land m (Z.shiftl 1 (IRQ_CASCADE1 - 8)) =? 0)
       then set_pic_mask 1 (Z.land m (Z.lnot (Z.shiftl 1 (IRQ_CASCADE1 - 8)))) else mret tt);
  m ← get_mask 1; _ ← set_pic_mask 1 (Z.land m (Z.lnot (Z.shiftl 1 (irq - 8))));
  m ← get_mask 1; _ ← i_hw (outb PIC1_DATA m);
  m ← get_mask 0; mret (if negb (Z.land m (Z.shiftl 1 IRQ_CASCADE0) =? 0) then IRQ_CASCADE0 else irq).
Definition intr_irq_unmask (irq : Z) : IM unit :=
  irq ← (if 8 <=? irq then unmask_slave irq else mret irq);
  if irq <? 8 then
    m ← get_mask 0; _ ← set_pic_mask 0 (Z.land m (Z.lnot (Z.shiftl 1 irq)));
    m ← get_mask 0; i_hw (outb PIC0_DATA m)
  else mret tt.

(** *** Handlers *)
Fixpoint init_idt (n : nat) (i : Z) : IM unit :=
  match n with
  | O => mret tt
  | S n' =>
      d ← lift (make_intr_gate (intr_stubs i) 0);
      t ← gets idt; t' ← lift (deref (zset t i d)); _ ← set_idt t'; init_idt n' (i + 1)
  end.
Definition intr_init : IM unit :=
  _ ← pic_init;
  _ ← init_idt 256 0;
  _ ← lidt (make_idtr_operand (8 * INTR_CNT - 1) idt_addr);
  set_names (exception_names ++ replicate 236 "unknown").
Definition register_handler (vec_no dpl : Z) (level : bool) (handler : Z) (name : string) : IM unit :=
  hs ← gets intr_handlers; h ← lift (deref (znth hs vec_no));
  _ ← assert (h =? 0);
  d ← lift (if level then make_trap_gate (intr_stubs vec_no) dpl else make_intr_gate (intr_stubs vec_no) dpl);
  t ← gets idt; t' ← lift (deref (zset t vec_no d)); _ ← set_idt t';
  hs' ← lift (deref (zset hs vec_no handler)); _ ← set_handlers hs';
  ns ← gets intr_names; ns' ← lift (deref (zset ns vec_no name)); set_names ns'.
Definition intr_register_ext (vec_no handler : Z) (name : string) : IM unit :=
  _ ← assert ((0x20 <=? vec_no) && (vec_no <=? 0x2f)); register_handler vec_no 0 false handler name.
Definition intr_register_int (vec_no dpl : Z) (level : bool) (handler : Z) (name : string) : IM unit :=
  _ ← assert ((vec_no <? 0x20) || (0x2f <? vec_no)); register_handler vec_no dpl level handler name.
Definition intr_is_registered (vec_no : Z) : IM bool :=
  hs ← gets intr_handlers; h ← lift (deref (znth hs vec_no)); mret (negb (h =? 0)).
Definition intr_name (vec : Z) : IM string := ns ← gets intr_names; lift (deref (znth ns vec)).
Definition unexpected_interrupt (vec_no : Z) : IM unit :=
  l ← gets unexpected_cnt; n ← lift (deref (znth l vec_no)); l' ← lift (deref (zset l vec_no (n +u 1))); set_unexpected l'.

(** [call handler vec_no] runs a handler on the frame of the interrupt. *)
Context (call : Z -> Z -> IM unit).
Definition intr_handler (vec_no : Z) : IM unit :=
  let external := (0x20 <=? vec_no) && (vec_no <? 0x30) in
  _ ← (if external then
         l ← i_kst intr_get_level; _ ← assert (negb l); c ← i_kst intr_context; _ ← assert (negb c);
         i_kst (set_context true false)
       else mret tt);
  hs ← gets intr_handlers; handler ← lift (deref (znth hs vec_no));
  _ ← (if negb (handler =? 0) then call handler vec_no
       else if (vec_no =? 0x27) || (vec_no =? 0x2f) then mret tt
       else unexpected_interrupt vec_no);
  if external then
    l ← i_kst intr_get_level; _ ← assert (negb l); c ← i_kst intr_context; _ ← assert c;
    y ← i_kst (gets (fun k => yield_on_return (the_cpu k)));
    _ ← i_kst (set_context false y);
    _ ← pic_end_of_interrupt vec_no;
    if (y : bool) then i_kst thread_yield_body else mret tt
  else mret tt.
(** The processor on its way to the stub: an interrupt gate turns interrupts off, a trap
    gate leaves the flag. *)
Definition deliver (vec_no : Z) : IM unit :=
  t ← gets idt; d ← lift (deref (znth t vec_no));
  _ ← (if g_type (gate_of d) =? 14 then i_kst (set_intr false) else mret tt);
  intr_handler vec_no.

(** *** The registrations of the drivers *)
Inductive reg_call := Ext (vec_no handler : Z) (name : string) | Int (vec_no dpl : Z) (level : bool) (handler : Z) (name : string).
Definition do_reg (r : reg_call) : IM unit :=
  match r with
  | Ext v h n => intr_register_ext v h n
  | Int v d l h n => intr_register_int v d l h n
  end.
Fixpoint do_regs (rs : list reg_call) : IM unit := match rs with [] => mret tt | r :: rs' => _ ← do_reg r; do_regs rs' end.
Definition timer_init (timer_interrupt : Z) : IM unit :=
  _ ← i_hw (pit_configure_channel 0 2 TIMER_FREQ); intr_register_ext 0x20 timer_interrupt "8254 Timer".
Definition kbd_init (keyboard_interrupt : Z) : IM unit := intr_register_ext 0x21 keyboard_interrupt "8042 Keyboard".
Definition exception_calls (kill page_fault : Z) : list reg_call :=
  [Int 3 3 true kill "#BP Breakpoint Exception"; Int 4 3 true kill "#OF Overflow Exception";
   Int 5 3 true kill "#BR BOUND Range Exceeded Exception";
   Int 0 0 true kill "#DE Divide Error"; Int 1 0 true kill "#DB Debug Exception"; Int 6 0 true kill "#UD Invalid Opcode Exception";
   Int 7 0 true kill "#NM Device Not Available Exception"; Int 11 0 true kill "#NP Segment Not Present";
   Int 12 0 true kill "#SS Stack Fault Exception"; Int 13 0 true kill "#GP General Protection Exception";
   Int 16 0 true kill "#MF x87 FPU Floating-Point Error"; Int 19 0 true kill "#XF SIMD Floating-Point Exception";
   Int 14 0 false page_fault "#PF Page-Fault Exception"].
Definition exception_init (kill page_fault : Z) : IM unit := do_regs (exception_calls kill page_fault).
Definition syscall_init (syscall_handler : Z) : IM unit := intr_register_int 0x30 3 true syscall_handler "syscall".
End interrupt.

(** ** What the tables hold *)
Definition r_vec (r : reg_call) : Z := match r with Ext v _ _ => v | Int v _ _ _ _ => v end.
Definition r_dpl (r : reg_call) : Z := match r with Ext _ _ _ => 0 | Int _ d _ _ _ => d end.
Definition r_level (r : reg_call) : bool := match r with Ext _ _ _ => false | Int _ _ l _ _ => l end.
Definition r_handler (r : reg_call) : Z := match r with Ext _ h _ => h | Int _ _ _ h _ => h end.
Definition is_external (v : Z) : bool := (0x20 <=? v) && (v <? 0x30).
Definition reg_ok (r : reg_call) : Prop :=
  0 <= r_vec r < 256 /\ r_handler r <> 0 /\ 0 <= r_dpl r <= 3 /\ is_external (r_vec r) = match r with Ext _ _ _ => true | Int _ _ _ _ _ => false end.
Fixpoint reg_at (rs : list reg_call) (v : Z) : option reg_call :=
  match rs with [] => None | r :: rs' => if r_vec r =? v then Some r else reg_at rs' v end.

Section tables.
Context {P : Type} `{ports P} (intr_stubs : Z -> Z) (idt_addr : Z).
Context (stubs_ok : forall v, 0 <= v < 256 -> is_u32 (intr_stubs v) /\ intr_stubs v <> 0).
Implicit Types (s : istate P).

(** The gate and the handler of vector [v] when [r] was registered for it. *)
Definition gate_for (v : Z) (r : option reg_call) : gate :=
  match r with
  | Some r => Gate (intr_stubs v) SEL_KCSEG (if r_level r then 15 else 14) 0 (r_dpl r) 1
  | None => Gate (intr_stubs v) SEL_KCSEG 14 0 0 1
  end.
Record wired (f : Z -> option reg_call) (s : istate P) : Prop := Wired {
  wi_idt : zlen (idt s) = 256; wi_handlers : zlen (intr_handlers s) = 256; wi_names : zlen (intr_names s) = 256;
  wi_gate : forall v, 0 <= v < 256 -> gate_of <$> znth (idt s) v = Some (gate_for v (f v));
  wi_handler : forall v, 0 <= v < 256 -> znth (intr_handlers s) v = Some (match f v with Some r => r_handler r | None => 0 end);
}.

Lemma znth_in {A} (l : list A) i : 0 <= i < zlen l -> exists x, znth l i = Some x.
Proof. unfold zlen. intros Hi. unfold znth. rewrite decide_True by lia. apply lookup_lt_is_Some. lia. Qed.
Lemma zset_in {A} (l : list A) i x : 0 <= i < zlen l -> exists l', zset l i x = Some l' /\ zlen l' = zlen l /\
  forall j, znth l' j = if decide (j = i) then Some x else znth l j.
Proof.
  unfold zlen. intros Hi. unfold zset. rewrite decide_True by lia. eexists. split; [done|]. split; [by rewrite length_insert|].
  intros j. unfold znth. case_decide; [|by rewrite decide_False by lia]. case_decide.
  - subst. apply list_lookup_insert_eq. lia.
  - by rewrite list_lookup_insert_ne by lia.
Qed.
(** [deref] of a lookup inside, and the update of a table inside. *)
Lemma znth_spec {A B} (l : list A) i x (f : A -> M (istate P) B) s (Q : B -> istate P -> Prop) : znth l i = Some x -> mwp (f x) s Q ->
  mwp (a ← lift (deref (znth l i)); f a) s Q.
Proof. intros E Hf. wp_step. wp_step. by rewrite E. Qed.
Lemma zset_spec {A B} (l : list A) i x (f : list A -> M (istate P) B) s (Q : B -> istate P -> Prop) : 0 <= i < zlen l ->
  (forall l' : list A, zlen l' = zlen l -> (forall j, znth l' j = if decide (j = i) then Some x else znth l j) -> mwp (f l') s Q) ->
  mwp (a ← lift (deref (zset l i x)); f a) s Q.
Proof. intros Hi Hf. destruct (zset_in l i x Hi) as (l' & E & Hl & Hn). wp_step. wp_step. rewrite E. by apply Hf. Qed.
Lemma gate_spec {B} (m : res Z) g (f : Z -> M (istate P) B) s (Q : B -> istate P -> Prop) : wp m (fun d => gate_of d = g) ->
  (forall d, gate_of d = g -> mwp (f d) s Q) -> mwp (a ← lift m; f a) s Q.
Proof. intros Hm Hf. wp_step. wp_step. eapply wp_mono; [exact Hm|]. done. Qed.

(** What registering leaves alone. *)
Definition same_io (s s' : istate P) : Prop := ihw s' = ihw s /\ pic_mask s' = pic_mask s.
#[local] Instance same_io_preorder : PreOrder same_io.
Proof. split; [done|]. intros s1 s2 s3 [E1 E2] [E3 E4]. split; congruence. Qed.
Lemma register_handler_spec v dpl (level : bool) h n f s (Q : unit -> istate P -> Prop) : wired f s -> f v = None -> 0 <= v < 256 -> 0 <= dpl <= 3 ->
  (forall s', zlen (idt s') = 256 -> zlen (intr_handlers s') = 256 -> zlen (intr_names s') = 256 -> same_io s s' ->
     (forall j, 0 <= j < 256 -> gate_of <$> znth (idt s') j = Some (if decide (j = v) then Gate (intr_stubs v) SEL_KCSEG (if level then 15 else 14) 0 dpl 1 else gate_for j (f j))) ->
     (forall j, 0 <= j < 256 -> znth (intr_handlers s') j = Some (if decide (j = v) then h else match f j with Some r => r_handler r | None => 0 end)) ->
     Q tt s') -> mwp (register_handler intr_stubs v dpl level h n) s Q.
Proof.
  intros [Hi Hh Hns Hg Hhd] Hv Hr Hd HQ. unfold register_handler. wp_step. wp_step.
  eapply znth_spec; [by rewrite Hhd, Hv|]. cbv beta. wp_step. wp_step; [done|].
  destruct (stubs_ok v Hr) as [Hs1 Hs2].
  apply (gate_spec _ (Gate (intr_stubs v) SEL_KCSEG (if level then 15 else 14) 0 dpl 1)).
  { destruct level; apply make_gate_reads; try done; lia. }
  intros d Ed. cbv beta. wp_step. wp_step. apply zset_spec; [lia|]. intros t' Ht Htn. cbv beta. wp_step. apply mwp_modify.
  apply zset_spec; [lia|]. intros hs' Hhs Hhn. cbv beta. wp_step. apply mwp_modify. wp_step. wp_step. apply zset_spec; [simpl; lia|].
  intros ns' Hn' _. cbv beta. apply mwp_modify. apply HQ; simpl in *; try congruence; [done|..]; intros j Hj.
  - rewrite Htn. case_decide; [simpl; by rewrite Ed|]. by apply Hg.
  - rewrite Hhn. case_decide; [done|]. by apply Hhd.
Qed.
Definition with_reg (r : reg_call) (f : Z -> option reg_call) : Z -> option reg_call :=
  fun v => if r_vec r =? v then Some r else f v.
Lemma do_reg_spec r f s (Q : unit -> istate P -> Prop) : wired f s -> reg_ok r -> f (r_vec r) = None ->
  (forall s', wired (with_reg r f) s' -> same_io s s' -> Q tt s') -> mwp (do_reg intr_stubs r) s Q.
Proof.
  intros Hw (Hv & Hh & Hd & He) Hf HQ. unfold is_external in He.
  assert (Hend : forall s', zlen (idt s') = 256 -> zlen (intr_handlers s') = 256 -> zlen (intr_names s') = 256 -> same_io s s' ->
     (forall j, 0 <= j < 256 -> gate_of <$> znth (idt s') j = Some (if decide (j = r_vec r) then Gate (intr_stubs (r_vec r)) SEL_KCSEG (if r_level r then 15 else 14) 0 (r_dpl r) 1 else gate_for j (f j))) ->
     (forall j, 0 <= j < 256 -> znth (intr_handlers s') j = Some (if decide (j = r_vec r) then r_handler r else match f j with Some r => r_handler r | None => 0 end)) ->
     Q tt s').
  { intros s' H1 H2 H3 H4 Hg Hh'. apply HQ; [|done]. split; try done; intros v Hvr; unfold with_reg.
    - rewrite Hg by done. case_decide; [subst; by rewrite Z.eqb_refl|]. by rewrite (proj2 (Z.eqb_neq _ _)) by congruence.
    - rewrite Hh' by done. case_decide; [subst; by rewrite Z.eqb_refl|]. by rewrite (proj2 (Z.eqb_neq _ _)) by congruence. }
  destruct r as [v h n|v d l h n]; simpl in *; unfold intr_register_ext, intr_register_int; wp_step.
  - apply andb_prop in He as [He1 He2]. wp_step; [bool_goal; lia|]. by eapply register_handler_spec.
  - wp_step; [|by eapply register_handler_spec]. apply orb_true_iff. rewrite !Z.ltb_lt.
    apply andb_false_iff in He. rewrite Z.leb_gt, Z.ltb_ge in He. lia.
Qed.
Definition with_regs (rs : list reg_call) (f : Z -> option reg_call) : Z -> option reg_call := foldl (fun f r => with_reg r f) f rs.
Lemma do_regs_spec rs : forall f s (Q : unit -> istate P -> Prop), wired f s -> Forall reg_ok rs -> NoDup (r_vec <$> rs) ->
  (forall r, r ∈ rs -> f (r_vec r) = None) ->
  (forall s', wired (with_regs rs f) s' -> same_io s s' -> Q tt s') -> mwp (do_regs intr_stubs rs) s Q.
Proof.
  induction rs as [|r rs IH]; intros f s Q Hw Hok Hnd Hf HQ; cbn [do_regs]; [by apply mwp_ret, HQ|].
  apply list.Forall_cons in Hok as [Hr Hok]. cbn in Hnd. apply list.NoDup_cons in Hnd as [Hnin Hnd].
  wp_step. eapply do_reg_spec; [done..|by apply Hf; left|]. intros s1 Hw1 Hh1.
  eapply IH; [done..| |].
  - intros r' Hr'. unfold with_reg. rewrite (proj2 (Z.eqb_neq _ _)); [by apply Hf; right|].
    intros E. apply Hnin. rewrite E. by apply list_elem_of_fmap_2.
  - intros s2 Hw2 Hh2. apply HQ; [done|]. by etrans.
Qed.

(** *** Initialisation *)
Definition with_hw (h : hw P) (s : istate P) : istate P :=
  Istate h (idt s) (intr_handlers s) (intr_names s) (unexpected_cnt s) (pic_mask s) (idtr s).
Definition with_masks (l : list Z) (s : istate P) : istate P :=
  Istate (ihw s) (idt s) (intr_handlers s) (intr_names s) (unexpected_cnt s) l (idtr s).
Lemma i_hw_spec {A} (m : M (hw P) A) s (Q : A -> istate P -> Prop) : mwp m (ihw s) (fun a h => Q a (with_hw h s)) -> mwp (i_hw m) s Q.
Proof. unfold mwp, i_hw. by destruct (m (ihw s)) as [[a h]| | |]. Qed.
Lemma out_spec port v s (Q : unit -> istate P -> Prop) : Q tt (with_hw (Hw (hk (ihw s)) (port_out port (u8 v) (hp (ihw s)))) s) ->
  mwp (i_hw (outb port v)) s Q.
Proof. intros HQ. by apply i_hw_spec. Qed.
Lemma get_mask_spec i m s (Q : Z -> istate P -> Prop) : znth (pic_mask s) i = Some m -> Q m s -> mwp (get_mask i) s Q.
Proof. intros E HQ. unfold get_mask. wp_step. wp_step. wp_step. by rewrite E. Qed.
Lemma set_mask_spec i v l s (Q : unit -> istate P -> Prop) : zset (pic_mask s) i (u8 v) = Some l -> Q tt (with_masks l s) -> mwp (set_pic_mask i v) s Q.
Proof. intros E HQ. unfold set_pic_mask. wp_step. wp_step. wp_step. wp_step. rewrite E. apply wp_ret. exact HQ. Qed.

Definition with_ports (g : P -> P) (s : istate P) : istate P := with_hw (Hw (hk (ihw s)) (g (hp (ihw s)))) s.
Lemma out_bind {A} port v g (f : unit -> M (istate P) A) s (Q : A -> istate P -> Prop) : mwp (f tt) (with_ports (fun p => port_out port (u8 v) (g p)) s) Q ->
  mwp (i_hw (outb port v) ≫= f) (with_ports g s) Q.
Proof. intros Hf. apply mwp_bind. apply out_spec. exact Hf. Qed.
Lemma with_ports_id s : with_ports (fun p => p) s = s.
Proof. by destruct s as [[] ? ? ? ? ? ?]. Qed.

(** The controllers keep the last byte written to their data ports as the mask. *)
Definition init_ports (p : P) : P :=
  foldl (fun p x => port_out x.1 x.2 p) p
    [(0x21, 0xff); (0xa1, 0xff); (0x20, 0x11); (0x21, 0x20); (0x21, 0x04); (0x21, 0x01);
     (0xa0, 0x11); (0xa1, 0x28); (0xa1, 0x02); (0xa1, 0x01); (0x21, 0); (0xa1, 0)].
Lemma pic_init_spec s (Q : unit -> istate P -> Prop) : zlen (pic_mask s) = 2 ->
  Q tt (with_masks [0; 0] (with_hw (Hw (hk (ihw s)) (init_ports (hp (ihw s)))) s)) -> mwp pic_init s Q.
Proof.
  intros Hl HQ. unfold zlen in Hl. unfold pic_init. rewrite <- (with_ports_id s). do 12 (apply out_bind).
  change (with_ports _ s) with (with_ports init_ports s).
  destruct (pic_mask s) as [|a [|b [|]]] eqn:E; simpl in Hl; try lia. wp_step.
  eapply (set_mask_spec _ _ [0; b]); [simpl; by rewrite E|]. by eapply (set_mask_spec _ _ [0; 0]).
Qed.
Lemma init_idt_spec n : forall i s (Q : unit -> istate P -> Prop), 0 <= i -> i + Z.of_nat n = 256 -> zlen (idt s) = 256 ->
  (forall t, zlen t = 256 ->
     (forall v, 0 <= v < 256 -> gate_of <$> znth t v = if decide (i <= v) then Some (gate_for v None) else gate_of <$> znth (idt s) v) ->
     Q tt (Istate (ihw s) t (intr_handlers s) (intr_names s) (unexpected_cnt s) (pic_mask s) (idtr s))) ->
  mwp (init_idt intr_stubs n i) s Q.
Proof.
  induction n as [|n IH]; intros i s Q Hi Hn Hl HQ; cbn [init_idt].
  - apply mwp_ret. destruct s. apply HQ; [done|]. intros v Hv. by rewrite decide_False by lia.
  - destruct (stubs_ok i) as [Hs1 Hs2]; [lia|].
    apply (gate_spec _ (gate_for i None)); [by apply make_gate_reads|]. intros d Ed. cbv beta. wp_step. wp_step.
    apply zset_spec; [lia|]. intros t Ht Htn. cbv beta. wp_step. apply mwp_modify.
    apply IH; simpl; [lia|lia|by rewrite Ht|]. intros t2 Ht2 Hg. apply HQ; [done|]. intros v Hv. rewrite Hg by done.
    case_decide as Hd1; [by rewrite decide_True by lia|]. rewrite Htn.
    case_decide as Hd2; [subst; rewrite decide_True by lia; simpl; by rewrite Ed|]. by rewrite decide_False by lia.
Qed.
Lemma intr_init_spec s (Q : unit -> istate P -> Prop) : zlen (idt s) = 256 -> zlen (intr_handlers s) = 256 -> zlen (pic_mask s) = 2 ->
  (forall v, 0 <= v < 256 -> znth (intr_handlers s) v = Some 0) ->
  (forall s', wired (fun _ => None) s' -> pic_mask s' = [0; 0] -> ihw s' = Hw (hk (ihw s)) (init_ports (hp (ihw s))) -> Q tt s') ->
  mwp (intr_init intr_stubs idt_addr) s Q.
Proof.
  intros Hi Hh Hp Hz HQ. unfold intr_init. wp_step. apply pic_init_spec; [done|]. wp_step.
  apply init_idt_spec; [lia|lia|done|]. intros t Ht Hg. wp_step. apply mwp_modify. apply mwp_modify.
  apply HQ; [|done|done]. split; simpl; try done. intros v Hv. rewrite Hg by done. by rewrite decide_True by lia.
Qed.

(** *** Delivery *)
(** The state in which the handler of an external interrupt runs, and the one it leaves
    behind when it asks for no yield. *)
Definition entered (s : istate P) : istate P :=
  let k := with_intr false (hk (ihw s)) in
  with_hw (Hw (set_cpu (Cpu false true false (Sched.esp0 (the_cpu k))) k) (hp (ihw s))) s.
Definition acknowledged (v : Z) (p : P) : P :=
  let p := port_out 0x20 0x20 p in if 0x28 <=? v then port_out 0xa0 0x20 p else p.
Definition left_intr (v : Z) (s : istate P) : istate P :=
  let k := hk (ihw s) in
  with_hw (Hw (set_cpu (Cpu (intr_on (the_cpu k)) false false (Sched.esp0 (the_cpu k))) k) (acknowledged v (hp (ihw s)))) s.
Lemma pic_eoi_spec v s (Q : unit -> istate P -> Prop) : is_external v = true ->
  Q tt (with_hw (Hw (hk (ihw s)) (acknowledged v (hp (ihw s)))) s) -> mwp (pic_end_of_interrupt v) s Q.
Proof.
  intros Hv HQ. unfold pic_end_of_interrupt. wp_step. wp_step; [done|]. wp_step. apply out_spec.
  unfold acknowledged in HQ. destruct (0x28 <=? v); [by apply out_spec|by apply mwp_ret].
Qed.
Lemma i_get_spec {A} (f : kst -> A) s (Q : A -> istate P -> Prop) : Q (f (hk (ihw s))) s -> mwp (i_kst (gets f)) s Q.
Proof. intros HQ. apply i_hw_spec, h_kst_spec, mwp_gets. by destruct s as [[] ? ? ? ? ? ?]. Qed.
Lemma i_mod_spec (f : kst -> kst) s (Q : unit -> istate P -> Prop) : Q tt (with_hw (Hw (f (hk (ihw s))) (hp (ihw s))) s) -> mwp (i_kst (modify f)) s Q.
Proof. intros HQ. by apply i_hw_spec, h_kst_spec, mwp_modify. Qed.

Lemma wired_ext f g s : (forall v, f v = g v) -> wired f s -> wired g s.
Proof. intros E [Hi Hh Hn Hg Hhd]. split; try done; intros v Hv; rewrite <- E; [by apply Hg|by apply Hhd]. Qed.
Lemma with_regs_at rs : forall f v, NoDup (r_vec <$> rs) -> with_regs rs f v = match reg_at rs v with Some r => Some r | None => f v end.
Proof.
  induction rs as [|r rs IH]; intros f v Hnd; [done|]. cbn in Hnd. apply list.NoDup_cons in Hnd as [Hnin Hnd].
  cbn [with_regs foldl reg_at]. fold (with_regs rs (with_reg r f)). rewrite IH by done. unfold with_reg.
  destruct (Z.eqb_spec (r_vec r) v) as [<-|]; [|done]. replace (reg_at rs (r_vec r)) with (@None reg_call); [done|].
  clear - Hnin. induction rs as [|r' rs IH]; [done|]. cbn in *. apply not_elem_of_cons in Hnin as [Hne Hnin].
  rewrite (proj2 (Z.eqb_neq _ _)) by congruence. by apply IH.
Qed.
(** Around the handler [h] of a registered external vector. *)
Lemma deliver_external call f v h n s (Q : unit -> istate P -> Prop) : wired f s -> 0 <= v < 256 -> f v = Some (Ext v h n) -> h <> 0 ->
  is_external v = true -> in_external_intr (the_cpu (hk (ihw s))) = false ->
  mwp (call h v) (entered s) (fun _ s1 => intr_on (the_cpu (hk (ihw s1))) = false /\ in_external_intr (the_cpu (hk (ihw s1))) = true /\
     yield_on_return (the_cpu (hk (ihw s1))) = false /\ Q tt (left_intr v s1)) ->
  mwp (deliver call v) s Q.
Proof.
  intros [Hi Hh Hns Hg Hhd] Hv Hf Hn He Hc Hcall. unfold deliver. wp_step. wp_step.
  pose proof (Hg v Hv) as Hgv. rewrite Hf in Hgv. destruct (znth (idt s) v) as [d|] eqn:Ed; [|done].
  assert (g_type (gate_of d) = 14) as Ht.
  { apply (f_equal (fmap g_type)) in Hgv. cbn -[gate_of] in Hgv. congruence. }
  wp_step. wp_step. apply wp_ret. wp_step. rewrite Ht.
  apply i_mod_spec. unfold intr_handler. fold (is_external v). rewrite He.
  wp_step. wp_step. unfold intr_get_level. apply i_get_spec. wp_step. wp_step; [done|]. wp_step. unfold intr_context.
  apply i_get_spec. wp_step. wp_step; [by rewrite Hc|]. unfold set_context. apply i_mod_spec.
  wp_step. wp_step. eapply znth_spec; [by rewrite Hhd, Hf|]. cbv beta. simpl r_handler. rewrite (proj2 (Z.eqb_neq _ _) Hn).
  wp_step. eapply mwp_mono; [exact Hcall|]. intros [] s1 (Ho & Hx & Hy & HQ).
  wp_step. apply i_get_spec. wp_step. wp_step; [by rewrite Ho|]. wp_step. apply i_get_spec. wp_step. wp_step; [done|].
  wp_step. apply i_get_spec. rewrite Hy. wp_step. apply i_mod_spec. wp_step. apply pic_eoi_spec; [done|]. by apply mwp_ret.
Qed.
End tables.

(** ** Theorems *)
(** C36. Initialisation and any sequence of registrations with vectors of their own succeed.
    Afterwards every vector has the gate of its stub in the kernel's code segment:
    an interrupt gate that only the kernel may raise when nothing is registered or an
    external interrupt is, a gate of the level and privilege asked for otherwise. *)
Theorem registrations_wire {P} `{ports P} (intr_stubs : Z -> Z) idt_addr rs (s : istate P) :
  (forall v, 0 <= v < 256 -> is_u32 (intr_stubs v) /\ intr_stubs v <> 0) ->
  zlen (idt s) = 256 -> zlen (intr_handlers s) = 256 -> zlen (pic_mask s) = 2 ->
  (forall v, 0 <= v < 256 -> znth (intr_handlers s) v = Some 0) ->
  Forall reg_ok rs -> NoDup (r_vec <$> rs) ->
  mwp (_ ← intr_init intr_stubs idt_addr; do_regs intr_stubs rs) s (fun _ s' =>
    wired intr_stubs (reg_at rs) s' /\ pic_mask s' = [0; 0] /\ hk (ihw s') = hk (ihw s)).
Proof.
  intros Hst Hi Hh Hp Hz Hok Hnd. wp_step. apply intr_init_spec; [done..|]. intros s1 Hw1 Hm1 Hh1.
  eapply do_regs_spec; [done..|]. intros s2 Hw2 [Hh2 Hm2].
  split_and!; [|by rewrite Hm2|by rewrite Hh2, Hh1]. eapply wired_ext; [|exact Hw2].
  intros v. rewrite with_regs_at by done. by destruct (reg_at rs v).
Qed.

(** *** Masks *)
Class pic (P : Type) `{ports P} := {
  pic_data : P -> Z -> Z;
  pic_out : forall q v p q', q' = PIC0_DATA \/ q' = PIC1_DATA -> pic_data (port_out q v p) q' = if decide (q' = q) then v else pic_data p q';
}.
Section masks.
Context {P : Type} `{pic P}.
Implicit Types (s : istate P).
(** Whether interrupt [j] of the 16 is masked; the controllers know. *)
Definition masked (m0 m1 j : Z) : bool := if j <? 8 then Z.testbit m0 j else Z.testbit m1 (j - 8).
Definition masks_are (m0 m1 : Z) (s : istate P) : Prop :=
  pic_mask s = [m0; m1] /\ is_u8 m0 /\ is_u8 m1 /\ pic_data (hp (ihw s)) PIC0_DATA = m0 /\ pic_data (hp (ihw s)) PIC1_DATA = m1.

Lemma u8_testbit x j : 0 <= j < 8 -> Z.testbit (u8 x) j = Z.testbit x j.
Proof. intros. unfold u8. rewrite Z.mod_pow2_bits_low by lia. done. Qed.
Lemma u8_in_range x : is_u8 (u8 x).
Proof. unfold is_u8, u8. apply Z.mod_pos_bound. lia. Qed.
Lemma u8_id x : is_u8 x -> u8 x = x.
Proof. unfold is_u8, u8. by apply Z.mod_small. Qed.
Lemma bit_testbit n j : 0 <= n -> 0 <= j -> Z.testbit (Z.shiftl 1 n) j = (j =? n).
Proof. intros. rewrite Z.shiftl_1_l. rewrite Z.pow2_bits_eqb by lia. apply Z.eqb_sym. Qed.
Lemma set_testbit m n j : 0 <= n -> 0 <= j < 8 -> Z.testbit (u8 (Z.lor m (Z.shiftl 1 n))) j = Z.testbit m j || (j =? n).
Proof. intros. by rewrite u8_testbit, Z.lor_spec, bit_testbit by lia. Qed.
Lemma clear_testbit m n j : 0 <= n -> 0 <= j < 8 -> Z.testbit (u8 (Z.land m (Z.lnot (Z.shiftl 1 n)))) j = Z.testbit m j && negb (j =? n).
Proof. intros. by rewrite u8_testbit, Z.land_spec, Z.lnot_spec, bit_testbit by lia. Qed.
Lemma test_bit m n : 0 <= n -> negb (Z.land m (Z.shiftl 1 n) =? 0) = Z.testbit m n.
Proof.
  intros Hn. destruct (Z.eqb_spec (Z.land m (Z.shiftl 1 n)) 0) as [E|E]; simpl.
  - assert (Z.testbit (Z.land m (Z.shiftl 1 n)) n = false) by (by rewrite E, Z.bits_0).
    rewrite Z.land_spec, bit_testbit, Z.eqb_refl, andb_true_r in * by lia. done.
  - destruct (Z.testbit m n) eqn:Et; [done|]. destruct E. apply Z.bits_inj'. intros k Hk.
    rewrite Z.land_spec, bit_testbit, Z.bits_0 by lia. destruct (Z.eqb_spec k n); [subst; by rewrite Et|apply andb_false_r].
Qed.

(** Storing the mask [v] of a controller and telling it. *)
Lemma store_mask s m0 m1 i v (Q : unit -> istate P -> Prop) : pic_mask s = [m0; m1] -> is_u8 m0 -> is_u8 m1 ->
  (i = 0 /\ pic_data (hp (ihw s)) PIC1_DATA = m1 \/ i = 1 /\ pic_data (hp (ihw s)) PIC0_DATA = m0) ->
  (forall s', masks_are (if i =? 0 then u8 v else m0) (if i =? 0 then m1 else u8 v) s' -> Q tt s') ->
  mwp (_ ← set_pic_mask i v; m ← get_mask i; i_hw (outb (if i =? 0 then PIC0_DATA else PIC1_DATA) m)) s Q.
Proof.
  intros Em B0 B1 Hi HQ. pose proof (u8_in_range v) as Bv. wp_step.
  destruct Hi as [[-> D1]|[-> D0]]; simpl in *.
  - eapply (set_mask_spec _ _ [u8 v; m1]); [by rewrite Em|]. wp_step. eapply get_mask_spec; [done|]. apply out_spec.
    apply HQ. rewrite (u8_id (u8 v)) by done. split_and!; try done; simpl; rewrite pic_out by auto; [done|exact D1].
  - eapply (set_mask_spec _ _ [m0; u8 v]); [by rewrite Em|]. wp_step. eapply get_mask_spec; [done|]. apply out_spec.
    apply HQ. rewrite (u8_id (u8 v)) by done. split_and!; try done; simpl; rewrite pic_out by auto; [exact D0|done].
Qed.
Lemma mask_spec s m0 m1 irq (Q : unit -> istate P -> Prop) : masks_are m0 m1 s -> 0 <= irq < 16 ->
  (forall m0' m1' s', masks_are m0' m1' s' -> (forall j, 0 <= j < 16 -> masked m0' m1' j = masked m0 m1 j || (j =? irq)) -> Q tt s') ->
  mwp (intr_irq_mask irq) s Q.
Proof.
  intros (Em & B0 & B1 & D0 & D1) Hi HQ. unfold intr_irq_mask. destruct (Z.ltb_spec irq 8) as [Hlt|Hge]; wp_step.
  - apply (get_mask_spec _ m0); [by rewrite Em|]. eapply (store_mask _ _ _ 0); [done..|by left|]. intros s' Hs'.
    eapply HQ; [exact Hs'|]. intros j Hj. unfold masked. simpl. destruct (Z.ltb_spec j 8); [apply set_testbit; lia|].
    by rewrite (proj2 (Z.eqb_neq j irq)), orb_false_r by lia.
  - apply (get_mask_spec _ m1); [by rewrite Em|]. eapply (store_mask _ _ _ 1); [done..|by right|]. intros s' Hs'.
    eapply HQ; [exact Hs'|]. intros j Hj. unfold masked. simpl. destruct (Z.ltb_spec j 8).
    + by rewrite (proj2 (Z.eqb_neq j irq)), orb_false_r by lia.
    + rewrite set_testbit by lia. f_equal. apply eq_true_iff_eq. rewrite !Z.eqb_eq. lia.
Qed.
(** What unmasking clears besides: the cascade on both controllers for the slave's. *)
Definition unmasks (irq j : Z) : bool := (j =? irq) || ((8 <=? irq) && ((j =? IRQ_CASCADE0) || (j =? IRQ_CASCADE1))).
Lemma unmask_slave_spec s m0 m1 irq (Q : Z -> istate P -> Prop) : masks_are m0 m1 s -> 8 <= irq < 16 ->
  (forall m1' s', masks_are m0 m1' s' ->
     (forall j, 0 <= j < 8 -> Z.testbit m1' j = Z.testbit m1 j && negb ((j =? irq - 8) || (j =? 1))) ->
     Q (if Z.testbit m0 2 then 2 else irq) s') -> mwp (unmask_slave irq) s Q.
Proof.
  intros (Em & B0 & B1 & D0 & D1) Hi HQ. unfold unmask_slave. change (IRQ_CASCADE1 - 8) with 1.
  wp_step. apply (get_mask_spec _ m1); [by rewrite Em|]. rewrite test_bit by lia.
  assert (Hend : forall ma s1, pic_mask s1 = [m0; ma] -> is_u8 ma -> ihw s1 = ihw s ->
    (forall j, 0 <= j < 8 -> Z.testbit ma j = Z.testbit m1 j && negb (j =? 1)) ->
    mwp (m ← get_mask 1; _ ← set_pic_mask 1 (Z.land m (Z.lnot (Z.shiftl 1 (irq - 8))));
         m ← get_mask 1; _ ← i_hw (outb PIC1_DATA m);
         m ← get_mask 0; mret (if negb (Z.land m (Z.shiftl 1 IRQ_CASCADE0) =? 0) then IRQ_CASCADE0 else irq)) s1 Q).
  { intros ma s1 E1 Ba Eh Hma. wp_step. apply (get_mask_spec _ ma); [by rewrite E1|]. wp_step.
    eapply (set_mask_spec _ _ [m0; u8 (Z.land ma (Z.lnot (Z.shiftl 1 (irq - 8))))]); [by rewrite E1|].
    wp_step. eapply get_mask_spec; [done|]. wp_step. apply out_spec. wp_step. apply (get_mask_spec _ m0); [done|]. wp_step.
    rewrite test_bit by done. rewrite (u8_id (u8 _)) by apply u8_in_range. apply (HQ (u8 (Z.land ma (Z.lnot (Z.shiftl 1 (irq - 8)))))).
    - split_and!; [done|done|apply u8_in_range|..]; simpl; rewrite pic_out by auto; [by rewrite Eh|done].
    - intros j Hj. rewrite clear_testbit, Hma by lia. destruct (Z.testbit m1 j), (j =? irq - 8), (j =? 1); done. }
  wp_step. destruct (Z.testbit m1 1) eqn:E1.
  - eapply (set_mask_spec _ _ [m0; u8 (Z.land m1 (Z.lnot (Z.shiftl 1 1)))]); [by rewrite Em|].
    apply (Hend (u8 (Z.land m1 (Z.lnot (Z.shiftl 1 1))))); [done|apply u8_in_range|done|]. intros j Hj. by apply clear_testbit.
  - apply mwp_ret, (Hend m1); [done..|]. intros j Hj. destruct (Z.eqb_spec j 1) as [->|]; [by rewrite E1|by rewrite andb_true_r].
Qed.
Lemma unmask_spec s m0 m1 irq (Q : unit -> istate P -> Prop) : masks_are m0 m1 s -> 0 <= irq < 16 ->
  (forall m0' m1' s', masks_are m0' m1' s' -> (forall j, 0 <= j < 16 -> masked m0' m1' j = masked m0 m1 j && negb (unmasks irq j)) -> Q tt s') ->
  mwp (intr_irq_unmask irq) s Q.
Proof.
  intros Hm Hi HQ. unfold intr_irq_unmask. wp_step. unfold IRQ_CASCADE0, IRQ_CASCADE1 in *.
  assert (Hmaster : forall i m1' s1, 0 <= i < 8 -> masks_are m0 m1' s1 ->
    (forall j, 8 <= j < 16 -> Z.testbit m1' (j - 8) = Z.testbit m1 (j - 8) && negb (unmasks irq j)) ->
    (forall j, 0 <= j < 8 -> unmasks irq j = (j =? i)) ->
    mwp (m ← get_mask 0; _ ← set_pic_mask 0 (Z.land m (Z.lnot (Z.shiftl 1 i))); m ← get_mask 0; i_hw (outb PIC0_DATA m)) s1 Q).
  { intros i m1' s1 Hi8 (Em & B0 & B1 & D0 & D1) H1 Hz. wp_step. apply (get_mask_spec _ m0); [by rewrite Em|].
    eapply (store_mask _ _ _ 0); [done..|by left|]. intros s' Hs'. eapply HQ; [exact Hs'|]. intros j Hj. unfold masked. simpl.
    destruct (Z.ltb_spec j 8); [by rewrite clear_testbit, Hz by lia|]. apply H1. lia. }
  destruct (Z.leb_spec 8 irq) as [Hge|Hlt].
  - eapply unmask_slave_spec; [done|lia|]. intros m1' s1 Hs1 H1.
    assert (Hb : forall j, 8 <= j < 16 -> Z.testbit m1' (j - 8) = Z.testbit m1 (j - 8) && negb (unmasks irq j)).
    { intros j Hj. rewrite H1 by lia. do 2 f_equal. unfold unmasks, IRQ_CASCADE0, IRQ_CASCADE1. rewrite (proj2 (Z.leb_le 8 irq)) by done.
      apply eq_true_iff_eq. rewrite !orb_true_iff, !andb_true_iff, !orb_true_iff, !Z.eqb_eq. lia. }
    assert (Ha : forall j, 0 <= j < 8 -> unmasks irq j = (j =? 2)).
    { intros j Hj. unfold unmasks, IRQ_CASCADE0, IRQ_CASCADE1. rewrite (proj2 (Z.leb_le 8 irq)) by done.
      apply eq_true_iff_eq. rewrite !orb_true_iff, !andb_true_iff, !orb_true_iff, !Z.eqb_eq. lia. }
    destruct (Z.testbit m0 2) eqn:E2; [by apply (Hmaster 2 m1')|]. rewrite (proj2 (Z.ltb_ge irq 8)) by lia.
    apply mwp_ret. eapply HQ; [exact Hs1|]. intros j Hj. unfold masked. destruct (Z.ltb_spec j 8); [|apply Hb; lia].
    rewrite Ha by lia. destruct (Z.eqb_spec j 2) as [->|]; [by rewrite E2|by rewrite andb_true_r].
  - apply mwp_ret. rewrite (proj2 (Z.ltb_lt irq 8)) by lia. apply (Hmaster irq m1); [lia|done|..]; intros j Hj;
      unfold unmasks; rewrite (proj2 (Z.leb_gt 8 irq)), andb_false_l, orb_false_r by lia; [|done].
    by rewrite (proj2 (Z.eqb_neq j irq)), andb_true_r by lia.
Qed.
End masks.

(** Masking an interrupt masks it and no other; unmasking it unmasks it and, for one of
    the slave's, the cascade between the controllers. The controllers hold exactly the
    masks the kernel remembers. *)
Theorem irq_masks_exact {P} `{pic P} (s : istate P) m0 m1 irq : masks_are m0 m1 s -> 0 <= irq < 16 ->
  mwp (intr_irq_mask irq) s (fun _ s' => exists m0' m1', masks_are m0' m1' s' /\
    forall j, 0 <= j < 16 -> masked m0' m1' j = masked m0 m1 j || (j =? irq)) /\
  mwp (intr_irq_unmask irq) s (fun _ s' => exists m0' m1', masks_are m0' m1' s' /\
    forall j, 0 <= j < 16 -> masked m0' m1' j = masked m0 m1 j && negb (unmasks irq j)).
Proof.
  intros Hm Hi. split; [eapply mask_spec|eapply unmask_spec]; try done; intros m0' m1' s' H1 H2; by exists m0', m1'.
Qed.

(** ** The calls at start-up, on ports that keep what is written *)
#[export] Instance latch_ports : ports (gmap Z Z) := {|
  port_in q p := (default 0 (p !! q), p);
  port_out q v p := <[q := v]> p;
  port_out_word q v p := <[q := v]> p;
|}.
#[export, refine] Instance latch_pic : pic (gmap Z Z) := {| pic_data p q := default 0 (p !! q) |}.
Proof. intros q v p q' _. simpl. case_decide; subst; [by rewrite lookup_insert_eq|by rewrite lookup_insert_ne]. Defined.
(** The addresses of the handlers: timer, keyboard, serial port, disks, [kill],
    [page_fault], [syscall_handler]. *)
Definition boot_calls : list reg_call :=
  [Ext 0x20 1 "8254 Timer"; Ext 0x21 2 "8042 Keyboard"] ++ exception_calls 5 6 ++
  [Int 0x30 3 true 7 "syscall"; Ext 0x24 3 "serial"; Ext 0x2e 4 "ide0"; Ext 0x2f 4 "ide1"].
Definition ex_stubs (v : Z) : Z := 0xc0020000 + 16 * v.
Definition ex_istate : istate (gmap Z Z) :=
  Istate (Hw ex_kst ∅) (replicate 256 0) (replicate 256 0) (replicate 256 "") (replicate 256 0) [255; 255] 0.
Lemma ex_stubs_ok v : 0 <= v < 256 -> is_u32 (ex_stubs v) /\ ex_stubs v <> 0.
Proof. unfold ex_stubs, is_u32. lia. Qed.
Lemma znth_zeros n v : 0 <= v < Z.of_nat n -> znth (replicate n 0) v = Some 0.
Proof. intros. unfold znth. rewrite decide_True by lia. apply lookup_replicate_2. lia. Qed.
(** Page faults are taken with interrupts off, system calls may be raised by programs. *)
Lemma registrations_wire_witness :
  mwp (_ ← intr_init ex_stubs 0x1000; do_regs ex_stubs boot_calls) ex_istate (fun _ s =>
    gate_of <$> znth (idt s) 14 = Some (Gate (ex_stubs 14) SEL_KCSEG 14 0 0 1) /\
    gate_of <$> znth (idt s) 0x30 = Some (Gate (ex_stubs 0x30) SEL_KCSEG 15 0 3 1) /\ znth (intr_handlers s) 0x21 = Some 2).
Proof.
  eapply mwp_mono.
  - apply (registrations_wire ex_stubs 0x1000 boot_calls ex_istate ex_stubs_ok); [reflexivity..| | |].
    + intros v Hv. apply (znth_zeros 256). lia.
    + repeat constructor; try done; simpl; lia.
    + apply (bool_decide_unpack _). vm_compute. exact I.
  - intros u s ([_ _ _ Hg Hh] & _). rewrite (Hg 14), (Hg 0x30), (Hh 0x21) by lia. split_and!; reflexivity.
Defined.
Lemma irq_masks_exact_witness : mwp (intr_irq_unmask 11) (with_hw (Hw ex_kst {[ 0x21 := 0xff; 0xa1 := 0xff ]}) ex_istate) (fun _ s' =>
  exists m0 m1, masks_are m0 m1 s' /\ masked m0 m1 11 = false /\ masked m0 m1 2 = false /\ masked m0 m1 10 = true).
Proof.
  destruct (irq_masks_exact (with_hw (Hw ex_kst {[ 0x21 := 0xff; 0xa1 := 0xff ]}) ex_istate) 255 255 11) as [_ Hu].
  - split_and!; [reflexivity|unfold is_u8; lia..|reflexivity|reflexivity].
  - lia.
  - eapply mwp_mono; [exact Hu|]. intros u s' (m0 & m1 & Hm & Hb). exists m0, m1. split; [exact Hm|].
    rewrite !Hb by lia. split_and!; reflexivity.
Defined.
