(* ===== verification/Serial.v ===== *)
(** * Serial: the serial port (devices/serial.c) and the input buffer with it (devices/input.c)

    Bytes to send wait in a queue of Intq that the interrupt handler empties, or are sent
    by polling while the queue is not in use or full; bytes received go to the input
    buffer.  What the chip does is the class [uart]: it gets ready after a number of polls
    that has a bound, and a byte written to the ready transmitter is sent.  A function
    whose thread goes to sleep in a full or empty queue returns nothing. *)
From S2P Require Import Prelude.
From S2P Require Import Sched.
From S2P Require Import Timer.
From S2P Require Import Intq.
From S2P Require Import Io.

Definition IO_BASE : Z := 0x3f8.
Definition RBR_REG : Z := IO_BASE + 0.
Definition THR_REG : Z := IO_BASE + 0.
Definition IER_REG : Z := IO_BASE + 1.
Definition LS_REG : Z := IO_BASE + 0.
Definition MS_REG : Z := IO_BASE + 1.
Definition IIR_REG : Z := IO_BASE + 2.
Definition FCR_REG : Z := IO_BASE + 2.
Definition LCR_REG : Z := IO_BASE + 3.
Definition MCR_REG : Z := IO_BASE + 4.
Definition LSR_REG : Z := IO_BASE + 5.
Definition IER_RECV : Z := 0x01.
Definition IER_XMIT : Z := 0x02.
Definition LCR_N81 : Z := 0x03.
Definition LCR_DLAB : Z := 0x80.
Definition MCR_OUT2 : Z := 0x08.
Definition LSR_DR : Z := 0x01.
Definition LSR_THRE : Z := 0x20.

Inductive tx_mode := UNINIT | POLL | QUEUE.
Record serial (P : Type) := Serial { dh : hw P; txq : intq; buffer : intq; mode : tx_mode }.
Arguments Serial {P}.
Arguments dh {P}. Arguments txq {P}. Arguments buffer {P}. Arguments mode {P}.

Section serial.
Context {P : Type} `{ports P}.
(** The locks of the two queues; the number of polls after which the model gives up. *)
Variables (tx_lock in_lock : Z) (polls : nat).
Abbreviation DM := (M (serial P)).
Definition d_hw {A} (m : M (hw P) A) : DM A := fun s =>
  match m (dh s) with Ok (a, h) => Ok (a, Serial h (txq s) (buffer s) (mode s)) | Panic => Panic | Fault => Fault | Hang => Hang end.
Definition d_kst {A} (m : TM A) : DM A := d_hw (h_kst m).
Definition on_tx {A} (m : M iq A) : DM A := fun s =>
  match m (Iq (hk (dh s)) (txq s)) with
  | Ok (a, i) => Ok (a, Serial (Hw (ik i) (hp (dh s))) (iqueue i) (buffer s) (mode s))
  | Panic => Panic | Fault => Fault | Hang => Hang end.
Definition on_buf {A} (m : M iq A) : DM A := fun s =>
  match m (Iq (hk (dh s)) (buffer s)) with
  | Ok (a, i) => Ok (a, Serial (Hw (ik i) (hp (dh s))) (txq s) (iqueue i) (mode s))
  | Panic => Panic | Fault => Fault | Hang => Hang end.
Definition set_mode (m : tx_mode) : DM unit := modify (fun s => Serial (dh s) (txq s) (buffer s) m).
Definition mode_is (m m' : tx_mode) : bool :=
  match m, m' with UNINIT, UNINIT | POLL, POLL | QUEUE, QUEUE => true | _, _ => false end.
Definition level_is_off : DM unit := l ← d_kst intr_get_level; assert (negb l).

Definition set_serial (bps : Z) : DM unit :=
  let base_rate := 1843200 ÷ 16 in
  let divisor := (base_rate ÷ bps) mod 2 ^ 16 in
  _ ← assert ((300 <=? bps) && (bps <=? 115200));
  _ ← d_hw (outb LCR_REG (Z.lor LCR_N81 LCR_DLAB));
  _ ← d_hw (outb LS_REG (Z.land divisor 0xff)); _ ← d_hw (outb MS_REG (Z.shiftr divisor 8));
  d_hw (outb LCR_REG LCR_N81).
Definition input_full : DM bool := _ ← level_is_off; on_buf intq_full.
Definition write_ier : DM unit :=
  _ ← level_is_off;
  e ← on_tx intq_empty; let ier := if negb e then IER_XMIT else 0 in
  f ← input_full; let ier := if negb f then Z.lor ier IER_RECV else ier in
  d_hw (outb IER_REG ier).
Fixpoint poll (n : nat) : DM unit :=
  match n with
  | O => hang
  | S n' => v ← d_hw (inb LSR_REG); if Z.land v LSR_THRE =? 0 then poll n' else mret tt
  end.
Definition putc_poll (byte : Z) : DM unit :=
  _ ← level_is_off; _ ← poll polls; d_hw (outb THR_REG byte).
Definition init_poll : DM unit :=
  m ← gets mode; _ ← assert (mode_is m UNINIT);
  _ ← d_hw (outb IER_REG 0); _ ← d_hw (outb FCR_REG 0);
  _ ← set_serial 9600;
  _ ← d_hw (outb MCR_REG MCR_OUT2);
  _ ← on_tx (intq_init tx_lock);
  set_mode POLL.
(** The registration of the handler is in Interrupt. *)
Definition serial_init_queue (register : DM unit) : DM unit :=
  m ← gets mode;
  _ ← (if mode_is m UNINIT then init_poll else mret tt);
  m ← gets mode; _ ← assert (mode_is m POLL);
  _ ← register;
  _ ← set_mode QUEUE;
  old_level ← d_kst intr_disable;
  _ ← write_ier;
  _ ← d_kst (intr_set_level old_level); mret tt.
Definition serial_putc (byte : Z) : DM (option unit) :=
  old_level ← d_kst intr_disable;
  m ← gets mode;
  if negb (mode_is m QUEUE) then
    _ ← (if mode_is m UNINIT then init_poll else mret tt);
    _ ← putc_poll byte;
    _ ← d_kst (intr_set_level old_level); mret (Some tt)
  else
    f ← (if negb old_level then on_tx intq_full else mret false);
    g ← (if (f : bool) then
           b ← on_tx (intq_getc tx_lock);
           match b with Some b => _ ← putc_poll b; mret (Some tt) | None => mret None end
         else mret (Some tt));
    match g with
    | None => mret None
    | Some _ =>
        p ← on_tx (intq_putc tx_lock byte);
        match p with
        | None => mret None
        | Some _ => _ ← write_ier; _ ← d_kst (intr_set_level old_level); mret (Some tt)
        end
    end.
(** Each turn of the loop takes a byte from a queue of at most 63. *)
Fixpoint flush_loop (n : nat) : DM unit :=
  match n with
  | O => hang
  | S n' =>
      e ← on_tx intq_empty;
      if (e : bool) then mret tt
      else b ← on_tx (intq_getc tx_lock); match b with Some b => _ ← putc_poll b; flush_loop n' | None => hang end
  end.
Definition serial_flush : DM unit :=
  old_level ← d_kst intr_disable; _ ← flush_loop 64; _ ← d_kst (intr_set_level old_level); mret tt.
Definition serial_notify : DM unit :=
  _ ← level_is_off; m ← gets mode; if mode_is m QUEUE then write_ier else mret tt.

(** ** devices/input.c *)
Definition input_init : DM unit := on_buf (intq_init in_lock).
Definition input_putc (key : Z) : DM unit :=
  _ ← level_is_off; f ← on_buf intq_full; _ ← assert (negb f);
  p ← on_buf (intq_putc in_lock key); match p with Some _ => serial_notify | None => hang end.
Definition input_getc : DM (option Z) :=
  old_level ← d_kst intr_disable;
  key ← on_buf (intq_getc in_lock);
  match key with
  | Some k => _ ← serial_notify; _ ← d_kst (intr_set_level old_level); mret (Some k)
  | None => mret None
  end.

(** ** The interrupt handler *)
Fixpoint receive_loop (n : nat) : DM unit :=
  match n with
  | O => hang
  | S n' =>
      f ← input_full;
      if (f : bool) then mret tt
      else
        v ← d_hw (inb LSR_REG);
        if Z.land v LSR_DR =? 0 then mret tt
        else b ← d_hw (inb RBR_REG); _ ← input_putc b; receive_loop n'
  end.
Fixpoint transmit_loop (n : nat) : DM unit :=
  match n with
  | O => hang
  | S n' =>
      e ← on_tx intq_empty;
      if (e : bool) then mret tt
      else
        v ← d_hw (inb LSR_REG);
        if Z.land v LSR_THRE =? 0 then mret tt
        else b ← on_tx (intq_getc tx_lock); match b with Some b => _ ← d_hw (outb THR_REG b); transmit_loop n' | None => hang end
  end.
Definition serial_interrupt : DM unit :=
  _ ← d_hw (inb IIR_REG);
  _ ← receive_loop 64;
  _ ← transmit_loop 64;
  write_ier.
End serial.

(** ** The chip *)
Class uart (P : Type) `{ports P} := {
  sent : P -> list Z;                  (* what has left the port *)
  busy : P -> nat;                     (* polls until the transmitter is ready *)
  dlab : P -> bool;                    (* the data port is the divisor latch *)
  busy_max : nat;
  uart_bound : forall p, (busy p <= busy_max)%nat;
  uart_status : forall p, let '(v, p') := port_in LSR_REG p in
    sent p' = sent p /\ dlab p' = dlab p /\ busy p' = pred (busy p) /\ (Z.land v LSR_THRE =? 0) = negb (busy p =? 0)%nat;
  uart_in : forall q p, q <> LSR_REG -> sent (port_in q p).2 = sent p /\ dlab (port_in q p).2 = dlab p /\ busy (port_in q p).2 = busy p;
  uart_send : forall v p, dlab p = false -> busy p = 0%nat -> sent (port_out THR_REG v p) = sent p ++ [v] /\ dlab (port_out THR_REG v p) = false;
  uart_latch : forall v p, dlab p = true -> sent (port_out THR_REG v p) = sent p /\ dlab (port_out THR_REG v p) = true;
  uart_line : forall v p, sent (port_out LCR_REG v p) = sent p /\ dlab (port_out LCR_REG v p) = Z.testbit v 7;
  uart_out : forall q v p, q <> THR_REG -> q <> LCR_REG -> sent (port_out q v p) = sent p /\ dlab (port_out q v p) = dlab p;
}.

(** ** Nothing is lost, sent twice or sent out of order *)
Section order.
Context {P : Type} `{uart P} (tx_lock in_lock : Z).
Implicit Types (s : serial P).
Abbreviation polls := (S busy_max).

Definition with_tx (q : intq) (s : serial P) : serial P := Serial (dh s) q (buffer s) (mode s).
Definition with_buf (q : intq) (s : serial P) : serial P := Serial (dh s) (txq s) q (mode s).
Definition at_ports (p : P) (s : serial P) : serial P := Serial (Hw (hk (dh s)) p) (txq s) (buffer s) (mode s).
Definition quiet (s : serial P) : Prop := intr_on (the_cpu (hk (dh s))) = false.

Lemma d_hw_spec {A} (m : M (hw P) A) s (Q : A -> serial P -> Prop) : mwp m (dh s) (fun a h => Q a (Serial h (txq s) (buffer s) (mode s))) -> mwp (d_hw m) s Q.
Proof. unfold mwp, d_hw. by destruct (m (dh s)) as [[a h]| | |]. Qed.
Lemma level_off_spec s (Q : unit -> serial P -> Prop) : quiet s -> Q tt s -> mwp level_is_off s Q.
Proof.
  intros Hq HQ. unfold level_is_off. wp_step. apply d_hw_spec, h_kst_spec. unfold intr_get_level. wp_step.
  wp_step; [unfold quiet in Hq; by rewrite Hq|]. by destruct s as [[] ? ? ?].
Qed.
Lemma d_out_spec q v s (Q : unit -> serial P -> Prop) : Q tt (at_ports (port_out q (u8 v) (hp (dh s))) s) -> mwp (d_hw (outb q v)) s Q.
Proof. intros HQ. by apply d_hw_spec. Qed.
Lemma d_in_spec q s (Q : Z -> serial P -> Prop) : Q (port_in q (hp (dh s))).1 (at_ports (port_in q (hp (dh s))).2 s) -> mwp (d_hw (inb q)) s Q.
Proof. intros HQ. apply d_hw_spec, inb_spec. intros v p E. by rewrite E in HQ. Qed.

(** The queues, with nobody waiting. *)
Lemma iq_same {A} (m : M iq A) (f : A -> iq -> Prop) k q : mwp m (Iq k q) f -> mwp m (Iq k q) f.
Proof. done. Qed.
Lemma tx_spec {A} (m : M iq A) s (Q : A -> serial P -> Prop) :
  mwp m (Iq (hk (dh s)) (txq s)) (fun a i => Q a (Serial (Hw (ik i) (hp (dh s))) (iqueue i) (buffer s) (mode s))) -> mwp (on_tx m) s Q.
Proof. unfold mwp, on_tx. by destruct (m _) as [[a i]| | |]. Qed.
Lemma buf_spec {A} (m : M iq A) s (Q : A -> serial P -> Prop) :
  mwp m (Iq (hk (dh s)) (buffer s)) (fun a i => Q a (Serial (Hw (ik i) (hp (dh s))) (txq s) (iqueue i) (mode s))) -> mwp (on_buf m) s Q.
Proof. unfold mwp, on_buf. by destruct (m _) as [[a i]| | |]. Qed.
Lemma serial_eta s : Serial (Hw (hk (dh s)) (hp (dh s))) (txq s) (buffer s) (mode s) = s.
Proof. by destruct s as [[] ? ? ?]. Qed.
Lemma tx_empty_spec s l (Q : bool -> serial P -> Prop) : quiet s -> holds (txq s) l -> Q (bool_decide (l = [])) s -> mwp (on_tx intq_empty) s Q.
Proof. intros Hq Hl HQ. apply tx_spec. eapply empty_spec; [done|done|]. simpl. by rewrite serial_eta. Qed.
Lemma tx_full_spec s l (Q : bool -> serial P -> Prop) : quiet s -> holds (txq s) l -> Q (zlen l =? INTQ_BUFSIZE - 1) s -> mwp (on_tx intq_full) s Q.
Proof. intros Hq Hl HQ. apply tx_spec. eapply full_spec; [done|done|]. simpl. by rewrite serial_eta. Qed.
Lemma buf_full_spec s l (Q : bool -> serial P -> Prop) : quiet s -> holds (buffer s) l -> Q (zlen l =? INTQ_BUFSIZE - 1) s -> mwp (on_buf intq_full) s Q.
Proof. intros Hq Hl HQ. apply buf_spec. eapply full_spec; [done|done|]. simpl. by rewrite serial_eta. Qed.
Lemma getc_holds lock k q x l : intr_on (the_cpu k) = false -> holds q (x :: l) ->
  exists q', intq_getc lock (Iq k q) = Ok (Some x, Iq k q') /\ holds q' l.
Proof.
  intros Hk Hq. destruct (do_op_spec lock Get (x :: l) (Some x) l k q Hk Hq eq_refl) as (q' & E & Hq').
  exists q'. split; [|done]. cbn [do_op] in E. unfold mbind, M_bind in E.
  destruct (intq_getc lock (Iq k q)) as [[[y|] i]| | |]; try done; cbn in E; congruence.
Qed.
Lemma putc_holds lock k q b l : intr_on (the_cpu k) = false -> holds q l -> zlen l < INTQ_BUFSIZE - 1 ->
  exists q', intq_putc lock b (Iq k q) = Ok (Some tt, Iq k q') /\ holds q' (l ++ [b]).
Proof.
  intros Hk Hq Hr. destruct (do_op_spec lock (Put b) l None (l ++ [b]) k q Hk Hq) as (q' & E & Hq').
  { simpl. by rewrite (proj2 (Z.ltb_lt _ _)). }
  exists q'. split; [|done]. cbn [do_op] in E. unfold mbind, M_bind in E.
  destruct (intq_putc lock b (Iq k q)) as [[[[]|] i]| | |]; try done. unfold mret, M_ret in E. by injection E as ->.
Qed.
Lemma tx_getc_spec s x l (Q : option Z -> serial P -> Prop) : quiet s -> holds (txq s) (x :: l) ->
  (forall q, holds q l -> Q (Some x) (with_tx q s)) -> mwp (on_tx (intq_getc tx_lock)) s Q.
Proof.
  intros Hq Hl HQ. destruct (getc_holds tx_lock _ _ _ _ Hq Hl) as (q' & E & Hq'). apply tx_spec. unfold mwp. rewrite E.
  specialize (HQ q' Hq'). by destruct s as [[] ? ? ?].
Qed.
Lemma tx_putc_spec s b l (Q : option unit -> serial P -> Prop) : quiet s -> holds (txq s) l -> zlen l < INTQ_BUFSIZE - 1 ->
  (forall q, holds q (l ++ [b]) -> Q (Some tt) (with_tx q s)) -> mwp (on_tx (intq_putc tx_lock b)) s Q.
Proof.
  intros Hq Hl Hr HQ. destruct (putc_holds tx_lock _ _ b _ Hq Hl Hr) as (q' & E & Hq'). apply tx_spec. unfold mwp. rewrite E.
  specialize (HQ q' Hq'). by destruct s as [[] ? ? ?].
Qed.
Lemma buf_putc_spec s b l (Q : option unit -> serial P -> Prop) : quiet s -> holds (buffer s) l -> zlen l < INTQ_BUFSIZE - 1 ->
  (forall q, holds q (l ++ [b]) -> Q (Some tt) (with_buf q s)) -> mwp (on_buf (intq_putc in_lock b)) s Q.
Proof.
  intros Hq Hl Hr HQ. destruct (putc_holds in_lock _ _ b _ Hq Hl Hr) as (q' & E & Hq'). apply buf_spec. unfold mwp. rewrite E.
  specialize (HQ q' Hq'). by destruct s as [[] ? ? ?].
Qed.

(** The port is initialised, [l] waits in the queue and [o] has been sent. *)
Record line (o l : list Z) (s : serial P) : Prop := Line {
  li_quiet : quiet s; li_mode : mode s <> UNINIT; li_dlab : dlab (hp (dh s)) = false;
  li_sent : sent (hp (dh s)) = o; li_queue : holds (txq s) l; li_bytes : Forall is_u8 l;
  li_poll : mode s = POLL -> l = []; li_buf : exists b, holds (buffer s) b;
}.
Lemma line_ports o l p s : line o l s -> dlab p = false -> sent p = o -> line o l (at_ports p s).
Proof. intros [] ? ?. by split. Qed.
(** At most the interrupt enable register has been written. *)
Definition ier_only (s s' : serial P) : Prop :=
  hp (dh s') = hp (dh s) \/ exists v, hp (dh s') = port_out IER_REG v (hp (dh s)).
Lemma write_ier_spec o l s (Q : unit -> serial P -> Prop) : line o l s ->
  (forall s', line o l s' -> hk (dh s') = hk (dh s) -> mode s' = mode s -> buffer s' = buffer s -> ier_only s s' -> Q tt s') -> mwp write_ier s Q.
Proof.
  intros Hl HQ. pose proof Hl as [Hq Hm Hd Hs Hh Hb Hp [bl Hbl]]. unfold write_ier. wp_step. apply level_off_spec; [done|].
  wp_step. eapply tx_empty_spec; [done..|]. wp_step. unfold input_full. wp_step. apply level_off_spec; [done|].
  eapply buf_full_spec; [done..|]. apply d_out_spec. apply HQ; [|done|done|done|right; by eexists].
  match goal with |- context [port_out IER_REG ?v ?p] => pose proof (uart_out IER_REG v p ltac:(done) ltac:(done)) as [Es Ed] end.
  apply line_ports; [done|by rewrite Ed|by rewrite Es].
Qed.
(** After enough polls the transmitter is ready. *)
Lemma poll_spec n : forall o l s (Q : unit -> serial P -> Prop), line o l s -> (busy (hp (dh s)) < n)%nat ->
  (forall s', line o l s' -> busy (hp (dh s')) = 0%nat -> hk (dh s') = hk (dh s) -> mode s' = mode s -> Q tt s') -> mwp (poll n) s Q.
Proof.
  induction n as [|n IH]; intros o l s Q Hl Hb HQ; [lia|]. cbn [poll]. wp_step. apply d_in_spec.
  pose proof (uart_status (hp (dh s))) as Hst. destruct (port_in LSR_REG (hp (dh s))) as [v p]. destruct Hst as (Es & Ed & Eb & Ev). simpl. rewrite Ev.
  assert (Hl' : line o l (at_ports p s)) by (apply line_ports; [done|rewrite Ed; apply Hl|rewrite Es; apply Hl]).
  destruct (busy (hp (dh s))) as [|k]; simpl.
  - apply mwp_ret. by apply HQ.
  - eapply IH; [exact Hl'|simpl; lia|]. intros s' H1 H2 H3 H4. by apply HQ.
Qed.
(** Sending a byte that is ahead of the queue. *)
Lemma putc_poll_spec o l s b (Q : unit -> serial P -> Prop) : line o l s -> is_u8 b ->
  (forall s', line (o ++ [b]) l s' -> hk (dh s') = hk (dh s) -> mode s' = mode s -> Q tt s') -> mwp (putc_poll polls b) s Q.
Proof.
  intros Hl Hb HQ. unfold putc_poll. wp_step. apply level_off_spec; [apply Hl|]. wp_step.
  eapply poll_spec; [exact Hl|pose proof (uart_bound (hp (dh s))); lia|]. intros s1 Hl1 Hr Hk Hm. apply d_out_spec.
  apply HQ; [|done|done]. unfold u8. rewrite Z.mod_small by (unfold is_u8 in Hb; lia).
  destruct (uart_send b (hp (dh s1))) as [Es Ed]; [apply Hl1|done|].
  destruct Hl1. split; try done. simpl. rewrite Es. by f_equal.
Qed.
Lemma line_tx o l q l' s : line o l s -> holds q l' -> Forall is_u8 l' -> (mode s = POLL -> l' = []) -> line o l' (with_tx q s).
Proof. intros [] ? ? ?. by split. Qed.

Lemma quiet_same s : quiet s -> with_intr false (hk (dh s)) = hk (dh s).
Proof. unfold quiet. intros <-. apply with_intr_same. Qed.
Lemma quiet_disable s (Q : bool -> serial P -> Prop) : quiet s -> Q false s -> mwp (d_kst intr_disable) s Q.
Proof.
  intros Hq HQ. apply d_hw_spec, disable_spec. rewrite (quiet_same _ Hq). unfold quiet in Hq. rewrite Hq. by destruct s as [[] ? ? ?].
Qed.
Lemma quiet_restore s (Q : bool -> serial P -> Prop) : quiet s -> (forall b, Q b s) -> mwp (d_kst (intr_set_level false)) s Q.
Proof. intros Hq HQ. apply d_hw_spec, set_level_spec; [done|]. intros b. rewrite (quiet_same _ Hq). by destruct s as [[] ? ? ?]. Qed.

Definition same_k (s s' : serial P) : Prop := hk (dh s') = hk (dh s) /\ mode s' = mode s.
Lemma line_full o l s : line o l s -> 0 <= zlen l <= INTQ_BUFSIZE - 1.
Proof. intros Hl. pose proof (ho_room _ _ (li_queue _ _ _ Hl)). unfold zlen in *. lia. Qed.
(** With interrupts off a byte goes out, or to the end of the queue; a full queue gives
    its first byte to the port. *)
Lemma serial_putc_spec o l s b (Q : option unit -> serial P -> Prop) : line o l s -> is_u8 b ->
  (forall o' l' s', line o' l' s' -> o' ++ l' = (o ++ l) ++ [b] -> same_k s s' -> Q (Some tt) s') -> mwp (serial_putc tx_lock polls b) s Q.
Proof.
  intros Hl Hb HQ. pose proof Hl as [Hq Hm Hd Hs Hh Hby Hp Hbuf]. unfold serial_putc. wp_step. apply quiet_disable; [done|]. wp_step. wp_step.
  destruct (mode s) eqn:Em; [done|..]; simpl.
  - rewrite Hp in * by done. wp_step. apply mwp_ret. wp_step. eapply putc_poll_spec; [done..|]. intros s1 Hl1 Hk1 Hm1.
    wp_step. apply quiet_restore; [apply Hl1|]. intros _. wp_step. eapply HQ; [exact Hl1|by rewrite !app_nil_r|].
    split; [done|by rewrite Hm1, Em].
  - wp_step. eapply tx_full_spec; [done..|]. wp_step.
    assert (Hput : forall o1 l1 s1, line o1 l1 s1 -> o1 ++ l1 = o ++ l -> zlen l1 < INTQ_BUFSIZE - 1 -> same_k s s1 ->
      mwp (p ← on_tx (intq_putc tx_lock b);
           match p with
           | None => mret None
           | Some _ => _ ← write_ier; _ ← d_kst (intr_set_level false); mret (Some tt)
           end) s1 Q).
    { intros o1 l1 s1 Hl1 E1 Hr1 [Hk1 Hm1]. wp_step. eapply tx_putc_spec; [apply Hl1|apply Hl1|done|]. intros q Hq1. wp_step.
      assert (Hl2 : line o1 (l1 ++ [b]) (with_tx q s1)).
      { eapply line_tx; [done|done|apply list.Forall_app; split; [apply Hl1|by constructor]|]. rewrite Hm1, Em. done. }
      eapply write_ier_spec; [exact Hl2|]. intros s3 Hl3 Hk3 Hm3 _ _. wp_step. apply quiet_restore; [apply Hl3|]. intros _. wp_step.
      eapply HQ; [exact Hl3|by rewrite <- E1, app_assoc|]. split; [by rewrite Hk3|by rewrite Hm3]. }
    destruct (Z.eqb_spec (zlen l) (INTQ_BUFSIZE - 1)) as [Hfull|Hroom].
    + destruct l as [|x l]; [done|]. wp_step. eapply tx_getc_spec; [done..|]. intros q Hq1. wp_step. apply list.Forall_cons in Hby as [Hx Hby].
      assert (Hl1 : line o l (with_tx q s)) by (eapply line_tx; [done|done|done|]; by rewrite Em).
      eapply putc_poll_spec; [exact Hl1|exact Hx|]. intros s2 Hl2 Hk2 Hm2. wp_step.
      eapply Hput; [exact Hl2|by rewrite <- app_assoc|unfold zlen in *; simpl length in Hfull; lia|].
      split; [by rewrite Hk2|by rewrite Hm2].
    + apply mwp_ret. eapply Hput; [exact Hl|done|pose proof (line_full _ _ _ Hl); lia|done].
Qed.
Lemma flush_loop_spec n : forall o l s (Q : unit -> serial P -> Prop), line o l s -> (length l < n)%nat ->
  (forall s', line (o ++ l) [] s' -> same_k s s' -> Q tt s') -> mwp (flush_loop tx_lock polls n) s Q.
Proof.
  induction n as [|n IH]; intros o l s Q Hl Hn HQ; [lia|]. cbn [flush_loop]. wp_step. eapply tx_empty_spec; [apply Hl|apply Hl|].
  destruct l as [|x l]; simpl.
  - apply mwp_ret. apply HQ; [by rewrite app_nil_r|done].
  - wp_step. eapply tx_getc_spec; [apply Hl|apply Hl|]. intros q Hq1. pose proof (li_bytes _ _ _ Hl) as [Hx Hby]%list.Forall_cons.
    assert (Hl1 : line o l (with_tx q s)) by (eapply line_tx; [done|done|done|]; intros Em; by apply (li_poll _ _ _ Hl) in Em).
    wp_step. eapply putc_poll_spec; [exact Hl1|exact Hx|]. intros s2 Hl2 Hk2 Hm2.
    eapply IH; [exact Hl2|simpl in Hn; lia|]. intros s3 Hl3 [Hk3 Hm3]. apply HQ; [by rewrite <- app_assoc in Hl3|].
    split; [by rewrite Hk3|by rewrite Hm3].
Qed.
Lemma serial_flush_spec o l s (Q : unit -> serial P -> Prop) : line o l s -> (forall s', line (o ++ l) [] s' -> same_k s s' -> Q tt s') ->
  mwp (serial_flush tx_lock polls) s Q.
Proof.
  intros Hl HQ. unfold serial_flush. wp_step. apply quiet_disable; [apply Hl|]. wp_step.
  eapply flush_loop_spec; [exact Hl|pose proof (line_full _ _ _ Hl); unfold zlen, INTQ_BUFSIZE in *; lia|]. intros s1 Hl1 Hk1.
  wp_step. apply quiet_restore; [apply Hl1|]. intros _. wp_step. by apply HQ.
Qed.

(** *** Interrupts *)
Lemma line_in o l q s : q <> LSR_REG -> line o l s -> line o l (at_ports (port_in q (hp (dh s))).2 s).
Proof. intros Hq Hl. destruct (uart_in q (hp (dh s)) Hq) as (Es & Ed & _). apply line_ports; [done|rewrite Ed; apply Hl|rewrite Es; apply Hl]. Qed.
Lemma line_status o l s : line o l s -> line o l (at_ports (port_in LSR_REG (hp (dh s))).2 s).
Proof.
  intros Hl. pose proof (uart_status (hp (dh s))) as Hst. destruct (port_in LSR_REG (hp (dh s))) as [v p]. destruct Hst as (Es & Ed & _).
  apply line_ports; simpl; [done|rewrite Ed; apply Hl|rewrite Es; apply Hl].
Qed.
Lemma line_buf o l q b s : line o l s -> holds q b -> line o l (with_buf q s).
Proof. intros [] ?. split; try done. by exists b. Qed.
Lemma input_putc_spec o l b s c (Q : unit -> serial P -> Prop) : line o l s -> holds (buffer s) b -> zlen b < INTQ_BUFSIZE - 1 ->
  (forall s', line o l s' -> holds (buffer s') (b ++ [c]) -> same_k s s' -> ier_only s s' -> Q tt s') -> mwp (input_putc in_lock c) s Q.
Proof.
  intros Hl Hb Hr HQ. unfold input_putc. wp_step. apply level_off_spec; [apply Hl|]. wp_step. eapply buf_full_spec; [apply Hl|done|].
  wp_step. wp_step; [bool_goal; lia|]. wp_step. eapply buf_putc_spec; [apply Hl|done|done|]. intros q Hq.
  assert (Hl1 : line o l (with_buf q s)) by (by eapply line_buf). unfold serial_notify. wp_step. apply level_off_spec; [apply Hl1|].
  wp_step. wp_step. destruct (mode_is _ _); [|by apply mwp_ret, HQ; [..|left]].
  eapply write_ier_spec; [exact Hl1|]. intros s2 Hl2 Hk2 Hm2 Hb2 Hi2. apply HQ; [done|by rewrite Hb2|by split|done].
Qed.
Lemma receive_spec n : forall o l b s (Q : unit -> serial P -> Prop), line o l s -> holds (buffer s) b -> INTQ_BUFSIZE - 1 - zlen b < Z.of_nat n ->
  (forall s', line o l s' -> same_k s s' -> Q tt s') -> mwp (receive_loop in_lock n) s Q.
Proof.
  induction n as [|n IH]; intros o l b s Q Hl Hb Hn HQ; cbn [receive_loop].
  { pose proof (ho_room _ _ Hb). unfold INTQ_BUFSIZE in *. lia. }
  wp_step. unfold input_full. wp_step. apply level_off_spec; [apply Hl|]. eapply buf_full_spec; [apply Hl|done|].
  destruct (Z.eqb_spec (zlen b) (INTQ_BUFSIZE - 1)) as [|Hne]; [by apply mwp_ret, HQ|].
  wp_step. apply d_in_spec. pose proof (line_status _ _ _ Hl) as Hl1. destruct (Z.land _ _ =? 0); [by apply mwp_ret, HQ|].
  wp_step. apply d_in_spec. pose proof (line_in _ _ RBR_REG _ ltac:(done) Hl1) as Hl2.
  wp_step. eapply input_putc_spec; [exact Hl2|exact Hb|pose proof (ho_room _ _ Hb); unfold INTQ_BUFSIZE in *; lia|].
  intros s3 Hl3 Hb3 Hk3 _. eapply IH; [exact Hl3|exact Hb3|unfold zlen in *; rewrite length_app; simpl length; lia|].
  intros s4 Hl4 [Hk4 Hm4]. apply HQ; [done|]. destruct Hk3 as [Hk3 Hm3]. split; [by rewrite Hk4, Hk3|by rewrite Hm4, Hm3].
Qed.
Lemma transmit_spec n : forall o l s (Q : unit -> serial P -> Prop), line o l s -> (length l < n)%nat ->
  (forall o' l' s', line o' l' s' -> o' ++ l' = o ++ l -> same_k s s' -> Q tt s') -> mwp (transmit_loop tx_lock n) s Q.
Proof.
  induction n as [|n IH]; intros o l s Q Hl Hn HQ; [lia|]. cbn [transmit_loop]. wp_step. eapply tx_empty_spec; [apply Hl|apply Hl|].
  destruct l as [|x l]; simpl; [by eapply mwp_ret, HQ|].
  wp_step. apply d_in_spec. pose proof (line_status _ _ _ Hl) as Hl1.
  pose proof (uart_status (hp (dh s))) as Hst. destruct (port_in LSR_REG (hp (dh s))) as [v p]. destruct Hst as (_ & _ & Eb & Ev). simpl in *. rewrite Ev.
  destruct (busy (hp (dh s))) as [|k]; simpl; [|by eapply mwp_ret, HQ].
  wp_step. eapply tx_getc_spec; [apply Hl1|apply Hl1|]. intros q Hq. pose proof (li_bytes _ _ _ Hl) as [Hx Hby]%list.Forall_cons.
  assert (Hl2 : line o l (with_tx q (at_ports p s))) by (eapply line_tx; [done|done|done|]; intros Em; by apply (li_poll _ _ _ Hl) in Em).
  wp_step. apply d_out_spec. unfold u8. rewrite Z.mod_small by (unfold is_u8 in Hx; lia).
  destruct (uart_send x p) as [Es Ed]; [apply Hl2|done|].
  eapply (IH (o ++ [x]) l); [|simpl in Hn; lia|].
  - destruct Hl2. split; try done. simpl in *. rewrite Es. by f_equal.
  - intros o' l' s' Hl' E Hk. eapply HQ; [exact Hl'|by rewrite E, <- app_assoc|done].
Qed.
Lemma serial_interrupt_spec o l s (Q : unit -> serial P -> Prop) : line o l s ->
  (forall o' l' s', line o' l' s' -> o' ++ l' = o ++ l -> same_k s s' -> Q tt s') -> mwp (serial_interrupt tx_lock in_lock) s Q.
Proof.
  intros Hl HQ. unfold serial_interrupt. wp_step. apply d_in_spec. pose proof (line_in _ _ IIR_REG _ ltac:(done) Hl) as Hl1.
  destruct (li_buf _ _ _ Hl1) as [b Hb]. wp_step. eapply receive_spec; [exact Hl1|exact Hb|unfold zlen, INTQ_BUFSIZE; lia|].
  intros s2 Hl2 [Hk2 Hm2]. wp_step. eapply transmit_spec; [exact Hl2|pose proof (line_full _ _ _ Hl2); unfold zlen, INTQ_BUFSIZE in *; lia|].
  intros o3 l3 s3 Hl3 E3 [Hk3 Hm3]. eapply write_ier_spec; [exact Hl3|]. intros s4 Hl4 Hk4 Hm4 _ _.
  eapply HQ; [exact Hl4|done|]. split; [by rewrite Hk4, Hk3, Hk2|by rewrite Hm4, Hm3, Hm2].
Qed.

(** *** Any sequence *)
Inductive serial_op := SPut (b : Z) | SInterrupt | SFlush.
Definition do_serial_op (op : serial_op) : M (serial P) unit :=
  match op with
  | SPut b => r ← serial_putc tx_lock polls b; match r with Some _ => mret tt | None => hang end
  | SInterrupt => serial_interrupt tx_lock in_lock
  | SFlush => serial_flush tx_lock polls
  end.
Fixpoint do_serial_ops (ops : list serial_op) : M (serial P) unit :=
  match ops with [] => mret tt | op :: ops' => _ ← do_serial_op op; do_serial_ops ops' end.
Definition put_of (op : serial_op) : list Z := match op with SPut b => [b] | _ => [] end.
Definition op_bytes (op : serial_op) : Prop := Forall is_u8 (put_of op).
Lemma do_serial_op_spec op o l s (Q : unit -> serial P -> Prop) : line o l s -> op_bytes op ->
  (forall o' l' s', line o' l' s' -> o' ++ l' = (o ++ l) ++ put_of op -> same_k s s' -> Q tt s') -> mwp (do_serial_op op) s Q.
Proof.
  intros Hl Hb HQ. destruct op as [b| |]; simpl.
  - wp_step. eapply serial_putc_spec; [done|by apply list.Forall_cons in Hb as [Hb _]|]. intros o' l' s' Hl' E Hk. by eapply mwp_ret, HQ.
  - eapply serial_interrupt_spec; [done|]. intros o' l' s' Hl' E Hk. eapply HQ; [done| |done]. by rewrite app_nil_r.
  - eapply serial_flush_spec; [done|]. intros s' Hl' Hk. eapply HQ; [done| |done]. by rewrite !app_nil_r.
Qed.
Lemma do_serial_ops_spec ops : forall o l s, line o l s -> Forall op_bytes ops ->
  mwp (do_serial_ops ops) s (fun _ s' => exists o' l', line o' l' s' /\ o' ++ l' = o ++ l ++ concat (put_of <$> ops) /\ same_k s s').
Proof.
  induction ops as [|op ops IH]; intros o l s Hl Hb; simpl.
  - apply mwp_ret. exists o, l. by rewrite app_nil_r.
  - apply list.Forall_cons in Hb as [Hb1 Hb]. wp_step. eapply do_serial_op_spec; [done..|]. intros o1 l1 s1 Hl1 E1 [Hk1 Hm1].
    eapply mwp_mono; [by apply (IH o1 l1)|]. intros [] s2 (o2 & l2 & Hl2 & E2 & [Hk2 Hm2]). exists o2, l2. split; [done|].
    split; [rewrite E2, app_assoc, E1, <- !app_assoc; done|]. split; [by rewrite Hk2|by rewrite Hm2].
Qed.
End order.

(** C37. With interrupts off and nobody waiting for the queues, any sequence of [serial_putc],
    interrupts of the port and flushes keeps every byte: what has been sent, followed by
    what waits in the queue, is what it was before followed by the bytes put, in order;
    nothing waits or fails, however slow the port. *)
Theorem serial_keeps_the_stream {P} `{uart P} tx_lock in_lock ops o l (s : serial P) : line o l s -> Forall op_bytes ops ->
  mwp (do_serial_ops tx_lock in_lock ops) s (fun _ s' => exists o' l', line o' l' s' /\
    o' ++ l' = o ++ l ++ concat (put_of <$> ops) /\ same_k s s').
Proof. apply do_serial_ops_spec. Qed.

(** ** A port that needs two polls for each byte *)
Inductive wait := Ready | Soon | Later.
Definition wait_polls (w : wait) : nat := match w with Ready => 0 | Soon => 1 | Later => 2 end.
Definition wait_less (w : wait) : wait := match w with Later => Soon | _ => Ready end.
Record slow_port := Slow { sp_sent : list Z; sp_wait : wait; sp_dlab : bool }.
#[export] Instance slow_ports : ports slow_port := {|
  port_in q p := if q =? LSR_REG then ((match sp_wait p with Ready => 0x20 | _ => 0 end), Slow (sp_sent p) (wait_less (sp_wait p)) (sp_dlab p)) else (0, p);
  port_out q v p :=
    if q =? THR_REG then (if sp_dlab p then p else Slow (sp_sent p ++ [v]) Later false)
    else if q =? LCR_REG then Slow (sp_sent p) (sp_wait p) (Z.testbit v 7) else p;
  port_out_word q v p := p;
|}.
#[export, refine] Instance slow_uart : uart slow_port := {|
  sent := sp_sent; busy p := wait_polls (sp_wait p); dlab := sp_dlab; busy_max := 2%nat |}.
Proof.
  - intros p. destruct (sp_wait p); simpl; lia.
  - intros p. simpl. by destruct (sp_wait p).
  - intros q p Hq. simpl. by rewrite (proj2 (Z.eqb_neq _ _) Hq).
  - intros v p Hd Hb. simpl. by rewrite Hd.
  - intros v p Hd. simpl. by rewrite Hd.
  - done.
  - intros q v p H1 H2. simpl. by rewrite (proj2 (Z.eqb_neq _ _) H1), (proj2 (Z.eqb_neq _ _) H2).
Defined.
Definition ex_serial : serial slow_port :=
  Serial (Hw (set_cpu (Cpu false false false 0) ex_kst) (Slow [] Later false)) ex_intq ex_intq QUEUE.
Lemma serial_keeps_the_stream_witness :
  mwp (do_serial_ops 77 88 [SPut 104; SPut 105; SInterrupt; SPut 33; SFlush]) ex_serial (fun _ s' =>
    exists o l, line o l s' /\ o ++ l = [104; 105; 33]).
Proof.
  eapply mwp_mono.
  - apply (serial_keeps_the_stream 77 88 _ [] []); [|repeat constructor; unfold is_u8; lia].
    assert (holds ex_intq []) by (constructor; done). split; try done. by exists [].
  - intros u s' (o & l & Hl & E & _). by exists o, l.
Defined.
