(* ===== verification/Rtc.v ===== *)
(** * Rtc: the clock chip (devices/rtc.c)

    The chip is read register by register and goes on by itself.  The class [clock_chip]
    says what it does: while an update is under way what its registers give is not said at
    all, and from the end of the update on they give the new time.  The theorem says when
    the loop that reads the chip ends with the new time, and what is made of it: the seconds
    since the epoch and the whole current month, with an error of the leap days.  What the
    loop does not exclude, a mixture of two times, is an example at the end. *)
From S2P Require Import Prelude.
From S2P Require Import Sched.
From S2P Require Import Io.

Definition CMOS_REG_SET : Z := 0x70.
Definition CMOS_REG_IO : Z := 0x71.
Definition RTC_REG_SEC : Z := 0.
Definition RTC_REG_MIN : Z := 2.
Definition RTC_REG_HOUR : Z := 4.
Definition RTC_REG_MDAY : Z := 7.
Definition RTC_REG_MON : Z := 8.
Definition RTC_REG_YEAR : Z := 9.
Definition days_per_month : list Z := [31; 28; 31; 30; 31; 30; 31; 31; 30; 31; 30; 31].
Definition bcd_to_bin (x : Z) : Z := Z.land x 0x0f + Z.shiftr x 4 * 10.

(** The components that are read, in the order of the reads. *)
Record reading := Reading { sec : Z; min : Z; hour : Z; mday : Z; mon : Z; year : Z }.

(** The loop over the months from [i] on, with [n] of them left. *)
Fixpoint add_months (n : nat) (i : Z) (time : Z) : res Z :=
  match n with
  | O => mret time
  | S n' => d ← deref (znth days_per_month (i - 1)); add_months n' (i + 1) (time +u d * 24 * 60 * 60)
  end.
(** [time_t] has 32 bits; the product of the first line is an [int] that wraps from 2038 on. *)
Definition years_and_months (year mon : Z) : res Z :=
  let year := if year <? 70 then year + 100 else year in
  let year := year - 70 in
  let time := u32 (s32 ((year * 365 + (year - 1) ÷ 4) * 24 * 60 * 60)) in
  time ← add_months (Z.to_nat mon) 1 time;
  mret (if (2 <? mon) && (Z.rem year 4 =? 0) then time +u 24 * 60 * 60 else time).
Definition break_down (r : reading) : res Z :=
  time ← years_and_months (year r) (mon r);
  let time := time +u (mday r - 1) * 24 * 60 * 60 in
  let time := time +u hour r * 60 * 60 in
  let time := time +u min r * 60 in
  mret (time +u sec r).

Section rtc.
Context {P : Type} `{ports P}.
Definition cmos_read (index : Z) : M (hw P) Z := _ ← outb CMOS_REG_SET index; inb CMOS_REG_IO.
Definition read_bcd (index : Z) : M (hw P) Z := x ← cmos_read index; mret (bcd_to_bin x).
Definition read_turn (_ : unit) : M (hw P) (unit + reading) :=
  sec ← read_bcd RTC_REG_SEC; min ← read_bcd RTC_REG_MIN; hour ← read_bcd RTC_REG_HOUR;
  mday ← read_bcd RTC_REG_MDAY; mon ← read_bcd RTC_REG_MON; year ← read_bcd RTC_REG_YEAR;
  again ← read_bcd RTC_REG_SEC;
  mret (if sec =? again then inr (Reading sec min hour mday mon year) else inl tt).
Definition rtc_get_time (fuel : nat) : M (hw P) Z := r ← mloop fuel read_turn tt; lift (break_down r).
End rtc.

(** ** What the chip does *)
Definition reg_of (r : reading) (index : Z) : Z :=
  if index =? RTC_REG_SEC then sec r else if index =? RTC_REG_MIN then min r else if index =? RTC_REG_HOUR then hour r
  else if index =? RTC_REG_MDAY then mday r else if index =? RTC_REG_MON then mon r else year r.
(** [cm_time] is the time from the end of the update that is under way on.  Nothing is said
    of what is read before; the next update is a second away, and no part of a call. *)
Class clock_chip (P : Type) `{ports P} := {
  cm_time : P -> reading;              (* in binary *)
  cm_sel : P -> Z;                     (* the register selected *)
  cm_left : P -> nat;                  (* accesses before the update is over, 0: none under way *)
  cm_access (p p' : P) : Prop := cm_time p' = cm_time p /\ cm_left p' = pred (cm_left p);
  cm_select : forall i p, let p' := port_out CMOS_REG_SET i p in cm_access p p' /\ cm_sel p' = i;
  cm_read : forall p, let '(v, p') := port_in CMOS_REG_IO p in
    cm_access p p' /\ (cm_left p = 0%nat -> bcd_to_bin v = reg_of (cm_time p) (cm_sel p));
}.

Section chip.
Context {P : Type} `{clock_chip P}.
Implicit Types (k : kst) (p : P).
(** What reading a register now would give. *)
Definition now_in (i : Z) (p : P) : Z := bcd_to_bin (port_in CMOS_REG_IO (port_out CMOS_REG_SET i p)).1.
Lemma now_in_time i p : (cm_left p <= 1)%nat -> now_in i p = reg_of (cm_time p) i.
Proof.
  intros Hl. unfold now_in. destruct (cm_select i p) as [[T1 L1] S1]. set (p1 := port_out CMOS_REG_SET i p) in *.
  pose proof (cm_read p1) as R. destruct (port_in CMOS_REG_IO p1) as [v p2]. destruct R as [_ R]. simpl. rewrite R, T1, S1; [done|lia].
Qed.
(** A register is read, whether an update is under way or not. *)
Lemma read_bcd_spec i k p (Q : Z -> hw P -> Prop) : u8 i = i ->
  (forall p', cm_time p' = cm_time p -> cm_left p' = (cm_left p - 2)%nat -> Q (now_in i p) (Hw k p')) ->
  mwp (read_bcd i) (Hw k p) Q.
Proof.
  intros Hi HQ. unfold read_bcd, cmos_read. wp_step. wp_step. unfold outb. wp_step. simpl. rewrite Hi. unfold now_in in HQ.
  destruct (cm_select i p) as [[T1 L1] _]. set (p1 := port_out CMOS_REG_SET i p) in *.
  pose proof (cm_read p1) as R. unfold mwp, inb. simpl. fold p1. destruct (port_in CMOS_REG_IO p1) as [v p2].
  destruct R as [[T2 L2] _]. apply mwp_ret. apply HQ; [congruence|lia].
Qed.
Ltac reads := repeat (wp_step; apply read_bcd_spec; [reflexivity|];
  let p := fresh "p" in let T := fresh "T" in let L := fresh "L" in intros p T L; cbv beta); wp_step; simpl.
Lemma regs_of t : Reading (reg_of t RTC_REG_SEC) (reg_of t RTC_REG_MIN) (reg_of t RTC_REG_HOUR)
  (reg_of t RTC_REG_MDAY) (reg_of t RTC_REG_MON) (reg_of t RTC_REG_YEAR) = t.
Proof. by destruct t. Qed.
(** With no update under way from its first read on, one turn is enough. *)
Lemma turn_still k p : (cm_left p <= 1)%nat -> mwp (read_turn tt) (Hw k p) (fun x s' => x = inr (cm_time p) /\ hk s' = k).
Proof.
  intros Hl. unfold read_turn. reads. rewrite !now_in_time by lia.
  repeat match goal with T : cm_time ?x = _ |- context [cm_time ?x] => rewrite T end.
  by rewrite Z.eqb_refl, regs_of.
Qed.
(** A turn that starts in the middle of an update is repeated if the update is over when
    the seconds are read again and they are not what they were. *)
Lemma turn_again k p : (cm_left p <= 13)%nat -> now_in RTC_REG_SEC p <> sec (cm_time p) ->
  mwp (read_turn tt) (Hw k p) (fun x s' => x = inl tt /\ cm_time (hp s') = cm_time p /\ cm_left (hp s') = 0%nat /\ hk s' = k).
Proof.
  intros Hl Hs. unfold read_turn. reads. rewrite (now_in_time RTC_REG_SEC p5) by lia.
  assert (E : cm_time p5 = cm_time p) by congruence. rewrite E.
  rewrite (proj2 (Z.eqb_neq _ _)) by exact Hs. split_and!; [done|congruence|lia|done].
Qed.
(** The reads of a call are those of one time. *)
Definition readable (p : P) : Prop := (cm_left p <= 1)%nat \/ (cm_left p <= 13)%nat /\ now_in RTC_REG_SEC p <> sec (cm_time p).
Lemma rtc_loop_spec k p : readable p -> mwp (mloop 2 read_turn tt) (Hw k p) (fun r s' => r = cm_time p /\ hk s' = k).
Proof.
  intros [Hl|[Hl Hs]]; apply mloop_step.
  - eapply mwp_mono; [by apply turn_still|]. by intros x s1 [-> Hk].
  - eapply mwp_mono; [by apply turn_again|]. intros x s1 (-> & Ht & Hl1 & Hk).
    destruct s1 as [k1 p1]; simpl in *; subst k1. apply mloop_step. eapply mwp_mono; [apply turn_still; lia|].
    intros x s2 [-> Hk2]. by rewrite Ht.
Qed.
End chip.

(** ** The seconds *)
(** The days from 1 January 1970 to a date up to 2099. *)
Definition month_length (y m : Z) : Z := if (m =? 2) && ((y + 2) mod 4 =? 0) then 29 else default 0 (znth days_per_month (m - 1)).
Definition days_before (y m : Z) : Z := 365 * y + (y + 1) / 4 + foldr Z.add 0 (map (month_length y) (seqZ 1 (m - 1))).
Definition since_1970 (year : Z) : Z := if year <? 70 then year + 30 else year - 70.
Definition epoch (r : reading) : Z :=
  (days_before (since_1970 (year r)) (mon r) + mday r - 1) * 86400 + hour r * 3600 + min r * 60 + sec r.
Record date_ok (r : reading) : Prop := DateOk {
  ok_year : 0 <= year r < 38 \/ 70 <= year r < 100; ok_mon : 1 <= mon r <= 12; ok_mday : 1 <= mday r <= 31;
  ok_hour : 0 <= hour r < 24; ok_min : 0 <= min r < 60; ok_sec : 0 <= sec r < 60 }.
(** The leap days that the code counts by a month less those there were: it takes 1970, 1974
    and so on for the leap years. *)
Definition leap_error (y m : Z) : Z :=
  (if y =? 0 then 0 else (y - 1) / 4) - (y + 1) / 4 +
  (if 2 <? m then (if y mod 4 =? 0 then 1 else 0) - (if y mod 4 =? 2 then 1 else 0) else 0).
(** The current month is counted as past. *)
Definition days_ahead (r : reading) : Z :=
  default 0 (znth days_per_month (mon r - 1)) + leap_error (since_1970 (year r)) (mon r).
Definition month_ahead (year m : Z) : bool :=
  let y := since_1970 year in
  match years_and_months year m with
  | Ok t => (t =? (days_before y m + default 0 (znth days_per_month (m - 1)) + leap_error y m) * 86400) && (t <? 2 ^ 31 + 2 ^ 26) && (0 <=? days_before y m) &&
      (27 <=? default 0 (znth days_per_month (m - 1)) + leap_error y m) && (default 0 (znth days_per_month (m - 1)) + leap_error y m <=? 32)
  | _ => false
  end.
Lemma all_months_ahead y m : 0 <= y < 38 \/ 70 <= y < 100 -> 1 <= m <= 12 -> month_ahead y m = true.
Proof.
  intros Hy Hm. assert (E : forallb (fun y => forallb (month_ahead y) (seqZ 1 12)) (seqZ 0 38 ++ seqZ 70 30) = true) by (vm_compute; reflexivity).
  rewrite forallb_forall in E. specialize (E y). rewrite <- list_elem_of_In, elem_of_app, !elem_of_seqZ in E. specialize (E ltac:(lia)).
  rewrite forallb_forall in E. apply E. rewrite <- list_elem_of_In, elem_of_seqZ. lia.
Qed.
Lemma break_down_ahead r : date_ok r -> break_down r = Ok (epoch r + days_ahead r * 86400) /\ 27 <= days_ahead r <= 32.
Proof.
  intros [Hy Hm Hd Hh Hn Hs]. pose proof (all_months_ahead _ _ Hy Hm) as E. unfold month_ahead in E. unfold break_down.
  destruct (years_and_months (year r) (mon r)) as [t| | |]; [|done..].
  apply andb_prop in E as [[[[E1%Z.eqb_eq E2%Z.ltb_lt]%andb_prop E3%Z.leb_le]%andb_prop E4%Z.leb_le]%andb_prop E5%Z.leb_le].
  split; [|unfold days_ahead; lia]. unfold epoch, days_ahead. simpl in E2 |- *. f_equal.
  repeat match goal with |- context [u32 ?x] => lazymatch x with context [u32 _] => fail | _ => rewrite (u32_small x) by (unfold is_u32; lia) end end. lia.
Qed.


(** ** A clock at midnight, to try the theorem on *)
(** Until the update is over the registers show the old time, but those in [carried] the new. *)
Record midnight := Midnight { carried : list Z; selected : Z; left_over : nat }.
Definition old_time : reading := Reading 59 59 23 31 1 99.
Definition new_time : reading := Reading 0 0 0 1 2 99.
Definition shown (p : midnight) : reading :=
  if (left_over p =? 0)%nat || bool_decide (selected p ∈ carried p) then new_time else old_time.
Definition bin_to_bcd (x : Z) : Z := x / 10 * 16 + x mod 10.
#[export] Instance midnight_ports : ports midnight := {|
  port_in q p := (bin_to_bcd (reg_of (shown p) (selected p)), Midnight (carried p) (selected p) (pred (left_over p)));
  port_out q v p := Midnight (carried p) v (pred (left_over p));
  port_out_word q v p := p;
|}.
#[export, refine] Instance midnight_chip : clock_chip midnight := {|
  cm_time _ := new_time; cm_sel := selected; cm_left := left_over |}.
Proof.
  - by intros i p.
  - intros p. simpl. split; [done|]. unfold shown. intros ->. simpl. unfold reg_of. repeat case_match; done.
Defined.
(** The update is over after the third register has been read. *)
Definition ex_midnight : hw midnight := Hw ex_kst (Midnight [] 0 6).
(** The loop looks at the seconds only: when they are carried before the minutes, and the
    update is over after the minutes have been read, it ends with the old minutes and the
    new hour, 59 minutes that there never were. *)
Example midnight_is_mixed : match mloop 2 read_turn tt (Hw ex_kst (Midnight [RTC_REG_SEC] 0 4)) with Ok (r, _) => r | _ => old_time end = Reading 0 59 0 1 2 99.
Proof. vm_compute. reflexivity. Qed.
