(* ===== verification/Kbd.v ===== *)
(** * Kbd: the keyboard (devices/kbd.c)

    The interrupt handler reads a scancode, follows the shift keys and puts characters
    into the input buffer of Serial.  The controller is the class [keyboard]: a queue of
    scancodes at the data port.  The theorem types text on a US keyboard, whose keys are a
    table of their own: the keys of a text, pressed and released in turn, put that text
    into the buffer. *)
From Stdlib Require Import String Ascii.
From S2P Require Import Prelude.
From S2P Require Import Sched.
From S2P Require Import Timer.
From S2P Require Import Intq.
From S2P Require Import Stdio.
From S2P Require Import Io.
From S2P Require Import Serial.

Definition DATA_REG : Z := 0x60.
(** The state of the shift keys and of Caps Lock. *)
Record shifts := Shifts {
  left_shift : bool; right_shift : bool; left_alt : bool; right_alt : bool; left_ctrl : bool; right_ctrl : bool; caps_lock : bool }.
Record kbd (P : Type) := Kbd { dev : serial P; keys : shifts; key_cnt : Z }.
Arguments Kbd {P}.
Arguments dev {P}. Arguments keys {P}. Arguments key_cnt {P}.

(** ** Key maps *)
Record keymap := Keymap { first_scancode : Z; chars : list Z }.
Definition invariant_keymap : list keymap :=
  [Keymap 0x01 [27]; Keymap 0x0e [8]; Keymap 0x0f (9 :: lit "QWERTYUIOP"); Keymap 0x1c [13]; Keymap 0x1e (lit "ASDFGHJKL");
   Keymap 0x2c (lit "ZXCVBNM"); Keymap 0x37 (lit "*"); Keymap 0x39 (lit " "); Keymap 0x53 [127]].
Definition unshifted_keymap : list keymap :=
  [Keymap 0x02 (lit "1234567890-="); Keymap 0x1a (lit "[]"); Keymap 0x27 (lit ";'`"); Keymap 0x2b (lit "\"); Keymap 0x33 (lit ",./")].
Definition shifted_keymap : list keymap :=
  [Keymap 0x02 (lit "!@#$%^&*()_+"); Keymap 0x1a (lit "{}"); Keymap 0x27 [58; 34; 126]; Keymap 0x2b (lit "|"); Keymap 0x33 (lit "<>?")].
(** The end of a list is its null entry. *)
Fixpoint map_key (k : list keymap) (scancode : Z) : option Z :=
  match k with
  | [] => None
  | m :: k' =>
      if (first_scancode m <=? scancode) && (scancode <? first_scancode m + zlen (chars m))
      then znth (chars m) (scancode - first_scancode m) else map_key k' scancode
  end.
Definition isupper (c : Z) : bool := (chr "A" <=? c) && (c <=? chr "Z").
Definition tolower (c : Z) : Z := if isupper c then c - chr "A" + chr "a" else c.

(** [struct shift_key]: which variable a scancode sets. *)
Definition set_shift (code : Z) (v : bool) (k : shifts) : shifts :=
  let '(Shifts ls rs la ra lc rc cl) := k in
  if code =? 0x2a then Shifts v rs la ra lc rc cl
  else if code =? 0x36 then Shifts ls v la ra lc rc cl
  else if code =? 0x38 then Shifts ls rs v ra lc rc cl
  else if code =? 0xe038 then Shifts ls rs la v lc rc cl
  else if code =? 0x1d then Shifts ls rs la ra v rc cl
  else if code =? 0xe01d then Shifts ls rs la ra lc v cl
  else k.
Definition set_caps (v : bool) (k : shifts) : shifts :=
  Shifts (left_shift k) (right_shift k) (left_alt k) (right_alt k) (left_ctrl k) (right_ctrl k) v.
Definition shift (k : shifts) : bool := left_shift k || right_shift k.
Definition alt (k : shifts) : bool := left_alt k || right_alt k.
Definition ctrl (k : shifts) : bool := left_ctrl k || right_ctrl k.
(** The three [map_key] of the condition, in order. *)
Definition key_char (k : shifts) (code : Z) : option Z :=
  match map_key invariant_keymap code with
  | Some c => Some c
  | None => if negb (shift k) then map_key unshifted_keymap code else map_key shifted_keymap code
  end.
(** Ctrl, Shift and Alt applied to the character of the key. *)
Definition shifted_char (k : shifts) (c : Z) : Z :=
  let c := if ctrl k && (0x40 <=? c) && (c <? 0x60) then u8 (c - 0x40)
           else if Bool.eqb (shift k) (caps_lock k) then u8 (tolower c) else c in
  if alt k then u8 (c + 0x80) else c.

Section kbd.
Context {P : Type} `{ports P} (in_lock : Z).
Abbreviation KM := (M (kbd P)).
Definition k_dev {A} (m : M (serial P) A) : KM A := fun s =>
  match m (dev s) with Ok (a, d) => Ok (a, Kbd d (keys s) (key_cnt s)) | Panic => Panic | Fault => Fault | Hang => Hang end.
Definition set_keys (f : shifts -> shifts) : KM unit := modify (fun s => Kbd (dev s) (f (keys s)) (key_cnt s)).
(** [shutdown_reboot] pulses the reset line in a loop without end. *)
Definition shutdown_reboot : KM unit := hang.

Definition press (k : shifts) (c : Z) : KM unit :=
  _ ← (if (c =? 127) && ctrl k && alt k then shutdown_reboot else mret tt);
  f ← k_dev input_full;
  if negb f then
    _ ← modify (fun s => Kbd (dev s) (keys s) (s64 (key_cnt s + 1)));
    k_dev (input_putc in_lock (shifted_char k c))
  else mret tt.
(** "Interpret key": [release] and [code] are the two parts of the scancode. *)
Definition interpret (k : shifts) (release : bool) (code : Z) : KM unit :=
  if code =? 0x3a then (if negb release then set_keys (fun k => set_caps (negb (caps_lock k)) k) else mret tt)
  else match key_char k code with
       | Some c => if negb release then press k c else mret tt
       | None => set_keys (set_shift code (negb release))
       end.
Definition keyboard_interrupt : KM unit :=
  k ← gets keys;
  code ← k_dev (d_hw (inb DATA_REG));
  code ← (if code =? 0xe0 then b ← k_dev (d_hw (inb DATA_REG)); mret (Z.lor (Z.shiftl code 8) b) else mret code);
  interpret k (negb (Z.land code 0x80 =? 0)) (Z.land code (2 ^ 32 - 1 - 0x80)).
Fixpoint keyboard_interrupts (n : nat) : KM unit :=
  match n with O => mret tt | S n' => _ ← keyboard_interrupt; keyboard_interrupts n' end.
End kbd.

(** ** The keys for a text *)
Class keyboard (P : Type) `{ports P} := {
  scancodes : P -> list Z;
  kbd_next : forall p c cs, scancodes p = c :: cs -> exists p', port_in DATA_REG p = (c, p') /\ scancodes p' = cs;
  kbd_out : forall q v p, scancodes (port_out q v p) = scancodes p;
}.
Definition no_shift : shifts := Shifts false false false false false false false.
Definition shift_down : shifts := Shifts true false false false false false false.
(** The keys of a US keyboard with a character of their own: the scancode a key sends
    (set 1), what it types, and what it types with Shift. *)
Record us_key := Key { k_scan : Z; k_plain : Z; k_shifted : Z }.
Definition us_keyboard : list us_key :=
  [Key 0x02 (chr "1") (chr "!"); Key 0x03 (chr "2") (chr "@"); Key 0x04 (chr "3") (chr "#"); Key 0x05 (chr "4") (chr "$");
   Key 0x06 (chr "5") (chr "%"); Key 0x07 (chr "6") (chr "^"); Key 0x08 (chr "7") (chr "&"); Key 0x09 (chr "8") (chr "*");
   Key 0x0a (chr "9") (chr "("); Key 0x0b (chr "0") (chr ")"); Key 0x0c (chr "-") (chr "_"); Key 0x0d (chr "=") (chr "+");
   Key 0x10 (chr "q") (chr "Q"); Key 0x11 (chr "w") (chr "W"); Key 0x12 (chr "e") (chr "E"); Key 0x13 (chr "r") (chr "R");
   Key 0x14 (chr "t") (chr "T"); Key 0x15 (chr "y") (chr "Y"); Key 0x16 (chr "u") (chr "U"); Key 0x17 (chr "i") (chr "I");
   Key 0x18 (chr "o") (chr "O"); Key 0x19 (chr "p") (chr "P"); Key 0x1a (chr "[") (chr "{"); Key 0x1b (chr "]") (chr "}");
   Key 0x1e (chr "a") (chr "A"); Key 0x1f (chr "s") (chr "S"); Key 0x20 (chr "d") (chr "D"); Key 0x21 (chr "f") (chr "F");
   Key 0x22 (chr "g") (chr "G"); Key 0x23 (chr "h") (chr "H"); Key 0x24 (chr "j") (chr "J"); Key 0x25 (chr "k") (chr "K");
   Key 0x26 (chr "l") (chr "L"); Key 0x27 (chr ";") (chr ":"); Key 0x28 (chr "'") (34); Key 0x29 (chr "`") (chr "~");
   Key 0x2b (chr "\") (chr "|"); Key 0x2c (chr "z") (chr "Z"); Key 0x2d (chr "x") (chr "X"); Key 0x2e (chr "c") (chr "C");
   Key 0x2f (chr "v") (chr "V"); Key 0x30 (chr "b") (chr "B"); Key 0x31 (chr "n") (chr "N"); Key 0x32 (chr "m") (chr "M");
   Key 0x33 (chr ",") (chr "<"); Key 0x34 (chr ".") (chr ">"); Key 0x35 (chr "/") (chr "?"); Key 0x39 (chr " ") (chr " ")].
(** The key for the character [c], and whether Shift must be down. *)
Definition key_of (c : Z) : option (bool * Z) :=
  match List.find (fun k => k_plain k =? c) us_keyboard with
  | Some k => Some (false, k_scan k)
  | None => match List.find (fun k => k_shifted k =? c) us_keyboard with Some k => Some (true, k_scan k) | None => None end
  end.
Definition keys_for (c : Z) : list Z :=
  match key_of c with
  | Some (false, code) => [code; code + 0x80]
  | Some (true, code) => [0x2a; code; code + 0x80; 0xaa]
  | None => []
  end.
Definition keys_for_text (text : list Z) : list Z := flat_map keys_for text.
Definition printable (c : Z) : Prop := 32 <= c <= 126.
(** The model takes the key [code] for the character [c]. *)
Definition types (c : Z) (sh : bool) (code : Z) : bool :=
  match key_char (if sh then shift_down else no_shift) code with
  | Some x => shifted_char (if sh then shift_down else no_shift) x =? c
  | None => false
  end.
Definition key_ok (c : Z) : bool :=
  match key_of c with
  | Some (sh, code) => (0 <? code) && (code <? 0x54) && negb (code =? 0x3a) && types c sh code &&
      negb (match key_char (if sh then shift_down else no_shift) code with Some x => x =? 127 | None => true end)
  | None => false
  end.
Lemma printable_keys c : printable c -> key_ok c = true.
Proof.
  intros Hc. assert (E : forallb key_ok (seqZ 32 95) = true) by (vm_compute; reflexivity).
  rewrite forallb_forall in E. apply E. apply list_elem_of_In, elem_of_seqZ. unfold printable in Hc. lia.
Qed.

Section typing.
Context {P : Type} `{uart P, !keyboard P} (in_lock : Z).
Implicit Types (s : kbd P).

Lemma k_dev_spec {A} (m : M (serial P) A) s (Q : A -> kbd P -> Prop) : mwp m (dev s) (fun a d => Q a (Kbd d (keys s) (key_cnt s))) -> mwp (k_dev m) s Q.
Proof. unfold mwp, k_dev. by destruct (m (dev s)) as [[a d]| | |]. Qed.
(** The keyboard has the scancodes [cs] to deliver, the buffer holds [b]. *)
Record typed (o l cs b : list Z) (k : shifts) (s : kbd P) : Prop := Typed {
  ty_line : line o l (dev s); ty_codes : scancodes (hp (dh (dev s))) = cs; ty_buf : holds (buffer (dev s)) b; ty_keys : keys s = k }.

Lemma read_spec o l c cs b k s (Q : Z -> kbd P -> Prop) : typed o l (c :: cs) b k s ->
  (forall s', typed o l cs b k s' -> Q c s') -> mwp (k_dev (d_hw (inb DATA_REG))) s Q.
Proof.
  intros [Hl Hc Hb Hk] HQ. destruct (kbd_next _ _ _ Hc) as (p & Ep & Hp).
  pose proof (line_in _ _ DATA_REG _ ltac:(done) Hl) as Hl1.
  apply k_dev_spec, d_in_spec. rewrite Ep in *. by apply HQ.
Qed.
(** A scancode below 0xe0 is a key and the release bit. *)
Lemma interrupt_spec o l c cs b k s (Q : unit -> kbd P -> Prop) : typed o l (c :: cs) b k s -> c <> 0xe0 ->
  (forall s', typed o l cs b k s' -> mwp (interpret in_lock k (negb (Z.land c 0x80 =? 0)) (Z.land c (2 ^ 32 - 1 - 0x80))) s' Q) ->
  mwp (keyboard_interrupt in_lock) s Q.
Proof.
  intros Ht Hc HQ. unfold keyboard_interrupt. wp_step. wp_step. rewrite (ty_keys _ _ _ _ _ _ Ht).
  wp_step. eapply read_spec; [exact Ht|]. intros s1 Ht1. rewrite (proj2 (Z.eqb_neq _ _) Hc). wp_step. apply mwp_ret. by apply HQ.
Qed.
Lemma typed_keys o l cs b k f s : typed o l cs b k s -> typed o l cs b (f k) (Kbd (dev s) (f (keys s)) (key_cnt s)).
Proof. intros [Hl Hc Hb Hk]. split; simpl; [done..|by rewrite Hk]. Qed.
Lemma press_spec o l cs b k x s (Q : unit -> kbd P -> Prop) : typed o l cs b k s -> x <> 127 -> zlen b < INTQ_BUFSIZE - 1 ->
  (forall s', typed o l cs (b ++ [shifted_char k x]) k s' -> Q tt s') -> mwp (press in_lock k x) s Q.
Proof.
  intros [Hl Hc Hb Hk] Hx Hr HQ. unfold press. rewrite (proj2 (Z.eqb_neq _ _) Hx). wp_step. apply mwp_ret. wp_step.
  apply k_dev_spec. unfold input_full. wp_step. apply level_off_spec; [apply Hl|]. eapply buf_full_spec; [apply Hl|done|].
  rewrite (proj2 (Z.eqb_neq _ _)) by lia. cbn [negb]. wp_step. apply mwp_modify. apply k_dev_spec. cbn [dev keys key_cnt].
  eapply input_putc_spec; [exact Hl|exact Hb|done|]. intros d Hl1 Hb1 _ Hi. apply HQ. split; try done. simpl.
  destruct Hi as [-> | [v ->]]; [done|]. by rewrite kbd_out.
Qed.

(** *** Keys *)
Lemma code_bits code : 0 < code < 0x54 ->
  Z.land code 0x80 = 0 /\ Z.land code (2 ^ 32 - 1 - 0x80) = code /\
  Z.land (code + 0x80) 0x80 = 0x80 /\ Z.land (code + 0x80) (2 ^ 32 - 1 - 0x80) = code.
Proof.
  intros Hc. assert (E : forallb (fun code => (Z.land code 0x80 =? 0) && (Z.land code (2 ^ 32 - 1 - 0x80) =? code) &&
    (Z.land (code + 0x80) 0x80 =? 0x80) && (Z.land (code + 0x80) (2 ^ 32 - 1 - 0x80) =? code)) (seqZ 1 0x53) = true) by (vm_compute; reflexivity).
  rewrite forallb_forall in E. specialize (E code). rewrite <- list_elem_of_In, elem_of_seqZ in E. specialize (E ltac:(lia)).
  apply andb_prop in E as [E E4%Z.eqb_eq]. apply andb_prop in E as [E E3%Z.eqb_eq]. apply andb_prop in E as [E1%Z.eqb_eq E2%Z.eqb_eq]. done.
Qed.
(** Pressing and releasing a key that has the character [x]. *)
Lemma key_spec o l code cs b k x s (Q : unit -> kbd P -> Prop) : typed o l (code :: code + 0x80 :: cs) b k s -> 0 < code < 0x54 -> code <> 0x3a ->
  key_char k code = Some x -> x <> 127 -> zlen b < INTQ_BUFSIZE - 1 ->
  (forall s', typed o l cs (b ++ [shifted_char k x]) k s' -> Q tt s') ->
  mwp (_ ← keyboard_interrupt in_lock; keyboard_interrupt in_lock) s Q.
Proof.
  intros Ht Hc Hn Hk Hx Hr HQ. destruct (code_bits code Hc) as (E1 & E2 & E3 & E4).
  wp_step. eapply interrupt_spec; [exact Ht|lia|]. intros s1 Ht1. rewrite E1, E2. unfold interpret.
  rewrite (proj2 (Z.eqb_neq _ _) Hn), Hk. eapply press_spec; [exact Ht1|done|done|]. intros s2 Ht2.
  eapply interrupt_spec; [exact Ht2|lia|]. intros s3 Ht3. rewrite E3, E4. unfold interpret.
  rewrite (proj2 (Z.eqb_neq _ _) Hn), Hk. apply mwp_ret. by apply HQ.
Qed.
Lemma shift_spec o l c cs b k (v : bool) s (Q : unit -> kbd P -> Prop) : typed o l (c :: cs) b k s -> c = (if v then 0x2a else 0xaa) ->
  key_char k 0x2a = None -> (forall s', typed o l cs b (set_shift 0x2a v k) s' -> Q tt s') -> mwp (keyboard_interrupt in_lock) s Q.
Proof.
  intros Ht -> Hk HQ. eapply interrupt_spec; [exact Ht|by destruct v|]. intros s1 Ht1. unfold interpret.
  assert (Z.land (if v then 42 else 170) (2 ^ 32 - 1 - 0x80) = 0x2a) as -> by (by destruct v).
  assert (negb (Z.land (if v then 42 else 170) 128 =? 0) = negb v) as -> by (by destruct v).
  change (0x2a =? 0x3a) with false. cbv iota. rewrite Hk, negb_involutive.
  apply mwp_modify, HQ. by apply typed_keys.
Qed.
Lemma interrupts_app n m s (Q : unit -> kbd P -> Prop) : mwp (_ ← keyboard_interrupts in_lock n; keyboard_interrupts in_lock m) s Q ->
  mwp (keyboard_interrupts in_lock (n + m)) s Q.
Proof.
  revert s. induction n as [|n IH]; intros s Hm; simpl; [done|]. wp_step. apply mwp_bind_inv in Hm. simpl in Hm.
  apply mwp_bind_inv in Hm. eapply mwp_mono; [exact Hm|]. intros u s1 Hm1. apply IH. by apply mwp_bind.
Qed.
Lemma char_spec o l c cs b s (Q : unit -> kbd P -> Prop) : typed o l (keys_for c ++ cs) b no_shift s -> printable c -> zlen b < INTQ_BUFSIZE - 1 ->
  (forall s', typed o l cs (b ++ [c]) no_shift s' -> Q tt s') -> mwp (keyboard_interrupts in_lock (List.length (keys_for c))) s Q.
Proof.
  intros Ht Hp Hr HQ. pose proof (printable_keys c Hp) as Hk. unfold key_ok in Hk. unfold keys_for in *.
  destruct (key_of c) as [[sh code]|]; [|done].
  apply andb_prop in Hk as [Hk H127]. apply andb_prop in Hk as [Hk Hty]. apply andb_prop in Hk as [Hk Hn%negb_true_iff%Z.eqb_neq].
  apply andb_prop in Hk as [H1%Z.ltb_lt H2%Z.ltb_lt]. unfold types in Hty.
  destruct (key_char _ code) as [x|] eqn:Ex; [|done]. apply Z.eqb_eq in Hty. apply negb_true_iff, Z.eqb_neq in H127.
  destruct sh; cbn [app List.length keyboard_interrupts] in *.
  - wp_step. eapply (shift_spec _ _ _ _ _ _ true); [exact Ht|done|reflexivity|]. intros s1 Ht1.
    change (set_shift 42 true no_shift) with shift_down in Ht1.
    pose proof (key_spec _ _ _ _ _ _ x s1 (fun _ s' => mwp (_ ← keyboard_interrupt in_lock; mret tt) s' Q) Ht1 ltac:(lia) Hn Ex H127 Hr) as Hkey.
    assert (Hin : mwp (_ ← keyboard_interrupt in_lock; keyboard_interrupt in_lock) s1 (fun _ s' => mwp (_ ← keyboard_interrupt in_lock; mret tt) s' Q)).
    { apply Hkey. intros s2 Ht2. wp_step. eapply (shift_spec _ _ _ _ _ _ false); [exact Ht2|done|reflexivity|]. intros s3 Ht3.
      apply mwp_ret, HQ. by rewrite Hty in Ht3. }
    wp_step. apply mwp_bind_inv in Hin. eapply mwp_mono; [exact Hin|]. intros u s2 Hm. wp_step. exact Hm.
  - pose proof (key_spec _ _ _ _ _ _ x s Q Ht ltac:(lia) Hn Ex H127 Hr) as Hkey.
    wp_step. assert (Hin : mwp (_ ← keyboard_interrupt in_lock; keyboard_interrupt in_lock) s Q).
    { apply Hkey. intros s2 Ht2. apply HQ. by rewrite Hty in Ht2. }
    apply mwp_bind_inv in Hin. eapply mwp_mono; [exact Hin|]. intros u s2 Hm. wp_step. eapply mwp_mono; [exact Hm|].
    intros [] s3 Hq. by apply mwp_ret.
Qed.
End typing.

(** C38. Typing: the keys of a US keyboard for a text, with Shift where the key needs it, put
    the text into the input buffer behind what is there, and leave the shift keys up and the queue of the
    serial port alone. *)
Theorem keyboard_types_text {P} `{uart P, !keyboard P} in_lock text o l cs b (s : kbd P) :
  typed o l (keys_for_text text ++ cs) b no_shift s -> Forall printable text -> zlen b + zlen text <= INTQ_BUFSIZE - 1 ->
  mwp (keyboard_interrupts in_lock (List.length (keys_for_text text))) s (fun _ s' => typed o l cs (b ++ text) no_shift s').
Proof.
  intros Ht Hp. revert b s Ht. induction Hp as [|c text Hc _ IH]; intros b s Ht Hr; cbn [keys_for_text flat_map] in *.
  - rewrite app_nil_r. by apply mwp_ret.
  - rewrite length_app. apply interrupts_app. wp_step. unfold zlen in *. simpl List.length in Hr. rewrite <- app_assoc in Ht.
    eapply char_spec; [exact Ht|done|unfold zlen; lia|]. intros s1 Ht1. eapply mwp_mono; [apply IH; [exact Ht1|rewrite length_app; simpl; lia]|].
    intros u s2 Ht2. by rewrite <- app_assoc in Ht2.
Qed.

(** ** A keyboard beside the port of Serial *)
Record kbd_port := KbdPort { kp_codes : list Z; kp_port : slow_port }.
#[export] Instance kbd_ports : ports kbd_port := {|
  port_in q p := if q =? DATA_REG then match kp_codes p with c :: cs => (c, KbdPort cs (kp_port p)) | [] => (0, p) end
    else ((port_in q (kp_port p)).1, KbdPort (kp_codes p) (port_in q (kp_port p)).2);
  port_out q v p := KbdPort (kp_codes p) (port_out q v (kp_port p));
  port_out_word q v p := p;
|}.
#[export, refine] Instance kbd_uart : uart kbd_port := {|
  sent p := sent (kp_port p); busy p := busy (kp_port p); dlab p := dlab (kp_port p); busy_max := busy_max |}.
Proof.
  - intros p. apply uart_bound.
  - intros [cs p]. pose proof (uart_status p) as Hs. cbn [port_in kbd_ports kp_codes kp_port].
    change (LSR_REG =? DATA_REG) with false. cbv iota. destruct (port_in LSR_REG p). exact Hs.
  - intros q [cs p] Hq. cbn [port_in kbd_ports kp_codes kp_port]. destruct (q =? DATA_REG); [by destruct cs|]. exact (uart_in q p Hq).
  - intros v [cs p]. exact (uart_send v p).
  - intros v [cs p]. exact (uart_latch v p).
  - intros v [cs p]. exact (uart_line v p).
  - intros q v [cs p]. exact (uart_out q v p).
Defined.
#[export, refine] Instance kbd_keyboard : keyboard kbd_port := {| scancodes := kp_codes |}.
Proof.
  - intros [x p] c cs. simpl. intros ->. by eexists.
  - done.
Defined.
Definition ex_kbd (text : list Z) : kbd kbd_port :=
  Kbd (Serial (Hw (set_cpu (Cpu false false false 0) ex_kst) (KbdPort (keys_for_text text) (Slow [] Ready false))) ex_intq ex_intq QUEUE) no_shift 0.
Lemma keyboard_types_text_witness :
  mwp (keyboard_interrupts 88 (List.length (keys_for_text (lit "Hi!")))) (ex_kbd (lit "Hi!")) (fun _ s' => holds (buffer (dev s')) (lit "Hi!")).
Proof.
  eapply mwp_mono.
  - apply (keyboard_types_text 88 (lit "Hi!") [] [] [] []); [|unfold printable; apply (bool_decide_unpack _); vm_compute; exact I|vm_compute; congruence].
    assert (holds ex_intq []) by (constructor; done). rewrite app_nil_r. split; [split; try done; by exists []|done..].
  - intros u s' [_ _ Hb _]. exact Hb.
Defined.
