(* ===== verification/Ide.v ===== *)
(** * Ide: the driver of IDE disks (devices/ide.c)

    A channel is driven through its registers; its lock is the sequential view of Lock and
    its completion semaphore a count.  Time that the driver lets pass and the time until
    the interrupt that a thread sleeps for are operations of the hardware.  What the disks
    do is the class [ata]: registers and commands may only be written when the channel is
    not busy, the device has been selected and no command is under way; the status means
    nothing in the first 400 ns after another device has been selected; a sector that is
    read is there, and one that is written is on the disk, when the interrupt has come.
    Nothing is said of what the disks do with a driver that does not keep to this. *)
From stdpp Require Import strings.
From S2P Require Import Prelude.
From S2P Require Import Lock.
From S2P Require Import Block.
From S2P Require Import Sched.
From S2P Require Import Timer.
From S2P Require Import Io.

(** Words in and out of the data port, and time: what the hardware does in so many
    nanoseconds, and until it asks for an interrupt, if it ever does. *)
Class data_ports (P : Type) `{ports P} := {
  port_ins : Z -> nat -> P -> list Z * P;
  port_outs : Z -> list Z -> P -> P;
  pass : Z -> P -> P;
  await : Z -> P -> option P;
}.

Definition STA_BSY : Z := 0x80.
Definition STA_DRDY : Z := 0x40.
Definition STA_DRQ : Z := 0x08.
Definition CTL_SRST : Z := 0x04.
Definition DEV_MBS : Z := 0xa0.
Definition DEV_LBA : Z := 0x40.
Definition DEV_DEV : Z := 0x10.
Definition CMD_IDENTIFY_DEVICE : Z := 0xec.
Definition CMD_READ_SECTOR_RETRY : Z := 0x20.
Definition CMD_WRITE_SECTOR_RETRY : Z := 0x30.
Definition CHANNEL_CNT : Z := 2.

(** [struct ata_disk]: its channel is the one that holds it. *)
Record ata_disk := AtaDisk { d_name : string; dev_no : Z; is_ata : bool }.
Record channel := Channel {
  c_name : string; reg_base : Z; irq : Z; c_lock : lock; expecting_interrupt : bool; completion_wait : Z;
  devices : list ata_disk }.
Definition set_lock (l : lock) (c : channel) : channel :=
  Channel (c_name c) (reg_base c) (irq c) l (expecting_interrupt c) (completion_wait c) (devices c).
Definition set_expecting (b : bool) (c : channel) : channel :=
  Channel (c_name c) (reg_base c) (irq c) (c_lock c) b (completion_wait c) (devices c).
Definition set_completion (n : Z) (c : channel) : channel :=
  Channel (c_name c) (reg_base c) (irq c) (c_lock c) (expecting_interrupt c) n (devices c).
Definition set_devices (l : list ata_disk) (c : channel) : channel :=
  Channel (c_name c) (reg_base c) (irq c) (c_lock c) (expecting_interrupt c) (completion_wait c) l.
Definition reg_data (c : channel) : Z := reg_base c + 0.
Definition reg_error (c : channel) : Z := reg_base c + 1.
Definition reg_nsect (c : channel) : Z := reg_base c + 2.
Definition reg_lbal (c : channel) : Z := reg_base c + 3.
Definition reg_lbam (c : channel) : Z := reg_base c + 4.
Definition reg_lbah (c : channel) : Z := reg_base c + 5.
Definition reg_device (c : channel) : Z := reg_base c + 6.
Definition reg_status (c : channel) : Z := reg_base c + 7.
Definition reg_command (c : channel) : Z := reg_status c.
Definition reg_ctl (c : channel) : Z := reg_base c + 0x206.
Definition reg_alt_status (c : channel) : Z := reg_ctl c.

Record ide (P : Type) := Ide { eh : hw P; channels : list channel }.
Arguments Ide {P}.
Arguments eh {P}. Arguments channels {P}.

Section ide.
Context {P : Type} `{data_ports P}.
Abbreviation EM := (M (ide P)).
Definition e_hw {A} (m : M (hw P) A) : EM A := fun s =>
  match m (eh s) with Ok (a, h) => Ok (a, Ide h (channels s)) | Panic => Panic | Fault => Fault | Hang => Hang end.
Definition in_reg (port : Z) : EM Z := e_hw (inb port).
Definition out_reg (port v : Z) : EM unit := e_hw (outb port v).
(** [timer_usleep], [timer_msleep] and [timer_nsleep], in nanoseconds. *)
Definition delay (ns : Z) : EM unit :=
  l ← e_hw (h_kst intr_get_level); _ ← assert l;
  modify (fun s => Ide (Hw (hk (eh s)) (pass ns (hp (eh s)))) (channels s)).
Definition the_channel (c : nat) : EM channel := s ← get; lift (deref (channels s !! c)).
Definition upd_channel (c : nat) (f : channel -> channel) : EM unit :=
  modify (fun s => Ide (eh s) (alter f c (channels s))).
Definition the_disk (c : nat) (d : Z) : EM ata_disk := ch ← the_channel c; lift (deref (znth (devices ch) d)).
Definition set_is_ata (c : nat) (d : Z) (b : bool) : EM unit :=
  ch ← the_channel c; a ← lift (deref (znth (devices ch) d));
  l ← lift (deref (zset (devices ch) d (AtaDisk (d_name a) (dev_no a) b))); upd_channel c (set_devices l).
Definition me : EM Z := gets (fun s => running (hk (eh s))).

(** ** ATA primitives *)
Fixpoint idle_loop (n : nat) (c : nat) : EM unit :=
  match n with
  | O => mret tt
  | S n' =>
      ch ← the_channel c; v ← in_reg (reg_status ch);
      if Z.land v (Z.lor STA_BSY STA_DRQ) =? 0 then mret tt else _ ← delay 10000; idle_loop n' c
  end.
Definition wait_until_idle (c : nat) : EM unit := idle_loop 1000 c.
Fixpoint busy_loop (n : nat) (c : nat) : EM bool :=
  match n with
  | O => mret false
  | S n' =>
      ch ← the_channel c; v ← in_reg (reg_alt_status ch);
      if Z.land v STA_BSY =? 0 then
        v ← in_reg (reg_alt_status ch); mret (negb (Z.land v STA_DRQ =? 0))
      else _ ← delay 10000000; busy_loop n' c
  end.
Definition wait_while_busy (c : nat) : EM bool := busy_loop 3000 c.
Definition select_device (c : nat) (d : Z) : EM unit :=
  ch ← the_channel c;
  let dev := if d =? 1 then Z.lor DEV_MBS DEV_DEV else DEV_MBS in
  _ ← out_reg (reg_device ch) dev; _ ← in_reg (reg_alt_status ch); delay 400.
Definition select_device_wait (c : nat) (d : Z) : EM unit :=
  _ ← wait_until_idle c; _ ← select_device c d; wait_until_idle c.

Definition select_sector (c : nat) (d : Z) (sec_no : Z) : EM unit :=
  ch ← the_channel c;
  _ ← assert (sec_no <? 2 ^ 28);
  _ ← select_device_wait c d;
  _ ← out_reg (reg_nsect ch) 1;
  _ ← out_reg (reg_lbal ch) sec_no;
  _ ← out_reg (reg_lbam ch) (Z.shiftr sec_no 8);
  _ ← out_reg (reg_lbah ch) (Z.shiftr sec_no 16);
  out_reg (reg_device ch)
    (Z.lor (Z.lor (Z.lor DEV_MBS DEV_LBA) (if d =? 1 then DEV_DEV else 0)) (Z.shiftr sec_no 24)).
Definition issue_pio_command (c : nat) (command : Z) : EM unit :=
  l ← e_hw (h_kst intr_get_level); _ ← assert l;
  _ ← upd_channel c (set_expecting true);
  ch ← the_channel c; out_reg (reg_command ch) command.
Definition input_sector (c : nat) : EM (list Z) := fun s =>
  match channels s !! c with
  | Some ch => let '(x, p) := port_ins (reg_data ch) 256 (hp (eh s)) in Ok (x, Ide (Hw (hk (eh s)) p) (channels s))
  | None => Fault
  end.
Definition output_sector (c : nat) (sector : list Z) : EM unit :=
  ch ← the_channel c;
  modify (fun s => Ide (Hw (hk (eh s)) (port_outs (reg_data ch) sector (hp (eh s)))) (channels s)).

(** ** The interrupt *)
Fixpoint handler_loop (n : nat) (c : nat) (vec_no : Z) : EM unit :=
  match n with
  | O => panic
  | S n' =>
      ch ← the_channel c;
      if vec_no =? irq ch then
        if expecting_interrupt ch then
          _ ← in_reg (reg_status ch); upd_channel c (fun ch => set_completion (completion_wait ch +u 1) ch)
        else mret tt
      else handler_loop n' (S c) vec_no
  end.
Definition interrupt_handler (vec_no : Z) : EM unit := handler_loop 2 0 vec_no.
(** [sema_down (&c->completion_wait)]: a thread that sleeps is woken by the handler. *)
Definition down_completion (c : nat) : EM unit :=
  ch ← the_channel c;
  _ ← (if completion_wait ch =? 0 then
         s ← get;
         match await (irq ch) (hp (eh s)) with
         | Some p => _ ← modify (fun s => Ide (Hw (hk (eh s)) p) (channels s)); interrupt_handler (irq ch)
         | None => hang
         end
       else mret tt);
  ch ← the_channel c;
  if completion_wait ch =? 0 then hang else upd_channel c (set_completion (completion_wait ch - 1)).

(** ** Reading and writing *)
Definition acquire (c : nat) : EM unit :=
  t ← me; ch ← the_channel c; l ← lift (lock_acquire t (c_lock ch)); upd_channel c (set_lock l).
Definition release (c : nat) : EM unit :=
  t ← me; ch ← the_channel c; l ← lift (lock_release t (c_lock ch)); upd_channel c (set_lock l).
Definition ide_read (c : nat) (d : Z) (sec_no : Z) : EM (list Z) :=
  _ ← acquire c;
  _ ← select_sector c d sec_no;
  _ ← issue_pio_command c CMD_READ_SECTOR_RETRY;
  _ ← down_completion c;
  ok ← wait_while_busy c;
  if negb ok then panic
  else x ← input_sector c; _ ← release c; mret x.
Definition ide_write (c : nat) (d : Z) (sec_no : Z) (buffer : list Z) : EM unit :=
  _ ← acquire c;
  _ ← select_sector c d sec_no;
  _ ← issue_pio_command c CMD_WRITE_SECTOR_RETRY;
  ok ← wait_while_busy c;
  if negb ok then panic
  else _ ← output_sector c buffer; _ ← down_completion c; release c.

(** ** Detection *)
(** [nsect] and [lbal] hold what is written when a device is there. *)
Definition present (c : nat) (d : Z) : EM bool :=
  _ ← select_device c d; ch ← the_channel c;
  _ ← out_reg (reg_nsect ch) 0x55; _ ← out_reg (reg_lbal ch) 0xaa;
  _ ← out_reg (reg_nsect ch) 0xaa; _ ← out_reg (reg_lbal ch) 0x55;
  _ ← out_reg (reg_nsect ch) 0x55; _ ← out_reg (reg_lbal ch) 0xaa;
  n ← in_reg (reg_nsect ch);
  if n =? 0x55 then l ← in_reg (reg_lbal ch); mret (l =? 0xaa) else mret false.
Fixpoint slave_loop (n : nat) (c : nat) : EM unit :=
  match n with
  | O => mret tt
  | S n' =>
      ch ← the_channel c; a ← in_reg (reg_nsect ch);
      b ← (if a =? 1 then in_reg (reg_lbal ch) else mret 0);
      if (a =? 1) && (b =? 1) then mret tt else _ ← delay 10000000; slave_loop n' c
  end.
Definition reset_channel (c : nat) : EM unit :=
  p0 ← present c 0; p1 ← present c 1;
  ch ← the_channel c;
  _ ← out_reg (reg_ctl ch) 0; _ ← delay 10000;
  _ ← out_reg (reg_ctl ch) CTL_SRST; _ ← delay 10000;
  _ ← out_reg (reg_ctl ch) 0; _ ← delay 150000000;
  _ ← (if (p0 : bool) then _ ← select_device c 0; _ ← wait_while_busy c; mret tt else mret tt);
  if (p1 : bool) then
    _ ← select_device c 1; _ ← slave_loop 3000 c; _ ← wait_while_busy c; mret tt
  else mret tt.
Definition check_device_type (c : nat) (d : Z) : EM bool :=
  _ ← select_device c d; ch ← the_channel c;
  error ← in_reg (reg_error ch); lbam ← in_reg (reg_lbam ch); lbah ← in_reg (reg_lbah ch); status ← in_reg (reg_status ch);
  if (negb (error =? 1) && (negb (error =? 0x81) || (d =? 1))) || (Z.land status STA_DRDY =? 0) || negb (Z.land status STA_BSY =? 0)
  then _ ← set_is_ata c d false; mret (negb (error =? 0x81))
  else _ ← set_is_ata c d (((lbam =? 0) && (lbah =? 0)) || ((lbam =? 0x3c) && (lbah =? 0xc3))); mret true.

Definition isspace (c : Z) : bool :=
  (c =? 32) || (c =? 12) || (c =? 10) || (c =? 13) || (c =? 9) || (c =? 11).
(** [for (i = 0; i + 1 < size; i += 2)], [n] pairs from byte [i] on. *)
Fixpoint swap_pairs (n : nat) (string : list Z) (i : Z) : res (list Z) :=
  match n with
  | O => mret string
  | S n' =>
      tmp ← deref (znth string i); b ← deref (znth string (i + 1));
      l ← deref (zset string i b); l ← deref (zset l (i + 1) tmp); swap_pairs n' l (i + 2)
  end.
(** The last loop, from [size] down: where the terminator goes. *)
Fixpoint last_char (size : nat) (string : list Z) : res Z :=
  match size with
  | O => mret 0
  | S n => c ← deref (znth string (Z.of_nat n)); if negb (c =? 0) && negb (isspace c) then mret (Z.of_nat size) else last_char n string
  end.
Definition descramble_ata_string (string : list Z) (size : nat) : res (list Z) :=
  l ← swap_pairs (size / 2) string 0;
  e ← last_char (size - 1) l;
  deref (zset l e 0).
(** What [block_register] is told. *)
Record registration := Registration { r_name : string; r_capacity : Z; r_model : list Z; r_serial : list Z }.
Definition identify_ata_device (c : nat) (d : Z) : EM (option registration) :=
  a ← the_disk c d; _ ← assert (is_ata a);
  _ ← select_device_wait c d;
  _ ← issue_pio_command c CMD_IDENTIFY_DEVICE;
  _ ← down_completion c;
  ok ← wait_while_busy c;
  if negb ok then _ ← set_is_ata c d false; mret None
  else
    id ← input_sector c;
    capacity ← lift (deref (zslice id 120 4));
    m ← lift (deref (zslice id 20 20)); model ← lift (descramble_ata_string m 20);
    n ← lift (deref (zslice id 54 40)); serial ← lift (descramble_ata_string n 40);
    if 1024 * 1024 * 1024 / BLOCK_SECTOR_SIZE <=? le_val capacity
    then _ ← set_is_ata c d false; mret None
    else mret (Some (Registration (d_name a) (le_val capacity) model serial)).

(** [register] is [intr_register_ext] for the handler of this file, [found] the calls of
    [block_register] and [partition_scan]. *)
Context (register : Z -> string -> EM unit) (found : nat -> Z -> registration -> EM unit).
Definition disk_letter (n : nat) : string := default "" (["hda"; "hdb"; "hdc"; "hdd"] !! n).
Definition init_channel (c : nat) : EM unit :=
  let base := if (c =? 0)%nat then 0x1f0 else 0x170 in
  let irq := if (c =? 0)%nat then 14 + 0x20 else 15 + 0x20 in
  let name := if (c =? 0)%nat then "ide0" else "ide1" in
  _ ← upd_channel c (fun _ => Channel name base irq None false 0
         [AtaDisk (disk_letter (c * 2)) 0 false; AtaDisk (disk_letter (c * 2 + 1)) 1 false]);
  _ ← register irq name;
  _ ← reset_channel c;
  m ← check_device_type c 0;
  _ ← (if (m : bool) then check_device_type c 1 else mret false);
  a ← the_disk c 0;
  _ ← (if is_ata a then r ← identify_ata_device c 0; match r with Some r => found c 0 r | None => mret tt end else mret tt);
  a ← the_disk c 1;
  if is_ata a then r ← identify_ata_device c 1; match r with Some r => found c 1 r | None => mret tt end else mret tt.
Definition ide_init : EM unit := _ ← init_channel 0; init_channel 1.
End ide.

(** ** What the disks of a channel do *)
(** Without a command, just after the other device was selected, and the steps of a command. *)
Inductive phase := Idle | Selecting | Reading (d s : Z) | DataIn (d s : Z) | DataOut (d s : Z) | Writing (d s : Z) (x : list Z).
Definition is_idle (f : phase) : bool := match f with Idle => true | _ => false end.
(** The status can be read and means something.  For a command of a write it does at once:
    [wait_while_busy] reads it without the 400 ns that [select_device] waits. *)
Definition steady (f : phase) : bool := match f with Idle | DataIn _ _ | DataOut _ _ => true | _ => false end.
Class ata (P : Type) `{data_ports P} (base irq : Z) := {
  at_sector : P -> Z -> Z -> list Z;        (* what the disk [d] holds *)
  at_phase : P -> phase;
  at_reg : P -> Z -> Z;                     (* the registers that name a device and a sector *)
  at_wait : P -> nat;                       (* polls until the channel is not busy *)
  at_kept (p p' : P) : Prop := forall d s, at_sector p' d s = at_sector p d s;
  at_same (p p' : P) : Prop := at_kept p p' /\ at_phase p' = at_phase p /\ forall k, at_reg p' k = at_reg p k;
  at_bound : forall p, (at_wait p < 1000)%nat;
  at_status : forall p k, k = 7 \/ k = 0x206 -> steady (at_phase p) = true \/ at_phase p = Selecting ->
    let '(v, p') := port_in (base + k) p in
    at_same p p' /\ (steady (at_phase p) = true -> at_wait p' = pred (at_wait p) /\
    (Z.land v STA_BSY =? 0) = (at_wait p =? 0)%nat /\ (at_wait p = 0%nat -> (Z.land v STA_DRQ =? 0) = is_idle (at_phase p)));
  at_pass : forall n p, steady (at_phase p) = true -> at_same p (pass n p) /\ (at_wait (pass n p) <= at_wait p)%nat;
  at_selected : forall n p, at_phase p = Selecting -> 400 <= n ->
    at_kept p (pass n p) /\ at_phase (pass n p) = Idle /\ forall k, at_reg (pass n p) k = at_reg p k;
  at_out : forall k v p, 2 <= k <= 6 -> at_phase p = Idle -> at_wait p = 0%nat ->
    let p' := port_out (base + k) v p in
    at_kept p p' /\ (forall j, at_reg p' j = if decide (j = k) then v else at_reg p j) /\
    if decide (k = 6 /\ Z.testbit v 4 <> Z.testbit (at_reg p 6) 4) then at_phase p' = Selecting else at_phase p' = Idle /\ at_wait p' = 0%nat;
  at_command : forall c d s p, at_phase p = Idle -> at_wait p = 0%nat -> d = 0 \/ d = 1 -> 0 <= s < 2 ^ 28 ->
    c = CMD_READ_SECTOR_RETRY \/ c = CMD_WRITE_SECTOR_RETRY ->
    at_reg p 2 = 1 -> at_reg p 3 = s mod 256 -> at_reg p 4 = s / 2 ^ 8 mod 256 -> at_reg p 5 = s / 2 ^ 16 mod 256 ->
    at_reg p 6 = 0xe0 + 16 * d + s / 2 ^ 24 ->
    let p' := port_out (base + 7) c p in
    at_kept p p' /\ at_phase p' = if c =? CMD_READ_SECTOR_RETRY then Reading d s else DataOut d s;
  at_read : forall d s p, at_phase p = Reading d s ->
    exists p', await irq p = Some p' /\ at_kept p p' /\ at_phase p' = DataIn d s;
  at_ins : forall d s p, at_phase p = DataIn d s -> at_wait p = 0%nat ->
    let '(x, p') := port_ins base 256 p in x = at_sector p d s /\ at_phase p' = Idle /\ at_kept p p';
  at_outs : forall d s x p, at_phase p = DataOut d s -> at_wait p = 0%nat ->
    let p' := port_outs base x p in at_phase p' = Writing d s x /\
    forall d' s', ~ (d' = d /\ s' = s) -> at_sector p' d' s' = at_sector p d' s';
  at_written : forall d s x p, at_phase p = Writing d s x ->
    exists p', await irq p = Some p' /\ at_phase p' = Idle /\
    forall d' s', at_sector p' d' s' = if decide (d' = d /\ s' = s) then x else at_sector p d' s';
}.

(** ** The driver reads and writes the sectors of the disks *)
Section driver.
Context {P : Type} (base irqn : Z) `{ata P base irqn}.
Context (c : nat).
Implicit Types (k : kst) (p : P) (cs : list channel) (ch : channel).
Abbreviation at_ k p cs := (Ide (Hw k p) cs).
Abbreviation kept := (@at_kept P _ _ base irqn _).

Lemma same_refl p : at_same p p.
Proof. done. Qed.
Lemma same_trans p1 p2 p3 : at_same p1 p2 -> at_same p2 p3 -> at_same p1 p3.
Proof. intros (A1 & B1 & C1) (A2 & B2 & C2). split_and!; intros; congruence. Qed.
Lemma the_channel_spec i k p cs ch (Q : channel -> ide P -> Prop) : cs !! i = Some ch -> Q ch (at_ k p cs) -> mwp (the_channel i) (at_ k p cs) Q.
Proof. intros Hc HQ. unfold the_channel. wp_step. wp_step. wp_step. simpl. by rewrite Hc. Qed.
Lemma reg_in_spec q k p cs (Q : Z -> ide P -> Prop) : Q (port_in q p).1 (at_ k (port_in q p).2 cs) -> mwp (in_reg q) (at_ k p cs) Q.
Proof. intros HQ. unfold in_reg, mwp, e_hw, inb. simpl. by destruct (port_in q p). Qed.
Lemma reg_out_spec q v k p cs (Q : unit -> ide P -> Prop) : Q tt (at_ k (port_out q (u8 v) p) cs) -> mwp (out_reg q v) (at_ k p cs) Q.
Proof. done. Qed.
Lemma status_spec r k p cs (Q : Z -> ide P -> Prop) : r = 7 \/ r = 0x206 -> steady (at_phase p) = true ->
  (forall v p', at_same p p' -> at_wait p' = pred (at_wait p) -> (Z.land v STA_BSY =? 0) = (at_wait p =? 0)%nat ->
     (at_wait p = 0%nat -> (Z.land v STA_DRQ =? 0) = is_idle (at_phase p)) -> Q v (at_ k p' cs)) ->
  mwp (in_reg (base + r)) (at_ k p cs) Q.
Proof.
  intros Hr Hp HQ. apply reg_in_spec. pose proof (at_status p r Hr (or_introl Hp)) as Hs. destruct (port_in (base + r) p) as [v p']. simpl.
  destruct Hs as (S1 & S2). destruct (S2 Hp) as (S3 & S4 & S5). by apply HQ.
Qed.
Lemma level_spec {A} (m : bool -> M (ide P) A) k p cs (Q : A -> ide P -> Prop) : intr_on (the_cpu k) = true -> mwp (m true) (at_ k p cs) Q ->
  mwp (l ← e_hw (h_kst intr_get_level); m l) (at_ k p cs) Q.
Proof.
  intros Hl HQ. assert (He : e_hw (h_kst intr_get_level) (at_ k p cs) = Ok (true, at_ k p cs)).
  { unfold e_hw, h_kst, intr_get_level, gets. simpl. by rewrite Hl. }
  wp_step. unfold mwp at 1. by rewrite He.
Qed.
Lemma delay_spec ns k p cs (Q : unit -> ide P -> Prop) : intr_on (the_cpu k) = true -> Q tt (at_ k (pass ns p) cs) -> mwp (delay ns) (at_ k p cs) Q.
Proof. intros Hl HQ. unfold delay. apply level_spec; [done|]. wp_step. wp_step; [done|]. exact HQ. Qed.
(** Both bits of the mask are clear exactly when each is. *)
Lemma land_both v : (Z.land v (Z.lor STA_BSY STA_DRQ) =? 0) = (Z.land v STA_BSY =? 0) && (Z.land v STA_DRQ =? 0).
Proof.
  rewrite Z.land_lor_distr_r. apply eq_true_iff_eq. rewrite andb_true_iff, !Z.eqb_eq. split.
  - intros E. split; apply Z.bits_inj'; intros n Hn; apply (f_equal (fun z => Z.testbit z n)) in E;
      rewrite Z.lor_spec, Z.bits_0 in E; apply orb_false_iff in E as [E1 E2]; by rewrite Z.bits_0.
  - intros [-> ->]. done.
Qed.
(** The loops end when the channel is not busy: they last longer than any wait. *)
Lemma idle_loop_spec n k p cs ch (Q : unit -> ide P -> Prop) : intr_on (the_cpu k) = true -> cs !! c = Some ch -> reg_base ch = base -> at_phase p = Idle ->
  (at_wait p < n)%nat -> (forall p', at_same p p' -> at_wait p' = 0%nat -> Q tt (at_ k p' cs)) -> mwp (idle_loop n c) (at_ k p cs) Q.
Proof.
  intros Hl Hc Hb. revert p. induction n as [|n IH]; intros p Hp Hn HQ; cbn [idle_loop]; [lia|].
  wp_step. eapply the_channel_spec; [done|]. wp_step. unfold reg_status. rewrite Hb. apply status_spec; [by left|by rewrite Hp|].
  intros v p1 Hs Hw Hbsy Hdrq. rewrite land_both, Hbsy. destruct (Nat.eqb_spec (at_wait p) 0) as [E|E].
  - rewrite (Hdrq E), Hp. simpl. apply mwp_ret, HQ; [done|by rewrite Hw, E].
  - simpl. wp_step. apply delay_spec; [done|]. assert (Hp1 : at_phase p1 = Idle) by (destruct Hs as (_ & -> & _); done).
    destruct (at_pass 10000 p1 ltac:(by rewrite Hp1)) as [Hs2 Hw2]. pose proof (same_trans _ _ _ Hs Hs2) as Hs3. apply IH.
    + destruct Hs3 as (_ & -> & _). done.
    + lia.
    + intros p3 Hs4. apply HQ. by eapply same_trans.
Qed.
Lemma wait_idle_spec k p cs ch (Q : unit -> ide P -> Prop) : intr_on (the_cpu k) = true -> cs !! c = Some ch -> reg_base ch = base -> at_phase p = Idle ->
  (forall p', at_same p p' -> at_wait p' = 0%nat -> Q tt (at_ k p' cs)) -> mwp (wait_until_idle c) (at_ k p cs) Q.
Proof. intros. eapply idle_loop_spec; [done..|apply at_bound|done]. Qed.
Lemma busy_loop_spec n k p cs ch (Q : bool -> ide P -> Prop) : intr_on (the_cpu k) = true -> cs !! c = Some ch -> reg_base ch = base -> steady (at_phase p) = true ->
  (at_wait p < n)%nat -> (forall p', at_same p p' -> at_wait p' = 0%nat -> Q (negb (is_idle (at_phase p))) (at_ k p' cs)) ->
  mwp (busy_loop n c) (at_ k p cs) Q.
Proof.
  intros Hl Hc Hb. revert p. induction n as [|n IH]; intros p Hp Hn HQ; [lia|]; cbn [busy_loop].
  wp_step. eapply the_channel_spec; [done|]. wp_step. unfold reg_alt_status, reg_ctl. rewrite Hb. apply status_spec; [by right|done|].
  intros v p1 Hs Hw Hbsy _. assert (Hp1 : at_phase p1 = at_phase p) by (destruct Hs as (_ & ? & _); done).
  rewrite Hbsy. destruct (Nat.eqb_spec (at_wait p) 0) as [E|E].
  - wp_step. apply status_spec; [by right|by rewrite Hp1|]. intros v2 p2 Hs2 Hw2 _ Hdrq. wp_step.
    rewrite Hdrq, Hp1 by (rewrite Hw, E; done). apply HQ; [by eapply same_trans|by rewrite Hw2, Hw, E].
  - wp_step. apply delay_spec; [done|]. destruct (at_pass 10000000 p1 ltac:(by rewrite Hp1)) as [Hs2 Hw2].
    pose proof (same_trans _ _ _ Hs Hs2) as Hs3. assert (Hp2 : at_phase (pass 10000000 p1) = at_phase p) by (destruct Hs3 as (_ & ? & _); done).
    apply IH; [by rewrite Hp2|lia|]. intros p3 Hs4 Hw4. rewrite Hp2. apply HQ; [by eapply same_trans|done].
Qed.
Lemma wait_busy_spec k p cs ch (Q : bool -> ide P -> Prop) : intr_on (the_cpu k) = true -> cs !! c = Some ch -> reg_base ch = base -> steady (at_phase p) = true ->
  (forall p', at_same p p' -> at_wait p' = 0%nat -> Q (negb (is_idle (at_phase p))) (at_ k p' cs)) ->
  mwp (wait_while_busy c) (at_ k p cs) Q.
Proof. intros. eapply busy_loop_spec; [done..|pose proof (at_bound p); lia|done]. Qed.
Definition dev_byte (d : Z) : Z := if d =? 1 then 0xb0 else 0xa0.
(** What selecting a device leaves: the status can be read, and says when it is ready. *)
Lemma select_device_spec d k p cs ch (Q : unit -> ide P -> Prop) : intr_on (the_cpu k) = true -> cs !! c = Some ch -> reg_base ch = base ->
  at_phase p = Idle -> at_wait p = 0%nat ->
  (forall p', kept p p' -> at_phase p' = Idle -> at_reg p' 6 = dev_byte d -> Q tt (at_ k p' cs)) -> mwp (select_device c d) (at_ k p cs) Q.
Proof.
  intros Hl Hc Hb Hp Hw HQ. unfold select_device. wp_step. eapply the_channel_spec; [done|]. wp_step. apply reg_out_spec.
  unfold reg_device, reg_alt_status, reg_ctl. rewrite Hb.
  assert (u8 (if d =? 1 then Z.lor DEV_MBS DEV_DEV else DEV_MBS) = dev_byte d) as -> by (unfold dev_byte; by destruct (d =? 1)).
  destruct (at_out 6 (dev_byte d) p ltac:(lia) Hp Hw) as (Hk & Hr & Hph). set (p1 := port_out (base + 6) (dev_byte d) p) in *.
  assert (Hp1 : at_phase p1 = Selecting \/ at_phase p1 = Idle) by (case_decide; tauto). clear Hph.
  wp_step. apply reg_in_spec. assert (Hst : steady (at_phase p1) = true \/ at_phase p1 = Selecting) by (destruct Hp1 as [-> | ->]; auto).
  pose proof (at_status p1 0x206 (or_intror eq_refl) Hst) as Hs. destruct (port_in (base + 0x206) p1) as [v p2]. destruct Hs as [(A & B & C) _].
  apply delay_spec; [done|]. simpl.
  assert (Hend : kept p2 (pass 400 p2) /\ at_phase (pass 400 p2) = Idle /\ forall j, at_reg (pass 400 p2) j = at_reg p2 j).
  { destruct Hp1 as [E|E]; rewrite E in B; [by apply at_selected|]. destruct (at_pass 400 p2 ltac:(by rewrite B)) as [(A2 & B2 & C2) _].
    split_and!; [done|by rewrite B2|done]. }
  destruct Hend as (A2 & B2 & C2). apply HQ; [|done|rewrite C2, C, Hr; by rewrite decide_True].
  intros d' s. by rewrite A2, A, Hk.
Qed.
Lemma select_wait_spec d k p cs ch (Q : unit -> ide P -> Prop) : intr_on (the_cpu k) = true -> cs !! c = Some ch -> reg_base ch = base -> at_phase p = Idle ->
  (forall p', kept p p' -> at_phase p' = Idle -> at_wait p' = 0%nat -> at_reg p' 6 = dev_byte d -> Q tt (at_ k p' cs)) ->
  mwp (select_device_wait c d) (at_ k p cs) Q.
Proof.
  intros Hl Hc Hb Hp HQ. unfold select_device_wait. wp_step. eapply wait_idle_spec; [done..|]. intros p1 (A1 & B1 & _) W1.
  wp_step. eapply select_device_spec; [done|done|done|by rewrite B1|done|]. intros p2 A2 B2 C2. eapply wait_idle_spec; [done..|]. intros p3 (A3 & B3 & C3) W3.
  apply HQ; [|by rewrite B3|done|by rewrite C3]. intros d' s. by rewrite A3, A2, A1.
Qed.
(** The registers that name sector [s] of disk [d]. *)
Definition named (d s : Z) (p : P) : Prop :=
  at_reg p 2 = 1 /\ at_reg p 3 = s mod 256 /\ at_reg p 4 = s / 2 ^ 8 mod 256 /\ at_reg p 5 = s / 2 ^ 16 mod 256 /\
  at_reg p 6 = 0xe0 + 16 * d + s / 2 ^ 24.
Lemma device_bits d h : d = 0 \/ d = 1 -> 0 <= h < 16 ->
  u8 (Z.lor (Z.lor (Z.lor DEV_MBS DEV_LBA) (if d =? 1 then DEV_DEV else 0)) h) = 0xe0 + 16 * d + h.
Proof.
  intros Hd Hh. assert (E : forallb (fun h => (u8 (Z.lor 0xe0 h) =? 0xe0 + h) && (u8 (Z.lor 0xf0 h) =? 0xf0 + h)) (seqZ 0 16) = true) by reflexivity.
  rewrite forallb_forall in E. specialize (E h). rewrite <- list_elem_of_In, elem_of_seqZ in E. specialize (E ltac:(lia)).
  apply andb_prop in E as [E1%Z.eqb_eq E2%Z.eqb_eq].
  destruct Hd as [-> | ->]; [exact E1|exact E2].
Qed.
Lemma device_same_bit d h : d = 0 \/ d = 1 -> 0 <= h < 16 -> Z.testbit (0xe0 + 16 * d + h) 4 = Z.testbit (dev_byte d) 4.
Proof.
  intros Hd Hh. assert (E : forallb (fun h => Bool.eqb (Z.testbit (0xe0 + h) 4) false && Bool.eqb (Z.testbit (0xf0 + h) 4) true) (seqZ 0 16) = true) by reflexivity.
  rewrite forallb_forall in E. specialize (E h). rewrite <- list_elem_of_In, elem_of_seqZ in E. specialize (E ltac:(lia)).
  apply andb_prop in E as [E1%eqb_prop E2%eqb_prop]. destruct Hd as [-> | ->]; [exact E1|exact E2].
Qed.
(** A register other than the device's is written to a channel that is not busy. *)
Lemma quiet_out_spec r v k p cs (Q : unit -> ide P -> Prop) : 2 <= r < 6 -> at_phase p = Idle -> at_wait p = 0%nat ->
  (forall p', kept p p' -> at_phase p' = Idle -> at_wait p' = 0%nat -> (forall j, at_reg p' j = if decide (j = r) then u8 v else at_reg p j) -> Q tt (at_ k p' cs)) ->
  mwp (out_reg (base + r) v) (at_ k p cs) Q.
Proof.
  intros Hr Hp Hw HQ. apply reg_out_spec. destruct (at_out r (u8 v) p ltac:(lia) Hp Hw) as (A & R & D).
  rewrite decide_False in D by (intros [? _]; lia). destruct D as [B W]. by apply HQ.
Qed.
Lemma select_sector_spec d s k p cs ch (Q : unit -> ide P -> Prop) : intr_on (the_cpu k) = true -> cs !! c = Some ch -> reg_base ch = base -> at_phase p = Idle ->
  d = 0 \/ d = 1 -> 0 <= s < 2 ^ 28 ->
  (forall p', kept p p' -> at_phase p' = Idle -> at_wait p' = 0%nat -> named d s p' -> Q tt (at_ k p' cs)) -> mwp (select_sector c d s) (at_ k p cs) Q.
Proof.
  intros Hl Hc Hb Hp Hd Hs HQ. unfold select_sector. wp_step. eapply the_channel_spec; [done|]. wp_step. wp_step; [bool_goal; lia|].
  wp_step. eapply select_wait_spec; [done..|]. intros p1 A1 B1 W1 D1.
  unfold reg_nsect, reg_lbal, reg_lbam, reg_lbah, reg_device. rewrite Hb.
  wp_step. apply quiet_out_spec; [lia|done|done|]. intros p2 A2 B2 W2 R2. wp_step. apply quiet_out_spec; [lia|done|done|]. intros p3 A3 B3 W3 R3.
  wp_step. apply quiet_out_spec; [lia|done|done|]. intros p4 A4 B4 W4 R4. wp_step. apply quiet_out_spec; [lia|done|done|]. intros p5 A5 B5 W5 R5.
  assert (Hh : 0 <= s / 2 ^ 24 < 16) by (change (2 ^ 24) with 16777216; dlia).
  apply reg_out_spec. rewrite !Z.shiftr_div_pow2 in * by lia. rewrite device_bits by done.
  destruct (at_out 6 (0xe0 + 16 * d + s / 2 ^ 24) p5 ltac:(lia) B5 W5) as (A6 & R6 & E6).
  assert (D5 : at_reg p5 6 = dev_byte d) by (rewrite R5, R4, R3, R2, <- D1; done).
  rewrite decide_False in E6 by (intros [_ N]; apply N; rewrite D5; by apply device_same_bit). destruct E6 as [B6 W6].
  apply HQ; [|done|done|].
  - intros d' s'. by rewrite A6, A5, A4, A3, A2, A1.
  - unfold named. rewrite !R6. simpl. rewrite !R5. simpl. rewrite !R4. simpl. rewrite !R3. simpl. rewrite R2. done.
Qed.

(** *** Commands *)
(** The handler finds the channel. *)
Definition found_by_irq (cs : list channel) : Prop := c = 0%nat \/ c = 1%nat /\ exists ch0, cs !! 0%nat = Some ch0 /\ irq ch0 <> irqn.
Lemma found_alter f cs : found_by_irq cs -> found_by_irq (alter f c cs).
Proof. intros [->|[-> Hc]]; [by left|right; split; [done|]]. by rewrite list_lookup_alter_ne. Qed.
Lemma upd_spec f k p cs (Q : unit -> ide P -> Prop) : Q tt (at_ k p (alter f c cs)) -> mwp (upd_channel c f) (at_ k p cs) Q.
Proof. done. Qed.
Lemma alter_lookup f cs ch : cs !! c = Some ch -> alter f c cs !! c = Some (f ch).
Proof. intros Hc. by rewrite list_lookup_alter_eq, Hc. Qed.
Lemma handler_spec k p cs ch (Q : unit -> ide P -> Prop) : cs !! c = Some ch -> reg_base ch = base -> irq ch = irqn -> expecting_interrupt ch = true ->
  found_by_irq cs -> steady (at_phase p) = true ->
  (forall p', at_same p p' -> Q tt (at_ k p' (alter (fun ch => set_completion (completion_wait ch +u 1) ch) c cs))) ->
  mwp (interrupt_handler irqn) (at_ k p cs) Q.
Proof.
  intros Hc Hb Hi He Hf Hp HQ. unfold interrupt_handler.
  assert (Hend : mwp (_ ← in_reg (reg_status ch); upd_channel c (fun ch => set_completion (completion_wait ch +u 1) ch)) (at_ k p cs) Q).
  { wp_step. unfold reg_status. rewrite Hb. apply status_spec; [by left|done|]. intros v p1 Hs _ _ _. by apply upd_spec, HQ. }
  assert (Hloop : forall n, mwp (handler_loop (S n) c irqn) (at_ k p cs) Q).
  { intros n. cbn [handler_loop]. wp_step. eapply the_channel_spec; [done|]. by rewrite Hi, Z.eqb_refl, He. }
  destruct Hf as [E|[E (ch0 & Hc0 & Hne)]]; rewrite E in Hloop; [apply (Hloop 1%nat)|].
  cbn [handler_loop]. wp_step. eapply the_channel_spec; [exact Hc0|].
  rewrite (proj2 (Z.eqb_neq irqn (irq ch0))) by congruence. apply (Hloop 0%nat).
Qed.
(** The thread sleeps until the interrupt comes. *)
Lemma down_spec k p p1 cs ch (Q : unit -> ide P -> Prop) : cs !! c = Some ch -> reg_base ch = base -> irq ch = irqn -> expecting_interrupt ch = true ->
  found_by_irq cs -> completion_wait ch = 0 -> await irqn p = Some p1 -> steady (at_phase p1) = true ->
  (forall p' cs', at_same p1 p' -> cs' !! c = Some ch -> found_by_irq cs' -> Q tt (at_ k p' cs')) ->
  mwp (down_completion c) (at_ k p cs) Q.
Proof.
  intros Hc Hb Hi He Hf Hn Hp Hst HQ. unfold down_completion. wp_step. eapply the_channel_spec; [done|]. rewrite Hn. simpl.
  wp_step. wp_step. wp_step. simpl hp. rewrite Hi, Hp. wp_step. wp_step. simpl. eapply handler_spec; [done..|]. intros p2 Hs2.
  set (cs1 := alter (fun ch => set_completion (completion_wait ch +u 1) ch) c cs).
  assert (Hc1 : cs1 !! c = Some (set_completion 1 ch)) by (unfold cs1; rewrite (alter_lookup _ _ _ Hc), Hn; done).
  wp_step. eapply the_channel_spec; [done|]. simpl. apply upd_spec. apply HQ; [done| |].
  - rewrite (alter_lookup _ _ _ Hc1). f_equal. destruct ch; simpl in *. by rewrite Hn.
  - by apply found_alter, found_alter.
Qed.

(** The channel is free and its disks can be used. *)
Record usable (s : ide P) : Prop := Usable {
  us_level : intr_on (the_cpu (hk (eh s))) = true;
  us_phase : at_phase (hp (eh s)) = Idle;
  us_found : found_by_irq (channels s);
  us_chan : exists ch, channels s !! c = Some ch /\ reg_base ch = base /\ irq ch = irqn /\ c_lock ch = None /\ completion_wait ch = 0;
}.
Lemma acquire_spec k p cs ch (Q : unit -> ide P -> Prop) : cs !! c = Some ch -> c_lock ch = None ->
  Q tt (at_ k p (alter (set_lock (Some (running k))) c cs)) -> mwp (acquire c) (at_ k p cs) Q.
Proof.
  intros Hc Hl HQ. unfold acquire, me. wp_step. wp_step. wp_step. eapply the_channel_spec; [done|]. wp_step. wp_step.
  apply wp_lock_acquire; [done|]. by apply upd_spec.
Qed.
Lemma release_spec k p cs ch (Q : unit -> ide P -> Prop) : cs !! c = Some ch -> c_lock ch = Some (running k) ->
  Q tt (at_ k p (alter (set_lock None) c cs)) -> mwp (release c) (at_ k p cs) Q.
Proof.
  intros Hc Hl HQ. unfold release, me. wp_step. wp_step. wp_step. eapply the_channel_spec; [done|]. wp_step. wp_step.
  apply wp_lock_release; [done|]. by apply upd_spec.
Qed.
Lemma issue_spec k p cs ch x (Q : unit -> ide P -> Prop) : cs !! c = Some ch -> intr_on (the_cpu k) = true ->
  Q tt (at_ k (port_out (reg_base ch + 7) (u8 x) p) (alter (set_expecting true) c cs)) -> mwp (issue_pio_command c x) (at_ k p cs) Q.
Proof.
  intros Hc Hl HQ. unfold issue_pio_command. apply level_spec; [done|]. wp_step. wp_step; [done|]. wp_step. apply upd_spec. wp_step.
  eapply the_channel_spec; [by apply alter_lookup|]. apply reg_out_spec. exact HQ.
Qed.
(** The channel while a command is under way. *)
Definition working (k : kst) (ch : channel) : channel := set_expecting true (set_lock (Some (running k)) ch).
Lemma command_spec {A} d s x (m : M (ide P) A) k p cs (Q : A -> ide P -> Prop) : usable (at_ k p cs) -> d = 0 \/ d = 1 -> 0 <= s < 2 ^ 28 ->
  x = CMD_READ_SECTOR_RETRY \/ x = CMD_WRITE_SECTOR_RETRY ->
  (forall p' cs' ch, kept p p' -> at_phase p' = (if x =? CMD_READ_SECTOR_RETRY then Reading d s else DataOut d s) ->
     cs' !! c = Some ch -> reg_base ch = base -> irq ch = irqn -> expecting_interrupt ch = true -> c_lock ch = Some (running k) -> completion_wait ch = 0 ->
     found_by_irq cs' -> mwp m (at_ k p' cs') Q) ->
  mwp (_ ← acquire c; _ ← select_sector c d s; _ ← issue_pio_command c x; m) (at_ k p cs) Q.
Proof.
  intros [Hlv Hph Hf (ch & Hc & Hb & Hi & Hl & Hn)] Hd Hs Hx HQ. simpl in *. wp_step. eapply acquire_spec; [done..|].
  wp_step. eapply select_sector_spec; [done|by apply alter_lookup|done..|]. intros p1 A1 B1 W1 (R2 & R3 & R4 & R5 & R6).
  wp_step. eapply issue_spec; [by apply alter_lookup|done|].
  destruct (at_command x d s p1 B1 W1 Hd Hs Hx R2 R3 R4 R5 R6) as [A2 B2].
  assert (u8 x = x) as -> by (by destruct Hx as [-> | ->]). simpl reg_base. rewrite Hb.
  eapply (HQ _ _ (working k ch)); simpl; try done.
  - intros d' s'. by rewrite A2, A1.
  - exact (alter_lookup _ _ _ (alter_lookup _ _ _ Hc)).
  - by apply found_alter, found_alter.
Qed.

Lemma ide_read_spec d x s (Q : list Z -> ide P -> Prop) : usable s -> d = 0 \/ d = 1 -> 0 <= x < 2 ^ 28 ->
  (forall s', usable s' -> kept (hp (eh s)) (hp (eh s')) -> hk (eh s') = hk (eh s) -> Q (at_sector (hp (eh s)) d x) s') ->
  mwp (ide_read c d x) s Q.
Proof.
  destruct s as [[k p] cs]. intros Hu Hd Hx HQ. pose proof (us_level _ Hu) as Hlv. simpl in *.
  unfold ide_read. apply command_spec; [done..|by left|]. intros p1 cs1 ch A1 B1 Hc Hb Hi He Hl Hn Hf. clear Hu. simpl in B1.
  destruct (at_read d x p1 B1) as (p1' & Hw & A1' & B1').
  wp_step. eapply down_spec; [done..|by rewrite B1'|]. intros p2 cs2 (A2 & B2 & _) Hc2 Hf2.
  wp_step. eapply wait_busy_spec; [done|done|done|by rewrite B2, B1'|]. intros p3 (A3 & B3 & _) Hw3. rewrite B2, B1'. simpl.
  pose proof (at_ins d x p3 ltac:(by rewrite B3, B2, B1') Hw3) as Hin.
  wp_step. unfold mwp at 1. unfold input_sector. simpl. rewrite Hc2. unfold reg_data. rewrite Hb, Z.add_0_r.
  destruct (port_ins base 256 p3) as [y p4]. destruct Hin as (-> & B4 & A4). fold (mwp (_ ← release c; mret (at_sector p3 d x)) (at_ k p4 cs2) Q).
  wp_step. eapply release_spec; [done|done|]. wp_step. rewrite A3, A2, A1', A1. apply HQ; [|intros d' s'; by rewrite A4, A3, A2, A1', A1|done].
  split; simpl; [done|done|by apply found_alter|]. exists (set_lock None ch). split; [by apply alter_lookup|done].
Qed.
Lemma ide_write_spec d x data s (Q : unit -> ide P -> Prop) : usable s -> d = 0 \/ d = 1 -> 0 <= x < 2 ^ 28 ->
  (forall s', usable s' -> (forall d' x', at_sector (hp (eh s')) d' x' = if decide (d' = d /\ x' = x) then data else at_sector (hp (eh s)) d' x') ->
     hk (eh s') = hk (eh s) -> Q tt s') ->
  mwp (ide_write c d x data) s Q.
Proof.
  destruct s as [[k p] cs]. intros Hu Hd Hx HQ. pose proof (us_level _ Hu) as Hlv. simpl in *.
  unfold ide_write. apply command_spec; [done..|by right|]. intros p1 cs1 ch A1 B1 Hc Hb Hi He Hl Hn Hf. clear Hu. simpl in B1.
  wp_step. eapply wait_busy_spec; [done|done|done|by rewrite B1|]. intros p3 (A3 & B3 & _) Hw3. rewrite B1. simpl.
  destruct (at_outs d x data p3 ltac:(by rewrite B3, B1) Hw3) as (B4 & A4).
  wp_step. unfold output_sector. wp_step. eapply the_channel_spec; [done|]. apply mwp_modify. simpl.
  unfold reg_data. rewrite Hb, Z.add_0_r. destruct (at_written d x data _ B4) as (p4 & Hw4 & B4' & A4').
  wp_step. eapply down_spec; [done..|by rewrite B4'|]. intros p5 cs5 (A5 & B5 & _) Hc5 Hf5.
  eapply release_spec; [done|done|]. apply HQ; [|intros d' x'; rewrite A5, A4'; simpl; case_decide; [done|by rewrite A4, A3, A1]|done].
  split; simpl; [done|by rewrite B5|by apply found_alter|]. exists (set_lock None ch). split; [by apply alter_lookup|done].
Qed.

Inductive disk_op := DiskRead (d s : Z) | DiskWrite (d s : Z) (x : list Z).
Definition disk_op_ok (o : disk_op) : Prop :=
  match o with DiskRead d s | DiskWrite d s _ => (d = 0 \/ d = 1) /\ 0 <= s < 2 ^ 28 end.
Definition do_disk_op (o : disk_op) : M (ide P) (option (list Z)) :=
  match o with
  | DiskRead d s => x ← ide_read c d s; mret (Some x)
  | DiskWrite d s x => _ ← ide_write c d s x; mret None
  end.
Fixpoint do_disk_ops (os : list disk_op) : M (ide P) (list (option (list Z))) :=
  match os with [] => mret [] | o :: os' => x ← do_disk_op o; xs ← do_disk_ops os'; mret (x :: xs) end.
(** The same on arrays of sectors. *)
Definition spec_disk_op (o : disk_op) (f : Z -> Z -> list Z) : option (list Z) * (Z -> Z -> list Z) :=
  match o with
  | DiskRead d s => (Some (f d s), f)
  | DiskWrite d s x => (None, fun d' s' => if decide (d' = d /\ s' = s) then x else f d' s')
  end.
Fixpoint spec_disk_ops (os : list disk_op) (f : Z -> Z -> list Z) : list (option (list Z)) * (Z -> Z -> list Z) :=
  match os with
  | [] => ([], f)
  | o :: os' => let '(x, f1) := spec_disk_op o f in let '(xs, f2) := spec_disk_ops os' f1 in (x :: xs, f2)
  end.
Lemma do_disk_ops_spec os : forall f s, usable s -> Forall disk_op_ok os -> (forall d x, at_sector (hp (eh s)) d x = f d x) ->
  mwp (do_disk_ops os) s (fun xs s' => xs = (spec_disk_ops os f).1 /\ usable s' /\ hk (eh s') = hk (eh s) /\
    forall d x, at_sector (hp (eh s')) d x = (spec_disk_ops os f).2 d x).
Proof.
  induction os as [|o os IH]; intros f s Hu Ho Hf; [done|]. apply list.Forall_cons in Ho as [Ho Hos]. cbn [do_disk_ops spec_disk_ops].
  assert (Hop : mwp (do_disk_op o) s (fun x s' => x = (spec_disk_op o f).1 /\ usable s' /\ hk (eh s') = hk (eh s) /\
    forall d x, at_sector (hp (eh s')) d x = (spec_disk_op o f).2 d x)).
  { destruct o as [d s0|d s0 x]; destruct Ho as [Hd Hs]; cbn [do_disk_op]; wp_step.
    - eapply ide_read_spec; [done..|]. intros s' Hu' Hk Hh. wp_step. simpl. rewrite Hf. split_and!; try done. intros d' x'. by rewrite Hk, Hf.
    - eapply ide_write_spec; [done..|]. intros s' Hu' Hk Hh. wp_step. simpl. split_and!; try done. intros d' x'. rewrite Hk. by rewrite Hf. }
  wp_step. eapply mwp_mono; [exact Hop|]. intros x s1 (-> & Hu1 & Hh1 & Hf1). wp_step.
  destruct (spec_disk_op o f) as [y f1]; simpl in *. eapply mwp_mono; [by apply (IH f1)|]. intros xs s2 (-> & Hu2 & Hh2 & Hf2). wp_step.
  destruct (spec_disk_ops os f1) as [ys f2]; simpl in *. split_and!; try done. by rewrite Hh2.
Qed.
End driver.


(** ** A channel with two disks, to try the theorem on *)
(** What is written to a busy channel is lost, and so is a sector until its interrupt has come. *)
Record toy := Toy { t_sector : Z -> Z -> list Z; t_phase : phase; t_reg : Z -> Z; t_wait : nat }.
Definition t_polls (p : toy) : nat := Nat.min (t_wait p) 2.
Definition toy_status (p : toy) : Z := (if (t_polls p =? 0)%nat then 0 else 0x80) + (if is_idle (t_phase p) then 0 else 0x08).
Definition toy_lba (r : Z -> Z) : Z := r 3 + r 4 * 2 ^ 8 + r 5 * 2 ^ 16 + r 6 mod 16 * 2 ^ 24.
Definition toy_to (f : phase) (n : nat) (p : toy) : toy := Toy (t_sector p) f (t_reg p) n.
Definition toy_command (v : Z) (p : toy) : toy :=
  let d := t_reg p 6 / 16 mod 2 in let s := toy_lba (t_reg p) in
  if v =? CMD_READ_SECTOR_RETRY then toy_to (Reading d s) 2 p
  else if v =? CMD_WRITE_SECTOR_RETRY then toy_to (DataOut d s) 2 p else p.
Definition toy_write (k v : Z) (p : toy) : toy :=
  Toy (t_sector p) (if (k =? 6) && negb (Bool.eqb (Z.testbit v 4) (Z.testbit (t_reg p 6) 4)) then Selecting else Idle)
    (fun j => if decide (j = k) then v else t_reg p j) 0.
#[export] Instance toy_ports : ports toy := {|
  port_in q p :=
    if (q =? 0x1f7) || (q =? 0x3f6) then (toy_status p, toy_to (t_phase p) (pred (t_polls p)) p) else (0, p);
  port_out q v p :=
    if is_idle (t_phase p) && (t_polls p =? 0)%nat then if q =? 0x1f7 then toy_command v p else toy_write (q - 0x1f0) v p else p;
  port_out_word q v p := p;
|}.
#[export] Instance toy_data : data_ports toy := {|
  port_ins q n p := match t_phase p with DataIn d s => (t_sector p d s, toy_to Idle 1 p) | _ => ([], p) end;
  port_outs q x p := match t_phase p with DataOut d s => toy_to (Writing d s x) 0 p | _ => p end;
  pass n p :=
    match t_phase p with
    | Selecting => if 400 <=? n then toy_to Idle 2 p else p
    | f => toy_to f (pred (t_polls p)) p
    end;
  await irq p :=
    match t_phase p with
    | Reading d s => Some (toy_to (DataIn d s) 2 p)
    | Writing d s x => Some (Toy (fun d' s' => if decide (d' = d /\ s' = s) then x else t_sector p d' s') Idle (t_reg p) 1)
    | _ => None
    end;
|}.
Lemma toy_lba_named (r : Z -> Z) d s : d = 0 \/ d = 1 -> 0 <= s < 2 ^ 28 -> r 3 = s mod 256 -> r 4 = s / 2 ^ 8 mod 256 ->
  r 5 = s / 2 ^ 16 mod 256 -> r 6 = 0xe0 + 16 * d + s / 2 ^ 24 -> toy_lba r = s /\ r 6 / 16 mod 2 = d.
Proof.
  intros Hd Hs E3 E4 E5 E6. unfold toy_lba. rewrite E3, E4, E5, E6.
  change (2 ^ 8) with 256; change (2 ^ 16) with 65536; change (2 ^ 24) with 16777216; change (2 ^ 28) with 268435456 in Hs.
  split; [dlia|]. destruct Hd as [-> | ->]; dlia.
Qed.
Lemma polls_pred f p : t_polls (toy_to f (pred (t_polls p)) p) = pred (t_polls p).
Proof. unfold t_polls, toy_to. cbn [t_wait]. lia. Qed.
Lemma toy_out q v p : t_phase p = Idle -> t_polls p = 0%nat ->
  port_out q v p = if q =? 0x1f7 then toy_command v p else toy_write (q - 0x1f0) v p.
Proof. intros Hp Hw. unfold port_out, toy_ports. by rewrite Hp, Hw. Qed.
#[export, refine] Instance toy_ata : ata toy 0x1f0 46 := {|
  at_sector := t_sector; at_phase := t_phase; at_reg := t_reg; at_wait := t_polls |}.
Proof.
  - intros p. unfold t_polls. lia.
  - intros p k Hk Hp.
    assert (E : (496 + k =? 0x1f7) || (496 + k =? 0x3f6) = true) by (destruct Hk as [-> | ->]; done).
    unfold port_in, toy_ports. rewrite E. split; [done|]. intros Hs. split_and!.
    + apply polls_pred.
    + unfold toy_status. by destruct (t_polls p =? 0)%nat, (t_phase p).
    + intros Hw. unfold toy_status. rewrite Hw. by destruct (t_phase p).
  - intros n p Hp. assert (E : pass n p = toy_to (t_phase p) (pred (t_polls p)) p) by (simpl; by destruct (t_phase p)).
    rewrite E. split; [done|]. rewrite polls_pred. lia.
  - intros n p Hp Hn. simpl. rewrite Hp, (proj2 (Z.leb_le _ _) Hn). done.
  - intros k v p Hk Hp Hw. rewrite (toy_out _ _ _ Hp Hw), (proj2 (Z.eqb_neq _ _)) by lia.
    replace (496 + k - 0x1f0) with k by lia. unfold toy_write. cbn [at_kept t_phase t_reg t_sector]. split_and!; [done..|].
    case_decide as D.
    + destruct D as [-> N]. destruct (Z.testbit v 4), (Z.testbit (t_reg p 6) 4); done.
    + destruct (Z.eqb_spec k 6) as [->|]; [|done].
      destruct (Bool.eqb (Z.testbit v 4) (Z.testbit (t_reg p 6) 4)) eqn:E; [done|].
      apply eqb_false_iff in E. tauto.
  - intros v d s p Hp Hw Hd Hs Hv E2 E3 E4 E5 E6. destruct (toy_lba_named _ d s Hd Hs E3 E4 E5 E6) as [El Ed].
    rewrite (toy_out _ _ _ Hp Hw). simpl. unfold toy_command. rewrite El, Ed. by destruct Hv as [-> | ->].
  - intros d s p Hp. simpl. rewrite Hp. by eexists.
  - intros d s p Hp _. simpl. by rewrite Hp.
  - intros d s x p Hp _. simpl. by rewrite Hp.
  - intros d s x p Hp. simpl. rewrite Hp. by eexists.
Defined.
Definition ex_disks (d s : Z) : list Z := [d; s].
Definition ex_channel : channel := Channel "ide0" 0x1f0 46 None false 0 [AtaDisk "hda" 0 true; AtaDisk "hdb" 1 true].
Definition ex_ide : ide toy := Ide (Hw ex_kst (Toy ex_disks Idle (fun _ => 0) 1)) [ex_channel].
